(* ===== verification/_CoqProject ===== *)
-Q . S2P
Prelude.v
Ring.v
Elementary.v
IndexQueue.v
OverflowQueue.v
SpscQueue.v
UnrestrictedAtomic.v
UniqueIndexSet.v
HeapMemory.v
Clock.v
MessageQueue.v
Files.v
DatagramSocket.v
BumpAllocator.v
PoolAllocator.v
OneChunkAllocator.v
ShmAllocator.v
ReferenceCounter.v
FileReferenceSet.v
ZeroCopyConnection.v
Container.v
BbContainers.v
TriggerQueue.v
Events.v
SharedMemory.v
Publisher.v
Subscriber.v
PubSub.v
PubSubScenarios.v
RwLock.v
WinMutex.v
IpcHandle.v
PosixLocks.v
PosixSemaphore.v
Semaphore.v
ByteString.v
SemanticString.v
SystemTypes.v
NamedConcept.v
PortIds.v
LocalRegistry.v
EventConcept.v
Processes.v
Storages.v
LocalStorages.v
LocalConnection.v
LocalMemory.v
Channels.v
MqChannel.v
Directory.v
DirectorySystem.v
DynamicConfig.v
EventPorts.v
PubSubMembers.v
ServiceConfig.v
ServiceBuilder.v
ServiceLifecycle.v
ServiceSessions.v
ServiceRuns.v
ServiceSystem.v
ServiceScenarios.v
