(* ===== verification/Prelude.v ===== *)
(** * A verification library for elkodon

    elkodon (iceoryx in Rust) moves messages between processes without copying
    them. A publisher owns a data segment in shared memory, loans chunks of it to
    its user and sends their offsets to subscribers; a subscriber reads the
    message in place and sends the offset back. This library models the code that
    makes this work, bottom up, and proves the properties it relies on.

    ** The program and the files

    The repository has four layers; each file models sources of one of them.

    - elkodon_pal: locks for platforms that only offer "wait while an integer has
      a value". concurrency_primitives: [RwLock] (mutex.rs, rwlock.rs),
      [Semaphore] (semaphore.rs, barrier.rs, condition_variable.rs);
      posix/src/windows/pthread.rs: [WinMutex].
    - elkodon_bb: building blocks, most of which live in shared memory.
      [Elementary]: alignment arithmetic, relocatable pointers, the allocator
      trait as a class with its contract ([BaseAllocator], [AllocatorContract]).
      [Ring]: positions in ring buffers, shared by the queues.
      lock_free/spsc: [IndexQueue] (index_queue.rs), [OverflowQueue]
      (safely_overflowing_index_queue.rs), [SpscQueue] (queue.rs);
      lock_free/spmc: [UnrestrictedAtomic]; lock_free/mpmc: [UniqueIndexSet],
      [Container].
      memory: [BumpAllocator], [PoolAllocator], [OneChunkAllocator], [HeapMemory]
      (heap_allocator.rs over posix/src/memory.rs).
      container: [BbContainers] (queue.rs, vec.rs), [ByteString],
      [SemanticString]; system_types and the strings made of them: [SystemTypes].
      threadsafe: [TriggerQueue] (trigger_queue.rs). posix: [PortIds]
      (unique_system_id.rs, with the names elkodon makes of ids), [Clock] (clock.rs,
      adaptive_wait.rs and the loops that wait with a timeout), [MessageQueue],
      [Files] (file.rs, file_descriptor.rs and the modes), [DatagramSocket]
      (unix_datagram_socket.rs), [IpcHandle] (unmovable_ipc_handle.rs, under every interleaving), [PosixLocks]
      (mutex.rs, read_write_mutex.rs, barrier.rs, with elementary's scope_guard.rs),
      [PosixSemaphore].
    - elkodon_cal: the concepts services are built from.
      [ShmAllocator]: shm_allocator/* (trait as a class with its contract).
      [SharedMemory]: shared_memory/posix.rs.
      [ReferenceCounter], [FileReferenceSet], [Directory]: shared_memory_directory/*;
      [DirectorySystem]: a directory with all who have opened files of it.
      [ZeroCopyConnection]: zero_copy_connection/posix_shared_memory.rs.
      [NamedConcept]: named_concept.rs and the configurations. [Processes]: what
      the operating system keeps for processes that share files, as an interface;
      [Storages]: static_storage/file.rs, dynamic_storage/posix_shared_memory.rs.
      [Events]: event/process_local.rs over posix/src/condition_variable.rs;
      [EventConcept]: event/mod.rs and how events are created, opened and found.
      [LocalRegistry]: the map behind a mutex that all concepts of one process
      share; on top of it [LocalStorages] (static_storage and dynamic_storage),
      [LocalConnection] (zero_copy_connection), [LocalMemory] (shared_memory),
      each process_local.rs.
      [Channels]: communication_channel/mod.rs, posix_shared_memory.rs and
      process_local.rs, both against one contract ([ChannelContract]); [MqChannel]:
      message_queue.rs, against the same contract.
    - elkodon: ports and services.
      [Publisher]: port/publisher.rs, sample_mut.rs, message.rs and
      details/subscriber_connections.rs. [Subscriber]: port/subscriber.rs,
      sample.rs and details/publisher_connections.rs. [PubSub]: a publisher with
      its subscribers as one system; [PubSubMembers]: subscribers that come and go
      meanwhile. [PubSubScenarios]: runs in which samples or
      subscribers get lost. [EventPorts]: port/notifier.rs, listener.rs.
      [DynamicConfig]: service/dynamic_config/*. [ServiceConfig]: service_name.rs,
      global_config.rs, service/static_config/* and the names of the resources.
      [ServiceBuilder]: service/builder/* and service/mod.rs, as programs over the
      calls of [Processes]. [ServiceLifecycle]: the roles a process goes through and
      the invariant of all processes; [ServiceSessions]: the programs follow the
      roles; [ServiceSystem]: any number of processes, interleaved, with any answers
      the documentation allows; [ServiceRuns]: the programs alone on a system that
      does not fail; [ServiceScenarios]: concrete processes, and runs that go wrong.

    How they interact: [Publisher] allocates from a [SharedMemory] with a
    [ShmAllocator] pool, which is a [PoolAllocator] over a [UniqueIndexSet]; it
    sends through a [ZeroCopyConnection], made of an [OverflowQueue] to the
    subscriber and an [IndexQueue] back, both set up with a [BumpAllocator]; it
    keeps its history in a [BbContainers.Queue] and learns about subscribers from
    a snapshot of a [Container], which is part of the dynamic configuration of its
    service ([DynamicConfig]). A notifier learns about listeners in the same way
    and reaches them through an [EventConcept]. [ServiceBuilder] creates and opens
    the static configuration of a service in a static storage and the dynamic one
    in a dynamic storage ([Storages]); both are found by the paths of
    [NamedConcept], which are [SemanticString]s. The concepts of one process put their shared part into a
    [Registry] and, where they need raw memory, take it from [HeapMemory].

    ** How code becomes definitions

    - A call returns, panics or is undefined ([outcome] below); errors of the code
      are values of [result]. Machine integers are [Z] with the operators of this
      file, which panic or wrap depending on the build ([Profile]); everything is
      proved for both builds unless a statement says otherwise. Atomic integers
      wrap in both.
    - Memory behind a pointer is a list; an access outside of it is [Undefined],
      an index of a slice out of range is [Panic], an uninitialised cell is [None].
    - A structure is a record with the fields of the source; [&self] operations on
      atomics and on cells take and return the record.
    - Concurrency: the threads of a component are state machines whose steps are
      the atomic accesses of the source (one program counter per access), and
      every interleaving of them is considered. Memory is sequentially
      consistent: the effects of the memory orderings that are weaker than that
      are not modelled. An operation that is used by a larger component appears
      there as one step, justified by its own linearizability theorem where it has
      one; solo-run theorems connect the steps with the functions.
    - The operating system (shared memory objects, permissions, clocks, sleeping)
      is a parameter: a record of answers, or an arbitrary boolean for a [wait]
      that may return at any time.
    - Retry loops have fuel. Uninterrupted, a compare-exchange loop needs two
      rounds, which is the fuel of the sequential functions; the loop that
      collects returned samples needs one round more than the capacity of the
      channel; clearing a queue needs its length. Where fuel runs out the result
      is [Undefined], so every theorem that says that a call returns also says
      that the fuel is enough.

    ** What is shown

    - Queues, index set, container, register: linearizability or conservation
      under every interleaving (nothing lost, duplicated or reordered; free, owned
      and in-flight indices partition the set; a value of several words is read as
      it was stored), no access leaves the memory, and the sequential operations
      refine lists on every branch. A reader of the container can miss an element;
      a queue of capacity zero duplicates; two threads that share a producer tear
      a value.
    - Allocators: chunks are aligned, inside of their region and pairwise
      disjoint, also for threads that allocate concurrently; the memory asked for
      by the size functions suffices; a segment for [n] messages has [n] chunks;
      the heap allocator frees what it allocated, but moves content when it grows
      chunks with large alignments.
    - Strings: byte strings refine lists, semantic strings stay legal whatever is
      called and whatever fails, as long as the closures given to [retain] answer
      alike both times; paths, file names and addresses round trip; names of concepts
      are found again and do not collide, with the suffixes the code uses; names made
      of ids are unique.
    - Connections: for any order of calls no sample is lost and releasing always
      succeeds; the ports are exclusive under every interleaving. With the sender
      interrupted between its two length queries a release can fail. Within a
      process the same calls do the same to the same channels. Communication
      channels of both kinds are bounded queues.
    - Directory of files: lookup, creation and release on every branch; whatever the
      threads do, contents of files never overlap, and a file is read as it was
      written; schedules in which names are inserted twice, slots leak, or the
      memory of the directory is used up, which is never given back.
    - Publisher and subscribers: the reference counters equal the number of
      references held by loans, history, channels and subscribers, hence loaning
      never runs out of memory and never hands out a sample in use, also when
      subscribers join and leave, as long as they leave without samples and the history
      fits their buffers; who joins late receives the history. The scenarios show what
      leaves these conditions: subscribers that leave with samples, an
      index that is used again, a history longer than a buffer, messages of size
      zero.
    - Events: no signal is lost between a notifier and listeners that wait
      without a timeout, the ids are a bounded queue, what is notified is received in
      its order, notifying reaches every listener whose channel can be opened and whose
      index the notifier does not know from another one; runs in which a timeout swallows a signal or a
      listener is never connected.
    - Services: creating, opening and dropping on every branch; for any number of
      processes a service that is held exists with the configuration it was
      created with, and when nobody holds it everything is removed, provided that
      nobody was refused for what it required; alone, a service with any settings is
      created, opened with any requirements it satisfies, and removed. Runs in which
      failures block a name or leak a reference.
    - Locks: mutual exclusion for any number of threads and any behaviour of the
      platform, for the pthread mutexes of Windows too; a lost wake-up of the
      writer-preferring lock; recursive and robust mutexes with two owners.
    - Wrappers of POSIX: a wait with a timeout on the monotonic clock ends and says why;
      message queues are bounded priority queues, semaphores counters, the datagram
      sockets of a name a bounded queue; a created file contains what its mode asks for,
      and what is written to a file is read from it; a thread holds a lock exactly when
      it has a guard, but for one answer on the realtime clock; an object in a handle that processes share is set up once and
      torn down once, by its last user. Runs in which a timeout is not kept, a guard
      gets lost, or a creation does not create.

    Bounds: theorems about counters that never wrap in practice state how many
    operations they cover (2^32 modifications of an index set, 2^31 calls of a
    publisher, 2^64 positions of a queue).

    ** What is not modelled

    The other POSIX wrappers (elkodon_bb/posix, elkodon_pal/posix:
    directories, threads, processes, users, access rights, messages with descriptors and
    credentials, and the bindings of each platform), logging, tests,
    benchmarks and examples: system calls, the translation of errno, and formatting.
    What the modelled code relies on of them is a parameter or an interface.
    Serialization (toml, cdr) and hashing (sha1) are libraries; they are arguments of
    [ServiceBuilder]. The variants of events and channels over sockets, and the
    reactor, are thin layers over the operating system. The port factories hand
    settings to the ports. Of the condition variable only the operations with a
    predicate are modelled.

    This file holds what all others share: outcomes, machine integers, memory,
    transition systems with their invariant and simulation rules, tactics and
    hints. *)

From stdpp Require Export base tactics numbers list gmap relations.
From Stdlib Require Export ZArith Lia.

#[global] Set Default Goal Selector "!".

Open Scope Z_scope.

(** ** Outcomes of Rust code

    A call either returns, unwinds with a panic ([fatal_panic!], an arithmetic
    overflow in a checked build, a remainder by zero, an out-of-range slice
    index) or performs an access through a raw pointer that lies outside the
    memory the pointer owns, which is undefined behaviour. *)

Inductive outcome (A : Type) : Type :=
| Return (a : A)
| Panic
| Undefined.
Arguments Return {A} _.
Arguments Panic {A}.
Arguments Undefined {A}.

(** Rust's [Result]. *)
Inductive result (T E : Type) : Type :=
| Ok (t : T)
| Err (e : E).
Arguments Ok {T E} _.
Arguments Err {T E} _.

Definition obind {A B} (m : outcome A) (k : A → outcome B) : outcome B :=
  match m with
  | Return a => k a
  | Panic => Panic
  | Undefined => Undefined
  end.

Declare Scope outcome_scope.
Delimit Scope outcome_scope with outcome.
Notation "'let!' x := m 'in' k" := (obind m (λ x, k))
  (at level 10, x name, m at level 100, k at level 200) : outcome_scope.
Notation "'let!' ' p := m 'in' k" := (obind m (λ x, match x with p => k end))
  (at level 10, p pattern, m at level 100, k at level 200) : outcome_scope.
Open Scope outcome_scope.

(** [safe m] : the computation neither panics nor has undefined behaviour. *)
Definition safe {A} (m : outcome A) : Prop := ∃ a, m = Return a.

(** ** Machine integers

    Rust builds with or without overflow checks; the profile is a parameter of
    everything that adds, subtracts or multiplies. *)

Class Profile := overflow_checks : bool.

Definition USIZE : Z := 2 ^ 64.
Definition U32 : Z := 2 ^ 32.
Definition U8 : Z := 2 ^ 8.

Definition wrap (M z : Z) : Z := z mod M.

Section Arithmetic.
Context `{P : Profile}.

(** The result of an arithmetic operator whose exact value is [z], at the
    type with [M] values. *)
Definition arith (M z : Z) : outcome Z :=
  if (0 <=? z) && (z <? M) then Return z
  else if overflow_checks then Panic
  else Return (wrap M z).

Definition uadd (a b : Z) : outcome Z := arith USIZE (a + b).
Definition usub (a b : Z) : outcome Z := arith USIZE (a - b).
Definition umul (a b : Z) : outcome Z := arith USIZE (a * b).
Definition u32add (a b : Z) : outcome Z := arith U32 (a + b).

(** [%] panics on a zero divisor in every profile. *)
Definition urem (a b : Z) : outcome Z :=
  if b =? 0 then Panic else Return (a mod b).

Definition udiv (a b : Z) : outcome Z :=
  if b =? 0 then Panic else Return (a / b).
End Arithmetic.

(** ** Memory reached through raw pointers and slices *)

(** [*ptr.add(i)]: undefined outside of the allocation. *)
Definition raw_read {A} (l : list A) (i : Z) : outcome A :=
  if 0 <=? i then
    match l !! Z.to_nat i with
    | Some a => Return a
    | None => Undefined
    end
  else Undefined.

(** [ptr.add(i).write(a)]: undefined outside of the allocation. *)
Definition raw_write {A} (l : list A) (i : Z) (a : A) : outcome (list A) :=
  if (0 <=? i) && (i <? Z.of_nat (length l)) then Return (<[Z.to_nat i := a]> l)
  else Undefined.

(** [slice[i]]: bounds checked. *)
Definition index_read {A} (l : list A) (i : Z) : outcome A :=
  match raw_read l i with
  | Return a => Return a
  | _ => Panic
  end.

Definition index_write {A} (l : list A) (i : Z) (a : A) : outcome (list A) :=
  match raw_write l i a with
  | Return l' => Return l'
  | _ => Panic
  end.

(** A cell of [MaybeUninit<T>]; reading an uninitialised one is undefined. *)
Definition assume_init {T} (o : option T) : outcome T :=
  match o with Some v => Return v | None => Undefined end.

(** [compare_exchange] on an atomic cell: the cell's new value and the
    [Result] the instruction returns. *)
Definition compare_exchange (cell current new : Z) : Z * result Z Z :=
  if cell =? current then (new, Ok cell) else (cell, Err cell).

Definition compare_exchange_bool (cell current new : bool) : bool * result bool bool :=
  if Bool.eqb cell current then (new, Ok cell) else (cell, Err cell).

(** ** Labelled transition systems

    Concurrent components are transition systems whose steps are the atomic
    memory accesses of the source; a step may carry an observable label. *)

Section Lts.
Context {S L : Type} (step : S → option L → S → Prop).

Inductive steps : S → list L → S → Prop :=
| steps_refl s : steps s [] s
| steps_silent s tr s' s'' :
    steps s tr s' → step s' None s'' → steps s tr s''
| steps_label s tr s' l s'' :
    steps s tr s' → step s' (Some l) s'' → steps s (tr ++ [l]) s''.

(** Rule induction with an invariant that may mention the trace so far. *)
Lemma steps_invariant (I : S → list L → Prop) s0 :
  I s0 [] →
  (∀ s tr s', steps s0 tr s → I s tr → step s None s' → I s' tr) →
  (∀ s tr l s', steps s0 tr s → I s tr → step s (Some l) s' → I s' (tr ++ [l])) →
  ∀ s tr, steps s0 tr s → I s tr.
Proof.
  intros H0 Hs Hl s tr Hsteps.
  assert (H : ∀ r, steps r tr s → r = s0 → steps s0 tr s ∧ I s tr).
  { clear Hsteps. induction 1 as [r|r tr s' s'' Hst IH Hstep|r tr s' l s'' Hst IH Hstep];
      intros ->.
    - split; [constructor | done].
    - destruct (IH eq_refl) as [IH1 IH2].
      split; [by econstructor | by eapply Hs].
    - destruct (IH eq_refl) as [IH1 IH2].
      split; [by econstructor | by eapply Hl]. }
  by apply (H s0).
Qed.

(** Refinement of a deterministic sequential specification: if every labelled
    step is matched by the specification and every silent step leaves the
    abstract state alone, the trace of labels is a run of the specification. *)
Context {A : Type} (spec : A → L → option A).

Fixpoint spec_run (a : A) (tr : list L) : option A :=
  match tr with
  | [] => Some a
  | l :: tr => match spec a l with Some a' => spec_run a' tr | None => None end
  end.

Lemma spec_run_app a tr1 tr2 :
  spec_run a (tr1 ++ tr2) =
  match spec_run a tr1 with Some a' => spec_run a' tr2 | None => None end.
Proof.
  revert a. induction tr1 as [|l tr1 IH]; intros a; [done|].
  cbn. by destruct (spec a l).
Qed.

Lemma forward_simulation (R : S → A → Prop) s0 a0 :
  R s0 a0 →
  (∀ s a s', R s a → step s None s' → R s' a) →
  (∀ s a l s', R s a → step s (Some l) s' → ∃ a', spec a l = Some a' ∧ R s' a') →
  ∀ s tr, steps s0 tr s → ∃ a, spec_run a0 tr = Some a ∧ R s a.
Proof.
  intros H0 Hs Hl. apply steps_invariant.
  - eauto.
  - intros s tr s' _ (a & Ha & HR) Hst. eauto.
  - intros s tr l s' _ (a & Ha & HR) Hst.
    destruct (Hl _ _ _ _ HR Hst) as (a' & Ha' & HR').
    exists a'. split; [|done]. rewrite spec_run_app, Ha. cbn. by rewrite Ha'.
Qed.
End Lts.

(** ** Counting threads *)

(** How many threads are in a state, or what they hold together. *)
Definition total {T} (f : T → nat) (ts : list T) : Z := Z.of_nat (sum_list_with f ts).

Section Total.
Context {T : Type}.
Implicit Types (f : T → nat) (ts : list T) (t : T).

Lemma total_split f l t r : total f (l ++ t :: r) = total f l + Z.of_nat (f t) + total f r.
Proof. unfold total. rewrite sum_list_with_app. cbn. lia. Qed.
Lemma total_nonneg f ts : 0 ≤ total f ts.
Proof. unfold total. lia. Qed.
Lemma total_replicate f n t : f t = 0%nat → total f (replicate n t) = 0.
Proof. intros Hf. unfold total. induction n as [|n IH]; [done|]. cbn. rewrite Hf. cbn. lia. Qed.
Lemma total_insert f ts i t t' :
  ts !! i = Some t → total f (<[i := t']> ts) = total f ts - Z.of_nat (f t) + Z.of_nat (f t').
Proof.
  intros Hi. rewrite insert_take_drop by (by eapply lookup_lt_Some).
  rewrite <- (take_drop_middle ts i t Hi) at 3. rewrite !total_split. lia.
Qed.
Lemma total_lookup f ts i t : ts !! i = Some t → Z.of_nat (f t) ≤ total f ts.
Proof.
  intros Hi. rewrite <- (take_drop_middle ts i t Hi), total_split.
  pose proof (total_nonneg f (take i ts)). pose proof (total_nonneg f (drop (S i) ts)). lia.
Qed.
(** Two different threads. *)
Lemma total_lookup_two f ts i j t u :
  i ≠ j → ts !! i = Some t → ts !! j = Some u → Z.of_nat (f t) + Z.of_nat (f u) ≤ total f ts.
Proof.
  revert i j. induction ts as [|x ts IH]; intros i j Hne Hi Hj; [done|]. pose proof (total_split f [] x ts) as Hs.
  change (total f []) with 0 in Hs. cbn [app] in Hs. pose proof (total_nonneg f ts).
  destruct i as [|i], j as [|j]; cbn in Hi, Hj; [done| | |].
  - injection Hi as ->. pose proof (total_lookup f _ _ _ Hj). lia.
  - injection Hj as ->. pose proof (total_lookup f _ _ _ Hi). lia.
  - pose proof (IH i j ltac:(congruence) Hi Hj). lia.
Qed.
End Total.

(** ** Shared lemmas: arithmetic *)

Lemma arith_ok `{Profile} M z : 0 ≤ z < M → arith M z = Return z.
Proof.
  intros. unfold arith.
  rewrite (proj2 (Z.leb_le 0 z)), (proj2 (Z.ltb_lt z M)) by lia. done.
Qed.

Lemma arith_panic `{P : Profile} M z :
  overflow_checks = true → (z < 0 ∨ M ≤ z) → arith M z = Panic.
Proof.
  intros Hc Hz. unfold arith. rewrite Hc.
  destruct (0 <=? z) eqn:E1; [|done]. destruct (z <? M) eqn:E2; [|done]. lia.
Qed.

Lemma uadd_ok `{Profile} a b : 0 ≤ a + b < USIZE → uadd a b = Return (a + b).
Proof. apply arith_ok. Qed.
Lemma usub_ok `{Profile} a b : 0 ≤ a - b < USIZE → usub a b = Return (a - b).
Proof. apply arith_ok. Qed.
Lemma umul_ok `{Profile} a b : 0 ≤ a * b < USIZE → umul a b = Return (a * b).
Proof. apply arith_ok. Qed.
Lemma u32add_ok `{Profile} a b : 0 ≤ a + b < U32 → u32add a b = Return (a + b).
Proof. apply arith_ok. Qed.
Lemma urem_ok a b : b ≠ 0 → urem a b = Return (a mod b).
Proof. intros. unfold urem. destruct (Z.eqb_spec b 0); [lia|done]. Qed.
Lemma udiv_ok a b : b ≠ 0 → udiv a b = Return (a / b).
Proof. intros. unfold udiv. destruct (Z.eqb_spec b 0); [lia|done]. Qed.

(** Two positions of a window no longer than the ring have different slots. *)
Lemma mod_window_inj n i j :
  0 < n → i mod n = j mod n → - n < i - j < n → i = j.
Proof.
  intros Hn Hij Hw.
  pose proof (Z.div_mod i n). pose proof (Z.div_mod j n).
  assert (i - j = n * (i / n - j / n)) by lia.
  assert (i / n - j / n = 0) by nia. lia.
Qed.

(** Joining the high and the low part of a word. *)
Lemma lor_disjoint_pow h a k :
  0 ≤ k → 0 ≤ a < 2 ^ k → Z.lor (h * 2 ^ k) a = h * 2 ^ k + a.
Proof.
  intros Hk Ha. pose proof (Z.add_lor_land (h * 2 ^ k) a).
  assert (Z.land (h * 2 ^ k) a = 0); [|lia].
  apply Z.bits_inj'. intros n Hn. rewrite Z.land_spec, Z.bits_0.
  rewrite <- Z.shiftl_mul_pow2 by lia.
  destruct (decide (n < k)).
  - by rewrite Z.shiftl_spec_low.
  - rewrite <- (Z.mod_small a (2 ^ k)) by done.
    rewrite Z.mod_pow2_bits_high by lia. apply Bool.andb_false_r.
Qed.

(** ** Shared lemmas: raw memory *)

Lemma raw_read_ok {A} (l : list A) i a :
  0 ≤ i → l !! Z.to_nat i = Some a → raw_read l i = Return a.
Proof.
  intros Hi Ha. unfold raw_read. rewrite (proj2 (Z.leb_le 0 i)) by lia. by rewrite Ha.
Qed.

Lemma raw_read_inv {A} (l : list A) i a :
  raw_read l i = Return a → 0 ≤ i ∧ l !! Z.to_nat i = Some a.
Proof.
  unfold raw_read. destruct (Z.leb_spec 0 i); [|done].
  destruct (l !! Z.to_nat i) eqn:E; [|done]. intros [= ->]. done.
Qed.

Lemma raw_read_in {A} (l : list A) i :
  0 ≤ i < Z.of_nat (length l) → ∃ a, raw_read l i = Return a ∧ l !! Z.to_nat i = Some a.
Proof.
  intros Hi. destruct (lookup_lt_is_Some_2 l (Z.to_nat i)) as [a Ha]; [lia|].
  exists a. split; [apply raw_read_ok; [lia|done] | done].
Qed.

Lemma raw_write_ok {A} (l : list A) i a :
  0 ≤ i < Z.of_nat (length l) → raw_write l i a = Return (<[Z.to_nat i := a]> l).
Proof.
  intros. unfold raw_write.
  rewrite (proj2 (Z.leb_le 0 i)), (proj2 (Z.ltb_lt i _)) by lia. done.
Qed.

Lemma raw_write_inv {A} (l l' : list A) i a :
  raw_write l i a = Return l' →
  0 ≤ i < Z.of_nat (length l) ∧ l' = <[Z.to_nat i := a]> l.
Proof.
  unfold raw_write.
  destruct (Z.leb_spec 0 i), (Z.ltb_spec i (Z.of_nat (length l))); cbn; [|done..].
  intros [= <-]. done.
Qed.

Lemma index_read_ok {A} (l : list A) i a :
  0 ≤ i → l !! Z.to_nat i = Some a → index_read l i = Return a.
Proof. intros. unfold index_read. by rewrite (raw_read_ok l i a). Qed.

Lemma index_write_ok {A} (l : list A) i a :
  0 ≤ i < Z.of_nat (length l) → index_write l i a = Return (<[Z.to_nat i := a]> l).
Proof. intros. unfold index_write. by rewrite raw_write_ok. Qed.

(** ** Shared lemmas: list folds and updates *)

Lemma list_insert_comm_ne {A} (l : list A) (i j : nat) x y :
  i ≠ j → <[i := x]> (<[j := y]> l) = <[j := y]> (<[i := x]> l).
Proof. intros. by rewrite list_insert_insert_ne. Qed.

Lemma last_drop_lt {A} (l : list A) (n : nat) : (n < length l)%nat → last (drop n l) = last l.
Proof.
  intros Hn. rewrite <- (take_drop n l) at 2. rewrite last_app.
  destruct (last (drop n l)) eqn:E; [done|].
  apply last_None in E. apply (f_equal length) in E. rewrite length_drop in E. cbn in E. lia.
Qed.

(** ** Tactics *)

(** Case analysis on every boolean test that blocks the goal or a hypothesis. *)
Ltac case_bool :=
  repeat match goal with
  | H : context [if ?b then _ else _] |- _ => destruct b eqn:?
  | |- context [if ?b then _ else _] => destruct b eqn:?
  end.

(** Decide the integer comparisons of the goal that linear arithmetic decides. *)
Ltac zbool :=
  repeat match goal with
  | |- context [?a <=? ?b] =>
      first [ rewrite (proj2 (Z.leb_le a b)) by lia | rewrite (proj2 (Z.leb_gt a b)) by lia ]
  | |- context [?a <? ?b] =>
      first [ rewrite (proj2 (Z.ltb_lt a b)) by lia | rewrite (proj2 (Z.ltb_ge a b)) by lia ]
  | |- context [?a =? ?b] =>
      first [ rewrite (proj2 (Z.eqb_eq a b)) by lia | rewrite (proj2 (Z.eqb_neq a b)) by lia ]
  end; cbn [andb orb negb].

(** Invert a chain of [let!] that is known to return. *)
Ltac inv_outcome :=
  repeat match goal with
  | H : obind ?m _ = Return _ |- _ =>
      let E := fresh "E" in destruct m eqn:E; cbn [obind] in H; [|discriminate H..]
  | H : Return _ = Return _ |- _ => injection H as H; try subst
  | H : Panic = Return _ |- _ => discriminate H
  | H : Undefined = Return _ |- _ => discriminate H
  | H : raw_write _ _ _ = Return _ |- _ => apply raw_write_inv in H as [? ->]
  end.

(** ** Hints *)

Create HintDb elkodon.
Create Rewrite HintDb elkodon.
#[export] Hint Resolve raw_read_ok raw_write_ok : elkodon.
#[export] Hint Rewrite @uadd_ok @usub_ok @umul_ok @u32add_ok @urem_ok @udiv_ok
  using (unfold USIZE, U32 in *; lia) : elkodon.
#[export] Hint Rewrite @length_insert @length_app @length_replicate : elkodon.
