(* ===== verification/Ring.v ===== *)
(** * Ring buffers

    The positions of the queues in elkodon count pushes and pops and are only
    reduced modulo the size of the buffer when an element is addressed.  This
    file relates such a buffer to the list of elements between the read and the
    write position; every queue of the library is verified against it. *)

From S2P Require Import Prelude.

Section Ring.
Context {A : Type}.
Implicit Types (d l : list A) (n p : Z) (x : A).

(** The slot of a position. *)
Definition slot (n p : Z) : nat := Z.to_nat (p mod n).

(** [ring_rep d n p l]: the [n] cells [d] hold the elements [l] at the
    positions [p], [p + 1], ... *)
Definition ring_rep d n p l : Prop :=
  ∀ k x, l !! k = Some x → d !! slot n (p + Z.of_nat k) = Some x.

Lemma slot_lt n p : 0 < n → (slot n p < Z.to_nat n)%nat.
Proof. intros. unfold slot. pose proof (Z.mod_pos_bound p n). lia. Qed.

Lemma slot_inj n p q : 0 < n → - n < p - q < n → slot n p = slot n q → p = q.
Proof.
  unfold slot. intros Hn Hw Heq.
  pose proof (Z.mod_pos_bound p n). pose proof (Z.mod_pos_bound q n).
  apply (mod_window_inj n); [done| lia | done].
Qed.

Lemma ring_rep_nil d n p : ring_rep d n p [].
Proof. intros k x Hk. by rewrite lookup_nil in Hk. Qed.

(** A write outside of the window of [l] does not disturb it. *)
Lemma ring_rep_insert_outside d n p q l x :
  0 < n →
  (∀ k, (k < length l)%nat → - n < p + Z.of_nat k - q < n ∧ p + Z.of_nat k ≠ q) →
  ring_rep d n p l →
  ring_rep (<[slot n q := x]> d) n p l.
Proof.
  intros Hn Hout Hrep k y Hk.
  rewrite list_lookup_insert_ne; [by apply Hrep|].
  apply lookup_lt_Some in Hk. destruct (Hout _ Hk) as [Hw Hne].
  intros Heq. symmetry in Heq. by apply slot_inj in Heq.
Qed.

(** Appending an element at the write position. *)
Lemma ring_rep_snoc d n p l x :
  0 < n → Z.of_nat (length d) = n → Z.of_nat (length l) < n →
  ring_rep d n p l →
  ring_rep (<[slot n (p + Z.of_nat (length l)) := x]> d) n p (l ++ [x]).
Proof.
  intros Hn Hd Hl Hrep k y Hk.
  destruct (decide (k < length l)%nat) as [Hlt|Hge].
  - rewrite lookup_app_l in Hk by done.
    eapply (ring_rep_insert_outside d n p (p + Z.of_nat (length l)) l); [done| |done|done].
    intros j Hj. lia.
  - rewrite lookup_app_r in Hk by lia.
    apply list_lookup_singleton_Some in Hk as [Hk <-].
    replace k with (length l) by lia.
    apply list_lookup_insert_eq. pose proof (slot_lt n (p + Z.of_nat (length l)) Hn). lia.
Qed.

Lemma ring_rep_cons d n p x l :
  ring_rep d n p (x :: l) ↔ d !! slot n p = Some x ∧ ring_rep d n (p + 1) l.
Proof.
  split.
  - intros Hrep. split.
    + specialize (Hrep 0%nat x eq_refl). by rewrite Z.add_0_r in Hrep.
    + intros k y Hk. specialize (Hrep (S k) y Hk).
      by replace (p + 1 + Z.of_nat k) with (p + Z.of_nat (S k)) by lia.
  - intros [Hx Hrep] [|k] y Hk; cbn in Hk.
    + injection Hk as ->. by rewrite Z.add_0_r.
    + replace (p + Z.of_nat (S k)) with (p + 1 + Z.of_nat k) by lia. by apply Hrep.
Qed.

Lemma ring_rep_app d n p l1 l2 :
  ring_rep d n p (l1 ++ l2) ↔
  ring_rep d n p l1 ∧ ring_rep d n (p + Z.of_nat (length l1)) l2.
Proof.
  revert p. induction l1 as [|x l1 IH]; intros p; cbn [app length].
  - replace (p + Z.of_nat 0) with p by lia. pose proof (ring_rep_nil d n p). tauto.
  - rewrite !ring_rep_cons, IH.
    replace (p + Z.of_nat (S (length l1))) with (p + 1 + Z.of_nat (length l1)) by lia. tauto.
Qed.
End Ring.
