(* ===== verification/Elementary.v ===== *)
(** * elkodon_bb/elementary: alignment arithmetic, relocatable pointers and the
    allocator interface

    - [Module Math]: [align], [log2_of_power_of_2] and [round_to_pow2] of
      [math.rs];
    - [Module RelocatablePointer]: the self-relative pointer every shared
      memory container is built from ([relocatable_ptr.rs]);
    - the trait [BaseAllocator] as a type class, with the contract its clients
      (the relocatable containers) rely on as the class [AllocatorContract]. *)

From S2P Require Import Prelude.

Module Math.
Section Math.
Context `{P : Profile}.

(** [align]: the next multiple of [alignment]. *)
Definition align (value alignment : Z) : outcome Z :=
  let! r := urem value alignment in
  if r =? 0 then Return value
  else
    let! s := uadd value alignment in
    let! r := urem value alignment in
    usub s r.

(** The loop of [log2_of_power_of_2], [i] counting up to 64. *)
Fixpoint log2_loop (fuel : nat) (i bits : Z) : Z :=
  match fuel with
  | O => 0
  | S fuel => if bits =? 1 then i else log2_loop fuel (i + 1) (Z.shiftr bits 1)
  end.

Definition log2_of_power_of_2 (value : Z) : Z := log2_loop 64 0 value.

(** One line [value |= value >> s] of [round_to_pow2]. *)
Definition smear (s v : Z) : Z := Z.lor v (Z.shiftr v s).

Definition round_to_pow2 (value : Z) : outcome Z :=
  let! v := usub value 1 in
  uadd (smear 32 (smear 16 (smear 8 (smear 4 (smear 2 (smear 1 v)))))) 1.

Lemma align_ok value alignment :
  0 < alignment → 0 ≤ value → value + alignment < USIZE →
  ∃ v, align value alignment = Return v ∧ value ≤ v < value + alignment ∧ v mod alignment = 0.
Proof.
  intros Ha Hv Hb. unfold align.
  pose proof (Z.mod_pos_bound value alignment Ha).
  rewrite !urem_ok by lia. cbn [obind].
  destruct (Z.eqb_spec (value mod alignment) 0) as [E|E].
  - exists value. split; [done|]. lia.
  - rewrite uadd_ok by lia. cbn [obind]. rewrite usub_ok by lia.
    eexists; split; [done|]. split; [lia|].
    replace (value + alignment - value mod alignment)
      with (alignment * (value / alignment + 1))
      by (pose proof (Z.div_mod value alignment ltac:(lia)); lia).
    rewrite Z.mul_comm. apply Z.mod_mul. lia.
Qed.

(** Bit [i] of [smeared] is set iff one of the [w] bits of [x] from [i] on is. *)
Definition smeared (w x y : Z) : Prop :=
  ∀ i, 0 ≤ i → Z.testbit y i = true ↔ ∃ j, i ≤ j < i + w ∧ Z.testbit x j = true.

Lemma smear_step w x y : 0 < w → smeared w x y → smeared (2 * w) x (smear w y).
Proof.
  intros Hw Hy i Hi. unfold smear.
  rewrite Z.lor_spec, Z.shiftr_spec, Bool.orb_true_iff, (Hy i), (Hy (i + w)) by lia.
  split.
  - intros [(j & ? & ?)|(j & ? & ?)]; exists j; split; [lia|done|lia|done].
  - intros (j & Hj & Hb). destruct (decide (j < i + w)); [left|right]; exists j;
      (split; [lia|done]).
Qed.

Lemma smeared_64 x :
  smeared 64 x (smear 32 (smear 16 (smear 8 (smear 4 (smear 2 (smear 1 x)))))).
Proof.
  apply (smear_step 32), (smear_step 16), (smear_step 8), (smear_step 4), (smear_step 2),
    (smear_step 1); try lia.
  intros i Hi. split; [intros Hb; exists i; split; [lia|done]|].
  intros (j & Hj & Hb). by replace i with j by lia.
Qed.

(** The smeared value of a positive word has all bits up to its highest one. *)
Lemma smeared_ones x y :
  0 < x < USIZE → 0 ≤ y → smeared 64 x y → y = Z.ones (Z.log2 x + 1).
Proof.
  intros Hx Hy0 Hy. pose proof (Z.log2_nonneg x).
  assert (Z.log2 x < 64) by (apply Z.log2_lt_pow2; unfold USIZE in *; lia).
  apply Z.bits_inj'. intros i Hi.
  apply Bool.eq_true_iff_eq. rewrite (Hy i Hi), Z.ones_spec_iff by lia.
  split.
  - intros (j & Hj & Hb). assert (j ≤ Z.log2 x).
    { destruct (decide (j ≤ Z.log2 x)); [done|].
      rewrite Z.bits_above_log2 in Hb by lia. done. }
    lia.
  - intros Hlt. exists (Z.log2 x). split; [lia|]. apply Z.bit_log2. lia.
Qed.

(** [round_to_pow2] returns the least power of two that is not below its
    argument, for every argument from 1 up to 2^63. *)
Theorem round_to_pow2_correct (value : Z) :
  1 ≤ value ≤ 2 ^ 63 →
  ∃ k, 0 ≤ k ≤ 63 ∧ round_to_pow2 value = Return (2 ^ k) ∧
       value ≤ 2 ^ k ∧ (k = 0 ∨ 2 ^ (k - 1) < value).
Proof.
  intros Hv. unfold round_to_pow2.
  rewrite usub_ok by (unfold USIZE; lia). cbn [obind].
  destruct (decide (value = 1)) as [->|Hne].
  { exists 0. split; [lia|]. split; [reflexivity|]. lia. }
  assert (∀ s v, 0 ≤ v → 0 ≤ smear s v) as Hnn.
  { intros s v Hv0. apply Z.lor_nonneg. by rewrite Z.shiftr_nonneg. }
  pose proof (smeared_64 (value - 1)) as Hsm.
  assert (0 ≤ smear 32 (smear 16 (smear 8 (smear 4 (smear 2 (smear 1 (value - 1)))))))
    as Hy0 by (do 6 apply Hnn; lia).
  apply smeared_ones in Hsm as ->; [|unfold USIZE; lia|done].
  pose proof (Z.log2_spec (value - 1) ltac:(lia)) as [Hlo Hhi].
  pose proof (Z.log2_nonneg (value - 1)).
  assert (Z.log2 (value - 1) < 63) by (apply Z.log2_lt_pow2; lia).
  rewrite Z.ones_equiv.
  assert (2 ^ (Z.log2 (value - 1) + 1) ≤ 2 ^ 63) by (apply Z.pow_le_mono_r; lia).
  rewrite uadd_ok by (unfold USIZE; lia).
  exists (Z.log2 (value - 1) + 1). split; [lia|].
  split; [f_equal; lia|]. rewrite <- Z.add_1_r in Hhi. split; [lia|]. right.
  replace (Z.log2 (value - 1) + 1 - 1) with (Z.log2 (value - 1)) by lia. lia.
Qed.

Lemma log2_loop_pow2 (fuel : nat) (k i : Z) :
  0 ≤ k < Z.of_nat fuel → log2_loop fuel i (2 ^ k) = i + k.
Proof.
  revert k i. induction fuel as [|fuel IH]; intros k i Hk; [lia|]. cbn [log2_loop].
  destruct (Z.eqb_spec (2 ^ k) 1) as [E|E].
  - destruct (decide (k = 0)) as [->|]; [lia|].
    pose proof (Z.pow_gt_1 2 k). lia.
  - assert (k ≠ 0) by (intros ->; by apply E).
    rewrite Z.shiftr_div_pow2 by lia.
    replace k with (k - 1 + 1) at 1 by lia. rewrite Z.pow_add_r by lia.
    rewrite Z.div_mul by lia. rewrite IH by lia. lia.
Qed.
End Math.

Lemma round_to_pow2_witness :
  ∃ k, 0 ≤ k ≤ 63 ∧ round_to_pow2 (P := true) 37 = Return (2 ^ k) ∧
       37 ≤ 2 ^ k ∧ (k = 0 ∨ 2 ^ (k - 1) < 37).
Proof. apply (round_to_pow2_correct (P := true) 37). lia. Defined.
End Math.

(** ** Relocatable pointers *)

Module RelocatablePointer.
(** Only the distance between the pointer's own location and the pointee is
    stored; [self] is the address of the pointer in the current process. *)
Record t := { distance : Z }.

Definition new (distance : Z) : t := {| distance := distance |}.
Definition new_uninit : t := new 0.
Definition init (self ptr : Z) (p : t) : t := {| distance := ptr - self |}.
Definition as_ptr (self : Z) (p : t) : Z := self + distance p.

(** A pointer initialised in one process reaches the same place of the shared
    segment in a process that maps the segment elsewhere. *)
Lemma as_ptr_relocated (base base' off_self off_ptr : Z) (p : t) :
  as_ptr (base' + off_self) (init (base + off_self) (base + off_ptr) p) = base' + off_ptr.
Proof. unfold as_ptr, init. cbn. lia. Qed.
End RelocatablePointer.

(** ** The allocator interface *)

Inductive AllocationError :=
| SizeIsZero | SizeTooLarge | AlignmentFailure | OutOfMemory | InternalError.

Inductive DeallocationError :=
| DeallocProvidedPointerNotContainedInAllocator | DeallocInternalError.

Inductive AllocationGrowError :=
| GrowProvidedPointerNotContainedInAllocator | GrowWouldShrink | GrowSizeIsZero
| GrowOutOfMemory | GrowAlignmentFailure | GrowInternalError.

Inductive AllocationShrinkError :=
| ShrinkProvidedPointerNotContainedInAllocator | ShrinkWouldGrow | ShrinkSizeIsZero
| ShrinkAlignmentFailure | ShrinkInternalError.

(** [std::alloc::Layout] and the slice [NonNull<[u8]>] an allocation returns. *)
Record Layout := mkLayout { l_size : Z; l_align : Z }.
Record Chunk := mkChunk { c_start : Z; c_len : Z }.

(** What [Layout::from_size_align] guarantees: a power-of-two alignment. *)
Definition layout_wf (l : Layout) : Prop :=
  0 ≤ l_size l ∧ ∃ k, 0 ≤ k ∧ l_align l = 2 ^ k.

Definition chunks_disjoint (c d : Chunk) : Prop :=
  c_start c + c_len c ≤ c_start d ∨ c_start d + c_len d ≤ c_start c.

Fixpoint pairwise_disjoint (cs : list Chunk) : Prop :=
  match cs with
  | [] => True
  | c :: cs => Forall (chunks_disjoint c) cs ∧ pairwise_disjoint cs
  end.

(** The trait [BaseAllocator], over an allocator with state [S]. *)
Class BaseAllocator (S : Type) := {
  allocate : S → Layout → outcome (result Chunk AllocationError * S);
  deallocate : S → Z → Layout → outcome (result unit DeallocationError * S)
}.

(** What an allocator promises to its clients: [owns s lo hi cs] says that the
    chunks [cs] are handed out from the region [lo, hi). A successful allocation
    adds a chunk that is large enough and aligned, inside of the region and
    disjoint from all others; a failed one changes nothing. *)
Class AllocatorContract (S : Type) `{BaseAllocator S} := {
  owns : S → Z → Z → list Chunk → Prop;
  owns_in_region s lo hi cs :
    owns s lo hi cs → Forall (λ c, lo ≤ c_start c ∧ c_start c + c_len c ≤ hi) cs;
  owns_disjoint s lo hi cs : owns s lo hi cs → pairwise_disjoint cs;
  owns_allocate s lo hi cs l r s' :
    owns s lo hi cs → layout_wf l → hi + l_size l + l_align l < USIZE →
    allocate s l = Return (r, s') →
    match r with
    | Ok c => l_size l ≤ c_len c ∧ c_start c mod l_align l = 0 ∧ owns s' lo hi (c :: cs)
    | Err _ => s' = s
    end
}.

Lemma layout_align_pos l : layout_wf l → 0 < l_align l.
Proof. intros [_ (k & Hk & ->)]. apply Z.pow_pos_nonneg; lia. Qed.
