(* ===== verification/IndexQueue.v ===== *)
(** * elkodon_bb/lock_free/src/spsc/index_queue.rs

    The lock-free single-producer single-consumer queue of indices.

    - the sequential operations as functions on the record [IndexQueue];
    - [Section Interleaving]: [push], [pop] and the position snapshot broken into
      their atomic memory accesses, with a producer, a consumer and an observer
      thread interleaved in any order;
    - the refinement of both to a bounded FIFO ([fifo_spec]). *)

From S2P Require Import Prelude Ring Elementary.

(** ** Data *)

(** [data] is the memory behind [data_ptr]; it is empty as long as the pointer
    of a relocatable queue is not initialised. *)
Record IndexQueue := mkIndexQueue {
  data_ptr : Z;
  data : list Z;
  capacity : Z;
  write_position : Z;
  read_position : Z;
  has_producer : bool;
  has_consumer : bool;
  is_memory_initialized : bool
}.

Definition set_data (q : IndexQueue) (d : list Z) : IndexQueue :=
  mkIndexQueue (data_ptr q) d (capacity q) (write_position q) (read_position q)
    (has_producer q) (has_consumer q) (is_memory_initialized q).
Definition set_write_position (q : IndexQueue) (p : Z) : IndexQueue :=
  mkIndexQueue (data_ptr q) (data q) (capacity q) p (read_position q)
    (has_producer q) (has_consumer q) (is_memory_initialized q).
Definition set_read_position (q : IndexQueue) (p : Z) : IndexQueue :=
  mkIndexQueue (data_ptr q) (data q) (capacity q) (write_position q) p
    (has_producer q) (has_consumer q) (is_memory_initialized q).
Definition set_has_producer (q : IndexQueue) (b : bool) : IndexQueue :=
  mkIndexQueue (data_ptr q) (data q) (capacity q) (write_position q) (read_position q)
    b (has_consumer q) (is_memory_initialized q).
Definition set_has_consumer (q : IndexQueue) (b : bool) : IndexQueue :=
  mkIndexQueue (data_ptr q) (data q) (capacity q) (write_position q) (read_position q)
    (has_producer q) b (is_memory_initialized q).

Section Operations.
Context `{P : Profile}.

(** ** Construction *)

(** [IndexQueue::new] (owning pointer); [ptr] is the address the heap returned.
    The loop writes 0 to each of the [capacity] cells. *)
Definition new (ptr : Z) (cap : Z) : IndexQueue :=
  mkIndexQueue ptr (replicate (Z.to_nat cap) 0) cap 0 0 true true true.

Definition new_uninit (cap : Z) : IndexQueue :=
  mkIndexQueue 0 [] cap 0 0 true true false.

(** [init]: takes the memory of the data from an allocator. The fill loop
    writes [capacity] words to the chunk. *)
Definition init {S} `{BaseAllocator S} (q : IndexQueue) (a : S)
    : outcome (result unit AllocationError * IndexQueue * S) :=
  if is_memory_initialized q then Panic
  else
    let! size := umul 8 (capacity q) in
    let! '(r, a') := allocate a (mkLayout size 8) in
    match r with
    | Err e => Return (Err e, q, a')
    | Ok c =>
        if 8 * capacity q <=? c_len c then
          Return (Ok tt,
            mkIndexQueue (c_start c) (replicate (Z.to_nat (capacity q)) 0) (capacity q)
              (write_position q) (read_position q) (has_producer q) (has_consumer q) true, a')
        else Undefined
    end.

Definition const_memory_size (cap : Z) : outcome Z :=
  let! m := umul 8 cap in
  let! s := uadd m 8 in
  usub s 1.

(** [FixedSizeIndexQueue::new]: the cells are a field of the same object. *)
Definition fixed_size_new (CAPACITY : Z) : IndexQueue :=
  mkIndexQueue 0 (replicate (Z.to_nat CAPACITY) 0) CAPACITY 0 0 true true true.

(** ** Producer and consumer handles *)

Definition verify_init (q : IndexQueue) : outcome unit :=
  if is_memory_initialized q then Return tt else Panic.

(** [true]: the caller now holds the producer. *)
Definition acquire_producer (q : IndexQueue) : outcome (bool * IndexQueue) :=
  let! _ := verify_init q in
  let '(b, r) := compare_exchange_bool (has_producer q) true false in
  match r with
  | Ok _ => Return (true, set_has_producer q b)
  | Err _ => Return (false, set_has_producer q b)
  end.

Definition acquire_consumer (q : IndexQueue) : outcome (bool * IndexQueue) :=
  let! _ := verify_init q in
  let '(b, r) := compare_exchange_bool (has_consumer q) true false in
  match r with
  | Ok _ => Return (true, set_has_consumer q b)
  | Err _ => Return (false, set_has_consumer q b)
  end.

(** [Drop] of [Producer] and [Consumer]. *)
Definition drop_producer (q : IndexQueue) : IndexQueue := set_has_producer q true.
Definition drop_consumer (q : IndexQueue) : IndexQueue := set_has_consumer q true.

(** ** Push and pop *)

(** [at]: the index of the cell of a position. *)
Definition at_ (q : IndexQueue) (position : Z) : outcome Z := urem position (capacity q).

Definition push (q : IndexQueue) (value : Z) : outcome (bool * IndexQueue) :=
  let wp := write_position q in
  let! limit := uadd (read_position q) (capacity q) in
  if wp =? limit then Return (false, q)
  else
    let! i := at_ q wp in
    let! d := raw_write (data q) i value in
    let! wp' := uadd wp 1 in
    Return (true, set_write_position (set_data q d) wp').

Definition pop (q : IndexQueue) : outcome (option Z * IndexQueue) :=
  let rp := read_position q in
  if rp =? write_position q then Return (None, q)
  else
    let! i := at_ q rp in
    let! v := raw_read (data q) i in
    let! rp' := uadd rp 1 in
    Return (Some v, set_read_position q rp').

(** ** Observers

    Without a concurrent writer the loop of [acquire_read_and_write_position]
    leaves in its first round; the loop itself is in [Section Interleaving]. *)
Definition acquire_read_and_write_position (q : IndexQueue) : Z * Z :=
  (write_position q, read_position q).

Definition is_empty (q : IndexQueue) : bool :=
  let '(w, r) := acquire_read_and_write_position q in w =? r.

Definition len (q : IndexQueue) : outcome Z :=
  let '(w, r) := acquire_read_and_write_position q in usub w r.

Definition is_full (q : IndexQueue) : outcome bool :=
  let '(w, r) := acquire_read_and_write_position q in
  let! limit := uadd r (capacity q) in Return (w =? limit).

(** ** Abstract specification: a bounded FIFO *)

Inductive event :=
| EPush (v : Z) (ok : bool)
| EPop (r : option Z).

Definition fifo_spec (cap : Z) (l : list Z) (e : event) : option (list Z) :=
  match e with
  | EPush v true => if Z.of_nat (length l) <? cap then Some (l ++ [v]) else None
  | EPush v false => if Z.of_nat (length l) =? cap then Some l else None
  | EPop None => match l with [] => Some [] | _ => None end
  | EPop (Some v) =>
      match l with
      | x :: l' => if x =? v then Some l' else None
      | [] => None
      end
  end.

(** The values that successful pushes put in and successful pops took out. *)
Definition pushed (tr : list event) : list Z :=
  omap (λ e, match e with EPush v true => Some v | _ => None end) tr.
Definition popped (tr : list event) : list Z :=
  omap (λ e, match e with EPop (Some v) => Some v | _ => None end) tr.

(** The queue [q] holds the elements [l]. *)
Record queue_rep (q : IndexQueue) (l : list Z) : Prop := {
  rep_data : Z.of_nat (length (data q)) = capacity q;
  rep_read : 0 ≤ read_position q;
  rep_write : write_position q = read_position q + Z.of_nat (length l);
  rep_bound : Z.of_nat (length l) ≤ capacity q;
  rep_ring : ring_rep (data q) (capacity q) (read_position q) l
}.

(** The positions are far enough from the end of [usize]. *)
Definition no_overflow (q : IndexQueue) : Prop :=
  write_position q + capacity q + 1 < USIZE.

(** ** Interleaving of a producer, a consumer and an observer *)

(** Program counters of [push]: each state is the next atomic access. *)
Inductive producer_pc :=
| PIdle
| PLoadWrite (v : Z)
| PLoadRead (v wp : Z)
| PWriteCell (v wp : Z)
| PStoreWrite (v wp : Z)
| PRet (r : bool).

Definition producer_step (q : IndexQueue) (pc : producer_pc)
    : outcome (IndexQueue * producer_pc * option event) :=
  match pc with
  | PIdle => Return (q, PIdle, None)
  | PLoadWrite v => Return (q, PLoadRead v (write_position q), None)
  | PLoadRead v wp =>
      let! limit := uadd (read_position q) (capacity q) in
      if wp =? limit then Return (q, PRet false, Some (EPush v false))
      else Return (q, PWriteCell v wp, None)
  | PWriteCell v wp =>
      let! i := at_ q wp in
      let! d := raw_write (data q) i v in
      Return (set_data q d, PStoreWrite v wp, None)
  | PStoreWrite v wp =>
      let! wp' := uadd wp 1 in
      Return (set_write_position q wp', PRet true, Some (EPush v true))
  | PRet r => Return (q, PIdle, None)
  end.

(** Program counters of [pop]. *)
Inductive consumer_pc :=
| CIdle
| CLoadRead
| CLoadWrite (rp : Z)
| CReadCell (rp : Z)
| CStoreRead (rp v : Z)
| CRet (r : option Z).

Definition consumer_step (q : IndexQueue) (pc : consumer_pc)
    : outcome (IndexQueue * consumer_pc * option event) :=
  match pc with
  | CIdle => Return (q, CIdle, None)
  | CLoadRead => Return (q, CLoadWrite (read_position q), None)
  | CLoadWrite rp =>
      if rp =? write_position q then Return (q, CRet None, Some (EPop None))
      else Return (q, CReadCell rp, None)
  | CReadCell rp =>
      let! i := at_ q rp in
      let! v := raw_read (data q) i in
      Return (q, CStoreRead rp v, None)
  | CStoreRead rp v =>
      let! rp' := uadd rp 1 in
      Return (set_read_position q rp', CRet (Some v), Some (EPop (Some v)))
  | CRet r => Return (q, CIdle, None)
  end.

(** Program counters of the loop of [acquire_read_and_write_position]. *)
Inductive observer_pc :=
| OIdle
| OLoadWrite
| OLoadRead (w : Z)
| OCheckWrite (w r : Z)
| OCheckRead (w r : Z)
| ORet (w r : Z).

Definition observer_step (q : IndexQueue) (pc : observer_pc) : observer_pc :=
  match pc with
  | OIdle => OIdle
  | OLoadWrite => OLoadRead (write_position q)
  | OLoadRead w => OCheckWrite w (read_position q)
  | OCheckWrite w r => if w =? write_position q then OCheckRead w r else OLoadWrite
  | OCheckRead w r => if r =? read_position q then ORet w r else OLoadWrite
  | ORet w r => OIdle
  end.

Record sys := mkSys {
  queue : IndexQueue;
  prod : producer_pc;
  cons : consumer_pc;
  obs : observer_pc
}.

Inductive sys_step : sys → option event → sys → Prop :=
| step_call_push q c o v :
    sys_step (mkSys q PIdle c o) None (mkSys q (PLoadWrite v) c o)
| step_call_pop q p o :
    sys_step (mkSys q p CIdle o) None (mkSys q p CLoadRead o)
| step_call_observe q p c :
    sys_step (mkSys q p c OIdle) None (mkSys q p c OLoadWrite)
| step_producer q p c o q' p' l :
    p ≠ PIdle → producer_step q p = Return (q', p', l) →
    sys_step (mkSys q p c o) l (mkSys q' p' c o)
| step_consumer q p c o q' c' l :
    c ≠ CIdle → consumer_step q c = Return (q', c', l) →
    sys_step (mkSys q p c o) l (mkSys q' p c' o)
| step_observer q p c o :
    o ≠ OIdle →
    sys_step (mkSys q p c o) None (mkSys q p c (observer_step q o)).

Definition sys_init (cap : Z) : sys := mkSys (new 0 cap) PIdle CIdle OIdle.

(** Running one thread alone. *)
Fixpoint producer_run (n : nat) (q : IndexQueue) (pc : producer_pc) : outcome (bool * IndexQueue) :=
  match pc, n with
  | PRet r, _ => Return (r, q)
  | _, O => Undefined
  | _, S n => let! '(q', pc', _) := producer_step q pc in producer_run n q' pc'
  end.

Fixpoint consumer_run (n : nat) (q : IndexQueue) (pc : consumer_pc) : outcome (option Z * IndexQueue) :=
  match pc, n with
  | CRet r, _ => Return (r, q)
  | _, O => Undefined
  | _, S n => let! '(q', pc', _) := consumer_step q pc in consumer_run n q' pc'
  end.
End Operations.

(** ** Representation lemmas *)

Section Theorems.
Context `{P : Profile}.
Implicit Types (q : IndexQueue) (l : list Z).

Lemma queue_rep_capacity_nonneg q l : queue_rep q l → 0 ≤ capacity q.
Proof. intros [? ? ? ? ?]. lia. Qed.

Lemma iq_new_rep ptr cap : 0 ≤ cap → queue_rep (new ptr cap) [].
Proof.
  intros. constructor; cbn; [rewrite length_replicate; lia|lia..|].
  apply ring_rep_nil.
Qed.

(** Writing the cell of the write position keeps the contents ... *)
Lemma iq_rep_write_cell q l v :
  queue_rep q l → Z.of_nat (length l) < capacity q →
  queue_rep (set_data q (<[slot (capacity q) (write_position q) := v]> (data q))) l.
Proof.
  intros [Hd Hr Hw Hb Hring] Hlt. constructor; cbn; autorewrite with elkodon; try done.
  apply ring_rep_insert_outside; [lia| |done]. intros k Hk. lia.
Qed.

(** ... and publishing the position appends what the cell holds. *)
Lemma iq_rep_publish q l v :
  queue_rep q l → Z.of_nat (length l) < capacity q →
  data q !! slot (capacity q) (write_position q) = Some v →
  queue_rep (set_write_position q (write_position q + 1)) (l ++ [v]).
Proof.
  intros [Hd Hr Hw Hb Hring] Hlt Hv. constructor; cbn; autorewrite with elkodon; cbn; try lia.
  apply ring_rep_app. split; [done|]. apply ring_rep_cons. rewrite <- Hw.
  split; [done|apply ring_rep_nil].
Qed.

Lemma iq_rep_retire q x l :
  queue_rep q (x :: l) → queue_rep (set_read_position q (read_position q + 1)) l.
Proof.
  intros [Hd Hr Hw Hb Hring]. cbn [length] in *.
  constructor; cbn; try done; try lia. by apply ring_rep_cons in Hring as [_ ?].
Qed.

Lemma iq_rep_head q x l :
  queue_rep q (x :: l) → data q !! slot (capacity q) (read_position q) = Some x.
Proof. intros [_ _ _ _ Hring]. by apply ring_rep_cons in Hring as [? _]. Qed.

(** Every in-range cell access of [push] and [pop] is defined. *)
Lemma iq_write_cell_ok q l wp v :
  queue_rep q l → Z.of_nat (length l) < capacity q →
  (let! i := at_ q wp in raw_write (data q) i v) =
  Return (<[slot (capacity q) wp := v]> (data q)).
Proof.
  intros [Hd _ _ _ _] Hlt. unfold at_. rewrite urem_ok by lia. cbn [obind].
  pose proof (Z.mod_pos_bound wp (capacity q)).
  apply raw_write_ok. lia.
Qed.

Lemma read_cell_ok q x l :
  queue_rep q (x :: l) →
  (let! i := at_ q (read_position q) in raw_read (data q) i) = Return x.
Proof.
  intros Hrep. pose proof (iq_rep_head _ _ _ Hrep) as Hx. destruct Hrep as [Hd _ _ Hb _].
  cbn [length] in Hb. unfold at_. rewrite urem_ok by lia. cbn [obind].
  pose proof (Z.mod_pos_bound (read_position q) (capacity q)).
  apply raw_read_ok; [lia|done].
Qed.

(** ** Sequential behaviour *)

Lemma iq_push_rep q l v :
  queue_rep q l → no_overflow q →
  if Z.of_nat (length l) <? capacity q
  then ∃ q', push q v = Return (true, q') ∧ queue_rep q' (l ++ [v]) ∧ capacity q' = capacity q
  else push q v = Return (false, q).
Proof.
  intros Hrep Hov. pose proof Hrep as [Hd Hr Hw Hb Hring].
  unfold no_overflow, push in *. rewrite uadd_ok by lia. cbn [obind].
  destruct (Z.ltb_spec (Z.of_nat (length l)) (capacity q)) as [Hlt|Hge].
  - destruct (Z.eqb_spec (write_position q) (read_position q + capacity q)); [lia|].
    pose proof (iq_write_cell_ok q l (write_position q) v Hrep Hlt) as Hc.
    destruct (at_ q (write_position q)); cbn [obind] in *; try done. rewrite Hc. cbn [obind].
    rewrite uadd_ok by lia. cbn [obind]. eexists. split; [done|]. split; [|done].
    apply (iq_rep_publish (set_data q _)); [by apply iq_rep_write_cell|done|].
    cbn. apply list_lookup_insert_eq.
    pose proof (slot_lt (capacity q) (write_position q) ltac:(lia)). lia.
  - destruct (Z.eqb_spec (write_position q) (read_position q + capacity q)); [done|lia].
Qed.

Lemma iq_pop_rep q l :
  queue_rep q l → no_overflow q →
  match l with
  | [] => pop q = Return (None, q)
  | x :: l' => ∃ q', pop q = Return (Some x, q') ∧ queue_rep q' l' ∧ capacity q' = capacity q
  end.
Proof.
  intros Hrep Hov. pose proof Hrep as [Hd Hr Hw Hb Hring]. unfold pop, no_overflow in *.
  destruct l as [|x l]; cbn [length] in *.
  - by rewrite (proj2 (Z.eqb_eq _ _)) by lia.
  - rewrite (proj2 (Z.eqb_neq _ _)) by lia.
    pose proof (read_cell_ok q x l Hrep) as Hc.
    destruct (at_ q (read_position q)); cbn [obind] in *; try done. rewrite Hc. cbn [obind].
    rewrite uadd_ok by lia. cbn [obind]. eexists. split; [done|].
    split; [by apply iq_rep_retire with x|done].
Qed.

(** Sequential refinement: [push] and [pop] on a queue that holds [l] neither
    panic nor touch memory outside of the buffer, and they behave like the
    bounded FIFO: [push] appends and answers [true] unless [capacity] elements
    are stored, in which case it answers [false] and changes nothing; [pop]
    returns the oldest element, or [None] exactly when the queue is empty. *)
Theorem index_queue_refines_fifo q l v :
  queue_rep q l → no_overflow q →
  (∃ b q' l', push q v = Return (b, q') ∧
     fifo_spec (capacity q) l (EPush v b) = Some l' ∧ queue_rep q' l') ∧
  (∃ r q' l', pop q = Return (r, q') ∧
     fifo_spec (capacity q) l (EPop r) = Some l' ∧ queue_rep q' l').
Proof.
  intros Hrep Hov. split.
  - pose proof (iq_push_rep q l v Hrep Hov) as Hp.
    destruct (Z.ltb_spec (Z.of_nat (length l)) (capacity q)) as [Hlt|Hge].
    + destruct Hp as (q' & Hq' & Hrep' & _). exists true, q', (l ++ [v]).
      cbn. rewrite (proj2 (Z.ltb_lt _ _)) by lia. done.
    + exists false, q, l. cbn. destruct Hrep. rewrite (proj2 (Z.eqb_eq _ _)) by lia.
      repeat split; done.
  - pose proof (iq_pop_rep q l Hrep Hov) as Hp. destruct l as [|x l].
    + exists None, q, []. done.
    + destruct Hp as (q' & Hq' & Hrep' & _). exists (Some x), q', l.
      cbn. by rewrite Z.eqb_refl.
Qed.

(** ** The interleaved system *)

Definition producer_inv q l (p : producer_pc) : Prop :=
  match p with
  | PLoadRead _ wp => wp = write_position q
  | PWriteCell _ wp => wp = write_position q ∧ Z.of_nat (length l) < capacity q
  | PStoreWrite v wp =>
      wp = write_position q ∧ Z.of_nat (length l) < capacity q ∧
      data q !! slot (capacity q) wp = Some v
  | _ => True
  end.

Definition consumer_inv q l (c : consumer_pc) : Prop :=
  match c with
  | CLoadWrite rp => rp = read_position q
  | CReadCell rp => rp = read_position q ∧ l ≠ []
  | CStoreRead rp v => rp = read_position q ∧ head l = Some v
  | _ => True
  end.

Record sys_inv (cap : Z) (s : sys) (l : list Z) : Prop := {
  inv_rep : queue_rep (queue s) l;
  inv_cap : capacity (queue s) = cap;
  inv_prod : producer_inv (queue s) l (prod s);
  inv_cons : consumer_inv (queue s) l (cons s)
}.

(** What one step of a thread does to a queue that holds [l]: the label is a
    step of the FIFO, a silent step leaves the contents alone, and the positions
    only grow. *)
Definition step_post cap q l q' p' c' (e : option event) : Prop :=
  ∃ l', match e with Some e => fifo_spec cap l e = Some l' | None => l' = l end ∧
    queue_rep q' l' ∧ capacity q' = cap ∧ producer_inv q' l' p' ∧ consumer_inv q' l' c' ∧
    write_position q ≤ write_position q' ≤ write_position q + (match e with Some _ => 1 | None => 0 end) ∧
    read_position q ≤ read_position q'.

Lemma iq_producer_step_inv cap q l p c q' p' e :
  queue_rep q l → capacity q = cap → producer_inv q l p → consumer_inv q l c → no_overflow q →
  producer_step q p = Return (q', p', e) → step_post cap q l q' p' c e.
Proof.
  intros Hrep <- Hp Hc Hov Hst. pose proof Hrep as [Hd Hr Hw Hb Hring]. unfold no_overflow in Hov.
  destruct p as [|v|v wp|v wp|v wp|r]; cbn [producer_step producer_inv] in *.
  - injection Hst as <- <- <-. exists l. repeat split; try done; lia.
  - injection Hst as <- <- <-. exists l. repeat split; try done; lia.
  - subst wp. rewrite uadd_ok in Hst by lia. cbn [obind] in Hst.
    destruct (Z.eqb_spec (write_position q) (read_position q + capacity q)) as [E|E];
      injection Hst as <- <- <-; exists l.
    + cbn. rewrite (proj2 (Z.eqb_eq _ _)) by lia. repeat split; try done; lia.
    + repeat split; try done; lia.
  - destruct Hp as [-> Hlt]. pose proof (iq_write_cell_ok q l (write_position q) v Hrep Hlt) as Hcell.
    destruct (at_ q (write_position q)); cbn [obind] in *; try done.
    rewrite Hcell in Hst. cbn [obind] in Hst. injection Hst as <- <- <-. exists l.
    split; [done|]. split; [by apply iq_rep_write_cell|]. repeat split; try done; cbn; try lia.
    apply list_lookup_insert_eq.
    pose proof (slot_lt (capacity q) (write_position q) ltac:(lia)). lia.
  - destruct Hp as (-> & Hlt & Hv). rewrite uadd_ok in Hst by lia. cbn [obind] in Hst.
    injection Hst as <- <- <-. exists (l ++ [v]). cbn.
    rewrite (proj2 (Z.ltb_lt _ _)) by lia. split; [done|].
    split; [by apply iq_rep_publish|]. autorewrite with elkodon. cbn.
    repeat split; try done; try lia.
    destruct c; cbn in *; try done.
    + destruct Hc. split; [done|]. by destruct l.
    + destruct Hc as [? Hh]. split; [done|]. by destruct l.
  - injection Hst as <- <- <-. exists l. repeat split; try done; lia.
Qed.

Lemma iq_consumer_step_inv cap q l p c q' c' e :
  queue_rep q l → capacity q = cap → producer_inv q l p → consumer_inv q l c → no_overflow q →
  consumer_step q c = Return (q', c', e) → step_post cap q l q' p c' e.
Proof.
  intros Hrep <- Hp Hc Hov Hst. pose proof Hrep as [Hd Hr Hw Hb Hring]. unfold no_overflow in Hov.
  destruct c as [| |rp|rp|rp v|r]; cbn [consumer_step consumer_inv] in *.
  - injection Hst as <- <- <-. exists l. repeat split; try done; lia.
  - injection Hst as <- <- <-. exists l. repeat split; try done; lia.
  - subst rp. destruct (Z.eqb_spec (read_position q) (write_position q)) as [E|E];
      injection Hst as <- <- <-; exists l.
    + destruct l; [|cbn [length] in *; lia]. repeat split; try done; lia.
    + repeat split; try done; try lia. intros ->. cbn [length] in *. lia.
  - destruct Hc as [-> Hne]. destruct l as [|x l]; [done|].
    pose proof (read_cell_ok q x l Hrep) as Hcell.
    destruct (at_ q (read_position q)); cbn [obind] in *; try done.
    rewrite Hcell in Hst. cbn [obind] in Hst. injection Hst as <- <- <-. exists (x :: l).
    repeat split; try done; lia.
  - destruct Hc as [-> Hh]. destruct l as [|x l]; [done|]. injection Hh as ->.
    cbn [length] in *. rewrite uadd_ok in Hst by lia. cbn [obind] in Hst.
    injection Hst as <- <- <-. exists l. cbn. rewrite Z.eqb_refl. split; [done|].
    split; [by apply iq_rep_retire with v|]. repeat split; try done; try lia.
    destruct p; cbn in *; try done; intuition lia.
  - injection Hst as <- <- <-. exists l. repeat split; try done; lia.
Qed.
(** Everything that is true of a reachable state: the trace is a run of the
    FIFO that ends in the contents of the queue. *)
Lemma iq_reachable_inv cap s tr :
  0 ≤ cap → steps sys_step (sys_init cap) tr s →
  Z.of_nat (length tr) + cap + 1 < USIZE →
  ∃ l, spec_run (fifo_spec cap) [] tr = Some l ∧ sys_inv cap s l ∧
       write_position (queue s) ≤ Z.of_nat (length tr).
Proof.
  intros Hcap Hst. revert s tr Hst.
  apply (steps_invariant sys_step (λ s tr, Z.of_nat (length tr) + cap + 1 < USIZE →
    ∃ l, spec_run (fifo_spec cap) [] tr = Some l ∧ sys_inv cap s l ∧
       write_position (queue s) ≤ Z.of_nat (length tr))).
  - intros _. exists []. split; [done|]. split; [|cbn; lia].
    constructor; cbn; try done. by apply iq_new_rep.
  - intros s tr s' _ IH Hst Hb. destruct (IH Hb) as (l & Hrun & [Hrep Hc Hp Hco] & Hwp).
    assert (no_overflow (queue s)) as Hov by (unfold no_overflow; lia).
    inversion Hst; subst; cbn in *; try (exists l; split; [done|]; split; [by constructor|done]).
    + destruct (iq_producer_step_inv _ _ _ _ _ _ _ _ Hrep eq_refl Hp Hco Hov ltac:(eassumption))
        as (l' & -> & ? & ? & ? & ? & ? & ?).
      exists l. split; [done|]. split; [by constructor|cbn; lia].
    + destruct (iq_consumer_step_inv _ _ _ _ _ _ _ _ Hrep eq_refl Hp Hco Hov ltac:(eassumption))
        as (l' & -> & ? & ? & ? & ? & ? & ?).
      exists l. split; [done|]. split; [by constructor|cbn; lia].
  - intros s tr e s' _ IH Hst Hb. rewrite length_app in *. cbn [length] in *.
    destruct (IH ltac:(lia)) as (l & Hrun & [Hrep Hc Hp Hco] & Hwp).
    assert (no_overflow (queue s)) as Hov by (unfold no_overflow; lia).
    inversion Hst; subst; cbn in *.
    + destruct (iq_producer_step_inv _ _ _ _ _ _ _ _ Hrep eq_refl Hp Hco Hov ltac:(eassumption))
        as (l' & Hl' & ? & ? & ? & ? & ? & ?).
      exists l'. rewrite spec_run_app, Hrun. cbn. rewrite Hl'. split; [done|].
      split; [by constructor|cbn; lia].
    + destruct (iq_consumer_step_inv _ _ _ _ _ _ _ _ Hrep eq_refl Hp Hco Hov ltac:(eassumption))
        as (l' & Hl' & ? & ? & ? & ? & ? & ?).
      exists l'. rewrite spec_run_app, Hrun. cbn. rewrite Hl'. split; [done|].
      split; [by constructor|cbn; lia].
Qed.
(** Whatever went in is either out, in the same order, or still stored. *)
Lemma fifo_run_conservation cap l0 tr l :
  spec_run (fifo_spec cap) l0 tr = Some l → l0 ++ pushed tr = popped tr ++ l.
Proof.
  unfold pushed, popped. revert l0. induction tr as [|e tr IH]; intros l0 Hrun; cbn in Hrun.
  - injection Hrun as ->. by rewrite app_nil_r.
  - destruct (fifo_spec cap l0 e) as [l1|] eqn:He; [|done]. specialize (IH _ Hrun).
    destruct e as [v [|]|[v|]]; cbn in He |- *.
    + case_bool; simplify_eq. by rewrite <- IH, <- app_assoc.
    + by case_bool; simplify_eq.
    + destruct l0 as [|x l0]; [done|]. destruct (Z.eqb_spec x v); simplify_eq.
      cbn. by rewrite <- IH.
    + by destruct l0; simplify_eq.
Qed.

(** C6. Linearizability of the lock-free queue: however the atomic accesses of the
    producer, the consumer and an observer interleave, the sequence of
    completed [push] and [pop] operations (each at its linearisation point) is
    a legal run of the bounded FIFO that ends in the elements the buffer holds;
    so no element is lost, duplicated or reordered. The bound says that the
    positions have not reached the end of [usize]. *)
Theorem index_queue_linearizable cap s tr :
  0 ≤ cap → steps sys_step (sys_init cap) tr s →
  Z.of_nat (length tr) + cap + 1 < USIZE →
  ∃ l, spec_run (fifo_spec cap) [] tr = Some l ∧ queue_rep (queue s) l ∧
       pushed tr = popped tr ++ l ∧ Z.of_nat (length l) ≤ cap.
Proof.
  intros Hcap Hst Hb. destruct (iq_reachable_inv _ _ _ Hcap Hst Hb) as (l & Hrun & [Hrep Hc _ _] & _).
  exists l. split; [done|]. split; [done|]. split.
  - by apply fifo_run_conservation in Hrun.
  - destruct Hrep. lia.
Qed.

(** Memory safety under concurrency: in every reachable state the next access
    of the producer and of the consumer is defined: no remainder by zero, no
    overflow of a position and no access outside of the buffer. *)
Theorem index_queue_threads_safe cap s tr :
  0 ≤ cap → steps sys_step (sys_init cap) tr s →
  Z.of_nat (length tr) + cap + 1 < USIZE →
  safe (producer_step (queue s) (prod s)) ∧ safe (consumer_step (queue s) (cons s)).
Proof.
  intros Hcap Hst Hb.
  destruct (iq_reachable_inv _ _ _ Hcap Hst Hb) as (l & _ & [Hrep Hc Hp Hco] & Hwp).
  pose proof Hrep as [Hd Hr Hw Hbd _]. split; unfold safe.
  - destruct (prod s) as [|v|v wp|v wp|v wp|r]; cbn in *; eauto.
    + rewrite uadd_ok by lia. cbn. case_bool; eauto.
    + destruct Hp as [-> Hlt]. pose proof (iq_write_cell_ok _ _ (write_position (queue s)) v Hrep Hlt)
        as Hcell. destruct (at_ _ _); cbn [obind] in *; try done. rewrite Hcell. cbn. eauto.
    + destruct Hp as (-> & ? & ?). rewrite uadd_ok by lia. cbn. eauto.
  - destruct (cons s) as [| |rp|rp|rp v|r]; cbn in *; eauto.
    + case_bool; eauto.
    + destruct Hco as [-> Hne]. destruct l as [|x l]; [done|].
      pose proof (read_cell_ok _ _ _ Hrep) as Hcell.
      destruct (at_ _ _); cbn [obind] in *; try done. rewrite Hcell. cbn. eauto.
    + destruct Hco as [-> Hne]. destruct l as [|x l]; [done|]. cbn [length] in *.
      rewrite uadd_ok by lia. cbn. eauto.
Qed.

(** The snapshot of the observer was taken in [s0]. *)
Definition snapshot_at cap tr s w r (lo hi : Z) : Prop :=
  ∃ s0 tr0 tr1, steps sys_step (sys_init cap) tr0 s0 ∧ steps sys_step s0 tr1 s ∧
    tr = tr0 ++ tr1 ∧ obs s0 = OLoadRead w ∧ read_position (queue s0) = r ∧
    lo ≤ write_position (queue s0) ≤ hi.

Definition observer_inv cap tr s : Prop :=
  match obs s with
  | OLoadRead w => w ≤ write_position (queue s)
  | OCheckWrite w r => snapshot_at cap tr s w r w (write_position (queue s))
  | OCheckRead w r | ORet w r => snapshot_at cap tr s w r w w
  | _ => True
  end.

Lemma snapshot_at_extend cap tr s w r lo hi hi' e s' :
  snapshot_at cap tr s w r lo hi → hi ≤ hi' → sys_step s e s' →
  snapshot_at cap (tr ++ option_list e) s' w r lo hi'.
Proof.
  intros (s0 & tr0 & tr1 & H0 & H1 & -> & Ho & Hr & Hw) Hhi Hst.
  exists s0, tr0, (tr1 ++ option_list e). rewrite app_assoc.
  repeat split; try done; try lia.
  destruct e; cbn; [by econstructor|]. rewrite app_nil_r. by econstructor.
Qed.

Lemma observer_inv_step cap tr s e s' :
  steps sys_step (sys_init cap) tr s → sys_step s e s' →
  write_position (queue s) ≤ write_position (queue s') →
  observer_inv cap tr s → observer_inv cap (tr ++ option_list e) s'.
Proof.
  intros Hreach Hst Hmono Hinv.
  assert (∀ w r lo hi hi', snapshot_at cap tr s w r lo hi → hi ≤ hi' →
    snapshot_at cap (tr ++ option_list e) s' w r lo hi') as Hext
    by (intros; by eapply snapshot_at_extend).
  unfold observer_inv in *.
  assert (obs s' = obs s ∨ (obs s = OIdle ∧ obs s' = OLoadWrite) ∨
    (queue s' = queue s ∧ e = None ∧ obs s' = observer_step (queue s) (obs s)))
    as [->|[[Ho ->]|(Hq & -> & ->)]] by (inversion Hst; subst; cbn; tauto).
  - destruct (obs s); try done; [lia|eapply Hext; [done|lia]..].
  - done.
  - rewrite Hq. destruct (obs s) as [| |w|w r|w r|w r] eqn:E; cbn; try done.
    + exists s, tr, []. rewrite app_nil_r. repeat split; try done; try lia.
      by eapply steps_silent; [constructor|].
    + destruct (Z.eqb_spec w (write_position (queue s))) as [->|]; cbn; [|done].
      eapply Hext; [done|lia].
    + destruct (Z.eqb_spec r (read_position (queue s))) as [->|]; cbn; [|done].
      eapply Hext; [done|lia].
Qed.
(** The write position never decreases along a run. *)
Lemma write_position_mono cap tr s e s' :
  0 ≤ cap → steps sys_step (sys_init cap) tr s → sys_step s e s' →
  Z.of_nat (length tr) + cap + 1 < USIZE →
  write_position (queue s) ≤ write_position (queue s').
Proof.
  intros Hcap Hst Hstep Hb.
  destruct (iq_reachable_inv _ _ _ Hcap Hst Hb) as (l & _ & [Hrep Hc Hp Hco] & Hwp).
  assert (no_overflow (queue s)) as Hov by (unfold no_overflow; lia).
  inversion Hstep; subst; cbn in *; try lia.
  - destruct (iq_producer_step_inv _ _ _ _ _ _ _ _ Hrep eq_refl Hp Hco Hov ltac:(eassumption))
      as (? & _ & _ & _ & _ & _ & ? & _). lia.
  - destruct (iq_consumer_step_inv _ _ _ _ _ _ _ _ Hrep eq_refl Hp Hco Hov ltac:(eassumption))
      as (? & _ & _ & _ & _ & _ & ? & _). lia.
Qed.

(** The pair of positions that [acquire_read_and_write_position] returns (and
    with it the answers of [len], [is_empty] and [is_full]) is an atomic
    snapshot: there is a moment of the run, while the observer was in its loop,
    at which the queue had exactly these two positions. *)
Theorem position_snapshot_atomic cap s tr w r :
  0 ≤ cap → steps sys_step (sys_init cap) tr s →
  Z.of_nat (length tr) + cap + 1 < USIZE →
  obs s = ORet w r →
  ∃ s0 tr0 tr1, steps sys_step (sys_init cap) tr0 s0 ∧ steps sys_step s0 tr1 s ∧
    tr = tr0 ++ tr1 ∧ obs s0 = OLoadRead w ∧
    write_position (queue s0) = w ∧ read_position (queue s0) = r.
Proof.
  intros Hcap Hst Hb Ho.
  assert (Z.of_nat (length tr) + cap + 1 < USIZE → observer_inv cap tr s) as Hinv.
  { clear Ho Hb. revert s tr Hst.
    apply (steps_invariant sys_step (λ s tr,
      Z.of_nat (length tr) + cap + 1 < USIZE → observer_inv cap tr s)).
    - done.
    - intros s tr s' Hreach IH Hstep Hb. rewrite <- (app_nil_r tr).
      apply (observer_inv_step cap tr s None); try done; [|by apply IH].
      by eapply write_position_mono.
    - intros s tr e s' Hreach IH Hstep Hb. rewrite length_app in Hb. cbn in Hb.
      apply (observer_inv_step cap tr s (Some e)); try done; [|apply IH; lia].
      eapply write_position_mono; try done. lia. }
  specialize (Hinv Hb). unfold observer_inv in Hinv. rewrite Ho in Hinv.
  destruct Hinv as (s0 & tr0 & tr1 & H0 & H1 & -> & Ho0 & Hr & Hw).
  exists s0, tr0, tr1. repeat split; try done. lia.
Qed.

(** The interleaving model is the code: a producer (consumer) that runs its
    atomic accesses without interruption does exactly what [push] ([pop])
    does, on every queue, panics and undefined accesses included. *)
Theorem solo_run_is_operation q v :
  producer_run 5 q (PLoadWrite v) = push q v ∧ consumer_run 5 q CLoadRead = pop q.
Proof.
  split.
  - unfold push. cbn [producer_run producer_step obind].
    destruct (uadd (read_position q) (capacity q)); cbn; [|done..].
    case_bool; cbn; [done|].
    destruct (at_ q (write_position q)); cbn; [|done..].
    destruct (raw_write _ _ _); cbn; [|done..].
    by destruct (uadd (write_position q) 1).
  - unfold pop. cbn [consumer_run consumer_step obind].
    case_bool; cbn; [done|].
    destruct (at_ q (read_position q)); cbn; [|done..].
    destruct (raw_read _ _); cbn; [|done..].
    by destruct (uadd (read_position q) 1).
Qed.

(** At most one producer exists: a second [acquire_producer] fails until the
    first handle is dropped. *)
Lemma acquire_producer_exclusive q :
  is_memory_initialized q = true → has_producer q = true →
  ∃ q1, acquire_producer q = Return (true, q1) ∧
    acquire_producer q1 = Return (false, q1) ∧
    acquire_producer (drop_producer q1) = Return (true, q1).
Proof.
  intros Hi Hp. destruct q; cbn in *; subst. eexists. split; [reflexivity|].
  split; reflexivity.
Qed.
End Theorems.

(** ** Witnesses *)

Section Witnesses.
#[local] Instance checked : Profile := true.

Lemma index_queue_refines_fifo_witness :
  (∃ b q' l', push (new 0 2) 7 = Return (b, q') ∧
     fifo_spec 2 [] (EPush 7 b) = Some l' ∧ queue_rep q' l') ∧
  (∃ r q' l', pop (new 0 2) = Return (r, q') ∧
     fifo_spec 2 [] (EPop r) = Some l' ∧ queue_rep q' l').
Proof.
  apply (index_queue_refines_fifo (new 0 2) [] 7).
  - apply iq_new_rep. lia.
  - reflexivity.
Defined.

(** A run in which a push of 7 completes while a pop is under way. *)
Definition sample_queue : IndexQueue := mkIndexQueue 0 [7; 0] 2 1 0 true true true.

Lemma iq_sample_run :
  steps sys_step (sys_init 2) [EPush 7 true]
    (mkSys sample_queue (PRet true) CLoadRead (ORet 0 0)).
Proof.
  eapply (steps_label _ _ []); [|eapply (step_producer
    (mkIndexQueue 0 [7; 0] 2 0 0 true true true) (PStoreWrite 7 0)); [done|reflexivity]].
  eapply steps_silent; [|eapply (step_producer (new 0 2) (PWriteCell 7 0)); [done|reflexivity]].
  eapply steps_silent; [|eapply (step_observer (new 0 2) _ _ (OCheckRead 0 0)); done].
  eapply steps_silent; [|eapply (step_observer (new 0 2) _ _ (OCheckWrite 0 0)); done].
  eapply steps_silent; [|eapply (step_observer (new 0 2) _ _ (OLoadRead 0)); done].
  eapply steps_silent; [|eapply (step_producer (new 0 2) (PLoadRead 7 0)); [done|reflexivity]].
  eapply steps_silent; [|eapply (step_producer (new 0 2) (PLoadWrite 7)); [done|reflexivity]].
  eapply steps_silent; [|eapply (step_observer (new 0 2) _ _ OLoadWrite); done].
  eapply steps_silent; [|apply step_call_observe].
  eapply steps_silent; [|apply step_call_push].
  eapply steps_silent; [|apply step_call_pop].
  apply steps_refl.
Qed.

Lemma index_queue_linearizable_witness :
  ∃ l, spec_run (fifo_spec 2) [] [EPush 7 true] = Some l ∧ queue_rep sample_queue l ∧
       pushed [EPush 7 true] = popped [EPush 7 true] ++ l ∧ Z.of_nat (length l) ≤ 2.
Proof.
  apply (index_queue_linearizable 2 (mkSys sample_queue (PRet true) CLoadRead (ORet 0 0))).
  - lia.
  - apply iq_sample_run.
  - reflexivity.
Defined.

Lemma index_queue_threads_safe_witness :
  safe (producer_step sample_queue (PRet true)) ∧ safe (consumer_step sample_queue CLoadRead).
Proof.
  apply (index_queue_threads_safe 2 (mkSys sample_queue (PRet true) CLoadRead (ORet 0 0))
    [EPush 7 true]).
  - lia.
  - apply iq_sample_run.
  - reflexivity.
Defined.

Lemma position_snapshot_atomic_witness :
  ∃ s0 tr0 tr1, steps sys_step (sys_init 2) tr0 s0 ∧
    steps sys_step s0 tr1 (mkSys sample_queue (PRet true) CLoadRead (ORet 0 0)) ∧
    [EPush 7 true] = tr0 ++ tr1 ∧ obs s0 = OLoadRead 0 ∧
    write_position (queue s0) = 0 ∧ read_position (queue s0) = 0.
Proof.
  apply (position_snapshot_atomic 2).
  - lia.
  - apply iq_sample_run.
  - reflexivity.
  - reflexivity.
Defined.
End Witnesses.
