(* ===== verification/OverflowQueue.v ===== *)
(** * elkodon_bb/lock_free/src/spsc/safely_overflowing_index_queue.rs

    The single-producer single-consumer queue that hands the oldest element
    back to the producer when it is full. The buffer has one cell more than the
    capacity, and both threads advance the read position with a compare-exchange.

    - the sequential operations on the record [OverflowQueue];
    - the interleaving of the atomic accesses of [push] (the producer may evict)
      and [pop] (which retries when an eviction overtook it);
    - the refinement of the interleaving to an atomic specification in which
      every element leaves the queue exactly once, either to the consumer or back
      to the producer. *)

From S2P Require Import Prelude Ring Elementary.

(** ** Data *)

Record OverflowQueue := mkOverflowQueue {
  data_ptr : Z;
  data : list Z;
  capacity : Z;
  write_position : Z;
  read_position : Z;
  has_producer : bool;
  has_consumer : bool;
  is_memory_initialized : bool
}.

Definition set_data (q : OverflowQueue) (d : list Z) : OverflowQueue :=
  mkOverflowQueue (data_ptr q) d (capacity q) (write_position q) (read_position q)
    (has_producer q) (has_consumer q) (is_memory_initialized q).
Definition set_write_position (q : OverflowQueue) (p : Z) : OverflowQueue :=
  mkOverflowQueue (data_ptr q) (data q) (capacity q) p (read_position q)
    (has_producer q) (has_consumer q) (is_memory_initialized q).
Definition set_read_position (q : OverflowQueue) (p : Z) : OverflowQueue :=
  mkOverflowQueue (data_ptr q) (data q) (capacity q) (write_position q) p
    (has_producer q) (has_consumer q) (is_memory_initialized q).
Definition set_has_producer (q : OverflowQueue) (b : bool) : OverflowQueue :=
  mkOverflowQueue (data_ptr q) (data q) (capacity q) (write_position q) (read_position q)
    b (has_consumer q) (is_memory_initialized q).
Definition set_has_consumer (q : OverflowQueue) (b : bool) : OverflowQueue :=
  mkOverflowQueue (data_ptr q) (data q) (capacity q) (write_position q) (read_position q)
    (has_producer q) b (is_memory_initialized q).

Section Operations.
Context `{P : Profile}.

(** ** Construction *)

(** [SafelyOverflowingIndexQueue::new] (owning pointer): [capacity + 1] cells. *)
Definition new (ptr cap : Z) : OverflowQueue :=
  mkOverflowQueue ptr (replicate (Z.to_nat (cap + 1)) 0) cap 0 0 true true true.

Definition new_uninit (cap : Z) : OverflowQueue :=
  mkOverflowQueue 0 [] cap 0 0 true true false.

Definition init {S} `{BaseAllocator S} (q : OverflowQueue) (a : S)
    : outcome (result unit AllocationError * OverflowQueue * S) :=
  if is_memory_initialized q then Panic
  else
    let! n := uadd (capacity q) 1 in
    let! size := umul 8 n in
    let! '(r, a') := allocate a (mkLayout size 8) in
    match r with
    | Err e => Return (Err e, q, a')
    | Ok c =>
        if 8 * n <=? c_len c then
          Return (Ok tt,
            mkOverflowQueue (c_start c) (replicate (Z.to_nat n) 0) (capacity q)
              (write_position q) (read_position q) (has_producer q) (has_consumer q) true, a')
        else Undefined
    end.

Definition const_memory_size (cap : Z) : outcome Z :=
  let! n := uadd cap 1 in
  let! m := umul 8 n in
  let! s := uadd m 8 in
  usub s 1.

(** [FixedSizeSafelyOverflowingIndexQueue::new]: [data] and [data_plus_one]. *)
Definition fixed_size_new (CAPACITY : Z) : OverflowQueue :=
  mkOverflowQueue 0 (replicate (Z.to_nat CAPACITY) 0 ++ [0]) CAPACITY 0 0 true true true.

Definition verify_init (q : OverflowQueue) : outcome unit :=
  if is_memory_initialized q then Return tt else Panic.

Definition acquire_producer (q : OverflowQueue) : outcome (bool * OverflowQueue) :=
  let! _ := verify_init q in
  let '(b, r) := compare_exchange_bool (has_producer q) true false in
  match r with
  | Ok _ => Return (true, set_has_producer q b)
  | Err _ => Return (false, set_has_producer q b)
  end.

Definition acquire_consumer (q : OverflowQueue) : outcome (bool * OverflowQueue) :=
  let! _ := verify_init q in
  let '(b, r) := compare_exchange_bool (has_consumer q) true false in
  match r with
  | Ok _ => Return (true, set_has_consumer q b)
  | Err _ => Return (false, set_has_consumer q b)
  end.

Definition drop_producer (q : OverflowQueue) : OverflowQueue := set_has_producer q true.
Definition drop_consumer (q : OverflowQueue) : OverflowQueue := set_has_consumer q true.

(** ** Push and pop *)

Definition at_ (q : OverflowQueue) (position : Z) : outcome Z :=
  let! n := uadd (capacity q) 1 in urem position n.

(** [push]: without a concurrent consumer the compare-exchange succeeds. *)
Definition push (q : OverflowQueue) (value : Z) : outcome (option Z * OverflowQueue) :=
  let wp := write_position q in
  let rp := read_position q in
  let! limit := uadd rp (capacity q) in
  let is_full := wp =? limit in
  let! i := at_ q wp in
  let! d := raw_write (data q) i value in
  let! wp' := uadd wp 1 in
  let q := set_write_position (set_data q d) wp' in
  if is_full then
    let! rp' := uadd rp 1 in
    let '(cell, r) := compare_exchange (read_position q) rp rp' in
    let q := set_read_position q cell in
    match r with
    | Ok _ =>
        let! i := at_ q rp in
        let! v := raw_read (data q) i in
        Return (Some v, q)
    | Err _ => Return (None, q)
    end
  else Return (None, q).

(** The retry loop of [pop]; a failed compare-exchange supplies the position of
    the next round, so without a concurrent producer one round is enough. *)
Fixpoint pop_loop (fuel : nat) (q : OverflowQueue) (rp : Z) : outcome (option Z * OverflowQueue) :=
  match fuel with
  | O => Undefined
  | S fuel =>
      let! i := at_ q rp in
      let! v := raw_read (data q) i in
      let! rp' := uadd rp 1 in
      let '(cell, r) := compare_exchange (read_position q) rp rp' in
      let q := set_read_position q cell in
      match r with
      | Ok _ => Return (Some v, q)
      | Err w => pop_loop fuel q w
      end
  end.

Definition pop (q : OverflowQueue) : outcome (option Z * OverflowQueue) :=
  let rp := read_position q in
  if rp =? write_position q then Return (None, q) else pop_loop 2 q rp.

Definition acquire_read_and_write_position (q : OverflowQueue) : Z * Z :=
  (write_position q, read_position q).

Definition is_empty (q : OverflowQueue) : bool :=
  let '(w, r) := acquire_read_and_write_position q in w =? r.

Definition len (q : OverflowQueue) : outcome Z :=
  let '(w, r) := acquire_read_and_write_position q in usub w r.

Definition is_full (q : OverflowQueue) : outcome bool :=
  let '(w, r) := acquire_read_and_write_position q in
  let! limit := uadd r (capacity q) in Return (w =? limit).

(** ** Abstract specification

    [Enqueue] appends; [Evict] and [Dequeue] remove the oldest element, one on
    behalf of the producer, the other on behalf of the consumer. *)

Inductive event :=
| Enqueue (v : Z)
| Evict (v : Z)
| Dequeue (v : Z)
| DequeueEmpty.

Definition overflow_spec (l : list Z) (e : event) : option (list Z) :=
  match e with
  | Enqueue v => Some (l ++ [v])
  | Evict v | Dequeue v =>
      match l with
      | x :: l' => if x =? v then Some l' else None
      | [] => None
      end
  | DequeueEmpty => match l with [] => Some [] | _ => None end
  end.

Definition enqueued (tr : list event) : list Z :=
  omap (λ e, match e with Enqueue v => Some v | _ => None end) tr.
(** The values that left the queue, to either side. *)
Definition removed (tr : list event) : list Z :=
  omap (λ e, match e with Evict v | Dequeue v => Some v | _ => None end) tr.

(** ** Interleaving *)

Inductive producer_pc :=
| PIdle
| PLoadWrite (v : Z)
| PLoadRead (v wp : Z)
| PWriteCell (v wp rp : Z) (is_full : bool)
| PStoreWrite (v wp rp : Z) (is_full : bool)
| PCas (rp : Z)
| PReadEvicted (rp : Z)
| PRet (r : option Z).

(** The value an eviction returns is read after the compare-exchange; the
    element leaves the queue at the compare-exchange, whose label therefore
    names the content of the cell at that moment. *)
Definition producer_step (q : OverflowQueue) (pc : producer_pc)
    : outcome (OverflowQueue * producer_pc * option event) :=
  match pc with
  | PIdle => Return (q, PIdle, None)
  | PLoadWrite v => Return (q, PLoadRead v (write_position q), None)
  | PLoadRead v wp =>
      let! limit := uadd (read_position q) (capacity q) in
      Return (q, PWriteCell v wp (read_position q) (wp =? limit), None)
  | PWriteCell v wp rp is_full =>
      let! i := at_ q wp in
      let! d := raw_write (data q) i v in
      Return (set_data q d, PStoreWrite v wp rp is_full, None)
  | PStoreWrite v wp rp is_full =>
      let! wp' := uadd wp 1 in
      let q := set_write_position q wp' in
      Return (q, if is_full then PCas rp else PRet None, Some (Enqueue v))
  | PCas rp =>
      let! rp' := uadd rp 1 in
      let '(cell, r) := compare_exchange (read_position q) rp rp' in
      let q := set_read_position q cell in
      match r with
      | Ok _ =>
          let! i := at_ q rp in
          let! v := raw_read (data q) i in
          Return (q, PReadEvicted rp, Some (Evict v))
      | Err _ => Return (q, PRet None, None)
      end
  | PReadEvicted rp =>
      let! i := at_ q rp in
      let! v := raw_read (data q) i in
      Return (q, PRet (Some v), None)
  | PRet r => Return (q, PIdle, None)
  end.

Inductive consumer_pc :=
| CIdle
| CLoadRead
| CLoadWrite (rp : Z)
| CReadCell (rp : Z)
| CCas (rp v : Z)
| CRet (r : option Z).

Definition consumer_step (q : OverflowQueue) (pc : consumer_pc)
    : outcome (OverflowQueue * consumer_pc * option event) :=
  match pc with
  | CIdle => Return (q, CIdle, None)
  | CLoadRead => Return (q, CLoadWrite (read_position q), None)
  | CLoadWrite rp =>
      if rp =? write_position q then Return (q, CRet None, Some DequeueEmpty)
      else Return (q, CReadCell rp, None)
  | CReadCell rp =>
      let! i := at_ q rp in
      let! v := raw_read (data q) i in
      Return (q, CCas rp v, None)
  | CCas rp v =>
      let! rp' := uadd rp 1 in
      let '(cell, r) := compare_exchange (read_position q) rp rp' in
      let q := set_read_position q cell in
      match r with
      | Ok _ => Return (q, CRet (Some v), Some (Dequeue v))
      | Err w => Return (q, CReadCell w, None)
      end
  | CRet r => Return (q, CIdle, None)
  end.

Record sys := mkSys {
  queue : OverflowQueue;
  prod : producer_pc;
  cons : consumer_pc
}.

Inductive sys_step : sys → option event → sys → Prop :=
| step_call_push q c v :
    sys_step (mkSys q PIdle c) None (mkSys q (PLoadWrite v) c)
| step_call_pop q p :
    sys_step (mkSys q p CIdle) None (mkSys q p CLoadRead)
| step_producer q p c q' p' l :
    p ≠ PIdle → producer_step q p = Return (q', p', l) →
    sys_step (mkSys q p c) l (mkSys q' p' c)
| step_consumer q p c q' c' l :
    c ≠ CIdle → consumer_step q c = Return (q', c', l) →
    sys_step (mkSys q p c) l (mkSys q' p c').

Definition sys_init (cap : Z) : sys := mkSys (new 0 cap) PIdle CIdle.

Fixpoint producer_run (n : nat) (q : OverflowQueue) (pc : producer_pc)
    : outcome (option Z * OverflowQueue) :=
  match pc, n with
  | PRet r, _ => Return (r, q)
  | _, O => Undefined
  | _, S n => let! '(q', pc', _) := producer_step q pc in producer_run n q' pc'
  end.

Fixpoint consumer_run (n : nat) (q : OverflowQueue) (pc : consumer_pc)
    : outcome (option Z * OverflowQueue) :=
  match pc, n with
  | CRet r, _ => Return (r, q)
  | _, O => Undefined
  | _, S n => let! '(q', pc', _) := consumer_step q pc in consumer_run n q' pc'
  end.

(** ** Representation *)

(** The queue [q] holds the elements [l]; one more than the capacity fits. *)
Record queue_rep (q : OverflowQueue) (l : list Z) : Prop := {
  rep_data : Z.of_nat (length (data q)) = capacity q + 1;
  rep_cap : 0 ≤ capacity q;
  rep_read : 0 ≤ read_position q;
  rep_write : write_position q = read_position q + Z.of_nat (length l);
  rep_bound : Z.of_nat (length l) ≤ capacity q + 1;
  rep_ring : ring_rep (data q) (capacity q + 1) (read_position q) l
}.

Definition no_overflow (q : OverflowQueue) : Prop :=
  write_position q + capacity q + 2 < USIZE.

Definition evicted (tr : list event) : list Z :=
  omap (λ e, match e with Evict v => Some v | _ => None end) tr.
Definition dequeued (tr : list event) : list Z :=
  omap (λ e, match e with Dequeue v => Some v | _ => None end) tr.

(** What is known at each program counter. [ev] is the value of the last
    eviction, [dq] that of the last dequeue. *)
Definition producer_inv (q : OverflowQueue) (l : list Z) (ev : option Z) (p : producer_pc) : Prop :=
  let len := Z.of_nat (length l) in
  let cell p v := data q !! slot (capacity q + 1) p = Some v in
  match p with
  | PIdle | PLoadWrite _ | PRet None => len ≤ capacity q
  | PLoadRead _ wp => len ≤ capacity q ∧ wp = write_position q
  | PWriteCell _ wp rp is_full =>
      len ≤ capacity q ∧ wp = write_position q ∧ 0 ≤ rp ≤ read_position q ∧
      wp ≤ rp + capacity q ∧ is_full = (wp =? rp + capacity q)
  | PStoreWrite v wp rp is_full =>
      len ≤ capacity q ∧ wp = write_position q ∧ 0 ≤ rp ≤ read_position q ∧
      wp ≤ rp + capacity q ∧ is_full = (wp =? rp + capacity q) ∧ cell wp v
  | PCas rp => 0 ≤ rp ≤ read_position q ∧ write_position q = rp + capacity q + 1
  | PReadEvicted rp =>
      len ≤ capacity q ∧ ∃ v, ev = Some v ∧ cell rp v
  | PRet (Some v) => len ≤ capacity q ∧ ev = Some v
  end.

Definition consumer_inv (q : OverflowQueue) (l : list Z) (dq : option Z) (c : consumer_pc) : Prop :=
  match c with
  | CLoadWrite rp => 0 ≤ rp ≤ read_position q ∧ (rp < read_position q → l ≠ [])
  | CReadCell rp => 0 ≤ rp ≤ read_position q ∧ l ≠ []
  | CCas rp v => 0 ≤ rp ≤ read_position q ∧ l ≠ [] ∧ (rp = read_position q → head l = Some v)
  | CRet (Some v) => dq = Some v
  | _ => True
  end.

Record sys_inv (cap : Z) (tr : list event) (s : sys) (l : list Z) : Prop := {
  inv_rep : queue_rep (queue s) l;
  inv_cap : capacity (queue s) = cap;
  inv_prod : producer_inv (queue s) l (last (evicted tr)) (prod s);
  inv_cons : consumer_inv (queue s) l (last (dequeued tr)) (cons s)
}.
End Operations.

(** ** Representation lemmas *)

Section Theorems.
Context `{P : Profile}.
Implicit Types (q : OverflowQueue) (l : list Z).

Lemma oq_new_rep ptr cap : 0 ≤ cap → queue_rep (new ptr cap) [].
Proof.
  intros. constructor; cbn; [rewrite length_replicate; lia|lia..|].
  apply ring_rep_nil.
Qed.

Lemma at_ok q l p :
  queue_rep q l → no_overflow q → at_ q p = Return (p mod (capacity q + 1)).
Proof.
  intros [? ? ? ? ? ?] Hov. unfold at_, no_overflow in *.
  rewrite uadd_ok by lia. cbn [obind]. apply urem_ok. lia.
Qed.

Lemma oq_rep_write_cell q l v :
  queue_rep q l → Z.of_nat (length l) ≤ capacity q →
  queue_rep (set_data q (<[slot (capacity q + 1) (write_position q) := v]> (data q))) l.
Proof.
  intros [Hd Hc Hr Hw Hb Hring] Hlt. constructor; cbn; autorewrite with elkodon; try done.
  apply ring_rep_insert_outside; [lia| |done]. intros k Hk. lia.
Qed.

Lemma oq_rep_publish q l v :
  queue_rep q l → Z.of_nat (length l) ≤ capacity q →
  data q !! slot (capacity q + 1) (write_position q) = Some v →
  queue_rep (set_write_position q (write_position q + 1)) (l ++ [v]).
Proof.
  intros [Hd Hc Hr Hw Hb Hring] Hlt Hv.
  constructor; cbn; autorewrite with elkodon; cbn; try lia.
  apply ring_rep_app. split; [done|]. apply ring_rep_cons. rewrite <- Hw.
  split; [done|apply ring_rep_nil].
Qed.

Lemma oq_rep_retire q x l :
  queue_rep q (x :: l) → queue_rep (set_read_position q (read_position q + 1)) l.
Proof.
  intros [Hd Hc Hr Hw Hb Hring]. cbn [length] in *.
  constructor; cbn; try done; try lia. by apply ring_rep_cons in Hring as [_ ?].
Qed.

Lemma oq_rep_head q x l :
  queue_rep q (x :: l) → data q !! slot (capacity q + 1) (read_position q) = Some x.
Proof. intros [_ _ _ _ _ Hring]. by apply ring_rep_cons in Hring as [? _]. Qed.

Lemma oq_write_cell_ok q l p v :
  queue_rep q l →
  raw_write (data q) (p mod (capacity q + 1)) v = Return (<[slot (capacity q + 1) p := v]> (data q)).
Proof.
  intros [Hd Hc _ _ _ _]. pose proof (Z.mod_pos_bound p (capacity q + 1)).
  apply raw_write_ok. lia.
Qed.

Lemma read_cell_some q l p v :
  queue_rep q l → data q !! slot (capacity q + 1) p = Some v →
  raw_read (data q) (p mod (capacity q + 1)) = Return v.
Proof.
  intros [Hd Hc _ _ _ _] Hv. pose proof (Z.mod_pos_bound p (capacity q + 1)).
  apply raw_read_ok; [lia|done].
Qed.

(** Any cell can be read. *)
Lemma read_cell_any q l p :
  queue_rep q l → ∃ v, data q !! slot (capacity q + 1) p = Some v ∧
  raw_read (data q) (p mod (capacity q + 1)) = Return v.
Proof.
  intros Hrep. pose proof Hrep as [Hd Hc _ _ _ _].
  destruct (lookup_lt_is_Some_2 (data q) (slot (capacity q + 1) p)) as [v Hv].
  { pose proof (slot_lt (capacity q + 1) p). lia. }
  exists v. split; [done|]. by eapply read_cell_some.
Qed.

Lemma cell_after_write q l p v :
  queue_rep q l → <[slot (capacity q + 1) p := v]> (data q) !! slot (capacity q + 1) p = Some v.
Proof.
  intros [Hd Hc _ _ _ _]. apply list_lookup_insert_eq.
  pose proof (slot_lt (capacity q + 1) p ltac:(lia)). lia.
Qed.
Lemma evicted_snoc tr e :
  evicted (tr ++ [e]) = evicted tr ++ match e with Evict v => [v] | _ => [] end.
Proof. unfold evicted. rewrite omap_app. by destruct e. Qed.

Lemma dequeued_snoc tr e :
  dequeued (tr ++ [e]) = dequeued tr ++ match e with Dequeue v => [v] | _ => [] end.
Proof. unfold dequeued. rewrite omap_app. by destruct e. Qed.

(** One step of a thread: its label is a step of the specification, and the
    invariant holds again. *)
Definition step_post cap tr l (s' : sys) (e : option event) (wp : Z) : Prop :=
  ∃ l', match e with Some e => overflow_spec l e = Some l' | None => l' = l end ∧
    sys_inv cap (tr ++ option_list e) s' l' ∧
    write_position (queue s') ≤ wp + match e with Some _ => 1 | None => 0 end.

Ltac trace_simpl :=
  cbv [option_list option_rect] in *; rewrite ?app_nil_r, ?evicted_snoc, ?dequeued_snoc in *;
  cbv beta iota in *; rewrite ?app_nil_r, ?last_snoc in *.

Lemma silent_post cap tr l q q' p' c' :
  capacity q' = cap → queue_rep q' l →
  producer_inv q' l (last (evicted tr)) p' → consumer_inv q' l (last (dequeued tr)) c' →
  write_position q' = write_position q →
  step_post cap tr l (mkSys q' p' c') None (write_position q).
Proof.
  intros Hc Hrep Hp Hco Hw. exists l. split; [done|]. split; [|cbn; lia].
  constructor; trace_simpl; done.
Qed.

(** The consumer's knowledge survives an enqueue and an eviction. *)
Lemma consumer_inv_enqueue q l v w dq c :
  consumer_inv q l dq c → consumer_inv (set_write_position q w) (l ++ [v]) dq c.
Proof.
  destruct c; cbn; try done.
  - intros [? Hl]. split; [done|]. intros Hlt. specialize (Hl Hlt). by destruct l.
  - intros [? Hl]. split; [done|]. by destruct l.
  - intros (? & Hl & Hh). split; [done|]. split; [by destruct l|]. intros Heq.
    specialize (Hh Heq). by destruct l.
Qed.

Lemma consumer_inv_evict q x l dq c :
  l ≠ [] → consumer_inv q (x :: l) dq c →
  consumer_inv (set_read_position q (read_position q + 1)) l dq c.
Proof.
  intros Hl. destruct c; cbn; try done.
  - intros [? _]. split; [lia|done].
  - intros [? _]. split; [lia|done].
  - intros (? & _ & _). split; [lia|]. split; [done|]. lia.
Qed.

(** The producer's knowledge survives a dequeue. *)
Lemma producer_inv_dequeue q x l ev p :
  queue_rep q (x :: l) → producer_inv q (x :: l) ev p →
  producer_inv (set_read_position q (read_position q + 1)) l ev p.
Proof.
  intros [? ? ? ? ? ?]. cbn [length] in *.
  destruct p as [|v|v wp|v wp rp f|v wp rp f|rp|rp|[r|]]; cbn; intuition (try lia).
Qed.

Lemma oq_producer_step_inv cap tr q l p c q' p' e :
  1 ≤ cap → sys_inv cap tr (mkSys q p c) l → no_overflow q →
  producer_step q p = Return (q', p', e) →
  step_post cap tr l (mkSys q' p' c) e (write_position q).
Proof.
  intros Hcap1 [Hrep Hcap Hp Hc] Hov Hst. cbn in Hrep, Hcap, Hp, Hc. subst cap.
  pose proof Hrep as [Hd Hc0 Hr Hw Hb Hring]. unfold no_overflow in Hov.
  destruct p as [|v|v wp|v wp rp full|v wp rp full|rp|rp|[r|]];
    cbn [producer_step producer_inv] in *.
  - injection Hst as <- <- <-. by apply silent_post.
  - injection Hst as <- <- <-. by apply silent_post.
  - destruct Hp as [Hlen ->]. rewrite uadd_ok in Hst by lia. cbn [obind] in Hst.
    injection Hst as <- <- <-. apply silent_post; try done. cbn. repeat split; lia.
  - destruct Hp as (Hlen & -> & Hrp & Hwp & Hf).
    rewrite (at_ok _ _ _ Hrep Hov) in Hst. cbn [obind] in Hst.
    rewrite (oq_write_cell_ok _ _ _ _ Hrep) in Hst. cbn [obind] in Hst.
    injection Hst as <- <- <-. apply silent_post; try done.
    + by apply oq_rep_write_cell.
    + cbn. split_and!; try done; try lia. by apply cell_after_write with l.
  - destruct Hp as (Hlen & -> & Hrp & Hwp & Hf & Hv).
    rewrite uadd_ok in Hst by lia. cbn [obind] in Hst. injection Hst as <- <- <-.
    exists (l ++ [v]). split; [done|]. split; [|cbn; lia].
    constructor; cbn [queue prod cons]; trace_simpl; try done.
    + by apply oq_rep_publish.
    + subst full. destruct (Z.eqb_spec (write_position q) (rp + capacity q)); cbn;
        rewrite ?length_app; cbn; lia.
    + by apply consumer_inv_enqueue.
  - destruct Hp as [Hrp Hwp]. rewrite uadd_ok in Hst by lia. cbn [obind] in Hst.
    unfold compare_exchange in Hst.
    destruct (Z.eqb_spec (read_position q) rp) as [<-|Hne].
    + destruct l as [|x l]; [cbn in *; lia|]. cbn [length] in *.
      assert (queue_rep (set_read_position q (read_position q + 1)) l) as Hrep'
        by (by apply oq_rep_retire with x).
      rewrite (at_ok _ _ _ Hrep') in Hst by done. cbn [obind] in Hst.
      rewrite (read_cell_some _ l _ x Hrep') in Hst by (exact (oq_rep_head _ _ _ Hrep)).
      cbn [obind] in Hst. injection Hst as <- <- <-.
      exists l. cbn [overflow_spec]. rewrite Z.eqb_refl. split; [done|]. split; [|cbn; lia].
      constructor; cbn [queue prod cons]; trace_simpl; try done.
      * cbn. split; [lia|]. exists x. split; [done|]. exact (oq_rep_head _ _ _ Hrep).
      * apply consumer_inv_evict with x; [|done]. intros ->. cbn in *. lia.
    + injection Hst as <- <- <-. apply silent_post; try done.
      cbn. lia.
  - destruct Hp as (Hlen & v & Hev & Hv).
    rewrite (at_ok _ _ _ Hrep Hov) in Hst. cbn [obind] in Hst.
    rewrite (read_cell_some _ _ _ _ Hrep Hv) in Hst. cbn [obind] in Hst.
    injection Hst as <- <- <-. by apply silent_post.
  - injection Hst as <- <- <-. apply silent_post; try done. by destruct Hp.
  - injection Hst as <- <- <-. by apply silent_post.
Qed.

Lemma oq_consumer_step_inv cap tr q l p c q' c' e :
  1 ≤ cap → sys_inv cap tr (mkSys q p c) l → no_overflow q →
  consumer_step q c = Return (q', c', e) →
  step_post cap tr l (mkSys q' p c') e (write_position q).
Proof.
  intros Hcap1 [Hrep Hcap Hp Hc] Hov Hst. cbn in Hrep, Hcap, Hp, Hc. subst cap.
  pose proof Hrep as [Hd Hc0 Hr Hw Hb Hring]. unfold no_overflow in Hov.
  destruct c as [| |rp|rp|rp v|[r|]]; cbn [consumer_step consumer_inv] in *.
  - injection Hst as <- <- <-. by apply silent_post.
  - injection Hst as <- <- <-. apply silent_post; try done. cbn. lia.
  - destruct Hc as [Hrp Hl].
    destruct (Z.eqb_spec rp (write_position q)) as [->|Hne]; injection Hst as <- <- <-.
    + destruct l as [|x l]; [|cbn [length] in *; lia].
      exists []. split; [done|]. split; [|cbn; lia].
      constructor; cbn [queue prod cons]; trace_simpl; done.
    + apply silent_post; try done. cbn. split; [lia|].
      destruct (decide (rp = read_position q)); [|apply Hl; lia].
      intros ->. cbn in *. lia.
  - destruct Hc as [Hrp Hl]. rewrite (at_ok _ _ _ Hrep Hov) in Hst. cbn [obind] in Hst.
    destruct (read_cell_any _ _ rp Hrep) as (v & Hv & Hread). rewrite Hread in Hst.
    cbn [obind] in Hst. injection Hst as <- <- <-. apply silent_post; try done. cbn.
    split; [lia|]. split; [done|]. intros ->. destruct l as [|x l]; [done|].
    rewrite (oq_rep_head _ _ _ Hrep) in Hv. by injection Hv as ->.
  - destruct Hc as (Hrp & Hl & Hh). rewrite uadd_ok in Hst by lia. cbn [obind] in Hst.
    unfold compare_exchange in Hst.
    destruct (Z.eqb_spec (read_position q) rp) as [<-|Hne]; injection Hst as <- <- <-.
    + destruct l as [|x l]; [done|]. specialize (Hh eq_refl). injection Hh as ->.
      exists l. cbn [overflow_spec]. rewrite Z.eqb_refl. split; [done|]. split; [|cbn; lia].
      constructor; cbn [queue prod cons]; trace_simpl; try done.
      * by apply oq_rep_retire with v.
      * by apply producer_inv_dequeue with v.
    + apply silent_post; try done; cbn; split_and?; try lia; done.
  - injection Hst as <- <- <-. by apply silent_post.
  - injection Hst as <- <- <-. by apply silent_post.
Qed.
Lemma oq_reachable_inv cap s tr :
  1 ≤ cap → steps sys_step (sys_init cap) tr s →
  Z.of_nat (length tr) + cap + 2 < USIZE →
  ∃ l, spec_run overflow_spec [] tr = Some l ∧ sys_inv cap tr s l ∧
       write_position (queue s) ≤ Z.of_nat (length tr).
Proof.
  intros Hcap Hst. revert s tr Hst.
  apply (steps_invariant sys_step (λ s tr, Z.of_nat (length tr) + cap + 2 < USIZE →
    ∃ l, spec_run overflow_spec [] tr = Some l ∧ sys_inv cap tr s l ∧
       write_position (queue s) ≤ Z.of_nat (length tr))).
  - intros _. exists []. split; [done|]. split; [|cbn; lia].
    constructor; cbn; try done; [apply oq_new_rep|]; lia.
  - intros s tr s' _ IH Hst Hb. destruct (IH Hb) as (l & Hrun & Hinv & Hwp).
    assert (no_overflow (queue s)) as Hov by (destruct Hinv; unfold no_overflow; lia).
    pose proof Hinv as [Hrep Hc Hp Hco]. inversion Hst; subst; cbn in *.
    + exists l. split; [done|]. split; [by constructor|done].
    + exists l. split; [done|]. split; [by constructor|done].
    + edestruct oq_producer_step_inv as (l' & Hl' & Hinv' & ?); [| | |eassumption|]; try done.
      cbn in *. subst l'. rewrite app_nil_r in Hinv'. exists l. split; [done|]. split; [done|cbn; lia].
    + edestruct oq_consumer_step_inv as (l' & Hl' & Hinv' & ?); [| | |eassumption|]; try done.
      cbn in *. subst l'. rewrite app_nil_r in Hinv'. exists l. split; [done|]. split; [done|cbn; lia].
  - intros s tr e s' _ IH Hst Hb. rewrite length_app in *. cbn [length] in *.
    destruct (IH ltac:(lia)) as (l & Hrun & Hinv & Hwp).
    assert (no_overflow (queue s)) as Hov by (destruct Hinv; unfold no_overflow; lia).
    inversion Hst; subst; cbn in *.
    + edestruct oq_producer_step_inv as (l' & Hl' & Hinv' & ?); [| | |eassumption|]; try done.
      exists l'. rewrite spec_run_app, Hrun. cbn in *. rewrite Hl'. split; [done|].
      split; [done|lia].
    + edestruct oq_consumer_step_inv as (l' & Hl' & Hinv' & ?); [| | |eassumption|]; try done.
      exists l'. rewrite spec_run_app, Hrun. cbn in *. rewrite Hl'. split; [done|].
      split; [done|lia].
Qed.

Lemma overflow_run_conservation l0 tr l :
  spec_run overflow_spec l0 tr = Some l → l0 ++ enqueued tr = removed tr ++ l.
Proof.
  unfold enqueued, removed. revert l0. induction tr as [|e tr IH]; intros l0 Hrun; cbn in Hrun.
  - injection Hrun as ->. by rewrite app_nil_r.
  - destruct (overflow_spec l0 e) as [l1|] eqn:He; [|done]. specialize (IH _ Hrun).
    destruct e as [v|v|v|]; cbn in He |- *.
    + simplify_eq. by rewrite <- IH, <- app_assoc.
    + destruct l0 as [|x l0]; [done|]. destruct (Z.eqb_spec x v); simplify_eq.
      cbn. by rewrite <- IH.
    + destruct l0 as [|x l0]; [done|]. destruct (Z.eqb_spec x v); simplify_eq.
      cbn. by rewrite <- IH.
    + by destruct l0; simplify_eq.
Qed.

(** C5. Safe overflow under concurrency: however the atomic accesses of [push]
    and [pop] interleave, every value that was enqueued is, in order, either
    removed exactly once (returned by [pop] to the consumer or handed back by
    [push] to the producer) or still stored; a finished [push] leaves at most
    [capacity] values in the queue, the value it returns is the one it evicted,
    and the value [pop] returns is the one it dequeued. The capacity is at
    least one and the positions have not reached the end of [usize]. *)
Theorem overflow_queue_conserves cap s tr :
  1 ≤ cap → steps sys_step (sys_init cap) tr s →
  Z.of_nat (length tr) + cap + 2 < USIZE →
  ∃ l, spec_run overflow_spec [] tr = Some l ∧ queue_rep (queue s) l ∧
       enqueued tr = removed tr ++ l ∧
       (∀ r, prod s = PRet r → Z.of_nat (length l) ≤ cap) ∧
       (∀ v, prod s = PRet (Some v) → last (evicted tr) = Some v) ∧
       (∀ v, cons s = CRet (Some v) → last (dequeued tr) = Some v).
Proof.
  intros Hcap Hst Hb.
  destruct (oq_reachable_inv _ _ _ Hcap Hst Hb) as (l & Hrun & [Hrep Hc Hp Hco] & _).
  exists l. split; [done|]. split; [done|]. split; [by apply overflow_run_conservation in Hrun|].
  split_and!.
  - intros [r|] Hr; rewrite Hr in Hp; cbn in Hp; lia.
  - intros v Hv. rewrite Hv in Hp. by destruct Hp.
  - intros v Hv. by rewrite Hv in Hco.
Qed.

(** Memory safety of the overflowing queue: in every reachable state the
    next access of the producer and of the consumer is defined. *)
Theorem overflow_queue_threads_safe cap s tr :
  1 ≤ cap → steps sys_step (sys_init cap) tr s →
  Z.of_nat (length tr) + cap + 2 < USIZE →
  safe (producer_step (queue s) (prod s)) ∧ safe (consumer_step (queue s) (cons s)).
Proof.
  intros Hcap Hst Hb.
  destruct (oq_reachable_inv _ _ _ Hcap Hst Hb) as (l & _ & [Hrep Hc Hp Hco] & Hwp).
  assert (no_overflow (queue s)) as Hov by (unfold no_overflow; lia).
  pose proof Hrep as [Hd Hc0 Hr Hw Hbd _]. split; unfold safe.
  - destruct (prod s) as [|v|v wp|v wp rp full|v wp rp full|rp|rp|[r|]]; cbn in *; eauto.
    + rewrite uadd_ok by lia. cbn. eauto.
    + rewrite (at_ok _ _ _ Hrep Hov). cbn. rewrite (oq_write_cell_ok _ _ _ _ Hrep). cbn. eauto.
    + rewrite uadd_ok by lia. cbn. eauto.
    + rewrite uadd_ok by lia. cbn. unfold compare_exchange.
      destruct (Z.eqb_spec (read_position (queue s)) rp) as [<-|]; [|eauto].
      destruct l as [|x l]; [cbn in *; lia|]. cbn [length] in *.
      assert (queue_rep (set_read_position (queue s) (read_position (queue s) + 1)) l) as Hrep'
        by (by apply oq_rep_retire with x).
      rewrite (at_ok _ _ _ Hrep') by done. cbn.
      rewrite (read_cell_some _ _ _ _ Hrep (oq_rep_head _ _ _ Hrep)). cbn. eauto.
    + destruct Hp as (_ & v & _ & Hv). rewrite (at_ok _ _ _ Hrep Hov). cbn.
      rewrite (read_cell_some _ _ _ _ Hrep Hv). cbn. eauto.
  - destruct (cons s) as [| |rp|rp|rp v|[r|]]; cbn in *; eauto.
    + case_bool; eauto.
    + rewrite (at_ok _ _ _ Hrep Hov). cbn.
      destruct (read_cell_any _ _ rp Hrep) as (v & _ & ->). cbn. eauto.
    + destruct Hco as (? & ? & ?). destruct l as [|x l]; [done|]. cbn [length] in *.
      rewrite uadd_ok by lia. cbn. unfold compare_exchange. case_bool; eauto.
Qed.

(** ** Sequential behaviour *)

Lemma oq_pop_rep q l :
  queue_rep q l → no_overflow q →
  match l with
  | [] => pop q = Return (None, q)
  | x :: l' => pop q = Return (Some x, set_read_position q (read_position q + 1)) ∧
               queue_rep (set_read_position q (read_position q + 1)) l'
  end.
Proof.
  intros Hrep Hov. pose proof Hrep as [Hd Hc0 Hr Hw Hb Hring]. unfold pop.
  pose proof Hov as Hov'. unfold no_overflow in Hov'.
  destruct l as [|x l]; cbn [length] in *.
  - by rewrite (proj2 (Z.eqb_eq _ _)) by lia.
  - rewrite (proj2 (Z.eqb_neq _ _)) by lia. split; [|by apply oq_rep_retire with x].
    cbn [pop_loop]. rewrite (at_ok _ _ _ Hrep Hov). cbn [obind].
    rewrite (read_cell_some _ _ _ _ Hrep (oq_rep_head _ _ _ Hrep)). cbn [obind].
    rewrite uadd_ok by lia. cbn [obind]. unfold compare_exchange. by rewrite Z.eqb_refl.
Qed.

Lemma oq_push_rep q l v :
  queue_rep q l → no_overflow q → Z.of_nat (length l) ≤ capacity q →
  ∃ r q' l', push q v = Return (r, q') ∧ queue_rep q' l' ∧
    Z.of_nat (length l') ≤ capacity q ∧ capacity q' = capacity q ∧
    l ++ [v] = option_list r ++ l' ∧
    (r = None ↔ Z.of_nat (length l) < capacity q).
Proof.
  intros Hrep Hov Hlen. pose proof Hrep as [Hd Hc0 Hr Hw Hb Hring].
  pose proof Hov as Hov'. unfold no_overflow in Hov'. unfold push.
  rewrite uadd_ok by lia. cbn [obind].
  rewrite (at_ok _ _ _ Hrep Hov). cbn [obind]. rewrite (oq_write_cell_ok _ _ _ _ Hrep). cbn [obind].
  rewrite uadd_ok by lia. cbn [obind].
  set (q1 := set_write_position _ _).
  assert (queue_rep q1 (l ++ [v])) as Hrep1.
  { apply (oq_rep_publish (set_data q _)); [by apply oq_rep_write_cell|done|].
    exact (cell_after_write q l (write_position q) v Hrep). }
  destruct (Z.eqb_spec (write_position q) (read_position q + capacity q)) as [Hf|Hf].
  - rewrite uadd_ok by lia. cbn [obind]. unfold compare_exchange.
    change (read_position q1) with (read_position q). rewrite Z.eqb_refl.
    destruct (l ++ [v]) as [|x l'] eqn:El; [by destruct l|].
    assert (length (l ++ [v]) = S (length l')) as Hlen' by (by rewrite El).
    rewrite length_app in Hlen'. cbn in Hlen'.
    assert (queue_rep (set_read_position q1 (read_position q + 1)) l') as Hrep2
      by (by apply (oq_rep_retire q1 x)).
    change (at_ (set_read_position q1 (read_position q + 1)) (read_position q))
      with (at_ q (read_position q)).
    rewrite (at_ok _ _ _ Hrep Hov). cbn [obind].
    change (capacity q) with (capacity (set_read_position q1 (read_position q + 1))) at 1.
    rewrite (read_cell_some _ _ _ x Hrep2) by (apply (oq_rep_head q1 x l' Hrep1)). cbn [obind].
    exists (Some x). do 2 eexists. split; [done|]. split; [done|]. cbn.
    split_and!; try done; try lia. split; [done|lia].
  - exists None. do 2 eexists. split; [done|]. split; [done|]. cbn.
    rewrite length_app. cbn. split_and!; try done; try lia. split; [lia|done].
Qed.

(** Sequential behaviour of the overflowing queue: [push] always stores its
    value; it returns [None] as long as fewer than [capacity] values are
    stored and otherwise the oldest one, which leaves the queue; [pop] returns
    the oldest value, [None] exactly on an empty queue. *)
Theorem overflow_queue_sequential q l v :
  queue_rep q l → no_overflow q → Z.of_nat (length l) ≤ capacity q →
  (∃ r q' l', push q v = Return (r, q') ∧ queue_rep q' l' ∧
     Z.of_nat (length l') ≤ capacity q ∧ capacity q' = capacity q ∧
     l ++ [v] = option_list r ++ l' ∧
     (r = None ↔ Z.of_nat (length l) < capacity q)) ∧
  (∃ r q' l', pop q = Return (r, q') ∧ queue_rep q' l' ∧ l = option_list r ++ l' ∧
     (r = None ↔ l = [])).
Proof.
  intros Hrep Hov Hlen. split; [by apply oq_push_rep|].
  pose proof (oq_pop_rep q l Hrep Hov) as Hp. destruct l as [|x l].
  - exists None, q, []. done.
  - destruct Hp as [Hp Hrep']. exists (Some x). do 2 eexists. split; [done|]. split; [done|].
    done.
Qed.

Lemma producer_run_S n q pc :
  (∀ r, pc ≠ PRet r) →
  producer_run (S n) q pc = let! '(q', pc', _) := producer_step q pc in producer_run n q' pc'.
Proof. destruct pc; try done. intros H. by destruct (H r). Qed.

Lemma consumer_run_S n q pc :
  (∀ r, pc ≠ CRet r) →
  consumer_run (S n) q pc = let! '(q', pc', _) := consumer_step q pc in consumer_run n q' pc'.
Proof. destruct pc; try done. intros H. by destruct (H r). Qed.

(** The interleaving model of the overflowing queue is the code: a producer
    (consumer) that runs its atomic accesses alone does exactly what the
    function [push] ([pop]) does, on every queue, panics and undefined accesses
    included. *)
Theorem overflow_solo_run_is_operation q v :
  producer_run 8 q (PLoadWrite v) = push q v ∧ consumer_run 8 q CLoadRead = pop q.
Proof.
  split.
  - unfold push. do 2 (rewrite producer_run_S by done; cbn [producer_step obind]).
    destruct (uadd (read_position q) (capacity q)); cbn [obind]; [|done..].
    rewrite producer_run_S by done. cbn [producer_step].
    destruct (at_ q (write_position q)); cbn [obind]; [|done..].
    destruct (raw_write _ _ _); cbn [obind]; [|done..].
    rewrite producer_run_S by done. cbn [producer_step].
    destruct (uadd (write_position q) 1); cbn [obind]; [|done..].
    destruct (write_position q =? _); [|done].
    rewrite producer_run_S by done. cbn [producer_step].
    destruct (uadd (read_position q) 1); cbn [obind]; [|done..].
    unfold compare_exchange. cbn [read_position set_write_position set_data]. rewrite Z.eqb_refl.
    set (q2 := set_read_position _ _).
    destruct (at_ q2 (read_position q)) eqn:Ei; cbn [obind]; [|done..].
    destruct (raw_read _ _) eqn:Er; cbn [obind]; [|done..].
    rewrite producer_run_S by done. cbn [producer_step].
    rewrite Ei. cbn [obind]. by rewrite Er.
  - unfold pop. do 2 (rewrite consumer_run_S by done; cbn [consumer_step obind]).
    destruct (read_position q =? write_position q); cbn [obind]; [done|].
    rewrite consumer_run_S by done. cbn [consumer_step pop_loop].
    destruct (at_ q (read_position q)); cbn [obind]; [|done..].
    destruct (raw_read _ _); cbn [obind]; [|done..].
    rewrite consumer_run_S by done. cbn [consumer_step].
    destruct (uadd (read_position q) 1); cbn [obind]; [|done..].
    unfold compare_exchange. by rewrite Z.eqb_refl.
Qed.
End Theorems.

(** ** Capacity zero *)

Section CapacityZero.
Context `{P : Profile}.

Definition q_zero (d w r : Z) : OverflowQueue :=
  mkOverflowQueue 0 [d] 0 w r true true true.

Lemma uadd_small a b : 0 ≤ a ≤ 4 → 0 ≤ b ≤ 4 → uadd a b = Return (a + b).
Proof. intros. apply uadd_ok. unfold USIZE. lia. Qed.

(** Steps of the run below: every position is at most 2. *)
Ltac zero_step :=
  cbn; unfold at_; cbn; rewrite ?uadd_small by lia; cbn;
  unfold compare_exchange; cbn; rewrite ?uadd_small by lia; cbn; reflexivity.

(** A queue of capacity zero is not safe: there is an interleaving in which
    the value 5 is handed back to the producer by [push] and also returned by
    [pop], and the read position ends beyond the write position. The retry of
    [pop] does not test for emptiness again. *)
Theorem overflow_queue_capacity_zero_duplicates :
  ∃ s, steps sys_step (sys_init 0) [Enqueue 5; Evict 5; Dequeue 5] s ∧
       cons s = CRet (Some 5) ∧ write_position (queue s) < read_position (queue s).
Proof.
  exists (mkSys (q_zero 5 1 2) (PReadEvicted 0) (CRet (Some 5))).
  split; [|split; [reflexivity|cbn; lia]].
  eapply (steps_label _ _ [Enqueue 5; Evict 5]);
    [|eapply (step_consumer (q_zero 5 1 1) _ (CCas 1 5)); [done|zero_step]].
  eapply steps_silent; [|eapply (step_consumer (q_zero 5 1 1) _ (CReadCell 1)); [done|zero_step]].
  eapply steps_silent; [|eapply (step_consumer (q_zero 5 1 1) _ (CCas 0 5)); [done|zero_step]].
  eapply steps_silent; [|eapply (step_consumer (q_zero 5 1 1) _ (CReadCell 0)); [done|zero_step]].
  eapply (steps_label _ _ [Enqueue 5]);
    [|eapply (step_producer (q_zero 5 1 0) (PCas 0)); [done|zero_step]].
  eapply steps_silent; [|eapply (step_consumer (q_zero 5 1 0) _ (CLoadWrite 0)); [done|zero_step]].
  eapply steps_silent; [|eapply (step_consumer (q_zero 5 1 0) _ CLoadRead); [done|zero_step]].
  eapply steps_silent; [|apply step_call_pop].
  eapply (steps_label _ _ []);
    [|eapply (step_producer (q_zero 5 0 0) (PStoreWrite 5 0 0 true)); [done|zero_step]].
  eapply steps_silent;
    [|eapply (step_producer (q_zero 0 0 0) (PWriteCell 5 0 0 true)); [done|zero_step]].
  eapply steps_silent; [|eapply (step_producer (q_zero 0 0 0) (PLoadRead 5 0)); [done|zero_step]].
  eapply steps_silent; [|eapply (step_producer (q_zero 0 0 0) (PLoadWrite 5)); [done|zero_step]].
  eapply steps_silent; [|apply step_call_push].
  apply steps_refl.
Qed.
End CapacityZero.

(** ** Witnesses *)

Section Witnesses.
#[local] Instance checked : Profile := true.

(** A queue of capacity 1 that stores 7 and receives 8: the producer evicts 7. *)
Definition q_one (a b w r : Z) : OverflowQueue :=
  mkOverflowQueue 0 [a; b] 1 w r true true true.

Lemma oq_sample_run :
  steps sys_step (sys_init 1) [Enqueue 7; Enqueue 8; Evict 7]
    (mkSys (q_one 7 8 2 1) (PRet (Some 7)) (CReadCell 0)).
Proof.
  eapply steps_silent;
    [|eapply (step_producer (q_one 7 8 2 1) (PReadEvicted 0)); [done|reflexivity]].
  eapply (steps_label _ _ [Enqueue 7; Enqueue 8]);
    [|eapply (step_producer (q_one 7 8 2 0) (PCas 0)); [done|reflexivity]].
  eapply steps_silent; [|eapply (step_consumer (q_one 7 8 2 0) _ (CLoadWrite 0)); [done|reflexivity]].
  eapply (steps_label _ _ [Enqueue 7]);
    [|eapply (step_producer (q_one 7 8 1 0) (PStoreWrite 8 1 0 true)); [done|reflexivity]].
  eapply steps_silent;
    [|eapply (step_producer (q_one 7 0 1 0) (PWriteCell 8 1 0 true)); [done|reflexivity]].
  eapply steps_silent; [|eapply (step_producer (q_one 7 0 1 0) (PLoadRead 8 1)); [done|reflexivity]].
  eapply steps_silent; [|eapply (step_producer (q_one 7 0 1 0) (PLoadWrite 8)); [done|reflexivity]].
  eapply steps_silent; [|apply step_call_push].
  eapply steps_silent; [|eapply (step_consumer (q_one 7 0 1 0) _ CLoadRead); [done|reflexivity]].
  eapply steps_silent; [|apply step_call_pop].
  eapply steps_silent; [|eapply (step_producer (q_one 7 0 1 0) (PRet None)); [done|reflexivity]].
  eapply (steps_label _ _ []);
    [|eapply (step_producer (q_one 7 0 0 0) (PStoreWrite 7 0 0 false)); [done|reflexivity]].
  eapply steps_silent;
    [|eapply (step_producer (q_one 0 0 0 0) (PWriteCell 7 0 0 false)); [done|reflexivity]].
  eapply steps_silent; [|eapply (step_producer (q_one 0 0 0 0) (PLoadRead 7 0)); [done|reflexivity]].
  eapply steps_silent; [|eapply (step_producer (q_one 0 0 0 0) (PLoadWrite 7)); [done|reflexivity]].
  eapply steps_silent; [|apply step_call_push].
  apply steps_refl.
Qed.

Lemma overflow_queue_conserves_witness :
  ∃ l, spec_run overflow_spec [] [Enqueue 7; Enqueue 8; Evict 7] = Some l ∧
       queue_rep (q_one 7 8 2 1) l ∧
       enqueued [Enqueue 7; Enqueue 8; Evict 7] = removed [Enqueue 7; Enqueue 8; Evict 7] ++ l ∧
       Z.of_nat (length l) ≤ 1.
Proof.
  destruct (overflow_queue_conserves 1 (mkSys (q_one 7 8 2 1) (PRet (Some 7)) (CReadCell 0))
    [Enqueue 7; Enqueue 8; Evict 7]) as (l & H1 & H2 & H3 & H4 & _).
  - lia.
  - apply oq_sample_run.
  - reflexivity.
  - exists l. split; [done|]. split; [done|]. split; [done|]. by eapply H4.
Defined.

Lemma overflow_queue_threads_safe_witness :
  safe (producer_step (q_one 7 8 2 1) (PRet (Some 7))) ∧
  safe (consumer_step (q_one 7 8 2 1) (CReadCell 0)).
Proof.
  apply (overflow_queue_threads_safe 1 (mkSys (q_one 7 8 2 1) (PRet (Some 7)) (CReadCell 0))
    [Enqueue 7; Enqueue 8; Evict 7]).
  - lia.
  - apply oq_sample_run.
  - reflexivity.
Defined.

Lemma overflow_queue_sequential_witness :
  ∃ r q' l', push (new 0 3) 9 = Return (r, q') ∧ queue_rep q' l' ∧ [9] = option_list r ++ l'.
Proof.
  destruct (overflow_queue_sequential (new 0 3) [] 9) as [(r & q' & l' & H1 & H2 & _ & _ & H3 & _) _].
  - apply oq_new_rep. lia.
  - reflexivity.
  - cbn. lia.
  - by exists r, q', l'.
Defined.
End Witnesses.
