(* ===== verification/SpscQueue.v ===== *)
(** * elkodon_bb/lock_free/src/spsc/queue.rs

    The queue of values with a compile-time capacity. Any number of threads ask for its
    producer and its consumer, use them, give them back and look at the length, one
    atomic access at a time ([Module SpscQueue]). The theorems say that there is one
    producer and one consumer at most, that together they are a bounded queue, also
    when the roles move between threads, and that what an observer sees was true at one
    point in time. *)

From S2P Require Import Prelude Ring.

Module SpscQueue.

Section Operations.
Context `{P : Profile} {T : Type} (CAPACITY : Z).

(** An element that was never written is [None]. *)
Record Queue := mkQueue {
  data : list (option T);
  write_position : Z;
  read_position : Z;
  has_producer : bool;
  has_consumer : bool
}.
Definition set_data q d := mkQueue d (write_position q) (read_position q) (has_producer q) (has_consumer q).
Definition set_write_position q p := mkQueue (data q) p (read_position q) (has_producer q) (has_consumer q).
Definition set_read_position q p := mkQueue (data q) (write_position q) p (has_producer q) (has_consumer q).
Definition set_has_producer q b := mkQueue (data q) (write_position q) (read_position q) b (has_consumer q).
Definition set_has_consumer q b := mkQueue (data q) (write_position q) (read_position q) (has_producer q) b.

Definition new : Queue := mkQueue (replicate (Z.to_nat CAPACITY) None) 0 0 true true.
Definition capacity : Z := CAPACITY.

Inductive event := EPush (v : T) (ok : bool) | EPop (r : option T).

(** A thread: [Producer] and [Consumer] hold the handle and are not in a call. *)
Inductive pc :=
| Idle
| AcquireProducer
| AcquireConsumer
| Refused
| Producer
| PushLoadWrite (t : T)
| PushLoadRead (t : T) (current_write_pos : Z)
| PushCell (t : T) (current_write_pos : Z)
| PushStore (t : T) (current_write_pos : Z)
| PushRet (r : bool)
| DropProducer
| Consumer
| PopLoadRead
| PopLoadWrite (current_read_pos : Z)
| PopCell (current_read_pos : Z)
| PopStore (current_read_pos : Z) (out : T)
| PopRet (r : option T)
| DropConsumer
| LoadWrite
| LoadRead (write_position : Z)
| CheckWrite (write_position read_position : Z)
| CheckRead (write_position read_position : Z)
| Positions (write_position read_position : Z).

(** One atomic access. Reading an element that was never written is undefined. *)
Definition step (q : Queue) (t : pc) : outcome (Queue * pc * option event) :=
  match t with
  | Idle | Refused | Producer | PushRet _ | Consumer | PopRet _ | Positions _ _ => Return (q, t, None)
  | AcquireProducer =>
      let '(b, r) := compare_exchange_bool (has_producer q) true false in
      Return (set_has_producer q b, match r with Ok _ => Producer | Err _ => Refused end, None)
  | AcquireConsumer =>
      let '(b, r) := compare_exchange_bool (has_consumer q) true false in
      Return (set_has_consumer q b, match r with Ok _ => Consumer | Err _ => Refused end, None)
  | DropProducer => Return (set_has_producer q true, Idle, None)
  | DropConsumer => Return (set_has_consumer q true, Idle, None)
  | PushLoadWrite t => Return (q, PushLoadRead t (write_position q), None)
  | PushLoadRead t current_write_pos =>
      let! limit := uadd (read_position q) CAPACITY in
      if current_write_pos =? limit then Return (q, PushRet false, Some (EPush t false))
      else Return (q, PushCell t current_write_pos, None)
  | PushCell t current_write_pos =>
      let! i := urem current_write_pos CAPACITY in
      let! d := index_write (data q) i (Some t) in
      Return (set_data q d, PushStore t current_write_pos, None)
  | PushStore t current_write_pos =>
      let! p := uadd current_write_pos 1 in
      Return (set_write_position q p, PushRet true, Some (EPush t true))
  | PopLoadRead => Return (q, PopLoadWrite (read_position q), None)
  | PopLoadWrite current_read_pos =>
      if current_read_pos =? write_position q then Return (q, PopRet None, Some (EPop None))
      else Return (q, PopCell current_read_pos, None)
  | PopCell current_read_pos =>
      let! i := urem current_read_pos CAPACITY in
      let! out := index_read (data q) i in
      match out with Some out => Return (q, PopStore current_read_pos out, None) | None => Undefined end
  | PopStore current_read_pos out =>
      let! p := uadd current_read_pos 1 in
      Return (set_read_position q p, PopRet (Some out), Some (EPop (Some out)))
  | LoadWrite => Return (q, LoadRead (write_position q), None)
  | LoadRead w => Return (q, CheckWrite w (read_position q), None)
  | CheckWrite w r => Return (q, if w =? write_position q then CheckRead w r else LoadWrite, None)
  | CheckRead w r => Return (q, if r =? read_position q then Positions w r else LoadWrite, None)
  end.

(** What [is_empty], [len] and [is_full] make of the two positions. *)
Definition is_empty (write_position read_position : Z) : bool := write_position =? read_position.
Definition len (write_position read_position : Z) : outcome Z := usub write_position read_position.
Definition is_full (write_position read_position : Z) : outcome bool :=
  let! limit := uadd read_position CAPACITY in Return (write_position =? limit).

(** The caller: who holds a handle uses it or drops it. *)
Inductive start : pc → pc → Prop :=
| start_acquire_producer : start Idle AcquireProducer
| start_acquire_consumer : start Idle AcquireConsumer
| start_observe : start Idle LoadWrite
| refused : start Refused Idle
| observed w r : start (Positions w r) Idle
| start_push t : start Producer (PushLoadWrite t)
| pushed r : start (PushRet r) Producer
| start_drop_producer : start Producer DropProducer
| start_pop : start Consumer PopLoadRead
| popped r : start (PopRet r) Consumer
| start_drop_consumer : start Consumer DropConsumer.

Inductive sys_step : Queue * list pc → option event → Queue * list pc → Prop :=
| sys_start q ts i t t' : ts !! i = Some t → start t t' → sys_step (q, ts) None (q, <[i := t']> ts)
| sys_access q ts i t q' t' e :
    ts !! i = Some t → step q t = Return (q', t', e) → sys_step (q, ts) e (q', <[i := t']> ts).

(** A thread that runs alone until its call returns. *)
Definition returned (t : pc) : bool :=
  match t with Idle | Refused | Producer | PushRet _ | Consumer | PopRet _ | Positions _ _ => true | _ => false end.
Fixpoint run (fuel : nat) (q : Queue) (t : pc) : outcome (Queue * pc) :=
  if returned t then Return (q, t)
  else match fuel with
       | O => Undefined
       | S fuel => let! '(q, t, _) := step q t in run fuel q t
       end.

(** ** Specification and invariant *)

Definition fifo_spec `{EqDecision T} (l : list T) (e : event) : option (list T) :=
  match e with
  | EPush v true => if Z.of_nat (length l) <? CAPACITY then Some (l ++ [v]) else None
  | EPush v false => if Z.of_nat (length l) =? CAPACITY then Some l else None
  | EPop None => match l with [] => Some [] | _ => None end
  | EPop (Some v) => match l with x :: l' => if decide (x = v) then Some l' else None | [] => None end
  end.

(** The holders of the handles. *)
Definition producing (t : pc) : nat :=
  match t with
  | Producer | PushLoadWrite _ | PushLoadRead _ _ | PushCell _ _ | PushStore _ _ | PushRet _ | DropProducer => 1
  | _ => 0
  end.
Definition consuming (t : pc) : nat :=
  match t with
  | Consumer | PopLoadRead | PopLoadWrite _ | PopCell _ | PopStore _ _ | PopRet _ | DropConsumer => 1
  | _ => 0
  end.

(** The queue holds [l]. *)
Record rep (q : Queue) (l : list T) : Prop := {
  rep_data : Z.of_nat (length (data q)) = CAPACITY;
  rep_read : 0 ≤ read_position q;
  rep_write : write_position q = read_position q + Z.of_nat (length l);
  rep_bound : Z.of_nat (length l) ≤ CAPACITY;
  rep_ring : ring_rep (data q) CAPACITY (read_position q) (Some <$> l)
}.

(** What a thread knows between two accesses. *)
Definition knows (q : Queue) (l : list T) (t : pc) : Prop :=
  match t with
  | PushLoadRead _ w => w = write_position q
  | PushCell _ w => w = write_position q ∧ Z.of_nat (length l) < CAPACITY
  | PushStore t w => w = write_position q ∧ Z.of_nat (length l) < CAPACITY ∧ data q !! slot CAPACITY w = Some (Some t)
  | PopLoadWrite r => r = read_position q
  | PopCell r => r = read_position q ∧ l ≠ []
  | PopStore r x => r = read_position q ∧ head l = Some x
  | LoadRead w => w ≤ write_position q
  | CheckWrite w r => w ≤ write_position q ∧ (w = write_position q → 0 ≤ w - r ≤ CAPACITY)
  | CheckRead w r | Positions w r => 0 ≤ w - r ≤ CAPACITY
  | _ => True
  end.

Record sys_inv (x : Queue * list pc) (l : list T) : Prop := {
  inv_rep : rep x.1 l;
  inv_producer : total producing x.2 = if has_producer x.1 then 0 else 1;
  inv_consumer : total consuming x.2 = if has_consumer x.1 then 0 else 1;
  inv_knows : Forall (knows x.1 l) x.2
}.
End Operations.
Arguments Queue T : clear implicits.
Arguments pc T : clear implicits.
Arguments event T : clear implicits.

Section Theorems.
Context `{P : Profile} {T : Type} `{EqDecision T} (CAPACITY : Z).
Implicit Types (q : Queue T) (ts : list (pc T)) (l : list T).

#[local] Notation sys_inv := (sys_inv CAPACITY).
#[local] Notation fifo_spec := (fifo_spec CAPACITY).
#[local] Notation knows := (knows CAPACITY).
#[local] Notation rep := (rep CAPACITY).

(** The other threads do not notice what the producer does, ... *)
Lemma knows_push q l q' l' u :
  producing u = 0%nat → knows q l u → read_position q' = read_position q → write_position q ≤ write_position q' →
  (∀ x, head l = Some x → head l' = Some x) → knows q' l' u.
Proof.
  intros Hu Hk Hr Hw Hh. destruct u; cbn in *; try done; try lia; try (destruct Hk; split; [congruence|]).
  - destruct l as [|x l]; [done|]. specialize (Hh x eq_refl). by destruct l'.
  - auto.
Qed.

(** ... nor what the consumer does, ... *)
Lemma knows_pop q l q' l' u :
  consuming u = 0%nat → knows q l u → data q' = data q → write_position q' = write_position q →
  (length l' ≤ length l)%nat → knows q' l' u.
Proof.
  intros Hu Hk Hd Hw Hl. destruct u; cbn in *; rewrite ?Hd, ?Hw; try done; destruct Hk as [? Hk]; split; try done; [lia|].
  destruct Hk. split; [lia|done].
Qed.

(** ... nor who holds the handles. *)
Lemma knows_flags q l q' u :
  knows q l u → data q' = data q → write_position q' = write_position q → read_position q' = read_position q → knows q' l u.
Proof. intros Hk Hd Hw Hr. destruct u; cbn in *; by rewrite ?Hd, ?Hw, ?Hr. Qed.

Definition access_post q ts i l q' t' (e : option (event T)) : Prop :=
  ∃ l', match e with Some e => fifo_spec l e = Some l' | None => l' = l end ∧
    sys_inv (q', <[i := t']> ts) l' ∧ write_position q' ≤ write_position q + match e with Some _ => 1 | None => 0 end.

Lemma access_frame q ts i l t q' t' l' :
  sys_inv (q, ts) l → ts !! i = Some t → rep q' l' →
  Z.of_nat (producing t') - (if has_producer q' then 0 else 1) = Z.of_nat (producing t) - (if has_producer q then 0 else 1) →
  Z.of_nat (consuming t') - (if has_consumer q' then 0 else 1) = Z.of_nat (consuming t) - (if has_consumer q then 0 else 1) →
  knows q' l' t' → (∀ j u, j ≠ i → ts !! j = Some u → knows q l u → knows q' l' u) →
  sys_inv (q', <[i := t']> ts) l'.
Proof.
  intros [H1 H2 H3 H4] Hi Hr Hp Hc Hk Hst. cbn [fst snd] in *. constructor; cbn [fst snd].
  - done.
  - rewrite (total_insert _ _ _ _ _ Hi). lia.
  - rewrite (total_insert _ _ _ _ _ Hi). lia.
  - apply Forall_lookup. intros j u Hj. destruct (decide (j = i)) as [->|Hne].
    + rewrite list_lookup_insert_eq in Hj by (by eapply lookup_lt_Some). by injection Hj as <-.
    + rewrite list_lookup_insert_ne in Hj by done. eapply Hst; [done..|]. by eapply Forall_lookup_1.
Qed.

(** Another thread has not got the handle. *)
Lemma other_producing q ts l i j t u :
  sys_inv (q, ts) l → ts !! i = Some t → ts !! j = Some u → j ≠ i → producing t = 1%nat → producing u = 0%nat.
Proof.
  intros [_ H _ _] Hi Hj Hne Ht. cbn in H. pose proof (total_lookup_two producing _ _ _ _ _ Hne Hj Hi).
  destruct (has_producer q); lia.
Qed.
Lemma other_consuming q ts l i j t u :
  sys_inv (q, ts) l → ts !! i = Some t → ts !! j = Some u → j ≠ i → consuming t = 1%nat → consuming u = 0%nat.
Proof.
  intros [_ _ H _] Hi Hj Hne Ht. cbn in H. pose proof (total_lookup_two consuming _ _ _ _ _ Hne Hj Hi).
  destruct (has_consumer q); lia.
Qed.

(** An access that changes neither the positions nor the elements. *)
Lemma access_same q ts i l t q' t' e :
  sys_inv (q, ts) l → ts !! i = Some t →
  data q' = data q → write_position q' = write_position q → read_position q' = read_position q →
  Z.of_nat (producing t') - (if has_producer q' then 0 else 1) = Z.of_nat (producing t) - (if has_producer q then 0 else 1) →
  Z.of_nat (consuming t') - (if has_consumer q' then 0 else 1) = Z.of_nat (consuming t) - (if has_consumer q then 0 else 1) →
  knows q l t' → match e with Some e => fifo_spec l e = Some l | None => True end →
  access_post q ts i l q' t' e.
Proof.
  intros Hinv Hi Hd Hw Hr Hp Hc Hk He. exists l. split; [by destruct e|]. split; [|rewrite Hw; destruct e; lia].
  eapply access_frame; [exact Hinv|exact Hi| |exact Hp|exact Hc| |].
  - destruct Hinv as [[H1 H2 H3 H4 H5] _ _ _]. cbn [fst] in *. constructor; by rewrite ?Hd, ?Hw, ?Hr.
  - by eapply knows_flags.
  - intros j u _ _ Hu. by eapply knows_flags.
Qed.

Lemma push_cell q ts i l t w :
  sys_inv (q, ts) l → ts !! i = Some (PushCell t w) →
  ∃ q', step CAPACITY q (PushCell t w) = Return (q', PushStore t w, None) ∧ access_post q ts i l q' (PushStore t w) None.
Proof.
  intros Hinv Hi. pose proof (Forall_lookup_1 _ _ _ _ (inv_knows _ _ _ Hinv) Hi) as [Hw Hlt]. cbn [fst] in *.
  pose proof (inv_rep _ _ _ Hinv) as [H1 H2 H3 H4 H5]. cbn [fst] in *. pose proof (Z.mod_pos_bound w CAPACITY).
  cbn [step]. rewrite urem_ok by lia. cbn [obind]. rewrite index_write_ok by lia. cbn [obind].
  eexists. split; [done|]. exists l. split; [done|]. split; [|cbn; lia]. eapply access_frame; try done.
  - constructor; cbn; rewrite ?length_insert; try done.
    apply (ring_rep_insert_outside _ _ _ w); [lia| |done]. rewrite length_fmap. intros k Hk. lia.
  - cbn. split; [done|]. split; [done|]. apply list_lookup_insert_eq. pose proof (slot_lt CAPACITY w). unfold slot in *. lia.
  - intros j u Hne Hj Hu. eapply knows_push; [by eapply (other_producing q ts l i j)|done|done|cbn; lia|done].
Qed.

Lemma push_store q ts i l t w :
  sys_inv (q, ts) l → ts !! i = Some (PushStore t w) → write_position q + 1 < USIZE →
  ∃ q', step CAPACITY q (PushStore t w) = Return (q', PushRet true, Some (EPush t true)) ∧
    access_post q ts i l q' (PushRet true) (Some (EPush t true)).
Proof.
  intros Hinv Hi Hb. pose proof (Forall_lookup_1 _ _ _ _ (inv_knows _ _ _ Hinv) Hi) as (Hw & Hlt & Hcell). cbn [fst] in *.
  pose proof (inv_rep _ _ _ Hinv) as [H1 H2 H3 H4 H5]. cbn [fst] in *.
  cbn [step]. rewrite uadd_ok by lia. cbn [obind]. eexists. split; [done|]. exists (l ++ [t]). split; [cbn; by zbool|].
  split; [|cbn; lia]. eapply access_frame; try done.
  - constructor; cbn; rewrite ?length_app; cbn; try done; try lia. rewrite fmap_app. apply ring_rep_app. split; [done|].
    rewrite length_fmap, <- H3, <- Hw. apply ring_rep_cons. split; [done|apply ring_rep_nil].
  - intros j u Hne Hj Hu. eapply knows_push; [by eapply (other_producing q ts l i j)|done|done|cbn; lia|by destruct l].
Qed.

Lemma pop_cell q ts i l r :
  sys_inv (q, ts) l → ts !! i = Some (PopCell r) →
  ∃ x, step CAPACITY q (PopCell r) = Return (q, PopStore r x, None) ∧ access_post q ts i l q (PopStore r x) None.
Proof.
  intros Hinv Hi. pose proof (Forall_lookup_1 _ _ _ _ (inv_knows _ _ _ Hinv) Hi) as [Hr Hne]. cbn [fst] in *.
  pose proof (inv_rep _ _ _ Hinv) as [H1 H2 H3 H4 H5]. cbn [fst] in *. destruct l as [|x l]; [done|]. cbn [length] in *.
  cbn [fmap list_fmap] in H5. apply ring_rep_cons in H5 as [Hx _]. pose proof (Z.mod_pos_bound r CAPACITY).
  cbn [step]. rewrite urem_ok by lia. cbn [obind]. rewrite Hr in *. rewrite (index_read_ok _ _ (Some x)); [|lia|exact Hx].
  cbn [obind]. exists x. split; [done|]. by eapply access_same.
Qed.

Lemma pop_store q ts i l r x :
  sys_inv (q, ts) l → ts !! i = Some (PopStore r x) → write_position q + 1 < USIZE →
  ∃ q', step CAPACITY q (PopStore r x) = Return (q', PopRet (Some x), Some (EPop (Some x))) ∧
    access_post q ts i l q' (PopRet (Some x)) (Some (EPop (Some x))).
Proof.
  intros Hinv Hi Hb. pose proof (Forall_lookup_1 _ _ _ _ (inv_knows _ _ _ Hinv) Hi) as [Hr Hh]. cbn [fst] in *.
  pose proof (inv_rep _ _ _ Hinv) as [H1 H2 H3 H4 H5]. cbn [fst] in *. destruct l as [|y l]; [done|]. injection Hh as ->.
  cbn [length fmap list_fmap] in *. apply ring_rep_cons in H5 as [_ H5].
  cbn [step]. rewrite uadd_ok by lia. cbn [obind]. eexists. split; [done|]. exists l.
  split; [cbn; by rewrite decide_True|]. split; [|cbn; lia]. eapply access_frame; try done.
  - constructor; cbn; try done; try lia. by rewrite Hr.
  - intros j u Hne Hj Hu. eapply knows_pop; [by eapply (other_consuming q ts _ i j)|done|done|done|cbn; lia].
Qed.

(** Every access is defined and keeps the invariant. *)
Lemma access_ok q ts i l t :
  sys_inv (q, ts) l → ts !! i = Some t → write_position q + CAPACITY + 1 < USIZE →
  ∃ q' t' e, step CAPACITY q t = Return (q', t', e) ∧ access_post q ts i l q' t' e.
Proof.
  intros Hinv Hi Hb. pose proof (Forall_lookup_1 _ _ _ _ (inv_knows _ _ _ Hinv) Hi) as Hk. cbn [fst] in Hk.
  pose proof (inv_rep _ _ _ Hinv) as [H1 H2 H3 H4 H5]. cbn [fst] in *.
  pose proof (total_lookup producing _ _ _ Hi) as Hp. pose proof (total_lookup consuming _ _ _ Hi) as Hc.
  pose proof (inv_producer _ _ _ Hinv) as Hp'. pose proof (inv_consumer _ _ _ Hinv) as Hc'. cbn [fst snd] in *.
  assert (∀ q' t' e, step CAPACITY q t = Return (q', t', e) ∧ access_post q ts i l q' t' e →
    ∃ q' t' e, step CAPACITY q t = Return (q', t', e) ∧ access_post q ts i l q' t' e) as Hex by (intros; by do 3 eexists).
  destruct t; try (eapply Hex; cbn [step]; split; [done|]; by eapply access_same).
  - cbn [step]. unfold compare_exchange_bool. destruct (has_producer q) eqn:Hq; cbn;
      (do 3 eexists; split; [done|]; eapply access_same; try done; cbn; by rewrite ?Hq).
  - cbn [step]. unfold compare_exchange_bool. destruct (has_consumer q) eqn:Hq; cbn;
      (do 3 eexists; split; [done|]; eapply access_same; try done; cbn; by rewrite ?Hq).
  - cbn [SpscQueue.knows] in Hk. subst. cbn [step]. rewrite uadd_ok by lia. cbn [obind].
    destruct (Z.eqb_spec (write_position q) (read_position q + CAPACITY)) as [He|He].
    + do 3 eexists. split; [done|]. eapply access_same; try done. cbn. by rewrite (proj2 (Z.eqb_eq _ _)) by lia.
    + do 3 eexists. split; [done|]. eapply access_same; try done. cbn. split; [done|]. lia.
  - destruct (push_cell _ _ _ _ _ _ Hinv Hi) as (q' & ? & ?). by eapply Hex.
  - destruct (push_store _ _ _ _ _ _ Hinv Hi ltac:(lia)) as (q' & ? & ?). by eapply Hex.
  - do 3 eexists. split; [done|]. eapply access_same; try done. cbn. destruct (has_producer q); [cbn in Hp; lia|done].
  - cbn [SpscQueue.knows] in Hk. subst. cbn [step]. destruct (Z.eqb_spec (read_position q) (write_position q)) as [He|He].
    + do 3 eexists. split; [done|]. eapply access_same; try done. cbn. destruct l; [done|cbn in *; lia].
    + do 3 eexists. split; [done|]. eapply access_same; try done. cbn. split; [done|]. intros ->. cbn in *; lia.
  - destruct (pop_cell _ _ _ _ _ Hinv Hi) as (x & ? & ?). by eapply Hex.
  - destruct (pop_store _ _ _ _ _ _ Hinv Hi ltac:(lia)) as (q' & ? & ?). by eapply Hex.
  - do 3 eexists. split; [done|]. eapply access_same; try done. cbn. destruct (has_consumer q); [cbn in Hc; lia|done].
  - do 3 eexists. split; [done|]. eapply access_same; try done. cbn. lia.
  - do 3 eexists. split; [done|]. eapply access_same; try done. cbn in *. lia.
  - do 3 eexists. cbn [step]. split; [done|]. eapply access_same; try done; destruct (Z.eqb_spec write_position0 (write_position q)); cbn in *; try done. by apply Hk.
  - do 3 eexists. cbn [step]. split; [done|]. eapply access_same; try done; by destruct (read_position0 =? read_position q).
Qed.

Lemma spsc_start_inv q ts i t t' l :
  sys_inv (q, ts) l → ts !! i = Some t → start t t' → sys_inv (q, <[i := t']> ts) l.
Proof.
  intros Hinv Hi Ht. destruct (access_same q ts i l t q t' None Hinv Hi) as (? & -> & Hs & _); try done; by destruct Ht.
Qed.

Lemma spsc_reachable_inv n x tr :
  0 ≤ CAPACITY → steps (sys_step CAPACITY) (new CAPACITY, replicate n Idle) tr x →
  Z.of_nat (length tr) + CAPACITY + 2 < USIZE →
  ∃ l, spec_run fifo_spec [] tr = Some l ∧ sys_inv x l ∧ write_position x.1 ≤ Z.of_nat (length tr).
Proof.
  intros Hcap Hst. revert x tr Hst.
  apply (steps_invariant _ (λ x tr, Z.of_nat (length tr) + CAPACITY + 2 < USIZE →
    ∃ l, spec_run fifo_spec [] tr = Some l ∧ sys_inv x l ∧ write_position x.1 ≤ Z.of_nat (length tr))).
  - intros _. exists []. split; [done|]. split; [|done]. constructor; cbn [fst snd]; rewrite ?total_replicate by done; try done.
    + constructor; cbn; rewrite ?length_replicate; try done; lia.
    + by apply Forall_replicate.
  - intros x tr x' _ IH Hst Hb. destruct (IH Hb) as (l & Hrun & Hinv & Hw). exists l.
    inversion Hst as [q ts i t t' Hi Ht|q ts i t q' t' e Hi Ht]; subst; cbn [fst] in *.
    + split; [done|]. split; [by eapply spsc_start_inv|done].
    + destruct (access_ok _ _ _ _ _ Hinv Hi ltac:(lia)) as (q1 & t1 & e1 & Hs & l' & He & Hinv' & Hw').
      rewrite Ht in Hs. injection Hs as <- <- <-. subst l'. split_and!; [done..|lia].
  - intros x tr e x' _ IH Hst Hb. rewrite length_app in *. cbn [length] in *. destruct IH as (l & Hrun & Hinv & Hw); [lia|].
    inversion Hst as [|q ts i t q' t' e' Hi Ht]; subst; cbn [fst] in *.
    destruct (access_ok _ _ _ _ _ Hinv Hi ltac:(lia)) as (q1 & t1 & e1 & Hs & l' & He & Hinv' & Hw').
    rewrite Ht in Hs. injection Hs as <- <- <-. exists l'. split_and!; [|done|lia].
    rewrite spec_run_app, Hrun. cbn. by rewrite He.
Qed.

(** C11. Under every interleaving of any number of threads that acquire, use and drop
    the handles, one thread at most is the producer and one the consumer; the pushes and
    pops, whoever makes them, are those of a queue of [CAPACITY] elements (a push is
    refused exactly when it is full, a pop exactly when it is empty; the comment at
    [Queue::push] promises that it replaces the oldest element then, which the code does not
    do); and the positions an observer gets differ by a length the queue can have. *)
Theorem spsc_queue_linearizable n q ts tr :
  0 ≤ CAPACITY → steps (sys_step CAPACITY) (new CAPACITY, replicate n Idle) tr (q, ts) →
  Z.of_nat (length tr) + CAPACITY + 2 < USIZE →
  (∃ l, spec_run fifo_spec [] tr = Some l ∧ rep q l) ∧
  total producing ts ≤ 1 ∧ total consuming ts ≤ 1 ∧
  (∀ w r, Positions w r ∈ ts → 0 ≤ w - r ≤ CAPACITY).
Proof.
  intros Hcap Hst Hb. destruct (spsc_reachable_inv _ _ _ Hcap Hst Hb) as (l & Hrun & [H1 H2 H3 H4] & _). cbn [fst snd] in *.
  split; [by exists l|]. split; [destruct (has_producer q); lia|]. split; [destruct (has_consumer q); lia|].
  intros w r Hin. rewrite Forall_forall in H4. exact (H4 _ Hin).
Qed.

(** No access of a thread is undefined or panics: no position overflows, no index is
    out of range and no element is read that was not written before. *)
Theorem spsc_queue_safe n q ts tr i t :
  0 ≤ CAPACITY → steps (sys_step CAPACITY) (new CAPACITY, replicate n Idle) tr (q, ts) →
  Z.of_nat (length tr) + CAPACITY + 2 < USIZE → ts !! i = Some t →
  ∃ q' t' e, step CAPACITY q t = Return (q', t', e).
Proof.
  intros Hcap Hst Hb Hi. destruct (spsc_reachable_inv _ _ _ Hcap Hst Hb) as (l & Hrun & Hinv & Hw). cbn [fst] in Hw.
  destruct (access_ok _ _ _ _ _ Hinv Hi ltac:(lia)) as (q1 & t1 & e1 & Hs & _). by do 3 eexists.
Qed.

(** Every call returns: alone, [push] and [pop] take at most four accesses and the
    loop of [len] one round. *)
Theorem spsc_queue_calls_return q t l v :
  sys_inv (q, [t]) l → write_position q + CAPACITY + 2 < USIZE →
  (t = Producer → ∃ q', run CAPACITY 4 q (PushLoadWrite v) = Return (q', PushRet (Z.of_nat (length l) <? CAPACITY)) ∧
     rep q' (if Z.of_nat (length l) <? CAPACITY then l ++ [v] else l)) ∧
  (t = Consumer → ∃ q', run CAPACITY 4 q PopLoadRead = Return (q', PopRet (head l)) ∧ rep q' (tail l)) ∧
  (t = Idle → ∃ w r, run CAPACITY 4 q LoadWrite = Return (q, Positions w r) ∧
     len w r = Return (Z.of_nat (length l)) ∧ is_empty w r = bool_decide (l = []) ∧
     is_full CAPACITY w r = Return (bool_decide (Z.of_nat (length l) = CAPACITY))).
Proof.
  intros Hinv Hb. pose proof (inv_rep _ _ _ Hinv) as [H1 H2 H3 H4 H5]. cbn [fst] in *. split_and!; intros ->.
  - pose proof (spsc_start_inv _ _ 0 _ (PushLoadWrite v) _ Hinv eq_refl ltac:(constructor)) as Hi0. cbn in Hi0.
    cbn [run returned step obind]. rewrite uadd_ok by lia. cbn [obind].
    destruct (Z.ltb_spec (Z.of_nat (length l)) CAPACITY) as [Hlt|Hge].
    + rewrite (proj2 (Z.eqb_neq _ _)) by lia. cbn [obind run returned].
      assert (sys_inv (q, [PushCell v (write_position q)]) l) as Hi1.
      { destruct (access_same q [PushLoadWrite v] 0 l _ q (PushCell v (write_position q)) None Hi0 eq_refl)
          as (? & -> & Hs & _); done. }
      destruct (push_cell _ _ 0 _ _ _ Hi1 eq_refl) as (q1 & -> & (? & -> & Hi2 & Hw2)). cbn [obind run returned].
      destruct (push_store _ _ 0 _ _ _ Hi2 eq_refl) as (q2 & -> & (l2 & He & Hi3 & _)); [cbn in Hw2; lia|]. cbn [obind run returned].
      exists q2. split; [done|]. cbn in He. revert He. zbool. intros [= <-]. apply Hi3.
    + rewrite (proj2 (Z.eqb_eq _ _)) by lia. cbn. exists q. split; [done|]. apply Hinv.
  - pose proof (spsc_start_inv _ _ 0 _ PopLoadRead _ Hinv eq_refl ltac:(constructor)) as Hi0. cbn in Hi0.
    cbn [run returned step obind]. destruct l as [|x l]; cbn [length head tail] in *.
    + rewrite (proj2 (Z.eqb_eq _ _)) by lia. cbn. exists q. split; [done|]. apply Hinv.
    + rewrite (proj2 (Z.eqb_neq _ _)) by lia. cbn [obind run returned].
      assert (sys_inv (q, [PopCell (read_position q)]) (x :: l)) as Hi1.
      { destruct (access_same q [PopLoadRead] 0 (x :: l) _ q (PopCell (read_position q)) None Hi0 eq_refl)
          as (? & -> & Hs & _); done. }
      destruct (pop_cell _ _ 0 _ _ Hi1 eq_refl) as (y & -> & (? & -> & Hi2 & Hw2)). cbn [obind run returned].
      destruct (pop_store _ _ 0 _ _ _ Hi2 eq_refl) as (q2 & -> & (l2 & He & Hi3 & _)); [lia|]. cbn [obind run returned].
      cbn in He. revert He. destruct (decide (x = y)) as [<-|]; [|done]. intros [= <-]. exists q2. split; [done|]. apply Hi3.
  - exists (write_position q), (read_position q). split; [cbn; rewrite Z.eqb_refl; cbn; by rewrite Z.eqb_refl|]. unfold len, is_empty, is_full. rewrite usub_ok by lia.
    rewrite uadd_ok by lia. cbn. split_and!.
    + f_equal. lia.
    + destruct l; cbn in *; [apply Z.eqb_eq; lia|apply Z.eqb_neq; lia].
    + f_equal. destruct (Z.eqb_spec (write_position q) (read_position q + CAPACITY)); case_bool_decide; try done; lia.
Qed.
End Theorems.

(** ** Witnesses *)

Section Witnesses.
#[local] Instance checked : Profile := true.

(** The producer is dropped after a push of 5; another thread becomes the producer and
    pushes 6; the first one takes 5. *)
Definition handed_over : Queue Z := mkQueue [Some 5; Some 6] 2 1 false false.

Fixpoint exec (q : Queue Z) (ts : list (pc Z)) (tr : list (event Z)) (cs : list (nat + nat * pc Z))
    : option (Queue Z * list (pc Z) * list (event Z)) :=
  match cs with
  | [] => Some (q, ts, tr)
  | inl i :: cs =>
      t ← ts !! i;
      match step 2 q t with
      | Return (q, t, e) => exec q (<[i := t]> ts) (tr ++ match e with Some e => [e] | None => [] end) cs
      | _ => None
      end
  | inr (i, t) :: cs => exec q (<[i := t]> ts) tr cs
  end.

Definition run_of (i : nat) (t : pc Z) (n : nat) : list (nat + nat * pc Z) := inr (i, t) :: replicate n (inl i).
Definition hand_over : list (nat + nat * pc Z) :=
  run_of 0 AcquireProducer 1 ++ run_of 0 (PushLoadWrite 5) 4 ++ run_of 0 Producer 0 ++ run_of 0 DropProducer 1 ++
  run_of 1 AcquireProducer 1 ++ run_of 1 (PushLoadWrite 6) 4 ++ run_of 0 AcquireConsumer 1 ++ run_of 0 PopLoadRead 4.

Fixpoint legal (ts : list (pc Z)) (q : Queue Z) (cs : list (nat + nat * pc Z)) : Prop :=
  match cs with
  | [] => True
  | inl i :: cs =>
      match ts !! i with
      | Some t => match step 2 q t with Return (q, t, e) => legal (<[i := t]> ts) q cs | _ => False end
      | None => False
      end
  | inr (i, t') :: cs => match ts !! i with Some t => start t t' ∧ legal (<[i := t']> ts) q cs | None => False end
  end.

Lemma exec_run_steps q0 ts0 q ts tr cs q' ts' tr' :
  steps (sys_step 2) (q0, ts0) tr (q, ts) → legal ts q cs → exec q ts tr cs = Some (q', ts', tr') →
  steps (sys_step 2) (q0, ts0) tr' (q', ts').
Proof.
  revert q ts tr. induction cs as [|[i|[i t']] cs IH]; intros q ts tr Hs Hl; cbn [exec legal] in *.
  - by intros [= <- <- <-].
  - destruct (ts !! i) as [t|] eqn:Hi; [|done]. cbn [mbind option_bind]. destruct (step 2 q t) as [[[q1 t1] e]| |] eqn:Hst; [|done..].
    apply IH; [|done]. destruct e as [e|]; [eapply steps_label|rewrite app_nil_r; eapply steps_silent]; try done; by eapply sys_access.
  - destruct (ts !! i) as [t|] eqn:Hi; [|done]. destruct Hl as [Ht Hl]. apply IH; [|done].
    eapply steps_silent; [done|]. by eapply sys_start.
Qed.

Lemma hand_over_run :
  steps (sys_step 2) (new 2, replicate 2 Idle) [EPush 5 true; EPush 6 true; EPop (Some 5)]
    (handed_over, [PopRet (Some 5); PushRet true]).
Proof.
  apply (exec_run_steps _ _ (new 2) (replicate 2 Idle) [] hand_over); [apply steps_refl| |vm_compute; reflexivity].
  cbn. repeat split; constructor.
Qed.

Lemma spsc_queue_linearizable_witness :
  (∃ l, spec_run (fifo_spec 2) [] [EPush 5 true; EPush 6 true; EPop (Some 5)] = Some l ∧ rep 2 handed_over l) ∧
  total (T := pc Z) producing [PopRet (Some 5); PushRet true] ≤ 1.
Proof.
  destruct (spsc_queue_linearizable 2 2 handed_over _ _ ltac:(lia) hand_over_run ltac:(reflexivity)) as (H1 & H2 & _).
  exact (conj H1 H2).
Defined.

Lemma spsc_queue_safe_witness : ∃ q' t' e, step 2 handed_over (PushRet true) = Return (q', t', e).
Proof. exact (spsc_queue_safe 2 2 handed_over _ _ 1 _ ltac:(lia) hand_over_run ltac:(reflexivity) eq_refl). Defined.

Lemma spsc_queue_calls_return_witness :
  ∃ q', run 2 4 (set_has_producer (new 2) false) (PushLoadWrite 9) = Return (q', PushRet true) ∧ rep 2 q' [9].
Proof.
  apply (spsc_queue_calls_return 2 (set_has_producer (new 2) false) Producer [] 9); [|reflexivity..].
  constructor; [|reflexivity..|by repeat constructor].
  constructor; try reflexivity; cbn; try lia. apply ring_rep_nil.
Defined.
End Witnesses.
End SpscQueue.
