(* ===== verification/UnrestrictedAtomic.v ===== *)
(** * elkodon_bb/lock_free/src/spmc/unrestricted_atomic.rs

    An atomic for values of any size: one producer, any number of readers, two cells
    that are used in turn. A value is a list of machine words; storing and reading it
    takes one access per word, and the accesses of all threads interleave in any
    order, so that a reader can see half of a store.

    The theorem shows that it never returns such a value. *)

From S2P Require Import Prelude Ring.

Module UnrestrictedAtomic.

Definition NUMBER_OF_CELLS : Z := 2.

Record UnrestrictedAtomic := mkAtomic {
  write_cell : Z;
  data : list (list (option Z));
  has_producer : bool
}.

Definition set_has_producer (s : UnrestrictedAtomic) (b : bool) : UnrestrictedAtomic :=
  mkAtomic (write_cell s) (data s) b.
Definition set_write_cell (s : UnrestrictedAtomic) (w : Z) : UnrestrictedAtomic :=
  mkAtomic w (data s) (has_producer s).
Definition set_data (s : UnrestrictedAtomic) (d : list (list (option Z))) : UnrestrictedAtomic :=
  mkAtomic (write_cell s) d (has_producer s).

Inductive event := EStore (v : list Z) | ELoad (v : list Z).

Section Operations.
Context `{P : Profile}.
(** The words of a value. *)
Context (size_of_T : nat).

Definition new (value : list Z) : UnrestrictedAtomic :=
  mkAtomic 1 [Some <$> value; replicate size_of_T None] true.

(** Where a thread is. [Holding]: it has the [Producer]; [Store...]: in [store];
    [Load...]: in [load], with the information whether it has the producer. *)
Inductive pc :=
| Idle
| AcquireProducer
| Holding
| DropProducer
| StoreLoad (v : list Z)
| StoreWord (v : list Z) (w : Z) (k : nat)
| StoreAdd (v : list Z) (w : Z)
| LoadFirst (holds : bool)
| LoadWord (holds : bool) (r : Z) (acc : list Z)
| LoadCheck (holds : bool) (r : Z) (acc : list Z)
| LoadRet (holds : bool) (v : list Z).

Definition store_next (v : list Z) (w : Z) (k : nat) : pc :=
  if (k <? size_of_T)%nat then StoreWord v w k else StoreAdd v w.
Definition load_next (h : bool) (r : Z) (acc : list Z) : pc :=
  if (length acc <? size_of_T)%nat then LoadWord h r acc else LoadCheck h r acc.

(** One access. *)
Definition step (s : UnrestrictedAtomic) (t : pc) : outcome (UnrestrictedAtomic * pc * option event) :=
  match t with
  | Idle | Holding | LoadRet _ _ => Return (s, t, None)
  | AcquireProducer =>
      let '(b, r) := compare_exchange_bool (has_producer s) true false in
      Return (set_has_producer s b, match r with Ok _ => Holding | Err _ => Idle end, None)
  | DropProducer => Return (set_has_producer s true, Idle, None)
  | StoreLoad v => Return (s, store_next v (write_cell s) 0, None)
  | StoreWord v w k =>
      let i := w mod NUMBER_OF_CELLS in
      let! cell := raw_read (data s) i in
      let! word := raw_read v (Z.of_nat k) in
      let! cell := raw_write cell (Z.of_nat k) (Some word) in
      let! d := raw_write (data s) i cell in
      Return (set_data s d, store_next v w (S k), None)
  | StoreAdd v w => Return (set_write_cell s (wrap USIZE (write_cell s + 1)), Holding, Some (EStore v))
  | LoadFirst h => let! r := usub (write_cell s) 1 in Return (s, load_next h r [], None)
  | LoadWord h r acc =>
      let! cell := raw_read (data s) (r mod NUMBER_OF_CELLS) in
      let! word := raw_read cell (Z.of_nat (length acc)) in
      let! word := assume_init word in
      Return (s, load_next h r (acc ++ [word]), None)
  | LoadCheck h r acc =>
      let! read_cell_update := usub (write_cell s) 1 in
      if read_cell_update =? r then Return (s, LoadRet h acc, Some (ELoad acc))
      else Return (s, load_next h read_cell_update [], None)
  end.

(** What a thread may call next. *)
Inductive start : pc → pc → Prop :=
| start_acquire : start Idle AcquireProducer
| start_drop : start Holding DropProducer
| start_store v : length v = size_of_T → start Holding (StoreLoad v)
| start_load : start Idle (LoadFirst false)
| start_load_holding : start Holding (LoadFirst true)
| loaded v : start (LoadRet false v) Idle
| loaded_holding v : start (LoadRet true v) Holding.

Inductive sys_step : UnrestrictedAtomic * list pc → option event → UnrestrictedAtomic * list pc → Prop :=
| sys_start s l t t' r :
    start t t' → sys_step (s, l ++ t :: r) None (s, l ++ t' :: r)
| sys_access s l t r s' t' e :
    step s t = Return (s', t', e) → sys_step (s, l ++ t :: r) e (s', l ++ t' :: r).

(** ** The specification: a register *)

Definition register_spec (current : list Z) (e : event) : option (list Z) :=
  match e with
  | EStore v => Some v
  | ELoad v => if bool_decide (v = current) then Some current else None
  end.

(** ** Invariant *)

Definition holds (t : pc) : bool :=
  match t with
  | Idle | AcquireProducer => false
  | Holding | DropProducer | StoreLoad _ | StoreWord _ _ _ | StoreAdd _ _ => true
  | LoadFirst h | LoadWord h _ _ | LoadCheck h _ _ | LoadRet h _ => h
  end.
Definition holders (ts : list pc) : nat := length (List.filter holds ts).

Record mem_ok (s : UnrestrictedAtomic) (current : list Z) : Prop := {
  mem_write : 1 ≤ write_cell s;
  mem_size : length current = size_of_T;
  mem_cells : length (data s) = 2%nat;
  mem_cell i c : data s !! i = Some c → length c = size_of_T;
  mem_current : data s !! slot 2 (write_cell s - 1) = Some (Some <$> current);
  mem_init i c : 2 ≤ write_cell s → data s !! i = Some c → Forall is_Some c
}.

Definition thread_ok (s : UnrestrictedAtomic) (current : list Z) (t : pc) : Prop :=
  match t with
  | StoreLoad v => length v = size_of_T
  | StoreWord v w k =>
      length v = size_of_T ∧ w = write_cell s ∧ (k < size_of_T)%nat ∧
      ∃ c, data s !! slot 2 w = Some c ∧ take k c = Some <$> take k v
  | StoreAdd v w =>
      length v = size_of_T ∧ w = write_cell s ∧ data s !! slot 2 w = Some (Some <$> v)
  | LoadWord _ r acc =>
      0 ≤ r ≤ write_cell s - 1 ∧ (length acc < size_of_T)%nat ∧
      (r = write_cell s - 1 → acc = take (length acc) current)
  | LoadCheck _ r acc => 0 ≤ r ≤ write_cell s - 1 ∧ (r = write_cell s - 1 → acc = current)
  | _ => True
  end.

Record sys_inv (x : UnrestrictedAtomic * list pc) (current : list Z) : Prop := {
  inv_mem : mem_ok x.1 current;
  inv_threads : Forall (thread_ok x.1 current) x.2;
  inv_holders : holders x.2 = if has_producer x.1 then 0%nat else 1%nat
}.
End Operations.
Arguments pc : clear implicits.

Section Theorems.
Context `{P : Profile} (size_of_T : nat).
Implicit Types (s : UnrestrictedAtomic) (ts : list pc) (current : list Z).

#[local] Notation mem_ok := (mem_ok size_of_T).
#[local] Notation thread_ok := (thread_ok size_of_T).
#[local] Notation sys_inv := (sys_inv size_of_T).
#[local] Notation step := (step size_of_T).

Lemma holders_split l t r : holders (l ++ t :: r) = (holders l + (if holds t then 1 else 0) + holders r)%nat.
Proof. unfold holders. rewrite List.filter_app, length_app. cbn. destruct (holds t); cbn; lia. Qed.

Lemma ua_new_inv value n : length value = size_of_T → sys_inv (new size_of_T value, replicate n Idle) value.
Proof.
  intros Hv. constructor; cbn.
  - constructor; cbn; try done.
    intros [|[|i]] c Hc; simplify_eq/=; [by rewrite length_fmap|by rewrite length_replicate].
  - by apply Forall_replicate.
  - unfold holders. induction n; [done|]. by cbn.
Qed.

(** The other threads of the holder do not look at the cell that is written. *)
Lemma thread_ok_data s d current t :
  holds t = false → thread_ok s current t → thread_ok (set_data s d) current t.
Proof. by destruct t. Qed.

Lemma thread_ok_publish s s' current current' t :
  write_cell s' = write_cell s + 1 → holds t = false → thread_ok s current t → thread_ok s' current' t.
Proof.
  intros Hw Hh. destruct t; cbn in *; try done.
  - intros (H1 & H2 & _). rewrite Hw. split_and!; [lia..|]. intros ->. lia.
  - intros (H1 & _). rewrite Hw. split; [lia|]. intros ->. lia.
Qed.

Lemma ok_producer s b current t :
  (mem_ok s current → mem_ok (set_has_producer s b) current) ∧
  (thread_ok s current t → thread_ok (set_has_producer s b) current t).
Proof. split; [by intros []; constructor|by destruct t]. Qed.

Lemma other_cell w : slot 2 w ≠ slot 2 (w - 1).
Proof. intros H. apply slot_inj in H; lia. Qed.

Lemma cell_cases w i : (i < 2)%nat → i = slot 2 w ∨ i = slot 2 (w - 1).
Proof.
  intros Hi. pose proof (slot_lt 2 w ltac:(lia)). pose proof (slot_lt 2 (w - 1) ltac:(lia)).
  pose proof (other_cell w). lia.
Qed.

(** Writing the cell that is not read. *)
Lemma mem_ok_write s current c :
  mem_ok s current → length c = size_of_T → (2 ≤ write_cell s → Forall is_Some c) →
  mem_ok (set_data s (<[slot 2 (write_cell s) := c]> (data s))) current.
Proof.
  intros [H1 H2 H3 H4 H5 H6] Hc Hi. constructor; cbn [set_data write_cell data]; try done.
  - by rewrite length_insert.
  - intros i c' Hl. apply list_lookup_insert_Some in Hl as [(_ & -> & _)|[_ Hl]]; [done|by eapply H4].
  - rewrite list_lookup_insert_ne by apply other_cell. done.
  - intros i c' Hw Hl. apply list_lookup_insert_Some in Hl as [(_ & -> & _)|[_ Hl]]; [by apply Hi|by eapply H6].
Qed.

(** ... and publishing it. *)
Lemma mem_ok_publish s current v :
  mem_ok s current → length v = size_of_T → data s !! slot 2 (write_cell s) = Some (Some <$> v) →
  mem_ok (set_write_cell s (write_cell s + 1)) v.
Proof.
  intros [H1 H2 H3 H4 H5 H6] Hv Hc.
  constructor; cbn [set_write_cell write_cell data]; try done; [lia| |].
  - by replace (write_cell s + 1 - 1) with (write_cell s) by lia.
  - intros i c _ Hl. assert (i < 2)%nat as Hi by (apply lookup_lt_Some in Hl; lia).
    destruct (cell_cases (write_cell s) i Hi) as [-> | ->]; simplify_eq; apply Forall_fmap, Forall_true; by eexists.
Qed.

Lemma holds_load_next h r acc : holds (load_next size_of_T h r acc) = h.
Proof. unfold load_next. by case_bool. Qed.
Lemma holds_store_next v w k : holds (store_next size_of_T v w k) = true.
Proof. unfold store_next. by case_bool. Qed.

Lemma load_next_ok s current h r acc :
  mem_ok s current → 0 ≤ r ≤ write_cell s - 1 → (length acc ≤ size_of_T)%nat →
  (r = write_cell s - 1 → acc = take (length acc) current) → thread_ok s current (load_next size_of_T h r acc).
Proof.
  intros Hm Hr Hl Ha. unfold load_next. destruct (Nat.ltb_spec (length acc) size_of_T) as [H|H]; cbn; [done|].
  split; [done|]. intros He. rewrite (Ha He), firstn_all2; [done|]. rewrite (mem_size _ _ _ Hm). lia.
Qed.

Lemma store_next_ok s current v k c :
  length v = size_of_T → (k ≤ size_of_T)%nat → length c = size_of_T →
  data s !! slot 2 (write_cell s) = Some c → take k c = Some <$> take k v →
  thread_ok s current (store_next size_of_T v (write_cell s) k).
Proof.
  intros Hv Hk Hl Hc Ht. unfold store_next. destruct (Nat.ltb_spec k size_of_T) as [H|H]; cbn.
  - split_and!; try done. by exists c.
  - split_and!; try done. rewrite Hc. rewrite !firstn_all2 in Ht by lia. by rewrite Ht.
Qed.

(** What an access does: the label is a step of the register, and the thread and the
    memory keep their invariants. *)
Definition step_post s current (t : pc) s' (t' : pc) (e : option event) : Prop :=
  ∃ current',
    match e with Some e => register_spec current e = Some current' | None => current' = current end ∧
    mem_ok s' current' ∧ thread_ok s' current' t' ∧
    (∀ u, holds u = false ∨ holds t = false → thread_ok s current u → thread_ok s' current' u) ∧
    write_cell s' ≤ write_cell s + (match e with Some _ => 1 | None => 0 end) ∧
    (if has_producer s then 0 else 1) + (if holds t' then 1 else 0) =
    (if has_producer s' then 0 else 1) + (if holds t then 1 else 0).

Lemma store_word_post s current v w k s' t' e :
  mem_ok s current → thread_ok s current (StoreWord v w k) → has_producer s = false →
  step s (StoreWord v w k) = Return (s', t', e) → step_post s current (StoreWord v w k) s' t' e.
Proof.
  intros Hm (Hv & -> & Hk & c & Hc & Htk) Hp Hst. pose proof Hm as [M1 M2 M3 M4 M5 M6].
  cbn [step] in Hst. unfold NUMBER_OF_CELLS in Hst.
  pose proof (Z.mod_pos_bound (write_cell s) 2 ltac:(lia)) as Hmod.
  rewrite (raw_read_ok (data s) _ c) in Hst by (try done; lia). cbn [obind] in Hst.
  destruct (lookup_lt_is_Some_2 v k) as [x Hx]; [lia|].
  rewrite (raw_read_ok v _ x) in Hst by (rewrite ?Nat2Z.id; try done; lia). cbn [obind] in Hst.
  rewrite raw_write_ok in Hst by (rewrite (M4 _ _ Hc); lia). cbn [obind] in Hst.
  rewrite raw_write_ok in Hst by (rewrite M3; lia). cbn [obind] in Hst. rewrite Nat2Z.id in Hst.
  injection Hst as <- <- <-. fold (slot 2 (write_cell s)). set (c' := <[k:=Some x]> c).
  assert (length c' = size_of_T) as Hc' by (unfold c'; rewrite length_insert; by eapply M4).
  exists current. split_and!; try done; try (cbn; lia).
  - apply mem_ok_write; try done. intros H2. apply Forall_insert; [by eapply M6|by eexists].
  - assert (slot 2 (write_cell s) < length (data s))%nat by (rewrite M3; apply (slot_lt 2); lia).
    apply (store_next_ok (set_data s _) _ _ _ c'); try done; [cbn; by rewrite list_lookup_insert_eq|].
    assert (k < length c)%nat by (rewrite (M4 _ _ Hc); lia).
    rewrite (take_S_r c' k (Some x)) by (by apply list_lookup_insert_eq). unfold c'.
    rewrite take_insert_ge by lia. by rewrite Htk, (take_S_r v k x), fmap_app.
  - intros u [Hu|Hu] Hok; [by apply thread_ok_data|done].
  - cbn. by rewrite Hp, holds_store_next.
Qed.

Lemma load_word_post s current h r acc s' t' e :
  mem_ok s current → thread_ok s current (LoadWord h r acc) →
  step s (LoadWord h r acc) = Return (s', t', e) → step_post s current (LoadWord h r acc) s' t' e.
Proof.
  intros Hm (Hr & Hl & Ha) Hst. pose proof Hm as [M1 M2 M3 M4 M5 M6].
  cbn [step] in Hst. unfold NUMBER_OF_CELLS in Hst. pose proof (Z.mod_pos_bound r 2 ltac:(lia)) as Hmod.
  destruct (lookup_lt_is_Some_2 (data s) (slot 2 r)) as [c Hc]; [rewrite M3; apply (slot_lt 2); lia|].
  rewrite (raw_read_ok (data s) _ c) in Hst by (try done; lia). cbn [obind] in Hst.
  destruct (lookup_lt_is_Some_2 c (length acc)) as [o Ho]; [rewrite (M4 _ _ Hc); lia|].
  rewrite (raw_read_ok c _ o) in Hst by (rewrite ?Nat2Z.id; try done; lia). cbn [obind] in Hst.
  destruct o as [x|]; [|done]. cbn [obind assume_init] in Hst. injection Hst as <- <- <-. exists current.
  split_and!; try done; try lia; [|by rewrite holds_load_next].
  apply load_next_ok; try done; rewrite ?length_app; cbn; [lia|]. intros He. specialize (Ha He).
  rewrite He, M5 in Hc. injection Hc as <-. apply list_lookup_fmap_Some in Ho as (y & [= <-] & Hy).
  rewrite Nat.add_1_r, (take_S_r _ _ _ Hy). by rewrite <- Ha.
Qed.

Lemma access_post s current t s' t' e :
  mem_ok s current → thread_ok s current t → (holds t = true → has_producer s = false) →
  write_cell s + 1 < USIZE → step s t = Return (s', t', e) → step_post s current t s' t' e.
Proof.
  intros Hm Ht Hp Hov Hst. pose proof Hm as [M1 M2 M3 M4 M5 M6].
  destruct t as [| | | |v|v w k|v w|h|h r acc|h r acc|h v];
    try (injection Hst as <- <- <-; exists current; split_and!; try done; lia).
  - cbn in Hst. destruct (has_producer s) eqn:Hhp; cbn in Hst; injection Hst as <- <- <-; exists current; split_and!;
      try done; try (cbn; lia); try (intros u _); try (by apply ok_producer); cbn; by rewrite ?Hhp.
  - injection Hst as <- <- <-. exists current. cbn. rewrite (Hp eq_refl). split_and!; try done; try lia.
  - injection Hst as <- <- <-. exists current. split_and!; try done; try lia; [|by rewrite holds_store_next].
    destruct (lookup_lt_is_Some_2 (data s) (slot 2 (write_cell s))) as [c Hc].
    { rewrite M3. apply (slot_lt 2). lia. }
    eapply store_next_ok; try done; [lia|by eapply M4].
  - by apply store_word_post; auto.
  - destruct Ht as (Hv & -> & Hc). cbn in Hst. unfold wrap in Hst. rewrite Z.mod_small in Hst by lia.
    injection Hst as <- <- <-. exists v. split_and!; try done; try (cbn; lia).
    + by eapply mem_ok_publish.
    + intros u [Hu|Hu] Hok; [by apply (thread_ok_publish s _ current)|done].
  - cbn [step] in Hst. rewrite usub_ok in Hst by lia. cbn [obind] in Hst. injection Hst as <- <- <-. exists current.
    split_and!; try done; try lia; [|by rewrite holds_load_next].
    apply load_next_ok; try done; cbn; lia.
  - by apply load_word_post.
  - destruct Ht as (Hr & Ha). cbn [step] in Hst. rewrite usub_ok in Hst by lia. cbn [obind] in Hst.
    destruct (Z.eqb_spec (write_cell s - 1) r) as [He|He]; injection Hst as <- <- <-; exists current.
    + rewrite (Ha (eq_sym He)). cbn. rewrite bool_decide_eq_true_2 by done. split_and!; try done; lia.
    + split_and!; try done; try lia; [|by rewrite holds_load_next].
      apply load_next_ok; try done; cbn; lia.
Qed.

(** ** The system *)

Lemma holder_excludes s l t r current :
  sys_inv (s, l ++ t :: r) current → holds t = true →
  has_producer s = false ∧ Forall (λ u, holds u = false) (l ++ r).
Proof.
  intros [_ _ Hh] Ht. cbn [fst snd] in Hh. rewrite holders_split, Ht in Hh.
  destruct (has_producer s); [lia|]. split; [done|]. apply Forall_app.
  assert (∀ us, holders us = 0%nat → Forall (λ u, holds u = false) us) as Hz.
  { intros us. unfold holders. induction us as [|u us IH]; [by constructor|]. cbn.
    destruct (holds u) eqn:E; cbn; [lia|]. constructor; [done|by apply IH]. }
  split; apply Hz; lia.
Qed.

Lemma sys_access_inv s l t r s' t' e current :
  sys_inv (s, l ++ t :: r) current → write_cell s + 1 < USIZE → step s t = Return (s', t', e) →
  ∃ current', match e with Some e => register_spec current e = Some current' | None => current' = current end ∧
    sys_inv (s', l ++ t' :: r) current' ∧
    write_cell s' ≤ write_cell s + (match e with Some _ => 1 | None => 0 end).
Proof.
  intros Hinv Hov Hst. pose proof Hinv as [Hm Hts Hh]. cbn [fst snd] in *.
  apply Forall_app in Hts as [Hl [Ht Hr]%Forall_cons].
  assert (holds t = true → has_producer s = false) as Hp by (intros H; by eapply holder_excludes).
  destruct (access_post s current t s' t' e Hm Ht Hp Hov Hst) as (current' & He & Hm' & Ht' & Hoth & Hw & Hc).
  exists current'. split; [done|]. split; [|done]. constructor; cbn [fst snd]; [done| |].
  - assert (Forall (λ u, holds u = false ∨ holds t = false) (l ++ r)) as Hu.
    { destruct (holds t) eqn:E; [|apply Forall_true; by right].
      destruct (holder_excludes _ _ _ _ _ Hinv E) as [_ Hf]. eapply Forall_impl; [exact Hf|]. by left. }
    apply Forall_app in Hu as [Hul Hur].
    apply Forall_app; split; [|constructor; [done|]].
    + apply Forall_forall. intros u Hu. rewrite Forall_forall in Hul, Hl. auto.
    + apply Forall_forall. intros u Hu. rewrite Forall_forall in Hur, Hr. auto.
  - rewrite holders_split in *. destruct (has_producer s), (has_producer s'), (holds t), (holds t'); lia.
Qed.

Lemma sys_start_inv s l t t' r current :
  sys_inv (s, l ++ t :: r) current → start size_of_T t t' → sys_inv (s, l ++ t' :: r) current.
Proof.
  intros [Hm Hts Hh] Hst. cbn [fst snd] in *. constructor; cbn [fst snd]; [done| |].
  - apply Forall_app in Hts as [Hl [Ht Hr]%Forall_cons]. apply Forall_app; split; [done|].
    constructor; [|done]. by destruct Hst.
  - rewrite holders_split in *. by destruct Hst.
Qed.

Lemma ua_reachable_inv value n x tr :
  length value = size_of_T →
  steps (sys_step size_of_T) (new size_of_T value, replicate n Idle) tr x → Z.of_nat (length tr) + 2 < USIZE →
  ∃ current, spec_run register_spec value tr = Some current ∧ sys_inv x current ∧
    write_cell x.1 ≤ Z.of_nat (length tr) + 1.
Proof.
  intros Hv Hst. pose proof (ua_new_inv value n Hv) as Hnew. clear Hv. revert x tr Hst.
  apply (steps_invariant _ (λ x tr, Z.of_nat (length tr) + 2 < USIZE →
    ∃ current, spec_run register_spec value tr = Some current ∧ sys_inv x current ∧
      write_cell x.1 ≤ Z.of_nat (length tr) + 1)).
  - intros _. exists value. split; [done|]. split; [exact Hnew|done].
  - intros x tr x' _ IH Hst Hb. destruct (IH Hb) as (current & Hrun & Hinv & Hw).
    inversion Hst as [s l t t' r Ht|s l t r s' t' e Ht]; subst; cbn [fst] in *.
    + exists current. split; [done|]. split; [by eapply sys_start_inv|done].
    + destruct (sys_access_inv _ _ _ _ _ _ _ _ Hinv ltac:(lia) Ht) as (c' & -> & Hi & Hwc).
      exists current. split; [done|]. split; [done|lia].
  - intros x tr e x' _ IH Hst Hb. rewrite length_app in *. cbn [length] in *.
    destruct IH as (current & Hrun & Hinv & Hw); [lia|].
    inversion Hst as [|s l t r s' t' e' Ht]; subst; cbn [fst] in *.
    destruct (sys_access_inv _ _ _ _ _ _ _ _ Hinv ltac:(lia) Ht) as (c' & Hc & Hi & Hwc).
    exists c'. split; [by rewrite spec_run_app, Hrun; cbn; rewrite Hc|]. split; [done|lia].
Qed.

(** C10. Loads and stores are atomic although a value takes many accesses: however the
    accesses of the producer and of any number of readers interleave, the stores and
    the loads that have finished are a run of a register, every load with the value
    at that moment, and never half of a store. There is at most one producer. *)
Theorem unrestricted_atomic_linearizable value n s ts tr :
  length value = size_of_T →
  steps (sys_step size_of_T) (new size_of_T value, replicate n Idle) tr (s, ts) → Z.of_nat (length tr) + 2 < USIZE →
  ∃ current, spec_run register_spec value tr = Some current ∧
    data s !! slot NUMBER_OF_CELLS (write_cell s - 1) = Some (Some <$> current) ∧
    (holders ts ≤ 1)%nat.
Proof.
  intros Hv Hst Hb. destruct (ua_reachable_inv _ _ _ _ Hv Hst Hb) as (current & Hrun & [Hm _ Hh] & _).
  exists current. split; [done|]. split; [apply Hm|]. cbn [fst snd] in Hh. rewrite Hh. by case_bool; lia.
Qed.

(** The accesses of all threads are defined in every reachable state: nobody reads
    a word that has never been written, although the second cell starts without a
    value, and the number of the cell never gets below zero. *)
Theorem unrestricted_atomic_safe value n s ts tr :
  length value = size_of_T →
  steps (sys_step size_of_T) (new size_of_T value, replicate n Idle) tr (s, ts) → Z.of_nat (length tr) + 2 < USIZE →
  Forall (λ t, safe (step s t)) ts.
Proof.
  intros Hv Hst Hb. destruct (ua_reachable_inv _ _ _ _ Hv Hst Hb) as (current & _ & [Hm Hts _] & Hw).
  cbn [fst snd] in *. eapply Forall_impl; [exact Hts|]. intros t Ht. pose proof Hm as [M1 M2 M3 M4 M5 M6].
  unfold safe. destruct t as [| | | |v|v w k|v w|h|h r acc|h r acc|h v]; cbn [step]; eauto.
  - destruct (has_producer s); cbn; eauto.
  - destruct Ht as (Hlv & -> & Hk & c & Hc & _). unfold NUMBER_OF_CELLS.
    pose proof (Z.mod_pos_bound (write_cell s) 2 ltac:(lia)).
    rewrite (raw_read_ok (data s) _ c) by (try done; lia). cbn [obind].
    destruct (lookup_lt_is_Some_2 v k) as [x Hx]; [lia|].
    rewrite (raw_read_ok v _ x) by (rewrite ?Nat2Z.id; try done; lia). cbn [obind].
    rewrite raw_write_ok by (rewrite (M4 _ _ Hc); lia). cbn [obind].
    rewrite raw_write_ok by (rewrite M3; lia). cbn [obind]. eauto.
  - rewrite usub_ok by lia. cbn. eauto.
  - destruct Ht as (Hr & Hl & _). unfold NUMBER_OF_CELLS. pose proof (Z.mod_pos_bound r 2 ltac:(lia)).
    destruct (lookup_lt_is_Some_2 (data s) (slot 2 r)) as [c Hc]; [rewrite M3; apply (slot_lt 2); lia|].
    rewrite (raw_read_ok (data s) _ c) by (try done; lia). cbn [obind].
    destruct (lookup_lt_is_Some_2 c (length acc)) as [o Ho]; [rewrite (M4 _ _ Hc); lia|].
    rewrite (raw_read_ok c _ o) by (rewrite ?Nat2Z.id; try done; lia). cbn [obind].
    assert (is_Some o) as [x ->]; [|cbn; eauto].
    destruct (decide (r = write_cell s - 1)) as [He|He].
    + rewrite He, M5 in Hc. injection Hc as <-. apply list_lookup_fmap_Some in Ho as (y & -> & _). by eexists.
    + eapply Forall_lookup_1; [eapply (M6 _ c)|exact Ho]; [lia|exact Hc].
  - rewrite usub_ok by lia. cbn. case_bool; eauto.
Qed.
End Theorems.

(** ** Runs *)

Definition starts (n : nat) (t t' : pc) : bool :=
  match t, t' with
  | Idle, AcquireProducer | Idle, LoadFirst false | Holding, DropProducer | Holding, LoadFirst true
  | LoadRet false _, Idle | LoadRet true _, Holding => true
  | Holding, StoreLoad v => (length v =? n)%nat
  | _, _ => false
  end.

Lemma starts_start n t t' : starts n t t' = true → start n t t'.
Proof.
  destruct t as [| | | | | | | | | |[]], t' as [| | | | | | |[]| | |]; cbn; intros H; try discriminate H; try constructor.
  by apply Nat.eqb_eq.
Qed.

(** The threads make accesses, or call something, in the given order. *)
Fixpoint runs {P : Profile} (n : nat) (order : list (Z * option pc)) (x : UnrestrictedAtomic * list pc)
    : outcome (UnrestrictedAtomic * list pc * list event) :=
  match order with
  | [] => Return (x, [])
  | (i, c) :: order =>
      let! t := raw_read x.2 i in
      let! '(s, t, e) :=
        match c with
        | None => step n x.1 t
        | Some t' => if starts n t t' then Return (x.1, t', None) else Undefined
        end in
      let! '(x, tr) := runs n order (s, <[Z.to_nat i := t]> x.2) in
      Return (x, option_list e ++ tr)
  end.

Lemma runs_steps {P : Profile} n order x0 tr0 x x' tr :
  steps (sys_step n) x0 tr0 x → runs n order x = Return (x', tr) → steps (sys_step n) x0 (tr0 ++ tr) x'.
Proof.
  revert tr0 x tr. induction order as [|[i c] order IH]; intros tr0 [s ts] tr Hst Ha; cbn [runs] in Ha.
  { injection Ha as <- <-. by rewrite app_nil_r. }
  destruct (raw_read _ _) as [t| |] eqn:Ht; [|done..]. cbn [obind] in Ha.
  apply raw_read_inv in Ht as [_ Ht]. cbn [fst snd] in *.
  destruct (match c with Some _ => _ | None => _ end) as [[[s1 t1] e]| |] eqn:E; [|done..]. cbn [obind] in Ha.
  destruct (runs n order _) as [[x1 tr1]| |] eqn:Er; [|done..]. injection Ha as <- <-.
  rewrite app_assoc. eapply IH; [|exact Er].
  assert (sys_step n (s, ts) e (s1, <[Z.to_nat i:=t1]> ts)) as Hs.
  { rewrite insert_take_drop by (by eapply lookup_lt_Some). rewrite <- (take_drop_middle ts (Z.to_nat i) t Ht) at 1.
    destruct c as [t'|]; [|by apply sys_access]. destruct (starts n t t') eqn:Hs; [|done].
    injection E as <- <- <-. by apply sys_start, starts_start. }
  destruct e as [e|]; cbn [option_list]; [by eapply steps_label|rewrite app_nil_r; by eapply steps_silent].
Qed.

(** A value of two words: the reader has read one word when two stores come in. *)
Definition reader_overtaken : list (Z * option pc) :=
  [(0, Some AcquireProducer); (0, None); (0, Some (StoreLoad [8; 9])); (1, Some (LoadFirst false)); (1, None);
   (1, None); (0, None); (0, None); (0, None); (0, None); (0, Some (StoreLoad [3; 4])); (0, None); (0, None);
   (0, None); (0, None); (1, None); (1, None); (1, None); (1, None); (1, None)].
Definition overtaken : UnrestrictedAtomic * list pc :=
  (mkAtomic 3 [[Some 3; Some 4]; [Some 8; Some 9]] false, [Holding; LoadRet false [3; 4]]).
Definition overtaken_trace : list event := [EStore [8; 9]; EStore [3; 4]; ELoad [3; 4]].

Lemma overtaken_reachable :
  steps (sys_step (P := true) 2) (new 2 [7; 7], replicate 2 Idle) overtaken_trace overtaken.
Proof. apply (runs_steps 2 reader_overtaken _ [] _ _ _ (steps_refl _ _)). vm_compute. reflexivity. Qed.

Lemma unrestricted_atomic_linearizable_witness :
  ∃ current, spec_run register_spec [7; 7] overtaken_trace = Some current ∧
    data overtaken.1 !! slot NUMBER_OF_CELLS (write_cell overtaken.1 - 1) = Some (Some <$> current) ∧
    (holders overtaken.2 ≤ 1)%nat.
Proof.
  apply (unrestricted_atomic_linearizable (P := true) 2 [7; 7] 2); [reflexivity|exact overtaken_reachable|reflexivity].
Defined.

Lemma unrestricted_atomic_safe_witness : Forall (λ t, safe (step (P := true) 2 overtaken.1 t)) overtaken.2.
Proof.
  apply (unrestricted_atomic_safe (P := true) 2 [7; 7] 2 overtaken.1 overtaken.2 overtaken_trace);
    [reflexivity|exact overtaken_reachable|reflexivity].
Defined.

(** A [Producer] can be shared between threads, its [store] takes a shared
    reference and it is declared [Sync]: when two threads store at the same time a
    reader gets a value that nobody has stored. *)
Theorem shared_producer_tears {P : Profile} :
  ∃ s ts tr, steps (sys_step 2) (mkAtomic 1 [[Some 7; Some 7]; [None; None]] false, [Holding; Holding; Idle]) tr (s, ts) ∧
    ts !! 2%nat = Some (LoadRet false [2; 1]) ∧ tr = [EStore [1; 1]; ELoad [2; 1]].
Proof.
  pose (order := [(0, Some (StoreLoad [1; 1])); (1, Some (StoreLoad [2; 2])); (0, None); (1, None); (0, None);
                  (1, None); (1, None); (0, None); (0, None); (2, Some (LoadFirst false)); (2, None); (2, None);
                  (2, None); (2, None)]).
  exists (mkAtomic 2 [[Some 7; Some 7]; [Some 2; Some 1]] false),
    [Holding; StoreAdd [2; 2] 1; LoadRet false [2; 1]], [EStore [1; 1]; ELoad [2; 1]].
  split; [|split; reflexivity]. apply (runs_steps 2 order _ [] _ _ _ (steps_refl _ _)).
  destruct P; vm_compute; reflexivity.
Qed.
End UnrestrictedAtomic.
