(* ===== verification/UniqueIndexSet.v ===== *)
(** * elkodon_bb/lock_free/src/mpmc/unique_index_set.rs

    The lock-free multi-producer multi-consumer set of indices: a linked stack of
    free indices whose head is packed with a modification counter into one
    64-bit word.

    - the packing of head and counter, and the sequential operations on the
      record [UniqueIndexSet];
    - any number of threads that acquire and release indices, interleaved at
      every atomic access, with the indices the users currently hold;
    - the refinement to a stack of free indices, from which follows that no index
      is handed out twice and none is lost. *)

From S2P Require Import Prelude Elementary.

(** ** Data *)

(** [next_free] is the memory behind [data_ptr]. *)
Record UniqueIndexSet := mkUniqueIndexSet {
  data_ptr : Z;
  next_free : list Z;
  capacity : Z;
  head : Z;
  is_memory_initialized : bool
}.

Definition set_next_free (s : UniqueIndexSet) (d : list Z) : UniqueIndexSet :=
  mkUniqueIndexSet (data_ptr s) d (capacity s) (head s) (is_memory_initialized s).
Definition set_head (s : UniqueIndexSet) (h : Z) : UniqueIndexSet :=
  mkUniqueIndexSet (data_ptr s) (next_free s) (capacity s) h (is_memory_initialized s).

Inductive UniqueIndexCreationError :=
| ProvidedCapacityGreaterThanMaxCapacity
| ProvidedCapacityIsZero.

(** ** The packed head *)

(** [extract_head_and_aba]: both casts truncate to 32 bits. *)
Definition extract_head_and_aba (value : Z) : Z * Z :=
  (wrap U32 (Z.shiftr value 32), wrap U32 (Z.shiftr (wrap USIZE (Z.shiftl value 32)) 32)).

Definition pack_from_head_and_aba (value1 value2 : Z) : Z :=
  Z.lor (wrap USIZE (Z.shiftl value1 32)) value2.

#[global] Arguments extract_head_and_aba : simpl never.
#[global] Arguments pack_from_head_and_aba : simpl never.

Section Operations.
Context `{P : Profile}.

(** ** Construction *)

(** The first [n] cells, each pointing to its successor. *)
Definition successors (n : Z) : list Z := (λ i, Z.of_nat i + 1) <$> seq 0 (Z.to_nat n).

Definition new_uninit (cap : Z) : UniqueIndexSet :=
  mkUniqueIndexSet 0 [] (wrap U32 cap) 0 false.

Definition init {S} `{BaseAllocator S} (s : UniqueIndexSet) (a : S)
    : outcome (result unit AllocationError * UniqueIndexSet * S) :=
  if is_memory_initialized s then Panic
  else
    let! n := u32add (capacity s) 1 in
    let! size := umul 4 n in
    let! '(r, a') := allocate a (mkLayout size 4) in
    match r with
    | Err e => Return (Err e, s, a')
    | Ok c =>
        if 4 * n <=? c_len c then
          Return (Ok tt,
            mkUniqueIndexSet (c_start c) (successors n) (capacity s) (head s) true, a')
        else Undefined
    end.

Definition const_memory_size (cap : Z) : outcome Z :=
  let! n := uadd cap 1 in
  let! m := umul 4 n in
  let! s := uadd m 4 in
  usub s 1.

(** [FixedSizeUniqueIndexSet::default]: the array and the extra cell. *)
Definition fixed_size_new (CAPACITY : Z) : UniqueIndexSet :=
  mkUniqueIndexSet 0 (successors CAPACITY ++ [wrap U32 CAPACITY + 1]) (wrap U32 CAPACITY) 0 true.

Definition new_with_reduced_capacity (CAPACITY cap : Z)
    : result UniqueIndexSet UniqueIndexCreationError :=
  if CAPACITY <? cap then Err ProvidedCapacityGreaterThanMaxCapacity
  else if cap =? 0 then Err ProvidedCapacityIsZero
  else Ok (mkUniqueIndexSet 0 (successors CAPACITY ++ [wrap U32 cap + 1]) (wrap U32 cap) 0 true).

Definition verify_init (s : UniqueIndexSet) : outcome unit :=
  if is_memory_initialized s then Return tt else Panic.

(** ** Acquire and release *)

(** The loop of [acquire_raw_index]; a failed compare-exchange supplies the
    value of the next round. *)
Fixpoint acquire_loop (fuel : nat) (s : UniqueIndexSet) (old : Z)
    : outcome (option Z * UniqueIndexSet) :=
  match fuel with
  | O => Undefined
  | S fuel =>
      let '(old_head, old_aba) := extract_head_and_aba old in
      if capacity s <=? old_head then Return (None, s)
      else
        let! new_head := raw_read (next_free s) old_head in
        let! new_aba := u32add old_aba 1 in
        let new := pack_from_head_and_aba new_head new_aba in
        let '(cell, r) := compare_exchange (head s) old new in
        let s := set_head s cell in
        match r with
        | Ok _ =>
            let! mark := u32add (capacity s) 1 in
            let! d := raw_write (next_free s) old_head mark in
            Return (Some old_head, set_next_free s d)
        | Err v => acquire_loop fuel s v
        end
  end.

Definition acquire_raw_index (s : UniqueIndexSet) : outcome (option Z * UniqueIndexSet) :=
  let! _ := verify_init s in
  acquire_loop 2 s (head s).

Fixpoint release_loop (fuel : nat) (s : UniqueIndexSet) (index old : Z) : outcome UniqueIndexSet :=
  match fuel with
  | O => Undefined
  | S fuel =>
      let '(old_head, old_aba) := extract_head_and_aba old in
      let! d := raw_write (next_free s) index old_head in
      let s := set_next_free s d in
      let! new_aba := u32add old_aba 1 in
      let new := pack_from_head_and_aba index new_aba in
      let '(cell, r) := compare_exchange (head s) old new in
      let s := set_head s cell in
      match r with
      | Ok _ => Return s
      | Err v => release_loop fuel s index v
      end
  end.

Definition release_raw_index (s : UniqueIndexSet) (index : Z) : outcome UniqueIndexSet :=
  let! _ := verify_init s in
  release_loop 2 s index (head s).

(** [UniqueIndex]: the value and the optional cleanup callback (here a
    transformer of the client's state [C]); dropping it runs the callback and
    then releases the index. *)
Record UniqueIndex (C : Type) := mkUniqueIndex {
  value : Z;
  cleanup_callback : option (Z → C → outcome C)
}.
Arguments value {C} _.
Arguments cleanup_callback {C} _.

Definition acquire {C} (s : UniqueIndexSet) : outcome (option (UniqueIndex C) * UniqueIndexSet) :=
  let! _ := verify_init s in
  let! '(r, s) := acquire_raw_index s in
  Return ((λ v, mkUniqueIndex C v None) <$> r, s).

Definition acquire_with_additional_cleanup {C} (s : UniqueIndexSet) (f : Z → C → outcome C)
    : outcome (option (UniqueIndex C) * UniqueIndexSet) :=
  let! _ := verify_init s in
  let! '(r, s) := acquire_raw_index s in
  Return ((λ v, mkUniqueIndex C v (Some f)) <$> r, s).

Definition drop {C} (i : UniqueIndex C) (c : C) (s : UniqueIndexSet) : outcome (C * UniqueIndexSet) :=
  let! c := match cleanup_callback i with Some f => f (value i) c | None => Return c end in
  let! s := release_raw_index s (value i) in
  Return (c, s).

(** ** Abstract specification: a stack of free indices *)

Inductive event :=
| EAcquire (r : option Z)
| ERelease (i : Z).

Definition stack_spec (l : list Z) (e : event) : option (list Z) :=
  match e with
  | EAcquire (Some i) =>
      match l with
      | x :: l' => if x =? i then Some l' else None
      | [] => None
      end
  | EAcquire None => match l with [] => Some [] | _ => None end
  | ERelease i => Some (i :: l)
  end.

(** All indices of a set. *)
Definition indices (cap : Z) : list Z := Z.of_nat <$> seq 0 (Z.to_nat cap).

(** ** Interleaving *)

Inductive thread_pc :=
| TIdle
| ALoad
| AReadNext (old : Z)
| ACas (old new_head : Z)
| AMark (i : Z)
| ARet (r : option Z)
| RLoad (i : Z)
| RWriteNext (i old : Z)
| RCas (i old : Z).

(** The test at the top of the loop of [acquire_raw_index]. *)
Definition acquire_head (s : UniqueIndexSet) (old : Z) : thread_pc * option event :=
  if capacity s <=? (extract_head_and_aba old).1 then (ARet None, Some (EAcquire None))
  else (AReadNext old, None).

Definition thread_step (s : UniqueIndexSet) (pc : thread_pc)
    : outcome (UniqueIndexSet * thread_pc * option event) :=
  match pc with
  | TIdle => Return (s, TIdle, None)
  | ALoad =>
      let! _ := verify_init s in
      let '(pc', e) := acquire_head s (head s) in Return (s, pc', e)
  | AReadNext old =>
      let! new_head := raw_read (next_free s) (extract_head_and_aba old).1 in
      Return (s, ACas old new_head, None)
  | ACas old new_head =>
      let '(old_head, old_aba) := extract_head_and_aba old in
      let! new_aba := u32add old_aba 1 in
      let '(cell, r) := compare_exchange (head s) old (pack_from_head_and_aba new_head new_aba) in
      let s := set_head s cell in
      match r with
      | Ok _ => Return (s, AMark old_head, Some (EAcquire (Some old_head)))
      | Err v => let '(pc', e) := acquire_head s v in Return (s, pc', e)
      end
  | AMark i =>
      let! mark := u32add (capacity s) 1 in
      let! d := raw_write (next_free s) i mark in
      Return (set_next_free s d, ARet (Some i), None)
  | ARet r => Return (s, TIdle, None)
  | RLoad i =>
      let! _ := verify_init s in
      Return (s, RWriteNext i (head s), None)
  | RWriteNext i old =>
      let! d := raw_write (next_free s) i (extract_head_and_aba old).1 in
      Return (set_next_free s d, RCas i old, None)
  | RCas i old =>
      let '(old_head, old_aba) := extract_head_and_aba old in
      let! new_aba := u32add old_aba 1 in
      let '(cell, r) := compare_exchange (head s) old (pack_from_head_and_aba i new_aba) in
      let s := set_head s cell in
      match r with
      | Ok _ => Return (s, TIdle, Some (ERelease i))
      | Err v => Return (s, RWriteNext i v, None)
      end
  end.

(** The index a thread is about to hand out or to give back. *)
Definition held (pc : thread_pc) : list Z :=
  match pc with
  | AMark i | ARet (Some i) | RLoad i | RWriteNext i _ | RCas i _ => [i]
  | _ => []
  end.

(** [owned]: the indices in the hands of users. The caller of
    [release_raw_index] has to own the index it releases. *)
Record sys := mkSys {
  set : UniqueIndexSet;
  threads : list thread_pc;
  owned : list Z
}.

Inductive sys_step : sys → option event → sys → Prop :=
| step_call_acquire s ts1 ts2 o :
    sys_step (mkSys s (ts1 ++ TIdle :: ts2) o) None (mkSys s (ts1 ++ ALoad :: ts2) o)
| step_call_release s ts1 ts2 o1 i o2 :
    sys_step (mkSys s (ts1 ++ TIdle :: ts2) (o1 ++ i :: o2)) None
             (mkSys s (ts1 ++ RLoad i :: ts2) (o1 ++ o2))
| step_return s ts1 ts2 o r :
    sys_step (mkSys s (ts1 ++ ARet r :: ts2) o) None
             (mkSys s (ts1 ++ TIdle :: ts2) (option_list r ++ o))
| step_thread s ts1 pc ts2 o s' pc' e :
    pc ≠ TIdle → (∀ r, pc ≠ ARet r) →
    thread_step s pc = Return (s', pc', e) →
    sys_step (mkSys s (ts1 ++ pc :: ts2) o) e (mkSys s' (ts1 ++ pc' :: ts2) o).

Definition sys_init (cap : Z) (n : nat) : sys :=
  mkSys (fixed_size_new cap) (replicate n TIdle) [].

Fixpoint thread_run (n : nat) (s : UniqueIndexSet) (pc : thread_pc)
    : outcome (option Z * UniqueIndexSet) :=
  match pc, n with
  | ARet r, _ => Return (r, s)
  | TIdle, _ => Return (None, s)
  | _, O => Undefined
  | _, S n => let! '(s', pc', _) := thread_step s pc in thread_run n s' pc'
  end.

(** ** Representation and invariant *)

(** The free indices [fl] are linked through [next]; the last one points to
    [cap]. *)
Fixpoint chain (next : list Z) (cap : Z) (fl : list Z) : Prop :=
  match fl with
  | [] => True
  | x :: fl' =>
      0 ≤ x < cap ∧ next !! Z.to_nat x = Some (List.hd cap fl') ∧ chain next cap fl'
  end.

(** The set [s] has the free indices [fl] and its counter is [aba]. *)
Record set_rep (s : UniqueIndexSet) (aba : Z) (fl : list Z) : Prop := {
  rep_init : is_memory_initialized s = true;
  rep_cap : 0 ≤ capacity s ∧ capacity s + 1 < U32;
  rep_len : capacity s < Z.of_nat (length (next_free s));
  rep_aba : 0 ≤ aba < U32;
  rep_head : head s = pack_from_head_and_aba (List.hd (capacity s) fl) aba;
  rep_chain : chain (next_free s) (capacity s) fl
}.

(** A value a thread once loaded from the head: its counter is not ahead of
    the current one, and it is the current head if the counters agree. *)
Definition old_ok (s : UniqueIndexSet) (aba old : Z) : Prop :=
  0 ≤ (extract_head_and_aba old).2 ≤ aba ∧
  ((extract_head_and_aba old).2 = aba → old = head s).

Definition thread_inv (s : UniqueIndexSet) (aba : Z) (pc : thread_pc) : Prop :=
  match pc with
  | AReadNext old => old_ok s aba old ∧ 0 ≤ (extract_head_and_aba old).1 < capacity s
  | ACas old new_head =>
      old_ok s aba old ∧ 0 ≤ (extract_head_and_aba old).1 < capacity s ∧
      (old = head s →
       next_free s !! Z.to_nat (extract_head_and_aba old).1 = Some new_head)
  | RWriteNext i old => old_ok s aba old
  | RCas i old =>
      old_ok s aba old ∧ next_free s !! Z.to_nat i = Some (extract_head_and_aba old).1
  | _ => True
  end.

Definition held_all (ts : list thread_pc) : list Z := ts ≫= held.
#[global] Arguments held_all : simpl never.
#[global] Arguments indices : simpl never.

Record sys_inv (cap : Z) (s : sys) (aba : Z) (fl : list Z) : Prop := {
  inv_rep : set_rep (set s) aba fl;
  inv_cap : capacity (set s) = cap;
  inv_perm : fl ++ owned s ++ held_all (threads s) ≡ₚ indices cap;
  inv_threads : Forall (thread_inv (set s) aba) (threads s)
}.
End Operations.
Arguments value {C} _.
Arguments cleanup_callback {C} _.

(** ** The packed head: lemmas *)

Lemma lor_disjoint h a :
  0 ≤ h → 0 ≤ a < U32 → Z.lor (h * U32) a = h * U32 + a.
Proof.
  intros Hh Ha. by apply (lor_disjoint_pow h a 32).
Qed.

Lemma pack_eq h a :
  0 ≤ h < U32 → 0 ≤ a < U32 → pack_from_head_and_aba h a = h * U32 + a.
Proof.
  intros Hh Ha. unfold pack_from_head_and_aba, wrap.
  rewrite Z.shiftl_mul_pow2 by lia. change (2 ^ 32) with U32.
  rewrite Z.mod_small by (unfold U32, USIZE in *; lia). apply lor_disjoint; lia.
Qed.

Lemma extract_eq v :
  0 ≤ v < USIZE → extract_head_and_aba v = (v / U32, v mod U32).
Proof.
  intros Hv. unfold extract_head_and_aba, wrap.
  rewrite Z.shiftl_mul_pow2, !Z.shiftr_div_pow2 by lia. change (2 ^ 32) with U32. f_equal.
  - apply Z.mod_small. unfold U32, USIZE in *. split; [apply Z.div_pos; lia|].
    apply Z.div_lt_upper_bound; lia.
  - change USIZE with (U32 * U32) at 1. rewrite Z.mul_mod_distr_r by (unfold U32; lia).
    rewrite Z.div_mul by (unfold U32; lia). apply Z.mod_small.
    apply Z.mod_pos_bound. unfold U32. lia.
Qed.

Lemma pack_range h a :
  0 ≤ h < U32 → 0 ≤ a < U32 → 0 ≤ pack_from_head_and_aba h a < USIZE.
Proof. intros. rewrite pack_eq by done. unfold U32, USIZE in *. lia. Qed.

Lemma extract_pack h a :
  0 ≤ h < U32 → 0 ≤ a < U32 → extract_head_and_aba (pack_from_head_and_aba h a) = (h, a).
Proof.
  intros Hh Ha. rewrite extract_eq by (by apply pack_range). rewrite pack_eq by done.
  rewrite Z.div_add_l by (unfold U32; lia). rewrite (Z.add_comm (h * U32)), Z.mod_add by (unfold U32; lia).
  rewrite Z.div_small, Z.mod_small by lia. f_equal. lia.
Qed.

(** Packing the head index and the modification counter into one word loses
    nothing: extracting a packed pair gives the pair back, and packing the
    extracted parts of a word gives the word back. *)
Theorem pack_extract_roundtrip h a v :
  0 ≤ h < U32 → 0 ≤ a < U32 → 0 ≤ v < USIZE →
  extract_head_and_aba (pack_from_head_and_aba h a) = (h, a) ∧
  (let '(h', a') := extract_head_and_aba v in
   pack_from_head_and_aba h' a' = v ∧ 0 ≤ h' < U32 ∧ 0 ≤ a' < U32).
Proof.
  intros Hh Ha Hv. split; [by apply extract_pack|]. rewrite extract_eq by done.
  assert (0 ≤ v / U32 < U32).
  { unfold U32, USIZE in *. split; [apply Z.div_pos; lia|]. apply Z.div_lt_upper_bound; lia. }
  assert (0 ≤ v mod U32 < U32) by (apply Z.mod_pos_bound; unfold U32; lia).
  split; [|done]. rewrite pack_eq by done.
  pose proof (Z.div_mod v U32 ltac:(unfold U32; lia)). lia.
Qed.

(** ** The chain of free indices *)

Section Theorems.
Context `{P : Profile}.
Implicit Types (s : UniqueIndexSet) (fl next : list Z).

Lemma chain_bounds next cap fl x : chain next cap fl → x ∈ fl → 0 ≤ x < cap.
Proof.
  induction fl as [|y fl IH]; cbn; [intros _ H; by apply not_elem_of_nil in H|].
  intros (Hy & _ & Hc) [->|Hx]%elem_of_cons; auto.
Qed.

Lemma chain_insert next cap fl i v :
  0 ≤ i → i ∉ fl → chain next cap fl → chain (<[Z.to_nat i := v]> next) cap fl.
Proof.
  intros Hi. induction fl as [|x fl IH]; cbn; [done|].
  intros [Hne Hnin]%not_elem_of_cons (Hx & Hn & Hc). split; [done|]. split; [|by apply IH].
  rewrite list_lookup_insert_ne; [done|]. lia.
Qed.

Lemma hd_range cap fl : (∀ x, x ∈ fl → 0 ≤ x < cap) → 0 ≤ cap → 0 ≤ List.hd cap fl ≤ cap.
Proof.
  intros Hb Hc. destruct fl as [|x fl]; cbn; [lia|].
  specialize (Hb x ltac:(left)). lia.
Qed.

Lemma extract_head s aba fl :
  set_rep s aba fl → extract_head_and_aba (head s) = (List.hd (capacity s) fl, aba).
Proof.
  intros [_ Hc _ Ha Hh Hch]. rewrite Hh. apply extract_pack; [|done].
  pose proof (hd_range (capacity s) fl (λ x, chain_bounds _ _ _ x Hch)). lia.
Qed.

(** The head index is the capacity exactly when nothing is free. *)
Lemma head_below_capacity s aba fl :
  set_rep s aba fl → (capacity s ≤ (extract_head_and_aba (head s)).1 ↔ fl = []).
Proof.
  intros Hrep. rewrite (extract_head _ _ _ Hrep). destruct Hrep as [_ Hc _ _ _ Hch].
  destruct fl as [|x fl]; cbn in *; [split; [done|lia]|]. split; [lia|done].
Qed.

Lemma set_rep_push s aba aba' fl i :
  set_rep s aba fl → 0 ≤ aba' < U32 →
  0 ≤ i < capacity s → next_free s !! Z.to_nat i = Some (List.hd (capacity s) fl) →
  set_rep (set_head s (pack_from_head_and_aba i aba')) aba' (i :: fl).
Proof. intros [? ? ? ? ? ?] Ha Hi Hn. by constructor. Qed.

Lemma set_rep_pop s aba aba' x fl new_head :
  set_rep s aba (x :: fl) → 0 ≤ aba' < U32 → next_free s !! Z.to_nat x = Some new_head →
  set_rep (set_head s (pack_from_head_and_aba new_head aba')) aba' fl.
Proof.
  intros [? ? ? ? ? (Hx & Hnx & Hch)] Ha Hn. rewrite Hnx in Hn. injection Hn as <-.
  by constructor.
Qed.

Lemma set_rep_write s aba fl i v :
  set_rep s aba fl → 0 ≤ i → i ∉ fl →
  set_rep (set_next_free s (<[Z.to_nat i := v]> (next_free s))) aba fl.
Proof.
  intros [? ? ? ? ? ?] Hi Hn. constructor; cbn; try done; [by rewrite length_insert|].
  by apply chain_insert.
Qed.

(** The knowledge of the other threads survives a change of the head ... *)
Lemma thread_inv_head s aba h pc :
  thread_inv s aba pc → (extract_head_and_aba h).2 = aba + 1 →
  thread_inv (set_head s h) (aba + 1) pc.
Proof.
  intros Hinv Hh.
  assert (∀ old, old_ok s aba old → old_ok (set_head s h) (aba + 1) old ∧ old ≠ h) as Hok.
  { intros old [Hle _]. split; [split; lia|]. intros ->. lia. }
  destruct pc; cbn in *; try done.
  - destruct Hinv as [Ho ?]. destruct (Hok _ Ho). done.
  - destruct Hinv as (Ho & ? & ?). destruct (Hok _ Ho). done.
  - by destruct (Hok _ Hinv).
  - destruct Hinv as [Ho ?]. destruct (Hok _ Ho). done.
Qed.

(** ... and a write to the cell of an index that is not free and that they do
    not hold. *)
Lemma thread_inv_write s aba fl i v pc :
  set_rep s aba fl → 0 ≤ i → i ∉ fl → i ∉ held pc → Forall (λ j, 0 ≤ j) (held pc) →
  thread_inv s aba pc → thread_inv (set_next_free s (<[Z.to_nat i := v]> (next_free s))) aba pc.
Proof.
  intros Hrep Hi Hfl Hheld Hpos Hinv. destruct pc as [| |old|old nh|j|r|j|j old|j old]; cbn in *; try done.
  - destruct Hinv as (Ho & Hb & Hn). split; [done|]. split; [done|]. intros ->.
    specialize (Hn eq_refl). pose proof (extract_head _ _ _ Hrep) as He.
    rewrite He in Hb, Hn |- *. cbn in Hb, Hn |- *. rewrite list_lookup_insert_ne; [done|].
    destruct fl as [|x fl]; cbn in *; [lia|].
    assert (i ≠ x) by (intros ->; apply Hfl; left). lia.
  - destruct Hinv as [Ho Hn]. split; [done|]. rewrite Forall_singleton in Hpos.
    rewrite list_lookup_insert_ne; [done|]. assert (i ≠ j) by set_solver. lia.
Qed.

Lemma held_all_split ts1 pc ts2 :
  held_all (ts1 ++ pc :: ts2) ≡ₚ held pc ++ held_all (ts1 ++ ts2).
Proof.
  unfold held_all. rewrite !bind_app, bind_cons. solve_Permutation.
Qed.

Lemma indices_spec cap x : x ∈ indices cap ↔ 0 ≤ x < cap.
Proof.
  unfold indices. rewrite list_elem_of_fmap. split.
  - intros (k & -> & Hk). apply elem_of_seq in Hk. lia.
  - intros Hx. exists (Z.to_nat x). split; [lia|]. apply elem_of_seq. lia.
Qed.

Lemma indices_NoDup cap : NoDup (indices cap).
Proof. unfold indices. apply NoDup_fmap_2; [|apply NoDup_seq]. intros ? ? ?. lia. Qed.
(** One step of a thread while the other threads are [ts] and the users own
    [o]. *)
Definition step_post cap o ts s' pc' (e : option event) aba fl : Prop :=
  ∃ aba' fl',
    match e with Some e => stack_spec fl e = Some fl' | None => fl' = fl end ∧
    set_rep s' aba' fl' ∧ capacity s' = cap ∧
    fl' ++ o ++ held pc' ++ held_all ts ≡ₚ indices cap ∧
    Forall (thread_inv s' aba') (pc' :: ts) ∧
    aba ≤ aba' ≤ aba + match e with Some _ => 1 | None => 0 end.

Section Step.
Context (cap aba : Z) (o : list Z) (ts : list thread_pc) (s : UniqueIndexSet) (fl : list Z).
Context (Hrep : set_rep s aba fl) (Hcap : capacity s = cap) (Haba : aba + 1 < U32).
Context (Hts : Forall (thread_inv s aba) ts).

(** A step that changes neither the memory nor what is held. *)
Lemma post_same pc pc' :
  fl ++ o ++ held pc ++ held_all ts ≡ₚ indices cap → held pc' = held pc →
  thread_inv s aba pc' → step_post cap o ts s pc' None aba fl.
Proof using Hrep Hcap Hts.
  clear Haba. intros Hperm Hh Hpc. exists aba, fl. rewrite Hh. split_and!; try done; try lia.
  by constructor.
Qed.

Lemma post_acquire_head pc old pc' e :
  fl ++ o ++ held pc ++ held_all ts ≡ₚ indices cap → held pc = [] → old = head s →
  acquire_head s old = (pc', e) → step_post cap o ts s pc' e aba fl.
Proof using Hrep Hcap Hts.
  clear Haba. intros Hperm Hh -> Ha. unfold acquire_head in Ha.
  pose proof (head_below_capacity _ _ _ Hrep) as Hhd.
  pose proof (extract_head _ _ _ Hrep) as He.
  destruct (Z.leb_spec (capacity s) (extract_head_and_aba (head s)).1) as [Hle|Hlt];
    injection Ha as <- <-.
  - apply Hhd in Hle as ->. exists aba, []. rewrite Hh in Hperm.
    split_and!; try done; try lia. by constructor.
  - apply (post_same pc); [done|done|]. cbn. unfold old_ok. rewrite He in *. cbn in *.
    destruct Hrep as [_ ? _ ? _ Hch].
    pose proof (hd_range (capacity s) fl (λ x, chain_bounds _ _ _ x Hch)).
    split; [split; [lia|done]|lia].
Qed.

(** Facts about an index the stepping thread holds. *)
Lemma held_facts pc i :
  fl ++ o ++ held pc ++ held_all ts ≡ₚ indices cap → held pc = [i] →
  0 ≤ i < capacity s ∧ (i ∉ fl) ∧
  Forall (λ t, (i ∉ held t) ∧ Forall (λ j, 0 ≤ j) (held t)) ts.
Proof using Hcap.
  clear Hrep Haba Hts. intros Hperm Hh. rewrite Hh in Hperm. pose proof (indices_NoDup cap) as Hnd.
  rewrite <- Hperm in Hnd.
  assert (∀ x, x ∈ fl ++ o ++ [i] ++ held_all ts → 0 ≤ x < cap) as Hin.
  { intros x Hx. apply indices_spec. by rewrite <- Hperm. }
  split; [rewrite Hcap; apply Hin; set_solver|].
  apply NoDup_app in Hnd as (_ & Hd1 & Hnd). apply NoDup_app in Hnd as (_ & _ & Hnd).
  cbn in Hnd. apply NoDup_cons in Hnd as [Hni _].
  split; [intros Hx; apply (Hd1 i Hx); set_solver|].
  apply Forall_forall. intros t Ht.
  assert (∀ x, x ∈ held t → x ∈ held_all ts) as Hsub.
  { intros x Hx. apply list_elem_of_bind. by exists t. }
  split; [auto|]. apply Forall_forall. intros j Hj. apply Hin. set_solver.
Qed.

Lemma post_write pc i v pc' :
  fl ++ o ++ held pc ++ held_all ts ≡ₚ indices cap → held pc = [i] → held pc' = [i] →
  thread_inv (set_next_free s (<[Z.to_nat i := v]> (next_free s))) aba pc' →
  step_post cap o ts (set_next_free s (<[Z.to_nat i := v]> (next_free s))) pc' None aba fl.
Proof using Hrep Hcap Hts.
  clear Haba. intros Hperm Hh Hh' Hpc. destruct (held_facts _ _ Hperm Hh) as (Hi & Hfl & Hothers).
  exists aba, fl. rewrite Hh', <- Hh. split_and!; try done; try lia.
  - apply set_rep_write; [done|lia|done].
  - constructor; [done|]. rewrite Forall_forall in Hts, Hothers |- *. intros t Ht.
    destruct (Hothers t Ht). eapply thread_inv_write; try done; [lia|]. by apply Hts.
Qed.

Lemma write_held_ok i v :
  0 ≤ i < capacity s → raw_write (next_free s) i v = Return (<[Z.to_nat i := v]> (next_free s)).
Proof using Hrep. clear Hcap Haba Hts. intros Hi. apply raw_write_ok. destruct Hrep. lia. Qed.

Lemma others_after_head h :
  (extract_head_and_aba h).2 = aba + 1 → Forall (thread_inv (set_head s h) (aba + 1)) ts.
Proof using Hts. intros Hh. eapply Forall_impl; [done|]. intros t Ht. by apply thread_inv_head. Qed.
End Step.
Lemma thread_step_inv cap aba o ts s fl pc s' pc' e :
  set_rep s aba fl → capacity s = cap → aba + 1 < U32 →
  Forall (thread_inv s aba) (pc :: ts) →
  fl ++ o ++ held pc ++ held_all ts ≡ₚ indices cap →
  (∀ r, pc ≠ ARet r) →
  thread_step s pc = Return (s', pc', e) → step_post cap o ts s' pc' e aba fl.
Proof.
  intros Hrep Hcap Haba [Hpc Hts]%Forall_cons Hperm Hnr Hst.
  pose proof Hrep as [Hini Hc Hlen Ha Hhd Hch]. pose proof (extract_head _ _ _ Hrep) as He.
  destruct pc as [| |old|old nh|i|r|i|i old|i old]; cbn [thread_step thread_inv] in *.
  - injection Hst as <- <- <-. by apply (post_same cap aba o ts s fl Hrep Hcap Hts TIdle).
  - unfold verify_init in Hst. rewrite Hini in Hst. cbn [obind] in Hst.
    destruct (acquire_head s (head s)) as [pc1 e1] eqn:Eh. injection Hst as <- <- <-.
    by apply (post_acquire_head cap aba o ts s fl Hrep Hcap Hts ALoad (head s)).
  - destruct Hpc as [Ho Hb].
    destruct (raw_read_in (next_free s) (extract_head_and_aba old).1) as (x & Hx & Hxl); [lia|].
    rewrite Hx in Hst. cbn [obind] in Hst. injection Hst as <- <- <-.
    by apply (post_same cap aba o ts s fl Hrep Hcap Hts (AReadNext old)).
  - destruct Hpc as ([Hle Hcur] & Hb & Hn).
    destruct (extract_head_and_aba old) as [h a] eqn:Eo. cbn [fst snd] in *.
    rewrite u32add_ok in Hst by lia. cbn [obind] in Hst. unfold compare_exchange in Hst.
    destruct (Z.eqb_spec (head s) old) as [E|E].
    + injection Hst as <- <- <-. subst old. rewrite He in Eo. injection Eo as <- <-.
      destruct fl as [|x fl]; cbn [List.hd] in *; [lia|].
      assert (0 ≤ nh < U32) as Hnh.
      { destruct Hch as (Hx & Hnx & Hch). rewrite (Hn eq_refl) in Hnx. injection Hnx as ->.
        pose proof (hd_range (capacity s) fl (λ y, chain_bounds _ _ _ y Hch)). lia. }
      exists (aba + 1), fl. cbn [stack_spec held]. rewrite Z.eqb_refl. split_and!; try done; try lia.
      * eapply set_rep_pop; try done; [lia|]. by apply Hn.
      * rewrite <- Hperm. cbn. solve_Permutation.
      * constructor; [done|]. apply others_after_head; [done|]. by rewrite extract_pack by lia.
    + assert (set_head s (head s) = s) as Hsame by (by destruct s). rewrite Hsame in Hst.
      destruct (acquire_head s (head s)) as [pc1 e1] eqn:Eh. injection Hst as <- <- <-.
      by apply (post_acquire_head cap aba o ts s fl Hrep Hcap Hts (ACas old nh) (head s)).
  - destruct (held_facts cap o ts s fl Hcap (AMark i) i Hperm eq_refl) as (Hi & Hfl & _).
    rewrite u32add_ok in Hst by lia. cbn [obind] in Hst.
    rewrite (write_held_ok _ _ _ Hrep) in Hst by done. cbn [obind] in Hst.
    injection Hst as <- <- <-. by apply (post_write cap aba o ts s fl Hrep Hcap Hts (AMark i)).
  - by destruct (Hnr r).
  - unfold verify_init in Hst. rewrite Hini in Hst. cbn [obind] in Hst. injection Hst as <- <- <-.
    apply (post_same cap aba o ts s fl Hrep Hcap Hts (RLoad i)); try done. cbn. unfold old_ok.
    rewrite He. cbn. split; [lia|done].
  - destruct (held_facts cap o ts s fl Hcap (RWriteNext i old) i Hperm eq_refl) as (Hi & Hfl & _).
    rewrite (write_held_ok _ _ _ Hrep) in Hst by done. cbn [obind] in Hst.
    injection Hst as <- <- <-.
    apply (post_write cap aba o ts s fl Hrep Hcap Hts (RWriteNext i old)); try done. cbn.
    split; [done|]. apply list_lookup_insert_eq. lia.
  - destruct (held_facts cap o ts s fl Hcap (RCas i old) i Hperm eq_refl) as (Hi & Hfl & _).
    destruct Hpc as [Ho Hn]. pose proof Ho as [Hle Hcur].
    destruct (extract_head_and_aba old) as [h a] eqn:Eo. cbn [fst snd] in *.
    rewrite u32add_ok in Hst by lia. cbn [obind] in Hst. unfold compare_exchange in Hst.
    destruct (Z.eqb_spec (head s) old) as [E|E]; injection Hst as <- <- <-.
    + subst old. rewrite He in Eo. injection Eo as <- <-.
      exists (aba + 1), (i :: fl). split_and!; try done; try lia.
      * eapply set_rep_push; try done. lia.
      * rewrite <- Hperm. cbn. solve_Permutation.
      * constructor; [done|]. apply others_after_head; [done|]. by rewrite extract_pack by lia.
    + assert (set_head s (head s) = s) as -> by (by destruct s).
      apply (post_same cap aba o ts s fl Hrep Hcap Hts (RCas i old)); try done. cbn. unfold old_ok.
      rewrite He. cbn. split; [lia|done].
Qed.

(** ** Reachable states *)

Lemma successors_lookup n (k : nat) :
  (Z.of_nat k < n) → successors n !! k = Some (Z.of_nat k + 1).
Proof.
  intros Hk. unfold successors. rewrite list_lookup_fmap, lookup_seq_lt by lia. done.
Qed.

Lemma chain_successors cap n m next :
  (∀ k : nat, Z.of_nat k < cap → next !! k = Some (Z.of_nat k + 1)) →
  Z.of_nat n + Z.of_nat m = cap → chain next cap (Z.of_nat <$> seq n m).
Proof.
  intros Hnext. revert n. induction m as [|m IH]; intros n Hn; cbn; [done|].
  split; [lia|]. split; [|apply IH; lia].
  rewrite Nat2Z.id, Hnext by lia. f_equal. destruct m; cbn; lia.
Qed.

Lemma fixed_size_rep cap :
  0 ≤ cap → cap + 1 < U32 → set_rep (fixed_size_new cap) 0 (indices cap).
Proof.
  intros H0 H1.
  constructor; cbn; unfold wrap; rewrite ?(Z.mod_small cap U32) by lia; try done; try lia.
  - rewrite length_app. unfold successors. rewrite length_fmap, length_seq. cbn. lia.
  - unfold indices. destruct (Z.to_nat cap) eqn:E; cbn; [|done].
    by replace cap with 0 by lia.
  - unfold indices. apply chain_successors; [|lia]. intros k Hk.
    rewrite lookup_app_l; [by apply successors_lookup|].
    unfold successors. rewrite length_fmap, length_seq. lia.
Qed.

Lemma uis_reachable_inv cap n (s : sys) tr :
  0 ≤ cap → cap + 1 < U32 → steps sys_step (sys_init cap n) tr s →
  Z.of_nat (length tr) + 1 < U32 →
  ∃ aba fl, spec_run stack_spec (indices cap) tr = Some fl ∧ sys_inv cap s aba fl ∧
    aba ≤ Z.of_nat (length tr).
Proof.
  intros H0 H1 Hst. revert s tr Hst.
  apply (steps_invariant sys_step (λ (s : sys) tr, Z.of_nat (length tr) + 1 < U32 →
    ∃ aba fl, spec_run stack_spec (indices cap) tr = Some fl ∧ sys_inv cap s aba fl ∧
      aba ≤ Z.of_nat (length tr))).
  - intros _. exists 0, (indices cap). split; [done|]. split; [|cbn; lia].
    constructor; cbn; [by apply fixed_size_rep|by apply Z.mod_small; lia| |].
    + assert (held_all (replicate n TIdle) = []) as -> by (by induction n). by rewrite app_nil_r.
    + by apply Forall_replicate.
  - intros s tr s' _ IH Hst Hb. destruct (IH Hb) as (aba & fl & Hrun & [Hrep Hc Hp Ht] & Hle).
    inversion Hst as [u ts1 ts2 o|u ts1 ts2 o1 i o2|u ts1 ts2 o r|u ts1 pc ts2 o u' pc' e Hne Hnr Hth];
      subst; cbn in *.
    + exists aba, fl. split; [done|]. split; [|done]. constructor; cbn; try done.
      * by rewrite held_all_split in Hp |- *.
      * apply Forall_app in Ht as [? [? ?]%Forall_cons]. apply Forall_app. by split; [|constructor].
    + exists aba, fl. split; [done|]. split; [|done]. constructor; cbn; try done.
      * rewrite held_all_split in Hp |- *. cbn in *. rewrite <- Hp. solve_Permutation.
      * apply Forall_app in Ht as [? [? ?]%Forall_cons]. apply Forall_app. by split; [|constructor].
    + exists aba, fl. split; [done|]. split; [|done]. constructor; cbn; try done.
      * rewrite held_all_split in Hp |- *. rewrite <- Hp. destruct r; cbn; solve_Permutation.
      * apply Forall_app in Ht as [? [? ?]%Forall_cons]. apply Forall_app. by split; [|constructor].
    + rewrite held_all_split in Hp.
      destruct (thread_step_inv (capacity u) aba o (ts1 ++ ts2) u fl pc u' pc' None)
        as (aba' & fl' & Hl & Hr' & Hc' & Hp' & Ht' & Hle'); try done; [lia| |].
      { apply Forall_app in Ht as [? [? ?]%Forall_cons]. constructor; [done|]. by apply Forall_app. }
      cbn in Hl. subst fl'. exists aba', fl. split; [done|]. split; [|lia].
      constructor; cbn; try done; [by rewrite held_all_split|].
      apply Forall_cons in Ht' as [? [? ?]%Forall_app]. apply Forall_app. by split; [|constructor].
  - intros s tr e s' _ IH Hst Hb. rewrite length_app in *. cbn [length] in *.
    destruct (IH ltac:(lia)) as (aba & fl & Hrun & [Hrep Hc Hp Ht] & Hle).
    inversion Hst as [| | |u ts1 pc ts2 o u' pc' e' Hne Hnr Hth]; subst; cbn in *.
    rewrite held_all_split in Hp.
    destruct (thread_step_inv (capacity u) aba o (ts1 ++ ts2) u fl pc u' pc' (Some e))
      as (aba' & fl' & Hl & Hr' & Hc' & Hp' & Ht' & Hle'); try done; [lia| |].
    { apply Forall_app in Ht as [? [? ?]%Forall_cons]. constructor; [done|]. by apply Forall_app. }
    exists aba', fl'. rewrite spec_run_app, Hrun. cbn. rewrite Hl. split; [done|]. split; [|lia].
    constructor; cbn; try done; [by rewrite held_all_split|].
    apply Forall_cons in Ht' as [? [? ?]%Forall_app]. apply Forall_app. by split; [|constructor].
Qed.
(** C7. Linearizability and exclusive ownership: however any number of threads
    interleave their acquires and releases, the completed operations form a
    legal run of a stack that initially holds all indices; and at every moment
    the free indices, the indices owned by users and those a thread is about to
    hand out or give back are together exactly the indices of the set, each
    once. So no index is handed out twice and none is lost. The run has fewer
    than 2^32 operations, so the counter does not wrap. *)
Theorem index_set_linearizable cap n (s : sys) tr :
  0 ≤ cap → cap + 1 < U32 → steps sys_step (sys_init cap n) tr s →
  Z.of_nat (length tr) + 1 < U32 →
  ∃ fl, spec_run stack_spec (indices cap) tr = Some fl ∧
    chain (next_free (set s)) cap fl ∧
    fl ++ owned s ++ held_all (threads s) ≡ₚ indices cap ∧
    NoDup (owned s ++ held_all (threads s)).
Proof.
  intros H0 H1 Hst Hb.
  destruct (uis_reachable_inv cap n s tr H0 H1 Hst Hb) as (aba & fl & Hrun & [Hrep Hc Hp _] & _).
  exists fl. split; [done|]. split; [rewrite <- Hc; by destruct Hrep|]. split; [done|].
  pose proof (indices_NoDup cap) as Hnd. rewrite <- Hp in Hnd.
  by apply NoDup_app in Hnd as (_ & _ & ?).
Qed.

(** Memory safety of the index set: in every reachable state the next access
    of every thread is defined: no counter or capacity overflow, no access
    outside of the [capacity + 1] cells. *)
Theorem index_set_threads_safe cap n (s : sys) tr pc :
  0 ≤ cap → cap + 1 < U32 → steps sys_step (sys_init cap n) tr s →
  Z.of_nat (length tr) + 1 < U32 →
  pc ∈ threads s → safe (thread_step (set s) pc).
Proof.
  intros H0 H1 Hst Hb Hpc.
  destruct (uis_reachable_inv cap n s tr H0 H1 Hst Hb) as (aba & fl & Hrun & [Hrep Hc Hp Ht] & Hle).
  apply list_elem_of_split in Hpc as (ts1 & ts2 & Hts). rewrite Hts in Hp, Ht.
  apply Forall_app in Ht as [_ [Hpc _]%Forall_cons]. rewrite held_all_split in Hp.
  assert (∀ i, held pc = [i] → 0 ≤ i < capacity (set s)) as Hheld.
  { intros i Hi. by destruct (held_facts cap (owned s) (ts1 ++ ts2) (set s) fl Hc pc i Hp Hi). }
  pose proof Hrep as [Hini Hcap Hlen Ha _ _].
  unfold safe. destruct pc as [| |old|old nh|i|r|i|i old|i old]; cbn in *; eauto.
  - unfold verify_init. rewrite Hini. cbn. destruct (acquire_head _ _). eauto.
  - destruct Hpc as [_ Hin].
    destruct (raw_read_in (next_free (set s)) (extract_head_and_aba old).1) as (x & -> & _); [lia|].
    cbn. eauto.
  - destruct Hpc as ([Hcnt _] & _). destruct (extract_head_and_aba old) as [h a]. cbn in *.
    rewrite u32add_ok by lia. cbn. unfold compare_exchange. case_bool; [eauto|].
    destruct (acquire_head _ _). eauto.
  - specialize (Hheld i eq_refl). rewrite u32add_ok by lia. cbn. rewrite raw_write_ok by lia. eauto.
  - unfold verify_init. rewrite Hini. cbn. eauto.
  - specialize (Hheld i eq_refl). rewrite raw_write_ok by lia. cbn. eauto.
  - destruct Hpc as [[Hcnt _] _]. destruct (extract_head_and_aba old) as [h a]. cbn in *.
    rewrite u32add_ok by lia. cbn. unfold compare_exchange. case_bool; eauto.
Qed.

(** ** Sequential behaviour *)

Lemma u32add_range a b x : u32add a b = Return x → 0 ≤ x < U32.
Proof.
  unfold u32add, arith. destruct (Z.leb_spec 0 (a + b)), (Z.ltb_spec (a + b) U32); cbn;
    try (by intros [= <-]); destruct overflow_checks; try done; intros [= <-];
    apply Z.mod_pos_bound; unfold U32; lia.
Qed.

(** Whenever an acquire returns, it has taken the first free index. *)
Lemma acquire_inv s aba fl r s' :
  set_rep s aba fl → NoDup fl → acquire_raw_index s = Return (r, s') →
  match fl with
  | [] => r = None ∧ s' = s
  | x :: fl' => r = Some x ∧ capacity s' = capacity s ∧
      ∃ aba', u32add aba 1 = Return aba' ∧ set_rep s' aba' fl'
  end.
Proof.
  intros Hrep Hnd Hacq. pose proof Hrep as [Hini Hc Hlen Hab _ Hch].
  pose proof (extract_head _ _ _ Hrep) as He. unfold acquire_raw_index, verify_init in Hacq.
  rewrite Hini in Hacq. cbn [obind acquire_loop] in Hacq. rewrite He in Hacq.
  destruct fl as [|x fl]; cbn [List.hd] in Hacq.
  - rewrite Z.leb_refl in Hacq. by injection Hacq as <- <-.
  - pose proof Hch as (Hx & Hnx & Hch'). rewrite (proj2 (Z.leb_gt _ _)) in Hacq by lia.
    rewrite (raw_read_ok _ _ (List.hd (capacity s) fl)) in Hacq by (done || lia).
    cbn [obind] in Hacq. destruct (u32add aba 1) as [aba'| |] eqn:Ea; cbn [obind] in Hacq; try done.
    unfold compare_exchange in Hacq. rewrite Z.eqb_refl in Hacq.
    cbn [capacity set_head next_free] in Hacq. rewrite u32add_ok in Hacq by lia.
    cbn [obind] in Hacq. rewrite raw_write_ok in Hacq by lia. cbn [obind] in Hacq.
    injection Hacq as <- <-. split; [done|]. split; [done|]. exists aba'. split; [done|].
    apply NoDup_cons in Hnd as [Hni Hnd]. apply u32add_range in Ea.
    apply (set_rep_write (set_head s _)); [by eapply set_rep_pop|lia|done].
Qed.

(** With the counter below its maximum an acquire returns. *)
Lemma acquire_returns s aba fl :
  set_rep s aba fl → aba + 1 < U32 → ∃ r s', acquire_raw_index s = Return (r, s').
Proof.
  intros Hrep Ha. pose proof Hrep as [Hini Hc Hlen Hab _ Hch].
  unfold acquire_raw_index, verify_init. rewrite Hini. cbn [obind acquire_loop].
  rewrite (extract_head _ _ _ Hrep). destruct fl as [|x fl]; cbn [List.hd].
  - rewrite Z.leb_refl. eauto.
  - destruct Hch as (Hx & Hnx & _). rewrite (proj2 (Z.leb_gt _ _)) by lia.
    rewrite (raw_read_ok _ _ (List.hd (capacity s) fl)) by (done || lia). cbn [obind].
    rewrite u32add_ok by lia. cbn [obind]. unfold compare_exchange. rewrite Z.eqb_refl.
    cbn [capacity set_head next_free]. rewrite u32add_ok by lia. cbn [obind].
    rewrite raw_write_ok by lia. cbn. eauto.
Qed.

Lemma acquire_rep s aba fl :
  set_rep s aba fl → NoDup fl → aba + 1 < U32 →
  match fl with
  | [] => acquire_raw_index s = Return (None, s)
  | x :: fl' =>
      ∃ s', acquire_raw_index s = Return (Some x, s') ∧ set_rep s' (aba + 1) fl' ∧
        capacity s' = capacity s
  end.
Proof.
  intros Hrep Hnd Ha. destruct (acquire_returns s aba fl Hrep Ha) as (r & s' & Hacq).
  pose proof (acquire_inv _ _ _ _ _ Hrep Hnd Hacq) as Hinv. destruct fl as [|x fl].
  - by destruct Hinv as [-> ->].
  - destruct Hinv as (-> & Hc & aba' & Ea & Hrep'). pose proof Hrep as [_ _ _ ? _ _].
    rewrite u32add_ok in Ea by lia. injection Ea as <-. by exists s'.
Qed.

Lemma release_rep s aba fl i :
  set_rep s aba fl → aba + 1 < U32 → 0 ≤ i < capacity s → i ∉ fl →
  ∃ s', release_raw_index s i = Return s' ∧ set_rep s' (aba + 1) (i :: fl) ∧
    capacity s' = capacity s.
Proof.
  intros Hrep Ha Hi Hni. pose proof Hrep as [Hini Hc Hlen Hab _ Hch].
  pose proof (extract_head _ _ _ Hrep) as He. unfold release_raw_index, verify_init.
  rewrite Hini. cbn [obind release_loop]. rewrite He.
  rewrite raw_write_ok by lia. cbn [obind]. rewrite u32add_ok by lia. cbn [obind].
  unfold compare_exchange. cbn [head set_next_free]. rewrite Z.eqb_refl.
  eexists. split; [done|]. split; [|done].
  eapply (set_rep_push _ aba _ fl i); [by apply set_rep_write; [|lia|]|lia|done|].
  cbn. apply list_lookup_insert_eq. lia.
Qed.

(** Sequential round trip: on a set with the free indices [fl], acquiring takes
    the first of them ([None] exactly when [fl] is empty) and releasing it
    again restores the free indices; the counter has advanced by two. *)
Theorem acquire_release_roundtrip s aba fl :
  set_rep s aba fl → NoDup fl → aba + 2 < U32 →
  ∃ r s1, acquire_raw_index s = Return (r, s1) ∧ r = List.hd_error fl ∧
    match r with
    | Some i => ∃ s2, release_raw_index s1 i = Return s2 ∧ set_rep s2 (aba + 2) fl
    | None => s1 = s
    end.
Proof.
  intros Hrep Hnd Ha. pose proof (acquire_rep s aba fl Hrep Hnd ltac:(lia)) as Hacq.
  destruct fl as [|x fl]; [by exists None, s|].
  destruct Hacq as (s1 & H1 & Hrep1 & Hc). exists (Some x), s1. split; [done|]. split; [done|].
  pose proof Hrep as [_ _ _ _ _ (Hx & _)]. apply NoDup_cons in Hnd as [Hni _].
  destruct (release_rep s1 (aba + 1) fl x) as (s2 & H2 & Hrep2 & _); try done; try lia.
  exists s2. split; [done|]. by replace (aba + 2) with (aba + 1 + 1) by lia.
Qed.

(** The 32-bit modification counter is incremented with [+]: when it has
    reached its maximum, a build with overflow checks panics in the next
    acquire (of a non-empty set) and in the next release. *)
Theorem counter_overflow_panics s fl i :
  overflow_checks = true → set_rep s (U32 - 1) fl → fl ≠ [] → 0 ≤ i < capacity s →
  acquire_raw_index s = Panic ∧ release_raw_index s i = Panic.
Proof.
  intros Hck Hrep Hne Hi. pose proof Hrep as [Hini Hc Hlen Hab _ Hch].
  pose proof (extract_head _ _ _ Hrep) as He.
  assert (u32add (U32 - 1) 1 = Panic) as Hp
    by (unfold u32add; apply arith_panic; [done|lia]).
  split.
  - unfold acquire_raw_index, verify_init. rewrite Hini. cbn [obind acquire_loop]. rewrite He.
    destruct fl as [|x fl]; [done|]. cbn [List.hd]. destruct Hch as (Hx & Hnx & _).
    rewrite (proj2 (Z.leb_gt _ _)) by lia.
    rewrite (raw_read_ok _ _ (List.hd (capacity s) fl)) by (done || lia). cbn [obind].
    by rewrite Hp.
  - unfold release_raw_index, verify_init. rewrite Hini. cbn [obind release_loop]. rewrite He.
    rewrite raw_write_ok by lia. cbn [obind]. by rewrite Hp.
Qed.

Lemma thread_run_S n s pc :
  pc ≠ TIdle → (∀ r, pc ≠ ARet r) →
  thread_run (S n) s pc = let! '(s', pc', _) := thread_step s pc in thread_run n s' pc'.
Proof. destruct pc; try done. intros _ H. by destruct (H r). Qed.

(** The interleaving model of the index set is the code: a thread that runs
    alone from the start of [acquire_raw_index] ([release_raw_index]) does
    exactly what the function does, on every set, panics and undefined accesses
    included. *)
Theorem index_set_solo_run_is_operation s i :
  thread_run 5 s ALoad = acquire_raw_index s ∧
  thread_run 5 s (RLoad i) = (let! s' := release_raw_index s i in Return (None, s')).
Proof.
  split.
  - rewrite thread_run_S by done. cbn [thread_step]. unfold acquire_raw_index.
    destruct (verify_init s) as [[]| |]; cbn [obind]; [|done..]. unfold acquire_head. cbn [acquire_loop].
    destruct (extract_head_and_aba (head s)) as [h a] eqn:E. cbn [fst].
    destruct (capacity s <=? h); cbn [obind]; [done|].
    rewrite thread_run_S by done. cbn [thread_step]. rewrite E. cbn [fst].
    destruct (raw_read _ _); cbn [obind]; [|done..].
    rewrite thread_run_S by done. cbn [thread_step]. rewrite E.
    destruct (u32add a 1); cbn [obind]; [|done..]. unfold compare_exchange. rewrite Z.eqb_refl.
    cbn [obind]. rewrite thread_run_S by done. cbn [thread_step]. cbn [capacity set_head].
    destruct (u32add (capacity s) 1); cbn [obind]; [|done..].
    by destruct (raw_write _ _ _).
  - rewrite thread_run_S by done. cbn [thread_step]. unfold release_raw_index.
    destruct (verify_init s) as [[]| |]; cbn [obind]; [|done..]. cbn [release_loop].
    rewrite thread_run_S by done. cbn [thread_step].
    destruct (extract_head_and_aba (head s)) as [h a] eqn:E. cbn [fst].
    destruct (raw_write _ _ _); cbn [obind]; [|done..].
    rewrite thread_run_S by done. cbn [thread_step]. rewrite E.
    destruct (u32add a 1); cbn [obind]; [|done..].
    unfold compare_exchange. cbn [head set_next_free]. by rewrite Z.eqb_refl.
Qed.

(** [init] on memory of sufficient size yields a set of exactly [cap] free
    indices. *)
Lemma init_rep {S} `{BaseAllocator S} cap (a a' : S) c :
  0 ≤ cap → cap + 1 < U32 → allocate a (mkLayout (4 * (cap + 1)) 4) = Return (Ok c, a') →
  4 * (cap + 1) ≤ c_len c →
  ∃ s', init (new_uninit cap) a = Return (Ok tt, s', a') ∧ set_rep s' 0 (indices cap) ∧
    capacity s' = cap.
Proof.
  intros H0 H1 Ha Hc. unfold init, new_uninit. cbn [is_memory_initialized capacity head].
  unfold wrap. rewrite Z.mod_small by lia. rewrite u32add_ok by lia. cbn [obind].
  rewrite umul_ok by (unfold U32, USIZE in *; lia). cbn [obind]. rewrite Ha. cbn [obind].
  rewrite (proj2 (Z.leb_le _ _)) by done. eexists. split; [done|]. split; [|done].
  assert (length (successors (cap + 1)) = Z.to_nat (cap + 1)) as Hlen
    by (unfold successors; by rewrite length_fmap, length_seq).
  constructor; cbn; try done; try lia.
  - unfold indices. destruct (Z.to_nat cap) eqn:E; cbn; [|done]. by replace cap with 0 by lia.
  - unfold indices. apply chain_successors; [|lia]. intros k Hk. apply successors_lookup. lia.
Qed.

(** [new_with_reduced_capacity] refuses zero and more than the maximum, and
    otherwise yields a set of exactly [cap] free indices. *)
Lemma reduced_capacity_rep CAPACITY cap :
  0 ≤ cap → CAPACITY + 1 < U32 →
  match new_with_reduced_capacity CAPACITY cap with
  | Ok s => 0 < cap ≤ CAPACITY ∧ capacity s = cap ∧ set_rep s 0 (indices cap)
  | Err ProvidedCapacityGreaterThanMaxCapacity => CAPACITY < cap
  | Err ProvidedCapacityIsZero => cap = 0
  end.
Proof.
  intros H0 H1. unfold new_with_reduced_capacity.
  destruct (Z.ltb_spec CAPACITY cap); [done|]. destruct (Z.eqb_spec cap 0); [done|].
  cbn. unfold wrap. rewrite Z.mod_small by lia. split; [lia|]. split; [done|].
  assert (length (successors CAPACITY) = Z.to_nat CAPACITY) as Hlen
    by (unfold successors; by rewrite length_fmap, length_seq).
  constructor; cbn; try done; try lia.
  - rewrite length_app, Hlen. cbn. lia.
  - unfold indices. destruct (Z.to_nat cap) eqn:E; [lia|done].
  - unfold indices. apply chain_successors; [|lia]. intros k Hk.
    rewrite lookup_app_l by lia. apply successors_lookup. lia.
Qed.
End Theorems.

(** ** Witnesses *)

Section Witnesses.
#[local] Instance checked : Profile := true.

Lemma pack_extract_roundtrip_witness :
  extract_head_and_aba (pack_from_head_and_aba 3 9) = (3, 9) ∧
  (let '(h', a') := extract_head_and_aba 77 in
   pack_from_head_and_aba h' a' = 77 ∧ 0 ≤ h' < U32 ∧ 0 ≤ a' < U32).
Proof. apply (pack_extract_roundtrip 3 9 77); unfold U32, USIZE; lia. Defined.

(** Two threads on two indices: one has taken the first index off the stack, the
    other one is about to read its link with a stale head. *)
Definition set_two (h : Z) : UniqueIndexSet := mkUniqueIndexSet 0 [1; 2; 3] 2 h true.

Lemma uis_sample_run :
  steps sys_step (sys_init 2 2) [EAcquire (Some 0)]
    (mkSys (set_two (pack_from_head_and_aba 1 1)) [AMark 0; AReadNext 0] []).
Proof.
  eapply (steps_label _ _ []);
    [|eapply (step_thread (set_two 0) [] (ACas 0 1) [AReadNext 0]); [done..|reflexivity]].
  eapply steps_silent;
    [|eapply (step_thread (set_two 0) [] (AReadNext 0) [AReadNext 0]); [done..|reflexivity]].
  eapply steps_silent;
    [|eapply (step_thread (set_two 0) [AReadNext 0] ALoad []); [done..|reflexivity]].
  eapply steps_silent; [|eapply (step_thread (set_two 0) [] ALoad [ALoad]); [done..|reflexivity]].
  eapply steps_silent; [|apply (step_call_acquire (set_two 0) [ALoad] [])].
  eapply steps_silent; [|apply (step_call_acquire (set_two 0) [] [TIdle])].
  apply steps_refl.
Qed.

Lemma index_set_linearizable_witness :
  ∃ fl, spec_run stack_spec (indices 2) [EAcquire (Some 0)] = Some fl ∧
    chain [1; 2; 3] 2 fl ∧ fl ++ [] ++ held_all [AMark 0; AReadNext 0] ≡ₚ indices 2.
Proof.
  destruct (index_set_linearizable 2 2
    (mkSys (set_two (pack_from_head_and_aba 1 1)) [AMark 0; AReadNext 0] []) [EAcquire (Some 0)])
    as (fl & H1 & H2 & H3 & _).
  - lia.
  - reflexivity.
  - apply uis_sample_run.
  - reflexivity.
  - by exists fl.
Defined.

Lemma index_set_threads_safe_witness :
  safe (thread_step (set_two (pack_from_head_and_aba 1 1)) (AReadNext 0)).
Proof.
  apply (index_set_threads_safe 2 2
    (mkSys (set_two (pack_from_head_and_aba 1 1)) [AMark 0; AReadNext 0] []) [EAcquire (Some 0)]).
  - lia.
  - reflexivity.
  - apply uis_sample_run.
  - reflexivity.
  - cbn. set_solver.
Defined.

Lemma acquire_release_roundtrip_witness :
  ∃ r s1, acquire_raw_index (fixed_size_new 3) = Return (r, s1) ∧ r = Some 0 ∧
    match r with
    | Some i => ∃ s2, release_raw_index s1 i = Return s2 ∧ set_rep s2 2 (indices 3)
    | None => s1 = fixed_size_new 3
    end.
Proof.
  apply (acquire_release_roundtrip (fixed_size_new 3) 0 (indices 3)).
  - apply fixed_size_rep; [lia|reflexivity].
  - apply indices_NoDup.
  - reflexivity.
Defined.

Lemma counter_overflow_panics_witness :
  acquire_raw_index (mkUniqueIndexSet 0 [1; 2] 1 (U32 - 1) true) = Panic ∧
  release_raw_index (mkUniqueIndexSet 0 [1; 2] 1 (U32 - 1) true) 0 = Panic.
Proof.
  apply (counter_overflow_panics (mkUniqueIndexSet 0 [1; 2] 1 (U32 - 1) true) [0] 0).
  - reflexivity.
  - constructor; cbn; try done; unfold U32; lia.
  - done.
  - cbn. lia.
Defined.
End Witnesses.
