(* ===== verification/HeapMemory.v ===== *)
(** * The heap

    - elkodon_bb/posix/src/memory.rs: aligned memory from [malloc], whose address is kept
      in the word in front of what the user gets;
    - elkodon_bb/memory/src/heap_allocator.rs: the allocator made of it.

    [malloc], [calloc], [realloc] and [free] are those of the C library: an answer is an
    address, or 0; the theorems assume of it that a new block does not overlap the live
    ones. The memory is a map from addresses to cells; the word of an address is one
    cell. *)

From S2P Require Import Prelude Elementary.

Module Heap.

Inductive MemoryError := OutOfMemory | SizeIsZero | AlignmentFailure | UnknownError.

Definition to_allocation_error (e : MemoryError) : AllocationError :=
  match e with
  | SizeIsZero => Elementary.SizeIsZero
  | OutOfMemory => Elementary.OutOfMemory
  | AlignmentFailure => Elementary.AlignmentFailure
  | UnknownError => Elementary.InternalError
  end.
Definition to_grow_error (e : MemoryError) : AllocationGrowError :=
  match e with
  | SizeIsZero => GrowSizeIsZero
  | OutOfMemory => GrowOutOfMemory
  | AlignmentFailure => GrowAlignmentFailure
  | UnknownError => GrowInternalError
  end.
Definition to_shrink_error (e : MemoryError) : AllocationShrinkError :=
  match e with
  | SizeIsZero => ShrinkSizeIsZero
  | AlignmentFailure => ShrinkAlignmentFailure
  | _ => ShrinkInternalError
  end.

(** The cells, and the live blocks with their sizes. *)
Record Memory := mkMemory { cells : gmap Z Z; blocks : gmap Z Z }.
Definition set_cells (m : Memory) c := mkMemory c (blocks m).
Definition set_blocks (m : Memory) b := mkMemory (cells m) b.

Definition MEMORY_START_STORAGE_SPACE : Z := 8.

Section Operations.
Context `{P : Profile}.
(** [errno] when the C library has returned 0: whether it is [ENOMEM]. *)
Context (enomem : bool).
Implicit Types (m : Memory) (layout : Layout).

Definition setup_and_align m (addr : Z) layout : outcome (result Chunk MemoryError * Memory) :=
  if addr =? 0 then Return (Err (if enomem then OutOfMemory else UnknownError), m)
  else
    let! s := uadd addr MEMORY_START_STORAGE_SPACE in
    let! aligned_start := Math.align s (l_align layout) in
    Return (Ok (mkChunk aligned_start (l_size layout)), set_cells m (<[aligned_start - 8 := addr]> (cells m))).

Definition check_precondition layout : result unit MemoryError :=
  if l_size layout =? 0 then Err SizeIsZero else Ok tt.

Definition extract_address m (addr : Z) : outcome Z :=
  match cells m !! (addr - 8) with Some a => Return a | None => Undefined end.

(** What is asked of the C library. *)
Definition request layout : outcome Z :=
  let! alignment_adjustment_buffer := usub (l_align layout) 1 in
  let! n := uadd (l_size layout) alignment_adjustment_buffer in
  uadd n MEMORY_START_STORAGE_SPACE.

(** [malloc] of [n] bytes answers [addr]. *)
Definition malloc m (n addr : Z) : Memory := if addr =? 0 then m else set_blocks m (<[addr := n]> (blocks m)).
Definition free m (addr : Z) : outcome Memory :=
  match blocks m !! addr with Some _ => Return (set_blocks m (delete addr (blocks m))) | None => Undefined end.

Definition allocate m layout (addr : Z) : outcome (result Chunk MemoryError * Memory) :=
  match check_precondition layout with
  | Err e => Return (Err e, m)
  | Ok _ => let! n := request layout in setup_and_align (malloc m n addr) addr layout
  end.

(** [calloc] clears the block. *)
Definition clear_cells (c : gmap Z Z) (addr n : Z) : gmap Z Z :=
  foldr (λ i c, <[addr + Z.of_nat i := 0]> c) c (seq 0 (Z.to_nat n)).
Definition allocate_zeroed m layout (addr : Z) : outcome (result Chunk MemoryError * Memory) :=
  match check_precondition layout with
  | Err e => Return (Err e, m)
  | Ok _ =>
      let! n := request layout in
      let m := malloc m n addr in
      setup_and_align (if addr =? 0 then m else set_cells m (clear_cells (cells m) addr n)) addr layout
  end.

(** [realloc] of the block at [old] to [n] bytes answers [addr]: it copies the cells; when
    it answers 0, the old block stays. *)
Definition move_cells (c : gmap Z Z) (old addr n : Z) : gmap Z Z :=
  kmap (λ x, x - old + addr) (filter (λ p, old ≤ p.1 < old + n) c) ∪ c.
Definition realloc m (old n addr : Z) : outcome Memory :=
  match blocks m !! old with
  | None => Undefined
  | Some size =>
      if addr =? 0 then Return m
      else Return (mkMemory (move_cells (cells m) old addr (Z.min size n)) (<[addr := n]> (delete old (blocks m))))
  end.

Definition resize m (ptr : Z) (old_layout new_layout : Layout) (addr : Z) : outcome (result Chunk MemoryError * Memory) :=
  match check_precondition new_layout with
  | Err e => Return (Err e, m)
  | Ok _ =>
      if l_align old_layout <? l_align new_layout then Return (Err AlignmentFailure, m)
      else
        let! current_unaligned_start := extract_address m ptr in
        let! n := request new_layout in
        let! m := realloc m current_unaligned_start n addr in
        setup_and_align m addr new_layout
  end.

Definition deallocate m (ptr : Z) (layout : Layout) : outcome Memory :=
  let! addr := extract_address m ptr in free m addr.

(** ** heap_allocator.rs *)

Definition heap_allocate m layout addr : outcome (result Chunk AllocationError * Memory) :=
  let! '(r, m) := allocate m layout addr in
  Return (match r with Ok c => Ok c | Err e => Err (to_allocation_error e) end, m).
Definition heap_deallocate m ptr layout : outcome (result unit DeallocationError * Memory) :=
  let! m := deallocate m ptr layout in Return (Ok tt, m).
Definition heap_grow m ptr old_layout new_layout addr : outcome (result Chunk AllocationGrowError * Memory) :=
  if l_size new_layout <=? l_size old_layout then Return (Err GrowWouldShrink, m)
  else
    let! '(r, m) := resize m ptr old_layout new_layout addr in
    Return (match r with Ok c => Ok c | Err e => Err (to_grow_error e) end, m).
Definition heap_shrink m ptr old_layout new_layout addr : outcome (result Chunk AllocationShrinkError * Memory) :=
  if l_size old_layout <=? l_size new_layout then Return (Err ShrinkWouldGrow, m)
  else
    let! '(r, m) := resize m ptr old_layout new_layout addr in
    Return (match r with Ok c => Ok c | Err e => Err (to_shrink_error e) end, m).

(** ** The heap in use *)

(** A new block of the C library. *)
Definition fresh m (n addr : Z) : Prop :=
  0 < addr ∧ addr + n < USIZE ∧ ∀ a k, blocks m !! a = Some k → a + k ≤ addr ∨ addr + n ≤ a.

(** Who uses the allocator: the chunks it has got and not given back. A user writes cells
    of its chunks only. *)
Inductive heap_step : Memory * list Chunk → option unit → Memory * list Chunk → Prop :=
| step_allocate m cs layout addr r m' :
    layout_wf layout → l_size layout + l_align layout + 8 < USIZE →
    addr = 0 ∨ fresh m (l_size layout + l_align layout + 7) addr →
    heap_allocate m layout addr = Return (r, m') →
    heap_step (m, cs) None (m', match r with Ok c => c :: cs | Err _ => cs end)
| step_write m l c r x v :
    c_start c ≤ x < c_start c + c_len c →
    heap_step (m, l ++ c :: r) None (set_cells m (<[x := v]> (cells m)), l ++ c :: r)
| step_deallocate m l c r layout m' :
    heap_deallocate m (c_start c) layout = Return (Ok tt, m') → heap_step (m, l ++ c :: r) None (m', l ++ r).

(** A chunk lies in a block whose address is in front of it. *)
Definition in_block m (c : Chunk) (a : Z) : Prop :=
  cells m !! (c_start c - 8) = Some a ∧
  ∃ n, blocks m !! a = Some n ∧ a + 8 ≤ c_start c ∧ 0 < c_len c ∧ c_start c + c_len c ≤ a + n.

Record heap_inv (x : Memory * list Chunk) (owners : list Z) : Prop := {
  hi_chunks : Forall2 (in_block x.1) x.2 owners;
  hi_distinct : NoDup owners;
  hi_blocks a n b k : blocks x.1 !! a = Some n → blocks x.1 !! b = Some k → a ≠ b → a + n ≤ b ∨ b + k ≤ a
}.
End Operations.

Section Theorems.
Context `{P : Profile} (enomem : bool).
Implicit Types (m : Memory) (cs : list Chunk) (layout : Layout) (owners : list Z).

Lemma request_ok layout :
  layout_wf layout → l_size layout + l_align layout + 8 < USIZE → request layout = Return (l_size layout + l_align layout + 7).
Proof.
  intros Hl Hb. pose proof (layout_align_pos _ Hl). destruct Hl as [H0 _]. unfold request, MEMORY_START_STORAGE_SPACE.
  rewrite usub_ok by lia. cbn [obind]. rewrite uadd_ok by lia. cbn [obind]. rewrite uadd_ok by lia. f_equal. lia.
Qed.

Lemma setup_and_align_ok m addr layout :
  layout_wf layout → 0 < addr → addr + 8 + l_align layout < USIZE →
  ∃ start, setup_and_align enomem m addr layout =
      Return (Ok (mkChunk start (l_size layout)), set_cells m (<[start - 8 := addr]> (cells m))) ∧
    addr + 8 ≤ start < addr + 8 + l_align layout ∧ start mod l_align layout = 0.
Proof.
  intros Hl Ha Hb. pose proof (layout_align_pos _ Hl). unfold setup_and_align, MEMORY_START_STORAGE_SPACE.
  rewrite (proj2 (Z.eqb_neq _ _)) by lia. rewrite uadd_ok by lia. cbn [obind].
  destruct (Math.align_ok (addr + 8) (l_align layout)) as (v & -> & Hv & Hm); [lia..|]. cbn [obind]. exists v. split; [done|]. lia.
Qed.

Lemma allocate_ok m layout addr :
  layout_wf layout → 0 < l_size layout → l_size layout + l_align layout + 8 < USIZE →
  0 < addr → addr + (l_size layout + l_align layout + 7) < USIZE →
  ∃ start, heap_allocate enomem m layout addr =
      Return (Ok (mkChunk start (l_size layout)),
        mkMemory (<[start - 8 := addr]> (cells m)) (<[addr := l_size layout + l_align layout + 7]> (blocks m))) ∧
    addr + 8 ≤ start ∧ start + l_size layout ≤ addr + (l_size layout + l_align layout + 7) ∧
    start mod l_align layout = 0.
Proof.
  intros Hl Hs Hb Ha Haw. unfold heap_allocate, allocate, check_precondition. rewrite (proj2 (Z.eqb_neq _ _)) by lia.
  rewrite request_ok by done. cbn [obind].
  destruct (setup_and_align_ok (malloc m (l_size layout + l_align layout + 7) addr) addr layout Hl Ha) as (start & -> & Hst & Hm); [lia|].
  cbn [obind]. exists start. unfold malloc. rewrite (proj2 (Z.eqb_neq _ _)) by lia. cbn. split; [done|]. lia.
Qed.

Lemma in_block_cells m c a x v : in_block m c a → x ≠ c_start c - 8 → in_block (set_cells m (<[x := v]> (cells m))) c a.
Proof. intros [H1 H2] Hx. split; [|done]. cbn. by rewrite lookup_insert_ne. Qed.

Lemma heap_allocate_inv m cs owners layout addr r m' :
  heap_inv (m, cs) owners → layout_wf layout → l_size layout + l_align layout + 8 < USIZE →
  addr = 0 ∨ fresh m (l_size layout + l_align layout + 7) addr →
  heap_allocate enomem m layout addr = Return (r, m') →
  ∃ owners', heap_inv (m', match r with Ok c => c :: cs | Err _ => cs end) owners'.
Proof.
  intros Hinv Hl Hb Hans Hal. pose proof (layout_align_pos _ Hl) as Hap. pose proof Hl as [Hs0 _].
  destruct (Z.eq_dec (l_size layout) 0) as [Hz|Hnz].
  { revert Hal. unfold heap_allocate, allocate, check_precondition. rewrite Hz. intros [= <- <-]. by exists owners. }
  destruct (Z.eq_dec addr 0) as [->|Hna].
  { revert Hal. unfold heap_allocate, allocate, check_precondition. rewrite (proj2 (Z.eqb_neq _ _)) by done.
    rewrite request_ok by done. cbn. intros [= <- <-]. by exists owners. }
  destruct Hans as [|(Ha & Haw & Hfresh)]; [done|].
  destruct (allocate_ok m layout addr Hl ltac:(lia) Hb Ha Haw) as (start & Heq & H1 & H2 & _). rewrite Hal in Heq. injection Heq as -> ->.
  destruct Hinv as [Hc Hd Hbl]. cbn [fst snd] in *. set (n := l_size layout + l_align layout + 7) in *.
  exists (addr :: owners). constructor; cbn [fst snd].
  - constructor.
    + split; cbn; [by rewrite lookup_insert_eq|]. exists n. rewrite lookup_insert_eq. split; [done|]. lia.
    + eapply Forall2_impl; [exact Hc|]. intros c a [Hca (k & Hk & ? & ? & ?)]. pose proof (Hfresh _ _ Hk). cbn.
      split; cbn; [rewrite lookup_insert_ne; [done|lia]|]. exists k. rewrite lookup_insert_ne; [by split_and!|lia].
  - constructor; [|done]. intros Hin. apply list_elem_of_lookup_1 in Hin as (i & Hi).
    destruct (Forall2_lookup_r _ _ _ _ _ Hc Hi) as (c & _ & [_ (k & Hk & ? & ? & ?)]). pose proof (Hfresh _ _ Hk). lia.
  - cbn. intros a k b j. rewrite !lookup_insert_Some. intros [[<- <-]|[? Hk]] [[<- <-]|[? Hj]] Hne; [done| | |by eapply Hbl].
    + pose proof (Hfresh _ _ Hj). lia.
    + pose proof (Hfresh _ _ Hk). lia.
Qed.

(** The owner of a chunk, and those of the others. *)
Lemma heap_inv_middle m l c r owners :
  heap_inv (m, l ++ c :: r) owners →
  ∃ lo a ro, owners = lo ++ a :: ro ∧ Forall2 (in_block m) l lo ∧ in_block m c a ∧ Forall2 (in_block m) r ro ∧
    NoDup (lo ++ ro) ∧ a ∉ lo ++ ro.
Proof.
  intros [Hc Hd _]. cbn [fst snd] in *. apply Forall2_app_inv_l in Hc as (lo & o & Hl & Ho & ->).
  apply Forall2_cons_inv_l in Ho as (a & ro & Ha & Hr & ->). exists lo, a, ro. split_and!; try done;
    rewrite <- Permutation_middle in Hd; by apply NoDup_cons in Hd as [? ?].
Qed.

Lemma heap_write_inv m l c r owners x v :
  heap_inv (m, l ++ c :: r) owners → c_start c ≤ x < c_start c + c_len c →
  heap_inv (set_cells m (<[x := v]> (cells m)), l ++ c :: r) owners.
Proof.
  intros Hinv Hx. destruct (heap_inv_middle _ _ _ _ _ Hinv) as (lo & a & ro & -> & Hl & Ha & Hr & _ & Hna).
  pose proof Hinv as [_ Hd Hbl]. cbn [fst snd] in *. pose proof Ha as [_ (n & Hn & ? & ? & ?)].
  assert (∀ cs os, (∀ o, o ∈ os → o ≠ a) → Forall2 (in_block m) cs os → Forall2 (in_block (set_cells m (<[x := v]> (cells m)))) cs os) as Hkeep.
  { intros cs os Hos Hf. induction Hf as [|d o cs os Hd' Hf IH]; constructor.
    - apply in_block_cells; [done|]. destruct Hd' as [_ (k & Hk & ? & ? & ?)].
      destruct (Hbl _ _ _ _ Hn Hk) as [?|?]; [|lia..]. by apply not_eq_sym, Hos; left.
    - apply IH. intros o' Ho'. apply Hos. by right. }
  rewrite elem_of_app in Hna. constructor; cbn [fst snd]; [|done|done].
  apply Forall2_app; [apply Hkeep; [by intros o Ho ->; apply Hna; left|done]|].
  constructor; [apply in_block_cells; [done|lia]|]. apply Hkeep; [by intros o Ho ->; apply Hna; right|done].
Qed.

Lemma heap_deallocate_ok m l c r owners layout :
  heap_inv (m, l ++ c :: r) owners →
  ∃ a owners', in_block m c a ∧ heap_deallocate m (c_start c) layout = Return (Ok tt, set_blocks m (delete a (blocks m))) ∧
    heap_inv (set_blocks m (delete a (blocks m)), l ++ r) owners'.
Proof.
  intros Hinv. destruct (heap_inv_middle _ _ _ _ _ Hinv) as (lo & a & ro & -> & Hl & Ha & Hr & Hnd & Hna).
  pose proof Hinv as [_ _ Hbl]. cbn [fst snd] in *. pose proof Ha as [Hca (n & Hn & _)].
  exists a, (lo ++ ro). split; [done|]. split.
  - unfold heap_deallocate, deallocate, extract_address, free. rewrite Hca. cbn [obind]. by rewrite Hn.
  - assert (∀ cs os, (∀ o, o ∈ os → o ≠ a) → Forall2 (in_block m) cs os → Forall2 (in_block (set_blocks m (delete a (blocks m)))) cs os) as Hkeep.
    { intros cs os Hos Hf. induction Hf as [|d o cs os Hd' Hf IH]; constructor.
      - destruct Hd' as [Hd' (k & Hk & ?)]. split; [done|]. exists k. cbn. rewrite lookup_delete_ne; [done|]. by apply not_eq_sym, Hos; left.
      - apply IH. intros o' Ho'. apply Hos. by right. }
    rewrite elem_of_app in Hna. constructor; cbn [fst snd]; [|done|].
    + apply Forall2_app; apply Hkeep; try done; intros o Ho ->; apply Hna; auto.
    + cbn. intros b k d j [_ Hk]%lookup_delete_Some [_ Hj]%lookup_delete_Some. by eapply Hbl.
Qed.

Lemma heap_reachable x tr :
  steps (heap_step enomem) (mkMemory ∅ ∅, []) tr x → ∃ owners, heap_inv x owners.
Proof.
  revert x tr. apply (steps_invariant _ (λ x _, ∃ owners, heap_inv x owners)).
  - exists []. constructor; [constructor|constructor|done].
  - intros x tr x' _ (owners & Hinv) Hst. destruct Hst as [m cs layout addr r m' Hl Hb Hans Hal|m l c r y v Hy|m l c r layout m' Hd].
    + by eapply heap_allocate_inv.
    + exists owners. by apply heap_write_inv.
    + destruct (heap_deallocate_ok _ _ _ _ _ layout Hinv) as (a & owners' & _ & Heq & Hinv'). rewrite Hd in Heq. injection Heq as ->. by exists owners'.
  - intros x tr l x' _ _ Hst. inversion Hst.
Qed.

Lemma heap_inv_disjoint m cs owners : heap_inv (m, cs) owners → pairwise_disjoint cs.
Proof.
  intros [Hc Hd Hbl]. cbn [fst snd] in *. induction Hc as [|c a cs owners Hca Hc IH]; cbn; [done|].
  apply NoDup_cons in Hd as [Hna Hd]. split; [|by apply IH]. apply Forall_lookup. intros i d Hi.
  destruct (Forall2_lookup_l _ _ _ _ _ Hc Hi) as (b & Hb & [_ (k & Hk & ? & ? & ?)]). destruct Hca as [_ (n & Hn & ? & ? & ?)].
  assert (a ≠ b) as Hne by (intros ->; by apply Hna; eapply list_elem_of_lookup_2). unfold chunks_disjoint.
  destruct (Hbl _ _ _ _ Hn Hk Hne); lia.
Qed.

(** The heap allocator: whatever is allocated, freed and written by its users, with any
    answers of the C library, the chunks in use are pairwise disjoint; and giving a chunk
    back, with any layout, frees exactly the block it was cut from, since no user can
    have overwritten the word in front of another's chunk. *)
Theorem heap_allocator_safe m cs tr :
  steps (heap_step enomem) (mkMemory ∅ ∅, []) tr (m, cs) →
  pairwise_disjoint cs ∧
  ∀ c layout, c ∈ cs → ∃ a, in_block m c a ∧
    heap_deallocate m (c_start c) layout = Return (Ok tt, set_blocks m (delete a (blocks m))).
Proof.
  intros Hst. destruct (heap_reachable _ _ Hst) as (owners & Hinv). split; [by eapply heap_inv_disjoint|].
  intros c layout Hin. apply list_elem_of_split in Hin as (l & r & ->).
  destruct (heap_deallocate_ok _ _ _ _ _ layout Hinv) as (a & owners' & Hb & Heq & _). by exists a.
Qed.

(** What an allocation returns: an error for the size zero and for an answer of 0 of the
    C library, which leave the heap as it was, and else a chunk of the size and the
    alignment of the layout inside of the new block, however the block is aligned. *)
Theorem heap_allocate_correct m layout addr :
  layout_wf layout → l_size layout + l_align layout + 8 < USIZE →
  addr = 0 ∨ fresh m (l_size layout + l_align layout + 7) addr →
  (l_size layout = 0 → heap_allocate enomem m layout addr = Return (Err Elementary.SizeIsZero, m)) ∧
  (0 < l_size layout → addr = 0 → ∃ e, heap_allocate enomem m layout addr = Return (Err e, m)) ∧
  (0 < l_size layout → addr ≠ 0 →
     ∃ c m', heap_allocate enomem m layout addr = Return (Ok c, m') ∧ c_len c = l_size layout ∧
       c_start c mod l_align layout = 0 ∧ in_block m' c addr).
Proof.
  intros Hl Hb Hans. pose proof (layout_align_pos _ Hl). split_and!.
  - intros Hz. unfold heap_allocate, allocate, check_precondition. by rewrite Hz.
  - intros Hs ->. unfold heap_allocate, allocate, check_precondition. rewrite (proj2 (Z.eqb_neq _ _)) by lia.
    rewrite request_ok by done. cbn. by eexists.
  - intros Hs Hna. destruct Hans as [|(Ha & Haw & _)]; [done|].
    destruct (allocate_ok m layout addr Hl Hs Hb Ha Haw) as (start & -> & H1 & H2 & H3).
    do 2 eexists. split; [done|]. cbn. split; [done|]. split; [done|]. split; cbn; [by rewrite lookup_insert_eq|].
    eexists. rewrite lookup_insert_eq. split; [done|]. lia.
Qed.
End Theorems.

(** ** Growing *)

Section Growing.
#[local] Instance checked : Profile := true.

(** 100 bytes with an alignment of 64 in a block at 4112; the first byte is 7. The block
    grows to 200 bytes and moves to 8192. *)
Definition aligned_layout (n : Z) : Layout := mkLayout n 64.
Definition grown : outcome (Z * option Z * option Z) :=
  let! '(r, m) := heap_allocate true (mkMemory ∅ ∅) (aligned_layout 100) 4112 in
  match r with
  | Err _ => Panic
  | Ok c =>
      let m := set_cells m (<[c_start c := 7]> (cells m)) in
      let! '(r, m) := heap_grow true m (c_start c) (aligned_layout 100) (aligned_layout 200) 8192 in
      match r with
      | Err _ => Panic
      | Ok c' => Return (c_start c', cells m !! c_start c', cells m !! (8192 + (c_start c - 4112)))
      end
  end.

(** Growing can lose the content: [realloc] copies the block, but where the user's
    memory starts in it depends on the address; for an alignment above that of the C
    library the first byte is no longer the first byte. *)
Theorem growing_moves_content : grown = Return (8256, None, Some 7).
Proof. vm_compute. reflexivity. Qed.

(** ** Witnesses *)

Definition one_chunk : Memory := mkMemory {[ 4152 := 4112 ]} {[ 4112 := 171 ]}.

Lemma heap_allocator_safe_witness :
  ∃ a, in_block one_chunk (mkChunk 4160 100) a ∧
    heap_deallocate one_chunk 4160 (mkLayout 1 1) = Return (Ok tt, set_blocks one_chunk (delete a (blocks one_chunk))).
Proof.
  apply (heap_allocator_safe true one_chunk [mkChunk 4160 100] []); [|left].
  eapply steps_silent; [apply steps_refl|].
  apply (step_allocate true (mkMemory ∅ ∅) [] (aligned_layout 100) 4112 (Ok (mkChunk 4160 100))).
  - split; [discriminate|]. by exists 6.
  - reflexivity.
  - right. split_and!; [reflexivity..|]. intros a k Hk. discriminate Hk.
  - vm_compute. reflexivity.
Defined.

Lemma heap_allocate_correct_witness :
  ∃ c m', heap_allocate true (mkMemory ∅ ∅) (aligned_layout 100) 4112 = Return (Ok c, m') ∧ c_start c mod 64 = 0.
Proof.
  destruct (heap_allocate_correct true (mkMemory ∅ ∅) (aligned_layout 100) 4112) as (_ & _ & H).
  - split; [discriminate|]. by exists 6.
  - reflexivity.
  - right. split_and!; [reflexivity..|]. intros a k Hk. discriminate Hk.
  - destruct (H ltac:(reflexivity) ltac:(discriminate)) as (c & m' & H1 & _ & H2 & _). exists c, m'. exact (conj H1 H2).
Defined.
End Growing.
End Heap.
