(* ===== verification/Clock.v ===== *)
(** * elkodon_bb/posix: clock.rs, adaptive_wait.rs

    Points in time, durations, sleeping, and the wait that busy loops are made of. The
    clocks and the scheduler of the operating system are an interface ([ClockOs]) with
    what POSIX says about them ([ClockLaws]).

    The theorems: a wait with a timeout ends, after a number of rounds that its timeout
    bounds, and for the reason it reports; conversions of durations; what a clock that is
    set back, or a signal, does to them. *)

From S2P Require Import Prelude.

(** The codes of errno.h the modelled code distinguishes; [Other]: every other one. *)
Inductive Errno :=
| EPERM | ENOENT | EINTR | EIO | EBADF | EAGAIN | ENOMEM | EACCES | EBUSY | EEXIST | ENOTDIR | EISDIR | EINVAL | ENFILE | EMFILE
| EFBIG | ENOSPC | EROFS | EPIPE | ENOSYS | ELOOP | EMSGSIZE | ENOTSUP | EADDRINUSE | EADDRNOTAVAIL | ECONNRESET | ENOBUFS | EISCONN | ENOTCONN
| ETIMEDOUT | ECONNREFUSED | EBADMSG | EPROTOTYPE | EAFNOSUPPORT | EPROTONOSUPPORT | ENOTSOCK | EDESTADDRREQ | EOPNOTSUPP | ENAMETOOLONG
| EDEADLK | EOVERFLOW | EOWNERDEAD | ENOTRECOVERABLE | EINPROGRESS | Other (code : Z).

#[export] Instance errno_eq_dec : EqDecision Errno.
Proof. solve_decision. Defined.

(** ** Durations

    [std::time::Duration]: the nanoseconds; both operators panic when the result cannot
    be represented, in every build. *)

Definition NANOS : Z := 1000000000.
Definition DURATION_END : Z := USIZE * NANOS.

Definition Duration := Z.
Definition from_secs (s : Z) : Duration := s * NANOS.
Definition from_nanos (n : Z) : Duration := n.
Definition from_micros (n : Z) : Duration := n * 1000.
Definition from_millis (n : Z) : Duration := n * 1000000.
Definition as_secs (d : Duration) : Z := d / NANOS.
Definition subsec_nanos (d : Duration) : Z := d mod NANOS.
Definition subsec_micros (d : Duration) : Z := subsec_nanos d / 1000.
Definition dadd (a b : Duration) : outcome Duration := if a + b <? DURATION_END then Return (a + b) else Panic.
Definition dsub (a b : Duration) : outcome Duration := if b <=? a then Return (a - b) else Panic.

Definition I64 : Z := 2 ^ 63.
(** [as i64] *)
Definition as_i64 (z : Z) : Z := (z + I64) mod USIZE - I64.

Record timespec := mkTimespec { tv_sec : Z; tv_nsec : Z }.
Record timeval := mkTimeval { tval_sec : Z; tval_usec : Z }.

Definition duration_as_timespec (d : Duration) : timespec := mkTimespec (as_i64 (as_secs d)) (subsec_nanos d).
Definition duration_as_timeval (d : Duration) : timeval := mkTimeval (as_i64 (as_secs d)) (subsec_micros d).

(** ** clock.rs *)

Inductive ClockType := Monotonic | Realtime.

Inductive TimeError := TimeClockTypeIsNotSupported | TimeUnknownError (e : Errno).
Inductive NanosleepError := InterruptedBySignal (d : Duration) | DurationOutOfRange | ClockTypeIsNotSupported | NanosleepUnknownError (e : Errno).
Definition nanosleep_error_of_time (t : TimeError) : NanosleepError :=
  match t with TimeClockTypeIsNotSupported => ClockTypeIsNotSupported | TimeUnknownError v => NanosleepUnknownError v end.

Record Time := mkTime { clock_type : ClockType; seconds : Z; nanoseconds : Z }.

Definition time_builder_new (default : ClockType) : Time := mkTime default 0 0.
Definition builder_clock_type (t : Time) (c : ClockType) : Time := mkTime c (seconds t) (nanoseconds t).
Definition builder_seconds (t : Time) (s : Z) : Time := mkTime (clock_type t) s (nanoseconds t).
Definition builder_nanoseconds (t : Time) (n : Z) : Time := mkTime (clock_type t) (seconds t) n.

(** The operating system: [W] is its state. *)
Class ClockOs (W : Type) := {
  clock_gettime : ClockType → W → result timespec Errno * W;
  (** with TIMER_ABSTIME; what is left is written for [EINTR] *)
  clock_nanosleep : ClockType → timespec → W → result unit Errno * timespec * W;
  sched_yield : W → W
}.

Section Clock.
Context {W : Type} `{!ClockOs W}.
Implicit Types (w : W) (t : Time) (c : ClockType).

Definition now_with_clock c w : result Time TimeError * W :=
  let '(r, w) := clock_gettime c w in
  match r with
  | Ok ts => (Ok (mkTime c (wrap USIZE (tv_sec ts)) (wrap U32 (tv_nsec ts))), w)
  | Err ENOSYS => (Err TimeClockTypeIsNotSupported, w)
  | Err v => (Err (TimeUnknownError v), w)
  end.

Definition as_duration t : outcome Duration := dadd (from_secs (seconds t)) (from_nanos (nanoseconds t)).

Definition elapsed t w : outcome (result Duration TimeError * W) :=
  let '(r, w) := now_with_clock (clock_type t) w in
  match r with
  | Err e => Return (Err e, w)
  | Ok now =>
      let! a := as_duration now in
      let! b := as_duration t in
      let! d := dsub a b in
      Return (Ok d, w)
  end.

Definition time_as_timespec t : timespec := mkTimespec (as_i64 (seconds t)) (nanoseconds t).

Definition nanosleep_with_clock (d : Duration) c w : outcome (result unit NanosleepError * W) :=
  let '(r, w) := now_with_clock c w in
  match r with
  | Err e => Return (Err (nanosleep_error_of_time e), w)
  | Ok now =>
      let! n := as_duration now in
      let! wait_time := dadd n d in
      let '(r, time_left, w) := clock_nanosleep c (duration_as_timespec wait_time) w in
      match r with
      | Ok _ => Return (Ok tt, w)
      | Err EINTR =>
          let! remaining := dadd (from_secs (wrap USIZE (tv_sec time_left))) (from_nanos (wrap USIZE (tv_nsec time_left))) in
          Return (Err (InterruptedBySignal remaining), w)
      | Err EINVAL => Return (Err DurationOutOfRange, w)
      | Err ENOTSUP => Return (Err ClockTypeIsNotSupported, w)
      | Err v => Return (Err (NanosleepUnknownError v), w)
      end
  end.

Definition nanosleep (default : ClockType) (d : Duration) w := nanosleep_with_clock d default w.
End Clock.

(** ** adaptive_wait.rs *)

Definition ADAPTIVE_WAIT_YIELD_REPETITIONS : Z := 10000.
Definition ADAPTIVE_WAIT_INITIAL_REPETITIONS : Z := 100 + ADAPTIVE_WAIT_YIELD_REPETITIONS.
Definition ADAPTIVE_WAIT_INITIAL_WAITING_TIME : Duration := from_micros 100.
Definition ADAPTIVE_WAIT_FINAL_WAITING_TIME : Duration := from_millis 10.

Inductive AdaptiveWaitError := WaitNanosleepError (e : NanosleepError) | WaitTimeError (e : TimeError).
Inductive AdaptiveTimedWaitWhileError (T : Type) := WaitFailure (e : AdaptiveWaitError) | PredicateFailure (t : T).
Arguments WaitFailure {T}. Arguments PredicateFailure {T}.

Record AdaptiveWait := mkAdaptiveWait { yield_count : Z; wait_clock_type : ClockType; start_time : Time }.

Section AdaptiveWait.
Context `{P : Profile} {W : Type} `{!ClockOs W}.
Implicit Types (w : W) (a : AdaptiveWait).

Definition adaptive_wait_new (c : ClockType) w : result AdaptiveWait TimeError * W :=
  let '(r, w) := now_with_clock c w in
  match r with Ok t => (Ok (mkAdaptiveWait 0 c t), w) | Err e => (Err e, w) end.

Definition wait_impl a w : outcome (result unit AdaptiveWaitError * AdaptiveWait * W) :=
  let! n := uadd (yield_count a) 1 in
  let a := mkAdaptiveWait n (wait_clock_type a) (start_time a) in
  if n <=? ADAPTIVE_WAIT_YIELD_REPETITIONS then Return (Ok tt, a, sched_yield w)
  else
    let waiting_time :=
      if n <=? ADAPTIVE_WAIT_INITIAL_REPETITIONS then ADAPTIVE_WAIT_INITIAL_WAITING_TIME else ADAPTIVE_WAIT_FINAL_WAITING_TIME in
    let! '(r, w) := nanosleep_with_clock waiting_time (wait_clock_type a) w in
    Return (match r with Ok _ => Ok tt | Err e => Err (WaitNanosleepError e) end, a, w).

Definition wait_elapsed a w : outcome (result Duration AdaptiveWaitError * AdaptiveWait * W) :=
  let! '(r, w) := elapsed (start_time a) w in
  Return (match r with Ok d => Ok d | Err e => Err (WaitTimeError e) end, a, w).

Definition wait a w : outcome (result Duration AdaptiveWaitError * AdaptiveWait * W) :=
  let! '(r, a, w) := wait_impl a w in
  match r with Err e => Return (Err e, a, w) | Ok _ => wait_elapsed a w end.

Fixpoint wait_while (fuel : nat) (predicate : W → bool * W) a w
    : outcome (result Duration AdaptiveWaitError * AdaptiveWait * W) :=
  match fuel with
  | O => Undefined
  | S fuel =>
      let '(b, w) := predicate w in
      if b : bool then
        let! '(r, a, w) := wait_impl a w in
        match r with Err e => Return (Err e, a, w) | Ok _ => wait_while fuel predicate a w end
      else wait_elapsed a w
  end.

Fixpoint timed_wait_while {T} (fuel : nat) (predicate : W → outcome (result bool T * W)) (timeout : Duration) a w
    : outcome (result bool (AdaptiveTimedWaitWhileError T) * AdaptiveWait * W) :=
  match fuel with
  | O => Undefined
  | S fuel =>
      let! '(b, w) := predicate w in
      match b with
      | Err e => Return (Err (PredicateFailure e), a, w)
      | Ok false => Return (Ok true, a, w)
      | Ok true =>
          let! '(r, a, w) := wait a w in
          match r with
          | Err e => Return (Err (WaitFailure e), a, w)
          | Ok d => if timeout <? d then Return (Ok false, a, w) else timed_wait_while fuel predicate timeout a w
          end
      end
  end.
End AdaptiveWait.

(** ** Trying for some time

    The loop with which the blocking constructs of elkodon_bb/posix wait on the monotonic
    clock: [attempt] says what it got, or [None] when it would have to wait; [x] is what it
    works on. [TimedError] is the error of the operation: that of the attempt, or of the
    wait. *)

Inductive TimedError (E : Type) := TransferError (e : E) | AdaptiveError (e : AdaptiveWaitError) | TimedTimeError (e : TimeError).
Arguments TransferError {E}. Arguments AdaptiveError {E}. Arguments TimedTimeError {E}.

Section Timed.
Context `{P : Profile} {W : Type} `{!ClockOs W} {X A E : Type}.
Implicit Types (w : W) (x : X).

Fixpoint timed_loop (fuel : nat) (attempt : X → W → outcome (result (option A) E * X * W))
    (time : Time) (timeout : Duration) (a : AdaptiveWait) x w : outcome (result (option A) (TimedError E) * X * W) :=
  match fuel with
  | O => Undefined
  | S fuel =>
      let! '(r, x, w) := attempt x w in
      match r with
      | Ok (Some v) => Return (Ok (Some v), x, w)
      | Ok None =>
          let! '(r, w) := elapsed time w in
          match r with
          | Err e => Return (Err (TimedTimeError e), x, w)
          | Ok d =>
              if d <? timeout then
                let! '(r, a, w) := wait a w in
                match r with
                | Err e => Return (Err (AdaptiveError e), x, w)
                | Ok _ => timed_loop fuel attempt time timeout a x w
                end
              else Return (Ok None, x, w)
          end
      | Err e => Return (Err (TransferError e), x, w)
      end
  end.

Definition timed (fuel : nat) (attempt : X → W → outcome (result (option A) E * X * W)) (timeout : Duration) x w
    : outcome (result (option A) (TimedError E) * X * W) :=
  let '(r, w) := now_with_clock Monotonic w in
  match r with
  | Err e => Return (Err (TimedTimeError e), x, w)
  | Ok time =>
      let '(r, w) := adaptive_wait_new Monotonic w in
      match r with
      | Err e => Return (Err (TimedTimeError e), x, w)
      | Ok a => timed_loop fuel attempt time timeout a x w
      end
  end.
End Timed.

(** ** What POSIX says *)

Definition CLOCK_END : Z := 2 ^ 62 * NANOS.
Definition to_nanos (ts : timespec) : Z := tv_sec ts * NANOS + tv_nsec ts.
Definition timespec_ok (ts : timespec) : Prop := 0 ≤ tv_sec ts < 2 ^ 62 ∧ 0 ≤ tv_nsec ts < NANOS.

(** [clock w]: the nanoseconds the monotonic clock has counted. It never goes back, and a
    sleep that is not interrupted ends when its time has come. *)
Class ClockLaws (W : Type) `{!ClockOs W} := {
  clock : W → Z;
  clock_gettime_law w r w' :
    clock_gettime Monotonic w = (r, w') →
    clock w ≤ clock w' ∧ (∀ ts, r = Ok ts → timespec_ok ts ∧ clock w ≤ to_nanos ts ≤ clock w');
  clock_nanosleep_law ts w r left w' :
    clock_nanosleep Monotonic ts w = (r, left, w') →
    clock w ≤ clock w' ∧ timespec_ok left ∧ (r = Ok tt → to_nanos ts ≤ clock w');
  sched_yield_law w : clock w ≤ clock (sched_yield w)
}.

(** What the clocks and the scheduler leave alone. *)
Class ClockKeeps {W} `{!ClockOs W} {B} (f : W → B) := {
  gettime_keeps c w : f (clock_gettime c w).2 = f w;
  nanosleep_keeps c ts w : f (clock_nanosleep c ts w).2 = f w;
  yield_keeps w : f (sched_yield w) = f w
}.

Section Keeps.
Context `{P : Profile} {W : Type} `{!ClockOs W} {B : Type} (f : W → B) `{!ClockKeeps f}.

Lemma now_keeps c w : f (now_with_clock c w).2 = f w.
Proof.
  unfold now_with_clock. rewrite <- (gettime_keeps (f := f) c w). destruct (clock_gettime c w) as [[ts|e] w']; cbn; [done|by destruct e].
Qed.
Lemma elapsed_keeps t w r w' : elapsed t w = Return (r, w') → f w' = f w.
Proof.
  unfold elapsed. rewrite <- (now_keeps (clock_type t) w). destruct (now_with_clock (clock_type t) w) as [[n|e] w1]; cbn; [|congruence].
  destruct (as_duration n), (as_duration t); cbn; try done. destruct (dsub _ _); cbn; congruence.
Qed.
Lemma nanosleep_with_clock_keeps d c w r w' : nanosleep_with_clock d c w = Return (r, w') → f w' = f w.
Proof.
  unfold nanosleep_with_clock. rewrite <- (now_keeps c w). destruct (now_with_clock c w) as [[n|e] w1]; cbn; [|congruence].
  destruct (as_duration n) as [n'| |]; cbn; try done. destruct (dadd n' d) as [n''| |]; cbn; try done.
  rewrite <- (nanosleep_keeps (f := f) c (duration_as_timespec n'') w1). destruct (clock_nanosleep _ _ w1) as [[[[]|e] left] w2]; cbn; [congruence|].
  destruct e; try congruence. destruct (dadd _ _); cbn; congruence.
Qed.
Lemma wait_keeps a w r a' w' : wait a w = Return (r, a', w') → f w' = f w.
Proof.
  assert (∀ r1 a1 w1, wait_impl a w = Return (r1, a1, w1) → f w1 = f w) as Himpl.
  { intros r1 a1 w1. unfold wait_impl. destruct (uadd _ _); cbn; try done. case_match; [intros [= <- <- <-]; apply yield_keeps|].
    destruct (nanosleep_with_clock _ _ w) as [[r2 w2]| |] eqn:E; cbn; try done. intros [= <- <- <-]. by eapply nanosleep_with_clock_keeps. }
  unfold wait. destruct (wait_impl a w) as [[[r1 a1] w1]| |]; cbn; try done. rewrite <- (Himpl _ _ _ eq_refl).
  destruct r1 as [[]|e]; [|congruence]. unfold wait_elapsed. destruct (elapsed _ w1) as [[r2 w2]| |] eqn:E; cbn; try done.
  intros [= <- <- <-]. by eapply elapsed_keeps.
Qed.
End Keeps.

Section Theorems.
Context `{P : Profile}.

Lemma dadd_ok a b : a + b < DURATION_END → dadd a b = Return (a + b).
Proof. intros H. unfold dadd. by rewrite (proj2 (Z.ltb_lt _ _)). Qed.
Lemma dsub_ok a b : b ≤ a → dsub a b = Return (a - b).
Proof. intros H. unfold dsub. by rewrite (proj2 (Z.leb_le _ _)). Qed.

Lemma as_i64_ok z : - I64 ≤ z < I64 → as_i64 z = z.
Proof. intros H. unfold as_i64. rewrite Z.mod_small by (unfold I64, USIZE in *; lia). lia. Qed.

(** The way of a duration into the interface of the operating system and back. *)
Lemma duration_timespec d : 0 ≤ d < I64 * NANOS → to_nanos (duration_as_timespec d) = d ∧ 0 ≤ tv_nsec (duration_as_timespec d) < NANOS.
Proof.
  intros Hd. unfold duration_as_timespec, to_nanos. cbn [tv_sec tv_nsec]. unfold as_secs, subsec_nanos.
  pose proof (Z.mod_pos_bound d NANOS ltac:(done)). pose proof (Z.div_mod d NANOS ltac:(done)) as Hdm.
  assert (0 ≤ d / NANOS < I64) as Hq by (split; [apply Z.div_pos; [lia|done]|apply Z.div_lt_upper_bound; [done|lia]]).
  rewrite as_i64_ok by (unfold I64 in *; lia). lia.
Qed.

Context {W : Type} `{!ClockOs W, !ClockLaws W}.
Implicit Types (w : W) (a : AdaptiveWait).

Lemma now_spec w r w' :
  now_with_clock Monotonic w = (r, w') →
  clock w ≤ clock w' ∧ (∀ t, r = Ok t → clock_type t = Monotonic ∧
    ∃ n, as_duration t = Return n ∧ clock w ≤ n ≤ clock w' ∧ 0 ≤ n < CLOCK_END).
Proof.
  unfold now_with_clock. destruct (clock_gettime Monotonic w) as [r0 w0] eqn:E. pose proof (clock_gettime_law _ _ _ E) as [Hw Hts].
  destruct r0 as [ts|e].
  - intros [= <- <-]. split; [done|]. intros t [= <-]. split; [done|]. destruct (Hts ts eq_refl) as [[Hs Hn] Hr].
    exists (to_nanos ts). unfold as_duration. cbn [seconds nanoseconds].
    assert (wrap USIZE (tv_sec ts) = tv_sec ts) as -> by (apply Z.mod_small; unfold USIZE; lia).
    assert (wrap U32 (tv_nsec ts) = tv_nsec ts) as -> by (apply Z.mod_small; unfold U32, NANOS in *; lia).
    unfold from_secs, from_nanos, to_nanos, CLOCK_END in *. rewrite dadd_ok by (unfold DURATION_END, USIZE, NANOS in *; lia).
    split; [done|]. split; [done|]. unfold NANOS in *. lia.
  - intros H. split; [by destruct e; injection H as <- <-|]. intros t ->. by destruct e.
Qed.

(** Sleeping: afterwards at least that much time has passed. *)
Lemma nanosleep_spec d w :
  0 ≤ d < NANOS →
  ∃ r w', nanosleep_with_clock d Monotonic w = Return (r, w') ∧ clock w ≤ clock w' ∧ (r = Ok tt → clock w + d ≤ clock w').
Proof.
  intros Hd. unfold nanosleep_with_clock. destruct (now_with_clock Monotonic w) as [r w1] eqn:En.
  destruct (now_spec w r w1 En) as [Hw1 Ht]. destruct r as [t|e]; [|by do 2 eexists].
  destruct (Ht t eq_refl) as (_ & n & -> & Hn & Hne). cbn [obind].
  rewrite dadd_ok by (unfold DURATION_END, CLOCK_END, USIZE, NANOS in *; lia). cbn [obind].
  destruct (duration_timespec (n + d)) as [Hts _]; [unfold CLOCK_END, I64, NANOS in *; lia|].
  destruct (clock_nanosleep Monotonic (duration_as_timespec (n + d)) w1) as [[r left] w2] eqn:Es.
  destruct (clock_nanosleep_law _ _ _ _ _ Es) as (Hw2 & [Hl1 Hl2] & Hok). rewrite Hts in Hok.
  destruct r as [[]|e].
  - do 2 eexists. split; [done|]. split; [lia|]. intros _. specialize (Hok eq_refl). lia.
  - assert (wrap USIZE (tv_sec left) = tv_sec left) as Hs by (apply Z.mod_small; unfold USIZE; lia).
    assert (wrap USIZE (tv_nsec left) = tv_nsec left) as Hns by (apply Z.mod_small; unfold USIZE, NANOS in *; lia).
    destruct e; try (do 2 eexists; split; [done|]; split; [lia|done]).
    rewrite Hs, Hns. unfold from_secs, from_nanos. rewrite dadd_ok by (unfold DURATION_END, USIZE, NANOS in *; lia). cbn [obind].
    do 2 eexists. split; [done|]. split; [lia|done].
Qed.

(** The time since [s]. *)
Lemma elapsed_spec t s w :
  clock_type t = Monotonic → as_duration t = Return s → s ≤ clock w →
  ∃ r w', elapsed t w = Return (r, w') ∧ clock w ≤ clock w' ∧ (∀ d, r = Ok d → clock w - s ≤ d ≤ clock w' - s).
Proof.
  intros Hc Hs Hle. unfold elapsed. rewrite Hc. destruct (now_with_clock Monotonic w) as [r w1] eqn:En.
  destruct (now_spec w r w1 En) as [Hw1 Ht]. destruct r as [now|e]; [|by do 2 eexists].
  destruct (Ht now eq_refl) as (_ & n & -> & Hn & _). cbn [obind]. rewrite Hs. cbn [obind]. rewrite dsub_ok by lia. cbn [obind].
  do 2 eexists. split; [done|]. split; [done|]. intros d [= <-]. lia.
Qed.

(** *** Waiting *)

(** [a] waits since [s], and its sleeps have taken the time they should. *)
Record waiting a (s : Z) w : Prop := {
  wt_clock : wait_clock_type a = Monotonic ∧ clock_type (start_time a) = Monotonic;
  wt_start : as_duration (start_time a) = Return s;
  wt_count : 0 ≤ yield_count a;
  wt_past : s ≤ clock w;
  wt_slept : (yield_count a - ADAPTIVE_WAIT_YIELD_REPETITIONS) * ADAPTIVE_WAIT_INITIAL_WAITING_TIME ≤ clock w - s
}.

Lemma adaptive_wait_new_spec w r w' :
  adaptive_wait_new Monotonic w = (r, w') →
  clock w ≤ clock w' ∧ (∀ a, r = Ok a → yield_count a = 0 ∧ ∃ s, clock w ≤ s ∧ waiting a s w').
Proof.
  unfold adaptive_wait_new. destruct (now_with_clock Monotonic w) as [r0 w1] eqn:En.
  destruct (now_spec w r0 w1 En) as [Hw1 Ht]. destruct r0 as [t|e]; intros [= <- <-]; (split; [done|]); [|done].
  intros a [= <-]. destruct (Ht t eq_refl) as (Hc & n & Hn & Hr & _). split; [done|]. exists n. split; [lia|].
  constructor; cbn; try done; [lia|]. unfold ADAPTIVE_WAIT_YIELD_REPETITIONS, ADAPTIVE_WAIT_INITIAL_WAITING_TIME, from_micros. lia.
Qed.

Lemma wait_impl_spec a s w :
  waiting a s w → yield_count a + 1 < USIZE →
  ∃ r a' w', wait_impl a w = Return (r, a', w') ∧ clock w ≤ clock w' ∧ yield_count a' = yield_count a + 1 ∧
    (r = Ok tt → waiting a' s w').
Proof.
  intros [[Hc1 Hc2] Hst Hct Hp Hsl] Hb. unfold wait_impl. rewrite uadd_ok by lia. cbn [obind].
  unfold ADAPTIVE_WAIT_YIELD_REPETITIONS, ADAPTIVE_WAIT_INITIAL_WAITING_TIME, from_micros in *.
  destruct (Z.leb_spec (yield_count a + 1) 10000).
  - pose proof (sched_yield_law w). do 3 eexists. split; [done|]. split; [done|]. split; [done|]. intros _.
    constructor; cbn; try done; [lia..|]. unfold ADAPTIVE_WAIT_YIELD_REPETITIONS, ADAPTIVE_WAIT_INITIAL_WAITING_TIME, from_micros. lia.
  - rewrite Hc1. set (d := if _ <=? ADAPTIVE_WAIT_INITIAL_REPETITIONS then _ else _).
    assert (100000 ≤ d < NANOS) as Hd by (subst d; unfold ADAPTIVE_WAIT_FINAL_WAITING_TIME, from_millis, NANOS; case_match; lia).
    destruct (nanosleep_spec d w ltac:(lia)) as (r & w' & Hn & Hw & Hsleep). cbn [wait_clock_type]. rewrite Hn. cbn [obind].
    do 3 eexists. split; [done|]. split; [done|]. split; [done|]. intros Hr.
    assert (clock w + d ≤ clock w') by (apply Hsleep; destruct r as [[]|]; done).
    constructor; cbn; try done; [lia..|]. unfold ADAPTIVE_WAIT_YIELD_REPETITIONS, ADAPTIVE_WAIT_INITIAL_WAITING_TIME, from_micros. lia.
Qed.

Lemma wait_spec a s w :
  waiting a s w → yield_count a + 1 < USIZE →
  ∃ r a' w', wait a w = Return (r, a', w') ∧ clock w ≤ clock w' ∧ yield_count a' = yield_count a + 1 ∧
    (∀ d, r = Ok d → waiting a' s w' ∧ d ≤ clock w' - s ∧
       (yield_count a' - ADAPTIVE_WAIT_YIELD_REPETITIONS) * ADAPTIVE_WAIT_INITIAL_WAITING_TIME ≤ d).
Proof.
  intros Hwt Hb. destruct (wait_impl_spec a s w Hwt Hb) as (r & a1 & w1 & Hi & Hw1 & Hc & Hr). unfold wait. rewrite Hi. cbn [obind].
  destruct r as [[]|e]; [|by do 3 eexists]. destruct (Hr eq_refl) as [Hclk Hst Hct Hp Hsl].
  destruct (elapsed_spec (start_time a1) s w1 (proj2 Hclk) Hst Hp) as (r & w2 & He & Hw2 & Hd). unfold wait_elapsed. rewrite He. cbn [obind].
  do 3 eexists. split; [done|]. split; [lia|]. split; [done|]. intros d Hd'. destruct r as [d0|]; [|done]. injection Hd' as ->.
  specialize (Hd d eq_refl). split; [|lia]. constructor; try done; lia.
Qed.

Section TimedWait.
Context {T B : Type} (predicate : W → outcome (result bool T * W)) (f : W → B) `{!ClockKeeps f} (good : B → Prop).
Context (predicate_returns : ∀ w, good (f w) → ∃ b w', predicate w = Return (b, w') ∧ clock w ≤ clock w' ∧ (b = Ok true → good (f w'))).

Lemma timed_wait_while_spec (timeout : Duration) a s w fuel :
  waiting a s w → good (f w) → 0 ≤ timeout → (yield_count a - ADAPTIVE_WAIT_YIELD_REPETITIONS) * ADAPTIVE_WAIT_INITIAL_WAITING_TIME ≤ timeout →
  ADAPTIVE_WAIT_YIELD_REPETITIONS + timeout / ADAPTIVE_WAIT_INITIAL_WAITING_TIME + 1 - yield_count a < Z.of_nat fuel →
  ADAPTIVE_WAIT_YIELD_REPETITIONS + timeout / ADAPTIVE_WAIT_INITIAL_WAITING_TIME + 2 < USIZE →
  ∃ r a' w', timed_wait_while fuel predicate timeout a w = Return (r, a', w') ∧
  match r with
  | Ok true => ∃ w0, good (f w0) ∧ predicate w0 = Return (Ok false, w')
  | Ok false => good (f w') ∧ timeout < clock w' - s
  | Err (PredicateFailure e) => ∃ w0, good (f w0) ∧ predicate w0 = Return (Err e, w')
  | Err (WaitFailure e) => good (f w') ∧ ∃ a0 w0, wait a0 w0 = Return (Err e, a', w')
  end.
Proof.
  unfold ADAPTIVE_WAIT_YIELD_REPETITIONS, ADAPTIVE_WAIT_INITIAL_WAITING_TIME, from_micros.
  revert a w. induction fuel as [|fuel IH]; intros a w Hwt Hg Ht Hn Hf Hb.
  - exfalso. assert (yield_count a - 10000 ≤ timeout / (100 * 1000)) by (apply Z.div_le_lower_bound; lia). lia.
  - cbn [timed_wait_while]. destruct (predicate_returns w Hg) as (b & w1 & Ep & Hw1 & Hg1). rewrite Ep. cbn [obind].
    destruct b as [[]|e]; [|by do 3 eexists; split; [done|]; exists w..]. specialize (Hg1 eq_refl).
    assert (waiting a s w1) as Hwt1 by (destruct Hwt; constructor; try done; lia).
    assert (yield_count a - 10000 ≤ timeout / (100 * 1000)) by (apply Z.div_le_lower_bound; lia).
    destruct (wait_spec a s w1 Hwt1 ltac:(lia)) as (r & a2 & w2 & Hwait & Hw2 & Hc2 & Hr). rewrite Hwait. cbn [obind].
    rewrite <- (wait_keeps f _ _ _ _ _ Hwait) in Hg1.
    destruct r as [d|e]; [|do 3 eexists; split; [done|]; split; [done|]; by eexists _, _].
    destruct (Hr d eq_refl) as (Hwt2 & Hd & Hs). unfold ADAPTIVE_WAIT_YIELD_REPETITIONS, ADAPTIVE_WAIT_INITIAL_WAITING_TIME, from_micros in Hs.
    destruct (Z.ltb_spec timeout d).
    + do 3 eexists. split; [done|]. split; [done|lia].
    + apply (IH a2 w2 Hwt2 Hg1 Ht); lia.
Qed.
End TimedWait.

(** C32. Waiting with a timeout on the monotonic clock ends: whatever the predicate, the
    speed of the clock and the scheduler do, after the rounds in which it only yields and one round for every 100 microseconds
    of the timeout the wait has returned. It says [true] right after the predicate said
    that there is nothing more to wait for, [false] only when more time than the timeout
    has passed since the wait was created, and an error when the predicate or the
    operating system reported one; nothing panics. (The realtime clock can be set back, and
    then the wait panics: [clock_set_back_panics].) *)
Theorem timed_wait_while_ends {T} (predicate : W → outcome (result bool T * W)) (timeout : Duration) a s w fuel :
  (∀ w, ∃ b w', predicate w = Return (b, w') ∧ clock w ≤ clock w') →
  waiting a s w → 0 ≤ timeout → (yield_count a - ADAPTIVE_WAIT_YIELD_REPETITIONS) * ADAPTIVE_WAIT_INITIAL_WAITING_TIME ≤ timeout →
  ADAPTIVE_WAIT_YIELD_REPETITIONS + timeout / ADAPTIVE_WAIT_INITIAL_WAITING_TIME + 1 - yield_count a < Z.of_nat fuel →
  ADAPTIVE_WAIT_YIELD_REPETITIONS + timeout / ADAPTIVE_WAIT_INITIAL_WAITING_TIME + 2 < USIZE →
  ∃ r a' w', timed_wait_while fuel predicate timeout a w = Return (r, a', w') ∧
  match r with
  | Ok true => ∃ w0, predicate w0 = Return (Ok false, w')
  | Ok false => timeout < clock w' - s
  | Err (PredicateFailure e) => ∃ w0, predicate w0 = Return (Err e, w')
  | Err (WaitFailure e) => ∃ a0 w0, wait a0 w0 = Return (Err e, a', w')
  end.
Proof.
  intros Hpred Hwt Ht Hn Hf Hb. assert (ClockKeeps (λ _ : W, tt)) as Hk by done.
  destruct (timed_wait_while_spec predicate (λ _, tt) (λ _, True)) with (timeout := timeout) (a := a) (s := s) (w := w) (fuel := fuel)
    as (r & a' & w' & Hr & Hre); try done.
  { intros w0 _. destruct (Hpred w0) as (b & w' & H1 & H2). by exists b, w'. }
  exists r, a', w'. split; [exact Hr|]. destruct r as [[]|[]]; naive_solver.
Qed.

Section Timed.
Context {X A E B : Type} (attempt : X → W → outcome (result (option A) E * X * W)) (f : W → B) `{!ClockKeeps f} (good : X → B → Prop).
(** An attempt never waits and never panics where things are [good], and they remain it
    as long as there is nothing to get. *)
Context (attempt_returns : ∀ x w, good x (f w) → ∃ r x' w', attempt x w = Return (r, x', w') ∧ clock w ≤ clock w' ∧ (r = Ok None → good x' (f w'))).

(** Why an operation with a timeout that was started when the clock said [s] came back with [r]. *)
Definition timed_reason (timeout s : Z) (r : result (option A) (TimedError E)) x' w' : Prop :=
  match r with
  | Ok (Some v) => ∃ x0 w0, good x0 (f w0) ∧ attempt x0 w0 = Return (Ok (Some v), x', w')
  | Ok None => good x' (f w') ∧ timeout ≤ clock w' - s
  | Err (TransferError e) => ∃ x0 w0, good x0 (f w0) ∧ attempt x0 w0 = Return (Err e, x', w')
  | Err (AdaptiveError e) => good x' (f w') ∧ ∃ a0 a' w0, wait a0 w0 = Return (Err e, a', w')
  | Err (TimedTimeError e) => good x' (f w') ∧ ∃ c w0, now_with_clock c w0 = (Err e, w')
  end.

Lemma timed_loop_ends time s0 a s timeout fuel x w :
  clock_type time = Monotonic → as_duration time = Return s0 → s0 ≤ s → waiting a s w → good x (f w) → 0 ≤ timeout →
  ADAPTIVE_WAIT_YIELD_REPETITIONS + timeout / ADAPTIVE_WAIT_INITIAL_WAITING_TIME + 2 < USIZE →
  0 < Z.of_nat fuel → ADAPTIVE_WAIT_YIELD_REPETITIONS + timeout / ADAPTIVE_WAIT_INITIAL_WAITING_TIME + 1 - yield_count a < Z.of_nat fuel →
  ∃ r x' w', timed_loop fuel attempt time timeout a x w = Return (r, x', w') ∧ timed_reason timeout s0 r x' w'.
Proof.
  intros Htm Hs0 Hle. unfold ADAPTIVE_WAIT_YIELD_REPETITIONS, ADAPTIVE_WAIT_INITIAL_WAITING_TIME, from_micros.
  revert a x w. induction fuel as [|fuel IH]; intros a x w Hwt Hh Ht Hb Hf0 Hf; [done|].
  cbn [timed_loop]. destruct (attempt_returns x w Hh) as (r & x1 & w1 & Ha & Hw1 & Hh1). rewrite Ha. cbn [obind].
  destruct r as [[v|]|e]; [by do 3 eexists; split; [done|]; exists x, w| |by do 3 eexists; split; [done|]; exists x, w].
  specialize (Hh1 eq_refl).
  pose proof (wt_past _ _ _ Hwt) as Hp. pose proof (wt_slept _ _ _ Hwt) as Hsl.
  unfold ADAPTIVE_WAIT_YIELD_REPETITIONS, ADAPTIVE_WAIT_INITIAL_WAITING_TIME, from_micros in Hsl.
  assert (s0 ≤ clock w1) as Hsw by lia. destruct (elapsed_spec time s0 w1 Htm Hs0 Hsw) as (r & w2 & He & Hw2 & Hd). rewrite He. cbn [obind].
  assert (good x1 (f w2)) as Hh2 by by rewrite (elapsed_keeps f _ _ _ _ He).
  destruct r as [d|e].
  2:{ do 3 eexists. split; [done|]. split; [done|]. exists (clock_type time), w1. revert He. unfold elapsed.
      destruct (now_with_clock (clock_type time) w1) as [[n|e'] w3]; [|by intros [= -> ->]].
      destruct (as_duration n), (as_duration time); cbn; try done. by destruct (dsub _ _). }
  specialize (Hd d eq_refl). destruct (Z.ltb_spec d timeout); [|do 3 eexists; split; [done|]; split; [done|lia]].
  assert (yield_count a - 10000 ≤ timeout / (100 * 1000)) by (apply Z.div_le_lower_bound; lia).
  assert (waiting a s w2) as Hwt2 by (destruct Hwt; constructor; try done; lia).
  destruct (wait_spec a s w2 Hwt2 ltac:(lia)) as (r & a' & w3 & Hwait & Hw3 & Hc3 & Hr). rewrite Hwait. cbn [obind].
  assert (good x1 (f w3)) as Hh3 by by rewrite (wait_keeps f _ _ _ _ _ Hwait).
  destruct r as [d'|e]; [|by do 3 eexists; split; [done|]; split; [done|]; exists a, a', w2].
  destruct (Hr d' eq_refl) as (Hwt3 & Hd' & Hs'). destruct fuel as [|fuel]; [exfalso; lia|]. apply IH; try done; lia.
Qed.

Lemma timed_ends timeout fuel x w :
  good x (f w) → 0 ≤ timeout →
  ADAPTIVE_WAIT_YIELD_REPETITIONS + timeout / ADAPTIVE_WAIT_INITIAL_WAITING_TIME + 2 < USIZE →
  ADAPTIVE_WAIT_YIELD_REPETITIONS + timeout / ADAPTIVE_WAIT_INITIAL_WAITING_TIME + 1 < Z.of_nat fuel →
  ∃ r x' w', timed fuel attempt timeout x w = Return (r, x', w') ∧ timed_reason timeout (clock w) r x' w'.
Proof.
  intros Hh Ht Hb Hf. unfold timed. pose proof (now_keeps f Monotonic w) as Hf1.
  destruct (now_with_clock Monotonic w) as [r w1] eqn:En. destruct (now_spec _ _ _ En) as [Hw1 Hn]. cbn [snd] in Hf1. rewrite <- Hf1 in Hh.
  destruct r as [time|e]; [|by do 3 eexists; split; [done|]; split; [done|]; exists Monotonic, w].
  destruct (Hn time eq_refl) as (Htm & s0 & Hs0 & Hs0r & _). clear Hn.
  destruct (adaptive_wait_new Monotonic w1) as [r w2] eqn:Ea. destruct (adaptive_wait_new_spec _ _ _ Ea) as [Hw2 Hwt].
  pose proof (now_keeps f Monotonic w1) as Hf2. unfold adaptive_wait_new in Ea. destruct (now_with_clock Monotonic w1) as [r1 w2'] eqn:En2.
  assert (w2' = w2 ∧ good x (f w2)) as [-> Hh2].
  { cbn in Hf2. rewrite <- Hf2 in Hh. destruct r1; injection Ea as <- <-; by split. }
  destruct r as [a|e].
  2:{ destruct r1; [done|]. injection Ea as ->. by do 3 eexists; split; [done|]; split; [done|]; exists Monotonic, w1. }
  destruct (Hwt a eq_refl) as (Hy & s & Hs & Hwait).
  destruct (timed_loop_ends time s0 a s timeout fuel x w2 Htm Hs0 ltac:(lia) Hwait Hh2 Ht Hb) as (r & x' & w' & Hl & Hr).
  - unfold ADAPTIVE_WAIT_YIELD_REPETITIONS, ADAPTIVE_WAIT_INITIAL_WAITING_TIME, from_micros in *.
    assert (0 ≤ timeout / (100 * 1000)) by (by apply Z.div_pos). lia.
  - rewrite Hy. lia.
  - do 3 eexists. split; [done|]. destruct r as [[v|]|[]]; try done. unfold timed_reason in *. destruct Hr as [? ?]. split; [done|lia].
Qed.
End Timed.
End Theorems.

(** A clock that is set back, as the realtime clock can be: the difference of two points
    in time panics, in every build. *)
Theorem clock_set_back_panics {W} `{!ClockOs W} t (ts : timespec) w w' :
  clock_gettime (clock_type t) w = (Ok ts, w') → timespec_ok ts →
  0 ≤ seconds t < 2 ^ 62 → 0 ≤ nanoseconds t < NANOS → to_nanos ts < seconds t * NANOS + nanoseconds t → elapsed t w = Panic.
Proof.
  intros Hg [Hs Hn] Hts Htn Hlt. unfold elapsed, now_with_clock. rewrite Hg. unfold as_duration. cbn [seconds nanoseconds].
  assert (wrap USIZE (tv_sec ts) = tv_sec ts) as -> by (apply Z.mod_small; unfold USIZE; lia).
  assert (wrap U32 (tv_nsec ts) = tv_nsec ts) as -> by (apply Z.mod_small; unfold U32, NANOS in *; lia).
  unfold from_secs, from_nanos, to_nanos in *. rewrite !dadd_ok by (unfold DURATION_END, USIZE, NANOS in *; lia). cbn [obind].
  unfold dsub. by rewrite (proj2 (Z.leb_gt _ _)).
Qed.

(** ** A clock *)

Section Sample.
#[local] Instance clock_checked : Profile := true.

(** Every call takes a nanosecond, until the clock stops; sleeping takes as long as it is asked to. *)
Definition SampleClock := Z.
Definition tick (w : SampleClock) : SampleClock := Z.min (w + 1) (CLOCK_END - 1) `max` w.
Definition timespec_of (n : Z) : timespec := mkTimespec (n / NANOS) (n mod NANOS).

#[export] Instance sample_os : ClockOs SampleClock := {
  clock_gettime _ w := (if (0 <=? w) && (w <? CLOCK_END) then Ok (timespec_of w) else Err (Other 0), tick w);
  clock_nanosleep _ ts w := (Ok tt, mkTimespec 0 0, Z.max w (to_nanos ts));
  sched_yield w := tick w
}.

#[export] Instance sample_laws : ClockLaws SampleClock.
Proof.
  refine {| clock w := w |}.
  - intros w r w' [= <- <-]. unfold tick. split; [lia|]. intros ts Hts. destruct (Z.leb_spec 0 w); [|done].
    destruct (Z.ltb_spec w CLOCK_END); [|done]. injection Hts as <-. unfold timespec_ok, timespec_of, to_nanos. cbn [tv_sec tv_nsec].
    pose proof (Z.mod_pos_bound w NANOS ltac:(done)). pose proof (Z.div_mod w NANOS ltac:(done)).
    assert (0 ≤ w / NANOS < 2 ^ 62) by (split; [apply Z.div_pos; [lia|done]|apply Z.div_lt_upper_bound; [done|unfold CLOCK_END in *; lia]]). lia.
  - intros ts w r left w' [= <- <- <-]. split; [lia|]. split; [|intros _; lia]. unfold timespec_ok. cbn. unfold NANOS. lia.
  - intros w. cbn. unfold tick. lia.
Defined.

(** The same with something else beside it, which the clock does not touch. *)
Section Beside.
Context {S : Type}.
#[export] Instance beside_os : ClockOs (SampleClock * S) := {
  clock_gettime c w := let '(r, n) := clock_gettime c w.1 in (r, (n, w.2));
  clock_nanosleep c ts w := let '(r, rest, n) := clock_nanosleep c ts w.1 in (r, rest, (n, w.2));
  sched_yield w := (sched_yield w.1, w.2)
}.
#[export] Instance beside_laws : ClockLaws (SampleClock * S).
Proof.
  refine {| clock := λ w, clock w.1 |}.
  - intros w r w'. cbn -[clock]. intros [= <- <-]. exact (clock_gettime_law w.1 _ _ eq_refl).
  - intros ts w r rest w'. cbn -[clock]. intros [= <- <- <-]. exact (clock_nanosleep_law ts w.1 _ _ _ eq_refl).
  - intros w. apply (sched_yield_law w.1).
Defined.
#[export] Instance beside_keeps {B} (f : S → B) : ClockKeeps (λ w : SampleClock * S, f w.2).
Proof. by split. Qed.
End Beside.

Lemma timed_wait_while_ends_witness :
  ∃ r a w', timed_wait_while (T := unit) (Z.to_nat 10012) (λ w, Return (Ok true, w)) (from_millis 1)
    (mkAdaptiveWait 0 Monotonic (mkTime Monotonic 5 0)) (5 * NANOS) = Return (r, a, w').
Proof.
  destruct (timed_wait_while_ends (T := unit) (λ w, Return (Ok true, w)) (from_millis 1) (mkAdaptiveWait 0 Monotonic (mkTime Monotonic 5 0))
    (5 * NANOS) (5 * NANOS) (Z.to_nat 10012)) as (r & a & w' & H & _).
  - intros w. by exists (Ok true), w.
  - constructor; try done; reflexivity.
  - done.
  - done.
  - rewrite Z2Nat.id by lia. reflexivity.
  - reflexivity.
  - exists r, a, w'. exact H.
Defined.

Lemma clock_set_back_panics_witness : elapsed (W := SampleClock) (mkTime Realtime 5 0) 7 = Panic.
Proof. apply (clock_set_back_panics (mkTime Realtime 5 0) (timespec_of 7) 7 8); [reflexivity|by vm_compute|by vm_compute|by vm_compute|by vm_compute]. Defined.
End Sample.
