(* ===== verification/MessageQueue.v ===== *)
(** * elkodon_bb/posix/src/message_queue.rs

    Message queues of the operating system, with messages of one type: opening and
    creating them, sending and receiving without waiting, with a timeout, and with waiting.
    The queues are an interface ([MessageQueueOs]) with what POSIX says about them
    ([MessageQueueLaws]).

    The theorems: what the non-blocking operations do to the queue, whatever was called
    before; a timeout on the monotonic clock is kept; one on the realtime clock is not. *)

From Stdlib Require Import Sorted.
From S2P Require Import Prelude Clock.

Inductive TransmissionMode := Sending | Receiving | SendingAndReceiving.
Inductive CreationMode := CreateExclusive | PurgeAndCreate | OpenOrCreate.

Inductive MessageQueueRemoveError := RemovePermissionDenied | RemoveDoesNotExist | RemoveInterrupt | RemoveUnknownError (e : Errno).
Inductive MessageQueueOpenError :=
| OpenDoesNotExist | OpenInterrupt | OpenPermissionDenied | OpenPerProcessFileHandleLimitReached | OpenSystemMessageQueueLimitReached
| CapacitySmallerThanRequired | MessageSizeDoesNotFit | OpenUnknownError (e : Errno).
Inductive MessageQueueCreationError :=
| AlreadyExist | PermissionDenied | Interrupt | InvalidMessageSizeOrNumberOfMessages | PerProcessFileHandleLimitReached
| SystemMessageQueueLimitReached | OutOfResources | UnknownError (e : Errno)
| CreateRemoveError (e : MessageQueueRemoveError) | CreateOpenError (e : MessageQueueOpenError).
Inductive MessageQueueSendError := QueueIsFull | SendInterrupt | PriorityIsInvalid | SendUnknownError (e : Errno).
Inductive MessageQueueReceiveError := CorruptedMessageReceived | MessageSizeInconsistencies | ReceiveInterrupt | ReceiveUnknownError (e : Errno).

Record Message := mkMessage { value : Z; priority : Z }.

Definition DEFAULT_MESSAGE_QUEUE_CAPACITY : Z := 8.

(** A name is a byte string; the operating system wants a slash in front. *)
Definition Name := list Z.
Definition add_slash (n : Name) : Name := 47 :: n.

Record MessageQueueBuilder := mkBuilder {
  b_name : Name;
  b_capacity : Z;
  b_permissions : Z;
  b_clock_type : ClockType;
  b_max_message_size : Z;
  b_transmission_mode : TransmissionMode
}.
Definition builder_new (n : Name) (owner_all : Z) (default : ClockType) : MessageQueueBuilder :=
  mkBuilder n DEFAULT_MESSAGE_QUEUE_CAPACITY owner_all default 0 Sending.
Definition set_capacity (b : MessageQueueBuilder) v := mkBuilder (b_name b) v (b_permissions b) (b_clock_type b) (b_max_message_size b) (b_transmission_mode b).
Definition set_clock_type (b : MessageQueueBuilder) v := mkBuilder (b_name b) (b_capacity b) (b_permissions b) v (b_max_message_size b) (b_transmission_mode b).
Definition set_permissions (b : MessageQueueBuilder) v := mkBuilder (b_name b) (b_capacity b) v (b_clock_type b) (b_max_message_size b) (b_transmission_mode b).
Definition set_message_size (b : MessageQueueBuilder) v := mkBuilder (b_name b) (b_capacity b) (b_permissions b) (b_clock_type b) v (b_transmission_mode b).
Definition set_mode (b : MessageQueueBuilder) v := mkBuilder (b_name b) (b_capacity b) (b_permissions b) (b_clock_type b) (b_max_message_size b) v.

Record MessageQueue := mkMessageQueue {
  mqdes : Z;
  mq_name : Name;
  mq_capacity : Z;
  has_ownership : bool;
  is_non_blocking : bool;
  mq_clock_type : ClockType
}.
Definition set_non_blocking (q : MessageQueue) (b : bool) : MessageQueue :=
  mkMessageQueue (mqdes q) (mq_name q) (mq_capacity q) (has_ownership q) b (mq_clock_type q).

Record mq_attr := mkAttr { mq_maxmsg : Z; mq_msgsize : Z; mq_curmsgs : Z }.

(** The operating system. A message that is received comes with its length. *)
Class MessageQueueOs (W : Type) := {
  mq_open4 : Name → TransmissionMode → Z → mq_attr → W → result Z Errno * W;
  mq_open2 : Name → TransmissionMode → W → result Z Errno * W;
  mq_getattr : Z → W → option mq_attr;
  mq_setattr : Z → bool → W → bool * W;
  mq_unlink_ : Name → W → result unit Errno * W;
  mq_close : Z → W → bool * W;
  mq_send : Z → Z → Z → Z → W → result unit Errno * W;
  mq_timedsend : Z → Z → Z → Z → timespec → W → result unit Errno * W;
  mq_receive : Z → Z → W → result (Message * Z) Errno * W;
  mq_timedreceive : Z → Z → timespec → W → result (Message * Z) Errno * W
}.

Section Operations.
Context `{P : Profile} {W : Type} `{!ClockOs W, !MessageQueueOs W}.
(** [size_of::<T>()] *)
Context (size_of : Z).
Implicit Types (w : W) (b : MessageQueueBuilder) (q : MessageQueue).

(** ** mod internal *)

Definition create_attributes b : mq_attr := mkAttr (b_capacity b) (b_max_message_size b) 0.

Definition mq_create b w : result Z MessageQueueCreationError * W :=
  let '(r, w) := mq_open4 (add_slash (b_name b)) (b_transmission_mode b) (b_permissions b) (create_attributes b) w in
  (match r with
   | Ok d => Ok d
   | Err EEXIST => Err AlreadyExist
   | Err EACCES => Err PermissionDenied
   | Err EINTR => Err Interrupt
   | Err EINVAL => Err InvalidMessageSizeOrNumberOfMessages
   | Err EMFILE => Err PerProcessFileHandleLimitReached
   | Err ENFILE => Err SystemMessageQueueLimitReached
   | Err ENOSPC => Err OutOfResources
   | Err v => Err (UnknownError v)
   end, w).

(** The builder gets the capacity of the queue. *)
Definition mq_open b w : outcome (result Z MessageQueueOpenError * MessageQueueBuilder * W) :=
  let '(r, w) := mq_open2 (add_slash (b_name b)) (b_transmission_mode b) w in
  match r with
  | Ok d =>
      match mq_getattr d w with
      | None => Panic
      | Some existing =>
          if mq_maxmsg existing <? b_capacity b then Return (Err CapacitySmallerThanRequired, b, w)
          else if negb (mq_msgsize existing =? b_max_message_size b) then Return (Err MessageSizeDoesNotFit, b, w)
          else Return (Ok d, set_capacity b (mq_maxmsg existing), w)
      end
  | Err ENOENT => Return (Err OpenDoesNotExist, b, w)
  | Err EACCES => Return (Err OpenPermissionDenied, b, w)
  | Err EINTR => Return (Err OpenInterrupt, b, w)
  | Err EMFILE => Return (Err OpenPerProcessFileHandleLimitReached, b, w)
  | Err ENFILE => Return (Err OpenSystemMessageQueueLimitReached, b, w)
  | Err v => Return (Err (OpenUnknownError v), b, w)
  end.

Definition mq_set_nonblock q (v : bool) w : outcome (MessageQueue * W) :=
  if bool_decide (is_non_blocking q = v) then Return (q, w)
  else
    let '(ok, w) := mq_setattr (mqdes q) v w in
    if ok : bool then Return (set_non_blocking q v, w) else Panic.

Definition mq_unlink (n : Name) w : result unit MessageQueueRemoveError * W :=
  let '(r, w) := mq_unlink_ (add_slash n) w in
  (match r with
   | Ok _ => Ok tt
   | Err ENOENT => Err RemoveDoesNotExist
   | Err EACCES => Err RemovePermissionDenied
   | Err EINTR => Err RemoveInterrupt
   | Err v => Err (RemoveUnknownError v)
   end, w).

Definition queue_of b d (owner : bool) : MessageQueue := mkMessageQueue d (b_name b) (b_capacity b) owner false (b_clock_type b).

Definition create b (mode : CreationMode) w : outcome (result MessageQueue MessageQueueCreationError * W) :=
  let b := set_message_size b size_of in
  match mode with
  | CreateExclusive =>
      let '(r, w) := mq_create b w in
      Return (match r with Ok d => Ok (queue_of b d true) | Err e => Err e end, w)
  | PurgeAndCreate =>
      let '(r, w) := mq_unlink (b_name b) w in
      match r with
      | Ok _ | Err RemoveDoesNotExist =>
          let '(r, w) := mq_create b w in
          Return (match r with Ok d => Ok (queue_of b d true) | Err e => Err e end, w)
      | Err v => Return (Err (CreateRemoveError v), w)
      end
  | OpenOrCreate =>
      let! '(r, b, w) := mq_open b w in
      match r with
      | Ok d => Return (Ok (queue_of b d false), w)
      | Err OpenDoesNotExist =>
          let '(r, w) := mq_create b w in
          Return (match r with Ok d => Ok (queue_of b d true) | Err e => Err e end, w)
      | Err v => Return (Err (CreateOpenError v), w)
      end
  end.

Definition open b w : outcome (result MessageQueue MessageQueueOpenError * W) :=
  let! '(r, b, w) := mq_open (set_message_size b size_of) w in
  Return (match r with Ok d => Ok (queue_of b d false) | Err e => Err e end, w).

Definition drop q w : outcome W :=
  let w := if has_ownership q then (mq_unlink (mq_name q) w).2 else w in
  let '(ok, w) := mq_close (mqdes q) w in
  if ok : bool then Return w else Panic.

Definition create_sender b mode w := create (set_mode b Sending) mode w.
Definition create_receiver b mode w := create (set_mode b Receiving) mode w.
Definition create_duplex b mode w := create (set_mode b SendingAndReceiving) mode w.
Definition open_sender b w := open (set_mode b Sending) w.
Definition open_receiver b w := open (set_mode b Receiving) w.
Definition open_duplex b w := open (set_mode b SendingAndReceiving) w.

Definition remove_message_queue (n : Name) w := mq_unlink n w.

(** The sender that tells that the queue exists is dropped. *)
Definition does_message_queue_exist (n : Name) (owner_all : Z) (default : ClockType) w : outcome (result bool MessageQueueOpenError * W) :=
  let! '(r, w) := open_sender (builder_new n owner_all default) w in
  match r with
  | Ok q => let! w := drop q w in Return (Ok true, w)
  | Err OpenDoesNotExist => Return (Ok false, w)
  | Err v => Return (Err v, w)
  end.

Definition len q w : outcome Z := match mq_getattr (mqdes q) w with Some a => Return (mq_curmsgs a) | None => Panic end.
Definition is_empty q w : outcome bool := match mq_getattr (mqdes q) w with Some a => Return (mq_curmsgs a =? 0) | None => Panic end.

(** ** Sending *)

Definition send_error (e : Errno) : MessageQueueSendError :=
  match e with EINTR => SendInterrupt | EINVAL => PriorityIsInvalid | v => SendUnknownError v end.

Definition internal_send_with_prio q (v prio : Z) (non_blocking : bool) w
    : outcome (result bool MessageQueueSendError * MessageQueue * W) :=
  let! '(q, w) := mq_set_nonblock q non_blocking w in
  let '(r, w) := mq_send (mqdes q) v size_of prio w in
  Return (match r with Ok _ => Ok true | Err EAGAIN => Ok false | Err e => Err (send_error e) end, q, w).

Definition try_send_with_prio q v prio w := internal_send_with_prio q v prio true w.
Definition try_send q v w := try_send_with_prio q v 0 w.

Definition blocking_send_with_prio q v prio w : outcome (result unit MessageQueueSendError * MessageQueue * W) :=
  let! '(r, q, w) := internal_send_with_prio q v prio false w in
  Return (match r with Ok _ => Ok tt | Err e => Err e end, q, w).
Definition blocking_send q v w := blocking_send_with_prio q v 0 w.

(** ** Receiving *)

Definition receive_error (e : Errno) : MessageQueueReceiveError :=
  match e with
  | EMSGSIZE => MessageSizeInconsistencies | EINTR => ReceiveInterrupt | EBADMSG => CorruptedMessageReceived
  | v => ReceiveUnknownError v
  end.

Definition internal_receive q (non_blocking : bool) w
    : outcome (result (option Message) MessageQueueReceiveError * MessageQueue * W) :=
  let! '(q, w) := mq_set_nonblock q non_blocking w in
  let '(r, w) := mq_receive (mqdes q) size_of w in
  Return (match r with
          | Ok (m, bytes) => if negb (bytes =? size_of) then Err CorruptedMessageReceived else Ok (Some m)
          | Err EAGAIN => Ok None
          | Err e => Err (receive_error e)
          end, q, w).

Definition try_receive q w := internal_receive q true w.

Definition blocking_receive q w : outcome (result Message MessageQueueReceiveError * MessageQueue * W) :=
  let! '(r, q, w) := internal_receive q false w in
  match r with
  | Err e => Return (Err e, q, w)
  | Ok None => Panic
  | Ok (Some m) => Return (Ok m, q, w)
  end.

(** ** Timeouts *)

(** A successful send has nothing to tell. *)
Definition attempt_send (v prio : Z) q w : outcome (result (option unit) MessageQueueSendError * MessageQueue * W) :=
  let! '(r, q, w) := try_send_with_prio q v prio w in
  Return (match r with Ok true => Ok (Some tt) | Ok false => Ok None | Err e => Err e end, q, w).

Definition timed_send_with_prio (fuel : nat) q (v : Z) (timeout : Duration) (prio : Z) w
    : outcome (result bool (TimedError MessageQueueSendError) * MessageQueue * W) :=
  match mq_clock_type q with
  | Realtime =>
      let! '(q, w) := mq_set_nonblock q false w in
      let '(r, w) := mq_timedsend (mqdes q) v size_of prio (duration_as_timespec timeout) w in
      Return (match r with
              | Ok _ => Ok true
              | Err EAGAIN | Err ETIMEDOUT => Ok false
              | Err e => Err (TransferError (send_error e))
              end, q, w)
  | Monotonic =>
      let! '(r, q, w) := timed fuel (attempt_send v prio) timeout q w in
      Return (match r with Ok (Some _) => Ok true | Ok None => Ok false | Err e => Err e end, q, w)
  end.
Definition timed_send fuel q v timeout w := timed_send_with_prio fuel q v timeout 0 w.

Definition timed_receive (fuel : nat) q (timeout : Duration) w
    : outcome (result (option Message) (TimedError MessageQueueReceiveError) * MessageQueue * W) :=
  match mq_clock_type q with
  | Realtime =>
      let! '(q, w) := mq_set_nonblock q false w in
      let '(r, w) := mq_timedreceive (mqdes q) size_of (duration_as_timespec timeout) w in
      Return (match r with
              | Ok (m, bytes) => if negb (bytes =? size_of) then Err (TransferError CorruptedMessageReceived) else Ok (Some m)
              | Err EAGAIN | Err ETIMEDOUT => Ok None
              | Err e => Err (TransferError (receive_error e))
              end, q, w)
  | Monotonic => timed fuel try_receive timeout q w
  end.
End Operations.

(** ** What POSIX says

    The queues of the operating system: names, queues, and the descriptors of this
    process. Every message is stored with its length. *)

Record KFd := mkFd { fd_queue : Z; fd_mode : TransmissionMode; fd_nonblock : bool }.
Record KQueue := mkQueue { kq_maxmsg : Z; kq_msgsize : Z; kq_msgs : list (Message * Z) }.
Record Kernel := mkKernel { k_names : gmap Name Z; k_queues : gmap Z KQueue; k_fds : gmap Z KFd }.

Definition set_fds (k : Kernel) (fds : gmap Z KFd) : Kernel := mkKernel (k_names k) (k_queues k) fds.
Definition set_msgs (id : Z) (K : KQueue) (l : list (Message * Z)) (k : Kernel) : Kernel :=
  mkKernel (k_names k) (<[id := mkQueue (kq_maxmsg K) (kq_msgsize K) l]> (k_queues k)) (k_fds k).

(** The oldest message of the highest priority comes first. *)
Fixpoint enqueue {A} (prio : A → Z) (m : A) (l : list A) : list A :=
  match l with
  | [] => [m]
  | x :: l' => if prio x <? prio m then m :: x :: l' else x :: enqueue prio m l'
  end.
Definition kprio (m : Message * Z) : Z := priority m.1.

(** The descriptor [d] has the queue [K], and may be used to send or to receive. *)
Definition can_send (m : TransmissionMode) : bool := match m with Receiving => false | _ => true end.
Definition can_receive (m : TransmissionMode) : bool := match m with Sending => false | _ => true end.
Definition descriptor (k : Kernel) (d : Z) (fd : KFd) (K : KQueue) : Prop :=
  k_fds k !! d = Some fd ∧ k_queues k !! fd_queue fd = Some K.

(** [realtime w]: the nanoseconds the realtime clock shows. The other processes can change
    the queues while this one waits, but not its descriptors. *)
Class MessageQueueLaws (W : Type) `{!ClockOs W, !ClockLaws W, !MessageQueueOs W} := {
  kernel : W → Kernel;
  realtime : W → Z;
  mq_prio_max : Z;
  mq_prio_max_law : 32 ≤ mq_prio_max;
  clock_keeps_fds :: ClockKeeps (λ w, k_fds (kernel w));
  mq_open4_law n m p a w r w' :
    mq_open4 n m p a w = (r, w') →
    match r with
    | Ok d => ∃ id, k_names (kernel w) !! n = None ∧ k_fds (kernel w) !! d = None ∧ k_queues (kernel w) !! id = None ∧
        kernel w' = mkKernel (<[n := id]> (k_names (kernel w))) (<[id := mkQueue (mq_maxmsg a) (mq_msgsize a) []]> (k_queues (kernel w)))
                             (<[d := mkFd id m false]> (k_fds (kernel w)))
    | Err e => kernel w' = kernel w ∧ (e = EEXIST → is_Some (k_names (kernel w) !! n))
    end;
  mq_open2_law n m w r w' :
    mq_open2 n m w = (r, w') →
    match r with
    | Ok d => ∃ id, k_names (kernel w) !! n = Some id ∧ k_fds (kernel w) !! d = None ∧
        kernel w' = set_fds (kernel w) (<[d := mkFd id m false]> (k_fds (kernel w)))
    | Err e => kernel w' = kernel w ∧ (e = ENOENT → k_names (kernel w) !! n = None)
    end;
  mq_getattr_law d fd K w :
    descriptor (kernel w) d fd K → mq_getattr d w = Some (mkAttr (kq_maxmsg K) (kq_msgsize K) (Z.of_nat (length (kq_msgs K))));
  mq_setattr_law d v fd w :
    k_fds (kernel w) !! d = Some fd →
    ∃ w', mq_setattr d v w = (true, w') ∧ clock w ≤ clock w' ∧
      kernel w' = set_fds (kernel w) (<[d := mkFd (fd_queue fd) (fd_mode fd) v]> (k_fds (kernel w)));
  mq_unlink_law n w r w' :
    mq_unlink_ n w = (r, w') →
    match r with
    | Ok _ => is_Some (k_names (kernel w) !! n) ∧ kernel w' = mkKernel (delete n (k_names (kernel w))) (k_queues (kernel w)) (k_fds (kernel w))
    | Err e => kernel w' = kernel w ∧ (e = ENOENT → k_names (kernel w) !! n = None)
    end;
  mq_close_law d fd w :
    k_fds (kernel w) !! d = Some fd → ∃ w', mq_close d w = (true, w') ∧ kernel w' = set_fds (kernel w) (delete d (k_fds (kernel w)));
  (** whatever happens, a call only changes queues *)
  mq_send_frame d v size prio w r w' : mq_send d v size prio w = (r, w') → clock w ≤ clock w' ∧ k_fds (kernel w') = k_fds (kernel w);
  mq_receive_frame d size w r w' : mq_receive d size w = (r, w') → clock w ≤ clock w' ∧ k_fds (kernel w') = k_fds (kernel w);
  mq_send_law d v size prio fd K w r w' :
    descriptor (kernel w) d fd K → can_send (fd_mode fd) → fd_nonblock fd = true → size ≤ kq_msgsize K → 0 ≤ prio < mq_prio_max →
    mq_send d v size prio w = (r, w') →
    if Z.of_nat (length (kq_msgs K)) <? kq_maxmsg K
    then r = Ok tt ∧ kernel w' = set_msgs (fd_queue fd) K (enqueue kprio (mkMessage v prio, size) (kq_msgs K)) (kernel w)
    else r = Err EAGAIN ∧ kernel w' = kernel w;
  mq_timedsend_law d v size prio ts fd K w r w' :
    descriptor (kernel w) d fd K → can_send (fd_mode fd) → size ≤ kq_msgsize K → 0 ≤ prio < mq_prio_max →
    timespec_ok ts → to_nanos ts ≤ realtime w →
    mq_timedsend d v size prio ts w = (r, w') →
    if Z.of_nat (length (kq_msgs K)) <? kq_maxmsg K
    then r = Ok tt ∧ kernel w' = set_msgs (fd_queue fd) K (enqueue kprio (mkMessage v prio, size) (kq_msgs K)) (kernel w)
    else r = Err (if fd_nonblock fd then EAGAIN else ETIMEDOUT) ∧ kernel w' = kernel w;
  mq_receive_law d size fd K w r w' :
    descriptor (kernel w) d fd K → can_receive (fd_mode fd) → fd_nonblock fd = true → kq_msgsize K ≤ size →
    mq_receive d size w = (r, w') →
    match kq_msgs K with
    | m :: l => r = Ok m ∧ kernel w' = set_msgs (fd_queue fd) K l (kernel w)
    | [] => r = Err EAGAIN ∧ kernel w' = kernel w
    end;
  mq_timedreceive_law d size ts fd K w r w' :
    descriptor (kernel w) d fd K → can_receive (fd_mode fd) → kq_msgsize K ≤ size → timespec_ok ts → to_nanos ts ≤ realtime w →
    mq_timedreceive d size ts w = (r, w') →
    match kq_msgs K with
    | m :: l => r = Ok m ∧ kernel w' = set_msgs (fd_queue fd) K l (kernel w)
    | [] => r = Err (if fd_nonblock fd then EAGAIN else ETIMEDOUT) ∧ kernel w' = kernel w
    end
}.

Section Theorems.
Context `{P : Profile} {W : Type} `{!ClockOs W, !ClockLaws W, !MessageQueueOs W, !MessageQueueLaws W}.
Context (size_of : Z).
Implicit Types (w : W) (q : MessageQueue) (k : Kernel).

(** [q] is a handle of the queue [id], opened with the mode [m]. *)
Definition handle k (m : TransmissionMode) (id : Z) q : Prop := k_fds k !! mqdes q = Some (mkFd id m (is_non_blocking q)).
Definition with_flag k (m : TransmissionMode) (id : Z) q (v : bool) : Kernel := set_fds k (<[mqdes q := mkFd id m v]> (k_fds k)).

Lemma set_non_blocking_same q : set_non_blocking q (is_non_blocking q) = q.
Proof. by destruct q. Qed.
Lemma set_fds_same k : set_fds k (k_fds k) = k.
Proof. by destruct k. Qed.

Lemma mq_set_nonblock_spec q v m id w :
  handle (kernel w) m id q →
  ∃ w', mq_set_nonblock q v w = Return (set_non_blocking q v, w') ∧ clock w ≤ clock w' ∧ kernel w' = with_flag (kernel w) m id q v.
Proof.
  intros Hh. unfold mq_set_nonblock, with_flag. case_bool_decide as Hv.
  - exists w. subst v. rewrite set_non_blocking_same, insert_id by done. by rewrite set_fds_same.
  - destruct (mq_setattr_law (mqdes q) v _ w Hh) as (w' & -> & Hc & Hk). by exists w'.
Qed.

(** *** Without waiting *)

Lemma try_send_with_prio_spec q v prio m id K w :
  handle (kernel w) m id q → k_queues (kernel w) !! id = Some K → can_send m → size_of ≤ kq_msgsize K → 0 ≤ prio < mq_prio_max →
  let room := Z.of_nat (length (kq_msgs K)) <? kq_maxmsg K in
  let k1 := with_flag (kernel w) m id q true in
  ∃ w', try_send_with_prio size_of q v prio w = Return (Ok room, set_non_blocking q true, w') ∧
    kernel w' = if room then set_msgs id K (enqueue kprio (mkMessage v prio, size_of) (kq_msgs K)) k1 else k1.
Proof.
  intros Hh HK Hm Hs Hp room k1. unfold try_send_with_prio, internal_send_with_prio.
  destruct (mq_set_nonblock_spec q true m id w Hh) as (w1 & -> & _ & Hk1). cbn [obind].
  destruct (mq_send _ _ _ _ w1) as [r w2] eqn:Es. cbn [mqdes set_non_blocking] in Es.
  assert (descriptor (kernel w1) (mqdes q) (mkFd id m true) K) as Hd.
  { rewrite Hk1. split; cbn; [by rewrite lookup_insert_eq|done]. }
  pose proof (mq_send_law _ _ _ _ _ _ _ _ _ Hd Hm eq_refl Hs Hp Es) as Hlaw.
  exists w2. subst room k1. rewrite <- Hk1. cbn [fd_queue] in Hlaw. destruct (_ <? _); destruct Hlaw as [-> ->]; done.
Qed.

Lemma try_receive_spec q m id K w :
  handle (kernel w) m id q → k_queues (kernel w) !! id = Some K → can_receive m → kq_msgsize K ≤ size_of →
  Forall (λ x, x.2 = size_of) (kq_msgs K) →
  let k1 := with_flag (kernel w) m id q true in
  ∃ w', try_receive size_of q w = Return (Ok (fst <$> head (kq_msgs K)), set_non_blocking q true, w') ∧
    kernel w' = match kq_msgs K with _ :: l => set_msgs id K l k1 | [] => k1 end.
Proof.
  intros Hh HK Hm Hs Hf k1. unfold try_receive, internal_receive.
  destruct (mq_set_nonblock_spec q true m id w Hh) as (w1 & -> & _ & Hk1). cbn [obind].
  destruct (mq_receive _ _ w1) as [r w2] eqn:Es. cbn [mqdes set_non_blocking] in Es.
  assert (descriptor (kernel w1) (mqdes q) (mkFd id m true) K) as Hd.
  { rewrite Hk1. split; cbn; [by rewrite lookup_insert_eq|done]. }
  pose proof (mq_receive_law _ _ _ _ _ _ _ Hd Hm eq_refl Hs Es) as Hlaw. exists w2. subst k1. rewrite <- Hk1. cbn [fd_queue] in Hlaw.
  destruct (kq_msgs K) as [|[x n] l]; destruct Hlaw as [-> ->]; [done|].
  apply Forall_cons in Hf as [Hn _]. cbn in Hn. subst n. by rewrite Z.eqb_refl.
Qed.

Lemma length_enqueue {A} (prio : A → Z) x l : length (enqueue prio x l) = S (length l).
Proof. induction l as [|y l IH]; [done|]. cbn. case_match; cbn; [done|by rewrite IH]. Qed.
Lemma enqueue_fmap {A B} (f : A → B) (prio : B → Z) x l : enqueue prio (f x) (f <$> l) = f <$> enqueue (prio ∘ f) x l.
Proof. induction l as [|y l IH]; [done|]. cbn. case_match; cbn; [done|by rewrite IH]. Qed.
Lemma Forall_enqueue {A} (Q : A → Prop) (prio : A → Z) x l : Q x → Forall Q l → Forall Q (enqueue prio x l).
Proof. intros Hx. induction 1 as [|y l Hy Hl IH]; cbn; [by constructor|]. case_match; repeat constructor; done. Qed.
Definition by_priority : relation Message := λ x y, priority y ≤ priority x.
Lemma sorted_enqueue x l : StronglySorted by_priority l → StronglySorted by_priority (enqueue priority x l).
Proof.
  induction 1 as [|y l Hl IH Hy]; cbn; [repeat constructor|]. destruct (Z.ltb_spec (priority y) (priority x)).
  - repeat constructor; [done|done|unfold by_priority; lia|]. eapply Forall_impl; [exact Hy|]. unfold by_priority. intros; lia.
  - constructor; [done|]. apply Forall_enqueue; [unfold by_priority; lia|done].
Qed.

(** *** Several senders and receivers of one queue *)

(** The handles [qs], opened with the modes [modes], have the queue [id] with the messages [l]. *)
Record attached k (modes : list TransmissionMode) (id cap : Z) (qs : list MessageQueue) (l : list Message) : Prop := {
  at_modes : Forall2 (λ m q, handle k m id q) modes qs;
  at_distinct : NoDup (mqdes <$> qs);
  at_queue : k_queues k !! id = Some (mkQueue cap size_of ((λ m, (m, size_of)) <$> l));
  at_bound : Z.of_nat (length l) ≤ cap;
  at_sorted : StronglySorted by_priority l
}.

Lemma attached_step k k' modes id cap qs l l' i m q :
  attached k modes id cap qs l → modes !! i = Some m → qs !! i = Some q →
  k_fds k' = <[mqdes q := mkFd id m true]> (k_fds k) →
  k_queues k' !! id = Some (mkQueue cap size_of ((λ m, (m, size_of)) <$> l')) →
  Z.of_nat (length l') ≤ cap → StronglySorted by_priority l' →
  attached k' modes id cap (<[i := set_non_blocking q true]> qs) l'.
Proof.
  intros [Hm Hd Hq Hb Hs] Hmi Hqi Hfds Hqs Hb' Hs'. constructor; [|..|done|done|done].
  - apply Forall2_same_length_lookup. split; [rewrite length_insert; by eapply Forall2_length|].
    intros j m' q' Hm' Hq'. unfold handle. rewrite Hfds. destruct (decide (i = j)) as [<-|Hne].
    + rewrite list_lookup_insert_eq in Hq' by (by eapply lookup_lt_Some). injection Hq' as <-. simplify_eq. cbn. by rewrite lookup_insert_eq.
    + rewrite list_lookup_insert_ne in Hq' by done. rewrite lookup_insert_ne; [by eapply Forall2_lookup_lr in Hm|].
      intros Heq. apply Hne. eapply (NoDup_lookup _ i j (mqdes q)); [exact Hd|by rewrite list_lookup_fmap, Hqi|by rewrite list_lookup_fmap, Hq'; cbn; rewrite Heq].
  - rewrite list_fmap_insert, list_insert_id; [done|]. by rewrite list_lookup_fmap, Hqi.
Qed.

Inductive MqOp := OpTrySend (i : nat) (v prio : Z) | OpTryReceive (i : nat) | OpLen (i : nat).
Inductive MqRes := Sent (r : result bool MessageQueueSendError) | Received (r : result (option Message) MessageQueueReceiveError) | HasLen (n : Z).

Definition mq_step (o : MqOp) (qs : list MessageQueue) w : outcome (MqRes * list MessageQueue * W) :=
  match o with
  | OpTrySend i v prio =>
      match qs !! i with
      | None => Undefined
      | Some q => let! '(r, q, w) := try_send_with_prio size_of q v prio w in Return (Sent r, <[i := q]> qs, w)
      end
  | OpTryReceive i =>
      match qs !! i with
      | None => Undefined
      | Some q => let! '(r, q, w) := try_receive size_of q w in Return (Received r, <[i := q]> qs, w)
      end
  | OpLen i => match qs !! i with None => Undefined | Some q => let! n := len q w in Return (HasLen n, qs, w) end
  end.
Fixpoint mq_run (os : list MqOp) (qs : list MessageQueue) w : outcome (list MqRes * list MessageQueue * W) :=
  match os with
  | [] => Return ([], qs, w)
  | o :: os =>
      let! '(r, qs, w) := mq_step o qs w in
      let! '(rs, qs, w) := mq_run os qs w in
      Return (r :: rs, qs, w)
  end.

(** The specification: a bounded priority queue. *)
Definition priority_queue_step (cap : Z) (o : MqOp) (l : list Message) : MqRes * list Message :=
  match o with
  | OpTrySend _ v prio => if Z.of_nat (length l) <? cap then (Sent (Ok true), enqueue priority (mkMessage v prio) l) else (Sent (Ok false), l)
  | OpTryReceive _ => (Received (Ok (head l)), tail l)
  | OpLen _ => (HasLen (Z.of_nat (length l)), l)
  end.
Fixpoint priority_queue_run (cap : Z) (os : list MqOp) (l : list Message) : list MqRes * list Message :=
  match os with
  | [] => ([], l)
  | o :: os => let '(r, l) := priority_queue_step cap o l in let '(rs, l) := priority_queue_run cap os l in (r :: rs, l)
  end.

(** Only senders send, and only receivers receive. *)
Definition op_ok (modes : list TransmissionMode) (o : MqOp) : Prop :=
  match o with
  | OpTrySend i _ prio => (∃ m, modes !! i = Some m ∧ can_send m) ∧ 0 ≤ prio < mq_prio_max
  | OpTryReceive i => ∃ m, modes !! i = Some m ∧ can_receive m
  | OpLen i => is_Some (modes !! i)
  end.

Lemma attached_handle k modes id cap qs l i m :
  attached k modes id cap qs l → modes !! i = Some m → ∃ q, qs !! i = Some q ∧ handle k m id q.
Proof. intros [Hm _ _ _ _] Hi. destruct (Forall2_lookup_l _ _ _ _ _ Hm Hi) as (q & Hq & Hh). by exists q. Qed.

Lemma mq_step_refines modes id cap qs l w o :
  attached (kernel w) modes id cap qs l → op_ok modes o →
  ∃ qs' w', mq_step o qs w = Return ((priority_queue_step cap o l).1, qs', w') ∧
    attached (kernel w') modes id cap qs' (priority_queue_step cap o l).2.
Proof.
  intros Hat Ho. destruct o as [i v prio|i|i]; cbn in Ho.
  - destruct Ho as [(m & Hi & Hm) Hp]. destruct (attached_handle _ _ _ _ _ _ _ _ Hat Hi) as (q & Hq & Hh).
    destruct (try_send_with_prio_spec q v prio m id _ w Hh (at_queue _ _ _ _ _ _ Hat) Hm ltac:(done) Hp) as (w' & Hs & Hk).
    cbn [mq_step]. rewrite Hq, Hs. cbn [obind]. cbn [kq_maxmsg kq_msgs kq_msgsize] in *. rewrite length_fmap in *. cbn [priority_queue_step].
    do 2 eexists. split; [case_match; done|]. destruct (Z.ltb_spec (Z.of_nat (length l)) cap).
    + eapply attached_step; [done..| | | |]; rewrite ?Hk; cbn; [done| |rewrite length_enqueue; lia|apply sorted_enqueue, Hat].
      rewrite lookup_insert_eq. do 2 f_equal. apply (enqueue_fmap (λ m, (m, size_of)) kprio).
    + eapply attached_step; [done..| | | |]; rewrite ?Hk; cbn; [done|apply Hat|apply Hat|apply Hat].
  - destruct Ho as (m & Hi & Hm). destruct (attached_handle _ _ _ _ _ _ _ _ Hat Hi) as (q & Hq & Hh).
    destruct (try_receive_spec q m id _ w Hh (at_queue _ _ _ _ _ _ Hat) Hm ltac:(done)) as (w' & Hs & Hk).
    { cbn. apply Forall_fmap, Forall_true. done. }
    cbn [mq_step]. rewrite Hq, Hs. cbn [obind priority_queue_step fst snd]. cbn [kq_msgs] in *.
    exists (<[i := set_non_blocking q true]> qs), w'. split; [by destruct l|]. destruct Hat as [? ? ? Hb Hst] eqn:E. clear E.
    eapply attached_step; [done|done..| | | |]; rewrite ?Hk; destruct l as [|x l]; cbn; try done.
    + by rewrite lookup_insert_eq.
    + cbn in Hb. lia.
    + by inversion Hst.
  - destruct Ho as [m Hi]. destruct (attached_handle _ _ _ _ _ _ _ _ Hat Hi) as (q & Hq & Hh).
    cbn [mq_step]. rewrite Hq. unfold len. erewrite mq_getattr_law by (split; [exact Hh|apply Hat]). cbn. rewrite length_fmap. by do 2 eexists.
Qed.

(** C37. Any number of senders, receivers and duplex handles of one message queue, used
    without waiting in any order, are one bounded priority queue: a message is refused
    exactly when the queue holds as many as its capacity, the oldest message of the
    highest priority is received, [None] is received exactly when there is nothing, and
    [len] is the number of messages. Whether a handle was last used blocking or not makes
    no difference. *)
Theorem message_queue_refines modes id cap os qs l w :
  attached (kernel w) modes id cap qs l → Forall (op_ok modes) os →
  ∃ qs' w', mq_run os qs w = Return ((priority_queue_run cap os l).1, qs', w') ∧
    attached (kernel w') modes id cap qs' (priority_queue_run cap os l).2.
Proof.
  intros Hat Hos. revert qs l w Hat. induction Hos as [|o os Ho Hos IH]; intros qs l w Hat; [by exists qs, w|].
  destruct (mq_step_refines modes id cap qs l w o Hat Ho) as (qs1 & w1 & Hs & Hat1). cbn [mq_run priority_queue_run]. rewrite Hs. cbn [obind].
  destruct (priority_queue_step cap o l) as [r l1]. cbn in *. destruct (IH _ _ _ Hat1) as (qs2 & w2 & Hr & Hat2). rewrite Hr. cbn [obind].
  destruct (priority_queue_run cap os l1) as [rs l2]. by exists qs2, w2.
Qed.

(** *** With a timeout on the monotonic clock *)

Lemma try_send_returns m id v prio q w :
  handle (kernel w) m id q →
  ∃ r q' w', try_send_with_prio size_of q v prio w = Return (r, q', w') ∧ clock w ≤ clock w' ∧ handle (kernel w') m id q'.
Proof.
  intros Hh. unfold try_send_with_prio, internal_send_with_prio.
  destruct (mq_set_nonblock_spec q true m id w Hh) as (w1 & -> & Hw1 & Hk1). cbn [obind].
  destruct (mq_send _ _ _ _ w1) as [r w2] eqn:Es. destruct (mq_send_frame _ _ _ _ _ _ _ Es) as [Hw2 Hf].
  do 3 eexists. split; [done|]. split; [lia|]. unfold handle. rewrite Hf, Hk1. cbn. by rewrite lookup_insert_eq.
Qed.

Lemma try_receive_returns m id q w :
  handle (kernel w) m id q →
  ∃ r q' w', try_receive size_of q w = Return (r, q', w') ∧ clock w ≤ clock w' ∧ handle (kernel w') m id q'.
Proof.
  intros Hh. unfold try_receive, internal_receive.
  destruct (mq_set_nonblock_spec q true m id w Hh) as (w1 & -> & Hw1 & Hk1). cbn [obind].
  destruct (mq_receive _ _ w1) as [r w2] eqn:Es. destruct (mq_receive_frame _ _ _ _ _ Es) as [Hw2 Hf].
  do 3 eexists. split; [done|]. split; [lia|]. unfold handle. rewrite Hf, Hk1. cbn. by rewrite lookup_insert_eq.
Qed.

(** On the monotonic clock [timed_receive] ends, after a number of rounds that its
    timeout bounds, whatever the other processes do to the queue: it does not panic, its
    handle stays usable, and it says that there was no message only when the timeout has
    passed. A message, or an error of the queue, is that of its last [try_receive]. *)
Theorem timed_receive_ends m id timeout fuel q w :
  handle (kernel w) m id q → mq_clock_type q = Monotonic → 0 ≤ timeout →
  ADAPTIVE_WAIT_YIELD_REPETITIONS + timeout / ADAPTIVE_WAIT_INITIAL_WAITING_TIME + 2 < USIZE →
  ADAPTIVE_WAIT_YIELD_REPETITIONS + timeout / ADAPTIVE_WAIT_INITIAL_WAITING_TIME + 1 < Z.of_nat fuel →
  ∃ r q' w', timed_receive size_of fuel q timeout w = Return (r, q', w') ∧ handle (kernel w') m id q' ∧
    match r with
    | Ok (Some x) => ∃ q0 w0, try_receive size_of q0 w0 = Return (Ok (Some x), q', w')
    | Ok None => timeout ≤ clock w' - clock w
    | Err (TransferError e) => ∃ q0 w0, try_receive size_of q0 w0 = Return (Err e, q', w')
    | Err (AdaptiveError e) => ∃ a0 a' w0, wait a0 w0 = Return (Err e, a', w')
    | Err (TimedTimeError e) => ∃ c w0, now_with_clock c w0 = (Err e, w')
    end.
Proof.
  intros Hh Hc Ht Hb Hf. unfold timed_receive. rewrite Hc.
  destruct (timed_ends (try_receive size_of) (λ w, k_fds (kernel w)) (λ q fds, fds !! mqdes q = Some (mkFd id m (is_non_blocking q)))) with (timeout := timeout) (fuel := fuel) (x := q) (w := w)
    as (r & q' & w' & Hr & Hre); try done.
  { intros q0 w0 Hh0. destruct (try_receive_returns m id q0 w0 Hh0) as (r & q' & w' & H1 & H2 & H3). by exists r, q', w'. }
  assert (∀ q0 w0 r, handle (kernel w0) m id q0 → try_receive size_of q0 w0 = Return (r, q', w') → handle (kernel w') m id q') as Hlast.
  { intros q0 w0 r0 Hh0 Ha. destruct (try_receive_returns m id q0 w0 Hh0) as (? & ? & ? & H1 & _ & H3). rewrite Ha in H1. by injection H1 as <- <- <-. }
  exists r, q', w'. split; [exact Hr|]. destruct r as [[v|]|[]]; cbn in Hre; try done.
  - destruct Hre as (q0 & w0 & Hh0 & Ha). split; [by eapply Hlast|]. by exists q0, w0.
  - destruct Hre as (q0 & w0 & Hh0 & Ha). split; [by eapply Hlast|]. by exists q0, w0.
Qed.

(** The same for [timed_send_with_prio]. *)
Theorem timed_send_ends m id v prio timeout fuel q w :
  handle (kernel w) m id q → mq_clock_type q = Monotonic → 0 ≤ timeout →
  ADAPTIVE_WAIT_YIELD_REPETITIONS + timeout / ADAPTIVE_WAIT_INITIAL_WAITING_TIME + 2 < USIZE →
  ADAPTIVE_WAIT_YIELD_REPETITIONS + timeout / ADAPTIVE_WAIT_INITIAL_WAITING_TIME + 1 < Z.of_nat fuel →
  ∃ r q' w', timed_send_with_prio size_of fuel q v timeout prio w = Return (r, q', w') ∧ handle (kernel w') m id q' ∧
    (r = Ok true → ∃ q0 w0, try_send_with_prio size_of q0 v prio w0 = Return (Ok true, q', w')) ∧
    (r = Ok false → timeout ≤ clock w' - clock w).
Proof.
  intros Hh Hc Ht Hb Hf. unfold timed_send_with_prio. rewrite Hc.
  assert (∀ q0 w0, handle (kernel w0) m id q0 →
    ∃ r q' w', attempt_send size_of v prio q0 w0 = Return (r, q', w') ∧ clock w0 ≤ clock w' ∧ handle (kernel w') m id q') as Hatt.
  { intros q0 w0 Hh0. unfold attempt_send. destruct (try_send_returns m id v prio q0 w0 Hh0) as (r & q' & w' & -> & Hw & Hh'). cbn [obind]. by do 3 eexists. }
  destruct (timed_ends (attempt_send size_of v prio) (λ w, k_fds (kernel w)) (λ q fds, fds !! mqdes q = Some (mkFd id m (is_non_blocking q)))) with (timeout := timeout) (fuel := fuel) (x := q) (w := w)
    as (r & q' & w' & Hr & Hre); try done.
  { intros q0 w0 Hh0. destruct (Hatt q0 w0 Hh0) as (r & q' & w' & H1 & H2 & H3). by exists r, q', w'. }
  assert (∀ q0 w0 r, handle (kernel w0) m id q0 → attempt_send size_of v prio q0 w0 = Return (r, q', w') → handle (kernel w') m id q') as Hlast.
  { intros q0 w0 r0 Hh0 Ha. destruct (Hatt q0 w0 Hh0) as (? & ? & ? & H1 & _ & H3). rewrite Ha in H1. by injection H1 as <- <- <-. }
  rewrite Hr. cbn [obind]. do 3 eexists. split; [done|]. destruct r as [[[]|]|[]]; cbn in Hre.
  - destruct Hre as (q0 & w0 & Hh0 & Ha). split; [by eapply Hlast|]. split; [|done]. intros _. exists q0, w0. revert Ha. unfold attempt_send.
    destruct (try_send_with_prio size_of q0 v prio w0) as [[[[[]|e] q1] w1]| |]; cbn; congruence.
  - split; [apply Hre|]. split; [done|]. intros _. apply Hre.
  - destruct Hre as (q0 & w0 & Hh0 & Ha). split; [by eapply Hlast|done].
  - split; [apply Hre|done].
  - split; [apply Hre|done].
Qed.

(** *** With a timeout on the realtime clock

    [mq_timedsend] and [mq_timedreceive] expect the point in time when the waiting shall
    end, and get the timeout: one that has passed since 1970. *)

(** [timed_receive] of a queue that uses the realtime clock does not wait for its timeout:
    with every timeout that is shorter than the time since the epoch it comes back without
    a message as soon as the queue is empty, as [try_receive] does. *)
Theorem realtime_timeout_does_not_wait m id K fuel q q1 timeout w w1 :
  handle (kernel w) m id q → mq_clock_type q = Realtime → mq_set_nonblock q false w = Return (q1, w1) →
  k_queues (kernel w) !! id = Some K → can_receive m → kq_msgsize K ≤ size_of → kq_msgs K = [] →
  0 ≤ timeout < 2 ^ 62 * NANOS → timeout ≤ realtime w1 →
  ∃ w', timed_receive size_of fuel q timeout w = Return (Ok None, q1, w') ∧ kernel w' = kernel w1.
Proof.
  intros Hh Hc Hset HK Hm Hs Hl Ht Hr. destruct (mq_set_nonblock_spec q false m id w Hh) as (w1' & Hset' & Hw1 & Hk1).
  rewrite Hset' in Hset. injection Hset as <- <-. unfold timed_receive. rewrite Hc, Hset'. cbn [obind].
  destruct (duration_timespec timeout) as [Hn Hsub]; [unfold I64 in *; unfold NANOS in *; lia|].
  destruct (mq_timedreceive _ _ _ w1') as [r w2] eqn:Es. cbn [mqdes set_non_blocking] in Es.
  assert (descriptor (kernel w1') (mqdes q) (mkFd id m false) K) as Hd.
  { rewrite Hk1. split; cbn; [by rewrite lookup_insert_eq|done]. }
  assert (timespec_ok (duration_as_timespec timeout)) as Hok.
  { unfold timespec_ok. split; [|done]. unfold to_nanos in Hn. unfold NANOS in *. lia. }
  pose proof (mq_timedreceive_law _ _ _ _ _ _ _ _ Hd Hm Hs Hok ltac:(by rewrite Hn) Es) as Hlaw.
  rewrite Hl in Hlaw. destruct Hlaw as [-> Hk2]. by exists w2.
Qed.

(** *** Creating, opening, dropping *)

(** A queue that was created is empty and has its name. *)
Lemma create_exclusive_spec b w :
  ∃ r w1, create size_of b CreateExclusive w = Return (r, w1) ∧
  match r with
  | Err e => kernel w1 = kernel w ∧ (e = AlreadyExist → is_Some (k_names (kernel w) !! add_slash (b_name b)))
  | Ok q => ∃ id,
      k_names (kernel w) !! add_slash (b_name b) = None ∧ k_fds (kernel w) !! mqdes q = None ∧
      k_names (kernel w1) = <[add_slash (b_name b) := id]> (k_names (kernel w)) ∧
      k_fds (kernel w1) = <[mqdes q := mkFd id (b_transmission_mode b) false]> (k_fds (kernel w)) ∧
      k_queues (kernel w1) !! id = Some (mkQueue (b_capacity b) size_of []) ∧
      mq_name q = b_name b ∧ mq_capacity q = b_capacity b ∧ is_non_blocking q = false ∧ has_ownership q = true
  end.
Proof.
  unfold create, mq_create. cbn [b_name set_message_size b_transmission_mode b_permissions create_attributes b_capacity b_max_message_size].
  destruct (mq_open4 _ _ _ _ w) as [[d|e] w'] eqn:Eo; pose proof (mq_open4_law _ _ _ _ _ _ _ Eo) as Hlaw; do 2 eexists; (split; [done|]).
  - destruct Hlaw as (id & Hn & Hd & Hid & Hk). exists id. cbn in Hk |- *. rewrite Hk. cbn. by rewrite lookup_insert_eq.
  - destruct Hlaw as [Hk He]. destruct e; (split; [done|]); try done; intros _; by apply He.
Qed.

(** Dropping closes the descriptor; the owner removes the name, if the operating system lets it. *)
Lemma drop_spec m id q w :
  handle (kernel w) m id q →
  ∃ w2, drop q w = Return w2 ∧ k_fds (kernel w2) = delete (mqdes q) (k_fds (kernel w)) ∧ k_queues (kernel w2) = k_queues (kernel w) ∧
    if has_ownership q then
      k_names (kernel w2) = delete (add_slash (mq_name q)) (k_names (kernel w)) ∨
      (k_names (kernel w2) = k_names (kernel w) ∧ ∃ e, (mq_unlink (mq_name q) w).1 = Err e)
    else k_names (kernel w2) = k_names (kernel w).
Proof.
  intros Hh. assert (∀ wu, k_fds (kernel wu) = k_fds (kernel w) → k_queues (kernel wu) = k_queues (kernel w) →
    ∃ w2, (let '(ok, w) := mq_close (mqdes q) wu in if ok : bool then Return w else Panic) = Return w2 ∧
      k_fds (kernel w2) = delete (mqdes q) (k_fds (kernel w)) ∧ k_queues (kernel w2) = k_queues (kernel w) ∧
      k_names (kernel w2) = k_names (kernel wu)) as Hclose.
  { intros wu Hf Hq. destruct (mq_close_law (mqdes q) (mkFd id m (is_non_blocking q)) wu) as (w2 & -> & Hk2); [by rewrite Hf|].
    exists w2. split; [done|]. rewrite Hk2. cbn. by rewrite Hf, Hq. }
  unfold drop. destruct (has_ownership q); [|by apply Hclose]. unfold mq_unlink.
  destruct (mq_unlink_ _ w) as [r wu] eqn:Eu; pose proof (mq_unlink_law _ _ _ _ Eu) as Hu. cbn [snd fst].
  assert (k_fds (kernel wu) = k_fds (kernel w) ∧ k_queues (kernel wu) = k_queues (kernel w)) as [Hf Hq].
  { destruct r; destruct Hu as [? Hu]; rewrite ?Hu; by try rewrite H. }
  destruct (Hclose wu Hf Hq) as (w2 & Hc & H1 & H2 & H3). exists w2. split; [done|]. split; [done|]. split; [done|]. rewrite H3. destruct r as [[]|e].
  - left. by rewrite (proj2 Hu).
  - right. split; [by rewrite (proj1 Hu)|]. destruct e; by eexists.
Qed.

(** An open queue has at least the capacity and exactly the message size that were asked for. *)
Lemma open_spec b id K w :
  k_names (kernel w) !! add_slash (b_name b) = Some id → k_queues (kernel w) !! id = Some K →
  b_capacity b ≤ kq_maxmsg K → kq_msgsize K = size_of →
  ∃ r w1, open size_of b w = Return (r, w1) ∧
  match r with
  | Err e => kernel w1 = kernel w
  | Ok q => k_fds (kernel w) !! mqdes q = None ∧
      kernel w1 = set_fds (kernel w) (<[mqdes q := mkFd id (b_transmission_mode b) false]> (k_fds (kernel w))) ∧
      mq_name q = b_name b ∧ mq_capacity q = kq_maxmsg K ∧ is_non_blocking q = false ∧ has_ownership q = false
  end.
Proof.
  intros Hn HK Hc Hs. unfold open, mq_open. cbn [b_name set_message_size b_transmission_mode b_capacity b_max_message_size].
  destruct (mq_open2 _ _ w) as [[d|e] w1] eqn:Eo; pose proof (mq_open2_law _ _ _ _ _ Eo) as Hlaw.
  - destruct Hlaw as (id' & Hn' & Hd & Hk). simplify_eq.
    assert (descriptor (kernel w1) d (mkFd id (b_transmission_mode b) false) K) as Hdes by (rewrite Hk; split; cbn; [by rewrite lookup_insert_eq|done]).
    rewrite (mq_getattr_law _ _ _ _ Hdes). cbn [mq_maxmsg mq_msgsize]. rewrite (proj2 (Z.ltb_ge _ _) Hc), Z.eqb_refl. cbn. by do 2 eexists.
  - destruct Hlaw as [Hk He]. destruct e; by do 2 eexists.
Qed.

(** A descriptor whose queue is too small or has messages of another size is not closed:
    it is left open, and nothing has it. *)
Theorem rejected_open_leaks_the_descriptor b w w1 w2 r d :
  mq_open2 (add_slash (b_name b)) (b_transmission_mode b) w = (Ok d, w1) →
  open size_of b w = Return (r, w2) → (∀ q, r ≠ Ok q) →
  k_fds (kernel w) !! d = None ∧ is_Some (k_fds (kernel w2) !! d).
Proof.
  intros Ho. destruct (mq_open2_law _ _ _ _ _ Ho) as (id & Hn & Hd & Hk). unfold open, mq_open. cbn [b_name set_message_size b_transmission_mode b_capacity].
  rewrite Ho. destruct (mq_getattr d w1) as [a|]; cbn; [|done].
  assert (is_Some (k_fds (kernel w1) !! d)) as Hs by (rewrite Hk; cbn; rewrite lookup_insert_eq; by eexists).
  destruct (_ <? _); cbn; [by intros [= <- <-]|]. destruct (negb _); cbn; [by intros [= <- <-]|]. intros [= <- <-] Hq. by edestruct Hq.
Qed.

(** A queue with a capacity below the builder's default of eight exists, and the question
    whether it exists is answered with an error. *)
Theorem small_queue_is_not_found n owner_all default d fd K w w1 :
  mq_open2 (add_slash n) Sending w = (Ok d, w1) → descriptor (kernel w1) d fd K → kq_maxmsg K < DEFAULT_MESSAGE_QUEUE_CAPACITY →
  does_message_queue_exist size_of n owner_all default w = Return (Err CapacitySmallerThanRequired, w1).
Proof.
  intros Ho Hd Hc. unfold does_message_queue_exist, open_sender, open, mq_open, builder_new. cbn [set_mode set_message_size b_name b_transmission_mode b_capacity].
  rewrite Ho, (mq_getattr_law _ _ _ _ Hd). cbn [mq_maxmsg]. by rewrite (proj2 (Z.ltb_lt _ _) Hc).
Qed.
End Theorems.

(** ** An operating system *)

Section Sample.
#[local] Instance mq_checked : Profile := true.

(** Both clocks show the same; the calls on queues take no time. *)
Definition World : Type := SampleClock * Kernel.
Implicit Types w : World.
Definition mkWorld (c : SampleClock) (k : Kernel) : World := (c, k).
Definition w_clock w : SampleClock := w.1.
Definition w_kernel w : Kernel := w.2.
Definition set_kernel w (k : Kernel) : World := mkWorld (w_clock w) k.
#[export] Instance world_clock_os : ClockOs World := beside_os.
#[export] Instance world_clock_laws : ClockLaws World := beside_laws.

Definition next_free {A} (m : gmap Z A) : Z := foldr Z.max 0 (map_to_list m).*1 + 1.
Lemma next_free_none {A} (m : gmap Z A) : m !! next_free m = None.
Proof.
  destruct (m !! next_free m) as [x|] eqn:E; [exfalso|done]. apply elem_of_map_to_list, (list_elem_of_fmap_2 fst) in E. cbn in E.
  assert (∀ l z, z ∈ l → z ≤ foldr Z.max 0 l) as Hmax; [|specialize (Hmax _ _ E); unfold next_free in Hmax; lia].
  induction l as [|y l IH]; intros z Hz; [by apply elem_of_nil in Hz|]. apply elem_of_cons in Hz as [->|Hz]; cbn; [lia|specialize (IH z Hz); lia].
Qed.

(** The queue of a descriptor that may be used as [may] says, and its descriptor. *)
Definition lookup_descriptor (may : TransmissionMode → bool) (d : Z) (k : Kernel) : option (KFd * KQueue) :=
  fd ← k_fds k !! d; K ← k_queues k !! fd_queue fd; if may (fd_mode fd) then Some (fd, K) else None.
(** What a call says that would have to wait: [e], or for a blocking descriptor [e']. *)
Definition kernel_send (e e' : Errno) (d v size prio : Z) w : result unit Errno * World :=
  match lookup_descriptor can_send d (w_kernel w) with
  | None => (Err EBADF, w)
  | Some (fd, K) =>
      if kq_msgsize K <? size then (Err EMSGSIZE, w)
      else if negb ((0 <=? prio) && (prio <? 32768)) then (Err EINVAL, w)
      else if Z.of_nat (length (kq_msgs K)) <? kq_maxmsg K
      then (Ok tt, set_kernel w (set_msgs (fd_queue fd) K (enqueue kprio (mkMessage v prio, size) (kq_msgs K)) (w_kernel w)))
      else (Err (if fd_nonblock fd then e else e'), w)
  end.
Definition kernel_receive (e e' : Errno) (d size : Z) w : result (Message * Z) Errno * World :=
  match lookup_descriptor can_receive d (w_kernel w) with
  | None => (Err EBADF, w)
  | Some (fd, K) =>
      if size <? kq_msgsize K then (Err EMSGSIZE, w)
      else match kq_msgs K with
           | m :: l => (Ok m, set_kernel w (set_msgs (fd_queue fd) K l (w_kernel w)))
           | [] => (Err (if fd_nonblock fd then e else e'), w)
           end
  end.

#[export] Instance world_os : MessageQueueOs World := {
  mq_open4 n m _ a w :=
    let k := w_kernel w in
    match k_names k !! n with
    | Some _ => (Err EEXIST, w)
    | None =>
        let id := next_free (k_queues k) in
        let d := next_free (k_fds k) in
        (Ok d, set_kernel w (mkKernel (<[n := id]> (k_names k)) (<[id := mkQueue (mq_maxmsg a) (mq_msgsize a) []]> (k_queues k))
                                      (<[d := mkFd id m false]> (k_fds k))))
    end;
  mq_open2 n m w :=
    let k := w_kernel w in
    match k_names k !! n with
    | None => (Err ENOENT, w)
    | Some id => let d := next_free (k_fds k) in (Ok d, set_kernel w (set_fds k (<[d := mkFd id m false]> (k_fds k))))
    end;
  mq_getattr d w :=
    fd ← k_fds (w_kernel w) !! d; K ← k_queues (w_kernel w) !! fd_queue fd;
    Some (mkAttr (kq_maxmsg K) (kq_msgsize K) (Z.of_nat (length (kq_msgs K))));
  mq_setattr d v w :=
    match k_fds (w_kernel w) !! d with
    | None => (false, w)
    | Some fd => (true, set_kernel w (set_fds (w_kernel w) (<[d := mkFd (fd_queue fd) (fd_mode fd) v]> (k_fds (w_kernel w)))))
    end;
  mq_unlink_ n w :=
    match k_names (w_kernel w) !! n with
    | None => (Err ENOENT, w)
    | Some _ => (Ok tt, set_kernel w (mkKernel (delete n (k_names (w_kernel w))) (k_queues (w_kernel w)) (k_fds (w_kernel w))))
    end;
  mq_close d w :=
    match k_fds (w_kernel w) !! d with
    | None => (false, w)
    | Some _ => (true, set_kernel w (set_fds (w_kernel w) (delete d (k_fds (w_kernel w)))))
    end;
  mq_send := kernel_send EAGAIN EINTR;
  mq_timedsend d v size prio ts w :=
    kernel_send EAGAIN ETIMEDOUT d v size prio w;
  mq_receive := kernel_receive EAGAIN EINTR;
  mq_timedreceive d size ts w := kernel_receive EAGAIN ETIMEDOUT d size w
}.

Lemma lookup_descriptor_some (may : TransmissionMode → bool) d k fd K :
  descriptor k d fd K → may (fd_mode fd) → lookup_descriptor may d k = Some (fd, K).
Proof. intros [Hd HK] Hm. unfold lookup_descriptor. rewrite Hd. cbn. rewrite HK. cbn. by destruct (may _). Qed.

Lemma kernel_send_law e e' d v size prio fd K w r w' :
  descriptor (w_kernel w) d fd K → can_send (fd_mode fd) → size ≤ kq_msgsize K → 0 ≤ prio < 32768 →
  kernel_send e e' d v size prio w = (r, w') →
  if Z.of_nat (length (kq_msgs K)) <? kq_maxmsg K
  then r = Ok tt ∧ w_kernel w' = set_msgs (fd_queue fd) K (enqueue kprio (mkMessage v prio, size) (kq_msgs K)) (w_kernel w)
  else r = Err (if fd_nonblock fd then e else e') ∧ w_kernel w' = w_kernel w.
Proof.
  intros Hd Hm Hs Hp. unfold kernel_send. rewrite (lookup_descriptor_some _ _ _ _ _ Hd Hm).
  rewrite (proj2 (Z.ltb_ge _ _) Hs), (proj2 (Z.leb_le 0 prio)), (proj2 (Z.ltb_lt prio 32768)) by lia. cbn.
  destruct (_ <? _); intros [= <- <-]; done.
Qed.
Lemma kernel_receive_law e e' d size fd K w r w' :
  descriptor (w_kernel w) d fd K → can_receive (fd_mode fd) → kq_msgsize K ≤ size →
  kernel_receive e e' d size w = (r, w') →
  match kq_msgs K with
  | m :: l => r = Ok m ∧ w_kernel w' = set_msgs (fd_queue fd) K l (w_kernel w)
  | [] => r = Err (if fd_nonblock fd then e else e') ∧ w_kernel w' = w_kernel w
  end.
Proof.
  intros Hd Hm Hs. unfold kernel_receive. rewrite (lookup_descriptor_some _ _ _ _ _ Hd Hm), (proj2 (Z.ltb_ge _ _) Hs).
  destruct (kq_msgs K); intros [= <- <-]; done.
Qed.
Lemma kernel_send_frame e e' d v size prio w r w' :
  kernel_send e e' d v size prio w = (r, w') → w_clock w' = w_clock w ∧ k_fds (w_kernel w') = k_fds (w_kernel w).
Proof. unfold kernel_send. repeat case_match; intros [= <- <-]; done. Qed.
Lemma kernel_receive_frame e e' d size w r w' :
  kernel_receive e e' d size w = (r, w') → w_clock w' = w_clock w ∧ k_fds (w_kernel w') = k_fds (w_kernel w).
Proof. unfold kernel_receive. repeat case_match; intros [= <- <-]; done. Qed.

#[export] Instance world_laws : MessageQueueLaws World.
Proof.
  refine {| kernel := w_kernel; realtime := w_clock; mq_prio_max := 32768 |}.
  - done.
  - intros n m p a w r w'. cbn. destruct (k_names (w_kernel w) !! n) eqn:En; intros [= <- <-]; [by split; [|intros _; eexists]|].
    eexists. split; [done|]. split; [apply next_free_none|]. split; [apply next_free_none|done].
  - intros n m w r w'. cbn. destruct (k_names (w_kernel w) !! n) eqn:En; intros [= <- <-]; [|done].
    eexists. split; [done|]. split; [apply next_free_none|done].
  - intros d fd K w [Hd HK]. cbn. rewrite Hd. cbn. by rewrite HK.
  - intros d v fd w Hd. cbn -[clock]. rewrite Hd. eexists. split; [done|]. split; [done|done].
  - intros n w r w'. cbn. destruct (k_names (w_kernel w) !! n) eqn:En; intros [= <- <-]; [|done]. split; [by eexists|done].
  - intros d fd w Hd. cbn. rewrite Hd. by eexists.
  - intros d v size prio w r w' H. destruct (kernel_send_frame _ _ _ _ _ _ _ _ _ H) as [Hc Hf]. split; [|done]. cbn. unfold w_clock in Hc. by rewrite Hc.
  - intros d size w r w' H. destruct (kernel_receive_frame _ _ _ _ _ _ _ H) as [Hc Hf]. split; [|done]. cbn. unfold w_clock in Hc. by rewrite Hc.
  - intros d v size prio fd K w r w' Hd Hm Hnb Hs Hp H. pose proof (kernel_send_law _ _ _ _ _ _ _ _ _ _ _ Hd Hm Hs Hp H) as Hl. by rewrite Hnb in Hl.
  - intros d v size prio ts fd K w r w' Hd Hm Hs Hp _ _ H. exact (kernel_send_law _ _ _ _ _ _ _ _ _ _ _ Hd Hm Hs Hp H).
  - intros d size fd K w r w' Hd Hm Hnb Hs H. pose proof (kernel_receive_law _ _ _ _ _ _ _ _ _ Hd Hm Hs H) as Hl. by rewrite Hnb in Hl.
  - intros d size ts fd K w r w' Hd Hm Hs _ _ H. exact (kernel_receive_law _ _ _ _ _ _ _ _ _ Hd Hm Hs H).
Defined.

(** A queue for two messages of eight bytes, with a sender and a receiver. *)
Definition sample_world : World :=
  mkWorld (from_secs 5) (mkKernel {[ [47; 97] := 0 ]} {[ 0 := mkQueue 2 8 [] ]} {[ 3 := mkFd 0 Sending false; 4 := mkFd 0 Receiving false ]}).
Definition sample_sender : MessageQueue := mkMessageQueue 3 [97] 2 true false Monotonic.
Definition sample_receiver (c : ClockType) : MessageQueue := mkMessageQueue 4 [97] 2 false false c.

Definition sample_ops : list MqOp :=
  [OpTryReceive 1; OpTrySend 0 10 0; OpTrySend 0 11 7; OpTrySend 0 12 9; OpLen 0; OpTryReceive 1; OpTryReceive 1].

Lemma message_queue_refines_witness :
  ∃ qs' w', mq_run 8 sample_ops [sample_sender; sample_receiver Monotonic] sample_world =
    Return ([Received (Ok None); Sent (Ok true); Sent (Ok true); Sent (Ok false); HasLen 2;
             Received (Ok (Some (mkMessage 11 7))); Received (Ok (Some (mkMessage 10 0)))], qs', w').
Proof.
  destruct (message_queue_refines 8 [Sending; Receiving] 0 2 sample_ops [sample_sender; sample_receiver Monotonic] [] sample_world)
    as (qs' & w' & H & _).
  - constructor; [|by apply (bool_decide_unpack _)|done|done|constructor]. repeat constructor.
  - repeat constructor; try (by eexists); cbn; lia.
  - exists qs', w'. exact H.
Defined.

Lemma timed_receive_ends_witness :
  ∃ r q' w', timed_receive 8 (Z.to_nat 10012) (sample_receiver Monotonic) (from_millis 1) sample_world = Return (r, q', w').
Proof.
  destruct (timed_receive_ends 8 Receiving 0 (from_millis 1) (Z.to_nat 10012) (sample_receiver Monotonic) sample_world)
    as (r & q' & w' & H & _); [done..| |].
  - rewrite Z2Nat.id by lia. reflexivity.
  - exists r, q', w'. exact H.
Defined.

Lemma realtime_timeout_does_not_wait_witness :
  ∃ w', timed_receive 8 0 (sample_receiver Realtime) (from_secs 1) sample_world = Return (Ok None, sample_receiver Realtime, w').
Proof.
  destruct (realtime_timeout_does_not_wait 8 Receiving 0 (mkQueue 2 8 []) 0 (sample_receiver Realtime) (sample_receiver Realtime) (from_secs 1)
    sample_world sample_world) as (w' & H & _); try done.
  exists w'. exact H.
Defined.

Lemma rejected_open_leaks_the_descriptor_witness :
  let b := set_capacity (builder_new [97] 448 Monotonic) 3 in
  ∃ r w, open 8 b sample_world = Return (r, w) ∧ is_Some (k_fds (kernel w) !! 5).
Proof.
  intros b. set (w := (mq_open2 (add_slash [97]) Sending sample_world).2). exists (Err CapacitySmallerThanRequired), w. split; [reflexivity|].
  apply (rejected_open_leaks_the_descriptor 8 b sample_world w w (Err CapacitySmallerThanRequired) 5); [reflexivity|reflexivity|done].
Defined.
End Sample.
