(* ===== verification/Files.v ===== *)
(** * elkodon_bb/posix/src: file_descriptor.rs, file.rs

    Descriptors and regular files: creating in every mode, opening, reading, writing,
    removing. The file system is an interface ([DescriptorOs], [FileOs]) with what POSIX
    says about it ([FileLaws]).

    The theorems: what is written at a place is read there, through any descriptor of the
    file; creating a file, in every mode: what it contains then, and that nothing stays open
    where it fails; a closed descriptor is closed again where one is assigned to another. *)

From S2P Require Import Prelude Clock.
From S2P Require MessageQueue.

Import MessageQueue(CreationMode, CreateExclusive, PurgeAndCreate, OpenOrCreate, next_free, next_free_none).

Definition Path := list Z.

(** ** access_mode.rs, creation_mode.rs

    The flags of [open] as on Linux. *)
Inductive AccessMode := NoAccess | Read | Write | ReadWrite.

Definition O_RDONLY : Z := 0.
Definition O_WRONLY : Z := 1.
Definition O_RDWR : Z := 2.
Definition O_CREAT : Z := 64.
Definition O_EXCL : Z := 128.

Definition access_as_oflag (a : AccessMode) : Z :=
  match a with NoAccess => 0 | Read => O_RDONLY | Write => O_WRONLY | ReadWrite => O_RDWR end.
Definition creation_as_oflag (m : CreationMode) : Z :=
  match m with PurgeAndCreate | CreateExclusive => Z.lor O_CREAT O_EXCL | OpenOrCreate => O_CREAT end.

(** ** The operating system *)

Record stat_t := mkStat { st_mode : Z; st_uid : Z; st_gid : Z; st_size : Z }.

Class DescriptorOs (W : Type) := {
  fcntl_getfd : Z → W → result unit Errno * W;
  os_dup : Z → W → result Z Errno * W;
  os_close : Z → W → result unit Errno * W;
  os_access : Path → W → result unit Errno * W;
  os_remove : Path → W → result unit Errno * W
}.
(** [os_lseek] goes to a place counted from the start. *)
Class FileOs (W : Type) := {
  os_open : Path → Z → W → result Z Errno * W;
  os_open_with_mode : Path → Z → Z → W → result Z Errno * W;
  os_read : Z → Z → W → result (list Z) Errno * W;
  os_write : Z → list Z → W → result Z Errno * W;
  os_lseek : Z → Z → W → result Z Errno * W;
  os_fstat : Z → W → result stat_t Errno * W;
  os_ftruncate : Z → Z → W → result unit Errno * W;
  os_fchmod : Z → Z → W → result unit Errno * W;
  os_fchown : Z → Z → Z → W → result unit Errno * W;
  os_fsync : Z → W → result unit Errno * W
}.

(** ** file_descriptor.rs *)

Record FileDescriptor := mkFileDescriptor { native_handle : Z; is_owned : bool }.

Section Descriptors.
Context {W : Type} `{!DescriptorOs W}.
Implicit Types (w : W) (d : FileDescriptor).

Definition non_owning_new (v : Z) : option FileDescriptor := if v <? 0 then None else Some (mkFileDescriptor v false).
Definition new_unchecked (v : Z) : FileDescriptor := mkFileDescriptor v true.

(** [FileDescriptor::new] of what a call has returned, with the errno it leaves. *)
Definition fd_new (r : result Z Errno) w : result FileDescriptor Errno * W :=
  match r with
  | Err e => (Err e, w)
  | Ok v => let '(r, w) := fcntl_getfd v w in (match r with Ok _ => Ok (mkFileDescriptor v true) | Err e => Err e end, w)
  end.

(** The counter of the loop only decides what is logged. *)
Fixpoint close_loop (fuel : nat) d w : outcome W :=
  match fuel with
  | O => Undefined
  | S fuel =>
      let '(r, w) := os_close (native_handle d) w in
      match r with
      | Ok _ => Return w
      | Err EINTR | Err EIO => close_loop fuel d w
      | Err _ => Panic
      end
  end.
Definition fd_drop (fuel : nat) d w : outcome W := if is_owned d then close_loop fuel d w else Return w.

Definition fd_clone d w : outcome (FileDescriptor * W) :=
  let '(r, w) := os_dup (native_handle d) w in
  match r with Ok v => Return (mkFileDescriptor v true, w) | Err _ => Panic end.
(** The assignment drops what [self] was. *)
Definition fd_clone_from (fuel : nat) self source w : outcome (FileDescriptor * W) :=
  let! w := close_loop fuel self w in
  let! '(d, w) := fd_clone source w in
  let! w := fd_drop fuel self w in
  Return (d, w).
End Descriptors.

(** ** file.rs *)

Inductive FileRemoveError :=
| RemoveInsufficientPermissions | CurrentlyInUse | RemoveLoopInSymbolicLinks | RemoveMaxSupportedPathLengthExceeded
| PartOfReadOnlyFileSystem | FileRemoveUnknownError (e : Errno).
Inductive FileAccessError := LoopInSymbolicLinks | MaxSupportedPathLengthExceeded | AccessUnknownError (e : Errno).
Inductive FileStatError := StatInvalidFileDescriptor | StatIOerror | StatFileTooBig | StatUnknownError (e : Errno).
Inductive FileSetPermissionError :=
| PermissionInvalidFileDescriptor | PermissionInsufficientPermissions | PermissionReadOnlyFilesystem | PermissionUnknownError (e : Errno).
Inductive FileSetOwnerError :=
| OwnerInvalidFileDescriptor | OwnerInsufficientPermissions | OwnerReadOnlyFilesystem | InvalidId | OwnerIOerror | OwnerInterrupt
| OwnerUnknownError (e : Errno).
Inductive FileTruncateError :=
| TruncateInterrupt | SizeTooBig | TruncateIOerror | FileNotOpenedForWriting | TruncateReadOnlyFilesystem | TruncateUnknownError (e : Errno).
Inductive FileOffsetError := OffsetInvalidFileDescriptor | OffsetFileTooBig | DoesNotSupportSeeking | OffsetUnknownError (e : Errno).
Inductive FileReadError :=
| ReadInterrupt | ReadIOerror | ReadIsDirectory | ReadFileTooBig | ReadInsufficientResources | ReadInsufficientMemory
| ReadNonExistingOrIncapableDevice | ReadUnknownError (e : Errno) | ReadOffsetError (e : FileOffsetError) | ReadStatError (e : FileStatError).
Inductive FileWriteError :=
| WriteInterrupt | WriteBufferTooBig | WriteIOerror | WriteNoSpaceLeft | WriteInsufficientResources | WriteInsufficientPermissions
| WriteNonExistingOrIncapableDevice | WriteUnknownError (e : Errno) | WriteOffsetError (e : FileOffsetError).
Inductive FileSyncError := SyncInterrupt | SyncNotSupported | SyncIOerror | SyncUnknownError (e : Errno).
Inductive FileCreationError :=
| CreateInsufficientPermissions | CreateInsufficientMemory | FileAlreadyExists | NoSpaceLeft | CreateFileTooBig | CreateInterrupt
| CreateIsDirectory | CreateLoopInSymbolicLinks | CreateFilesytemIsReadOnly | DirectoryDoesNotExist
| CreatePerProcessFileHandleLimitReached | CreateSystemWideFileHandleLimitReached | CreateMaxFilePathLengthExceeded
| CreateUnknownError (e : Errno) | CreateStatError (e : FileStatError) | CreateSetOwnerError (e : FileSetOwnerError)
| CreateTruncateError (e : FileTruncateError) | CreateSetPermissionError (e : FileSetPermissionError)
| CreateAccessError (e : FileAccessError) | CreateFileRemoveError (e : FileRemoveError).
Inductive FileOpenError :=
| OpenInsufficientPermissions | OpenInsufficientMemory | FileDoesNotExist | OpenFileTooBig | OpenFileInterrupt | OpenIsDirectory
| OpenLoopInSymbolicLinks | OpenFilesytemIsReadOnly | OpenFilePerProcessHandleLimitReached | OpenFileSystemWideHandleLimitReached
| OpenMaxFilePathLengthExceeded | OpenFileUnknownError (e : Errno).

Record FileBuilder := mkFileBuilder {
  fb_file_path : Path;
  fb_access_mode : AccessMode;
  fb_permission : Z;
  fb_owner : option Z;
  fb_group : option Z;
  fb_truncate_size : option Z;
  fb_creation_mode : option CreationMode
}.
(** [owner_all]: [Permission::OWNER_ALL] *)
Definition file_builder_new (p : Path) (owner_all : Z) : FileBuilder := mkFileBuilder p Read owner_all None None None None.
Definition with_creation_mode (b : FileBuilder) (m : CreationMode) : FileBuilder :=
  mkFileBuilder (fb_file_path b) ReadWrite (fb_permission b) (fb_owner b) (fb_group b) (fb_truncate_size b) (Some m).
Definition with_access_mode (b : FileBuilder) (a : AccessMode) : FileBuilder :=
  mkFileBuilder (fb_file_path b) a (fb_permission b) (fb_owner b) (fb_group b) (fb_truncate_size b) (fb_creation_mode b).
Definition with_permission (b : FileBuilder) (v : Z) : FileBuilder :=
  mkFileBuilder (fb_file_path b) (fb_access_mode b) v (fb_owner b) (fb_group b) (fb_truncate_size b) (fb_creation_mode b).
Definition with_owner (b : FileBuilder) (v : Z) : FileBuilder :=
  mkFileBuilder (fb_file_path b) (fb_access_mode b) (fb_permission b) (Some v) (fb_group b) (fb_truncate_size b) (fb_creation_mode b).
Definition with_group (b : FileBuilder) (v : Z) : FileBuilder :=
  mkFileBuilder (fb_file_path b) (fb_access_mode b) (fb_permission b) (fb_owner b) (Some v) (fb_truncate_size b) (fb_creation_mode b).
Definition with_truncate_size (b : FileBuilder) (v : Z) : FileBuilder :=
  mkFileBuilder (fb_file_path b) (fb_access_mode b) (fb_permission b) (fb_owner b) (fb_group b) (Some v) (fb_creation_mode b).

Record File := mkFile { f_path : option Path; file_descriptor : FileDescriptor }.
Definition from_file_descriptor (d : FileDescriptor) : File := mkFile None d.

Section Paths.
Context {W : Type} `{!DescriptorOs W}.
Implicit Types (w : W) (p : Path).

Definition file_does_exist p w : result bool FileAccessError * W :=
  let '(r, w) := os_access p w in
  (match r with
   | Ok _ => Ok true
   | Err ENOENT => Ok false
   | Err ELOOP => Err LoopInSymbolicLinks
   | Err ENAMETOOLONG => Err MaxSupportedPathLengthExceeded
   | Err v => Err (AccessUnknownError v)
   end, w).

Definition file_remove p w : result bool FileRemoveError * W :=
  let '(r, w) := os_remove p w in
  (match r with
   | Ok _ => Ok true
   | Err ENOENT => Ok false
   | Err EACCES | Err EPERM => Err RemoveInsufficientPermissions
   | Err EBUSY => Err CurrentlyInUse
   | Err ELOOP => Err RemoveLoopInSymbolicLinks
   | Err ENAMETOOLONG => Err RemoveMaxSupportedPathLengthExceeded
   | Err EROFS => Err PartOfReadOnlyFileSystem
   | Err v => Err (FileRemoveUnknownError v)
   end, w).

(** [self] is dropped afterwards. *)
Definition remove_self (fuel : nat) (f : File) w : outcome (result bool FileRemoveError * W) :=
  let '(r, w) := match f_path f with None => (Ok false, w) | Some p => file_remove p w end in
  let! w := fd_drop fuel (file_descriptor f) w in Return (r, w).
End Paths.

Section Operations.
Context `{P : Profile} {W : Type} `{!DescriptorOs W, !FileOs W}.
Implicit Types (w : W) (p : Path) (f : File) (b : FileBuilder).

(** *** On descriptors *)

Definition file_truncate f (size : Z) w : result unit FileTruncateError * W :=
  let '(r, w) := os_ftruncate (native_handle (file_descriptor f)) (as_i64 size) w in
  (match r with
   | Ok _ => Ok tt
   | Err EINTR => Err TruncateInterrupt
   | Err EINVAL | Err EFBIG => Err SizeTooBig
   | Err EIO => Err TruncateIOerror
   | Err EBADF => Err FileNotOpenedForWriting
   | Err EROFS => Err TruncateReadOnlyFilesystem
   | Err v => Err (TruncateUnknownError v)
   end, w).

Definition acquire_attributes f w : result stat_t FileStatError * W :=
  let '(r, w) := os_fstat (native_handle (file_descriptor f)) w in
  (match r with
   | Ok st => Ok st
   | Err EBADF => Err StatInvalidFileDescriptor
   | Err EIO => Err StatIOerror
   | Err EOVERFLOW => Err StatFileTooBig
   | Err v => Err (StatUnknownError v)
   end, w).

Definition set_offset f (offset : Z) w : result Z FileOffsetError * W :=
  let '(r, w) := os_lseek (native_handle (file_descriptor f)) (as_i64 offset) w in
  (match r with
   | Ok v => Ok v
   | Err EBADF => Err OffsetInvalidFileDescriptor
   | Err EOVERFLOW => Err OffsetFileTooBig
   | Err v => Err (OffsetUnknownError v)
   end, w).

Definition set_permission f (permission : Z) w : result unit FileSetPermissionError * W :=
  let '(r, w) := os_fchmod (native_handle (file_descriptor f)) permission w in
  (match r with
   | Ok _ => Ok tt
   | Err EBADF => Err PermissionInvalidFileDescriptor
   | Err EPERM => Err PermissionInsufficientPermissions
   | Err EROFS => Err PermissionReadOnlyFilesystem
   | Err v => Err (PermissionUnknownError v)
   end, w).

Definition set_ownership f (uid gid : Z) w : result unit FileSetOwnerError * W :=
  let '(r, w) := os_fchown (native_handle (file_descriptor f)) uid gid w in
  (match r with
   | Ok _ => Ok tt
   | Err EBADF => Err OwnerInvalidFileDescriptor
   | Err EPERM => Err OwnerInsufficientPermissions
   | Err EROFS => Err OwnerReadOnlyFilesystem
   | Err EINVAL => Err InvalidId
   | Err EIO => Err OwnerIOerror
   | Err EINTR => Err OwnerInterrupt
   | Err v => Err (OwnerUnknownError v)
   end, w).

Definition flush f w : result unit FileSyncError * W :=
  let '(r, w) := os_fsync (native_handle (file_descriptor f)) w in
  (match r with
   | Ok _ => Ok tt
   | Err EINTR => Err SyncInterrupt
   | Err EINVAL => Err SyncNotSupported
   | Err EIO => Err SyncIOerror
   | Err v => Err (SyncUnknownError v)
   end, w).

(** *** Reading and writing *)

(** [buf]: what the slice holds before, and with the result what it holds then. *)
Definition read_range f (start : Z) (buf : list Z) w : result Z FileReadError * list Z * W :=
  let '(r, w) := set_offset f start w in
  match r with
  | Err e => (Err (ReadOffsetError e), buf, w)
  | Ok offset =>
      if negb (offset =? start) then (Ok 0, buf, w)
      else
        let '(r, w) := os_read (native_handle (file_descriptor f)) (Z.of_nat (length buf)) w in
        match r with
        | Ok bytes => (Ok (Z.of_nat (length bytes)), bytes ++ drop (length bytes) buf, w)
        | Err EINTR => (Err ReadInterrupt, buf, w)
        | Err EIO => (Err ReadIOerror, buf, w)
        | Err EISDIR => (Err ReadIsDirectory, buf, w)
        | Err EOVERFLOW => (Err ReadFileTooBig, buf, w)
        | Err ENOBUFS => (Err ReadInsufficientResources, buf, w)
        | Err ENOMEM => (Err ReadInsufficientMemory, buf, w)
        | Err v => (Err (ReadUnknownError v), buf, w)
        end
  end.
Definition read f buf w := read_range f 0 buf w.

(** [resize] and read into the new end. *)
Definition read_behind f (start n : Z) (buf : list Z) w : outcome (result Z FileReadError * list Z * W) :=
  let! _ := uadd n (Z.of_nat (length buf)) in
  let '(r, tail, w) := read_range f start (replicate (Z.to_nat n) 0) w in Return (r, buf ++ tail, w).
Definition read_to_vector f (buf : list Z) w : outcome (result Z FileReadError * list Z * W) :=
  let '(r, w) := acquire_attributes f w in
  match r with
  | Err e => Return (Err (ReadStatError e), buf, w)
  | Ok attr => read_behind f 0 (st_size attr) buf w
  end.
Definition read_range_to_vector f (start stop : Z) (buf : list Z) w : outcome (result Z FileReadError * list Z * W) :=
  if stop <=? start then Return (Ok 0, buf, w) else read_behind f start (stop - start) buf w.

Definition write_at f (start : Z) (buf : list Z) w : result Z FileWriteError * W :=
  let '(r, w) := set_offset f start w in
  match r with
  | Err e => (Err (WriteOffsetError e), w)
  | Ok offset =>
      if negb (offset =? start) then (Ok 0, w)
      else
        let '(r, w) := os_write (native_handle (file_descriptor f)) buf w in
        (match r with
         | Ok k => Ok k
         | Err EFBIG => Err WriteBufferTooBig
         | Err EINTR => Err WriteInterrupt
         | Err EIO => Err WriteIOerror
         | Err ENOSPC => Err WriteNoSpaceLeft
         | Err ENOBUFS => Err WriteInsufficientResources
         | Err EACCES => Err WriteInsufficientPermissions
         | Err v => Err (WriteUnknownError v)
         end, w)
  end.
Definition write f buf w := write_at f 0 buf w.

(** *** Creating and opening *)

Definition creation_error (e : Errno) : FileCreationError :=
  match e with
  | EACCES => CreateInsufficientPermissions | EEXIST => FileAlreadyExists | EINTR => CreateInterrupt | ENOENT => DirectoryDoesNotExist
  | EISDIR => CreateIsDirectory | ELOOP => CreateLoopInSymbolicLinks | EMFILE => CreatePerProcessFileHandleLimitReached
  | ENAMETOOLONG => CreateMaxFilePathLengthExceeded | ENFILE => CreateSystemWideFileHandleLimitReached | EOVERFLOW => CreateFileTooBig
  | ENOSPC => NoSpaceLeft | EROFS => CreateFilesytemIsReadOnly | ENOMEM => CreateInsufficientMemory | v => CreateUnknownError v
  end.
Definition open_error (e : Errno) : FileOpenError :=
  match e with
  | EACCES => OpenInsufficientPermissions | EINTR => OpenFileInterrupt | EISDIR => OpenIsDirectory | ELOOP => OpenLoopInSymbolicLinks
  | EMFILE => OpenFilePerProcessHandleLimitReached | ENAMETOOLONG => OpenMaxFilePathLengthExceeded
  | ENFILE => OpenFileSystemWideHandleLimitReached | ENOENT => FileDoesNotExist | EOVERFLOW => OpenFileTooBig
  | EROFS => OpenFilesytemIsReadOnly | ENOMEM => OpenInsufficientMemory | v => OpenFileUnknownError v
  end.

(** The closure [create_file]. *)
Definition create_file b (m : CreationMode) w : result FileDescriptor Errno * W :=
  let '(r, w) := os_open_with_mode (fb_file_path b) (Z.lor (creation_as_oflag m) (access_as_oflag (fb_access_mode b))) (fb_permission b) w in
  fd_new r w.
Definition open_file b w : result FileDescriptor Errno * W :=
  let '(r, w) := os_open (fb_file_path b) (access_as_oflag (fb_access_mode b)) w in fd_new r w.

Definition file_of b (r : result FileDescriptor Errno) : result File FileCreationError :=
  match r with Ok d => Ok (mkFile (Some (fb_file_path b)) d) | Err e => Err (creation_error e) end.

Definition file_create b w : outcome (result File FileCreationError * W) :=
  match fb_creation_mode b with
  | None => Panic
  | Some CreateExclusive => let '(r, w) := create_file b CreateExclusive w in Return (file_of b r, w)
  | Some PurgeAndCreate =>
      let '(r, w) := file_does_exist (fb_file_path b) w in
      match r with
      | Err e => Return (Err (CreateAccessError e), w)
      | Ok false => let '(r, w) := create_file b PurgeAndCreate w in Return (file_of b r, w)
      | Ok true =>
          let '(r, w) := file_remove (fb_file_path b) w in
          match r with
          | Err e => Return (Err (CreateFileRemoveError e), w)
          | Ok _ => let '(r, w) := create_file b PurgeAndCreate w in Return (file_of b r, w)
          end
      end
  | Some OpenOrCreate =>
      let '(r, w) := file_does_exist (fb_file_path b) w in
      match r with
      | Err e => Return (Err (CreateAccessError e), w)
      | Ok true => let '(r, w) := open_file b w in Return (file_of b r, w)
      | Ok false => let '(r, w) := create_file b OpenOrCreate w in Return (file_of b r, w)
      end
  end.

Definition file_open b w : result File FileOpenError * W :=
  let '(r, w) := open_file b w in
  (match r with Ok d => Ok (mkFile (Some (fb_file_path b)) d) | Err e => Err (open_error e) end, w).
Definition open_existing b (a : AccessMode) w := file_open (with_access_mode b a) w.

(** A setting of the new file; where it fails the file is closed. *)
Definition apply (fuel : nat) {E} (f : File) (map : E → FileCreationError) (call : W → result unit E * W)
    (k : W → outcome (result File FileCreationError * W)) w : outcome (result File FileCreationError * W) :=
  let '(r, w) := call w in
  match r with
  | Ok _ => k w
  | Err e => let! w := fd_drop fuel (file_descriptor f) w in Return (Err (map e), w)
  end.

(** [FileCreationBuilder::create] *)
Definition builder_create (fuel : nat) b w : outcome (result File FileCreationError * W) :=
  let! '(r, w) := file_create b w in
  match r with
  | Err e => Return (Err e, w)
  | Ok f =>
      apply fuel f CreateSetPermissionError (set_permission f (fb_permission b))
      (apply fuel f CreateTruncateError
         (λ w, match fb_truncate_size b with Some n => file_truncate f n w | None => (Ok tt, w) end)
      (λ w, match fb_owner b, fb_group b with
            | None, None => Return (Ok f, w)
            | o, g =>
                let '(r, w) := acquire_attributes f w in
                match r with
                | Err e => let! w := fd_drop fuel (file_descriptor f) w in Return (Err (CreateStatError e), w)
                | Ok st => apply fuel f CreateSetOwnerError (set_ownership f (default (st_uid st) o) (default (st_gid st) g))
                             (λ w, Return (Ok f, w)) w
                end
            end)) w
  end.
End Operations.

(** ** What POSIX says

    Names of files, their contents, and the open files of this process. *)

Record Inode := mkInode { i_content : list Z; i_mode : Z; i_uid : Z; i_gid : Z }.
Record OpenFile := mkOpenFile { of_inode : Z; of_flags : Z; of_offset : Z }.
Record FileSystem := mkFileSystem { fs_paths : gmap Path Z; fs_inodes : gmap Z Inode; fs_open : gmap Z OpenFile }.

Definition set_open (s : FileSystem) (d : Z) (o : OpenFile) : FileSystem :=
  mkFileSystem (fs_paths s) (fs_inodes s) (<[d := o]> (fs_open s)).
Definition delete_open (s : FileSystem) (d : Z) : FileSystem := mkFileSystem (fs_paths s) (fs_inodes s) (delete d (fs_open s)).
Definition set_inode (s : FileSystem) (id : Z) (i : Inode) : FileSystem :=
  mkFileSystem (fs_paths s) (<[id := i]> (fs_inodes s)) (fs_open s).
Definition with_content (i : Inode) (l : list Z) : Inode := mkInode l (i_mode i) (i_uid i) (i_gid i).
Definition seek (o : OpenFile) (offset : Z) : OpenFile := mkOpenFile (of_inode o) (of_flags o) offset.

(** [bytes] written at [offset]; a gap is filled with zeros. *)
Definition overwrite (offset : nat) (bytes l : list Z) : list Z :=
  take offset l ++ replicate (offset - length l) 0 ++ bytes ++ drop (offset + length bytes) l.
Definition resized (n : nat) (l : list Z) : list Z := take n l ++ replicate (n - length l) 0.

(** The descriptor [d] is the open file [o] with the inode [i]. *)
Definition has_file (s : FileSystem) (d : Z) (o : OpenFile) (i : Inode) : Prop :=
  fs_open s !! d = Some o ∧ fs_inodes s !! of_inode o = Some i.

Class FileLaws (W : Type) `{!DescriptorOs W, !FileOs W} := {
  file_system : W → FileSystem;
  fcntl_getfd_law d w r w' :
    fcntl_getfd d w = (r, w') → file_system w' = file_system w ∧ (is_Some (fs_open (file_system w) !! d) → r = Ok tt);
  os_access_law p w r w' :
    os_access p w = (r, w') →
    file_system w' = file_system w ∧
    match r with
    | Ok _ => is_Some (fs_paths (file_system w) !! p)
    | Err e => e = ENOENT → fs_paths (file_system w) !! p = None
    end;
  os_remove_law p w r w' :
    os_remove p w = (r, w') →
    match r with
    | Ok _ => file_system w' = mkFileSystem (delete p (fs_paths (file_system w))) (fs_inodes (file_system w)) (fs_open (file_system w))
    | Err e => file_system w' = file_system w ∧ (e = ENOENT → fs_paths (file_system w) !! p = None)
    end;
  os_open_law p flags w r w' :
    os_open p flags w = (r, w') →
    match r with
    | Ok d => ∃ id i, fs_paths (file_system w) !! p = Some id ∧ fs_inodes (file_system w) !! id = Some i ∧
        fs_open (file_system w) !! d = None ∧ file_system w' = set_open (file_system w) d (mkOpenFile id flags 0)
    | Err e => file_system w' = file_system w ∧ (e = ENOENT → fs_paths (file_system w) !! p = None)
    end;
  os_open_with_mode_law p flags mode w r w' :
    os_open_with_mode p flags mode w = (r, w') → Z.land flags O_CREAT = O_CREAT →
    match r with
    | Ok d => fs_open (file_system w) !! d = None ∧
        match fs_paths (file_system w) !! p with
        | Some id => Z.land flags O_EXCL = 0 ∧ is_Some (fs_inodes (file_system w) !! id) ∧
            file_system w' = set_open (file_system w) d (mkOpenFile id flags 0)
        | None => ∃ id i, fs_inodes (file_system w) !! id = None ∧ i_content i = [] ∧
            file_system w' = mkFileSystem (<[p := id]> (fs_paths (file_system w))) (<[id := i]> (fs_inodes (file_system w)))
                                          (<[d := mkOpenFile id flags 0]> (fs_open (file_system w)))
        end
    | Err e => file_system w' = file_system w ∧ (e = EEXIST → is_Some (fs_paths (file_system w) !! p))
    end;
  os_lseek_law d n w r w' o i :
    os_lseek d n w = (r, w') → has_file (file_system w) d o i →
    match r with
    | Ok v => 0 ≤ n ∧ v = n ∧ file_system w' = set_open (file_system w) d (seek o n)
    | Err _ => file_system w' = file_system w
    end;
  os_read_law d n w r w' o i :
    os_read d n w = (r, w') → 0 ≤ n → has_file (file_system w) d o i →
    match r with
    | Ok bytes => ∃ k, bytes = take k (drop (Z.to_nat (of_offset o)) (i_content i)) ∧ Z.of_nat (length bytes) ≤ n ∧
        (bytes = [] → n = 0 ∨ drop (Z.to_nat (of_offset o)) (i_content i) = []) ∧
        file_system w' = set_open (file_system w) d (seek o (of_offset o + Z.of_nat (length bytes)))
    | Err _ => file_system w' = file_system w
    end;
  os_write_law d bytes w r w' o i :
    os_write d bytes w = (r, w') → has_file (file_system w) d o i →
    match r with
    | Ok k => 0 ≤ k ≤ Z.of_nat (length bytes) ∧
        file_system w' = set_inode (set_open (file_system w) d (seek o (of_offset o + k))) (of_inode o)
          (with_content i (overwrite (Z.to_nat (of_offset o)) (take (Z.to_nat k) bytes) (i_content i)))
    | Err _ => file_system w' = file_system w
    end;
  os_fstat_law d w r w' o i :
    os_fstat d w = (r, w') → has_file (file_system w) d o i →
    file_system w' = file_system w ∧
    match r with Ok st => st = mkStat (i_mode i) (i_uid i) (i_gid i) (Z.of_nat (length (i_content i))) | Err _ => True end;
  os_ftruncate_law d n w r w' o i :
    os_ftruncate d n w = (r, w') → has_file (file_system w) d o i →
    match r with
    | Ok _ => 0 ≤ n ∧ file_system w' = set_inode (file_system w) (of_inode o) (with_content i (resized (Z.to_nat n) (i_content i)))
    | Err _ => file_system w' = file_system w
    end;
  os_fchmod_law d m w r w' o i :
    os_fchmod d m w = (r, w') → has_file (file_system w) d o i →
    match r with
    | Ok _ => file_system w' = set_inode (file_system w) (of_inode o) (mkInode (i_content i) m (i_uid i) (i_gid i))
    | Err _ => file_system w' = file_system w
    end;
  os_fchown_law d u g w r w' o i :
    os_fchown d u g w = (r, w') → has_file (file_system w) d o i →
    match r with
    | Ok _ => ∃ m, file_system w' = set_inode (file_system w) (of_inode o) (mkInode (i_content i) m u g)
    | Err _ => file_system w' = file_system w
    end
}.

(** ** Reading what was written *)

Lemma length_overwrite_prefix (offset : nat) (l : list Z) : length (take offset l ++ replicate (offset - length l) 0) = offset.
Proof. rewrite length_app, length_take, length_replicate. lia. Qed.

Lemma overwrite_read offset bytes (l : list Z) : take (length bytes) (drop offset (overwrite offset bytes l)) = bytes.
Proof.
  unfold overwrite. rewrite app_assoc, drop_app_length' by (by rewrite length_overwrite_prefix). by rewrite take_app_length.
Qed.

(** Elsewhere it is as before. *)
Lemma overwrite_elsewhere offset bytes (l : list Z) j :
  (j < offset ∨ offset + length bytes ≤ j)%nat → (j < length l)%nat → overwrite offset bytes l !! j = l !! j.
Proof.
  intros Hj Hl. unfold overwrite. destruct Hj as [Hj|Hj].
  - rewrite lookup_app_l by (rewrite length_take; lia). by apply lookup_take_lt.
  - rewrite app_assoc, lookup_app_r by (rewrite length_overwrite_prefix; lia). rewrite length_overwrite_prefix.
    rewrite lookup_app_r by lia. rewrite lookup_drop. f_equal. lia.
Qed.

Section Theorems.
Context `{P : Profile} {W : Type} `{!DescriptorOs W, !FileOs W, !FileLaws W}.
Implicit Types (w : W) (f : File) (p : Path).

(** The descriptor of [f] leads to the inode [id], which contains [l]. *)
Definition contains w f (id : Z) (l : list Z) : Prop :=
  ∃ o i, has_file (file_system w) (native_handle (file_descriptor f)) o i ∧ of_inode o = id ∧ i_content i = l.

(** Moving in one open file changes no contents. *)
Lemma contains_set_open w w' f f' id l o :
  contains w f id l → fs_open (file_system w) !! native_handle (file_descriptor f') = Some o →
  (∃ n, file_system w' = set_open (file_system w) (native_handle (file_descriptor f')) (seek o n)) → contains w' f id l.
Proof.
  intros (o1 & i & [H1 H2] & <- & <-) Ho [n Hw]. unfold contains, has_file. rewrite Hw. unfold set_open. cbn.
  destruct (decide (native_handle (file_descriptor f) = native_handle (file_descriptor f'))) as [He|Hne].
  - rewrite He in *. assert (o1 = o) as -> by congruence. exists (seek o n), i. rewrite lookup_insert_eq. done.
  - exists o1, i. rewrite lookup_insert_ne by done. done.
Qed.

Lemma set_offset_ok f n w r w' id l :
  set_offset f n w = (r, w') → contains w f id l → 0 ≤ n < I64 →
  match r with
  | Ok v => v = n ∧ (∃ o i, has_file (file_system w') (native_handle (file_descriptor f)) o i ∧ of_inode o = id ∧ i_content i = l ∧ of_offset o = n) ∧
      (∀ f' id' l', contains w f' id' l' → contains w' f' id' l')
  | Err _ => file_system w' = file_system w
  end.
Proof.
  intros Hs (o & i & Hf & <- & <-) Hn. unfold set_offset in Hs. assert (as_i64 n = n) as Hi by (unfold as_i64, I64, USIZE in *; rewrite Z.mod_small; lia).
  rewrite Hi in Hs. destruct (os_lseek _ n w) as [q w1] eqn:E. pose proof (os_lseek_law _ _ _ _ _ _ _ E Hf) as Hl. destruct q as [v|e].
  - simplify_eq/=. destruct Hl as (_ & -> & Hw). split; [done|]. pose proof Hf as [H1 H2]. split.
    + exists (seek o n), i. unfold has_file. rewrite Hw. cbn. by rewrite lookup_insert_eq.
    + intros f' id' l' Hc. eapply contains_set_open; [done|exact H1|eauto].
  - destruct e; simplify_eq/=; done.
Qed.

(** [read_range] gives a part of the content, and nothing only where there is nothing. *)
Lemma read_range_ok f start buf w id l k buf' w' :
  contains w f id l → 0 ≤ start < I64 → read_range f start buf w = (Ok k, buf', w') →
  0 ≤ k ≤ Z.of_nat (length buf) ∧ buf' = take (Z.to_nat k) (drop (Z.to_nat start) l) ++ drop (Z.to_nat k) buf ∧
  Z.of_nat (length (take (Z.to_nat k) (drop (Z.to_nat start) l))) = k ∧
  (k = 0 → buf = [] ∨ drop (Z.to_nat start) l = []) ∧ (∀ f' id' l', contains w f' id' l' → contains w' f' id' l').
Proof.
  intros Hc Hst Hr. unfold read_range in Hr. destruct (set_offset f start w) as [q w1] eqn:E.
  pose proof (set_offset_ok _ _ _ _ _ _ _ E Hc Hst) as Hs. destruct q as [v|e]; [|by simplify_eq].
  destruct Hs as (-> & (o & i & Hf & <- & <- & Ho) & Hm). rewrite Z.eqb_refl in Hr. cbn [negb] in Hr.
  destruct (os_read _ _ w1) as [q w2] eqn:Er. pose proof (os_read_law _ _ _ _ _ _ _ Er ltac:(lia) Hf) as Hl.
  destruct q as [bytes|e]; [|by destruct e; simplify_eq]. simplify_eq. destruct Hl as (k & Hb & Hle & H0 & Hw). rewrite Nat2Z.id.
  assert (take (length bytes) (drop (Z.to_nat (of_offset o)) (i_content i)) = bytes) as Ht.
  { rewrite Hb at 2. rewrite Hb, length_take. destruct (decide (k ≤ length (drop (Z.to_nat (of_offset o)) (i_content i)))%nat).
    - by rewrite Nat.min_l by done.
    - rewrite Nat.min_r by lia. rewrite !take_ge by lia. done. }
  rewrite Ht. split_and!; try lia; try done.
  - intros Hk. destruct bytes; [|done]. destruct (H0 eq_refl) as [Hn|Hn]; [left; by destruct buf|by right].
  - intros f' id' l' Hc'. destruct Hf as [H1 _]. eapply contains_set_open; [by apply Hm|exact H1|eauto].
Qed.

(** [write_at] replaces a part of the content, for every descriptor of the file. *)
Lemma write_at_ok f start buf w id l k w' :
  contains w f id l → 0 ≤ start < I64 → write_at f start buf w = (Ok k, w') →
  0 ≤ k ≤ Z.of_nat (length buf) ∧
  (∀ f', contains w f' id l → contains w' f' id (overwrite (Z.to_nat start) (take (Z.to_nat k) buf) l)) ∧
  (∀ f' id' l', id' ≠ id → contains w f' id' l' → contains w' f' id' l').
Proof.
  intros Hc Hst Hr. unfold write_at in Hr. destruct (set_offset f start w) as [q w1] eqn:E.
  pose proof (set_offset_ok _ _ _ _ _ _ _ E Hc Hst) as Hs. destruct q as [v|e]; [|by simplify_eq].
  destruct Hs as (-> & (o & i & Hf & <- & <- & <-) & Hm). rewrite Z.eqb_refl in Hr. cbn [negb] in Hr.
  destruct (os_write _ _ w1) as [q w2] eqn:Er. pose proof (os_write_law _ _ _ _ _ _ _ Er Hf) as Hl.
  destruct q as [k'|e]; [|by destruct e; simplify_eq]. simplify_eq. destruct Hl as (Hk & Hw). split; [done|]. destruct Hf as [H1 H2]. split.
  - intros f' Hc'. destruct (Hm _ _ _ Hc') as (o' & i' & [Ho' Hi'] & He & Hl'). rewrite He, H2 in Hi'. injection Hi' as <-.
    unfold contains, has_file. rewrite Hw. unfold set_inode, set_open. cbn.
    destruct (decide (native_handle (file_descriptor f') = native_handle (file_descriptor f))) as [Hd|Hd].
    + rewrite Hd, lookup_insert_eq. eexists _, _. split; [split; [done|cbn; by rewrite lookup_insert_eq]|]. done.
    + rewrite lookup_insert_ne by done. eexists o', _. rewrite Ho', He, lookup_insert_eq. done.
  - intros f' id' l' Hne Hc'. destruct (Hm _ _ _ Hc') as (o' & i' & [Ho' Hi'] & <- & <-).
    unfold contains, has_file. rewrite Hw. unfold set_inode, set_open. cbn.
    assert (native_handle (file_descriptor f') ≠ native_handle (file_descriptor f)) as Hd by (intros Hd; rewrite Hd in Ho'; congruence).
    exists o', i'. rewrite !lookup_insert_ne by done. done.
Qed.

(** What is written at a place of a file is what is read there: a write of [k] bytes
    and a read of as many, through any two descriptors of the file; reading says how many
    bytes it got, leaves the others of the slice alone, and gets none only if there are
    none. *)
Theorem written_bytes_are_read f f' start buf buf' id l k m out w w1 w2 :
  contains w f id l → contains w f' id l → 0 ≤ start < I64 →
  write_at f start buf w = (Ok k, w1) → read_range f' start buf' w1 = (Ok m, out, w2) → Z.of_nat (length buf') = k →
  0 ≤ m ≤ k ∧ out = take (Z.to_nat m) buf ++ drop (Z.to_nat m) buf' ∧ (m = 0 → k = 0).
Proof.
  intros Hf Hf' Hst Hw Hr Hl. destruct (write_at_ok _ _ _ _ _ _ _ _ Hf Hst Hw) as (Hk & Hc & _).
  specialize (Hc _ Hf'). destruct (read_range_ok _ _ _ _ _ _ _ _ _ Hc Hst Hr) as (Hm & -> & Hlen & H0 & _). split; [lia|].
  set (part := take (Z.to_nat k) buf) in *.
  assert (length part = Z.to_nat k) as Hp by (unfold part; rewrite length_take; lia).
  pose proof (overwrite_read (Z.to_nat start) part l) as Ho. rewrite Hp in Ho. split.
  - f_equal. replace (Z.to_nat m) with (Z.to_nat m `min` Z.to_nat k)%nat by lia.
    rewrite <- take_take, Ho. unfold part. by rewrite take_take.
  - intros Hm0. destruct (H0 Hm0) as [->|Hd]; [done|]. rewrite Hd, take_nil in Ho. rewrite <- Ho in Hp. cbn in Hp. lia.
Qed.

(** The vector grows by [n] bytes, also if fewer are read: the rest is zero. *)
Lemma read_behind_ok f start n buf w id l k buf' w' :
  contains w f id l → 0 ≤ start < I64 → 0 ≤ n → read_behind f start n buf w = Return (Ok k, buf', w') →
  0 ≤ k ≤ n ∧ buf' = buf ++ take (Z.to_nat k) (drop (Z.to_nat start) l) ++ replicate (Z.to_nat (n - k)) 0.
Proof.
  intros Hc Hst Hn. unfold read_behind. destruct (uadd _ _); cbn [obind]; [|done..].
  destruct (read_range f start _ w) as [[r tail] w1] eqn:E. intros [= -> <- <-].
  destruct (read_range_ok _ _ _ _ _ _ _ _ _ Hc Hst E) as (Hk & -> & _). rewrite length_replicate in Hk. split; [lia|].
  rewrite drop_replicate. do 3 f_equal. lia.
Qed.
Lemma read_to_vector_ok f buf w id l k buf' w' :
  contains w f id l → read_to_vector f buf w = Return (Ok k, buf', w') →
  0 ≤ k ≤ Z.of_nat (length l) ∧ buf' = buf ++ take (Z.to_nat k) l ++ replicate (length l - Z.to_nat k) 0.
Proof.
  intros (o & i & Hf & <- & <-). unfold read_to_vector, acquire_attributes. destruct (os_fstat _ w) as [q w1] eqn:E.
  destruct (os_fstat_law _ _ _ _ _ _ E Hf) as [Hk Hl]. destruct q as [st|e]; [|by destruct e]. subst st. cbn [st_size]. intros Hr.
  destruct (read_behind_ok f 0 (Z.of_nat (length (i_content i))) buf w1 (of_inode o) (i_content i) k buf' w') as [Hle ->]; [by exists o, i; rewrite Hk|by vm_compute|lia|done|].
  split; [lia|]. cbn [Z.to_nat]. rewrite drop_0. do 3 f_equal. lia.
Qed.

(** ** Creating *)

Lemma fd_new_ok r w d w' : fd_new r w = (Ok d, w') → r = Ok (native_handle d) ∧ is_owned d = true ∧ file_system w' = file_system w.
Proof.
  unfold fd_new. destruct r as [v|e]; [|done]. destruct (fcntl_getfd v w) as [q w1] eqn:E. apply fcntl_getfd_law in E as [E _].
  destruct q; [|done]. intros [= <- <-]. done.
Qed.

(** The new file has a new, empty inode; the others are as before. *)
Definition made w p f w' : Prop :=
  ∃ id, fs_inodes (file_system w) !! id = None ∧ fs_paths (file_system w') !! p = Some id ∧ contains w' f id [] ∧
    ∀ id', id' ≠ id → fs_inodes (file_system w') !! id' = fs_inodes (file_system w) !! id'.

Lemma land_creat m a : Z.land (Z.lor (creation_as_oflag m) (access_as_oflag a)) O_CREAT = O_CREAT.
Proof. by destruct m, a. Qed.

Lemma create_file_ok b m w d w' :
  create_file b m w = (Ok d, w') →
  (fs_paths (file_system w) !! fb_file_path b = None ∧ made w (fb_file_path b) (mkFile (Some (fb_file_path b)) d) w') ∨
  (m = OpenOrCreate ∧ ∃ id l, fs_paths (file_system w) !! fb_file_path b = Some id ∧
     contains w' (mkFile (Some (fb_file_path b)) d) id l ∧ fs_inodes (file_system w') = fs_inodes (file_system w) ∧
     fs_paths (file_system w') = fs_paths (file_system w)).
Proof.
  unfold create_file. destruct (os_open_with_mode _ _ _ w) as [r w1] eqn:E. intros Hf. apply fd_new_ok in Hf as (-> & _ & Hw).
  pose proof (os_open_with_mode_law _ _ _ _ _ _ E (land_creat _ _)) as [Hd Hl]. destruct (fs_paths (file_system w) !! fb_file_path b) as [id|] eqn:Ep.
  - right. destruct Hl as (Hx & [i Hi] & Hl). split; [by destruct m, (fb_access_mode b)|]. exists id, (i_content i). rewrite Hw, Hl. cbn.
    split; [done|]. split; [|done]. eexists _, i. unfold has_file. cbn. rewrite Hw, Hl. cbn. by rewrite lookup_insert_eq.
  - left. split; [done|]. destruct Hl as (id & i & Hid & Hi & Hl). exists id. unfold contains, has_file. rewrite Hw, Hl. cbn. rewrite !lookup_insert_eq.
    split; [done|]. split; [done|]. split; [|by intros; apply lookup_insert_ne].
    eexists _, i. split; [split; [done|cbn; by rewrite lookup_insert_eq]|done].
Qed.

Lemma file_does_exist_keeps p w r w' : file_does_exist p w = (r, w') → file_system w' = file_system w.
Proof. unfold file_does_exist. destruct (os_access p w) as [q w1] eqn:E. apply os_access_law in E as [E _]. by intros [= <- <-]. Qed.
Lemma file_does_exist_true p w w' : file_does_exist p w = (Ok true, w') → is_Some (fs_paths (file_system w) !! p).
Proof.
  unfold file_does_exist. destruct (os_access p w) as [q w1] eqn:E. apply os_access_law in E as [_ E]. destruct q as [u|e]; [done|by destruct e].
Qed.
Lemma file_does_exist_false p w w' : file_does_exist p w = (Ok false, w') → fs_paths (file_system w) !! p = None.
Proof.
  unfold file_does_exist. destruct (os_access p w) as [q w1] eqn:E. apply os_access_law in E as [_ E]. destruct q as [u|e]; [done|].
  destruct e; try done. auto.
Qed.
Lemma file_remove_inodes p w r w' : file_remove p w = (r, w') → fs_inodes (file_system w') = fs_inodes (file_system w).
Proof.
  unfold file_remove. destruct (os_remove p w) as [q w1] eqn:E. apply os_remove_law in E. intros [= _ <-]. destruct q; [by rewrite E|by destruct E as [-> _]].
Qed.

(** What [file_create] opens, in every mode. *)
Lemma file_create_ok b w f w' :
  file_create b w = Return (Ok f, w') →
  match fb_creation_mode b with
  | Some CreateExclusive => fs_paths (file_system w) !! fb_file_path b = None ∧ made w (fb_file_path b) f w'
  | Some PurgeAndCreate => made w (fb_file_path b) f w'
  | Some OpenOrCreate =>
      match fs_paths (file_system w) !! fb_file_path b with
      | None => made w (fb_file_path b) f w'
      | Some id => ∃ l, contains w' f id l ∧ fs_inodes (file_system w') = fs_inodes (file_system w)
      end
  | None => False
  end.
Proof.
  unfold file_create. destruct (fb_creation_mode b) as [[| |]|]; [| | |done].
  - destruct (create_file b _ w) as [r w1] eqn:E. intros [= Hr <-]. destruct r as [d|]; [|done]. injection Hr as <-.
    destruct (create_file_ok _ _ _ _ _ E) as [H|[? _]]; done.
  - destruct (file_does_exist _ w) as [r w1] eqn:Ee. pose proof (file_does_exist_keeps _ _ _ _ Ee) as Hk.
    assert (∀ w2 w3 r', fs_inodes (file_system w2) = fs_inodes (file_system w) → create_file b PurgeAndCreate w2 = (r', w3) →
      file_of b r' = Ok f → made w (fb_file_path b) f w3) as Hmade.
    { intros w2 w3 r' Hi E Hr. destruct r' as [d|]; [|done]. injection Hr as <-.
      destruct (create_file_ok _ _ _ _ _ E) as [(_ & id & H1 & H2 & H3 & H4)|[? _]]; [|done]. exists id. rewrite Hi in *. done. }
    destruct r as [[|]|e]; [| |done].
    + destruct (file_remove _ w1) as [r w2] eqn:Er. apply file_remove_inodes in Er. destruct r as [u|]; [|done].
      destruct (create_file b _ w2) as [r w3] eqn:E. intros [= Hr <-]. eapply (Hmade w2); [congruence|done..].
    + destruct (create_file b _ w1) as [r w3] eqn:E. intros [= Hr <-]. eapply (Hmade w1); [congruence|done..].
  - destruct (file_does_exist _ w) as [r w1] eqn:Ee. pose proof (file_does_exist_keeps _ _ _ _ Ee) as Hk. destruct r as [[|]|e]; [| |done].
    + unfold open_file. destruct (os_open _ _ w1) as [q w2] eqn:Eo. destruct (fd_new q w2) as [r w3] eqn:E. intros [= Hr <-].
      destruct r as [d|]; [|done]. injection Hr as <-. apply fd_new_ok in E as (-> & _ & Hw). apply os_open_law in Eo as (id & i & Hp & Hi & _ & Ho).
      rewrite Hk in *. rewrite Hp. exists (i_content i). unfold contains, has_file. rewrite Hw, Ho. cbn. rewrite lookup_insert_eq. split; [|done].
      by eexists _, i.
    + pose proof (file_does_exist_false _ _ _ Ee) as Hn. rewrite Hn. destruct (create_file b _ w1) as [r w3] eqn:E. intros [= Hr <-].
      destruct r as [d|]; [|done]. injection Hr as <-. destruct (create_file_ok _ _ _ _ _ E) as [(_ & id & H)|(_ & id & l & Hp & H)].
      * exists id. by rewrite Hk in H.
      * rewrite Hk in Hp. congruence.
Qed.

(** *** The settings of a new file *)

Definition inode_of w f (id : Z) (i : Inode) : Prop :=
  ∃ o, has_file (file_system w) (native_handle (file_descriptor f)) o i ∧ of_inode o = id.

Lemma contains_inode w f id l : contains w f id l ↔ ∃ i, inode_of w f id i ∧ i_content i = l.
Proof.
  split.
  - intros (o & i & Hf & <- & <-). exists i. split; [by exists o|done].
  - intros (i & (o & Hf & <-) & <-). by exists o, i.
Qed.
Lemma inode_of_set w w' f id i i' : inode_of w f id i → file_system w' = set_inode (file_system w) id i' → inode_of w' f id i'.
Proof.
  intros (o & [H1 H2] & <-) Hw. exists o. unfold has_file. rewrite Hw. cbn. by rewrite lookup_insert_eq.
Qed.
Lemma inode_of_same w w' f id i : inode_of w f id i → file_system w' = file_system w → inode_of w' f id i.
Proof. intros H Hw. unfold inode_of. by rewrite Hw. Qed.

Lemma set_permission_ok f v w w' id i :
  inode_of w f id i → set_permission f v w = (Ok tt, w') → inode_of w' f id (mkInode (i_content i) v (i_uid i) (i_gid i)).
Proof.
  intros Hi. unfold set_permission. destruct (os_fchmod _ v w) as [r w1] eqn:E. destruct Hi as (o & Hf & <-).
  pose proof (os_fchmod_law _ _ _ _ _ _ _ E Hf) as Hl. destruct r as [u|e]; [|by destruct e]. intros [= <-]. eapply inode_of_set; [|exact Hl]. by exists o.
Qed.
Lemma file_truncate_ok f n w w' id i :
  inode_of w f id i → 0 ≤ n < I64 → file_truncate f n w = (Ok tt, w') → inode_of w' f id (with_content i (resized (Z.to_nat n) (i_content i))).
Proof.
  intros Hi Hn. unfold file_truncate. assert (as_i64 n = n) as -> by (unfold as_i64, I64, USIZE in *; rewrite Z.mod_small; lia).
  destruct (os_ftruncate _ n w) as [r w1] eqn:E. destruct Hi as (o & Hf & <-).
  pose proof (os_ftruncate_law _ _ _ _ _ _ _ E Hf) as Hl. destruct r as [u|e]; [|by destruct e]. intros [= <-]. eapply inode_of_set; [|exact (proj2 Hl)]. by exists o.
Qed.
Lemma set_ownership_ok f u g w w' id i :
  inode_of w f id i → set_ownership f u g w = (Ok tt, w') → ∃ m, inode_of w' f id (mkInode (i_content i) m u g).
Proof.
  intros Hi. unfold set_ownership. destruct (os_fchown _ u g w) as [r w1] eqn:E. destruct Hi as (o & Hf & <-).
  pose proof (os_fchown_law _ _ _ _ _ _ _ _ E Hf) as Hl. destruct r as [x|e]; [|by destruct e]. intros [= <-].
  destruct Hl as [m Hl]. exists m. eapply inode_of_set; [|exact Hl]. by exists o.
Qed.
Lemma acquire_attributes_keeps f w r w' id i :
  inode_of w f id i → acquire_attributes f w = (r, w') → inode_of w' f id i ∧ ∀ st, r = Ok st → st = mkStat (i_mode i) (i_uid i) (i_gid i) (Z.of_nat (length (i_content i))).
Proof.
  intros (o & Hf & <-). unfold acquire_attributes. destruct (os_fstat _ w) as [q w1] eqn:E.
  destruct (os_fstat_law _ _ _ _ _ _ E Hf) as [Hk Hl]. intros [= <- <-]. split; [eapply inode_of_same; [by exists o|done]|].
  intros st. destruct q as [v|e]; [|by destruct e]. by intros [= <-].
Qed.

Lemma apply_ok fuel {E} f (map : E → FileCreationError) call k w f' w' :
  apply fuel f map call k w = Return (Ok f', w') → ∃ w1, call w = (Ok tt, w1) ∧ k w1 = Return (Ok f', w').
Proof.
  unfold apply. destruct (call w) as [[[]|e] w1]; [by eexists|]. by destruct (fd_drop _ _ w1).
Qed.

(** What the settings of [b] make of an inode. *)
Definition final_content b (l : list Z) : list Z := match fb_truncate_size b with Some n => resized (Z.to_nat n) l | None => l end.
Definition opened b w w' f (id : Z) (l : list Z) : Prop :=
  ∃ i, inode_of w' f id i ∧ i_content i = final_content b l ∧
    (fb_owner b = None → fb_group b = None → i_mode i = fb_permission b) ∧
    (∀ u, fb_owner b = Some u → i_uid i = u) ∧ (∀ g, fb_group b = Some g → i_gid i = g).

Lemma settings_ok fuel b w0 w f w' id i :
  file_create b w0 = Return (Ok f, w) → inode_of w f id i → (∀ n, fb_truncate_size b = Some n → 0 ≤ n < I64) →
  builder_create fuel b w0 = Return (Ok f, w') → opened b w0 w' f id (i_content i).
Proof.
  intros Hc Hi Hn. unfold builder_create. rewrite Hc. cbn [obind]. intros (w1 & Hp & H)%apply_ok.
  apply (set_permission_ok _ _ _ _ _ _ Hi) in Hp. apply apply_ok in H as (w2 & Ht & H).
  set (i1 := mkInode _ _ _ _) in Hp.
  assert (inode_of w2 f id (with_content i1 (final_content b (i_content i)))) as H2.
  { unfold final_content. destruct (fb_truncate_size b) as [n|]; [by apply (file_truncate_ok _ _ _ _ _ _ Hp (Hn n eq_refl)) in Ht|].
    injection Ht as <-. by destruct i. }
  set (i2 := with_content _ _) in H2.
  assert (∀ u g, (let '(r, w3) := acquire_attributes f w2 in
      match r with
      | Err e => let! w4 := fd_drop fuel (file_descriptor f) w3 in Return (Err (CreateStatError e), w4)
      | Ok st => apply fuel f CreateSetOwnerError (set_ownership f (default (st_uid st) u) (default (st_gid st) g)) (λ w4, Return (Ok f, w4)) w3
      end) = Return (Ok f, w') →
    ∃ m, inode_of w' f id (mkInode (i_content i2) m (default (i_uid i2) u) (default (i_gid i2) g))) as Hown.
  { intros u g Hr. destruct (acquire_attributes f w2) as [r w3] eqn:Ea. destruct (acquire_attributes_keeps _ _ _ _ _ _ H2 Ea) as [H3 Hst].
    destruct r as [st|e]; [|by destruct (fd_drop _ _ w3)]. rewrite (Hst st eq_refl) in Hr. apply apply_ok in Hr as (w4 & Ho & [= <-]).
    exact (set_ownership_ok _ _ _ _ _ _ _ H3 Ho). }
  unfold opened. destruct (fb_owner b) as [u|], (fb_group b) as [g|];
    try (destruct (Hown _ _ H) as [m Hm]; eexists; split; [exact Hm|]; cbn; split; [done|]; split; [done|]; split; congruence).
  injection H as <-. exists i2. done.
Qed.

(** *** Creating comes to an end *)

(** [f] is the only file that was opened since [w0]. *)
Definition held w0 f w : Prop :=
  let d := native_handle (file_descriptor f) in
  is_owned (file_descriptor f) = true ∧ fs_open (file_system w0) !! d = None ∧
  ∃ o i, fs_open (file_system w) = <[d := o]> (fs_open (file_system w0)) ∧ fs_inodes (file_system w) !! of_inode o = Some i.

Lemma held_from w0 w1 f w : fs_open (file_system w1) = fs_open (file_system w0) → held w1 f w → held w0 f w.
Proof. intros He. unfold held. by rewrite He. Qed.
Lemma held_has w0 f w : held w0 f w → ∃ o i, has_file (file_system w) (native_handle (file_descriptor f)) o i.
Proof. intros (_ & _ & o & i & Hw & Hi). exists o, i. split; [by rewrite Hw, lookup_insert_eq|done]. Qed.
Lemma held_set w0 f w w' id i : held w0 f w → file_system w' = set_inode (file_system w) id i → held w0 f w'.
Proof.
  intros (Ho & Hn & o & j & Hw & Hi) H. split; [done|]. split; [done|]. rewrite H. cbn. exists o. destruct (decide (of_inode o = id)) as [->|Hne].
  - exists i. by rewrite lookup_insert_eq.
  - exists j. by rewrite lookup_insert_ne.
Qed.
Lemma held_same w0 f w w' : held w0 f w → file_system w' = file_system w → held w0 f w'.
Proof. unfold held. by intros ? ->. Qed.

Lemma set_permission_held w0 f v w r w' : held w0 f w → set_permission f v w = (r, w') → held w0 f w'.
Proof.
  intros H. destruct (held_has _ _ _ H) as (o & i & Hf). unfold set_permission. destruct (os_fchmod _ v w) as [q w1] eqn:E.
  apply (os_fchmod_law _ _ _ _ _ o i) in E; [|done]. intros [= _ <-]. destruct q; [by eapply held_set|by eapply held_same].
Qed.
Lemma file_truncate_held w0 f n w r w' : held w0 f w → file_truncate f n w = (r, w') → held w0 f w'.
Proof.
  intros H. destruct (held_has _ _ _ H) as (o & i & Hf). unfold file_truncate. destruct (os_ftruncate _ _ w) as [q w1] eqn:E.
  apply (os_ftruncate_law _ _ _ _ _ o i) in E; [|done]. intros [= _ <-]. destruct q; [destruct E as [_ E]; by eapply held_set|by eapply held_same].
Qed.
Lemma set_ownership_held w0 f u g w r w' : held w0 f w → set_ownership f u g w = (r, w') → held w0 f w'.
Proof.
  intros H. destruct (held_has _ _ _ H) as (o & i & Hf). unfold set_ownership. destruct (os_fchown _ u g w) as [q w1] eqn:E.
  apply (os_fchown_law _ _ _ _ _ _ o i) in E; [|done]. intros [= _ <-]. destruct q; [destruct E; by eapply held_set|by eapply held_same].
Qed.
Lemma acquire_attributes_held w0 f w r w' : held w0 f w → acquire_attributes f w = (r, w') → held w0 f w'.
Proof.
  intros H. destruct (held_has _ _ _ H) as (o & i & Hf). unfold acquire_attributes. destruct (os_fstat _ w) as [q w1] eqn:E.
  apply (os_fstat_law _ _ _ _ o i) in E as [E _]; [|done]. intros [= _ <-]. by eapply held_same.
Qed.

(** What an opening call leaves. *)
Definition opens_one w0 b (r : result FileDescriptor Errno) w : Prop :=
  match r with Ok d => held w0 (mkFile (Some (fb_file_path b)) d) w | Err _ => fs_open (file_system w) = fs_open (file_system w0) end.

Lemma fd_new_opens w0 b d o i w r w' :
  fs_open (file_system w0) !! d = None → fs_open (file_system w) = <[d := o]> (fs_open (file_system w0)) →
  fs_inodes (file_system w) !! of_inode o = Some i → fd_new (Ok d) w = (r, w') → opens_one w0 b r w'.
Proof.
  intros Hn Ho Hi. unfold fd_new. destruct (fcntl_getfd d w) as [q w1] eqn:E. apply fcntl_getfd_law in E as [E ->]; [|rewrite Ho, lookup_insert_eq; by eexists].
  intros [= <- <-]. split; [done|]. split; [done|]. exists o, i. by rewrite E.
Qed.
Lemma create_file_opens b m w r w' : create_file b m w = (r, w') → opens_one w b r w'.
Proof.
  unfold create_file. destruct (os_open_with_mode _ _ _ w) as [[d|e] w1] eqn:E; pose proof (os_open_with_mode_law _ _ _ _ _ _ E (land_creat _ _)) as Hl.
  - destruct Hl as [Hd Hl]. destruct (fs_paths (file_system w) !! fb_file_path b) as [id|].
    + destruct Hl as (_ & [i Hi] & Hl). eapply fd_new_opens; [done|by rewrite Hl|by rewrite Hl].
    + destruct Hl as (id & i & _ & _ & Hl). eapply (fd_new_opens _ _ _ _ i); [done|by rewrite Hl|rewrite Hl; cbn; by rewrite lookup_insert_eq].
  - cbn. intros [= <- <-]. cbn. by destruct Hl as [-> _].
Qed.
Lemma open_file_opens b w r w' : open_file b w = (r, w') → opens_one w b r w'.
Proof.
  unfold open_file. destruct (os_open _ _ w) as [[d|e] w1] eqn:E; apply os_open_law in E.
  - destruct E as (id & i & _ & Hi & Hd & Hw). eapply fd_new_opens; [done|by rewrite Hw|by rewrite Hw].
  - cbn. intros [= <- <-]. cbn. by destruct E as [-> _].
Qed.
Lemma file_remove_open p w r w' : file_remove p w = (r, w') → fs_open (file_system w') = fs_open (file_system w).
Proof. unfold file_remove. destruct (os_remove p w) as [q w1] eqn:E. apply os_remove_law in E. intros [= _ <-]. destruct q; [by rewrite E|by destruct E as [-> _]]. Qed.

Definition creates_one w0 (r : result File FileCreationError) w : Prop :=
  match r with Ok f => held w0 f w | Err _ => fs_open (file_system w) = fs_open (file_system w0) end.
Lemma opens_creates w0 w1 b r w : fs_open (file_system w1) = fs_open (file_system w0) → opens_one w1 b r w → creates_one w0 (file_of b r) w.
Proof. intros He. destruct r as [d|e]; cbn; [by apply held_from|congruence]. Qed.

Lemma file_create_returns b w : fb_creation_mode b ≠ None → ∃ r w', file_create b w = Return (r, w') ∧ creates_one w r w'.
Proof.
  unfold file_create. destruct (fb_creation_mode b) as [[| |]|]; [| | |done]; intros _.
  - destruct (create_file b _ w) as [r w1] eqn:E. eexists _, _. split; [done|]. eapply opens_creates; [done|by eapply create_file_opens].
  - destruct (file_does_exist _ w) as [[[|]|e] w1] eqn:Ee; apply file_does_exist_keeps in Ee.
    + destruct (file_remove _ w1) as [[u|e] w2] eqn:Er; apply file_remove_open in Er; [|eexists _, _; split; [done|]; cbn; by rewrite Er, Ee].
      destruct (create_file b _ w2) as [r w3] eqn:E. eexists _, _. split; [done|]. eapply opens_creates; [by rewrite Er, Ee|by eapply create_file_opens].
    + destruct (create_file b _ w1) as [r w3] eqn:E. eexists _, _. split; [done|]. eapply opens_creates; [by rewrite Ee|by eapply create_file_opens].
    + eexists _, _. split; [done|]. cbn. by rewrite Ee.
  - destruct (file_does_exist _ w) as [[[|]|e] w1] eqn:Ee; apply file_does_exist_keeps in Ee.
    + destruct (open_file b w1) as [r w3] eqn:E. eexists _, _. split; [done|]. eapply opens_creates; [by rewrite Ee|by eapply open_file_opens].
    + destruct (create_file b _ w1) as [r w3] eqn:E. eexists _, _. split; [done|]. eapply opens_creates; [by rewrite Ee|by eapply create_file_opens].
    + eexists _, _. split; [done|]. cbn. by rewrite Ee.
Qed.

(** Closing an open file succeeds. *)
Definition closes : Prop :=
  ∀ d w, is_Some (fs_open (file_system w) !! d) → ∃ w', os_close d w = (Ok tt, w') ∧ file_system w' = delete_open (file_system w) d.

Lemma fd_drop_closes fuel w0 f w :
  closes → held w0 f w → ∃ w', fd_drop (S fuel) (file_descriptor f) w = Return w' ∧ fs_open (file_system w') = fs_open (file_system w0).
Proof.
  intros Hc (Ho & Hn & o & i & Hw & _). unfold fd_drop. rewrite Ho. cbn [close_loop].
  destruct (Hc (native_handle (file_descriptor f)) w) as (w1 & -> & H1); [rewrite Hw, lookup_insert_eq; by eexists|].
  exists w1. split; [done|]. rewrite H1. cbn. rewrite Hw. by apply delete_insert_id.
Qed.

(** The answer, and the open files that are left. *)
Definition settles w0 f (o : outcome (result File FileCreationError * W)) : Prop :=
  ∃ r w', o = Return (r, w') ∧ match r with Ok f' => f' = f ∧ held w0 f w' | Err _ => fs_open (file_system w') = fs_open (file_system w0) end.
Lemma fail_settles fuel w0 f w e : closes → held w0 f w → settles w0 f (let! w := fd_drop (S fuel) (file_descriptor f) w in Return (Err e, w)).
Proof. intros Hc Hh. destruct (fd_drop_closes fuel _ _ _ Hc Hh) as (w1 & -> & H1). by exists (Err e), w1. Qed.
Lemma apply_settles fuel w0 {E} f (map : E → FileCreationError) call k w :
  closes → held w0 f w → (∀ r w', call w = (r, w') → held w0 f w') → (∀ w', held w0 f w' → settles w0 f (k w')) →
  settles w0 f (apply (S fuel) f map call k w).
Proof.
  intros Hc Hh Hcall Hk. unfold apply. destruct (call w) as [[u|e] w1] eqn:E0; specialize (Hcall _ _ eq_refl); [by apply Hk|by apply fail_settles].
Qed.

Lemma builder_create_returns fuel b w :
  fb_creation_mode b ≠ None → closes → ∃ r w', builder_create (S fuel) b w = Return (r, w') ∧ creates_one w r w'.
Proof.
  intros Hm Hc. unfold builder_create. destruct (file_create_returns b w Hm) as (r & w1 & -> & Hr). cbn [obind].
  destruct r as [f|e]; [|by exists (Err e), w1]. cbn in Hr.
  assert (∀ o, settles w f o → ∃ r w', o = Return (r, w') ∧ creates_one w r w') as Hs.
  { intros o (r & w' & -> & H). exists r, w'. split; [done|]. destruct r; [by destruct H as [-> H]|done]. }
  apply Hs. apply apply_settles; [done|done|intros r w'; by apply set_permission_held|]. intros w2 H2.
  apply apply_settles; [done|done| |].
  { intros r w' H. destruct (fb_truncate_size b); [by eapply file_truncate_held|by injection H as _ <-]. }
  intros w3 H3.
  assert (∀ u g, settles w f (let '(r, w) := acquire_attributes f w3 in
      match r with
      | Err e => let! w := fd_drop (S fuel) (file_descriptor f) w in Return (Err (CreateStatError e), w)
      | Ok st => apply (S fuel) f CreateSetOwnerError (set_ownership f (default (st_uid st) u) (default (st_gid st) g)) (λ w, Return (Ok f, w)) w
      end)) as Hown.
  { intros u g. destruct (acquire_attributes f w3) as [[st|e] w4] eqn:Ea; apply (acquire_attributes_held w) in Ea; [|done|by apply fail_settles|done].
    apply apply_settles; [done|done|intros r w'; by apply set_ownership_held|]. intros w5 H5. by exists (Ok f), w5. }
  destruct (fb_owner b), (fb_group b); [apply Hown..|]. by exists (Ok f), w3.
Qed.

Lemma created_contents fuel b w f w' :
  (∀ n, fb_truncate_size b = Some n → 0 ≤ n < I64) →
  builder_create fuel b w = Return (Ok f, w') →
  match fb_creation_mode b, fs_paths (file_system w) !! fb_file_path b with
  | Some OpenOrCreate, Some id => ∃ i, fs_inodes (file_system w) !! id = Some i ∧ opened b w w' f id (i_content i)
  | Some CreateExclusive, Some _ | None, _ => False
  | Some _, _ => ∃ id, fs_inodes (file_system w) !! id = None ∧ opened b w w' f id []
  end.
Proof.
  intros Hn Hb. destruct (file_create b w) as [[[f1|e] w1]| |] eqn:Hc; [|unfold builder_create in Hb; by rewrite Hc in Hb..].
  assert (f1 = f) as ->.
  { unfold builder_create in Hb. rewrite Hc in Hb. cbn [obind] in Hb. apply apply_ok in Hb as (? & _ & Hb). apply apply_ok in Hb as (w2 & _ & Hb).
    destruct (fb_owner b), (fb_group b); [..|congruence]; destruct (acquire_attributes f1 w2) as [[st|e] w3];
      try (by destruct (fd_drop _ _ w3)); apply apply_ok in Hb as (? & _ & ?); congruence. }
  assert (∀ p, made w p f w1 → ∃ id, fs_inodes (file_system w) !! id = None ∧ opened b w w' f id []) as Hnew.
  { intros p (id & Hid & _ & (i & Hi & Hl)%contains_inode & _). exists id. split; [done|]. rewrite <- Hl. by eapply settings_ok. }
  pose proof (file_create_ok _ _ _ _ Hc) as H. destruct (fb_creation_mode b) as [[| |]|].
  - destruct H as [-> H]. by apply (Hnew (fb_file_path b)).
  - destruct (fs_paths (file_system w) !! fb_file_path b); by apply (Hnew (fb_file_path b)).
  - destruct (fs_paths (file_system w) !! fb_file_path b) as [id|]; [|by apply (Hnew (fb_file_path b))]. destruct H as (l & (i & Hi & Hl)%contains_inode & Hw). exists i.
    split; [|by eapply settings_ok]. destruct Hi as (o & [_ Hi] & <-). by rewrite <- Hw.
  - done.
Qed.

(** Creating a file with any settings comes to an end when closing a file succeeds. In
    every mode the file then contains what it should: one that is created exclusively is
    new, and its name was free; one that purges what was there is new; and one that opens or
    creates has what was there, if there was something - with the permissions (without a new
    owner or group, since changing those can change them), the owner, the group and the
    length that were asked for. Where the operating system refuses one of the steps there is
    an error, and no file stays open. *)
Theorem created_file_contents fuel b w :
  fb_creation_mode b ≠ None → (∀ n, fb_truncate_size b = Some n → 0 ≤ n < I64) → closes →
  ∃ r w', builder_create (S fuel) b w = Return (r, w') ∧
  match r with
  | Err _ => fs_open (file_system w') = fs_open (file_system w)
  | Ok f =>
      held w f w' ∧
      match fb_creation_mode b, fs_paths (file_system w) !! fb_file_path b with
      | Some OpenOrCreate, Some id => ∃ i, fs_inodes (file_system w) !! id = Some i ∧ opened b w w' f id (i_content i)
      | Some CreateExclusive, Some _ | None, _ => False
      | Some _, _ => ∃ id, fs_inodes (file_system w) !! id = None ∧ opened b w w' f id []
      end
  end.
Proof.
  intros Hm Hn Hc. destruct (builder_create_returns fuel b w Hm Hc) as (r & w' & Hb & Hr). exists r, w'. split; [done|].
  destruct r as [f|e]; [|done]. split; [done|]. by eapply created_contents.
Qed.
End Theorems.

(** ** Descriptors that are closed *)

Section Closing.
Context {W : Type} `{!DescriptorOs W}.

(** A call that is always interrupted is repeated for ever. *)
Lemma close_is_repeated fuel d w : (∀ w, os_close (native_handle d) w = (Err EINTR, w)) → close_loop fuel d w = Undefined.
Proof. intros Hi. revert w. induction fuel as [|fuel IH]; intros w; cbn; [done|]. by rewrite Hi. Qed.

(** [clone_from] closes the number of [self] twice. The operating system gives out the
    lowest number that is free, so that the second time closes the descriptor it has just
    made. *)
Lemma assigned_descriptor_is_closed fuel self source w w1 w2 w3 :
  is_owned self = true → os_close (native_handle self) w = (Ok tt, w1) →
  os_dup (native_handle source) w1 = (Ok (native_handle self), w2) → os_close (native_handle self) w2 = (Ok tt, w3) →
  fd_clone_from (S fuel) self source w = Return (mkFileDescriptor (native_handle self) true, w3).
Proof.
  intros Ho H1 H2 H3. unfold fd_clone_from, fd_drop, fd_clone. cbn [close_loop]. rewrite H1. cbn [obind]. rewrite H2. cbn [obind].
  by rewrite Ho, H3.
Qed.
End Closing.

(** ** A file system *)

Section Sample.
#[local] Instance files_checked : Profile := true.
Implicit Types s : FileSystem.

Definition open_inode s (id flags : Z) : result Z Errno * FileSystem :=
  let d := next_free (fs_open s) in (Ok d, set_open s d (mkOpenFile id flags 0)).
(** What [f] does with an open file. *)
Definition on_file {A} (d : Z) s (f : OpenFile → Inode → result A Errno * FileSystem) : result A Errno * FileSystem :=
  match (o ← fs_open s !! d; i ← fs_inodes s !! of_inode o; Some (o, i)) with Some (o, i) => f o i | None => (Err EBADF, s) end.

#[export] Instance sample_descriptors : DescriptorOs FileSystem := {
  fcntl_getfd d s := (match fs_open s !! d with Some _ => Ok tt | None => Err EBADF end, s);
  os_dup d s := match fs_open s !! d with Some o => let n := next_free (fs_open s) in (Ok n, set_open s n o) | None => (Err EBADF, s) end;
  os_close d s := match fs_open s !! d with Some _ => (Ok tt, delete_open s d) | None => (Err EBADF, s) end;
  os_access p s := (match fs_paths s !! p with Some _ => Ok tt | None => Err ENOENT end, s);
  os_remove p s :=
    match fs_paths s !! p with
    | Some _ => (Ok tt, mkFileSystem (delete p (fs_paths s)) (fs_inodes s) (fs_open s))
    | None => (Err ENOENT, s)
    end
}.
#[export] Instance sample_files : FileOs FileSystem := {
  os_open p flags s :=
    match (id ← fs_paths s !! p; _ ← fs_inodes s !! id; Some id) with Some id => open_inode s id flags | None => (Err (match fs_paths s !! p with Some _ => EIO | None => ENOENT end), s) end;
  os_open_with_mode p flags mode s :=
    match fs_paths s !! p with
    | Some id =>
        match fs_inodes s !! id with
        | Some _ => if Z.land flags O_EXCL =? 0 then open_inode s id flags else (Err EEXIST, s)
        | None => (Err EEXIST, s)
        end
    | None =>
        let id := next_free (fs_inodes s) in
        open_inode (mkFileSystem (<[p := id]> (fs_paths s)) (<[id := mkInode [] mode 1000 1000]> (fs_inodes s)) (fs_open s)) id flags
    end;
  os_read d n s := on_file d s (λ o i,
    let bytes := take (Z.to_nat n) (skipn (Z.to_nat (of_offset o)) (i_content i)) in
    (Ok bytes, set_open s d (seek o (of_offset o + Z.of_nat (length bytes)))));
  os_write d bytes s := on_file d s (λ o i,
    (Ok (Z.of_nat (length bytes)), set_inode (set_open s d (seek o (of_offset o + Z.of_nat (length bytes)))) (of_inode o)
       (with_content i (overwrite (Z.to_nat (of_offset o)) bytes (i_content i)))));
  os_lseek d n s := on_file d s (λ o _, if n <? 0 then (Err EINVAL, s) else (Ok n, set_open s d (seek o n)));
  os_fstat d s := on_file d s (λ _ i, (Ok (mkStat (i_mode i) (i_uid i) (i_gid i) (Z.of_nat (length (i_content i)))), s));
  os_ftruncate d n s := on_file d s (λ o i,
    if n <? 0 then (Err EINVAL, s) else (Ok tt, set_inode s (of_inode o) (with_content i (resized (Z.to_nat n) (i_content i)))));
  os_fchmod d m s := on_file d s (λ o i, (Ok tt, set_inode s (of_inode o) (mkInode (i_content i) m (i_uid i) (i_gid i))));
  os_fchown d u g s := on_file d s (λ o i, (Ok tt, set_inode s (of_inode o) (mkInode (i_content i) (i_mode i) u g)));
  os_fsync d s := on_file d s (λ _ _, (Ok tt, s))
}.

Lemma on_file_some {A} d s f o i : has_file s d o i → on_file (A := A) d s f = f o i.
Proof. intros [H1 H2]. unfold on_file. rewrite H1. cbn. by rewrite H2. Qed.

#[export] Instance sample_file_laws : FileLaws FileSystem.
Proof.
  refine {| file_system := id |}; unfold id.
  - intros d s r s'. cbn. intros [= <- <-]. split; [done|]. by intros [o ->].
  - intros p s r s'. cbn. intros [= <- <-]. split; [done|]. destruct (fs_paths s !! p); [by eexists|done].
  - intros p s r s'. cbn. destruct (fs_paths s !! p); intros [= <- <-]; [done|]. by split.
  - intros p flags s r s'. cbn. destruct (fs_paths s !! p) as [id|] eqn:Ep; cbn; [|intros [= <- <-]; by split].
    destruct (fs_inodes s !! id) as [i|] eqn:Ei; cbn; intros [= <- <-]; [|by split].
    exists id, i. split; [done|]. split; [done|]. split; [apply next_free_none|done].
  - intros p flags mode s r s'. cbn. destruct (fs_paths s !! p) as [id|] eqn:Ep.
    + destruct (fs_inodes s !! id) as [i|] eqn:Ei; cbn; [|intros [= <- <-] _; split; [done|by eexists]].
      destruct (Z.eqb_spec (Z.land flags O_EXCL) 0); intros [= <- <-] _; [|split; [done|by eexists]].
      split; [apply next_free_none|]. split; [done|]. split; [by eexists|done].
    + intros [= <- <-] _. split; [apply next_free_none|]. eexists _, _. split; [apply next_free_none|]. split; [|done]. done.
  - intros d n s r s' o i Hr Hf. cbn in Hr. rewrite (on_file_some _ _ _ _ _ Hf) in Hr. destruct (Z.ltb_spec n 0); simplify_eq; [done|]. split; [lia|done].
  - intros d n s r s' o i Hr Hn Hf. cbn in Hr. rewrite (on_file_some _ _ _ _ _ Hf) in Hr. simplify_eq.
    exists (Z.to_nat n). split; [done|]. split; [rewrite length_take; lia|]. split; [|done].
    intros Hb. destruct (skipn _ _); [by right|]. left. destruct (Z.to_nat n) eqn:E; [lia|done].
  - intros d bytes s r s' o i Hr Hf. cbn in Hr. rewrite (on_file_some _ _ _ _ _ Hf) in Hr. simplify_eq. split; [lia|].
    by rewrite Nat2Z.id, take_ge.
  - intros d s r s' o i Hr Hf. cbn in Hr. rewrite (on_file_some _ _ _ _ _ Hf) in Hr. by simplify_eq.
  - intros d n s r s' o i Hr Hf. cbn in Hr. rewrite (on_file_some _ _ _ _ _ Hf) in Hr. destruct (Z.ltb_spec n 0); simplify_eq; [done|]. split; [lia|done].
  - intros d m s r s' o i Hr Hf. cbn in Hr. rewrite (on_file_some _ _ _ _ _ Hf) in Hr. by simplify_eq.
  - intros d u g s r s' o i Hr Hf. cbn in Hr. rewrite (on_file_some _ _ _ _ _ Hf) in Hr. simplify_eq. by eexists.
Defined.

(** A file with two open descriptors. *)
Definition sample_fs : FileSystem :=
  mkFileSystem {[ [47; 97] := 1 ]} {[ 1 := mkInode [1; 2; 3; 4; 5] 384 1000 1000 ]}
    {[ 3 := mkOpenFile 1 O_RDWR 0; 4 := mkOpenFile 1 O_RDONLY 2 ]}.
Definition sample_file (d : Z) : File := mkFile (Some [47; 97]) (mkFileDescriptor d true).

Lemma written_bytes_are_read_witness :
  ∃ w1 w2, write_at (sample_file 3) 2 [7; 8] sample_fs = (Ok 2, w1) ∧ read_range (sample_file 4) 2 [0; 0] w1 = (Ok 2, [7; 8], w2) ∧
    0 ≤ 2 ≤ 2.
Proof.
  eexists _, _. split; [reflexivity|]. split; [vm_compute; reflexivity|].
  destruct (written_bytes_are_read (sample_file 3) (sample_file 4) 2 [7; 8] [0; 0] 1 [1; 2; 3; 4; 5] 2 2 [7; 8] sample_fs
    (write_at (sample_file 3) 2 [7; 8] sample_fs).2 (read_range (sample_file 4) 2 [0; 0] (write_at (sample_file 3) 2 [7; 8] sample_fs).2).2) as [H _].
  - by eexists _, _.
  - by eexists _, _.
  - by vm_compute.
  - reflexivity.
  - vm_compute. reflexivity.
  - reflexivity.
  - exact H.
Defined.

(** A file that shall be eight bytes long. *)
Definition sample_file_builder (m : CreationMode) (p : Path) : FileBuilder := with_truncate_size (with_creation_mode (file_builder_new p 448) m) 8.

Lemma created_file_contents_witness :
  ∃ f w', builder_create 1 (sample_file_builder OpenOrCreate [47; 97]) sample_fs = Return (Ok f, w') ∧
    opened (sample_file_builder OpenOrCreate [47; 97]) sample_fs w' f 1 [1; 2; 3; 4; 5].
Proof.
  destruct (created_file_contents 0 (sample_file_builder OpenOrCreate [47; 97]) sample_fs) as (r & w' & H & Hr).
  - done.
  - intros n [= <-]. by vm_compute.
  - intros d w [o Ho]. change (file_system w) with w in Ho. exists (delete_open w d). split; [cbn; by rewrite Ho|done].
  - destruct r as [f|e]; [|vm_compute in H; discriminate]. exists f, w'. split; [exact H|].
    destruct Hr as (_ & i & Hi & Ho). vm_compute in Hi. injection Hi as <-. exact Ho.
Defined.
End Sample.
