(* ===== verification/DatagramSocket.v ===== *)
(** * elkodon_bb/posix/src/unix_datagram_socket.rs

    Datagram sockets that live in the file system: creating a receiver, connecting a sender
    to it, sending and receiving without waiting, with a timeout and with waiting. The
    sockets are an interface ([SocketOs]); what POSIX and Linux say about them, as long as
    no call fails for want of resources, is [SocketLaws]. Messages with descriptors and
    credentials (socket_ancillary.rs) are not modelled.

    The theorems: receivers and senders of one name are one bounded queue of datagrams; a
    second receiver of a name that is refused removes the first one's file; a send that
    shall wait does not, and says that it has sent; a timeout of zero waits for ever. *)

From S2P Require Import Prelude Clock.
From S2P Require MessageQueue Files.

Import MessageQueue(CreationMode, CreateExclusive, PurgeAndCreate, OpenOrCreate, next_free, next_free_none).
Import Files(Path, DescriptorOs, fcntl_getfd, os_close, os_access, os_remove, FileDescriptor, mkFileDescriptor, native_handle, is_owned,
  fd_new, fd_drop, close_loop, file_does_exist, file_remove, FileAccessError, FileRemoveError).

Inductive UnixDatagramCreationError :=
| SocketNameTooLong | InsufficientPermissions | InsufficientResources | InsufficientMemory | PerProcessFileHandleLimitReached
| SystemWideFileHandleLimitReached | DatagramProtocolNotSupported | UnixDomainSocketsNotSupported | UnknownError (e : Errno).
Inductive UnixDatagramSenderCreationError :=
| SenderInsufficientPermissions | SenderInsufficientResources | AlreadyConnected | ConnectionRefused | ConnectInterrupt | ConnectReset
| WouldBlock | DoesNotExist | SenderUnknownError (e : Errno) | SenderCreationError (e : UnixDatagramCreationError).
Inductive UnixDatagramSetSocketOptionError := OptionInsufficientMemory | OptionInsufficientResources | OptionUnknownError (e : Errno).
Inductive UnixDatagramGetSocketOptionError :=
| GetInsufficientPermissions | GetInsufficientResources | SocketHasBeenShutDown | GetUnknownError (e : Errno).
Inductive UnixDatagramSetPropertyError := PropertyInterrupt | WouldCauseOverflow | PropertyUnknownError (e : Errno).
Inductive UnixDatagramReceiverCreationError :=
| SocketFileAlreadyExists | ReceiverInsufficientResources | ReceiverInsufficientPermissions | AddressAlreadyInUse | PathDoesNotExist
| ReadOnlyFileSytem | ReceiverUnknownError (e : Errno) | ReceiverOptionError (e : UnixDatagramSetSocketOptionError)
| ReceiverCreationError (e : UnixDatagramCreationError) | ReceiverAccessError (e : FileAccessError) | ReceiverRemoveError (e : FileRemoveError).
Inductive UnixDatagramSendError :=
| MessageTooLarge | SendConnectionReset | SendInterrupt | SendIOerror | SendInsufficientPermissions | SendInsufficientResources
| SendInsufficientMemory | SendNotConnected | MessagePartiallySend (bytes : Z) | SendUnknownError (e : Errno)
| SendPropertyError (e : UnixDatagramSetPropertyError) | SendOptionError (e : UnixDatagramSetSocketOptionError).
Inductive UnixDatagramReceiveError :=
| ReceiveConnectionReset | ReceiveInterrupt | ReceiveNotConnected | ReceiveIOerror | ReceiveInsufficientResources
| ReceiveInsufficientMemory | ReceiveUnknownError (e : Errno)
| ReceivePropertyError (e : UnixDatagramSetPropertyError) | ReceiveOptionError (e : UnixDatagramSetSocketOptionError).

Definition BLOCKING_TIMEOUT : Duration := from_secs 32767.
Definition UNIX_DOMAIN_SOCKET_PATH_LENGTH : Z := 108.

Record UnixDatagramSocket := mkSocket { so_name : Path; is_non_blocking : bool; so_fd : FileDescriptor }.
Definition set_flag (s : UnixDatagramSocket) (b : bool) : UnixDatagramSocket := mkSocket (so_name s) b (so_fd s).

(** [O_NONBLOCK] as on Linux: bit 11. *)
Definition O_NONBLOCK : Z := 2 ^ 11.
Inductive SocketOption := SO_SNDTIMEO (t : timeval) | SO_RCVTIMEO (t : timeval) | SO_SNDBUF (v : Z) | SO_RCVBUF (v : Z) | SO_PASSCRED (v : Z).
Inductive BufferOption := SendBuffer | ReceiveBuffer.
(** [value as posix::int], and back [as usize] *)
Definition as_int (z : Z) : Z := (z + 2 ^ 31) mod 2 ^ 32 - 2 ^ 31.
Definition int_as_usize (z : Z) : Z := z mod USIZE.

(** A call that waits for ever is [Undefined]. [os_recvfrom]: the size of the buffer, and
    whether the datagram stays in the queue. *)
Class SocketOs (W : Type) := {
  os_socket : W → result Z Errno * W;
  os_getfl : Z → W → result Z Errno * W;
  os_setfl : Z → Z → W → result unit Errno * W;
  os_setsockopt : Z → SocketOption → W → result unit Errno * W;
  os_getsockopt : Z → BufferOption → W → result Z Errno * W;
  os_umask : Z → W → Z * W;
  os_bind : Z → Path → W → result unit Errno * W;
  os_connect : Z → Path → W → result unit Errno * W;
  os_sendto : Z → list Z → W → result Z Errno * W;
  os_recvfrom : Z → Z → bool → W → outcome (result (list Z) Errno * W)
}.

Section Operations.
Context {W : Type} `{!DescriptorOs W, !SocketOs W}.
(** How often closing is tried; [POSIX_SUPPORT_UNIX_DATAGRAM_SOCKETS_ANCILLARY_DATA]. *)
Context (close_fuel : nat) (ancillary_data : bool).
Implicit Types (w : W) (s : UnixDatagramSocket) (name : Path).

Definition handle s : Z := native_handle (so_fd s).

(** ** UnixDatagramSocket *)

(** Errors of [fcntl]. *)
Definition property_error (e : Errno) : outcome UnixDatagramSetPropertyError :=
  match e with
  | EBADF | EINVAL => Panic
  | EOVERFLOW => Return WouldCauseOverflow
  | EINTR => Return PropertyInterrupt
  | v => Return (PropertyUnknownError v)
  end.

Definition set_non_blocking s (value : bool) w : outcome (result unit UnixDatagramSetPropertyError * UnixDatagramSocket * W) :=
  if bool_decide (is_non_blocking s = value) then Return (Ok tt, s, w)
  else
    let '(r, w) := os_getfl (handle s) w in
    match r with
    | Err e => let! e := property_error e in Return (Err e, s, w)
    | Ok current_flags =>
        let new_flags := if value then Z.lor current_flags O_NONBLOCK else Z.ldiff current_flags O_NONBLOCK in
        let '(r, w) := os_setfl (handle s) new_flags w in
        match r with
        | Err e => let! e := property_error e in Return (Err e, s, w)
        | Ok _ => Return (Ok tt, set_flag s value, w)
        end
    end.

Definition set_socket_option s (o : SocketOption) w : result unit UnixDatagramSetSocketOptionError * W :=
  let '(r, w) := os_setsockopt (handle s) o w in
  (match r with
   | Ok _ => Ok tt
   | Err ENOMEM => Err OptionInsufficientMemory
   | Err ENOBUFS => Err OptionInsufficientResources
   | Err v => Err (OptionUnknownError v)
   end, w).

Definition get_socket_option s (o : BufferOption) w : result Z UnixDatagramGetSocketOptionError * W :=
  let '(r, w) := os_getsockopt (handle s) o w in
  (match r with
   | Ok v => Ok v
   | Err EACCES => Err GetInsufficientPermissions
   | Err ENOBUFS => Err GetInsufficientResources
   | Err EINVAL => Err SocketHasBeenShutDown
   | Err v => Err (GetUnknownError v)
   end, w).

(** [!permission] has the bits of [Permission::UNKNOWN]. *)
Definition not_permission (permission : Z) : Z := Z.ldiff 65535 permission.

Definition bind s (permission : Z) w : result unit UnixDatagramReceiverCreationError * W :=
  let '(mask, w) := os_umask (not_permission permission) w in
  let '(r, w) := os_bind (handle s) (so_name s) w in
  let '(_, w) := os_umask mask w in
  (match r with
   | Ok _ => Ok tt
   | Err EACCES => Err ReceiverInsufficientPermissions
   | Err EADDRINUSE => Err AddressAlreadyInUse
   | Err ENOENT | Err ENOTDIR => Err PathDoesNotExist
   | Err ENOBUFS => Err ReceiverInsufficientResources
   | Err EROFS => Err ReadOnlyFileSytem
   | Err v => Err (ReceiverUnknownError v)
   end, w).

Definition connect s w : result unit UnixDatagramSenderCreationError * W :=
  let '(r, w) := os_connect (handle s) (so_name s) w in
  (match r with
   | Ok _ => Ok tt
   | Err ENOENT => Err DoesNotExist
   | Err EACCES => Err SenderInsufficientPermissions
   | Err EADDRINUSE => Err AlreadyConnected
   | Err ECONNREFUSED => Err ConnectionRefused
   | Err EINTR => Err ConnectInterrupt
   | Err ECONNRESET => Err ConnectReset
   | Err ENOBUFS => Err SenderInsufficientResources
   | Err EINPROGRESS => Err WouldBlock
   | Err v => Err (SenderUnknownError v)
   end, w).

Definition creation_error (e : Errno) : UnixDatagramCreationError :=
  match e with
  | EACCES => InsufficientPermissions | EMFILE => PerProcessFileHandleLimitReached | ENFILE => SystemWideFileHandleLimitReached
  | ENOBUFS => InsufficientResources | ENOMEM => InsufficientMemory | EPROTONOSUPPORT => DatagramProtocolNotSupported
  | EPROTOTYPE => UnixDomainSocketsNotSupported | v => UnknownError v
  end.

Definition socket_new name w : outcome (result UnixDatagramSocket UnixDatagramCreationError * W) :=
  if UNIX_DOMAIN_SOCKET_PATH_LENGTH <? Z.of_nat (length name) then Return (Err SocketNameTooLong, w)
  else
    let '(r, w) := os_socket w in
    match r with
    | Err e => Return (Err (creation_error e), w)
    | Ok raw_fd =>
        let '(d, w) := fd_new (Ok raw_fd) w in
        match d with Ok d => Return (Ok (mkSocket name false d), w) | Err _ => Panic end
    end.

(** A call on a socket in blocking or non-blocking state. *)
Definition in_state {A E} (map : UnixDatagramSetPropertyError → E) (value : bool)
    (k : UnixDatagramSocket → W → outcome (result A E * UnixDatagramSocket * W)) s w : outcome (result A E * UnixDatagramSocket * W) :=
  let! '(r, s, w) := set_non_blocking s value w in match r with Err e => Return (Err (map e), s, w) | Ok _ => k s w end.
Definition with_timeout {A E} (map : UnixDatagramSetSocketOptionError → E) (o : SocketOption)
    (k : UnixDatagramSocket → W → outcome (result A E * UnixDatagramSocket * W)) s w : outcome (result A E * UnixDatagramSocket * W) :=
  let '(r, w) := set_socket_option s o w in match r with Err e => Return (Err (map e), s, w) | Ok _ => k s w end.

(** ** UnixDatagramSender *)

Definition sender_new name w : outcome (result UnixDatagramSocket UnixDatagramSenderCreationError * W) :=
  let! '(r, w) := socket_new name w in
  match r with
  | Err e => Return (Err (SenderCreationError e), w)
  | Ok s =>
      let '(r, w) := connect s w in
      match r with
      | Ok _ => Return (Ok s, w)
      | Err e => let! w := fd_drop close_fuel (so_fd s) w in Return (Err e, w)
      end
  end.
Definition sender_drop s w : outcome W := fd_drop close_fuel (so_fd s) w.

Definition send_error (e : Errno) : UnixDatagramSendError :=
  match e with
  | ECONNRESET => SendConnectionReset | EINTR => SendInterrupt | EMSGSIZE => MessageTooLarge | EIO => SendIOerror
  | EACCES => SendInsufficientPermissions | ENOBUFS => SendInsufficientResources | ENOMEM => SendInsufficientMemory
  | ENOTCONN => SendNotConnected | v => SendUnknownError v
  end.

Definition send (data : list Z) s w : result bool UnixDatagramSendError * W :=
  let '(r, w) := os_sendto (handle s) data w in
  (match r with
   | Err EAGAIN => Ok false
   | Err e => Err (send_error e)
   | Ok bytes_sent => if negb (Z.of_nat (length data) =? bytes_sent) then Err (MessagePartiallySend bytes_sent) else Ok true
   end, w).

Definition try_send (data : list Z) s w : outcome (result bool UnixDatagramSendError * UnixDatagramSocket * W) :=
  in_state SendPropertyError true (λ s w, let '(r, w) := send data s w in Return (r, s, w)) s w.

(** Whether it was sent is not told. *)
Definition send_and_forget (data : list Z) s w : outcome (result unit UnixDatagramSendError * UnixDatagramSocket * W) :=
  let '(r, w) := send data s w in Return (match r with Ok _ => Ok tt | Err e => Err e end, s, w).
Definition timed_send (data : list Z) (timeout : Duration) s w : outcome (result unit UnixDatagramSendError * UnixDatagramSocket * W) :=
  in_state SendPropertyError true (with_timeout SendOptionError (SO_SNDTIMEO (duration_as_timeval timeout)) (send_and_forget data)) s w.
Definition blocking_send (data : list Z) s w := timed_send data BLOCKING_TIMEOUT s w.

Definition set_send_buffer_min_size s (value : Z) w := set_socket_option s (SO_SNDBUF (as_int value)) w.
Definition get_send_buffer_size s w : result Z UnixDatagramGetSocketOptionError * W :=
  let '(r, w) := get_socket_option s SendBuffer w in (match r with Ok v => Ok (int_as_usize v) | Err e => Err e end, w).

(** ** UnixDatagramReceiver *)

(** The socket file is removed, then the descriptor is closed. *)
Definition receiver_drop s w : outcome W :=
  let '(r, w) := file_remove (so_name s) w in
  match r with Err _ => Panic | Ok _ => fd_drop close_fuel (so_fd s) w end.

Record UnixDatagramReceiverBuilder := mkReceiverBuilder { rb_name : Path; rb_permission : Z; rb_creation_mode : CreationMode }.
(** [owner_all]: [Permission::OWNER_ALL] *)
Definition receiver_builder_new name (owner_all : Z) : UnixDatagramReceiverBuilder := mkReceiverBuilder name owner_all CreateExclusive.
Definition with_permission (b : UnixDatagramReceiverBuilder) (v : Z) := mkReceiverBuilder (rb_name b) v (rb_creation_mode b).
Definition with_creation_mode (b : UnixDatagramReceiverBuilder) (m : CreationMode) := mkReceiverBuilder (rb_name b) (rb_permission b) m.

(** A receiver that is not returned is dropped. *)
Definition refuse s (e : UnixDatagramReceiverCreationError) w : outcome (result UnixDatagramSocket UnixDatagramReceiverCreationError * W) :=
  let! w := receiver_drop s w in Return (Err e, w).

Definition receiver_bind s (permission : Z) w : outcome (result UnixDatagramSocket UnixDatagramReceiverCreationError * W) :=
  let '(r, w) := bind s permission w in
  match r with
  | Err e => refuse s e w
  | Ok _ =>
      if ancillary_data then
        let '(r, w) := set_socket_option s (SO_PASSCRED 1) w in
        match r with Err e => refuse s (ReceiverOptionError e) w | Ok _ => Return (Ok s, w) end
      else Return (Ok s, w)
  end.

Definition receiver_new (b : UnixDatagramReceiverBuilder) w
    : outcome (result UnixDatagramSocket UnixDatagramReceiverCreationError * W) :=
  let! '(r, w) := socket_new (rb_name b) w in
  match r with
  | Err e => Return (Err (ReceiverCreationError e), w)
  | Ok s =>
      let '(r, w) := file_does_exist (rb_name b) w in
      match r with
      | Err e => refuse s (ReceiverAccessError e) w
      | Ok does_file_exist =>
          match rb_creation_mode b, does_file_exist with
          | PurgeAndCreate, true =>
              let '(r, w) := file_remove (rb_name b) w in
              match r with Err e => refuse s (ReceiverRemoveError e) w | Ok _ => receiver_bind s (rb_permission b) w end
          | CreateExclusive, true => refuse s SocketFileAlreadyExists w
          | _, _ => receiver_bind s (rb_permission b) w
          end
      end
  end.

Definition receive_error (e : Errno) : UnixDatagramReceiveError :=
  match e with
  | ECONNRESET => ReceiveConnectionReset | EINTR => ReceiveInterrupt | EIO => ReceiveIOerror | ENOBUFS => ReceiveInsufficientResources
  | ENOMEM => ReceiveInsufficientMemory | v => ReceiveUnknownError v
  end.

(** With the number of bytes what the buffer holds then. *)
Definition internal_receive (peek : bool) (buffer : list Z) s w
    : outcome (result (Z * list Z) UnixDatagramReceiveError * UnixDatagramSocket * W) :=
  let! '(r, w) := os_recvfrom (handle s) (Z.of_nat (length buffer)) peek w in
  Return (match r with
          | Ok bytes => Ok (Z.of_nat (length bytes), bytes ++ drop (length bytes) buffer)
          | Err ETIMEDOUT | Err EAGAIN => Ok (0, buffer)
          | Err e => Err (receive_error e)
          end, s, w).

Definition receive_timeout (timeout : Duration) : SocketOption := SO_RCVTIMEO (duration_as_timeval timeout).
Definition try_transfer (peek : bool) buffer s w := in_state ReceivePropertyError true (internal_receive peek buffer) s w.
Definition timed_transfer (peek : bool) buffer (timeout : Duration) s w :=
  in_state ReceivePropertyError false (with_timeout ReceiveOptionError (receive_timeout timeout) (internal_receive peek buffer)) s w.

Definition try_receive buffer s w := try_transfer false buffer s w.
Definition timed_receive buffer timeout s w := timed_transfer false buffer timeout s w.
Definition blocking_receive buffer s w := timed_transfer false buffer BLOCKING_TIMEOUT s w.
Definition try_peek buffer s w := try_transfer true buffer s w.
Definition timed_peek buffer timeout s w := timed_transfer true buffer timeout s w.
Definition blocking_peek buffer s w := timed_transfer true buffer BLOCKING_TIMEOUT s w.

Definition set_receive_buffer_min_size s (value : Z) w := set_socket_option s (SO_RCVBUF (as_int value)) w.
Definition get_receive_buffer_size s w : result Z UnixDatagramGetSocketOptionError * W :=
  let '(r, w) := get_socket_option s ReceiveBuffer w in (match r with Ok v => Ok (int_as_usize v) | Err e => Err e end, w).
End Operations.

(** ** The sockets of the operating system

    Socket files, sockets, and the descriptors of this process. A receiver is what a file
    leads to, a sender has one as its peer. *)

Record KSocket := mkKSocket { ks_flags : Z; ks_rcvtimeo : timeval; ks_peer : option Z; ks_queue : list (list Z) }.
Record Kernel := mkKernel { k_files : gmap Path Z; k_sockets : gmap Z KSocket; k_fds : gmap Z Z }.

Definition nonblock (q : KSocket) : bool := Z.testbit (ks_flags q) 11.
Definition with_flags (q : KSocket) (f : Z) : KSocket := mkKSocket f (ks_rcvtimeo q) (ks_peer q) (ks_queue q).
Definition with_rcvtimeo (q : KSocket) (t : timeval) : KSocket := mkKSocket (ks_flags q) t (ks_peer q) (ks_queue q).
Definition with_peer (q : KSocket) (p : option Z) : KSocket := mkKSocket (ks_flags q) (ks_rcvtimeo q) p (ks_queue q).
Definition with_queue (q : KSocket) (l : list (list Z)) : KSocket := mkKSocket (ks_flags q) (ks_rcvtimeo q) (ks_peer q) l.
Definition set_ksocket (id : Z) (q : KSocket) (k : Kernel) : Kernel := mkKernel (k_files k) (<[id := q]> (k_sockets k)) (k_fds k).

Definition add_file (p : Path) (id : Z) (k : Kernel) : Kernel := mkKernel (<[p := id]> (k_files k)) (k_sockets k) (k_fds k).
Definition delete_file (p : Path) (k : Kernel) : Kernel := mkKernel (delete p (k_files k)) (k_sockets k) (k_fds k).
Definition add_socket (d id : Z) (q : KSocket) (k : Kernel) : Kernel := mkKernel (k_files k) (<[id := q]> (k_sockets k)) (<[d := id]> (k_fds k)).
Definition remove_socket (d id : Z) (k : Kernel) : Kernel := mkKernel (k_files k) (delete id (k_sockets k)) (delete d (k_fds k)).
(** Nobody knows the descriptor [d] nor the socket [id]. *)
Definition unused (k : Kernel) (d id : Z) : Prop :=
  k_fds k !! d = None ∧ k_sockets k !! id = None ∧ (∀ d', k_fds k !! d' ≠ Some id) ∧ (∀ p, k_files k !! p ≠ Some id) ∧
  (∀ i q, k_sockets k !! i = Some q → ks_peer q ≠ Some id).

Definition no_timeout : timeval := mkTimeval 0 0.
#[export] Instance timeval_eq_dec : EqDecision timeval.
Proof. solve_decision. Defined.

(** The calls when nothing is missing: neither memory nor descriptors nor rights; nobody
    else uses the sockets while a call waits. A receive timeout of zero is no timeout. *)
Class SocketLaws (W : Type) `{!DescriptorOs W, !SocketOs W} := {
  kernel : W → Kernel;
  dgram_queue_length : Z;
  dgram_max_size : Z;
  getfd_law d w : is_Some (k_fds (kernel w) !! d) → ∃ w', fcntl_getfd d w = (Ok tt, w') ∧ kernel w' = kernel w;
  access_law p w :
    ∃ w', os_access p w = (match k_files (kernel w) !! p with Some _ => Ok tt | None => Err ENOENT end, w') ∧ kernel w' = kernel w;
  remove_law p w :
    ∃ w', os_remove p w = (match k_files (kernel w) !! p with Some _ => Ok tt | None => Err ENOENT end, w') ∧
      kernel w' = delete_file p (kernel w);
  close_law d id w :
    k_fds (kernel w) !! d = Some id → (∀ d', k_fds (kernel w) !! d' = Some id → d' = d) →
    ∃ w', os_close d w = (Ok tt, w') ∧ kernel w' = remove_socket d id (kernel w);
  socket_law w :
    ∃ d id flags w', os_socket w = (Ok d, w') ∧ unused (kernel w) d id ∧ Z.testbit flags 11 = false ∧
      kernel w' = add_socket d id (mkKSocket flags no_timeout None []) (kernel w);
  umask_law m w : kernel (os_umask m w).2 = kernel w;
  bind_law d p id w :
    k_fds (kernel w) !! d = Some id → k_files (kernel w) !! p = None →
    ∃ w', os_bind d p w = (Ok tt, w') ∧ kernel w' = add_file p id (kernel w);
  connect_law d p id q w :
    k_fds (kernel w) !! d = Some id → k_sockets (kernel w) !! id = Some q →
    ∃ w', match k_files (kernel w) !! p with
          | None => os_connect d p w = (Err ENOENT, w') ∧ kernel w' = kernel w
          | Some peer =>
              match k_sockets (kernel w) !! peer with
              | None => os_connect d p w = (Err ECONNREFUSED, w') ∧ kernel w' = kernel w
              | Some _ => os_connect d p w = (Ok tt, w') ∧ kernel w' = set_ksocket id (with_peer q (Some peer)) (kernel w)
              end
          end;
  getfl_law d id q w :
    k_fds (kernel w) !! d = Some id → k_sockets (kernel w) !! id = Some q →
    ∃ w', os_getfl d w = (Ok (ks_flags q), w') ∧ kernel w' = kernel w;
  setfl_law d f id q w :
    k_fds (kernel w) !! d = Some id → k_sockets (kernel w) !! id = Some q →
    ∃ w', os_setfl d f w = (Ok tt, w') ∧ kernel w' = set_ksocket id (with_flags q f) (kernel w);
  setsockopt_law d o id q w :
    k_fds (kernel w) !! d = Some id → k_sockets (kernel w) !! id = Some q →
    ∃ w', os_setsockopt d o w = (Ok tt, w') ∧
      kernel w' = match o with SO_RCVTIMEO t => set_ksocket id (with_rcvtimeo q t) (kernel w) | _ => kernel w end;
  sendto_law d data id q p t w :
    k_fds (kernel w) !! d = Some id → k_sockets (kernel w) !! id = Some q → ks_peer q = Some p → k_sockets (kernel w) !! p = Some t →
    Z.of_nat (length data) ≤ dgram_max_size → nonblock q = true →
    ∃ w', if Z.of_nat (length (ks_queue t)) <? dgram_queue_length
          then os_sendto d data w = (Ok (Z.of_nat (length data)), w') ∧ kernel w' = set_ksocket p (with_queue t (ks_queue t ++ [data])) (kernel w)
          else os_sendto d data w = (Err EAGAIN, w') ∧ kernel w' = kernel w;
  recvfrom_law d n peek id q w :
    k_fds (kernel w) !! d = Some id → k_sockets (kernel w) !! id = Some q → 0 ≤ n →
    match ks_queue q with
    | m :: l => ∃ w', os_recvfrom d n peek w = Return (Ok (take (Z.to_nat n) m), w') ∧
        kernel w' = if peek then kernel w else set_ksocket id (with_queue q l) (kernel w)
    | [] => if nonblock q || negb (bool_decide (ks_rcvtimeo q = no_timeout))
            then ∃ w', os_recvfrom d n peek w = Return (Err EAGAIN, w') ∧ kernel w' = kernel w
            else os_recvfrom d n peek w = Undefined
    end
}.

Section Theorems.
Context {W : Type} `{!DescriptorOs W, !SocketOs W, !SocketLaws W}.
Implicit Types (w : W) (s : UnixDatagramSocket) (k : Kernel) (q t : KSocket) (id : Z) (name : Path).

(** The socket [s] of the code is the socket [id] of the operating system. *)
Definition has_socket k s id q : Prop :=
  k_fds k !! handle s = Some id ∧ k_sockets k !! id = Some q ∧ is_owned (so_fd s) = true ∧ is_non_blocking s = nonblock q.

Lemma set_ksocket_same id q k : k_sockets k !! id = Some q → set_ksocket id q k = k.
Proof. intros H. unfold set_ksocket. rewrite insert_id by done. by destruct k. Qed.
Lemma set_ksocket_twice id q q' k : set_ksocket id q (set_ksocket id q' k) = set_ksocket id q k.
Proof. unfold set_ksocket. cbn. by rewrite insert_insert_eq. Qed.

Lemma set_non_blocking_ok s v w id q :
  has_socket (kernel w) s id q →
  ∃ f w', set_non_blocking s v w = Return (Ok tt, set_flag s v, w') ∧ kernel w' = set_ksocket id (with_flags q f) (kernel w) ∧ Z.testbit f 11 = v.
Proof.
  intros (Hd & Hq & Ho & Hf). unfold set_non_blocking. case_bool_decide as Hv.
  - exists (ks_flags q), w. split; [by destruct s; cbn in *; subst|]. split; [|by rewrite <- Hv, Hf].
    replace (with_flags q (ks_flags q)) with q by by destruct q. by rewrite set_ksocket_same.
  - destruct (getfl_law _ _ _ _ Hd Hq) as (w1 & -> & H1). set (f := if v then _ else _).
    destruct (setfl_law (handle s) f id q w1) as (w2 & -> & H2); [by rewrite H1..|]. exists f, w2. split; [done|]. split; [by rewrite H2, H1|].
    unfold f, O_NONBLOCK. destruct v; [rewrite Z.lor_spec|rewrite Z.ldiff_spec]; rewrite Z.pow2_bits_true by lia; by destruct (Z.testbit _ _).
Qed.

Lemma has_socket_set s v w w' id q f :
  has_socket (kernel w) s id q → kernel w' = set_ksocket id (with_flags q f) (kernel w) → Z.testbit f 11 = v →
  has_socket (kernel w') (set_flag s v) id (with_flags q f).
Proof. intros (Hd & Hq & Ho & Hf) -> Hv. unfold has_socket. cbn. by rewrite lookup_insert_eq. Qed.

(** A socket with other flags and another timeout. *)
Definition resembles q q' : Prop := ks_peer q' = ks_peer q ∧ ks_queue q' = ks_queue q.

Lemma try_send_ok data s w id q p t :
  has_socket (kernel w) s id q → ks_peer q = Some p → k_sockets (kernel w) !! p = Some t → p ≠ id → Z.of_nat (length data) ≤ dgram_max_size →
  let room := Z.of_nat (length (ks_queue t)) <? dgram_queue_length in
  ∃ q' w', try_send data s w = Return (Ok room, set_flag s true, w') ∧ resembles q q' ∧ nonblock q' = true ∧
    kernel w' = (if room then set_ksocket p (with_queue t (ks_queue t ++ [data])) else λ k, k) (set_ksocket id q' (kernel w)).
Proof.
  intros Hs Hp Ht Hne Hl room. unfold try_send, in_state. destruct (set_non_blocking_ok s true w id q Hs) as (f & w1 & -> & H1 & Hf). cbn [obind].
  pose proof (has_socket_set _ _ _ _ _ _ _ Hs H1 Hf) as (Hd1 & Hq1 & _ & _).
  destruct (sendto_law _ data _ _ p t _ Hd1 Hq1 Hp) as (w2 & H2); [rewrite H1; cbn; by rewrite lookup_insert_ne by done|done|done|].
  exists (with_flags q f), w2. unfold send. fold room in H2. destruct room; destruct H2 as [-> H2]; cbn [obind];
    [rewrite Z.eqb_refl|]; (split; [done|]); (split; [done|]); (split; [done|]); by rewrite H2, H1.
Qed.

(** What a buffer gets from the head of a queue. *)
Definition received (buffer : list Z) (l : list (list Z)) : Z * list Z :=
  match l with
  | m :: _ => let bytes := take (length buffer) m in (Z.of_nat (length bytes), bytes ++ drop (length bytes) buffer)
  | [] => (0, buffer)
  end.
Definition left_over (peek : bool) (l : list (list Z)) : list (list Z) := if peek then l else List.tl l.

Lemma internal_receive_ok peek buffer s w id q :
  has_socket (kernel w) s id q → ks_queue q ≠ [] ∨ nonblock q = true ∨ ks_rcvtimeo q ≠ no_timeout →
  ∃ w', internal_receive peek buffer s w = Return (Ok (received buffer (ks_queue q)), s, w') ∧
    kernel w' = set_ksocket id (with_queue q (left_over peek (ks_queue q))) (kernel w).
Proof.
  intros (Hd & Hq & Ho & Hf) Hr. unfold internal_receive. pose proof (recvfrom_law _ (Z.of_nat (length buffer)) peek _ _ _ Hd Hq ltac:(lia)) as Hl.
  rewrite Nat2Z.id in Hl. assert (set_ksocket id (with_queue q (ks_queue q)) (kernel w) = kernel w) as Hsame by (by apply set_ksocket_same; destruct q).
  destruct (ks_queue q) as [|m l] eqn:El.
  - assert (nonblock q || negb (bool_decide (ks_rcvtimeo q = no_timeout)) = true) as Hb.
    { destruct Hr as [?|[->|Hne]]; [done|done|]. rewrite (bool_decide_eq_false_2 _ Hne). by destruct (nonblock q). }
    rewrite Hb in Hl. destruct Hl as (w1 & -> & H1). exists w1. split; [done|]. rewrite H1. by destruct peek.
  - destruct Hl as (w1 & -> & H1). exists w1. split; [done|]. rewrite H1. by destruct peek.
Qed.

Lemma try_transfer_ok peek buffer s w id q :
  has_socket (kernel w) s id q →
  ∃ q' w', try_transfer peek buffer s w = Return (Ok (received buffer (ks_queue q)), set_flag s true, w') ∧
    ks_peer q' = ks_peer q ∧ ks_queue q' = left_over peek (ks_queue q) ∧ nonblock q' = true ∧ kernel w' = set_ksocket id q' (kernel w).
Proof.
  intros Hs. unfold try_transfer, in_state. destruct (set_non_blocking_ok s true w id q Hs) as (f & w1 & -> & H1 & Hf). cbn [obind].
  destruct (internal_receive_ok peek buffer _ _ _ _ (has_socket_set _ _ _ _ _ _ _ Hs H1 Hf)) as (w2 & -> & H2); [by right; left|].
  rewrite H1, set_ksocket_twice in H2.
  eexists _, w2. split; [done|]. refine (conj _ (conj _ (conj _ H2))); [done|done|exact Hf].
Qed.

Lemma timed_transfer_state peek buffer timeout s w id q :
  has_socket (kernel w) s id q →
  ∃ f w1, timed_transfer peek buffer timeout s w = internal_receive peek buffer (set_flag s false) w1 ∧
    kernel w1 = set_ksocket id (with_rcvtimeo (with_flags q f) (duration_as_timeval timeout)) (kernel w) ∧ Z.testbit f 11 = false ∧
    has_socket (kernel w1) (set_flag s false) id (with_rcvtimeo (with_flags q f) (duration_as_timeval timeout)).
Proof.
  intros Hs. unfold timed_transfer, in_state. destruct (set_non_blocking_ok s false w id q Hs) as (f & w1 & -> & H1 & Hf). cbn [obind].
  pose proof (has_socket_set _ _ _ _ _ _ _ Hs H1 Hf) as (Hd1 & Hq1 & Ho & Hf1). unfold with_timeout, set_socket_option.
  destruct (setsockopt_law _ (receive_timeout timeout) _ _ _ Hd1 Hq1) as (w2 & -> & H2). cbn in H2. rewrite H1, set_ksocket_twice in H2.
  exists f, w2. split; [done|]. split; [done|]. split; [done|]. unfold has_socket. rewrite H2. cbn. rewrite lookup_insert_eq. split; [by destruct Hs|done].
Qed.

Lemma timed_transfer_ok peek buffer timeout s w id q :
  has_socket (kernel w) s id q → ks_queue q ≠ [] ∨ duration_as_timeval timeout ≠ no_timeout →
  ∃ q' w', timed_transfer peek buffer timeout s w = Return (Ok (received buffer (ks_queue q)), set_flag s false, w') ∧
    ks_peer q' = ks_peer q ∧ ks_queue q' = left_over peek (ks_queue q) ∧ nonblock q' = false ∧ kernel w' = set_ksocket id q' (kernel w).
Proof.
  intros Hs Ht. destruct (timed_transfer_state peek buffer timeout _ _ _ _ Hs) as (f & w1 & -> & H1 & Hf & Hs1).
  destruct (internal_receive_ok peek buffer _ _ _ _ Hs1) as (w2 & -> & H2); [by destruct Ht; [left|right; right]|].
  rewrite H1, set_ksocket_twice in H2.
  eexists _, w2. split; [done|]. refine (conj _ (conj _ (conj _ H2))); [done|done|exact Hf].
Qed.

(** *** Creating and dropping *)

Lemma socket_new_ok name w :
  Z.of_nat (length name) ≤ UNIX_DOMAIN_SOCKET_PATH_LENGTH →
  ∃ s w' id f, socket_new name w = Return (Ok s, w') ∧ so_name s = name ∧ is_owned (so_fd s) = true ∧ is_non_blocking s = false ∧
    unused (kernel w) (handle s) id ∧ Z.testbit f 11 = false ∧
    kernel w' = add_socket (handle s) id (mkKSocket f no_timeout None []) (kernel w).
Proof.
  intros Hl. unfold socket_new. rewrite (proj2 (Z.ltb_ge _ _) Hl). destruct (socket_law w) as (d & id & f & w1 & -> & Hu & Hf & H1).
  unfold fd_new. destruct (getfd_law d w1) as (w2 & -> & H2); [rewrite H1; cbn; rewrite lookup_insert_eq; by eexists|].
  eexists _, w2, id, f. split; [done|]. cbn. rewrite H2. done.
Qed.

Lemma remove_add_socket d id q k : unused k d id → remove_socket d id (add_socket d id q k) = k.
Proof. intros (H1 & H2 & _). unfold remove_socket, add_socket. cbn. rewrite !delete_insert_id by done. by destruct k. Qed.

(** The only descriptor of a socket that was just made. *)
Lemma added_alone d id q k d' : unused k d id → k_fds (add_socket d id q k) !! d' = Some id → d' = d.
Proof.
  intros (_ & _ & Hn & _) Hd. cbn in Hd. destruct (decide (d' = d)) as [->|Hne]; [done|]. rewrite lookup_insert_ne in Hd by done. by apply Hn in Hd.
Qed.

Lemma fd_drop_ok fuel s id w :
  k_fds (kernel w) !! handle s = Some id → (∀ d, k_fds (kernel w) !! d = Some id → d = handle s) → is_owned (so_fd s) = true →
  ∃ w', fd_drop (S fuel) (so_fd s) w = Return w' ∧ kernel w' = remove_socket (handle s) id (kernel w).
Proof.
  intros Hd Ha Ho. unfold fd_drop. rewrite Ho. cbn [close_loop]. fold (handle s). destruct (close_law _ _ _ Hd Ha) as (w1 & -> & H1). by exists w1.
Qed.

Lemma file_does_exist_ok p w : ∃ w', file_does_exist p w = (Ok (bool_decide (is_Some (k_files (kernel w) !! p))), w') ∧ kernel w' = kernel w.
Proof.
  unfold file_does_exist. destruct (access_law p w) as (w1 & -> & H1). exists w1. split; [|done].
  destruct (k_files _ !! p); [by rewrite bool_decide_eq_true_2 by by eexists|]. rewrite bool_decide_eq_false_2; [done|]. by intros [? ?].
Qed.
Lemma file_remove_ok p w : ∃ r w', file_remove p w = (Ok r, w') ∧ kernel w' = delete_file p (kernel w).
Proof.
  unfold file_remove. destruct (remove_law p w) as (w1 & -> & H1). destruct (k_files _ !! p); eexists _, w1; done.
Qed.

Lemma receiver_drop_ok fuel s id w :
  k_fds (kernel w) !! handle s = Some id → (∀ d, k_fds (kernel w) !! d = Some id → d = handle s) → is_owned (so_fd s) = true →
  ∃ w', receiver_drop (S fuel) s w = Return w' ∧ kernel w' = remove_socket (handle s) id (delete_file (so_name s) (kernel w)).
Proof.
  intros Hd Ha Ho. unfold receiver_drop. destruct (file_remove_ok (so_name s) w) as (r & w1 & -> & H1).
  destruct (fd_drop_ok fuel s id w1) as (w2 & -> & H2); [by rewrite H1|by rewrite H1|done|]. exists w2. by rewrite H2, H1.
Qed.

Lemma bind_ok s permission w id :
  k_fds (kernel w) !! handle s = Some id → k_files (kernel w) !! so_name s = None →
  ∃ w', bind s permission w = (Ok tt, w') ∧ kernel w' = add_file (so_name s) id (kernel w).
Proof.
  intros Hd Hn. unfold bind. pose proof (umask_law (not_permission permission) w) as H1. destruct (os_umask _ w) as [m w1]. cbn in H1.
  destruct (bind_law (handle s) (so_name s) id w1) as (w2 & -> & H2); [by rewrite H1..|].
  pose proof (umask_law m w2) as H3. destruct (os_umask m w2) as [m' w3]. cbn in H3. exists w3. by rewrite H3, H2, H1.
Qed.

(** A socket file that is new leads to a receiver with an empty queue. *)
Lemma receiver_new_ok fuel ancillary b w :
  k_files (kernel w) !! rb_name b = None → Z.of_nat (length (rb_name b)) ≤ UNIX_DOMAIN_SOCKET_PATH_LENGTH →
  ∃ s w' id q, receiver_new fuel ancillary b w = Return (Ok s, w') ∧ so_name s = rb_name b ∧ unused (kernel w) (handle s) id ∧
    kernel w' = add_file (rb_name b) id (add_socket (handle s) id q (kernel w)) ∧ has_socket (kernel w') s id q ∧
    ks_queue q = [] ∧ ks_peer q = None.
Proof.
  intros Hn Hl. unfold receiver_new. destruct (socket_new_ok _ w Hl) as (s & w1 & id & f & -> & Hs & Ho & Hnb & Hu & Hf & H1). cbn [obind].
  destruct (file_does_exist_ok (rb_name b) w1) as (w2 & -> & H2). rewrite bool_decide_eq_false_2 by (rewrite H1; cbn; rewrite Hn; by intros [? ?]).
  assert (∃ w', receiver_bind fuel ancillary s (rb_permission b) w2 = Return (Ok s, w') ∧ kernel w' = add_file (rb_name b) id (kernel w1)) as (w3 & Hb & H3).
  { unfold receiver_bind. destruct (bind_ok s (rb_permission b) w2 id) as (w3 & -> & H3); [rewrite H2, H1; cbn; by rewrite lookup_insert_eq|rewrite H2, H1; cbn; by rewrite Hs|].
    rewrite Hs, H2 in H3. destruct ancillary; [|by exists w3]. unfold set_socket_option.
    destruct (setsockopt_law (handle s) (SO_PASSCRED 1) id (mkKSocket f no_timeout None []) w3) as (w4 & -> & H4);
      [rewrite H3, H1; cbn; by rewrite lookup_insert_eq..|]. exists w4. by rewrite H4. }
  exists s, w3, id, (mkKSocket f no_timeout None []). split; [by destruct (rb_creation_mode b)|]. rewrite H1 in H3. rewrite H3.
  split; [done|]. split; [done|]. split; [done|]. split; [|done]. unfold has_socket, nonblock. cbn -[Z.testbit]. by rewrite !lookup_insert_eq, Hf, Hnb.
Qed.

(** A receiver that is refused because there is one already takes the socket file of
    that one away: nobody can connect to it any more. *)
Theorem refused_receiver_removes_the_file fuel ancillary name permission w :
  is_Some (k_files (kernel w) !! name) → Z.of_nat (length name) ≤ UNIX_DOMAIN_SOCKET_PATH_LENGTH →
  ∃ w', receiver_new (S fuel) ancillary (mkReceiverBuilder name permission CreateExclusive) w = Return (Err SocketFileAlreadyExists, w') ∧
    kernel w' = delete_file name (kernel w).
Proof.
  intros Hn Hl. unfold receiver_new. cbn [rb_name rb_creation_mode].
  destruct (socket_new_ok _ w Hl) as (s & w1 & id & f & -> & Hs & Ho & Hnb & Hu & Hf & H1). cbn [obind].
  destruct (file_does_exist_ok name w1) as (w2 & -> & H2). rewrite bool_decide_eq_true_2 by by rewrite H1. unfold refuse.
  destruct (receiver_drop_ok fuel s id w2) as (w3 & -> & H3).
  - rewrite H2, H1. cbn. by rewrite lookup_insert_eq.
  - intros d. rewrite H2, H1. by apply added_alone.
  - done.
  - exists w3. split; [done|]. rewrite H3, Hs, H2, H1. exact (remove_add_socket _ _ _ (delete_file name (kernel w)) ltac:(destruct Hu as (? & ? & ? & Hp & ?);
      split_and!; try done; intros p; cbn; destruct (decide (p = name)) as [->|]; [by rewrite lookup_delete_eq|by rewrite lookup_delete_ne])).
Qed.

(** A sender is connected to the receiver its name leads to. *)
Lemma sender_new_ok fuel name w p t :
  k_files (kernel w) !! name = Some p → k_sockets (kernel w) !! p = Some t → Z.of_nat (length name) ≤ UNIX_DOMAIN_SOCKET_PATH_LENGTH →
  ∃ s w' id q, sender_new fuel name w = Return (Ok s, w') ∧ so_name s = name ∧ unused (kernel w) (handle s) id ∧
    kernel w' = add_socket (handle s) id q (kernel w) ∧ has_socket (kernel w') s id q ∧ ks_peer q = Some p.
Proof.
  intros Hn Hp Hl. unfold sender_new. destruct (socket_new_ok _ w Hl) as (s & w1 & id & f & -> & Hs & Ho & Hnb & Hu & Hf & H1). cbn [obind].
  set (q0 := mkKSocket f no_timeout None []) in *. assert (p ≠ id) as Hne by (intros ->; destruct Hu as (_ & Hu & _); congruence).
  destruct (connect_law (handle s) (so_name s) id q0 w1) as (w2 & H2); [rewrite H1; cbn; by rewrite lookup_insert_eq..|].
  rewrite Hs, H1 in H2. cbn [k_files k_sockets add_socket] in H2. rewrite Hn, lookup_insert_ne, Hp in H2 by done. destruct H2 as [Hc H2]. unfold connect. rewrite Hs, Hc.
  assert (kernel w2 = add_socket (handle s) id (with_peer q0 (Some p)) (kernel w)) as H3.
  { rewrite H2. unfold set_ksocket, add_socket. cbn. by rewrite insert_insert_eq. }
  exists s, w2, id, (with_peer q0 (Some p)). rewrite H3. split; [done|]. split; [done|]. split; [done|]. split; [done|]. split; [|done].
  unfold has_socket, nonblock. cbn -[Z.testbit]. by rewrite !lookup_insert_eq, Hf, Hnb.
Qed.
Lemma sender_new_none fuel name w :
  k_files (kernel w) !! name = None → Z.of_nat (length name) ≤ UNIX_DOMAIN_SOCKET_PATH_LENGTH →
  ∃ w', sender_new (S fuel) name w = Return (Err DoesNotExist, w') ∧ kernel w' = kernel w.
Proof.
  intros Hn Hl. unfold sender_new. destruct (socket_new_ok _ w Hl) as (s & w1 & id & f & -> & Hs & Ho & Hnb & Hu & Hf & H1). cbn [obind].
  destruct (connect_law (handle s) (so_name s) id (mkKSocket f no_timeout None []) w1) as (w2 & H2); [rewrite H1; cbn; by rewrite lookup_insert_eq..|].
  rewrite Hs, H1 in H2. cbn [k_files k_sockets add_socket] in H2. rewrite Hn in H2. destruct H2 as [Hc H2]. unfold connect. rewrite Hs, Hc.
  destruct (fd_drop_ok fuel s id w2) as (w3 & -> & H3).
  - rewrite H2. cbn. by rewrite lookup_insert_eq.
  - intros d. rewrite H2. by apply added_alone.
  - done.
  - exists w3. split; [done|]. rewrite H3, H2. by apply remove_add_socket.
Qed.

(** *** Senders and a receiver *)

Lemma timed_send_ok data timeout s w id q p t :
  has_socket (kernel w) s id q → ks_peer q = Some p → k_sockets (kernel w) !! p = Some t → p ≠ id → Z.of_nat (length data) ≤ dgram_max_size →
  let room := Z.of_nat (length (ks_queue t)) <? dgram_queue_length in
  ∃ q' w', timed_send data timeout s w = Return (Ok tt, set_flag s true, w') ∧ resembles q q' ∧ nonblock q' = true ∧
    kernel w' = (if room then set_ksocket p (with_queue t (ks_queue t ++ [data])) else λ k, k) (set_ksocket id q' (kernel w)).
Proof.
  intros Hs Hp Ht Hne Hl room. unfold timed_send, in_state. destruct (set_non_blocking_ok s true w id q Hs) as (f & w1 & -> & H1 & Hf). cbn [obind].
  pose proof (has_socket_set _ _ _ _ _ _ _ Hs H1 Hf) as (Hd1 & Hq1 & _ & _). unfold with_timeout, set_socket_option.
  destruct (setsockopt_law _ (SO_SNDTIMEO (duration_as_timeval timeout)) _ _ _ Hd1 Hq1) as (w2 & -> & H2). unfold send_and_forget, send.
  destruct (sendto_law (handle (set_flag s true)) data id (with_flags q f) p t w2) as (w3 & H3);
    [by rewrite H2|by rewrite H2|done|rewrite H2, H1; cbn; by rewrite lookup_insert_ne by done|done|done|].
  exists (with_flags q f), w3. fold room in H3. destruct room; destruct H3 as [-> H3];
    [rewrite Z.eqb_refl|]; (split; [done|]); (split; [done|]); (split; [done|]); by rewrite H3, H2, H1.
Qed.

Inductive SocketOp :=
| OpTrySend (i : nat) (data : list Z) | OpTimedSend (i : nat) (data : list Z) (timeout : Duration)
| OpTryTransfer (peek : bool) (buffer : list Z) | OpTimedTransfer (peek : bool) (buffer : list Z) (timeout : Duration).
Inductive SocketRes :=
| Sent (r : result bool UnixDatagramSendError) | Handed (r : result unit UnixDatagramSendError)
| Transferred (r : result (Z * list Z) UnixDatagramReceiveError).

(** The [i]-th of the senders [ss], or the receiver [r]. *)
Definition by_sender {A} (f : A → SocketRes) (call : UnixDatagramSocket → W → outcome (A * UnixDatagramSocket * W)) (i : nat)
    (ss : list UnixDatagramSocket) (r : UnixDatagramSocket) w : outcome (SocketRes * list UnixDatagramSocket * UnixDatagramSocket * W) :=
  match ss !! i with None => Undefined | Some s => let! '(a, s, w) := call s w in Return (f a, <[i := s]> ss, r, w) end.
Definition socket_step (o : SocketOp) ss r w : outcome (SocketRes * list UnixDatagramSocket * UnixDatagramSocket * W) :=
  match o with
  | OpTrySend i data => by_sender Sent (try_send data) i ss r w
  | OpTimedSend i data timeout => by_sender Handed (timed_send data timeout) i ss r w
  | OpTryTransfer peek buffer => let! '(a, r, w) := try_transfer peek buffer r w in Return (Transferred a, ss, r, w)
  | OpTimedTransfer peek buffer timeout => let! '(a, r, w) := timed_transfer peek buffer timeout r w in Return (Transferred a, ss, r, w)
  end.
Fixpoint socket_run (os : list SocketOp) ss r w : outcome (list SocketRes * W) :=
  match os with
  | [] => Return ([], w)
  | o :: os => let! '(a, ss, r, w) := socket_step o ss r w in let! '(al, w) := socket_run os ss r w in Return (a :: al, w)
  end.

(** The specification: a queue of so many datagrams. *)
Definition enqueue (data : list Z) (l : list (list Z)) : bool * list (list Z) :=
  if Z.of_nat (length l) <? dgram_queue_length then (true, l ++ [data]) else (false, l).
Definition queue_step (o : SocketOp) (l : list (list Z)) : SocketRes * list (list Z) :=
  match o with
  | OpTrySend _ data => let '(b, l) := enqueue data l in (Sent (Ok b), l)
  | OpTimedSend _ data _ => (Handed (Ok tt), (enqueue data l).2)
  | OpTryTransfer peek buffer | OpTimedTransfer peek buffer _ => (Transferred (Ok (received buffer l)), left_over peek l)
  end.
Fixpoint queue_run (os : list SocketOp) (l : list (list Z)) : list SocketRes :=
  match os with [] => [] | o :: os => let '(a, l) := queue_step o l in a :: queue_run os l end.

Definition socket_op_ok (n : nat) (o : SocketOp) : Prop :=
  match o with
  | OpTrySend i data | OpTimedSend i data _ => (i < n)%nat ∧ Z.of_nat (length data) ≤ dgram_max_size
  | OpTryTransfer _ _ => True
  | OpTimedTransfer _ _ timeout => duration_as_timeval timeout ≠ no_timeout
  end.

(** The senders [ss] are connected to the receiver [r], whose queue is [l]. *)
Definition sends_to k (p : Z) s id : Prop := ∃ q, has_socket k s id q ∧ ks_peer q = Some p.
Definition connected k (ss : list UnixDatagramSocket) (r : UnixDatagramSocket) (l : list (list Z)) : Prop :=
  ∃ p t ids, has_socket k r p t ∧ ks_queue t = l ∧ NoDup (p :: ids) ∧ Forall2 (sends_to k p) ss ids.

Lemma has_socket_update k s id q q' v : has_socket k s id q → nonblock q' = v → has_socket (set_ksocket id q' k) (set_flag s v) id q'.
Proof. intros (Hd & Hq & Ho & Hf) Hv. unfold has_socket. cbn. by rewrite lookup_insert_eq. Qed.
Lemma has_socket_other k s id q id' q' : has_socket k s id q → id ≠ id' → has_socket (set_ksocket id' q' k) s id q.
Proof. intros (Hd & Hq & Ho & Hf) Hv. unfold has_socket. cbn. by rewrite lookup_insert_ne. Qed.
Lemma sends_to_other k p s id id' q' : sends_to k p s id → id ≠ id' → sends_to (set_ksocket id' q' k) p s id.
Proof. intros (q & Hs & Hp) Hne. exists q. split; [|done]. by apply has_socket_other. Qed.

Lemma senders_other k p ss ids id q : Forall2 (sends_to k p) ss ids → id ∉ ids → Forall2 (sends_to (set_ksocket id q k) p) ss ids.
Proof.
  intros Hss Hid. apply Forall2_same_length_lookup_2; [by eapply Forall2_length|]. intros i s id' Hs Hi.
  apply sends_to_other; [by eapply (Forall2_lookup_lr _ _ _ _ _ _ Hss)|]. intros ->. apply Hid. by eapply list_elem_of_lookup_2.
Qed.
Lemma sender_updated k p ss ids i s id q q' v :
  Forall2 (sends_to k p) ss ids → NoDup ids → ss !! i = Some s → ids !! i = Some id → has_socket k s id q → nonblock q' = v → ks_peer q' = Some p →
  Forall2 (sends_to (set_ksocket id q' k) p) (<[i := set_flag s v]> ss) ids.
Proof.
  intros Hss Hnd Hs Hid Hk Hv Hp. apply Forall2_same_length_lookup_2; [rewrite length_insert; by eapply Forall2_length|]. intros j s' id' Hs' Hi.
  destruct (decide (j = i)) as [->|Hne].
  - rewrite list_lookup_insert_eq in Hs' by (by eapply lookup_lt_Some). simplify_eq. exists q'. split; [|done]. by eapply has_socket_update.
  - rewrite list_lookup_insert_ne in Hs' by done. apply sends_to_other; [by eapply (Forall2_lookup_lr _ _ _ _ _ _ Hss)|]. intros ->. by apply Hne, (NoDup_lookup _ _ _ _ Hnd Hi).
Qed.

(** One of the senders sends. *)
Lemma by_sender_ok {A} (f : A → SocketRes) (answer : bool → A) call data i ss r l w :
  connected (kernel w) ss r l → (i < length ss)%nat →
  (∀ s id q p t, has_socket (kernel w) s id q → ks_peer q = Some p → k_sockets (kernel w) !! p = Some t → p ≠ id →
     let room := Z.of_nat (length (ks_queue t)) <? dgram_queue_length in
     ∃ q' w', call s w = Return (answer room, set_flag s true, w') ∧ resembles q q' ∧ nonblock q' = true ∧
       kernel w' = (if room then set_ksocket p (with_queue t (ks_queue t ++ [data])) else λ k, k) (set_ksocket id q' (kernel w))) →
  ∃ ss' w', by_sender f call i ss r w = Return (f (answer (enqueue data l).1), ss', r, w') ∧ length ss' = length ss ∧
    connected (kernel w') ss' r (enqueue data l).2.
Proof.
  intros (p & t & ids & Hr & <- & Hnd & Hss) Hi Hcall. destruct (lookup_lt_is_Some_2 _ _ Hi) as [s Hs].
  destruct (Forall2_lookup_l _ _ _ _ _ Hss Hs) as (id & Hid & q & Hq & Hp). apply NoDup_cons in Hnd as [Hnp Hnd].
  assert (p ≠ id) as Hne by (intros ->; by apply Hnp; eapply list_elem_of_lookup_2).
  unfold by_sender. rewrite Hs. pose proof Hr as (_ & Ht & _). destruct (Hcall s id q p t Hq Hp Ht Hne) as (q' & w' & -> & [Hp' _] & Hn & Hk). cbn [obind].
  rewrite Hp in Hp'. assert (Forall2 (sends_to (set_ksocket id q' (kernel w)) p) (<[i := set_flag s true]> ss) ids) as Hss' by (by eapply sender_updated).
  assert (has_socket (set_ksocket id q' (kernel w)) r p t) as Hr' by (by apply has_socket_other).
  exists (<[i := set_flag s true]> ss), w'. unfold enqueue. destruct (_ <? _); cbn; (split; [done|]); (split; [apply length_insert|]).
  - exists p, (with_queue t (ks_queue t ++ [data])), ids. rewrite Hk. split; [|split; [done|split; [by apply NoDup_cons|by apply senders_other]]].
    pose proof (has_socket_update _ _ _ _ (with_queue t (ks_queue t ++ [data])) _ Hr' eq_refl) as H. destruct Hr as (_ & _ & _ & Hf).
    replace (set_flag r _) with r in H by (destruct r; cbn in *; by rewrite Hf). exact H.
  - exists p, t, ids. rewrite Hk. split; [done|]. split; [done|]. split; [by apply NoDup_cons|done].
Qed.

(** The receiver receives, or looks at what there is. *)
Lemma by_receiver_ok peek ss r l w v p q' t :
  has_socket (kernel w) r p t → ks_queue t = l → connected (kernel w) ss r l → ks_queue q' = left_over peek l → nonblock q' = v →
  connected (set_ksocket p q' (kernel w)) ss (set_flag r v) (left_over peek l).
Proof.
  intros Hr Hl (p' & t' & ids & Hr' & _ & Hnd & Hss) Hq Hn. assert (p' = p) as -> by (destruct Hr as [H _], Hr' as [H' _]; congruence).
  exists p, q', ids. split; [by eapply has_socket_update|]. split; [done|]. split; [done|]. apply senders_other; [done|]. by apply NoDup_cons in Hnd as [? _].
Qed.

Lemma socket_step_ok o ss r l w :
  connected (kernel w) ss r l → socket_op_ok (length ss) o →
  ∃ ss' r' w', socket_step o ss r w = Return ((queue_step o l).1, ss', r', w') ∧ length ss' = length ss ∧
    connected (kernel w') ss' r' (queue_step o l).2.
Proof.
  intros Hc Ho. destruct o as [i data|i data timeout|peek buffer|peek buffer timeout]; cbn [socket_step queue_step].
  - destruct Ho as [Hi Hl]. destruct (by_sender_ok Sent Ok (try_send data) data i ss r l w Hc Hi) as (ss' & w' & -> & Hlen & Hc'); [by intros; apply try_send_ok|].
    exists ss', r, w'. by destruct (enqueue data l).
  - destruct Ho as [Hi Hl]. destruct (by_sender_ok Handed (λ _, Ok tt) (timed_send data timeout) data i ss r l w Hc Hi) as (ss' & w' & -> & Hlen & Hc');
      [by intros; apply timed_send_ok|]. by exists ss', r, w'.
  - pose proof Hc as (p & t & ids & Hr & <- & _). destruct (try_transfer_ok peek buffer r w p t Hr) as (q' & w' & -> & _ & Hq & Hn & Hk). cbn [obind].
    exists ss, (set_flag r true), w'. split; [done|]. split; [done|]. rewrite Hk. by eapply by_receiver_ok.
  - pose proof Hc as (p & t & ids & Hr & <- & _). destruct (timed_transfer_ok peek buffer timeout r w p t Hr (or_intror Ho)) as (q' & w' & -> & _ & Hq & Hn & Hk). cbn [obind].
    exists ss, (set_flag r false), w'. split; [done|]. split; [done|]. rewrite Hk. by eapply by_receiver_ok.
Qed.

(** The senders of a name and its receiver are one bounded queue of datagrams: whatever they
    do, with and without timeouts that are not zero, a datagram that is sent while there is
    room is received once, in its turn, cut off at the end of the buffer; without room it is
    dropped, and only [try_send] says so. *)
Theorem datagram_sockets_are_a_queue os ss r l w :
  connected (kernel w) ss r l → Forall (socket_op_ok (length ss)) os → ∃ w', socket_run os ss r w = Return (queue_run os l, w').
Proof.
  intros Hc Hos. revert ss r l w Hc Hos. induction os as [|o os IH]; intros ss r l w Hc Hos; [by exists w|].
  apply Forall_cons in Hos as [Ho Hos]. destruct (socket_step_ok o ss r l w Hc Ho) as (ss' & r' & w1 & Hst & Hlen & Hc1).
  cbn [socket_run queue_run]. rewrite Hst. cbn [obind]. destruct (queue_step o l) as [a l1]. rewrite <- Hlen in Hos. destruct (IH _ _ _ _ Hc1 Hos) as (w2 & ->).
  by exists w2.
Qed.

(** *** Waiting *)

(** A send that shall wait until there is room does not wait: into a full queue it
    sends nothing, with any timeout, and says that it has sent. *)
Theorem timed_send_does_not_wait data timeout s w id q p t :
  has_socket (kernel w) s id q → ks_peer q = Some p → k_sockets (kernel w) !! p = Some t → p ≠ id →
  Z.of_nat (length data) ≤ dgram_max_size → dgram_queue_length ≤ Z.of_nat (length (ks_queue t)) →
  ∃ w', timed_send data timeout s w = Return (Ok tt, set_flag s true, w') ∧ k_sockets (kernel w') !! p = Some t.
Proof.
  intros Hs Hp Ht Hne Hl Hfull. destruct (timed_send_ok data timeout s w id q p t Hs Hp Ht Hne Hl) as (q' & w' & H & _ & _ & Hk).
  exists w'. split; [done|]. rewrite Hk, (proj2 (Z.ltb_ge _ _) Hfull). cbn. by rewrite lookup_insert_ne.
Qed.

(** A timeout of less than a microsecond is none: a receive with it waits for ever
    where there is nothing to receive. *)
Theorem zero_timeout_waits_for_ever peek buffer timeout s w id q :
  has_socket (kernel w) s id q → ks_queue q = [] → 0 ≤ timeout < 1000 → timed_transfer peek buffer timeout s w = Undefined.
Proof.
  intros Hs He Ht. destruct (timed_transfer_state peek buffer timeout _ _ _ _ Hs) as (f & w1 & -> & H1 & Hf & (Hd & Hq & _)).
  unfold internal_receive. pose proof (recvfrom_law _ (Z.of_nat (length buffer)) peek _ _ _ Hd Hq ltac:(lia)) as Hl. cbn -[Z.testbit] in Hl. rewrite He in Hl.
  assert (duration_as_timeval timeout = no_timeout) as Hz.
  { unfold duration_as_timeval, as_secs, subsec_micros, subsec_nanos, NANOS. rewrite Z.div_small, Z.mod_small by lia. by rewrite Z.div_small by lia. }
  rewrite Hz in Hl. unfold nonblock in Hl. cbn -[Z.testbit] in Hl. rewrite Hf in Hl. cbn in Hl. by rewrite Hl.
Qed.
End Theorems.

(** ** A kernel *)

Section Sample.
Implicit Types k : Kernel.

Definition known_ids k : list Z :=
  (map_to_list (k_sockets k)).*1 ++ (map_to_list (k_fds k)).*2 ++ (map_to_list (k_files k)).*2 ++
  omap (λ x, ks_peer x.2) (map_to_list (k_sockets k)).
Definition next_id k : Z := foldr Z.max 0 (known_ids k) + 1.

Lemma max_ge l z : z ∈ l → z ≤ foldr Z.max 0 l.
Proof. induction l as [|y l IH]; intros Hz; [by apply elem_of_nil in Hz|]. apply elem_of_cons in Hz as [->|Hz]; cbn; [lia|specialize (IH Hz); lia]. Qed.
Lemma next_id_unused k : unused k (next_free (k_fds k)) (next_id k).
Proof.
  assert (∀ z, z ∈ known_ids k → z ≠ next_id k) as Hne by (intros z Hz%max_ge; unfold next_id; lia). unfold known_ids in Hne. setoid_rewrite elem_of_app in Hne.
  split; [apply next_free_none|]. split.
  - apply eq_None_not_Some. intros [q Hq]. apply (Hne (next_id k)); [left|done]. apply list_elem_of_fmap. exists (next_id k, q). split; [done|by apply elem_of_map_to_list].
  - setoid_rewrite elem_of_app in Hne. setoid_rewrite elem_of_app in Hne. split; [|split].
    + intros d Hd. apply (Hne (next_id k)); [|done]. right. left. apply list_elem_of_fmap. exists (d, next_id k). split; [done|by apply elem_of_map_to_list].
    + intros p Hp. apply (Hne (next_id k)); [|done]. right. right. left. apply list_elem_of_fmap. exists (p, next_id k). split; [done|by apply elem_of_map_to_list].
    + intros i q Hq Hp. apply (Hne (next_id k)); [|done]. right. right. right. apply list_elem_of_omap. exists (i, q). split; [by apply elem_of_map_to_list|done].
Qed.

(** What [f] does with the socket of a descriptor. *)
Definition on_socket {A} (d : Z) k (f : Z → KSocket → result A Errno * Kernel) : result A Errno * Kernel :=
  match (id ← k_fds k !! d; q ← k_sockets k !! id; Some (id, q)) with Some (id, q) => f id q | None => (Err EBADF, k) end.

#[export] Instance kernel_descriptors : DescriptorOs Kernel := {
  fcntl_getfd d k := (match k_fds k !! d with Some _ => Ok tt | None => Err EBADF end, k);
  os_dup _ k := (Err EMFILE, k);
  os_close d k := match k_fds k !! d with Some id => (Ok tt, remove_socket d id k) | None => (Err EBADF, k) end;
  os_access p k := (match k_files k !! p with Some _ => Ok tt | None => Err ENOENT end, k);
  os_remove p k := (match k_files k !! p with Some _ => Ok tt | None => Err ENOENT end, delete_file p k)
}.
#[export] Instance kernel_sockets : SocketOs Kernel := {
  os_socket k := (Ok (next_free (k_fds k)), add_socket (next_free (k_fds k)) (next_id k) (mkKSocket 2 no_timeout None []) k);
  os_getfl d k := on_socket d k (λ _ q, (Ok (ks_flags q), k));
  os_setfl d f k := on_socket d k (λ id q, (Ok tt, set_ksocket id (with_flags q f) k));
  os_setsockopt d o k := on_socket d k (λ id q, (Ok tt, match o with SO_RCVTIMEO t => set_ksocket id (with_rcvtimeo q t) k | _ => k end));
  os_getsockopt d _ k := on_socket d k (λ _ _, (Ok 212992, k));
  os_umask m k := (18, k);
  os_bind d p k :=
    match k_fds k !! d, k_files k !! p with Some id, None => (Ok tt, add_file p id k) | _, _ => (Err EADDRINUSE, k) end;
  os_connect d p k := on_socket d k (λ id q,
    match k_files k !! p with
    | None => (Err ENOENT, k)
    | Some peer => match k_sockets k !! peer with None => (Err ECONNREFUSED, k) | Some _ => (Ok tt, set_ksocket id (with_peer q (Some peer)) k) end
    end);
  os_sendto d data k := on_socket d k (λ id q,
    match (p ← ks_peer q; t ← k_sockets k !! p; Some (p, t)) with
    | None => (Err ENOTCONN, k)
    | Some (p, t) =>
        if 4096 <? Z.of_nat (length data) then (Err EMSGSIZE, k)
        else if Z.of_nat (length (ks_queue t)) <? 10
        then (Ok (Z.of_nat (length data)), set_ksocket p (with_queue t (ks_queue t ++ [data])) k) else (Err EAGAIN, k)
    end);
  os_recvfrom d n peek k :=
    match (id ← k_fds k !! d; q ← k_sockets k !! id; Some (id, q)) with
    | None => Return (Err EBADF, k)
    | Some (id, q) =>
        match ks_queue q with
        | m :: l => Return (Ok (take (Z.to_nat n) m), if peek then k else set_ksocket id (with_queue q l) k)
        | [] => if nonblock q || negb (bool_decide (ks_rcvtimeo q = no_timeout)) then Return (Err EAGAIN, k) else Undefined
        end
    end
}.

Lemma on_socket_some {A} d k f id q : k_fds k !! d = Some id → k_sockets k !! id = Some q → on_socket (A := A) d k f = f id q.
Proof. intros Hd Hq. unfold on_socket. rewrite Hd. cbn. by rewrite Hq. Qed.

#[export] Instance kernel_laws : SocketLaws Kernel.
Proof.
  refine {| kernel := id; dgram_queue_length := 10; dgram_max_size := 4096 |}; unfold id.
  - intros d k [id Hd]. cbn. rewrite Hd. by exists k.
  - intros p k. by exists k.
  - intros p k. by eexists.
  - intros d id k Hd Ha. cbn. rewrite Hd. by eexists.
  - intros k. eexists _, _, _, _. split; [reflexivity|]. split; [apply next_id_unused|]. split; [|reflexivity]. done.
  - done.
  - intros d p id k Hd Hp. cbn. rewrite Hd, Hp. by eexists.
  - intros d p id q k Hd Hq. cbn. rewrite (on_socket_some _ _ _ _ _ Hd Hq). destruct (k_files k !! p) as [peer|]; [|by exists k].
    destruct (k_sockets k !! peer); by eexists.
  - intros d id q k Hd Hq. cbn. rewrite (on_socket_some _ _ _ _ _ Hd Hq). by exists k.
  - intros d f id q k Hd Hq. cbn. rewrite (on_socket_some _ _ _ _ _ Hd Hq). by eexists.
  - intros d o id q k Hd Hq. cbn. rewrite (on_socket_some _ _ _ _ _ Hd Hq). by eexists.
  - intros d data id q p t k Hd Hq Hp Ht Hl Hn. cbn. rewrite (on_socket_some _ _ _ _ _ Hd Hq), Hp. cbn. rewrite Ht. cbn.
    rewrite (proj2 (Z.ltb_ge _ _) Hl). destruct (_ <? 10); by eexists.
  - intros d n peek id q k Hd Hq Hn. cbn -[nonblock]. rewrite Hd. cbn -[nonblock]. rewrite Hq. cbn -[nonblock].
    destruct (ks_queue q); [|by eexists]. destruct (_ || _); [by eexists|done].
Defined.

(** A receiver at /a, and a sender connected to it. *)
Definition sample_kernel : Kernel :=
  mkKernel {[ [47; 97] := 1 ]} {[ 1 := mkKSocket 2 no_timeout None []; 2 := mkKSocket 2 no_timeout (Some 1) [] ]} {[ 3 := 1; 4 := 2 ]}.
Definition sample_socket (d : Z) : UnixDatagramSocket := mkSocket [47; 97] false (mkFileDescriptor d true).
Lemma datagram_sockets_are_a_queue_witness :
  ∃ k, socket_run [OpTrySend 0 [1; 2; 3]; OpTimedSend 0 [4] 0; OpTryTransfer true [0; 0]; OpTryTransfer false [0; 0]; OpTimedTransfer false [0; 0] 1000]
         [sample_socket 4] (sample_socket 3) sample_kernel =
       Return ([Sent (Ok true); Handed (Ok tt); Transferred (Ok (2, [1; 2])); Transferred (Ok (2, [1; 2])); Transferred (Ok (1, [4; 0]))], k).
Proof.
  destruct (datagram_sockets_are_a_queue [OpTrySend 0 [1; 2; 3]; OpTimedSend 0 [4] 0; OpTryTransfer true [0; 0]; OpTryTransfer false [0; 0]; OpTimedTransfer false [0; 0] 1000]
    [sample_socket 4] (sample_socket 3) [] sample_kernel) as [k H].
  - exists 1, (mkKSocket 2 no_timeout None []), [2]. split; [done|]. split; [done|]. split; [by vm_compute; repeat constructor; set_solver|].
    constructor; [|constructor]. by exists (mkKSocket 2 no_timeout (Some 1) []).
  - repeat constructor; by vm_compute.
  - exists k. rewrite H. by vm_compute.
Defined.

(** A queue without room. *)
Definition full_kernel : Kernel := set_ksocket 1 (mkKSocket 2 no_timeout None (replicate 10 [7])) sample_kernel.

Lemma refused_receiver_removes_the_file_witness :
  ∃ k, receiver_new 1 true (mkReceiverBuilder [47; 97] 448 CreateExclusive) sample_kernel = Return (Err SocketFileAlreadyExists, k) ∧
    k_files k !! [47; 97] = None.
Proof.
  destruct (refused_receiver_removes_the_file 0 true [47; 97] 448 sample_kernel) as (k & H & Hk); [by eexists|by vm_compute|].
  exists k. split; [exact H|]. change (kernel k) with k in Hk. by rewrite Hk.
Defined.

Lemma timed_send_does_not_wait_witness :
  ∃ k, timed_send [1; 2] (from_secs 5) (sample_socket 4) full_kernel = Return (Ok tt, set_flag (sample_socket 4) true, k) ∧
    k_sockets k !! 1 = Some (mkKSocket 2 no_timeout None (replicate 10 [7])).
Proof.
  exact (timed_send_does_not_wait [1; 2] (from_secs 5) (sample_socket 4) full_kernel 2 (mkKSocket 2 no_timeout (Some 1) []) 1
    (mkKSocket 2 no_timeout None (replicate 10 [7])) ltac:(done) eq_refl ltac:(done) ltac:(done) ltac:(by vm_compute) ltac:(by vm_compute)).
Defined.

Lemma zero_timeout_waits_for_ever_witness : timed_receive [0] 999 (sample_socket 3) sample_kernel = Undefined.
Proof.
  apply (zero_timeout_waits_for_ever false [0] 999 (sample_socket 3) sample_kernel 1 (mkKSocket 2 no_timeout None [])); [done|done|lia].
Defined.
End Sample.
