(* ===== verification/BumpAllocator.v ===== *)
(** * elkodon_bb/memory/src/bump_allocator.rs

    The lock-free bump allocator: sequential operations, its instance of the
    allocator interface and contract, and any number of threads that allocate
    concurrently ([compare_exchange_weak] may fail spuriously). *)

From S2P Require Import Prelude Elementary.

Record BumpAllocator := mkBumpAllocator {
  start : Z;
  size : Z;
  current_position : Z
}.

Definition set_current_position (s : BumpAllocator) (p : Z) : BumpAllocator :=
  mkBumpAllocator (start s) (size s) p.

Section Operations.
Context `{P : Profile}.

Definition new (ptr size : Z) : BumpAllocator := mkBumpAllocator ptr size 0.

Definition used_space (s : BumpAllocator) : Z := current_position s.
Definition free_space (s : BumpAllocator) : outcome Z := usub (size s) (used_space s).
Definition total_space (s : BumpAllocator) : Z := size s.

(** The body of the loop of [allocate] up to the compare-exchange: [None] when
    the request does not fit, otherwise the aligned position and the position
    behind the chunk. *)
Definition fit (s : BumpAllocator) (l : Layout) (current : Z) : outcome (option (Z * Z)) :=
  let! p := uadd (start s) current in
  let! a := Math.align p (l_align l) in
  let! aligned := usub a (start s) in
  let! e := uadd aligned (l_size l) in
  if size s <? e then Return None else Return (Some (aligned, e)).

(** The loop; a failed exchange supplies the position of the next round. *)
Fixpoint allocate_loop (fuel : nat) (s : BumpAllocator) (l : Layout) (current : Z)
    : outcome (result Chunk AllocationError * BumpAllocator) :=
  match fuel with
  | O => Undefined
  | S fuel =>
      let! r := fit s l current in
      match r with
      | None => Return (Err OutOfMemory, s)
      | Some (aligned, e) =>
          let '(cell, x) := compare_exchange (current_position s) current e in
          let s := set_current_position s cell in
          match x with
          | Ok _ =>
              let! a := uadd (start s) aligned in
              Return (Ok (mkChunk a (l_size l)), s)
          | Err v => allocate_loop fuel s l v
          end
      end
  end.

Definition bump_allocate (s : BumpAllocator) (l : Layout)
    : outcome (result Chunk AllocationError * BumpAllocator) :=
  if l_size l =? 0 then Return (Err SizeIsZero, s)
  else allocate_loop 2 s l (current_position s).

(** [deallocate] releases everything. *)
Definition bump_deallocate (s : BumpAllocator) (ptr : Z) (l : Layout)
    : outcome (result unit DeallocationError * BumpAllocator) :=
  Return (Ok tt, set_current_position s 0).

#[export] Instance bump_BaseAllocator : BaseAllocator BumpAllocator := {
  allocate := bump_allocate;
  deallocate := bump_deallocate
}.

(** ** Interleaving *)

Inductive thread_pc :=
| BIdle
| BLoad (l : Layout)
| BCas (l : Layout) (current aligned e : Z)
| BRet (r : result Chunk AllocationError).

(** After a load, or a failed exchange, that gave [current]. *)
Definition loop_head (s : BumpAllocator) (l : Layout) (current : Z) : outcome thread_pc :=
  let! r := fit s l current in
  match r with
  | None => Return (BRet (Err OutOfMemory))
  | Some (aligned, e) => Return (BCas l current aligned e)
  end.

(** [spurious]: the weak compare-exchange fails although the values agree. The
    label is the request with the chunk that is handed out. *)
Definition thread_step (spurious : bool) (s : BumpAllocator) (pc : thread_pc)
    : outcome (BumpAllocator * thread_pc * option (Layout * Chunk)) :=
  match pc with
  | BIdle | BRet _ => Return (s, BIdle, None)
  | BLoad l =>
      if l_size l =? 0 then Return (s, BRet (Err SizeIsZero), None)
      else let! pc' := loop_head s l (current_position s) in Return (s, pc', None)
  | BCas l current aligned e =>
      let '(cell, x) :=
        if spurious then (current_position s, Err (current_position s))
        else compare_exchange (current_position s) current e in
      let s := set_current_position s cell in
      match x with
      | Ok _ =>
          let! a := uadd (start s) aligned in
          let c := mkChunk a (l_size l) in Return (s, BRet (Ok c), Some (l, c))
      | Err v => let! pc' := loop_head s l v in Return (s, pc', None)
      end
  end.

Record sys := mkSys { alloc : BumpAllocator; threads : list thread_pc }.

(** Threads may call [allocate] with any layout of at most [limit] bytes and
    alignment. *)
Inductive sys_step (limit : Z) : sys → option (Layout * Chunk) → sys → Prop :=
| step_call s ts1 ts2 l :
    layout_wf l → l_size l + l_align l ≤ limit →
    sys_step limit (mkSys s (ts1 ++ BIdle :: ts2)) None (mkSys s (ts1 ++ BLoad l :: ts2))
| step_thread s ts1 pc ts2 b s' pc' e :
    pc ≠ BIdle → thread_step b s pc = Return (s', pc', e) →
    sys_step limit (mkSys s (ts1 ++ pc :: ts2)) e (mkSys s' (ts1 ++ pc' :: ts2)).

(** ** Invariant *)

Record bump_owns (s : BumpAllocator) (lo hi : Z) (cs : list Chunk) : Prop := {
  own_lo : lo = start s;
  own_hi : hi = start s + size s;
  own_nonneg : 0 ≤ start s;
  own_pos : 0 ≤ current_position s ≤ size s;
  own_chunks : Forall (λ c, start s ≤ c_start c ∧
                            c_start c + c_len c ≤ start s + current_position s) cs;
  own_disjoint : pairwise_disjoint cs
}.

Definition thread_inv (limit : Z) (s : BumpAllocator) (pc : thread_pc) : Prop :=
  match pc with
  | BLoad l => layout_wf l ∧ l_size l + l_align l ≤ limit
  | BCas l current aligned e =>
      layout_wf l ∧ l_size l + l_align l ≤ limit ∧
      current ≤ aligned ∧ e = aligned + l_size l ∧ e ≤ size s ∧
      (start s + aligned) mod l_align l = 0
  | _ => True
  end.
End Operations.

Section Theorems.
Context `{P : Profile}.
Implicit Types (s : BumpAllocator) (l : Layout) (cs : list Chunk).

(** The position computed for a request. *)
Lemma fit_spec s l current :
  0 ≤ start s → 0 ≤ current ≤ size s → layout_wf l →
  start s + size s + l_size l + l_align l < USIZE →
  ∃ r, fit s l current = Return r ∧
    match r with
    | Some (aligned, e) =>
        current ≤ aligned ∧ e = aligned + l_size l ∧ e ≤ size s ∧
        (start s + aligned) mod l_align l = 0
    | None => size s < current + l_align l + l_size l
    end.
Proof.
  intros H0 Hc Hl Hb. pose proof (layout_align_pos l Hl). pose proof Hl as [Hs _].
  unfold fit. rewrite uadd_ok by lia. cbn [obind].
  destruct (Math.align_ok (start s + current) (l_align l)) as (a & -> & Ha & Hmod); [lia..|].
  cbn [obind]. rewrite usub_ok by lia. cbn [obind]. rewrite uadd_ok by lia. cbn [obind].
  destruct (Z.ltb_spec (size s) (a - start s + l_size l)); eexists; (split; [done|]);
    cbn; [lia|].
  replace (start s + (a - start s)) with a by lia. split_and!; try done; lia.
Qed.

(** Handing out a chunk at or behind the current position. *)
Lemma bump_owns_cons s lo hi cs aligned e len :
  bump_owns s lo hi cs → current_position s ≤ aligned → e = aligned + len → 0 ≤ len →
  e ≤ size s →
  bump_owns (set_current_position s e) lo hi (mkChunk (start s + aligned) len :: cs).
Proof.
  intros [-> -> H0 Hp Hcs Hd] Ha He Hl Hs. constructor; cbn; try done; try lia.
  - constructor; cbn; [lia|]. eapply Forall_impl; [done|]. intros c Hc. cbn in *. lia.
  - split; [|done]. eapply Forall_impl; [done|]. intros c Hc. right. cbn in *. lia.
Qed.

Lemma bump_allocate_spec s lo hi cs l r s' :
  bump_owns s lo hi cs → layout_wf l → hi + l_size l + l_align l < USIZE →
  bump_allocate s l = Return (r, s') →
  match r with
  | Ok c => c_len c = l_size l ∧ c_start c mod l_align l = 0 ∧ bump_owns s' lo hi (c :: cs)
  | Err _ => s' = s
  end.
Proof.
  intros Hown Hl Hb Hal. pose proof Hown as [Hlo Hhi H0 Hp Hcs Hd]. unfold bump_allocate in Hal.
  destruct (Z.eqb_spec (l_size l) 0); [by injection Hal as <- <-|].
  cbn [allocate_loop] in Hal.
  destruct (fit_spec s l (current_position s)) as (o & Hf & Ho); try done; [lia|].
  rewrite Hf in Hal. cbn [obind] in Hal. destruct o as [[aligned e]|].
  - unfold compare_exchange in Hal. rewrite Z.eqb_refl in Hal.
    destruct Ho as (Ha & He & Hs & Hmod). pose proof Hl as [Hs0 _].
    pose proof (layout_align_pos l Hl).
    cbn [start set_current_position] in Hal. rewrite uadd_ok in Hal by lia.
    cbn [obind] in Hal. injection Hal as <- <-. cbn. split; [done|]. split; [done|].
    by apply bump_owns_cons.
  - by injection Hal as <- <-.
Qed.

Lemma bump_allocate_returns s lo hi cs l :
  bump_owns s lo hi cs → layout_wf l → hi + l_size l + l_align l < USIZE → ∃ r s', bump_allocate s l = Return (r, s').
Proof.
  intros [Hlo Hhi H0 Hp _ _] Hl Hb. unfold bump_allocate. destruct (l_size l =? 0); [by do 2 eexists|]. cbn [allocate_loop].
  destruct (fit_spec s l (current_position s)) as (o & -> & Ho); try done; [lia|]. cbn [obind].
  destruct o as [[aligned e]|]; [|by do 2 eexists]. unfold compare_exchange. rewrite Z.eqb_refl.
  destruct Ho as (Ha & He & Hs & _). pose proof Hl as [Hs0 _]. pose proof (layout_align_pos l Hl).
  cbn [start set_current_position]. rewrite uadd_ok by lia. cbn [obind]. by do 2 eexists.
Qed.

#[export] Instance bump_contract : AllocatorContract BumpAllocator.
Proof.
  refine {| owns := bump_owns |}.
  - intros s lo hi cs [-> -> H0 Hp Hcs Hd]. eapply Forall_impl; [done|]. intros c Hc. cbn in *. lia.
  - intros s lo hi cs Hown. by destruct Hown.
  - intros s lo hi cs l r s' Hown Hl Hb Hal.
    pose proof (bump_allocate_spec _ _ _ _ _ _ _ Hown Hl Hb Hal) as Hs.
    destruct r as [c|e]; [|done]. destruct Hs as (Hlen & ? & ?). split; [lia|done].
Defined.

(** An allocation succeeds whenever the free space covers the request and its
    padding; in particular consecutive requests whose padded sizes add up to
    the size of the memory all succeed. *)
Lemma bump_allocate_succeeds s lo hi cs l :
  bump_owns s lo hi cs → layout_wf l → hi + l_size l + l_align l < USIZE →
  0 < l_size l → current_position s + (l_align l - 1) + l_size l ≤ size s →
  ∃ c s', bump_allocate s l = Return (Ok c, s') ∧ c_len c = l_size l ∧
    c_start c mod l_align l = 0 ∧ bump_owns s' lo hi (c :: cs) ∧
    current_position s' ≤ current_position s + (l_align l - 1) + l_size l.
Proof.
  intros Hown Hl Hb Hs Hfit. pose proof Hown as [Hlo Hhi H0 Hp Hcs Hd].
  pose proof (layout_align_pos l Hl) as Hap.
  unfold bump_allocate. rewrite (proj2 (Z.eqb_neq _ _)) by lia. cbn [allocate_loop]. unfold fit.
  rewrite uadd_ok by lia. cbn [obind].
  destruct (Math.align_ok (start s + current_position s) (l_align l)) as (a & -> & Ha & Hmod); [lia..|].
  cbn [obind]. rewrite usub_ok by lia. cbn [obind]. rewrite uadd_ok by lia. cbn [obind].
  rewrite (proj2 (Z.ltb_ge _ _)) by lia. cbn [obind].
  unfold compare_exchange. rewrite Z.eqb_refl. cbn [start set_current_position].
  rewrite uadd_ok by lia. cbn [obind]. do 2 eexists. split; [done|]. split; [done|].
  split; [cbn; by replace (start s + (a - start s)) with a by lia|].
  split; [|cbn; lia]. apply bump_owns_cons; try done; lia.
Qed.

(** ** The interleaved allocator *)

(** What a request is answered with. *)
Definition served (e : Layout * Chunk) : Prop :=
  c_len e.2 = l_size e.1 ∧ c_start e.2 mod l_align e.1 = 0.

Record sys_inv (limit : Z) (base : BumpAllocator) (s : sys) (tr : list (Layout * Chunk))
    : Prop := {
  inv_own : bump_owns (alloc s) (start base) (start base + size base) (rev (map snd tr));
  inv_served : Forall served tr;
  inv_threads : Forall (thread_inv limit (alloc s)) (threads s)
}.

Lemma thread_inv_position limit s p pc :
  thread_inv limit s pc → thread_inv limit (set_current_position s p) pc.
Proof. by destruct pc. Qed.

Lemma loop_head_inv limit s lo hi cs l current pc' :
  bump_owns s lo hi cs → layout_wf l → l_size l + l_align l ≤ limit → hi + limit < USIZE →
  0 ≤ current ≤ size s → loop_head s l current = Return pc' → thread_inv limit s pc'.
Proof.
  intros [-> -> H0 Hp _ _] Hl Hlim Hb Hc Hh. unfold loop_head in Hh.
  destruct (fit_spec s l current) as (o & Hf & Ho); try done; [lia|].
  rewrite Hf in Hh. cbn [obind] in Hh. destruct o as [[aligned e]|]; injection Hh as <-; [|done].
  done.
Qed.

Lemma bump_thread_step_inv limit lo hi b s cs pc s' pc' e ts :
  bump_owns s lo hi cs → hi + limit < USIZE →
  Forall (thread_inv limit s) (pc :: ts) →
  thread_step b s pc = Return (s', pc', e) →
  bump_owns s' lo hi (map snd (option_list e) ++ cs) ∧ Forall served (option_list e) ∧
  Forall (thread_inv limit s') (pc' :: ts).
Proof.
  intros Hown Hb [Hpc Hts]%Forall_cons Hst. pose proof Hown as [Hlo Hhi H0 Hp Hcs Hd].
  destruct pc as [|l|l current aligned en|r]; cbn [thread_step thread_inv] in *.
  - injection Hst as <- <- <-. split_and!; [done|done|by constructor].
  - destruct Hpc as [Hl Hlim].
    destruct (l_size l =? 0);
      [injection Hst as <- <- <-; split_and!; [done|done|by constructor]|].
    destruct (loop_head s l (current_position s)) as [p| |] eqn:Eh; cbn [obind] in Hst; try done.
    injection Hst as <- <- <-. split_and!; [done|done|]. constructor; [|done].
    by eapply loop_head_inv.
  - destruct Hpc as (Hl & Hlim & Ha & He & Hs & Hmod).
    assert (∀ p, Forall (thread_inv limit (set_current_position s p)) ts) as Hts'.
    { intros p. eapply Forall_impl; [done|]. intros. by apply thread_inv_position. }
    destruct (if b then _ else _) as [cell x] eqn:Ecas.
    assert ((x = Ok current ∧ cell = en ∧ current_position s = current) ∨
            (∃ v, x = Err v ∧ cell = current_position s ∧ v = current_position s)) as Hx.
    { destruct b; [injection Ecas as <- <-; eauto|]. unfold compare_exchange in Ecas.
      destruct (Z.eqb_spec (current_position s) current); injection Ecas as <- <-; eauto.
      left. by subst. }
    destruct Hx as [(-> & -> & Hcur)|(v & -> & -> & ->)].
    + cbn [start set_current_position] in Hst. pose proof Hl as [Hs0 _].
      pose proof (layout_align_pos l Hl).
      rewrite uadd_ok in Hst by lia. cbn [obind] in Hst. injection Hst as <- <- <-.
      split_and!; [|by repeat constructor|by constructor].
      cbn. apply bump_owns_cons; try done; lia.
    + assert (set_current_position s (current_position s) = s) as Hsame by (by destruct s).
      rewrite Hsame in Hst. destruct (loop_head s l (current_position s)) as [p| |] eqn:Eh;
        cbn [obind] in Hst; try done. injection Hst as <- <- <-. split_and!; [done|done|].
      constructor; [|done]. by eapply loop_head_inv.
  - injection Hst as <- <- <-. split_and!; [done|done|by constructor].
Qed.

Lemma bump_sys_step_inv limit base (s s' : sys) tr e :
  start base + size base + limit < USIZE → sys_inv limit base s tr → sys_step limit s e s' →
  sys_inv limit base s' (tr ++ option_list e).
Proof.
  intros Hb [Hown Hserved Hts] Hst.
  inversion Hst as [s0 ts1 ts2 l Hl Hlim|s0 ts1 pc ts2 b s0' pc' e' Hpc Hstep]; subst; cbn in *;
    apply Forall_app in Hts as [H1 [H2 H3]%Forall_cons].
  - rewrite app_nil_r. constructor; cbn; [done..|]. apply Forall_app. split; [done|].
    by constructor.
  - edestruct (bump_thread_step_inv limit) as (Hown' & Hs' & [Hp' [Ht1 Ht2]%Forall_app]%Forall_cons);
      [exact Hown|exact Hb| |exact Hstep|].
    { constructor; [exact H2|]. apply Forall_app. split; [exact H1|exact H3]. }
    constructor; cbn.
    + rewrite map_app, rev_app_distr. by destruct e.
    + by apply Forall_app.
    + apply Forall_app. split; [done|]. by constructor.
Qed.

(** C26. Concurrent allocation: any number of threads that allocate from one bump
    allocator, with arbitrary interleaving and spurious failures of the weak
    compare-exchange, receive chunks of the requested size and alignment that
    are pairwise disjoint and lie inside of the managed memory. *)
Theorem bump_chunks_disjoint ptr sz limit n (s : sys) tr :
  0 ≤ ptr → 0 ≤ sz → ptr + sz + limit < USIZE →
  steps (sys_step limit) (mkSys (new ptr sz) (replicate n BIdle)) tr s →
  pairwise_disjoint (rev (map snd tr)) ∧
  Forall (λ '(l, c), ptr ≤ c_start c ∧ c_start c + c_len c ≤ ptr + sz ∧
                     c_len c = l_size l ∧ c_start c mod l_align l = 0) tr.
Proof.
  intros H0 H1 Hb Hst.
  assert (sys_inv limit (new ptr sz) s tr) as [Hown Hserved _].
  { revert s tr Hst. apply (steps_invariant (sys_step limit) (sys_inv limit (new ptr sz))).
    - constructor; cbn; [by constructor|done|]. by apply Forall_replicate.
    - intros s tr s' _ Hinv Hst. rewrite <- (app_nil_r tr).
      by eapply (bump_sys_step_inv _ _ _ _ _ None).
    - intros s tr e s' _ Hinv Hst. by eapply (bump_sys_step_inv _ _ _ _ _ (Some e)). }
  destruct Hown as [Hlo Hhi _ Hp Hcs Hd]. split; [done|].
  apply Forall_rev in Hcs. rewrite rev_involutive, Forall_map in Hcs.
  apply Forall_forall. intros [l c] Hin.
  rewrite Forall_forall in Hcs, Hserved. destruct (Hserved _ Hin) as [? ?].
  specialize (Hcs _ Hin). cbn in *. unfold compose in Hcs. cbn in Hcs. split_and!; try done; lia.
Qed.
End Theorems.

(** Two threads: the first one is served after a spurious failure, the second
    one has to retry because of it. *)
Definition bump_at (p : Z) : BumpAllocator := mkBumpAllocator 4096 64 p.

Lemma bump_sample_run :
  steps (sys_step (P := true) 32) (mkSys (new 4096 64) (replicate 2 BIdle))
    [(mkLayout 3 1, mkChunk 4096 3); (mkLayout 8 8, mkChunk 4104 8)]
    (mkSys (bump_at 16) [BRet (Ok (mkChunk 4096 3)); BRet (Ok (mkChunk 4104 8))]).
Proof.
  set (l := mkLayout 3 1). set (k := mkLayout 8 8).
  eapply (steps_label _ _ [_]); [|eapply (step_thread _ (bump_at 3) [_] (BCas k 3 8 16) [] false); [done|reflexivity]].
  eapply steps_silent; [|eapply (step_thread _ (bump_at 3) [_] (BCas k 0 0 8) [] false); [done|reflexivity]].
  eapply (steps_label _ _ []); [|eapply (step_thread _ (bump_at 0) [] (BCas l 0 0 3) [_] false); [done|reflexivity]].
  eapply steps_silent; [|eapply (step_thread _ (bump_at 0) [] (BCas l 0 0 3) [_] true); [done|reflexivity]].
  eapply steps_silent; [|eapply (step_thread _ (bump_at 0) [_] (BLoad k) [] false); [done|reflexivity]].
  eapply steps_silent; [|eapply (step_thread _ (bump_at 0) [] (BLoad l) [_] false); [done|reflexivity]].
  eapply steps_silent; [|apply (step_call _ (bump_at 0) [_] [] k); [|done]].
  2: { split; [done|]. by exists 3. }
  eapply steps_silent; [|apply (step_call _ (bump_at 0) [] [_] l); [|done]].
  2: { split; [done|]. by exists 0. }
  apply steps_refl.
Qed.

Lemma bump_chunks_disjoint_witness :
  pairwise_disjoint [mkChunk 4104 8; mkChunk 4096 3].
Proof.
  apply (bump_chunks_disjoint (P := true) 4096 64 32 2
    (mkSys (bump_at 16) [BRet (Ok (mkChunk 4096 3)); BRet (Ok (mkChunk 4104 8))])
    [(mkLayout 3 1, mkChunk 4096 3); (mkLayout 8 8, mkChunk 4104 8)]);
    [lia|lia|reflexivity|apply bump_sample_run].
Defined.
