(* ===== verification/PoolAllocator.v ===== *)
(** * elkodon_bb/memory/src/pool_allocator.rs

    The lock-free pool allocator: equally sized buckets handed out through a
    [UniqueIndexSet].

    - sequential operations on the record [PoolAllocator], both constructors;
    - [pool_owns]: which chunks are handed out; every operation is proved
      against it, and it gives the instance of the allocator contract;
    - two behaviours outside of the contract: buckets whose size is no multiple
      of their alignment, and a pointer one past the end. *)

From S2P Require Import Prelude Elementary UniqueIndexSet BumpAllocator.

Record PoolAllocator := mkPoolAllocator {
  buckets : UniqueIndexSet;
  bucket_size : Z;
  bucket_alignment : Z;
  start : Z;
  size : Z;
  is_memory_initialized : bool
}.

Definition set_buckets (s : PoolAllocator) (b : UniqueIndexSet) : PoolAllocator :=
  mkPoolAllocator b (bucket_size s) (bucket_alignment s) (start s) (size s)
    (is_memory_initialized s).

Section Operations.
Context `{P : Profile}.

Definition verify_init (s : PoolAllocator) : outcome unit :=
  if is_memory_initialized s then Return tt else Panic.

Definition number_of_buckets (s : PoolAllocator) : Z := capacity (buckets s).
Definition max_alignment (s : PoolAllocator) : Z := bucket_alignment s.

Definition calc_number_of_buckets (bucket_layout : Layout) (ptr size : Z) : outcome Z :=
  let! adjusted_start := Math.align ptr (l_align bucket_layout) in
  let! bucket_size := Math.align (l_size bucket_layout) (l_align bucket_layout) in
  let! e := uadd ptr size in
  let! d := usub e adjusted_start in
  udiv d bucket_size.

Definition new_uninit (bucket_layout : Layout) (ptr size : Z) : outcome PoolAllocator :=
  let! adjusted_start := Math.align ptr (l_align bucket_layout) in
  let! n := calc_number_of_buckets bucket_layout ptr size in
  Return (mkPoolAllocator (UniqueIndexSet.new_uninit n) (l_size bucket_layout)
            (l_align bucket_layout) adjusted_start size false).

Definition init {S} `{BaseAllocator S} (s : PoolAllocator) (allocator : S)
    : outcome (result unit AllocationError * PoolAllocator * S) :=
  if is_memory_initialized s then Panic
  else
    let! '(r, b, a) := UniqueIndexSet.init (buckets s) allocator in
    match r with
    | Err e => Return (Err e, set_buckets s b, a)
    | Ok _ =>
        Return (Ok tt, mkPoolAllocator b (bucket_size s) (bucket_alignment s) (start s)
                         (size s) true, a)
    end.

Definition memory_size (bucket_layout : Layout) (size : Z) : outcome Z :=
  let! min_required_buckets := udiv size (l_size bucket_layout) in
  UniqueIndexSet.const_memory_size min_required_buckets.

(** [FixedSizePoolAllocator::new]: the cells of the index set are the array
    behind the allocator and the extra cell. *)
Definition fixed_size_new (MAX_NUMBER_OF_BUCKETS : Z) (bucket_layout : Layout) (ptr size : Z)
    : outcome PoolAllocator :=
  let! adjusted_start := Math.align ptr (l_align bucket_layout) in
  let! bucket_size := Math.align (l_size bucket_layout) (l_align bucket_layout) in
  let! e := uadd ptr size in
  let! d := usub e adjusted_start in
  let! number_of_buckets := udiv d bucket_size in
  let! plus_one := u32add (wrap U32 MAX_NUMBER_OF_BUCKETS) 1 in
  Return (mkPoolAllocator
    (mkUniqueIndexSet 0 (successors MAX_NUMBER_OF_BUCKETS ++ [plus_one])
       (wrap U32 (Z.min number_of_buckets MAX_NUMBER_OF_BUCKETS)) 0 true)
    (l_size bucket_layout) (l_align bucket_layout) adjusted_start size true).

Definition get_index (s : PoolAllocator) (position : Z) : outcome (option Z) :=
  if position <? start s then Return None
  else
    let! e := uadd (start s) (size s) in
    if e <? position then Return None
    else
      let! d := usub position (start s) in
      let! i := udiv d (bucket_size s) in
      Return (Some (wrap U32 i)).

Definition pool_allocate (s : PoolAllocator) (layout : Layout)
    : outcome (result Chunk AllocationError * PoolAllocator) :=
  let! _ := verify_init s in
  if bucket_size s <? l_size layout then Return (Err SizeTooLarge, s)
  else if bucket_alignment s <? l_align layout then Return (Err AlignmentFailure, s)
  else
    let! '(r, b) := acquire_raw_index (buckets s) in
    let s := set_buckets s b in
    match r with
    | Some v =>
        let! o := umul v (bucket_size s) in
        let! p := uadd (start s) o in
        Return (Ok (mkChunk p (l_size layout)), s)
    | None => Return (Err OutOfMemory, s)
    end.

Definition pool_deallocate (s : PoolAllocator) (ptr : Z) (layout : Layout)
    : outcome (result unit DeallocationError * PoolAllocator) :=
  let! _ := verify_init s in
  let! i := get_index s ptr in
  match i with
  | Some index =>
      let! b := release_raw_index (buckets s) index in
      Return (Ok tt, set_buckets s b)
  | None => Return (Err DeallocProvidedPointerNotContainedInAllocator, s)
  end.

Definition grow (s : PoolAllocator) (ptr : Z) (old_layout new_layout : Layout)
    : outcome (result Chunk AllocationGrowError) :=
  let! _ := verify_init s in
  let! i := get_index s ptr in
  match i with
  | None => Return (Err GrowProvidedPointerNotContainedInAllocator)
  | Some _ =>
      if l_size new_layout <=? l_size old_layout then Return (Err GrowWouldShrink)
      else if bucket_alignment s <? l_align new_layout then Return (Err GrowAlignmentFailure)
      else if bucket_size s <? l_size new_layout then Return (Err GrowOutOfMemory)
      else Return (Ok (mkChunk ptr (l_size new_layout)))
  end.

Definition shrink (s : PoolAllocator) (ptr : Z) (old_layout new_layout : Layout)
    : outcome (result Chunk AllocationShrinkError) :=
  let! _ := verify_init s in
  let! i := get_index s ptr in
  match i with
  | None => Return (Err ShrinkProvidedPointerNotContainedInAllocator)
  | Some _ =>
      if l_size old_layout <=? l_size new_layout then Return (Err ShrinkWouldGrow)
      else if bucket_alignment s <? l_align new_layout then Return (Err ShrinkAlignmentFailure)
      else Return (Ok (mkChunk ptr (l_size new_layout)))
  end.

#[export] Instance pool_BaseAllocator : BaseAllocator PoolAllocator := {
  allocate := pool_allocate;
  deallocate := pool_deallocate
}.

(** ** Invariant *)

(** The geometry of the pool: buckets inside of [lo, hi), start and stride
    aligned. The last field is the condition on the bucket layout the code
    does not establish by itself. *)
Record pool_wf (s : PoolAllocator) (lo hi : Z) : Prop := {
  wf_init : is_memory_initialized s = true;
  wf_lo : 0 ≤ lo ≤ start s;
  wf_hi : start s + number_of_buckets s * bucket_size s ≤ hi;
  wf_size : number_of_buckets s * bucket_size s ≤ size s;
  wf_word : hi < USIZE ∧ start s + size s < USIZE;
  wf_bucket : 0 < bucket_size s;
  wf_align : ∃ k, 0 ≤ k ∧ bucket_alignment s = 2 ^ k;
  wf_start : start s mod bucket_alignment s = 0;
  wf_stride : bucket_size s mod bucket_alignment s = 0
}.

Definition bucket_chunk (s : PoolAllocator) (i : Z) (c : Chunk) : Prop :=
  c_start c = start s + i * bucket_size s ∧ 0 ≤ c_len c ≤ bucket_size s.

(** The chunks [cs] are handed out: they are the buckets of the indices that
    are not free. [aba] is the modification counter of the index set. *)
Record pool_rep (s : PoolAllocator) (lo hi aba : Z) (cs : list Chunk) : Prop := {
  pool_geometry : pool_wf s lo hi;
  pool_indices : ∃ fl used,
    set_rep (buckets s) aba fl ∧ fl ++ used ≡ₚ indices (number_of_buckets s) ∧
    Forall2 (bucket_chunk s) used cs
}.

Definition pool_owns (s : PoolAllocator) (lo hi : Z) (cs : list Chunk) : Prop :=
  ∃ aba, pool_rep s lo hi aba cs.
End Operations.

Section Theorems.
Context `{P : Profile}.
Implicit Types (s : PoolAllocator) (l : Layout) (cs : list Chunk).

Lemma pow2_mod_le x a b :
  (∃ j, 0 ≤ j ∧ a = 2 ^ j) → (∃ k, 0 ≤ k ∧ b = 2 ^ k) → a ≤ b → x mod b = 0 → x mod a = 0.
Proof.
  intros (j & Hj & ->) (k & Hk & ->) Hle Hx. apply Z.pow_le_mono_r_iff in Hle; [|lia..].
  apply Z.mod_divide; [pose proof (Z.pow_pos_nonneg 2 j); lia|].
  apply Z.mod_divide in Hx; [|pose proof (Z.pow_pos_nonneg 2 k); lia].
  etrans; [|done]. replace k with (k - j + j) by lia. rewrite Z.pow_add_r by lia.
  by exists (2 ^ (k - j)).
Qed.

Lemma pool_wf_set_buckets s lo hi b :
  pool_wf s lo hi → capacity b = number_of_buckets s → pool_wf (set_buckets s b) lo hi.
Proof.
  intros [] Hb. constructor; unfold number_of_buckets in *; cbn; rewrite ?Hb; done.
Qed.

Lemma bucket_in_range s lo hi i :
  pool_wf s lo hi → 0 ≤ i < number_of_buckets s →
  start s ≤ start s + i * bucket_size s ∧
  start s + i * bucket_size s + bucket_size s ≤ start s + number_of_buckets s * bucket_size s.
Proof. intros [] Hi. nia. Qed.

(** Different buckets do not overlap. *)
Lemma bucket_chunks_disjoint s i j c d :
  0 < bucket_size s → i ≠ j → bucket_chunk s i c → bucket_chunk s j d → chunks_disjoint c d.
Proof.
  intros Hb Hij [Hc Hcl] [Hd Hdl]. unfold chunks_disjoint.
  destruct (decide (i < j)); [left|right]; nia.
Qed.

Lemma buckets_pairwise s used cs :
  0 < bucket_size s → NoDup used → Forall2 (bucket_chunk s) used cs → pairwise_disjoint cs.
Proof.
  intros Hb Hnd HF. induction HF as [|i c used cs Hic HF IH]; [done|]. cbn.
  apply NoDup_cons in Hnd as [Hni Hnd]. split; [|by apply IH]. apply Forall_forall.
  intros d Hd. apply list_elem_of_lookup in Hd as [k Hk].
  destruct (Forall2_lookup_r _ _ _ _ _ HF Hk) as (j & Hj & Hjd).
  eapply (bucket_chunks_disjoint s i j); try done. intros ->.
  apply Hni, list_elem_of_lookup. eauto.
Qed.

(** Free and used indices. *)
Lemma pool_indices_facts fl used cap :
  fl ++ used ≡ₚ indices cap →
  NoDup fl ∧ NoDup used ∧ (∀ i, i ∈ fl → i ∉ used) ∧ Forall (λ i, 0 ≤ i < cap) (fl ++ used) ∧
  Z.of_nat (length fl) + Z.of_nat (length used) = Z.max 0 cap.
Proof.
  intros Hp. assert (NoDup (fl ++ used)) as Hnd by (rewrite Hp; apply indices_NoDup).
  apply NoDup_app in Hnd as (H1 & H2 & H3). split_and!; try done.
  - apply Forall_forall. intros i Hi. rewrite Hp in Hi. by apply indices_spec.
  - apply Permutation_length in Hp. rewrite length_app in Hp. unfold indices in Hp.
    rewrite length_fmap, length_seq in Hp. lia.
Qed.

Lemma pool_region s lo hi aba cs :
  pool_rep s lo hi aba cs → Forall (λ c, lo ≤ c_start c ∧ c_start c + c_len c ≤ hi) cs.
Proof.
  intros [Hwf (fl & used & _ & Hp & HF)]. apply pool_indices_facts in Hp as (_ & _ & _ & Hr & _).
  apply Forall_forall. intros c Hc. apply list_elem_of_lookup in Hc as [k Hk].
  destruct (Forall2_lookup_r _ _ _ _ _ HF Hk) as (i & Hi & [Hs Hl]).
  rewrite Forall_forall in Hr. specialize (Hr i). destruct Hr as [? ?].
  { apply elem_of_app. right. apply list_elem_of_lookup. eauto. }
  pose proof (bucket_in_range s lo hi i Hwf ltac:(done)). destruct Hwf. lia.
Qed.

Lemma pool_owns_disjoint s lo hi aba cs : pool_rep s lo hi aba cs → pairwise_disjoint cs.
Proof.
  intros [Hwf (fl & used & _ & Hp & HF)]. apply pool_indices_facts in Hp as (_ & Hnd & _).
  eapply buckets_pairwise; [by destruct Hwf|done|done].
Qed.

(** What a request can be answered with; [n] chunks are handed out already. *)
Definition answer s l (n : Z) (r : result Chunk AllocationError) : Prop :=
  match r with
  | Ok c => l_size l ≤ bucket_size s ∧ l_align l ≤ bucket_alignment s ∧
            n < number_of_buckets s ∧ c_len c = l_size l ∧ c_start c mod l_align l = 0
  | Err SizeTooLarge => bucket_size s < l_size l
  | Err AlignmentFailure => l_size l ≤ bucket_size s ∧ bucket_alignment s < l_align l
  | Err OutOfMemory => l_size l ≤ bucket_size s ∧ l_align l ≤ bucket_alignment s ∧
                       n = number_of_buckets s
  | Err _ => False
  end.

Lemma pool_allocate_inv s lo hi aba cs l r s' :
  pool_rep s lo hi aba cs → layout_wf l → pool_allocate s l = Return (r, s') →
  answer s l (Z.of_nat (length cs)) r ∧
  match r with
  | Ok c => ∃ aba', u32add aba 1 = Return aba' ∧ pool_rep s' lo hi aba' (c :: cs)
  | Err _ => s' = s
  end.
Proof.
  intros Hrep Hl Hal. pose proof Hrep as [Hwf (fl & used & Hset & Hp & HF)].
  pose proof Hwf as [Hini Hlo Hhi Hsz Hw Hb Ha Hst Hsd].
  pose proof (pool_indices_facts _ _ _ Hp) as (Hnd & _ & Hdis & Hr & Hlen).
  pose proof (Forall2_length _ _ _ HF) as Hlen'.
  unfold pool_allocate, verify_init in Hal. rewrite Hini in Hal. cbn [obind] in Hal.
  destruct (Z.ltb_spec (bucket_size s) (l_size l)); [by injection Hal as <- <-|].
  destruct (Z.ltb_spec (bucket_alignment s) (l_align l)); [by injection Hal as <- <-|].
  destruct (acquire_raw_index (buckets s)) as [[r0 b]| |] eqn:Eacq; try done.
  pose proof (acquire_inv _ _ _ _ _ Hset Hnd Eacq) as Hinv.
  destruct fl as [|x fl]; cbn [obind] in Hal.
  - destruct Hinv as [-> ->]. injection Hal as <- <-.
    pose proof Hset as [_ Hcap _ _ _ _]. cbn in *. unfold number_of_buckets in *.
    split; [lia|]. by destruct s.
  - destruct Hinv as (-> & Hcap & aba' & Haba & Hset').
    apply Forall_cons in Hr as [Hx _].
    pose proof (bucket_in_range s lo hi x Hwf Hx).
    cbn [bucket_size set_buckets start] in Hal. rewrite umul_ok in Hal by nia.
    cbn [obind] in Hal. rewrite uadd_ok in Hal by lia. cbn [obind] in Hal.
    injection Hal as <- <-. destruct Hl as [Hl0 Hl1]. split.
    + cbn in Hlen |- *. split_and!; try done; try lia.
      apply (pow2_mod_le _ _ _ Hl1 Ha); [done|].
      rewrite Z.add_mod, Z.mul_mod, Hst, Hsd, Z.mul_0_r, Z.mod_0_l; try done;
        destruct Ha as (k & Hk & ->); pose proof (Z.pow_pos_nonneg 2 k); lia.
    + exists aba'. split; [done|]. constructor; [by apply pool_wf_set_buckets|].
      exists fl, (x :: used). unfold number_of_buckets. cbn. rewrite Hcap. split_and!; [done| |].
      * unfold number_of_buckets in Hp. rewrite <- Hp. cbn. by rewrite Permutation_middle.
      * constructor; [|done]. split; cbn; lia.
Qed.

#[export] Instance pool_contract : AllocatorContract PoolAllocator.
Proof.
  refine {| owns := pool_owns |}.
  - intros s lo hi cs [aba Hrep]. by eapply pool_region.
  - intros s lo hi cs [aba Hrep]. by eapply pool_owns_disjoint.
  - intros s lo hi cs l r s' [aba Hrep] Hl _ Hal.
    destruct (pool_allocate_inv _ _ _ _ _ _ _ _ Hrep Hl Hal) as [Hans Hr].
    destruct r as [c|e]; [|done]. cbn in Hans. destruct Hr as (aba' & _ & Hr).
    split_and!; [lia|apply Hans|by exists aba'].
Defined.

(** Every address inside of a bucket leads to its index. *)
Lemma get_index_inside s lo hi i ptr :
  pool_wf s lo hi → 0 ≤ i < number_of_buckets s → number_of_buckets s < U32 →
  start s + i * bucket_size s ≤ ptr < start s + (i + 1) * bucket_size s →
  get_index s ptr = Return (Some i).
Proof.
  intros Hwf Hi Hn Hc. pose proof (bucket_in_range s lo hi i Hwf Hi).
  destruct Hwf as [_ Hlo Hhi Hsz Hw Hb _ _ _]. unfold get_index.
  rewrite (proj2 (Z.ltb_ge _ _)) by lia. rewrite uadd_ok by lia. cbn [obind].
  rewrite (proj2 (Z.ltb_ge _ _)) by lia. rewrite usub_ok by lia. cbn [obind].
  rewrite udiv_ok by lia. cbn [obind].
  rewrite <- (Z.div_unique (ptr - start s) (bucket_size s) i (ptr - start s - i * bucket_size s)) by lia.
  unfold wrap. by rewrite Z.mod_small by lia.
Qed.

Lemma get_index_chunk s lo hi i c :
  pool_wf s lo hi → 0 ≤ i < number_of_buckets s → number_of_buckets s < U32 →
  bucket_chunk s i c → get_index s (c_start c) = Return (Some i).
Proof.
  intros Hwf Hi Hn [Hc _]. eapply get_index_inside; try done. pose proof (wf_bucket _ _ _ Hwf). lia.
Qed.

(** A chunk that is handed out belongs to a used bucket. *)
Lemma pool_rep_split s lo hi aba cs1 c cs2 :
  pool_rep s lo hi aba (cs1 ++ c :: cs2) →
  ∃ fl used1 i used2, set_rep (buckets s) aba fl ∧
    fl ++ used1 ++ i :: used2 ≡ₚ indices (number_of_buckets s) ∧
    Forall2 (bucket_chunk s) used1 cs1 ∧ bucket_chunk s i c ∧
    Forall2 (bucket_chunk s) used2 cs2 ∧ i ∉ fl ∧ 0 ≤ i < number_of_buckets s ∧
    ∀ ptr, c_start c ≤ ptr < c_start c + bucket_size s → get_index s ptr = Return (Some i).
Proof.
  intros [Hwf (fl & used & Hset & Hp & HF)].
  apply Forall2_app_inv_r in HF as (used1 & used2' & HF1 & HF2 & ->).
  apply Forall2_cons_inv_r in HF2 as (i & used2 & Hic & HF2 & ->).
  exists fl, used1, i, used2.
  pose proof (pool_indices_facts _ _ _ Hp) as (_ & _ & Hdis & Hr & _).
  assert (0 ≤ i < number_of_buckets s) as Hi.
  { rewrite Forall_forall in Hr. apply Hr. set_solver. }
  split_and!; try done; try lia.
  - intros Hin. by apply (Hdis i Hin); set_solver.
  - intros ptr Hptr. destruct Hic as [Hic _]. eapply get_index_inside; try done; [|lia].
    destruct Hset as [_ Hcap _ _ _ _]. unfold number_of_buckets. lia.
Qed.

(** A pointer in front of the first bucket or behind the memory has no index. *)
Lemma get_index_outside s lo hi ptr :
  pool_wf s lo hi → 0 ≤ number_of_buckets s → ptr < start s ∨ start s + size s < ptr → get_index s ptr = Return None.
Proof.
  intros [_ Hlo Hhi Hsz Hw Hb _ _ _] Hn Hp. assert (0 ≤ size s) by nia. unfold get_index. destruct (Z.ltb_spec ptr (start s)); [done|].
  rewrite uadd_ok by lia. cbn [obind]. by rewrite (proj2 (Z.ltb_lt _ _)) by lia.
Qed.

Lemma pool_allocate_returns s lo hi aba cs l :
  pool_rep s lo hi aba cs → aba + 1 < U32 → ∃ r s', pool_allocate s l = Return (r, s').
Proof.
  intros [Hwf (fl & used & Hset & Hp & HF)] Haba.
  pose proof (pool_indices_facts _ _ _ Hp) as (Hnd & _ & _ & Hr & _).
  unfold pool_allocate, verify_init. rewrite (wf_init _ _ _ Hwf). cbn [obind].
  destruct (bucket_size s <? l_size l); [by do 2 eexists|].
  destruct (bucket_alignment s <? l_align l); [by do 2 eexists|].
  pose proof (acquire_rep _ _ _ Hset Hnd Haba) as Hacq. destruct fl as [|x fl].
  - rewrite Hacq. cbn. by do 2 eexists.
  - destruct Hacq as (b & -> & _). cbn [obind]. apply Forall_cons in Hr as [Hx _].
    pose proof (bucket_in_range s lo hi x Hwf Hx). destruct Hwf.
    cbn [bucket_size set_buckets start]. rewrite umul_ok by nia. cbn [obind].
    rewrite uadd_ok by lia. cbn [obind]. by do 2 eexists.
Qed.

Lemma pool_deallocate_rep s lo hi aba cs1 c cs2 ptr l :
  pool_rep s lo hi aba (cs1 ++ c :: cs2) → aba + 1 < U32 → c_start c ≤ ptr < c_start c + bucket_size s →
  ∃ s', pool_deallocate s ptr l = Return (Ok tt, s') ∧
    pool_rep s' lo hi (aba + 1) (cs1 ++ cs2).
Proof.
  intros Hrep Haba Hptr. pose proof Hrep as [Hwf _].
  destruct (pool_rep_split _ _ _ _ _ _ _ Hrep)
    as (fl & used1 & i & used2 & Hset & Hp & HF1 & Hic & HF2 & Hni & Hi & Hget).
  unfold pool_deallocate, verify_init. rewrite (wf_init _ _ _ Hwf). cbn [obind].
  rewrite Hget by done. cbn [obind].
  destruct (release_rep (buckets s) aba fl i) as (b & -> & Hset' & Hcap); try done.
  cbn [obind]. eexists. split; [done|]. constructor; [by apply pool_wf_set_buckets|].
  exists (i :: fl), (used1 ++ used2). unfold number_of_buckets. cbn. rewrite Hcap.
  split_and!; [done| |by apply Forall2_app].
  unfold number_of_buckets in Hp. rewrite <- Hp. solve_Permutation.
Qed.

(** C35. The pool allocator as a whole, when the size of its buckets is a multiple of their
    alignment. With the chunks [cs] handed out, [allocate] succeeds exactly when the request
    fits a bucket and not all buckets are handed out, and then adds an aligned chunk of the
    requested size that does not overlap any other; each error is returned in exactly the
    situation it is named after and changes nothing. [deallocate] of any address in the
    bucket of a chunk that is handed out succeeds and makes exactly this bucket available
    again; of an address in front of the first bucket or behind the memory it fails and
    changes nothing. Other addresses in the memory are not told apart by the code
    ([pool_one_past_end_accepted]); the caller must not pass them. *)
Theorem pool_allocator_correct s lo hi aba cs l :
  pool_rep s lo hi aba cs → aba + 1 < U32 → layout_wf l →
  (∃ r s', pool_allocate s l = Return (r, s') ∧ answer s l (Z.of_nat (length cs)) r ∧
     match r with
     | Ok c => pool_rep s' lo hi (aba + 1) (c :: cs) ∧ pairwise_disjoint (c :: cs) ∧
               lo ≤ c_start c ∧ c_start c + c_len c ≤ hi
     | Err _ => s' = s
     end) ∧
  (∀ cs1 c cs2 ptr, cs = cs1 ++ c :: cs2 → c_start c ≤ ptr < c_start c + bucket_size s →
     ∃ s', pool_deallocate s ptr l = Return (Ok tt, s') ∧
       pool_rep s' lo hi (aba + 1) (cs1 ++ cs2)) ∧
  (∀ ptr, ptr < start s ∨ start s + size s < ptr →
     pool_deallocate s ptr l = Return (Err DeallocProvidedPointerNotContainedInAllocator, s)).
Proof.
  intros Hrep Haba Hl. split_and!.
  - destruct (pool_allocate_returns s lo hi aba cs l Hrep Haba) as (r & s' & Hal).
    exists r, s'. split; [done|].
    destruct (pool_allocate_inv _ _ _ _ _ _ _ _ Hrep Hl Hal) as [Hans Hr]. split; [done|].
    destruct r as [c|e]; [|done]. destruct Hr as (aba' & Ha' & Hr').
    destruct Hrep as [_ (fl & used & [_ _ _ ? _ _] & _)].
    rewrite u32add_ok in Ha' by lia. injection Ha' as <-. split; [done|].
    split; [by eapply pool_owns_disjoint|]. by apply pool_region, Forall_cons in Hr' as [? _].
  - intros cs1 c cs2 ptr -> Hptr. by eapply pool_deallocate_rep.
  - intros ptr Hptr. destruct Hrep as [Hwf (fl & used & [_ Hcap _ _ _ _] & _)]. unfold pool_deallocate, verify_init.
    rewrite (wf_init _ _ _ Hwf). cbn [obind]. by rewrite (get_index_outside s lo hi ptr Hwf ltac:(unfold number_of_buckets; lia) Hptr).
Qed.

(** [grow] and [shrink] of a chunk that is handed out: the chunk keeps its place,
    and the new length stays inside of the bucket. *)
Lemma pool_resize s lo hi aba cs1 c cs2 len :
  pool_rep s lo hi aba (cs1 ++ c :: cs2) → 0 ≤ len ≤ bucket_size s →
  pool_rep s lo hi aba (cs1 ++ mkChunk (c_start c) len :: cs2).
Proof.
  intros Hrep Hlen. pose proof Hrep as [Hwf _].
  destruct (pool_rep_split _ _ _ _ _ _ _ Hrep)
    as (fl & used1 & i & used2 & Hset & Hp & HF1 & Hic & HF2 & _).
  constructor; [done|]. exists fl, (used1 ++ i :: used2). split_and!; [done|done|].
  apply Forall2_app; [done|]. constructor; [|done]. destruct Hic as [Hic _]. by split.
Qed.

(** Resizing a chunk that is handed out never moves it, never lets it leave its
    bucket and never touches another chunk; [grow] refuses exactly what does not
    fit the bucket (or does not grow), [shrink] exactly what does not shrink or
    is aligned too strictly. *)
Theorem pool_grow_shrink_correct s lo hi aba cs1 c cs2 old_layout new_layout :
  pool_rep s lo hi aba (cs1 ++ c :: cs2) → layout_wf new_layout →
  l_size old_layout = c_len c →
  (∃ r, grow s (c_start c) old_layout new_layout = Return r ∧
     match r with
     | Ok d => c_start d = c_start c ∧ c_len d = l_size new_layout ∧ c_len c < c_len d ∧
               l_align new_layout ≤ bucket_alignment s ∧
               pool_rep s lo hi aba (cs1 ++ d :: cs2)
     | Err GrowWouldShrink => l_size new_layout ≤ l_size old_layout
     | Err GrowAlignmentFailure => bucket_alignment s < l_align new_layout
     | Err GrowOutOfMemory => bucket_size s < l_size new_layout
     | Err _ => False
     end) ∧
  (∃ r, shrink s (c_start c) old_layout new_layout = Return r ∧
     match r with
     | Ok d => c_start d = c_start c ∧ c_len d = l_size new_layout ∧ c_len d < c_len c ∧
               l_align new_layout ≤ bucket_alignment s ∧
               pool_rep s lo hi aba (cs1 ++ d :: cs2)
     | Err ShrinkWouldGrow => l_size old_layout ≤ l_size new_layout
     | Err ShrinkAlignmentFailure => bucket_alignment s < l_align new_layout
     | Err _ => False
     end).
Proof.
  intros Hrep [Hn _] Hold. pose proof Hrep as [Hwf _].
  destruct (pool_rep_split _ _ _ _ _ _ _ Hrep)
    as (fl & used1 & i & used2 & _ & _ & _ & [Hc Hlen] & _ & _ & _ & Hget).
  unfold grow, shrink, verify_init. rewrite (wf_init _ _ _ Hwf). cbn [obind].
  rewrite Hget by (pose proof (wf_bucket _ _ _ Hwf); lia). cbn [obind]. split.
  - destruct (Z.leb_spec (l_size new_layout) (l_size old_layout)); [by eexists|].
    destruct (Z.ltb_spec (bucket_alignment s) (l_align new_layout)); [by eexists|].
    destruct (Z.ltb_spec (bucket_size s) (l_size new_layout)); [by eexists|].
    eexists. split; [done|]. cbn. split_and!; try done; try lia. by apply pool_resize.
  - destruct (Z.leb_spec (l_size old_layout) (l_size new_layout)); [by eexists|].
    destruct (Z.ltb_spec (bucket_alignment s) (l_align new_layout)); [by eexists|].
    eexists. split; [done|]. cbn. split_and!; try done; try lia. apply pool_resize; [done|lia].
Qed.

(** ** Construction *)

Lemma align_multiple v a : 0 < a → v mod a = 0 → Math.align v a = Return v.
Proof.
  intros Ha Hv. unfold Math.align. rewrite urem_ok by lia. cbn [obind]. by rewrite Hv.
Qed.

(** The number of buckets fits the memory. *)
Lemma calc_number_of_buckets_ok bl ptr sz adj :
  0 ≤ ptr → 0 ≤ sz → ptr + sz < USIZE → 0 < l_size bl → 0 < l_align bl →
  l_size bl mod l_align bl = 0 → Math.align ptr (l_align bl) = Return adj →
  ptr ≤ adj ≤ ptr + sz →
  ∃ n, calc_number_of_buckets bl ptr sz = Return n ∧
    0 ≤ n ∧ adj + n * l_size bl ≤ ptr + sz ∧ n ≤ sz / l_size bl ∧
    ptr + sz < adj + n * l_size bl + l_size bl.
Proof.
  intros Hp Hs Hw Hl Ha Hmod Hadj Hr. unfold calc_number_of_buckets. rewrite Hadj. cbn [obind].
  rewrite align_multiple by done. cbn [obind]. rewrite uadd_ok by lia. cbn [obind].
  rewrite usub_ok by lia. cbn [obind]. rewrite udiv_ok by lia. eexists. split; [done|].
  pose proof (Z.mul_div_le (ptr + sz - adj) (l_size bl) Hl).
  pose proof (Z.div_le_mono (ptr + sz - adj) sz (l_size bl)).
  pose proof (Z.mul_succ_div_gt (ptr + sz - adj) (l_size bl) Hl).
  split_and!; [apply Z.div_pos; lia|lia|lia|lia].
Qed.

Lemma pool_setup_ok bl ptr sz ms mem :
  0 ≤ ptr → layout_wf bl → 0 < l_size bl → l_size bl mod l_align bl = 0 →
  l_align bl ≤ sz → ptr + 2 * sz < USIZE → sz / l_size bl + 1 < U32 →
  memory_size bl sz = Return ms → 0 ≤ mem → mem + 2 * ms + 4 < USIZE →
  ∃ s0 s' a', new_uninit bl ptr sz = Return s0 ∧
    init s0 (BumpAllocator.new mem ms) = Return (Ok tt, s', a') ∧
    pool_rep s' ptr (ptr + sz) 0 [] ∧
    bucket_size s' = l_size bl ∧ bucket_alignment s' = l_align bl ∧
    ptr ≤ start s' < ptr + l_align bl ∧
    ptr + sz < start s' + (number_of_buckets s' + 1) * l_size bl.
Proof.
  intros Hp Hbl Hl Hmod Hsz Hw Hn Hms Hm Hmw.
  pose proof (layout_align_pos bl Hbl) as Ha.
  destruct (Math.align_ok ptr (l_align bl)) as (adj & Hadj & Hr & Hadjm); [lia..|].
  destruct (calc_number_of_buckets_ok bl ptr sz adj) as (n & Hcalc & Hn0 & Hn1 & Hn2 & Hn3);
    try done; try lia.
  unfold memory_size in Hms. rewrite udiv_ok in Hms by lia. cbn [obind] in Hms.
  assert (ms = 4 * (sz / l_size bl + 1) + 3) as ->.
  { unfold const_memory_size in Hms. rewrite uadd_ok in Hms by (unfold U32, USIZE in *; lia).
    cbn [obind] in Hms. rewrite umul_ok in Hms by (unfold U32, USIZE in *; lia).
    cbn [obind] in Hms. rewrite uadd_ok in Hms by (unfold U32, USIZE in *; lia).
    cbn [obind] in Hms. rewrite usub_ok in Hms by (unfold U32, USIZE in *; lia).
    injection Hms as <-. lia. }
  unfold new_uninit. rewrite Hadj, Hcalc. cbn [obind].
  destruct (bump_allocate_succeeds
    (BumpAllocator.new mem (4 * (sz / l_size bl + 1) + 3)) mem
    (mem + (4 * (sz / l_size bl + 1) + 3)) [] (mkLayout (4 * (n + 1)) 4))
    as (c & a' & Hal & Hc & _); cbn; try lia.
  { by constructor; cbn; try lia. }
  { split; [cbn; lia|]. by exists 2. }
  destruct (init_rep n (BumpAllocator.new mem (4 * (sz / l_size bl + 1) + 3)) a' c)
    as (b & Hb & Hset & Hcap); [lia|lia|done|rewrite Hc; cbn; lia|].
  do 3 eexists. split; [done|].
  unfold init. cbn [is_memory_initialized buckets]. rewrite Hb. cbn [obind]. split; [done|]. unfold number_of_buckets. cbn.
  rewrite Hcap. split_and!; [|done|done|lia|lia|lia]. constructor.
  - constructor; unfold number_of_buckets; cbn; rewrite ?Hcap; try done; try lia.
    by destruct Hbl.
  - exists (indices n), []. unfold number_of_buckets. cbn. rewrite Hcap, app_nil_r.
    split_and!; [done|done|constructor].
Qed.
(** The memory [memory_size] asks for is always enough: a pool over any memory
    whose bucket layout has a size that is a multiple of its alignment can be
    initialised with a bump allocator over that many bytes, and starts with all
    buckets available and no chunk handed out. *)
Theorem pool_memory_size_sufficient bl ptr sz ms mem :
  0 ≤ ptr → layout_wf bl → 0 < l_size bl → l_size bl mod l_align bl = 0 →
  l_align bl ≤ sz → ptr + 2 * sz < USIZE → sz / l_size bl + 1 < U32 →
  memory_size bl sz = Return ms → 0 ≤ mem → mem + 2 * ms + 4 < USIZE →
  ∃ s0 s' a', new_uninit bl ptr sz = Return s0 ∧
    init s0 (BumpAllocator.new mem ms) = Return (Ok tt, s', a') ∧
    pool_rep s' ptr (ptr + sz) 0 [] ∧
    sz - l_align bl < number_of_buckets s' * l_size bl + l_size bl.
Proof.
  intros Hp Hbl Hl Hmod Hsz Hw Hn Hms Hm Hmw.
  destruct (pool_setup_ok bl ptr sz ms mem) as (s0 & s' & a' & H0 & H1 & H2 & _ & _ & H3 & H4); try done.
  exists s0, s', a'. split_and!; try done. nia.
Qed.
(** ** Used buckets

    The pool in terms of the indices of its used buckets, for clients that
    compute indices themselves. *)
Definition pool_used s lo hi aba (used : list Z) : Prop :=
  pool_wf s lo hi ∧
  ∃ fl, set_rep (buckets s) aba fl ∧ fl ++ used ≡ₚ indices (number_of_buckets s).

Lemma pool_used_empty s lo hi aba : pool_rep s lo hi aba [] → pool_used s lo hi aba [].
Proof.
  intros [Hwf (fl & used & Hset & Hp & HF)]. apply Forall2_nil_inv_r in HF as ->. split; eauto.
Qed.

Lemma pool_used_perm s lo hi aba u1 u2 :
  u1 ≡ₚ u2 → pool_used s lo hi aba u1 → pool_used s lo hi aba u2.
Proof. intros Hu [Hwf (fl & Hset & Hp)]. split; [done|]. exists fl. by rewrite <- Hu. Qed.

Lemma pool_used_facts s lo hi aba used :
  pool_used s lo hi aba used →
  NoDup used ∧ Forall (λ i, 0 ≤ i < number_of_buckets s) used.
Proof.
  intros [_ (fl & _ & Hp)]. apply pool_indices_facts in Hp as (_ & Hnd & _ & Hr & _).
  by apply Forall_app in Hr as [_ Hr].
Qed.

(** With a free bucket left, a request that fits is answered with one. *)
Lemma pool_used_allocate s lo hi aba used l :
  pool_used s lo hi aba used → aba + 1 < U32 →
  l_size l ≤ bucket_size s → l_align l ≤ bucket_alignment s →
  Z.of_nat (length used) < number_of_buckets s →
  ∃ i b, pool_allocate s l = Return (Ok (mkChunk (start s + i * bucket_size s) (l_size l)), set_buckets s b) ∧
    0 ≤ i < number_of_buckets s ∧ i ∉ used ∧ capacity b = number_of_buckets s ∧
    pool_used (set_buckets s b) lo hi (aba + 1) (i :: used).
Proof.
  intros [Hwf (fl & Hset & Hp)] Haba Hl Ha Hlen.
  pose proof (pool_indices_facts _ _ _ Hp) as (Hnd & _ & Hdis & Hr & Hfl).
  unfold pool_allocate, verify_init. rewrite (wf_init _ _ _ Hwf). cbn [obind].
  rewrite (proj2 (Z.ltb_ge _ _)), (proj2 (Z.ltb_ge _ _)) by lia.
  pose proof (acquire_rep _ _ _ Hset Hnd Haba) as Hacq. destruct fl as [|x fl]; [cbn in Hfl; lia|].
  destruct Hacq as (b & -> & Hset' & Hcap). cbn [obind].
  pose proof (proj1 (proj1 (Forall_cons _ _ _) Hr)) as Hx.
  pose proof (bucket_in_range s lo hi x Hwf Hx). pose proof Hwf as [? ? ? ? ? ? _ _ _].
  cbn [bucket_size set_buckets start]. rewrite umul_ok by nia. cbn [obind].
  rewrite uadd_ok by lia. cbn [obind]. exists x, b. split_and!; try done; try lia.
  - apply Hdis. set_solver.
  - split; [by apply pool_wf_set_buckets|]. exists fl. split; [done|].
    unfold number_of_buckets in *. cbn. rewrite Hcap, <- Hp. cbn. solve_Permutation.
Qed.

(** Any address inside of a used bucket gives it back. *)
Lemma pool_used_deallocate s lo hi aba i used ptr l :
  pool_used s lo hi aba (i :: used) → aba + 1 < U32 →
  start s + i * bucket_size s ≤ ptr < start s + (i + 1) * bucket_size s →
  ∃ b, pool_deallocate s ptr l = Return (Ok tt, set_buckets s b) ∧ capacity b = number_of_buckets s ∧
    pool_used (set_buckets s b) lo hi (aba + 1) used.
Proof.
  intros [Hwf (fl & Hset & Hp)] Haba Hptr.
  pose proof (pool_indices_facts _ _ _ Hp) as (_ & _ & Hdis & Hr & _).
  assert (0 ≤ i < number_of_buckets s) as Hi.
  { rewrite Forall_forall in Hr. apply Hr. set_solver. }
  unfold pool_deallocate, verify_init. rewrite (wf_init _ _ _ Hwf). cbn [obind].
  rewrite (get_index_inside s lo hi i ptr); try done; [|unfold number_of_buckets; destruct Hset; lia].
  cbn [obind].
  destruct (release_rep (buckets s) aba fl i) as (b & -> & Hset' & Hcap); try done.
  { intros Hin. apply (Hdis i Hin). set_solver. }
  cbn [obind]. exists b. split; [done|]. split; [by rewrite Hcap|]. split; [by apply pool_wf_set_buckets|].
  exists (i :: fl). split; [done|]. unfold number_of_buckets in *. cbn. rewrite Hcap, <- Hp.
  solve_Permutation.
Qed.
End Theorems.

(** ** Behaviour outside of the contract *)

(** The stride between buckets is the unaligned bucket size: for a bucket
    layout whose size is no multiple of its alignment, here 5 bytes aligned to 4,
    the allocator answers the second of two identical requests with a chunk that
    violates the requested alignment. *)
Theorem pool_buckets_misaligned (P : Profile) :
  ∃ s0 s1 s2 c1 c2,
    fixed_size_new 8 (mkLayout 5 4) 4096 64 = Return s0 ∧
    pool_allocate s0 (mkLayout 5 4) = Return (Ok c1, s1) ∧
    pool_allocate s1 (mkLayout 5 4) = Return (Ok c2, s2) ∧
    c_start c1 mod 4 = 0 ∧ c_start c2 mod 4 = 1.
Proof. do 5 eexists. split_and!; reflexivity. Qed.

(** [get_index] accepts the pointer one past the end. Deallocating it, although
    it was never handed out, reports success and puts an index that is no bucket
    in front of the free list: the allocator claims to be out of memory while all
    of its buckets are available. *)
Theorem pool_one_past_end_accepted (P : Profile) :
  ∃ s0 s1,
    fixed_size_new 2 (mkLayout 8 8) 4096 16 = Return s0 ∧
    pool_rep s0 4096 (4096 + 16) 0 [] ∧
    pool_deallocate s0 (4096 + 16) (mkLayout 8 8) = Return (Ok tt, s1) ∧
    pool_allocate s1 (mkLayout 8 8) = Return (Err OutOfMemory, s1).
Proof.
  do 2 eexists. split; [reflexivity|]. split_and!; [|reflexivity..]. constructor.
  - constructor; cbn; try done; try (unfold USIZE; lia). by exists 3.
  - exists (indices 2), []. split_and!; [|by rewrite app_nil_r|constructor].
    apply (fixed_size_rep 2); unfold U32; lia.
Qed.

(** ** Witnesses *)

Section Witnesses.
#[local] Instance pool_checked : Profile := true.

(** A pool of four 16-byte buckets with one chunk handed out. *)
Definition pool_sample : PoolAllocator :=
  mkPoolAllocator
    (mkUniqueIndexSet 0 [5; 2; 3; 4; 5] 4 (pack_from_head_and_aba 1 1) true) 16 8 4096 64 true.

Lemma pool_sample_rep : pool_rep pool_sample 4096 4160 1 ([] ++ mkChunk 4096 10 :: []).
Proof.
  constructor.
  - constructor; cbn; try done; try (unfold USIZE; lia). by exists 3.
  - exists [1; 2; 3], [0]. split_and!.
    + constructor; cbn; try (unfold U32; lia); try done.
    + exact (Permutation_app_comm [1; 2; 3] [0]).
    + repeat constructor; cbn; lia.
Qed.

Lemma pool_allocator_correct_witness :
  (∃ r s', pool_allocate pool_sample (mkLayout 12 4) = Return (r, s') ∧
     answer pool_sample (mkLayout 12 4) 1 r ∧
     match r with
     | Ok c => pool_rep s' 4096 4160 2 (c :: [mkChunk 4096 10]) ∧
               pairwise_disjoint (c :: [mkChunk 4096 10]) ∧
               4096 ≤ c_start c ∧ c_start c + c_len c ≤ 4160
     | Err _ => s' = pool_sample
     end).
Proof.
  apply (pool_allocator_correct pool_sample 4096 4160 1 [mkChunk 4096 10] (mkLayout 12 4)).
  - exact pool_sample_rep.
  - reflexivity.
  - split; [done|]. by exists 2.
Defined.

Lemma pool_grow_shrink_correct_witness :
  ∃ r, grow pool_sample 4096 (mkLayout 10 2) (mkLayout 14 2) = Return r ∧
    r = Ok (mkChunk 4096 14).
Proof.
  destruct (pool_grow_shrink_correct pool_sample 4096 4160 1 [] (mkChunk 4096 10) []
    (mkLayout 10 2) (mkLayout 14 2)) as [(r & Hr & _) _].
  - exact pool_sample_rep.
  - split; [done|]. by exists 1.
  - reflexivity.
  - exists r. split; [exact Hr|]. injection Hr as <-. reflexivity.
Defined.

Lemma pool_memory_size_sufficient_witness :
  ∃ s0 s' a', new_uninit (mkLayout 16 8) 4097 100 = Return s0 ∧
    init s0 (BumpAllocator.new 512 31) = Return (Ok tt, s', a') ∧
    pool_rep s' 4097 (4097 + 100) 0 [] ∧ 100 - 8 < number_of_buckets s' * 16 + 16.
Proof.
  apply (pool_memory_size_sufficient (mkLayout 16 8) 4097 100 31 512); try done.
  split; [done|]. by exists 3.
Defined.
End Witnesses.
