(* ===== verification/OneChunkAllocator.v ===== *)
(** * elkodon_bb/memory/src/one_chunk_allocator.rs

    The allocator that hands out one chunk at a time: the whole memory behind
    the aligned start. Operations, their behaviour on every branch, and the
    boundary cases in which [allocate] deviates from what it means to do: an
    exact fit is refused, and padding larger than the memory underflows (for
    which reason there is no instance of the allocator contract here). *)

From S2P Require Import Prelude Elementary.

(** [allocated_chunk_start] is 0 while no chunk is handed out. *)
Record OneChunkAllocator := mkOneChunkAllocator {
  start : Z;
  size : Z;
  allocated_chunk_start : Z
}.

Definition set_allocated (s : OneChunkAllocator) (v : Z) : OneChunkAllocator :=
  mkOneChunkAllocator (start s) (size s) v.

Section Operations.
Context `{P : Profile}.

Definition new (ptr size : Z) : OneChunkAllocator := mkOneChunkAllocator ptr size 0.

Definition has_chunk_available (s : OneChunkAllocator) : bool := allocated_chunk_start s =? 0.
Definition is_allocated_chunk (s : OneChunkAllocator) (ptr : Z) : bool :=
  ptr =? allocated_chunk_start s.
Definition release_chunk (s : OneChunkAllocator) : OneChunkAllocator := set_allocated s 0.

Definition one_chunk_allocate (s : OneChunkAllocator) (layout : Layout)
    : outcome (result Chunk AllocationError * OneChunkAllocator) :=
  let! adjusted_start := Math.align (start s) (l_align layout) in
  if negb (has_chunk_available s) then Return (Err OutOfMemory, s)
  else
    let! padding := usub adjusted_start (start s) in
    let! available_size := usub (size s) padding in
    if available_size <=? l_size layout then Return (Err OutOfMemory, s)
    else Return (Ok (mkChunk adjusted_start available_size), set_allocated s adjusted_start).

Definition one_chunk_deallocate (s : OneChunkAllocator) (ptr : Z) (layout : Layout)
    : outcome (result unit DeallocationError * OneChunkAllocator) :=
  if is_allocated_chunk s ptr then Return (Ok tt, release_chunk s)
  else Return (Err DeallocProvidedPointerNotContainedInAllocator, s).

Definition grow (s : OneChunkAllocator) (ptr : Z) (old_layout new_layout : Layout)
    : outcome (result Chunk AllocationGrowError) :=
  if negb (is_allocated_chunk s ptr) then Return (Err GrowProvidedPointerNotContainedInAllocator)
  else if l_size new_layout <=? l_size old_layout then Return (Err GrowWouldShrink)
  else if l_align old_layout <? l_align new_layout then Return (Err GrowAlignmentFailure)
  else
    let! d := usub (allocated_chunk_start s) (start s) in
    let! available_size := usub (size s) d in
    if available_size <? l_size new_layout then Return (Err GrowOutOfMemory)
    else Return (Ok (mkChunk ptr available_size)).

Definition shrink (s : OneChunkAllocator) (ptr : Z) (old_layout new_layout : Layout)
    : outcome (result Chunk AllocationShrinkError) :=
  if negb (is_allocated_chunk s ptr) then Return (Err ShrinkProvidedPointerNotContainedInAllocator)
  else if l_size old_layout <=? l_size new_layout then Return (Err ShrinkWouldGrow)
  else if l_align old_layout <? l_align new_layout then Return (Err ShrinkAlignmentFailure)
  else Return (Ok (mkChunk ptr (l_size new_layout))).

#[export] Instance one_chunk_BaseAllocator : BaseAllocator OneChunkAllocator := {
  allocate := one_chunk_allocate;
  deallocate := one_chunk_deallocate
}.

(** The chunks handed out: none, or one at the stored position. *)
Record one_chunk_owns (s : OneChunkAllocator) (lo hi : Z) (cs : list Chunk) : Prop := {
  oc_lo : lo = start s;
  oc_hi : hi = start s + size s;
  oc_start : 0 < start s;
  oc_size : 0 ≤ size s;
  oc_chunks :
    match cs with
    | [] => allocated_chunk_start s = 0
    | [c] => allocated_chunk_start s = c_start c ∧ start s ≤ c_start c ∧
             0 ≤ c_len c ∧ c_start c + c_len c ≤ start s + size s
    | _ => False
    end
}.
End Operations.

Section Theorems.
Context `{P : Profile}.
Implicit Types (s : OneChunkAllocator) (l : Layout) (cs : list Chunk).

(** The one-chunk allocator. While its chunk is handed out, every further
    request is refused. Otherwise a request whose padding fits the memory is
    answered with the whole rest of the memory behind the aligned start exactly
    when that rest is larger than the request; the chunk is aligned and inside
    of the memory, and deallocating it restores the allocator. *)
Theorem one_chunk_correct s lo hi cs l :
  one_chunk_owns s lo hi cs → layout_wf l → l_align l ≤ size s → hi + l_align l < USIZE →
  ∃ adj, Math.align (start s) (l_align l) = Return adj ∧ lo ≤ adj < lo + l_align l ∧
  ∃ r s', one_chunk_allocate s l = Return (r, s') ∧
    match r with
    | Ok c => cs = [] ∧ l_size l < c_len c ∧ c_start c mod l_align l = 0 ∧
              c_start c = adj ∧ c_start c + c_len c = hi ∧
              one_chunk_owns s' lo hi [c] ∧
              one_chunk_deallocate s' (c_start c) l = Return (Ok tt, s)
    | Err OutOfMemory => s' = s ∧ (cs ≠ [] ∨ hi - adj ≤ l_size l)
    | Err _ => False
    end.
Proof.
  intros Hown Hl Hal Hw. pose proof (layout_align_pos l Hl) as Hap.
  pose proof Hown as [Hlo Hhi H0 H1 Hcs]. subst lo hi.
  destruct (Math.align_ok (start s) (l_align l)) as (adj & Hadj & Hr & Hm); [lia..|].
  exists adj. split; [done|]. split; [done|].
  unfold one_chunk_allocate, has_chunk_available. rewrite Hadj. cbn [obind].
  destruct (Z.eqb_spec (allocated_chunk_start s) 0) as [E|E]; cbn [negb].
  - assert (cs = []) as ->.
    { destruct cs as [|c [|]]; [done| |done]. lia. }
    rewrite usub_ok by lia. cbn [obind]. rewrite usub_ok by lia. cbn [obind].
    destruct (Z.leb_spec (size s - (adj - start s)) (l_size l)); do 2 eexists; (split; [done|]); cbn.
    + split; [done|]. right. lia.
    + split_and!; try done; try lia.
      * constructor; cbn; try done. lia.
      * unfold one_chunk_deallocate, is_allocated_chunk. cbn. rewrite Z.eqb_refl.
        unfold release_chunk, set_allocated. destruct s. cbn in *. by subst.
  - do 2 eexists. split; [done|]. cbn. split; [done|]. left. by intros ->.
Qed.

(** Resizing the chunk that is handed out: it keeps its place and stays inside
    of the memory, and every error is returned in exactly the situation it is
    named after; any other pointer is refused by all operations. *)
Theorem one_chunk_resize_correct s lo hi c ptr old_layout new_layout :
  one_chunk_owns s lo hi [c] → layout_wf new_layout → hi < USIZE →
  (∃ r, grow s ptr old_layout new_layout = Return r ∧
     match r with
     | Ok d => ptr = c_start c ∧ c_start d = ptr ∧ l_size new_layout ≤ c_len d ∧
               one_chunk_owns s lo hi [d]
     | Err GrowProvidedPointerNotContainedInAllocator => ptr ≠ c_start c
     | Err GrowWouldShrink => l_size new_layout ≤ l_size old_layout
     | Err GrowAlignmentFailure => l_align old_layout < l_align new_layout
     | Err GrowOutOfMemory => hi - ptr < l_size new_layout
     | Err _ => False
     end) ∧
  (l_size old_layout ≤ c_len c →
   ∃ r, shrink s ptr old_layout new_layout = Return r ∧
     match r with
     | Ok d => ptr = c_start c ∧ c_start d = ptr ∧ c_len d = l_size new_layout ∧
               one_chunk_owns s lo hi [d]
     | Err ShrinkProvidedPointerNotContainedInAllocator => ptr ≠ c_start c
     | Err ShrinkWouldGrow => l_size old_layout ≤ l_size new_layout
     | Err ShrinkAlignmentFailure => l_align old_layout < l_align new_layout
     | Err _ => False
     end) ∧
  (ptr ≠ c_start c →
   one_chunk_deallocate s ptr old_layout =
     Return (Err DeallocProvidedPointerNotContainedInAllocator, s)).
Proof.
  intros Hown [Hn _] Hw. pose proof Hown as [Hlo Hhi H0 H1 (Hc & Hcs & Hcl & Hce)]. subst lo hi.
  unfold grow, shrink, one_chunk_deallocate, is_allocated_chunk. rewrite Hc.
  destruct (Z.eqb_spec ptr (c_start c)) as [->|Hne]; cbn [negb];
    [|split_and!; [by eexists|by eexists|done]].
  split_and!; [|intros Hol|done].
  - destruct (Z.leb_spec (l_size new_layout) (l_size old_layout)); [by eexists|].
    destruct (Z.ltb_spec (l_align old_layout) (l_align new_layout)); [by eexists|].
    rewrite usub_ok by lia. cbn [obind]. rewrite usub_ok by lia. cbn [obind].
    destruct (Z.ltb_spec (size s - (c_start c - start s)) (l_size new_layout)); eexists;
      (split; [done|]); cbn; [lia|].
    split_and!; try done. constructor; cbn; try done. lia.
  - destruct (Z.leb_spec (l_size old_layout) (l_size new_layout)); [by eexists|].
    destruct (Z.ltb_spec (l_align old_layout) (l_align new_layout)); [by eexists|].
    eexists. split; [done|]. cbn. split_and!; try done. constructor; cbn; try done. lia.
Qed.

(** An exact fit is refused: a request for all of the (aligned) memory is
    answered with [OutOfMemory], although the request for one byte less returns
    a chunk of exactly that length. *)
Theorem one_chunk_exact_fit_refused ptr size align :
  0 < ptr → 0 < size → 0 < align → ptr mod align = 0 → ptr + size < USIZE →
  one_chunk_allocate (new ptr size) (mkLayout size align) = Return (Err OutOfMemory, new ptr size) ∧
  one_chunk_allocate (new ptr size) (mkLayout (size - 1) align) =
    Return (Ok (mkChunk ptr size), set_allocated (new ptr size) ptr).
Proof.
  intros Hp Hs Ha Hm Hw. unfold one_chunk_allocate, Math.align. cbn [l_align l_size start new].
  rewrite urem_ok by lia. cbn [obind]. rewrite Hm. cbn [Z.eqb obind].
  change (OneChunkAllocator.size (new ptr size)) with size.
  change (has_chunk_available (new ptr size)) with true. cbn [negb].
  rewrite usub_ok by lia. cbn [obind]. rewrite Z.sub_diag, usub_ok by lia. cbn [obind].
  rewrite Z.sub_0_r, Z.leb_refl, (proj2 (Z.leb_gt _ _)) by lia. done.
Qed.
End Theorems.

(** Padding larger than the memory is not detected: [allocate] panics in a build
    with overflow checks, and without them it succeeds and hands out a chunk that
    starts behind the end of the memory. *)
Theorem one_chunk_padding_underflow :
  one_chunk_allocate (P := true) (new 4097 3) (mkLayout 1 8) = Panic ∧
  ∃ c s', one_chunk_allocate (P := false) (new 4097 3) (mkLayout 1 8) = Return (Ok c, s') ∧
    4097 + 3 < c_start c ∧ 4097 + 3 < c_len c.
Proof. split; [reflexivity|]. do 2 eexists. split; [reflexivity|]. split; reflexivity. Qed.

(** ** Witnesses *)

Section Witnesses.
#[local] Instance one_chunk_checked : Profile := true.

Lemma one_chunk_correct_witness :
  ∃ adj, Math.align 4097 8 = Return adj ∧ 4097 ≤ adj < 4105 ∧
  ∃ r s', one_chunk_allocate (new 4097 64) (mkLayout 16 8) = Return (r, s') ∧
    r = Ok (mkChunk 4104 57).
Proof.
  destruct (one_chunk_correct (new 4097 64) 4097 4161 [] (mkLayout 16 8))
    as (adj & H1 & H2 & r & s' & H3 & _).
  - by constructor.
  - split; [done|]. by exists 3.
  - done.
  - reflexivity.
  - exists adj. split; [exact H1|]. split; [exact H2|]. exists r, s'. split; [exact H3|].
    injection H3 as <- <-. reflexivity.
Defined.

Lemma one_chunk_resize_correct_witness :
  ∃ r, grow (mkOneChunkAllocator 4097 64 4104) 4104 (mkLayout 16 8) (mkLayout 57 8) = Return r ∧
    r = Ok (mkChunk 4104 57).
Proof.
  destruct (one_chunk_resize_correct (mkOneChunkAllocator 4097 64 4104) 4097 4161
    (mkChunk 4104 57) 4104 (mkLayout 16 8) (mkLayout 57 8)) as [(r & Hr & _) _].
  - by constructor.
  - split; [done|]. by exists 3.
  - reflexivity.
  - exists r. split; [exact Hr|]. injection Hr as <-. reflexivity.
Defined.

Lemma one_chunk_exact_fit_refused_witness :
  one_chunk_allocate (new 4096 64) (mkLayout 64 8) = Return (Err OutOfMemory, new 4096 64).
Proof. apply (one_chunk_exact_fit_refused 4096 64 8); done. Defined.
End Witnesses.
