(* ===== verification/ShmAllocator.v ===== *)
(** * elkodon_cal/src/shm_allocator

    Allocators of shared memory: they wrap the pool and the bump allocator of
    elkodon_bb_memory and hand out offsets from the start of the segment instead
    of pointers, so that every process can translate them with its own mapping.

    The trait is the class [ShmAllocator]; what its clients (shared memory,
    publishers) rely on is the class [ShmContract], with one instance per
    implementation. *)

From S2P Require Import Prelude Elementary UniqueIndexSet BumpAllocator PoolAllocator.

(** ** The interface *)

Inductive ShmAllocationError :=
| ExceedsMaxSupportedAlignment
| AllocationError_ (e : AllocationError).

Inductive ShmAllocatorInitError :=
| MaxSupportedMemoryAlignmentInsufficient
| AllocationFailed.

(** [PointerOffset] *)
Definition PointerOffset := Z.

(** The trait [ShmAllocator] with its associated configuration; [new_uninit]
    gets the maximum alignment of the memory, and the memory as a chunk. *)
Class ShmAllocator (A Config : Type) := {
  shm_management_size : Z → Config → outcome Z;
  shm_new_uninit : Z → Chunk → Config → outcome A;
  shm_init {S} `{BaseAllocator S} :
    A → S → outcome (result unit ShmAllocatorInitError * A * S);
  shm_unique_id : Z;
  shm_max_alignment : A → Z;
  shm_allocate : A → Layout → outcome (result PointerOffset ShmAllocationError * A);
  shm_deallocate : A → PointerOffset → Layout → outcome (result unit DeallocationError * A)
}.

(** Offsets handed out from a segment of [len] bytes mapped at [base]: each with
    the length of its request, disjoint and inside of the segment. *)
Class ShmContract (A Config : Type) `{ShmAllocator A Config} := {
  shm_owns : A → Z → Z → list Chunk → Prop;
  shm_owns_in_segment a base len offs :
    shm_owns a base len offs → Forall (λ c, 0 ≤ c_start c ∧ c_start c + c_len c ≤ len) offs;
  shm_owns_disjoint a base len offs : shm_owns a base len offs → pairwise_disjoint offs;
  shm_owns_allocate a base len offs l r a' :
    shm_owns a base len offs → layout_wf l → base + len + l_size l + l_align l < USIZE →
    shm_allocate a l = Return (r, a') →
    match r with
    | Ok off => (base + off) mod l_align l = 0 ∧ l_align l ≤ shm_max_alignment a ∧
                shm_owns a' base len (mkChunk off (l_size l) :: offs)
    | Err _ => a' = a
    end
}.

Section Operations.
Context `{P : Profile}.

(** ** The pool allocator in shared memory *)

Record ShmPoolConfig := mkShmPoolConfig { bucket_layout : Layout }.
Definition shm_pool_default_config : ShmPoolConfig := mkShmPoolConfig (mkLayout 1024 8).

Record ShmPoolAllocator := mkShmPoolAllocator {
  pool_allocator : PoolAllocator;
  pool_base_address : Z;
  pool_max_supported_alignment_by_memory : Z
}.

Definition shm_pool_management_size (memory_size : Z) (c : ShmPoolConfig) : outcome Z :=
  PoolAllocator.memory_size (bucket_layout c) memory_size.

Definition shm_pool_new_uninit (max_supported : Z) (base_address : Chunk) (c : ShmPoolConfig)
    : outcome ShmPoolAllocator :=
  let! p := PoolAllocator.new_uninit (bucket_layout c) (c_start base_address) (c_len base_address) in
  Return (mkShmPoolAllocator p (c_start base_address) max_supported).

Definition shm_pool_max_alignment (a : ShmPoolAllocator) : Z :=
  PoolAllocator.max_alignment (pool_allocator a).

Definition shm_pool_set (a : ShmPoolAllocator) (p : PoolAllocator) : ShmPoolAllocator :=
  mkShmPoolAllocator p (pool_base_address a) (pool_max_supported_alignment_by_memory a).

Definition shm_pool_init {S} `{BaseAllocator S} (a : ShmPoolAllocator) (allocator : S)
    : outcome (result unit ShmAllocatorInitError * ShmPoolAllocator * S) :=
  if pool_max_supported_alignment_by_memory a <? shm_pool_max_alignment a then
    Return (Err MaxSupportedMemoryAlignmentInsufficient, a, allocator)
  else
    let! '(r, p, allocator) := PoolAllocator.init (pool_allocator a) allocator in
    match r with
    | Err _ => Return (Err AllocationFailed, shm_pool_set a p, allocator)
    | Ok _ => Return (Ok tt, shm_pool_set a p, allocator)
    end.

Definition shm_pool_allocate (a : ShmPoolAllocator) (layout : Layout)
    : outcome (result PointerOffset ShmAllocationError * ShmPoolAllocator) :=
  if shm_pool_max_alignment a <? l_align layout then Return (Err ExceedsMaxSupportedAlignment, a)
  else
    let! '(r, p) := pool_allocate (pool_allocator a) layout in
    let a := shm_pool_set a p in
    match r with
    | Err e => Return (Err (AllocationError_ e), a)
    | Ok chunk => let! o := usub (c_start chunk) (pool_base_address a) in Return (Ok o, a)
    end.

Definition shm_pool_deallocate (a : ShmPoolAllocator) (offset : PointerOffset) (layout : Layout)
    : outcome (result unit DeallocationError * ShmPoolAllocator) :=
  let! ptr := uadd offset (pool_base_address a) in
  let! '(r, p) := pool_deallocate (pool_allocator a) ptr layout in
  Return (r, shm_pool_set a p).

#[export] Instance shm_pool : ShmAllocator ShmPoolAllocator ShmPoolConfig := {
  shm_management_size := shm_pool_management_size;
  shm_new_uninit := shm_pool_new_uninit;
  shm_init S _ := shm_pool_init;
  shm_unique_id := 0;
  shm_max_alignment := shm_pool_max_alignment;
  shm_allocate := shm_pool_allocate;
  shm_deallocate := shm_pool_deallocate
}.

(** ** The bump allocator in shared memory *)

Record ShmBumpConfig := mkShmBumpConfig {}.

Record ShmBumpAllocator := mkShmBumpAllocator {
  bump_allocator : BumpAllocator;
  bump_base_address : Z;
  bump_max_supported_alignment_by_memory : Z
}.

Definition shm_bump_management_size (memory_size : Z) (c : ShmBumpConfig) : outcome Z := Return 0.

Definition shm_bump_new_uninit (max_supported : Z) (base_address : Chunk) (c : ShmBumpConfig)
    : outcome ShmBumpAllocator :=
  Return (mkShmBumpAllocator (BumpAllocator.new (c_start base_address) (c_len base_address))
            (c_start base_address) max_supported).

Definition shm_bump_max_alignment (a : ShmBumpAllocator) : Z := 8.

Definition shm_bump_init {S} `{BaseAllocator S} (a : ShmBumpAllocator) (allocator : S)
    : outcome (result unit ShmAllocatorInitError * ShmBumpAllocator * S) :=
  if bump_max_supported_alignment_by_memory a <? shm_bump_max_alignment a then
    Return (Err MaxSupportedMemoryAlignmentInsufficient, a, allocator)
  else Return (Ok tt, a, allocator).

Definition shm_bump_set (a : ShmBumpAllocator) (b : BumpAllocator) : ShmBumpAllocator :=
  mkShmBumpAllocator b (bump_base_address a) (bump_max_supported_alignment_by_memory a).

Definition shm_bump_allocate (a : ShmBumpAllocator) (layout : Layout)
    : outcome (result PointerOffset ShmAllocationError * ShmBumpAllocator) :=
  if shm_bump_max_alignment a <? l_align layout then Return (Err ExceedsMaxSupportedAlignment, a)
  else
    let! '(r, b) := bump_allocate (bump_allocator a) layout in
    let a := shm_bump_set a b in
    match r with
    | Err e => Return (Err (AllocationError_ e), a)
    | Ok chunk => let! o := usub (c_start chunk) (bump_base_address a) in Return (Ok o, a)
    end.

Definition shm_bump_deallocate (a : ShmBumpAllocator) (offset : PointerOffset) (layout : Layout)
    : outcome (result unit DeallocationError * ShmBumpAllocator) :=
  let! ptr := uadd offset (bump_base_address a) in
  let! '(r, b) := bump_deallocate (bump_allocator a) ptr layout in
  Return (r, shm_bump_set a b).

#[export] Instance shm_bump : ShmAllocator ShmBumpAllocator ShmBumpConfig := {
  shm_management_size := shm_bump_management_size;
  shm_new_uninit := shm_bump_new_uninit;
  shm_init S _ := shm_bump_init;
  shm_unique_id := 1;
  shm_max_alignment := shm_bump_max_alignment;
  shm_allocate := shm_bump_allocate;
  shm_deallocate := shm_bump_deallocate
}.

(** ** Offsets and pointers *)

Definition translate (base : Z) (c : Chunk) : Chunk := mkChunk (base + c_start c) (c_len c).

Definition shm_pool_rep (a : ShmPoolAllocator) (base len aba : Z) (offs : list Chunk) : Prop :=
  pool_base_address a = base ∧
  pool_rep (pool_allocator a) base (base + len) aba (translate base <$> offs).

Definition shm_bump_owns (a : ShmBumpAllocator) (base len : Z) (offs : list Chunk) : Prop :=
  bump_base_address a = base ∧
  bump_owns (bump_allocator a) base (base + len) (translate base <$> offs).
End Operations.

Section Theorems.
Context `{P : Profile}.

Lemma pairwise_translate base offs :
  pairwise_disjoint (translate base <$> offs) → pairwise_disjoint offs.
Proof.
  induction offs as [|c offs IH]; [done|]. cbn. intros [HF Hd]. split; [|by apply IH].
  rewrite Forall_fmap in HF. eapply Forall_impl; [exact HF|].
  intros d [H|H]; [left|right]; cbn in H; lia.
Qed.

Lemma region_translate base len offs :
  Forall (λ c, base ≤ c_start c ∧ c_start c + c_len c ≤ base + len) (translate base <$> offs) →
  Forall (λ c, 0 ≤ c_start c ∧ c_start c + c_len c ≤ len) offs.
Proof.
  rewrite Forall_fmap. intros HF. eapply Forall_impl; [exact HF|]. intros c Hc. cbn in Hc. lia.
Qed.

Lemma translate_chunk base c len :
  c_len c = len → translate base (mkChunk (c_start c - base) len) = c.
Proof. intros <-. destruct c. unfold translate. cbn. f_equal. lia. Qed.

#[export] Instance shm_pool_contract : ShmContract ShmPoolAllocator ShmPoolConfig.
Proof.
  refine {| shm_owns a base len offs := ∃ aba, shm_pool_rep a base len aba offs |}.
  - intros a base len offs (aba & _ & Hrep). by eapply region_translate, pool_region.
  - intros a base len offs (aba & _ & Hrep). by eapply pairwise_translate, pool_owns_disjoint.
  - intros a base len offs l r a' (aba & Hb & Hrep) Hl Hw Hal.
    cbn in *. unfold shm_pool_allocate in Hal.
    destruct (Z.ltb_spec (shm_pool_max_alignment a) (l_align l)); [by injection Hal as <- <-|].
    destruct (pool_allocate (pool_allocator a) l) as [[r0 p]| |] eqn:Ep; try done.
    destruct (pool_allocate_inv _ _ _ _ _ _ _ _ Hrep Hl Ep) as [Hans Hr].
    cbn [obind] in Hal. destruct r0 as [c|e].
    + destruct Hr as (aba' & _ & Hr'). cbn in Hans. destruct Hans as (_ & _ & _ & Hlen & Hm).
      pose proof (pool_region _ _ _ _ _ Hr') as [Hreg _]%Forall_cons.
      cbn [pool_base_address shm_pool_set] in Hal. rewrite Hb in Hal.
      destruct Hrep as [[_ Hlo _ _ _ _ _ _ _] _]. pose proof Hl as [? _].
      pose proof (layout_align_pos l Hl).
      rewrite usub_ok in Hal by lia. cbn [obind] in Hal. injection Hal as <- <-.
      split_and!; [|done|].
      * by replace (base + (c_start c - base)) with (c_start c) by lia.
      * exists aba'. split; [done|]. cbn. by rewrite translate_chunk.
    + subst p. injection Hal as <- <-. by destruct a.
Defined.

#[export] Instance shm_bump_contract : ShmContract ShmBumpAllocator ShmBumpConfig.
Proof.
  refine {| shm_owns := shm_bump_owns |}.
  - intros a base len offs [_ Hown]. by eapply region_translate, (owns_in_region (bump_allocator a)).
  - intros a base len offs [_ Hown]. eapply pairwise_translate. by destruct Hown.
  - intros a base len offs l r a' [Hb Hown] Hl Hw Hal. cbn in *. unfold shm_bump_allocate in Hal.
    destruct (Z.ltb_spec (shm_bump_max_alignment a) (l_align l)); [by injection Hal as <- <-|].
    destruct (bump_allocate (bump_allocator a) l) as [[r0 b]| |] eqn:Ep; try done.
    pose proof (bump_allocate_spec _ _ _ _ _ _ _ Hown Hl Hw Ep) as Hr. cbn [obind] in Hal.
    destruct r0 as [c|e].
    + destruct Hr as (Hlen & Hm & Hr'). pose proof Hl as [? _]. pose proof (layout_align_pos l Hl).
      pose proof (owns_in_region b base (base + len) _ Hr') as [Hreg _]%Forall_cons.
      cbn [bump_base_address shm_bump_set] in Hal. rewrite Hb in Hal.
      destruct Hown as [Hlo _ Hnn _ _ _]. rewrite usub_ok in Hal by lia. cbn [obind] in Hal.
      injection Hal as <- <-. split_and!; [|done|].
      * by replace (base + (c_start c - base)) with (c_start c) by lia.
      * split; [done|]. cbn. by rewrite translate_chunk.
    + subst b. injection Hal as <- <-. by destruct a.
Defined.

(** Offsets of the shared memory pool allocator: an allocation that succeeds
    adds an offset whose chunk is aligned, inside of the segment and disjoint
    from all others, in whatever address range the segment is mapped; an offset
    that is handed out can be given back by any process, which makes its bucket
    available again; the errors leave the allocator unchanged. *)
Theorem shm_pool_offsets_correct (a : ShmPoolAllocator) base len aba offs l :
  shm_pool_rep a base len aba offs → aba + 1 < U32 → layout_wf l → base + len + l_align l < USIZE →
  (∃ r a', shm_pool_allocate a l = Return (r, a') ∧
     match r with
     | Ok off => 0 ≤ off ∧ off + l_size l ≤ len ∧ (base + off) mod l_align l = 0 ∧
                 pairwise_disjoint (mkChunk off (l_size l) :: offs) ∧
                 shm_pool_rep a' base len (aba + 1) (mkChunk off (l_size l) :: offs)
     | Err ExceedsMaxSupportedAlignment => a' = a ∧ bucket_alignment (pool_allocator a) < l_align l
     | Err (AllocationError_ e) =>
         a' = a ∧ answer (pool_allocator a) l (Z.of_nat (length offs)) (Err e)
     end) ∧
  (∀ o1 c o2, offs = o1 ++ c :: o2 →
     ∃ a', shm_pool_deallocate a (c_start c) l = Return (Ok tt, a') ∧
       shm_pool_rep a' base len (aba + 1) (o1 ++ o2)).
Proof.
  intros [Hb Hrep] Haba Hl Hw. pose proof Hrep as [[_ Hlo _ _ Hwd _ _ _ _] (fl & u & [_ _ _ ? _ _] & _)].
  pose proof (layout_align_pos l Hl). pose proof Hl as [? _]. split.
  - unfold shm_pool_allocate.
    destruct (Z.ltb_spec (shm_pool_max_alignment a) (l_align l)); [by do 2 eexists|].
    destruct (pool_allocate_returns _ _ _ _ _ l Hrep Haba) as (r & p & Ep). rewrite Ep.
    destruct (pool_allocate_inv _ _ _ _ _ _ _ _ Hrep Hl Ep) as [Hans Hr]. cbn [obind].
    rewrite length_fmap in Hans. destruct r as [c|e].
    + destruct Hr as (aba' & Ha' & Hr'). rewrite u32add_ok in Ha' by lia. injection Ha' as <-.
      cbn in Hans. destruct Hans as (_ & _ & _ & Hlen & Hm).
      pose proof (pool_region _ _ _ _ _ Hr') as [Hreg _]%Forall_cons.
      cbn [pool_base_address shm_pool_set]. rewrite Hb, usub_ok by lia. cbn [obind].
      assert (translate base <$> (mkChunk (c_start c - base) (l_size l) :: offs) =
              c :: (translate base <$> offs)) as Htr by (cbn; by rewrite translate_chunk).
      do 2 eexists. split; [done|]. cbn zeta. split_and!; try lia.
      * by replace (base + (c_start c - base)) with (c_start c) by lia.
      * apply (pairwise_translate base). rewrite Htr. by eapply pool_owns_disjoint.
      * split; [done|]. by rewrite Htr.
    + subst p. do 2 eexists. split; [done|]. split; [by destruct a|done].
  - intros o1 c o2 ->. rewrite fmap_app, fmap_cons in Hrep.
    pose proof (pool_region _ _ _ _ _ Hrep) as HF.
    apply Forall_app in HF as [_ [HF _]%Forall_cons]. cbn in HF.
    pose proof (pool_rep_split _ _ _ _ _ _ _ Hrep) as (_ & _ & _ & _ & _ & _ & _ & [_ ?] & _).
    unfold shm_pool_deallocate. rewrite Hb, uadd_ok by (cbn in *; lia). cbn [obind].
    destruct (pool_deallocate_rep _ _ _ _ _ _ _ (c_start c + base) l Hrep Haba) as (p & Hd & Hrep');
      [pose proof (wf_bucket _ _ _ (pool_geometry _ _ _ _ _ Hrep)); cbn; lia|].
    rewrite Hd. cbn [obind].
    eexists. split; [done|]. split; [done|]. by rewrite fmap_app.
Qed.
End Theorems.

Section Witnesses.
#[local] Instance shm_checked : Profile := true.

Definition shm_pool_sample : ShmPoolAllocator := mkShmPoolAllocator pool_sample 4096 4096.

Lemma shm_pool_offsets_correct_witness :
  ∃ r a', shm_pool_allocate shm_pool_sample (mkLayout 12 4) = Return (r, a') ∧ r = Ok 16.
Proof.
  destruct (shm_pool_offsets_correct shm_pool_sample 4096 64 1 [mkChunk 0 10] (mkLayout 12 4))
    as [(r & a' & Hr & _) _].
  - split; [done|]. exact pool_sample_rep.
  - reflexivity.
  - split; [done|]. by exists 2.
  - reflexivity.
  - exists r, a'. split; [exact Hr|]. injection Hr as <- <-. reflexivity.
Defined.
End Witnesses.
