(* ===== verification/ReferenceCounter.v ===== *)
(** * elkodon_cal/src/shared_memory_directory: reference_counter.rs, decision_counter.rs

    The atomic word of a file entry: a 61-bit reference count with the three
    flags persistent, initialised and to-be-removed in its upper bits; and the
    word that decides between two processes that create the same file.

    Every operation is a compare-exchange loop over one cell: [cas_loop]. *)

From S2P Require Import Prelude.

(** ** Compare-exchange loops *)

(** What the body of the loop makes of the current value: return without a
    write, or try to write a new value and return on success. *)
Inductive attempt (R : Type) :=
| Leave (r : R)
| Store (new : Z) (r : R).
Arguments Leave {R} _.
Arguments Store {R} _ _.

Fixpoint cas_loop {R} (fuel : nat) (body : Z → outcome (attempt R)) (cell current : Z)
    : outcome (R * Z) :=
  match fuel with
  | O => Undefined
  | S fuel =>
      let! a := body current in
      match a with
      | Leave r => Return (r, cell)
      | Store new r =>
          let '(cell, x) := compare_exchange cell current new in
          match x with
          | Ok _ => Return (r, cell)
          | Err v => cas_loop fuel body cell v
          end
      end
  end.

(** A load of the cell followed by the loop. *)
Definition fetch_update {R} (body : Z → outcome (attempt R)) (cell : Z) : outcome (R * Z) :=
  cas_loop 2 body cell cell.

(** ** reference_counter.rs *)

Record ReferenceCounterDetails := mkDetails {
  reference_counter : Z;
  is_initialized_ : bool;
  is_persistent_ : bool;
  to_be_removed_ : bool
}.

Definition shl (v s : Z) : Z := wrap USIZE (Z.shiftl v s).

(** [ReferenceCounterDetails::new] *)
Definition details (value : Z) : ReferenceCounterDetails := {|
  reference_counter := Z.shiftr (shl value 3) 3;
  to_be_removed_ := Z.shiftr (shl value 2) 63 =? 1;
  is_initialized_ := Z.shiftr (shl value 1) 63 =? 1;
  is_persistent_ := Z.shiftr value 63 =? 1
|}.

Definition compact_value (d : ReferenceCounterDetails) : Z :=
  let to_be_removed := if to_be_removed_ d then 1 else 0 in
  let is_persistent := if is_persistent_ d then 1 else 0 in
  let is_initialized := if is_initialized_ d then 1 else 0 in
  let reference_counter := Z.shiftr (shl (reference_counter d) 3) 3 in
  Z.lor (Z.lor (Z.lor (shl is_persistent 63) (shl is_initialized 62)) (shl to_be_removed 61))
    reference_counter.

Definition set_reference_counter (d : ReferenceCounterDetails) (c : Z) : ReferenceCounterDetails :=
  mkDetails c (is_initialized_ d) (is_persistent_ d) (to_be_removed_ d).

#[global] Arguments details : simpl never.
#[global] Arguments compact_value : simpl never.

Section Operations.
Context `{P : Profile}.

(** The operations on a cell with the word [v]: what they return, and the word
    they leave behind. *)
Definition increment_ref_counter (v : Z) : outcome (Z * Z) :=
  fetch_update (λ current,
    let d := details current in
    let! c := uadd (reference_counter d) 1 in
    Return (Store (compact_value (set_reference_counter d c)) current)) v.

Definition exists_ (d : ReferenceCounterDetails) : bool :=
  negb (to_be_removed_ d) && ((0 <? reference_counter d) || is_persistent_ d).

Definition increment_ref_counter_when_initialized (v : Z) : outcome (bool * Z) :=
  fetch_update (λ current,
    let d := details current in
    if negb (negb (to_be_removed_ d) && is_initialized_ d
             && ((0 <? reference_counter d) || is_persistent_ d))
    then Return (Leave false)
    else
      let! c := uadd (reference_counter d) 1 in
      Return (Store (compact_value (set_reference_counter d c)) true)) v.

Definition increment_ref_counter_when_exist (v : Z) : outcome (bool * Z) :=
  fetch_update (λ current,
    let d := details current in
    if negb (exists_ d) then Return (Leave false)
    else
      let! c := uadd (reference_counter d) 1 in
      Return (Store (compact_value (set_reference_counter d c)) true)) v.

Definition decrement_ref_counter (v : Z) : outcome (bool * Z) :=
  fetch_update (λ current,
    let d := details current in
    let! c := usub (reference_counter d) 1 in
    let can_be_removed := (c =? 0) && negb (is_persistent_ d) in
    Return (Store (compact_value (set_reference_counter d c)) can_be_removed)) v.

Definition set_initialized_bit (v : Z) (is_set : bool) : outcome (unit * Z) :=
  fetch_update (λ current,
    let d := details current in
    if Bool.eqb (is_initialized_ d) is_set then Return (Leave tt)
    else Return (Store (compact_value
      (mkDetails (reference_counter d) is_set (is_persistent_ d) (to_be_removed_ d))) tt)) v.

Definition set_persistency_bit (v : Z) (is_set : bool) : outcome (unit * Z) :=
  fetch_update (λ current,
    let d := details current in
    if Bool.eqb (is_persistent_ d) is_set then Return (Leave tt)
    else Return (Store (compact_value
      (mkDetails (reference_counter d) (is_initialized_ d) is_set (to_be_removed_ d))) tt)) v.

Definition to_be_removed (v : Z) : outcome (unit * Z) :=
  fetch_update (λ current,
    let d := details current in
    if to_be_removed_ d then Return (Leave tt)
    else Return (Store (compact_value
      (mkDetails (reference_counter d) (is_initialized_ d) (is_persistent_ d) true)) tt)) v.

Definition is_initialized (v : Z) : bool := is_initialized_ (details v).
Definition is_persistent (v : Z) : bool := is_persistent_ (details v).
Definition reset (v : Z) : Z := 0.

(** ** decision_counter.rs *)

Definition UNDECIDED : Z := USIZE - 1.
Definition LOST : Z := USIZE - 1.

Definition set_to_undecided (v : Z) : Z := UNDECIDED.

Definition decision_set (v value : Z) : bool * Z :=
  let '(cell, r) := compare_exchange v UNDECIDED value in
  (match r with Ok _ => true | Err _ => false end, cell).

(** [does_value_win], after the load gave [my_value] and while the cell holds
    [v]. *)
Definition does_value_win_from (my_value v competing_value : Z) : bool * Z :=
  if my_value =? UNDECIDED then
    let '(cell, r) := compare_exchange v UNDECIDED LOST in
    (match r with Err v => competing_value <? v | Ok _ => true end, cell)
  else (competing_value <? my_value, v).

Definition does_value_win (v competing_value : Z) : bool * Z :=
  does_value_win_from v v competing_value.
End Operations.

(** ** Lemmas *)

(** The loop that runs alone finishes in its first round. *)
Lemma fetch_update_eq {R} (body : Z → outcome (attempt R)) cell :
  fetch_update body cell =
  let! a := body cell in
  match a with Leave r => Return (r, cell) | Store new r => Return (r, new) end.
Proof.
  unfold fetch_update. cbn [cas_loop]. destruct (body cell) as [[r|new r]| |]; cbn [obind]; try done.
  unfold compare_exchange. by rewrite Z.eqb_refl.
Qed.

(** A word is the sum of its fields. *)
Definition word_of (c : Z) (i p t : bool) : Z :=
  Z.b2z p * 2 ^ 63 + Z.b2z i * 2 ^ 62 + Z.b2z t * 2 ^ 61 + c.

Lemma lor_add k a b : 0 ≤ k → 0 ≤ b < 2 ^ k → Z.lor (a * 2 ^ k) b = a * 2 ^ k + b.
Proof.
  intros Hk Hb. pose proof (Z.add_lor_land (a * 2 ^ k) b).
  assert (Z.land (a * 2 ^ k) b = 0); [|lia].
  apply Z.bits_inj'. intros n Hn. rewrite Z.land_spec, Z.bits_0.
  rewrite <- Z.shiftl_mul_pow2 by lia.
  destruct (decide (n < k)).
  - by rewrite Z.shiftl_spec_low.
  - rewrite <- (Z.mod_small b (2 ^ k)) by done.
    rewrite Z.mod_pow2_bits_high by lia. apply Bool.andb_false_r.
Qed.

Lemma compact_value_eq d :
  0 ≤ reference_counter d < 2 ^ 61 →
  compact_value d = word_of (reference_counter d) (is_initialized_ d) (is_persistent_ d)
                      (to_be_removed_ d).
Proof.
  intros Hc. destruct d as [c i p t]. unfold compact_value, word_of, shl, wrap. cbn in Hc |- *.
  assert (Z.shiftr (Z.shiftl c 3 mod USIZE) 3 = c) as ->.
  { rewrite Z.shiftl_mul_pow2, Z.mod_small, Z.shiftr_div_pow2, Z.div_mul by (unfold USIZE; lia).
    done. }
  destruct p, i, t;
    match goal with |- Z.lor ?a c = _ =>
      let k := eval vm_compute in (a / 2 ^ 61) in change a with (k * 2 ^ 61) end;
    rewrite lor_add by lia; cbn [Z.b2z]; lia.
Qed.

Lemma details_eq v :
  0 ≤ v < USIZE →
  ∃ c i p t, 0 ≤ c < 2 ^ 61 ∧ v = word_of c i p t ∧ details v = mkDetails c i p t.
Proof.
  intros Hv. unfold details, shl, wrap, word_of, USIZE in *.
  do 4 eexists. rewrite !Z.shiftl_mul_pow2, !Z.shiftr_div_pow2 by lia.
  split; [|split; [|reflexivity]].
  - Z.to_euclidean_division_equations; lia.
  - assert (∀ b, Z.b2z (b =? 1) = if b =? 1 then 1 else 0) as Hb by (intros b; by destruct (b =? 1)).
    rewrite !Hb. repeat match goal with |- context [if ?x =? 1 then _ else _] =>
      destruct (Z.eqb_spec x 1) end; Z.to_euclidean_division_equations; lia.
Qed.

Lemma details_word c i p t : 0 ≤ c < 2 ^ 61 → details (word_of c i p t) = mkDetails c i p t.
Proof.
  intros Hc. assert (0 ≤ word_of c i p t < USIZE) as Hw
    by (unfold word_of, USIZE; destruct i, p, t; cbn; lia).
  destruct (details_eq _ Hw) as (c' & i' & p' & t' & Hc' & Heq & ->).
  unfold word_of in Heq. destruct i, p, t, i', p', t'; cbn in Heq; try lia; f_equal; lia.
Qed.

(** The packing of a file's reference count and flags is lossless in both
    directions: unpacking a packed record of a count below 2^61 gives the record
    back, and packing the unpacked fields of any word gives the word back. *)
Theorem details_roundtrip d v :
  0 ≤ reference_counter d < 2 ^ 61 → 0 ≤ v < USIZE →
  details (compact_value d) = d ∧ compact_value (details v) = v.
Proof.
  intros Hd Hv. split.
  - rewrite compact_value_eq, details_word by done. by destruct d.
  - destruct (details_eq v Hv) as (c & i & p & t & Hc & -> & Hdet). rewrite Hdet.
    by rewrite compact_value_eq.
Qed.

Lemma details_roundtrip_witness :
  details (compact_value (mkDetails 1234 true false false)) = mkDetails 1234 true false false ∧
  compact_value (details 987654321) = 987654321.
Proof. apply (details_roundtrip (mkDetails 1234 true false false) 987654321); cbn; unfold USIZE; lia. Defined.

Section Behaviour.
Context `{P : Profile}.

(** The operations on the word of a count [c] with flags. *)
Lemma increment_word c i p t :
  0 ≤ c → c + 1 < 2 ^ 61 →
  increment_ref_counter (word_of c i p t) = Return (word_of c i p t, word_of (c + 1) i p t).
Proof.
  intros H0 H1. unfold increment_ref_counter. rewrite fetch_update_eq, details_word by lia.
  cbn. rewrite uadd_ok by (unfold USIZE; lia). cbn.
  by rewrite compact_value_eq by (cbn; lia).
Qed.

Lemma increment_when_initialized_word c i p t :
  0 ≤ c → c + 1 < 2 ^ 61 →
  increment_ref_counter_when_initialized (word_of c i p t) =
    if negb t && i && ((0 <? c) || p) then Return (true, word_of (c + 1) i p t)
    else Return (false, word_of c i p t).
Proof.
  intros H0 H1. unfold increment_ref_counter_when_initialized.
  rewrite fetch_update_eq, details_word by lia. cbn. rewrite uadd_ok by (unfold USIZE; lia).
  destruct (negb t && i && ((0 <? c) || p)); cbn; [|done].
  by rewrite compact_value_eq by (cbn; lia).
Qed.

Lemma increment_when_exist_word c i p t :
  0 ≤ c → c + 1 < 2 ^ 61 →
  increment_ref_counter_when_exist (word_of c i p t) =
    if negb t && ((0 <? c) || p) then Return (true, word_of (c + 1) i p t)
    else Return (false, word_of c i p t).
Proof.
  intros H0 H1. unfold increment_ref_counter_when_exist, exists_.
  rewrite fetch_update_eq, details_word by lia. cbn. rewrite uadd_ok by (unfold USIZE; lia).
  destruct (negb t && ((0 <? c) || p)); cbn; [|done].
  by rewrite compact_value_eq by (cbn; lia).
Qed.

Lemma decrement_word c i p t :
  0 < c < 2 ^ 61 →
  decrement_ref_counter (word_of c i p t) =
    Return ((c - 1 =? 0) && negb p, word_of (c - 1) i p t).
Proof.
  intros H0. unfold decrement_ref_counter. rewrite fetch_update_eq, details_word by lia.
  cbn. rewrite usub_ok by (unfold USIZE; lia). cbn.
  by rewrite compact_value_eq by (cbn; lia).
Qed.

Lemma set_initialized_word c i p t b :
  0 ≤ c < 2 ^ 61 → set_initialized_bit (word_of c i p t) b = Return (tt, word_of c b p t).
Proof.
  intros H0. unfold set_initialized_bit. rewrite fetch_update_eq, details_word by lia. cbn.
  destruct (Bool.eqb_spec i b) as [->|]; cbn; [done|]. by rewrite compact_value_eq.
Qed.

Lemma set_persistency_word c i p t b :
  0 ≤ c < 2 ^ 61 → set_persistency_bit (word_of c i p t) b = Return (tt, word_of c i b t).
Proof.
  intros H0. unfold set_persistency_bit. rewrite fetch_update_eq, details_word by lia. cbn.
  destruct (Bool.eqb_spec p b) as [->|]; cbn; [done|]. by rewrite compact_value_eq.
Qed.

Lemma to_be_removed_word c i p t :
  0 ≤ c < 2 ^ 61 → to_be_removed (word_of c i p t) = Return (tt, word_of c i p true).
Proof.
  intros H0. unfold to_be_removed. rewrite fetch_update_eq, details_word by lia. cbn.
  destruct t; cbn; [done|]. by rewrite compact_value_eq.
Qed.

(** The count saturates nowhere: at its maximum the increment silently starts
    over at zero while the flags stay. *)
Lemma increment_wraps i p t :
  increment_ref_counter (word_of (2 ^ 61 - 1) i p t) =
    Return (word_of (2 ^ 61 - 1) i p t, word_of 0 i p t).
Proof.
  unfold increment_ref_counter. rewrite fetch_update_eq, details_word by lia. cbn [reference_counter].
  rewrite uadd_ok by (unfold USIZE; lia). by destruct i, p, t.
Qed.
End Behaviour.
