(* ===== verification/FileReferenceSet.v ===== *)
(** * elkodon_cal/src/shared_memory_directory: file_reference_set.rs, file.rs

    The table of files of a shared memory directory: entries, reference
    counters, decision counters and the index set that hands out the slots.

    - sequential operations, composed as in the source;
    - the invariant of the table and what lookup, creation and release do to it;
    - creation, lookup and release interleaved at their atomic accesses, and
      three schedules or call sequences in which the table misbehaves. *)

From S2P Require Import Prelude Elementary UniqueIndexSet ReferenceCounter.

(** ** Data *)

(** File names are byte strings. *)
Definition FileName := list Z.

Record Entry := mkEntry { name : FileName; offset : Z; len : Z }.

Definition default_entry : Entry := mkEntry [101; 109; 112; 116; 121] 0 0.

Record FileReferenceSet := mkFileReferenceSet {
  entries : list Entry;
  counter : list Z;
  decision_counter : list Z;
  ids : UniqueIndexSet;
  global_decision_counter : Z
}.

Inductive CreateFileError := FileLimitExceeded | BeingCreated | DoesExist.

Definition MAX_NUMBER_OF_ENTRIES : Z := 512.

Definition set_entries (s : FileReferenceSet) e :=
  mkFileReferenceSet e (counter s) (decision_counter s) (ids s) (global_decision_counter s).
Definition set_counter (s : FileReferenceSet) c :=
  mkFileReferenceSet (entries s) c (decision_counter s) (ids s) (global_decision_counter s).
Definition set_decision (s : FileReferenceSet) d :=
  mkFileReferenceSet (entries s) (counter s) d (ids s) (global_decision_counter s).
Definition set_ids (s : FileReferenceSet) i :=
  mkFileReferenceSet (entries s) (counter s) (decision_counter s) i (global_decision_counter s).
Definition set_global (s : FileReferenceSet) g :=
  mkFileReferenceSet (entries s) (counter s) (decision_counter s) (ids s) g.

Section Operations.
Context `{P : Profile}.

(** [FileReferenceSet::default], for [n] slots (the source has
    [MAX_NUMBER_OF_ENTRIES]). *)
Definition default (n : Z) : FileReferenceSet :=
  mkFileReferenceSet (replicate (Z.to_nat n) default_entry) (replicate (Z.to_nat n) 0)
    (replicate (Z.to_nat n) UNDECIDED) (UniqueIndexSet.fixed_size_new n) 0.

(** ** Access to the parts of a slot *)

Definition on_counter {R} (op : Z → outcome (R * Z)) (s : FileReferenceSet) (id : Z)
    : outcome (R * FileReferenceSet) :=
  let! v := index_read (counter s) id in
  let! '(r, v) := op v in
  let! c := index_write (counter s) id v in
  Return (r, set_counter s c).

Definition on_decision {R} (op : Z → R * Z) (s : FileReferenceSet) (id : Z)
    : outcome (R * FileReferenceSet) :=
  let! v := index_read (decision_counter s) id in
  let '(r, v) := op v in
  let! d := index_write (decision_counter s) id v in
  Return (r, set_decision s d).

Definition get_name (s : FileReferenceSet) (id : Z) : outcome FileName :=
  let! e := index_read (entries s) id in Return (name e).

(** The slice of a file in a process that has the data segment at
    [base_address]. *)
Definition get_payload (s : FileReferenceSet) (id base_address : Z) : outcome Chunk :=
  let! e := index_read (entries s) id in
  let! a := uadd (offset e) base_address in
  Return (mkChunk a (len e)).

Definition file_is_persistent (s : FileReferenceSet) (id : Z) : outcome bool :=
  let! v := index_read (counter s) id in Return (is_persistent v).

(** ** Releasing *)

Definition remove_entry (s : FileReferenceSet) (id : Z) : outcome FileReferenceSet :=
  let! '(_, s) := on_counter (λ v, Return (tt, reset v)) s id in
  let! '(_, s) := on_decision (λ v, (tt, set_to_undecided v)) s id in
  let! i := release_raw_index (ids s) (wrap U32 id) in
  Return (set_ids s i).

Definition set_decrement_ref_counter (s : FileReferenceSet) (id : Z) : outcome FileReferenceSet :=
  let! '(can_be_removed, s) := on_counter decrement_ref_counter s id in
  if can_be_removed : bool then remove_entry s id else Return s.

(** [File::drop] and [FileReferenceSet::release] *)
Definition release (s : FileReferenceSet) (id : Z) : outcome FileReferenceSet :=
  set_decrement_ref_counter s id.

(** ** Lookup *)

(** The slots of a table in order. *)
Definition slots (s : FileReferenceSet) : list Z := indices (capacity (ids s)).

Fixpoint find_loop (todo : list Z) (s : FileReferenceSet) (n : FileName)
    : outcome (option Z * FileReferenceSet) :=
  match todo with
  | [] => Return (None, s)
  | id :: todo =>
      let! '(b, s) := on_counter increment_ref_counter_when_initialized s id in
      if b : bool then
        let! n' := get_name s id in
        if bool_decide (n' = n) then Return (Some id, s)
        else
          let! '(_, s) := on_counter decrement_ref_counter s id in
          find_loop todo s n
      else find_loop todo s n
  end.

Definition find_entry (s : FileReferenceSet) (n : FileName)
    : outcome (option Z * FileReferenceSet) :=
  find_loop (slots s) s n.

Definition does_exist (s : FileReferenceSet) (n : FileName) : outcome (bool * FileReferenceSet) :=
  let! '(r, s) := find_entry s n in
  match r with
  | Some id => let! s := set_decrement_ref_counter s id in Return (true, s)
  | None => Return (false, s)
  end.

(** [borrow]: the returned index stands for the [File] handle. *)
Definition borrow (s : FileReferenceSet) (n : FileName) : outcome (option Z * FileReferenceSet) :=
  find_entry s n.

Fixpoint list_loop (todo : list Z) (s : FileReferenceSet) (acc : list Z)
    : outcome (list Z * FileReferenceSet) :=
  match todo with
  | [] => Return (acc, s)
  | id :: todo =>
      let! '(b, s) := on_counter increment_ref_counter_when_initialized s id in
      list_loop todo s (if b : bool then acc ++ [id] else acc)
  end.

Definition list_ (s : FileReferenceSet) : outcome (list Z * FileReferenceSet) :=
  list_loop (slots s) s [].

Definition set_to_be_removed (s : FileReferenceSet) (n : FileName)
    : outcome (bool * FileReferenceSet) :=
  let! '(r, s) := find_entry s n in
  match r with
  | Some id =>
      let! '(_, s) := on_counter (λ v, set_persistency_bit v false) s id in
      let! '(_, s) := on_counter to_be_removed s id in
      let! s := set_decrement_ref_counter s id in
      Return (true, s)
  | None => Return (false, s)
  end.

(** ** Creation *)

Definition finalize_initialization (s : FileReferenceSet) (id : Z) : outcome FileReferenceSet :=
  let! '(_, s) := on_counter (λ v, set_initialized_bit v true) s id in Return s.

(** The loop of [insert] that looks for duplicates. *)
Fixpoint duplicate_loop (todo : list Z) (s : FileReferenceSet) (id : Z) (n : FileName) (cur : Z)
    : outcome (result Z CreateFileError * FileReferenceSet) :=
  match todo with
  | [] => Return (Ok id, s)
  | i :: todo =>
      if i =? id then duplicate_loop todo s id n cur
      else
        let! '(b, s) := on_counter increment_ref_counter_when_exist s i in
        if b : bool then
          let! n' := get_name s i in
          let! '(won, s) :=
            (if bool_decide (n' = n) then on_decision (λ v, does_value_win v cur) s i
             else Return (true, s)) in
          if won : bool then
            let! s := set_decrement_ref_counter s i in
            duplicate_loop todo s id n cur
          else
            let! v := index_read (counter s) i in
            Return (Err (if is_initialized v then DoesExist else BeingCreated), s)
        else duplicate_loop todo s id n cur
  end.

Definition insert (s : FileReferenceSet) (n : FileName) (off ln : Z) (persistent : bool)
    : outcome (result Z CreateFileError * FileReferenceSet) :=
  let! '(r, i) := acquire_raw_index (ids s) in
  let s := set_ids s i in
  match r with
  | None => Return (Err FileLimitExceeded, s)
  | Some id =>
      let! e := index_write (entries s) id (mkEntry n off ln) in
      let s := set_entries s e in
      let! '(_, s) := on_counter (λ v, set_persistency_bit v persistent) s id in
      let! '(_, s) := on_counter increment_ref_counter s id in
      let cur := global_decision_counter s in
      let s := set_global s (wrap USIZE (cur + 1)) in
      let! '(b, s) := on_decision (λ v, decision_set v cur) s id in
      if b : bool then duplicate_loop (indices (Z.of_nat (length (entries s)))) s id n cur
      else Return (Err DoesExist, s)
  end.

(** [FileCreator::create]: [initializer] works on the data segment [D]. *)
Definition create {D} (s : FileReferenceSet) (d : D) (n : FileName) (off ln : Z)
    (persistent : bool) (initializer : Z → Z → D → outcome D)
    : outcome (result Z CreateFileError * FileReferenceSet * D) :=
  let! '(r, s) := insert s n off ln persistent in
  match r with
  | Err e => Return (Err e, s, d)
  | Ok id =>
      let! d := initializer off ln d in
      let! s := finalize_initialization s id in
      Return (Ok id, s, d)
  end.

(** ** Interleaving

    The threads of all processes that share the table. Each step is one atomic
    access (the compare-exchange loops of the reference counter take effect with
    their successful exchange) or the access to an entry. *)
Inductive pc :=
| IAcquire (e : Entry) (persistent : bool)
| IWriteEntry (e : Entry) (persistent : bool) (id : Z)
| IPersist (n : FileName) (persistent : bool) (id : Z)
| IIncrement (n : FileName) (id : Z)
| IFetchAdd (n : FileName) (id : Z)
| IDecide (n : FileName) (id cur : Z)
| IScan (n : FileName) (id cur : Z) (todo : list Z)
| ICompare (n : FileName) (id cur i : Z) (todo : list Z)
| IReport (i : Z)
| IDecrement (n : FileName) (id cur i : Z) (todo : list Z)
| IRemove (n : FileName) (id cur i : Z) (todo : list Z)
| IDone (r : result Z CreateFileError)
| FScan (n : FileName) (todo : list Z)
| FCompare (n : FileName) (i : Z) (todo : list Z)
| FDecrement (n : FileName) (i : Z) (todo : list Z)
| FDone (r : option Z)
| RDecrement (id : Z)
| RRemove (id : Z)
| RDone
| Finalize (id : Z).

Definition thread_step (s : FileReferenceSet) (t : pc) : outcome (FileReferenceSet * pc) :=
  match t with
  | IAcquire en p =>
      let! '(r, i) := acquire_raw_index (ids s) in
      Return (set_ids s i,
        match r with None => IDone (Err FileLimitExceeded) | Some id => IWriteEntry en p id end)
  | IWriteEntry en p id =>
      let! e := index_write (entries s) id en in
      Return (set_entries s e, IPersist (name en) p id)
  | IPersist n p id =>
      let! '(_, s) := on_counter (λ v, set_persistency_bit v p) s id in
      Return (s, IIncrement n id)
  | IIncrement n id =>
      let! '(_, s) := on_counter increment_ref_counter s id in Return (s, IFetchAdd n id)
  | IFetchAdd n id =>
      let cur := global_decision_counter s in
      Return (set_global s (wrap USIZE (cur + 1)), IDecide n id cur)
  | IDecide n id cur =>
      let! '(b, s) := on_decision (λ v, decision_set v cur) s id in
      Return (s, if b : bool then IScan n id cur (indices (Z.of_nat (length (entries s))))
                 else IDone (Err DoesExist))
  | IScan n id cur [] => Return (s, IDone (Ok id))
  | IScan n id cur (i :: todo) =>
      if i =? id then Return (s, IScan n id cur todo)
      else
        let! '(b, s) := on_counter increment_ref_counter_when_exist s i in
        Return (s, if b : bool then ICompare n id cur i todo else IScan n id cur todo)
  | ICompare n id cur i todo =>
      let! n' := get_name s i in
      if bool_decide (n' = n) then
        let! '(won, s) := on_decision (λ v, does_value_win v cur) s i in
        Return (s, if won : bool then IDecrement n id cur i todo else IReport i)
      else Return (s, IDecrement n id cur i todo)
  | IReport i =>
      let! v := index_read (counter s) i in
      Return (s, IDone (Err (if is_initialized v then DoesExist else BeingCreated)))
  | IDecrement n id cur i todo =>
      let! '(b, s) := on_counter decrement_ref_counter s i in
      Return (s, if b : bool then IRemove n id cur i todo else IScan n id cur todo)
  | IRemove n id cur i todo =>
      let! s := remove_entry s i in Return (s, IScan n id cur todo)
  | FScan n [] => Return (s, FDone None)
  | FScan n (i :: todo) =>
      let! '(b, s) := on_counter increment_ref_counter_when_initialized s i in
      Return (s, if b : bool then FCompare n i todo else FScan n todo)
  | FCompare n i todo =>
      let! n' := get_name s i in
      Return (s, if bool_decide (n' = n) then FDone (Some i) else FDecrement n i todo)
  | FDecrement n i todo =>
      let! '(_, s) := on_counter decrement_ref_counter s i in Return (s, FScan n todo)
  | RDecrement id =>
      let! '(b, s) := on_counter decrement_ref_counter s id in
      Return (s, if b : bool then RRemove id else RDone)
  | RRemove id => let! s := remove_entry s id in Return (s, RDone)
  | Finalize id => let! s := finalize_initialization s id in Return (s, RDone)
  | IDone _ | FDone _ | RDone => Return (s, t)
  end.

Definition finished (t : pc) : bool :=
  match t with IDone _ | FDone _ | RDone => true | _ => false end.

(** A thread that runs alone until it is finished. *)
Fixpoint thread_run (fuel : nat) (s : FileReferenceSet) (t : pc) : outcome (FileReferenceSet * pc) :=
  if finished t then Return (s, t)
  else
    match fuel with
    | O => Undefined
    | S fuel => let! '(s, t) := thread_step s t in thread_run fuel s t
    end.

Record sys := mkSys { set : FileReferenceSet; threads : list pc }.

(** One step of thread [k]. *)
Definition sys_step (k : nat) (y : sys) : outcome sys :=
  match threads y !! k with
  | None => Panic
  | Some t =>
      let! '(s, t) := thread_step (set y) t in
      Return (mkSys s (<[k := t]> (threads y)))
  end.

Fixpoint run_schedule (ks : list nat) (y : sys) : outcome sys :=
  match ks with
  | [] => Return y
  | k :: ks => let! y := sys_step k y in run_schedule ks y
  end.
End Operations.

(** ** Invariant *)

(** Slot [i] with count [c] and flags: free slots are zero and undecided, used
    ones have a reference or are persistent. *)
Record slot_inv (s : FileReferenceSet) (m : Z) (fl : list Z) (i : Z) : Prop := {
  slot_word : ∃ c ini per rem,
    counter s !! Z.to_nat i = Some (word_of c ini per rem) ∧ 0 ≤ c ≤ m ∧
    (i ∈ fl → word_of c ini per rem = 0 ∧ decision_counter s !! Z.to_nat i = Some UNDECIDED) ∧
    (i ∉ fl → 0 < c ∨ per = true)
}.

(** A table of [n] slots whose free slots are [fl] and whose counts are at most
    [m]. *)
Record table_inv (s : FileReferenceSet) (n m aba : Z) (fl : list Z) : Prop := {
  tab_entries : length (entries s) = Z.to_nat n;
  tab_counter : length (counter s) = Z.to_nat n;
  tab_decision : length (decision_counter s) = Z.to_nat n;
  tab_capacity : capacity (ids s) = n;
  tab_ids : set_rep (ids s) aba fl;
  tab_nodup : NoDup fl;
  tab_slots : ∀ i, 0 ≤ i < n → slot_inv s m fl i;
  tab_bound : 0 ≤ m ∧ m + 1 < 2 ^ 61
}.

(** Slot [i] holds the file [f], as seen by a lookup and by a creation that has
    to compete with it. *)
Definition holds (test : ReferenceCounterDetails → bool) (s : FileReferenceSet) (f : FileName)
    (i : Z) : bool :=
  match counter s !! Z.to_nat i, entries s !! Z.to_nat i with
  | Some v, Some e => test (details v) && bool_decide (name e = f)
  | _, _ => false
  end.

Definition openable (d : ReferenceCounterDetails) : bool :=
  negb (to_be_removed_ d) && is_initialized_ d && ((0 <? reference_counter d) || is_persistent_ d).

Definition visible : FileReferenceSet → FileName → Z → bool := holds openable.
Definition live : FileReferenceSet → FileName → Z → bool := holds exists_.

(** The table with the count of slot [i] changed by [d]. *)
Definition add_ref (s : FileReferenceSet) (i d : Z) : FileReferenceSet :=
  set_counter s (alter (λ v, v + d) (Z.to_nat i) (counter s)).

Section Theorems.
Context `{P : Profile}.
Implicit Types (s : FileReferenceSet) (f : FileName) (fl : list Z).

Lemma on_counter_ok {R} (op : Z → outcome (R * Z)) s id v r v' :
  0 ≤ id → counter s !! Z.to_nat id = Some v → op v = Return (r, v') →
  on_counter op s id = Return (r, set_counter s (<[Z.to_nat id := v']> (counter s))).
Proof.
  intros H0 Hv Hop. unfold on_counter. rewrite (index_read_ok _ _ v) by done. cbn [obind].
  rewrite Hop. cbn [obind]. apply lookup_lt_Some in Hv. by rewrite index_write_ok by lia.
Qed.

Lemma on_decision_ok {R} (op : Z → R * Z) s id v r v' :
  0 ≤ id → decision_counter s !! Z.to_nat id = Some v → op v = (r, v') →
  on_decision op s id = Return (r, set_decision s (<[Z.to_nat id := v']> (decision_counter s))).
Proof.
  intros H0 Hv Hop. unfold on_decision. rewrite (index_read_ok _ _ v) by done. cbn [obind].
  rewrite Hop. apply lookup_lt_Some in Hv. by rewrite index_write_ok by lia.
Qed.

Lemma word_inj c ini per rem c' ini' per' rem' :
  0 ≤ c < 2 ^ 61 → 0 ≤ c' < 2 ^ 61 → word_of c ini per rem = word_of c' ini' per' rem' →
  c = c' ∧ ini = ini' ∧ per = per' ∧ rem = rem'.
Proof.
  intros Hc Hc' Heq. pose proof (details_word c ini per rem Hc) as Hd.
  rewrite Heq, details_word in Hd by done. by injection Hd.
Qed.

Lemma word_add c ini per rem d : word_of c ini per rem + d = word_of (c + d) ini per rem.
Proof. unfold word_of. lia. Qed.

Lemma add_ref_eq s i v d :
  counter s !! Z.to_nat i = Some v →
  set_counter s (<[Z.to_nat i := v + d]> (counter s)) = add_ref s i d.
Proof.
  intros Hv. unfold add_ref. f_equal. apply list_eq. intros j.
  destruct (decide (j = Z.to_nat i)) as [->|].
  - rewrite list_lookup_insert_eq by (by eapply lookup_lt_Some). by rewrite list_lookup_alter_eq, Hv.
  - by rewrite list_lookup_insert_ne, list_lookup_alter_ne.
Qed.

Lemma add_ref_add s i d e : add_ref (add_ref s i d) i e = add_ref s i (d + e).
Proof.
  unfold add_ref, set_counter. cbn. f_equal. apply list_eq. intros j.
  destruct (decide (j = Z.to_nat i)) as [->|].
  - rewrite !list_lookup_alter_eq. destruct (counter s !! Z.to_nat i); cbn; [f_equal; lia|done].
  - by rewrite !list_lookup_alter_ne.
Qed.

Lemma add_ref_0 s i : add_ref s i 0 = s.
Proof.
  destruct s. unfold add_ref, set_counter. cbn. f_equal. apply list_eq. intros j.
  destruct (decide (j = Z.to_nat i)) as [->|].
  - rewrite list_lookup_alter_eq. destruct (_ !! _); cbn; [f_equal; lia|done].
  - by rewrite list_lookup_alter_ne.
Qed.

Lemma on_counter_add {R} (op : Z → outcome (R * Z)) s i c ini per rem r d :
  0 ≤ i → counter s !! Z.to_nat i = Some (word_of c ini per rem) →
  op (word_of c ini per rem) = Return (r, word_of (c + d) ini per rem) →
  on_counter op s i = Return (r, add_ref s i d) ∧
  counter (add_ref s i d) !! Z.to_nat i = Some (word_of (c + d) ini per rem).
Proof.
  intros H0 Hw Hop. rewrite (on_counter_ok _ _ _ _ _ _ H0 Hw Hop). rewrite <- !word_add. split.
  - by rewrite add_ref_eq.
  - unfold add_ref. cbn. by rewrite list_lookup_alter_eq, Hw.
Qed.

(** A slot of the table, taken apart. *)
Lemma slot_cases s n m aba fl i :
  table_inv s n m aba fl → 0 ≤ i < n →
  ∃ c ini per rem e, counter s !! Z.to_nat i = Some (word_of c ini per rem) ∧
    entries s !! Z.to_nat i = Some e ∧ 0 ≤ c ∧ c + 1 < 2 ^ 61.
Proof.
  intros Hinv Hi. destruct (tab_slots _ _ _ _ _ Hinv i Hi) as [(c & ini & per & rem & Hw & Hc & _)].
  destruct (lookup_lt_is_Some_2 (entries s) (Z.to_nat i)) as [e He].
  { rewrite (tab_entries _ _ _ _ _ Hinv). lia. }
  pose proof (tab_bound _ _ _ _ _ Hinv). exists c, ini, per, rem, e. split_and!; try done; lia.
Qed.

(** Taking a reference and giving it back restores the table, and never removes
    an entry that was referenced or persistent before. *)
Lemma decrement_after_increment s i c ini per rem :
  0 ≤ i → counter s !! Z.to_nat i = Some (word_of c ini per rem) → 0 ≤ c → c + 1 < 2 ^ 61 →
  on_counter decrement_ref_counter (add_ref s i 1) i = Return ((c =? 0) && negb per, s).
Proof.
  intros Hi Hw H0 H1.
  destruct (on_counter_add decrement_ref_counter (add_ref s i 1) i (c + 1) ini per rem
    ((c =? 0) && negb per) (-1)) as [-> _]; [done| | |].
  - unfold add_ref. cbn. by rewrite list_lookup_alter_eq, Hw, <- word_add.
  - rewrite decrement_word by lia. by replace (c + 1 - 1) with c by lia;
      replace (c + 1 + -1) with c by lia.
  - by rewrite add_ref_add, add_ref_0.
Qed.

(** A lookup finds the first visible slot and takes a reference on it; on all
    other slots it gives the reference back. *)
Lemma find_loop_spec s n m aba fl f todo :
  table_inv s n m aba fl → Forall (λ i, 0 ≤ i < n) todo →
  find_loop todo s f =
    match List.find (visible s f) todo with
    | Some i => Return (Some i, add_ref s i 1)
    | None => Return (None, s)
    end.
Proof.
  intros Hinv. induction todo as [|i todo IH]; intros HF; [done|].
  apply Forall_cons in HF as [Hi HF]. cbn [find_loop List.find].
  destruct (slot_cases s n m aba fl i Hinv Hi) as (c & ini & per & rem & e & Hw & He & H0 & H1).
  unfold visible at 1, holds. rewrite Hw, He, details_word by lia.
  pose proof (increment_when_initialized_word c ini per rem H0 H1) as Hinc. unfold openable.
  cbn [to_be_removed_ is_initialized_ is_persistent_ reference_counter].
  destruct (negb rem && ini && ((0 <? c) || per)).
  - destruct (on_counter_add _ s i c ini per rem true 1 ltac:(lia) Hw Hinc) as [-> _].
    cbn [obind]. unfold get_name. change (entries (add_ref s i 1)) with (entries s).
    rewrite (index_read_ok _ _ e) by (done || lia). cbn [obind andb].
    destruct (bool_decide (name e = f)); [done|].
    rewrite (decrement_after_increment s i c ini per rem) by (done || lia). cbn [obind].
    by apply IH.
  - rewrite (on_counter_ok _ _ _ _ _ _ (proj1 Hi) Hw Hinc). cbn [obind].
    rewrite list_insert_id by done. replace (set_counter s (counter s)) with s by (by destruct s).
    by apply IH.
Qed.

Lemma slots_range s n m aba fl :
  table_inv s n m aba fl → Forall (λ i, 0 ≤ i < n) (slots s) ∧ slots s = indices n.
Proof.
  intros Hinv. unfold slots. rewrite (tab_capacity _ _ _ _ _ Hinv). split; [|done].
  apply Forall_forall. intros i Hi. by apply indices_spec.
Qed.

Lemma visible_live s f i : visible s f i = true → live s f i = true.
Proof.
  unfold visible, live, holds, openable, exists_.
  destruct (counter s !! Z.to_nat i), (entries s !! Z.to_nat i); try done.
  destruct (to_be_removed_ _), (is_initialized_ _); done.
Qed.

(** A visible slot has a reference or is persistent. *)
Lemma holds_counter test s n m aba fl f i :
  table_inv s n m aba fl → 0 ≤ i < n → holds test s f i = true →
  (∀ d, test d = true → exists_ d = true) →
  ∃ c ini per, counter s !! Z.to_nat i = Some (word_of c ini per false) ∧
    0 ≤ c ∧ c + 1 < 2 ^ 61 ∧ (c =? 0) && negb per = false ∧ i ∉ fl.
Proof.
  intros Hinv Hi Hh Ht.
  destruct (tab_slots _ _ _ _ _ Hinv i Hi) as [(c & ini & per & rem & Hw & Hc & Hfree & _)].
  pose proof (tab_bound _ _ _ _ _ Hinv). unfold holds in Hh. rewrite Hw in Hh.
  destruct (entries s !! Z.to_nat i); [|done]. apply andb_prop in Hh as [Hh _].
  rewrite details_word in Hh by lia. apply Ht in Hh. unfold exists_ in Hh. cbn in Hh.
  destruct rem; [done|]. cbn in Hh. exists c, ini, per. split_and!; try done; try lia.
  - destruct (Z.eqb_spec c 0) as [->|]; [|done]. by destruct per.
  - intros Hin. destruct (Hfree Hin) as [Hz _].
    apply (word_inj c ini per false 0 false false false) in Hz as (-> & -> & -> & _); try lia; try done.
Qed.

Lemma existsb_find {A} (p : A → bool) l :
  existsb p l = match List.find p l with Some _ => true | None => false end.
Proof. induction l as [|i l IH]; [done|]. cbn. by destruct (p i). Qed.

(** Lookup in the file table, for every reachable shape of the table:
    [does_exist] answers exactly whether some slot holds an initialised file of
    that name that is not being removed, and leaves no trace; [borrow] returns
    the first such slot with one more reference, and releasing that handle
    restores the table. *)
Theorem file_lookup_correct s n m aba fl f :
  table_inv s n m aba fl →
  does_exist s f = Return (existsb (visible s f) (indices n), s) ∧
  match List.find (visible s f) (indices n) with
  | Some i => borrow s f = Return (Some i, add_ref s i 1) ∧ release (add_ref s i 1) i = Return s
  | None => borrow s f = Return (None, s)
  end.
Proof.
  intros Hinv. destruct (slots_range _ _ _ _ _ Hinv) as [Hr Hs].
  assert (∀ i, List.find (visible s f) (indices n) = Some i →
    set_decrement_ref_counter (add_ref s i 1) i = Return s) as Hrel.
  { intros i Hf. apply List.find_some in Hf as [Hin Hv].
    apply list_elem_of_In, indices_spec in Hin.
    destruct (holds_counter openable s n m aba fl f i Hinv Hin Hv) as (c & ini & per & Hw & H0 & H1 & Hz & _).
    { intros d. unfold openable, exists_. by destruct (to_be_removed_ d), (is_initialized_ d). }
    unfold set_decrement_ref_counter.
    rewrite (decrement_after_increment s i c ini per false) by (done || lia). cbn [obind].
    by rewrite Hz. }
  rewrite existsb_find.
  unfold does_exist, borrow, find_entry.
  rewrite (find_loop_spec s n m aba fl f (slots s) Hinv Hr), Hs.
  destruct (List.find (visible s f) (indices n)) as [i|] eqn:Ef; cbn [obind]; [|done].
  unfold release. rewrite (Hrel i eq_refl). done.
Qed.

(** The search for duplicates leaves the table alone when no other slot competes
    for the name. *)
Lemma duplicate_loop_none s n m aba fl f id cur todo :
  table_inv s n m aba fl → Forall (λ i, 0 ≤ i < n) todo →
  Forall (λ i, i = id ∨ live s f i = false) todo →
  duplicate_loop todo s id f cur = Return (Ok id, s).
Proof.
  intros Hinv. induction todo as [|i todo IH]; intros HF HL; [done|].
  apply Forall_cons in HF as [Hi HF]. apply Forall_cons in HL as [Hl HL]. cbn [duplicate_loop].
  destruct (Z.eqb_spec i id) as [->|Hne]; [by apply IH|].
  destruct Hl as [?|Hl]; [done|].
  destruct (slot_cases s n m aba fl i Hinv Hi) as (c & ini & per & rem & e & Hw & He & H0 & H1).
  pose proof (increment_when_exist_word c ini per rem H0 H1) as Hinc.
  unfold live, holds, exists_ in Hl. rewrite Hw, He, details_word in Hl by lia.
  cbn [to_be_removed_ is_persistent_ reference_counter] in Hl.
  destruct (negb rem && ((0 <? c) || per)) eqn:Eex.
  - cbn [andb] in Hl.
    destruct (on_counter_add _ s i c ini per rem true 1 ltac:(lia) Hw Hinc) as [-> _].
    cbn [obind]. unfold get_name. change (entries (add_ref s i 1)) with (entries s).
    rewrite (index_read_ok _ _ e) by (done || lia). cbn [obind]. rewrite Hl. cbn [obind].
    unfold set_decrement_ref_counter.
    rewrite (decrement_after_increment s i c ini per rem) by (done || lia). cbn [obind].
    replace ((c =? 0) && negb per) with false; [by apply IH|].
    destruct (Z.eqb_spec c 0) as [->|]; [|done]. by destruct rem, per.
  - rewrite (on_counter_ok _ _ _ _ _ _ (proj1 Hi) Hw Hinc). cbn [obind].
    rewrite list_insert_id by done. replace (set_counter s (counter s)) with s by (by destruct s).
    by apply IH.
Qed.

(** The table after a creation in the free slot [id], before the search for
    duplicates. *)
Definition with_file s id f off ln (persistent : bool) ids' : FileReferenceSet :=
  mkFileReferenceSet (<[Z.to_nat id := mkEntry f off ln]> (entries s))
    (<[Z.to_nat id := word_of 1 false persistent false]> (counter s))
    (<[Z.to_nat id := global_decision_counter s]> (decision_counter s)) ids'
    (wrap USIZE (global_decision_counter s + 1)).

Lemma with_file_inv s n m aba id fl f off ln persistent ids' aba' :
  table_inv s n m aba (id :: fl) → set_rep ids' aba' fl → capacity ids' = n → 1 ≤ m → 0 ≤ id < n →
  table_inv (with_file s id f off ln persistent ids') n m aba' fl.
Proof.
  intros [He Hc Hd Hcap Hids Hnd Hsl Hb] Hrep Hcap' Hm Hi. apply NoDup_cons in Hnd as [Hni Hnd].
  constructor; cbn; rewrite ?length_insert; try done.
  intros i Hri. constructor. destruct (decide (i = id)) as [->|Hne].
  - exists 1, false, persistent, false. cbn. rewrite list_lookup_insert_eq by lia.
    split_and!; try done; try lia.
  - destruct (Hsl i Hri) as [(c & ini & per & rem & Hw & Hcm & Hfree & Hused)].
    exists c, ini, per, rem. cbn. rewrite !list_lookup_insert_ne by lia.
    split_and!; try done; try lia.
    + intros Hin. apply Hfree. by right.
    + intros Hnin. apply Hused. by intros [->|?]%elem_of_cons.
Qed.

(** A free slot. *)
Lemma free_slot s n m aba fl i :
  table_inv s n m aba fl → 0 ≤ i < n → i ∈ fl →
  counter s !! Z.to_nat i = Some (word_of 0 false false false) ∧
  decision_counter s !! Z.to_nat i = Some UNDECIDED.
Proof.
  intros Hinv Hi Hin.
  destruct (tab_slots _ _ _ _ _ Hinv i Hi) as [(c & ini & per & rem & Hw & Hcm & Hfree & _)].
  destruct (Hfree Hin) as [Hz Hd]. rewrite Hz in Hw. done.
Qed.

Lemma live_with_file s id f off ln persistent ids' g i :
  0 ≤ i → 0 ≤ id → i ≠ id → live (with_file s id f off ln persistent ids') g i = live s g i.
Proof.
  intros H0 H1 Hne. unfold live, holds. cbn. by rewrite !list_lookup_insert_ne by lia.
Qed.

Lemma insert_steps s n m aba id fl f off ln persistent :
  table_inv s n m aba (id :: fl) → 1 ≤ m → aba + 1 < U32 → 0 ≤ n →
  0 ≤ global_decision_counter s < UNDECIDED →
  ∃ ids', set_rep ids' (aba + 1) fl ∧ capacity ids' = n ∧ 0 ≤ id < n ∧
    insert s f off ln persistent =
    duplicate_loop (indices n) (with_file s id f off ln persistent ids') id f
      (global_decision_counter s).
Proof.
  intros Hinv Hm Haba Hn Hg. pose proof Hinv as [He Hc Hd Hcap Hids Hnd Hsl Hb].
  pose proof (acquire_rep _ _ _ Hids Hnd Haba) as (ids' & Hacq & Hrep & Hcap').
  pose proof Hids as [_ _ _ _ _ (Hid & _)]. rewrite Hcap in Hid, Hcap'.
  exists ids'. split_and!; try done; try lia.
  destruct (free_slot s n m aba (id :: fl) id Hinv Hid ltac:(left)) as [Hw Hdec].
  unfold insert. rewrite Hacq. cbn [obind].
  rewrite index_write_ok by (cbn; lia). cbn [obind].
  rewrite (on_counter_ok _ _ _ (word_of 0 false false false) tt (word_of 0 false persistent false))
    by (done || lia || by apply set_persistency_word).
  cbn [obind].
  rewrite (on_counter_ok _ _ _ (word_of 0 false persistent false) (word_of 0 false persistent false)
    (word_of 1 false persistent false)); [|lia| |by apply increment_word].
  2: { cbn. apply list_lookup_insert_eq. lia. }
  cbn [obind].
  rewrite (on_decision_ok _ _ _ UNDECIDED true (global_decision_counter s)); [|lia|done|].
  2: { unfold decision_set, compare_exchange. by rewrite Z.eqb_refl. }
  cbn. rewrite length_insert, He, Z2Nat.id, list_insert_insert_eq by lia. done.
Qed.

(** Creating a file of a name no existing file has, in a table with a free
    slot: [insert] succeeds with the first free slot, the entry holds the name and
    the place of the payload with one reference, nothing else in the table
    changes, and the file becomes visible with [finalize_initialization] and not
    before; without a free slot [insert] reports [FileLimitExceeded] and changes
    nothing. *)
Theorem insert_fresh_correct s n m aba fl f off ln persistent :
  table_inv s n m aba fl → 1 ≤ m → aba + 1 < U32 → 0 ≤ n →
  0 ≤ global_decision_counter s < UNDECIDED →
  (∀ i, 0 ≤ i < n → live s f i = false) →
  match fl with
  | [] => insert s f off ln persistent = Return (Err FileLimitExceeded, s)
  | id :: fl' =>
      ∃ ids' s', s' = with_file s id f off ln persistent ids' ∧
        insert s f off ln persistent = Return (Ok id, s') ∧
        table_inv s' n m (aba + 1) fl' ∧ visible s' f id = false ∧
        ∃ s'', finalize_initialization s' id = Return s'' ∧
          table_inv s'' n m (aba + 1) fl' ∧ visible s'' f id = true
  end.
Proof.
  intros Hinv Hm Haba Hn Hg Hlive. destruct fl as [|id fl].
  - destruct Hinv as [_ _ _ _ Hids _ _ _]. unfold insert.
    rewrite (acquire_rep _ _ [] Hids ltac:(constructor) Haba). by destruct s.
  - destruct (insert_steps s n m aba id fl f off ln persistent) as (ids' & Hrep & Hcap & Hid & Hins);
      try done.
    pose proof (with_file_inv s n m aba id fl f off ln persistent ids' (aba + 1)
      Hinv Hrep Hcap Hm Hid) as Hinv'.
    exists ids'. eexists. split; [done|]. rewrite Hins.
    rewrite (duplicate_loop_none _ n m (aba + 1) fl); [|exact Hinv'| |].
    2: { apply Forall_forall. intros i Hi. by apply indices_spec. }
    2: { apply Forall_forall. intros i Hi. apply indices_spec in Hi.
         destruct (decide (i = id)); [by left|right]. rewrite live_with_file by lia. auto. }
    split; [done|]. split; [done|].
    assert (Z.to_nat id < length (counter s))%nat as Hlc
      by (rewrite (tab_counter _ _ _ _ _ Hinv); lia).
    assert (Z.to_nat id < length (entries s))%nat as Hle
      by (rewrite (tab_entries _ _ _ _ _ Hinv); lia).
    split.
    { unfold visible, holds. cbn. rewrite !list_lookup_insert_eq by done.
      by rewrite details_word by lia. }
    unfold finalize_initialization.
    rewrite (on_counter_ok _ _ _ (word_of 1 false persistent false) tt (word_of 1 true persistent false));
      [|lia|cbn; by apply list_lookup_insert_eq|by apply set_initialized_word].
    cbn [obind]. eexists. split; [done|]. split.
    + destruct Hinv' as [He Hc Hd Hcp Hi Hnd Hsl Hb].
      constructor; cbn in *; rewrite ?length_insert in *; try done.
      intros i Hri. constructor. destruct (Hsl i Hri) as [(c & ini & per & rem & Hw & Hrest)].
      cbn in *. destruct (decide (i = id)) as [->|Hne].
      * rewrite list_lookup_insert_eq in Hw by done. injection Hw as Hw.
        exists 1, true, persistent, false. cbn. rewrite list_insert_insert_eq, list_lookup_insert_eq by done.
        split_and!; try done; try lia.
        intros Hin. pose proof (tab_nodup _ _ _ _ _ Hinv) as [? _]%NoDup_cons. done.
      * exists c, ini, per, rem. cbn. by rewrite list_lookup_insert_ne by lia.
    + unfold visible, holds. cbn. rewrite list_insert_insert_eq, !list_lookup_insert_eq by done.
      rewrite details_word by lia. cbn. by apply bool_decide_eq_true.
Qed.

(** Removing an entry that is in use frees its slot, whatever its counter is. *)
Lemma remove_entry_inv s n m aba fl i d :
  table_inv s n m aba fl → aba + 1 < U32 → n < U32 → 0 ≤ i < n → i ∉ fl →
  ∃ s', remove_entry (add_ref s i d) i = Return s' ∧ table_inv s' n m (aba + 1) (i :: fl) ∧
    ∀ f, visible s' f i = false.
Proof.
  intros Hinv Haba Hn Hi Hni. pose proof Hinv as [He Hcn Hd Hcap Hids Hnd Hsl Hb].
  destruct (release_rep (ids s) aba fl i) as (ids' & Hrel & Hrep & Hcap'); try done; [lia|].
  assert (is_Some (decision_counter s !! Z.to_nat i)) as [dv Hdv] by (apply lookup_lt_is_Some_2; lia).
  assert (is_Some (counter (add_ref s i d) !! Z.to_nat i)) as [cv Hcv]
    by (apply lookup_lt_is_Some_2; cbn; rewrite length_alter; lia).
  unfold remove_entry.
  rewrite (on_counter_ok _ _ _ _ _ _ (proj1 Hi) Hcv eq_refl). cbn [obind].
  rewrite (on_decision_ok _ _ _ dv tt UNDECIDED) by (done || lia). cbn [obind].
  cbn [ids set_decision set_counter add_ref]. unfold wrap. rewrite Z.mod_small by lia.
  rewrite Hrel. cbn [obind]. eexists. split; [done|]. split.
  - constructor; cbn; rewrite ?length_insert, ?length_alter; try done; [lia|by constructor|].
    intros j Hj. constructor. destruct (Hsl j Hj) as [(c' & ini' & per' & rem' & Hwj & Hrest)].
    destruct (decide (j = i)) as [->|Hne].
    + exists 0, false, false, false. cbn.
      rewrite !list_lookup_insert_eq by (rewrite ?length_alter; lia).
      split_and!; try done; try lia. intros []. left.
    + exists c', ini', per', rem'. cbn.
      rewrite !list_lookup_insert_ne, list_lookup_alter_ne by lia.
      destruct Hrest as (? & Hf & Hu). split_and!; try done; try lia.
      * intros [->|Hin]%elem_of_cons; [done|]. by apply Hf.
      * intros Hnin. apply Hu. intros Hin. apply Hnin. by right.
  - intros f. unfold visible, holds. cbn. rewrite list_lookup_insert_eq by (rewrite length_alter; lia).
    by destruct (entries s !! Z.to_nat i).
Qed.

(** Releasing a handle: the last reference of a file that is not persistent
    removes it, which frees its slot for reuse; every other release only lowers
    the reference count. *)
Theorem release_correct s n m aba fl i c ini per rem :
  table_inv s n m aba fl → aba + 1 < U32 → n < U32 → 0 ≤ i < n → i ∉ fl →
  counter s !! Z.to_nat i = Some (word_of c ini per rem) → 0 < c ≤ m →
  ∃ s', release s i = Return s' ∧
    if bool_decide (c = 1 ∧ per = false) then
      table_inv s' n m (aba + 1) (i :: fl) ∧ ∀ f, visible s' f i = false
    else s' = add_ref s i (-1) ∧ table_inv s' n m aba fl.
Proof.
  intros Hinv Haba Hn Hi Hni Hw Hc. pose proof Hinv as [He Hcn Hd Hcap Hids Hnd Hsl Hb].
  unfold release, set_decrement_ref_counter.
  pose proof (decrement_word c ini per rem ltac:(lia)) as Hdec.
  destruct (on_counter_add decrement_ref_counter s i c ini per rem
    ((c - 1 =? 0) && negb per) (-1) ltac:(lia) Hw) as [-> Hw'].
  { by replace (c + -1) with (c - 1) by lia. }
  cbn [obind].
  assert ((c - 1 =? 0) && negb per = bool_decide (c = 1 ∧ per = false)) as ->.
  { destruct (Z.eqb_spec (c - 1) 0), per; cbn; symmetry;
      (apply bool_decide_eq_true + apply bool_decide_eq_false); lia || (intros [? ?]; done || lia). }
  destruct (bool_decide (c = 1 ∧ per = false)) eqn:Erem.
  - apply bool_decide_eq_true in Erem as [-> ->].
    by eapply remove_entry_inv.
  - eexists. split; [done|]. split; [done|].
    constructor; cbn; rewrite ?length_alter; try done.
    intros j Hj. constructor. destruct (Hsl j Hj) as [(c' & ini' & per' & rem' & Hwj & Hrest)].
    destruct (decide (j = i)) as [->|Hne].
    + exists (c + -1), ini, per, rem. split_and!; try exact Hw'; try done; try lia.
      intros _. apply bool_decide_eq_false in Erem.
      destruct per; [by right|]. left. destruct (decide (c = 1)) as [->|]; [|lia]. by destruct Erem.
    + exists c', ini', per', rem'. cbn. by rewrite list_lookup_alter_ne by lia.
Qed.

(** The empty table. *)
Lemma default_inv n m :
  0 ≤ n → n + 1 < U32 → 0 ≤ m → m + 1 < 2 ^ 61 → table_inv (default n) n m 0 (indices n).
Proof.
  intros H0 H1 Hm Hm'. constructor; cbn; rewrite ?length_replicate; try done.
  - unfold wrap. by rewrite Z.mod_small by lia.
  - by apply fixed_size_rep.
  - apply indices_NoDup.
  - intros i Hi. constructor. exists 0, false, false, false. cbn.
    rewrite !lookup_replicate_2 by lia. split_and!; try done; try lia.
    intros Hni. destruct Hni. by apply indices_spec.
Qed.

(** ** The interleaving model is the code *)

Lemma thread_run_step k s t :
  finished t = false →
  thread_run (S k) s t = let! '(s, t) := thread_step s t in thread_run k s t.
Proof. intros Ht. cbn [thread_run]. by rewrite Ht. Qed.

Lemma thread_run_done k s t : finished t = true → thread_run k s t = Return (s, t).
Proof. intros Ht. destruct k; cbn [thread_run]; by rewrite Ht. Qed.

Lemma find_solo todo s f k :
  (3 * length todo < k)%nat →
  thread_run k s (FScan f todo) =
    let! '(r, s) := find_loop todo s f in Return (s, FDone r).
Proof.
  revert s k. induction todo as [|i todo IH]; intros s k Hk; cbn in Hk.
  - destruct k; [lia|]. rewrite thread_run_step by done. cbn. by apply thread_run_done.
  - do 3 (destruct k as [|k]; [lia|]). rewrite thread_run_step by done. cbn [thread_step find_loop].
    destruct (on_counter _ s i) as [[b s']| |]; cbn [obind]; [|done..].
    destruct b; [|apply IH; lia].
    rewrite thread_run_step by done. cbn [thread_step].
    destruct (get_name s' i) as [n'| |]; cbn [obind]; [|done..].
    destruct (bool_decide (n' = f)); [by apply thread_run_done|].
    rewrite thread_run_step by done. cbn [thread_step].
    destruct (on_counter _ s' i) as [[b' s'']| |]; cbn [obind]; [|done..]. apply IH. lia.
Qed.

Lemma duplicate_solo todo s f id cur k :
  (4 * length todo < k)%nat →
  thread_run k s (IScan f id cur todo) =
    let! '(r, s) := duplicate_loop todo s id f cur in Return (s, IDone r).
Proof.
  revert s k. induction todo as [|i todo IH]; intros s k Hk; cbn in Hk.
  - destruct k; [lia|]. rewrite thread_run_step by done. cbn. by apply thread_run_done.
  - do 4 (destruct k as [|k]; [lia|]). rewrite thread_run_step by done.
    cbn [thread_step duplicate_loop]. destruct (i =? id); cbn [obind]; [apply IH; lia|].
    destruct (on_counter _ s i) as [[b s']| |]; cbn [obind]; [|done..].
    destruct b; [|apply IH; lia].
    rewrite thread_run_step by done. cbn [thread_step].
    destruct (get_name s' i) as [n'| |]; cbn [obind]; [|done..].
    assert (∀ s2, thread_run (S (S k)) s2 (IDecrement f id cur i todo) =
      let! '(r, s) := (let! s := set_decrement_ref_counter s2 i in duplicate_loop todo s id f cur) in
      Return (s, IDone r)) as Hdec.
    { intros s2. rewrite thread_run_step by done. cbn [thread_step]. unfold set_decrement_ref_counter.
      destruct (on_counter _ s2 i) as [[b' s3]| |]; cbn [obind]; [|done..].
      destruct b'; [|apply IH; lia]. rewrite thread_run_step by done. cbn [thread_step].
      destruct (remove_entry s3 i) as [s4| |]; cbn [obind]; [|done..]. apply IH. lia. }
    destruct (bool_decide (n' = f)); cbn [obind]; [|apply Hdec].
    destruct (on_decision _ s' i) as [[won s2]| |]; cbn [obind]; [|done..].
    destruct won; [apply Hdec|]. rewrite thread_run_step by done. cbn [thread_step].
    destruct (index_read (counter s2) i); cbn [obind]; [|done..]. by apply thread_run_done.
Qed.

Lemma index_write_length {A} (l l' : list A) i a :
  index_write l i a = Return l' → length l' = length l.
Proof.
  unfold index_write. destruct (raw_write l i a) eqn:E; [|done..]. intros [= <-].
  apply raw_write_inv in E as [_ ->]. apply length_insert.
Qed.

Lemma on_counter_entries {R} (op : Z → outcome (R * Z)) s i r s' :
  on_counter op s i = Return (r, s') → entries s' = entries s.
Proof.
  unfold on_counter. destruct (index_read _ _); [|done..]. cbn.
  destruct (op a) as [[? ?]| |]; [|done..]. cbn. destruct (index_write _ _ _); [|done..].
  by intros [= _ <-].
Qed.

Lemma on_decision_entries {R} (op : Z → R * Z) s i r s' :
  on_decision op s i = Return (r, s') → entries s' = entries s.
Proof.
  unfold on_decision. destruct (index_read _ _); [|done..]. cbn.
  destruct (op a) as [? ?]. destruct (index_write _ _ _); [|done..]. by intros [= _ <-].
Qed.

(** The interleaving model of the file table is the code: a thread that runs
    alone through a creation, a lookup or a release does exactly what [insert],
    [find_entry] and [release] do, on every table, panics included. *)
Theorem file_table_solo_run_is_operation s e persistent id f k :
  (4 * length (entries s) + 6 < k)%nat → (3 * length (slots s) < k)%nat →
  thread_run k s (IAcquire e persistent) =
    (let! '(r, s) := insert s (name e) (offset e) (len e) persistent in Return (s, IDone r)) ∧
  thread_run k s (FScan f (slots s)) =
    (let! '(r, s) := find_entry s f in Return (s, FDone r)) ∧
  thread_run k s (RDecrement id) = (let! s := release s id in Return (s, RDone)).
Proof.
  intros Hk Hk'. split_and!; [|by apply find_solo|].
  - do 6 (destruct k as [|k]; [lia|]). rewrite thread_run_step by done.
    cbn [thread_step]. unfold insert.
    destruct (acquire_raw_index (ids s)) as [[[i|] x]| |]; cbn [obind]; [|by apply thread_run_done|done..].
    rewrite thread_run_step by done. cbn [thread_step]. destruct e as [n off ln]. cbn [name offset len].
    destruct (index_write _ i (mkEntry n off ln)) as [en| |] eqn:Ew; cbn [obind]; [|done..].
    apply index_write_length in Ew.
    rewrite thread_run_step by done. cbn [thread_step name].
    destruct (on_counter _ _ i) as [[[] s1]| |] eqn:E1; cbn [obind]; [|done..].
    rewrite thread_run_step by done. cbn [thread_step].
    destruct (on_counter _ s1 i) as [[o s2]| |] eqn:E2; cbn [obind]; [|done..].
    rewrite thread_run_step by done. cbn [thread_step obind].
    rewrite thread_run_step by done. cbn [thread_step].
    destruct (on_decision _ _ i) as [[b s3]| |] eqn:E3; cbn [obind]; [|done..].
    destruct b; [|by apply thread_run_done]. apply duplicate_solo.
    apply on_counter_entries in E1, E2. apply on_decision_entries in E3.
    unfold indices. rewrite length_fmap, length_seq, E3. cbn in *. rewrite E2, E1, Ew. cbn. lia.
  - do 2 (destruct k as [|k]; [lia|]). rewrite thread_run_step by done. cbn [thread_step].
    unfold release, set_decrement_ref_counter.
    destruct (on_counter _ s id) as [[b s1]| |]; cbn [obind]; [|done..].
    destruct b; [|by apply thread_run_done]. rewrite thread_run_step by done. cbn [thread_step].
    destruct (remove_entry s1 id); cbn [obind]; [|done..]. by apply thread_run_done.
Qed.

End Theorems.

(** ** Schedules and call sequences in which the table misbehaves *)

Definition file_a : Entry := mkEntry [97] 0 8.
Definition file_b : Entry := mkEntry [98] 8 8.

(** [LOST] and [UNDECIDED] are the same value, so that a process that declares
    a competitor lost changes nothing: there is a schedule of two processes that
    create a file of the same name in which both succeed, with different slots. *)
Theorem insert_same_name_twice (P : Profile) :
  ∃ ks y, run_schedule ks
      (mkSys (default MAX_NUMBER_OF_ENTRIES) [IAcquire file_a false; IAcquire file_a false])
    = Return y ∧ threads y = [IDone (Ok 0); IDone (Ok 1)].
Proof.
  exists (replicate 5 0%nat ++ replicate 1000 1%nat ++ replicate 1000 0%nat).
  eexists. split; [vm_compute; reflexivity|reflexivity].
Qed.

(** An [insert] that fails because the file exists gives back neither its slot
    nor the reference it took on the existing file. After a failed attempt to
    create the file [a] a second time, the creator's release, which drops the
    only handle there is of a non-persistent file, leaves the file in place; and
    every failed attempt uses up one more slot. *)
Theorem insert_failure_leaks (P : Profile) :
  let insert_a s := insert s (name file_a) 0 8 false in
  let first_free s := (extract_head_and_aba (head (ids s))).1 in
  (let! '(r0, s) := insert_a (default MAX_NUMBER_OF_ENTRIES) in
   let! s := finalize_initialization s 0 in
   let! '(r1, s') := insert_a s in
   let! s'' := release s' 0 in
   let! '(exists_after_release, s'') := does_exist s'' (name file_a) in
   let! '(r2, s3) := insert_a s'' in
   Return (r0, first_free s, r1, first_free s', exists_after_release, r2, first_free s3))
  = Return (Ok 0, 1, Err DoesExist, 2, true, Err DoesExist, 3).
Proof. vm_compute. reflexivity. Qed.

(** [find_entry] drops the reference it took on a file with another name without
    removing the file when that was the last reference: if the owner of [a]
    releases it while another process looks for [b], then [a] is never removed;
    its slot is neither in use nor free. *)
Theorem find_entry_leaks_slot (P : Profile) :
  let schedule := replicate 2 0%nat ++ [1%nat] ++ replicate 1000 0%nat in
  (let! '(r0, s) := insert (default MAX_NUMBER_OF_ENTRIES) (name file_a) 0 8 false in
   let! s := finalize_initialization s 0 in
   let! y := run_schedule schedule (mkSys s [FScan (name file_b) (slots s); RDecrement 0]) in
   let! '(found, _) := does_exist (set y) (name file_a) in
   let! v := index_read (counter (set y)) 0 in
   Return (r0, threads y, found, details v, (extract_head_and_aba (head (ids (set y)))).1))
  = Return (Ok 0, [FDone None; RDone], false, mkDetails 0 true false false, 1).
Proof. vm_compute. reflexivity. Qed.

(** ** Witnesses *)

Section Witnesses.
#[local] Instance table_checked : Profile := true.

Lemma file_lookup_correct_witness :
  does_exist (default 3) [97] = Return (false, default 3).
Proof.
  apply (file_lookup_correct (default 3) 3 1 0 (indices 3) [97]).
  apply default_inv; unfold U32; lia.
Defined.

Lemma insert_fresh_correct_witness :
  ∃ ids' s', s' = with_file (default 3) 0 [97] 16 8 false ids' ∧
    insert (default 3) [97] 16 8 false = Return (Ok 0, s') ∧
    table_inv s' 3 1 1 [1; 2] ∧ visible s' [97] 0 = false ∧
    ∃ s'', finalize_initialization s' 0 = Return s'' ∧
      table_inv s'' 3 1 1 [1; 2] ∧ visible s'' [97] 0 = true.
Proof.
  apply (insert_fresh_correct (default 3) 3 1 0 [0; 1; 2] [97] 16 8 false).
  - apply (default_inv 3 1); unfold U32; lia.
  - lia.
  - reflexivity.
  - lia.
  - split; reflexivity.
  - intros i Hi. assert (i = 0 ∨ i = 1 ∨ i = 2) as [->|[->| ->]] by lia; reflexivity.
Defined.

(** One file, created and not yet finalised. *)
Lemma release_correct_witness :
  ∃ s s', insert (default 3) [97] 16 8 false = Return (Ok 0, s) ∧
    release s 0 = Return s' ∧ table_inv s' 3 1 2 [0; 1; 2].
Proof.
  destruct (insert_steps (default 3) 3 1 0 0 [1; 2] [97] 16 8 false)
    as (ids' & Hrep & Hcap & Hid & Hins);
    [apply (default_inv 3 1); unfold U32; lia|lia|reflexivity|lia|split; reflexivity|].
  pose proof (with_file_inv (default 3) 3 1 0 0 [1; 2] [97] 16 8 false ids' 1
    (default_inv 3 1 ltac:(lia) ltac:(reflexivity) ltac:(lia) ltac:(lia)) Hrep Hcap ltac:(lia) Hid) as Hinv.
  destruct (release_correct (with_file (default 3) 0 [97] 16 8 false ids') 3 1 1 [1; 2] 0 1
    false false false) as (s' & Hs' & Hr); [done|reflexivity|reflexivity|lia| |done|lia|].
  { by intros [?|[?|[]%elem_of_nil]%elem_of_cons]%elem_of_cons. }
  exists (with_file (default 3) 0 [97] 16 8 false ids'), s'. split; [|split; [exact Hs'|]].
  - rewrite Hins. reflexivity.
  - destruct (bool_decide (1 = 1 ∧ false = false)) eqn:E; [apply Hr|].
    apply bool_decide_eq_false in E. by destruct E.
Defined.

Lemma file_table_solo_run_witness :
  thread_run 40 (default 3) (RDecrement 0) = (let! s := release (default 3) 0 in Return (s, RDone)).
Proof.
  apply (file_table_solo_run_is_operation (default 3) (mkEntry [97] 0 8) false 0 [97] 40);
    apply Nat.ltb_lt; reflexivity.
Defined.
End Witnesses.
