(* ===== verification/ZeroCopyConnection.v ===== *)
(** * elkodon_cal/src/zero_copy_connection/posix_shared_memory.rs

    The connection between one publisher and one subscriber: offsets of samples
    travel to the receiver through an overflowing queue and come back through a
    second queue. Both live in one piece of shared memory together with the
    byte that records which ports are connected.

    - construction of the shared data, with the memory it needs;
    - [try_send], [reclaim], [receive] and [release] on the shared data; the
      accounting that makes [release] succeed, and the schedule that breaks it;
    - the connection state: any number of processes that connect and disconnect
      concurrently;
    - opening an existing connection. *)

From S2P Require Import Prelude Ring Elementary IndexQueue OverflowQueue BumpAllocator.

(** ** Data *)

Inductive ZeroCopyCreationError :=
| CreationInternalError
| AnotherInstanceIsAlreadyConnected
| ConnectionMaybeCorrupted
| IncompatibleBufferSize
| IncompatibleMaxBorrowedSampleSetting
| IncompatibleOverflowSetting.

Inductive ZeroCopySendError := ReceiveBufferFull | ClearRetrieveChannelBeforeSend.
Inductive ZeroCopyReceiveError := ReceiveWouldExceedMaxBorrowValue.
Inductive ZeroCopyReleaseError := RetrieveBufferFull.

(** [enum State] *)
Definition State_None : Z := 0.
Definition State_Sender : Z := 1.
Definition State_Receiver : Z := 2.
Definition State_MarkedForDestruction : Z := 128.

Record SharedManagementData := mkMgmt {
  receive_channel : OverflowQueue;
  retrieve_channel : IndexQueue;
  max_borrowed_samples : Z;
  state : Z;
  enable_safe_overflow : bool
}.

Definition set_receive (m : SharedManagementData) q :=
  mkMgmt q (retrieve_channel m) (max_borrowed_samples m) (state m) (enable_safe_overflow m).
Definition set_retrieve (m : SharedManagementData) q :=
  mkMgmt (receive_channel m) q (max_borrowed_samples m) (state m) (enable_safe_overflow m).

Record Builder := mkBuilder {
  buffer_size : Z;
  b_enable_safe_overflow : bool;
  b_max_borrowed_samples : Z
}.

Definition DEFAULT_BUFFER_SIZE : Z := 4.
Definition DEFAULT_ENABLE_SAFE_OVERFLOW : bool := false.
Definition DEFAULT_MAX_BORROWED_SAMPLES : Z := 4.

Definition builder_new : Builder :=
  mkBuilder DEFAULT_BUFFER_SIZE DEFAULT_ENABLE_SAFE_OVERFLOW DEFAULT_MAX_BORROWED_SAMPLES.

Section Operations.
Context `{P : Profile}.

(** [size_of::<SharedManagementData>()] *)
Context (size_of_mgmt : Z).

(** ** Construction *)

Definition mgmt_new (receive_size retrieve_size : Z) (overflow : bool) (max_borrowed : Z)
    : SharedManagementData :=
  mkMgmt (OverflowQueue.new_uninit receive_size) (IndexQueue.new_uninit retrieve_size)
    max_borrowed State_None overflow.

Definition const_memory_size (receive_size retrieve_size : Z) : outcome Z :=
  let! a := IndexQueue.const_memory_size retrieve_size in
  let! s := uadd size_of_mgmt a in
  let! b := OverflowQueue.const_memory_size receive_size in
  uadd s b.

Definition receive_channel_size (b : Builder) : Z := buffer_size b.

Definition retrieve_channel_size (b : Builder) : outcome Z :=
  let! s := uadd (buffer_size b) (b_max_borrowed_samples b) in uadd s 1.

(** The branch of [create_or_open_shm] that owns the new shared memory, mapped
    at [base]; a failed allocation is a [fatal_panic!]. *)
Definition setup_new_connection (b : Builder) (base : Z) : outcome SharedManagementData :=
  let! retrieve_size := retrieve_channel_size b in
  let! shm_size := const_memory_size (receive_channel_size b) retrieve_size in
  let m := mgmt_new (receive_channel_size b) retrieve_size (b_enable_safe_overflow b)
             (b_max_borrowed_samples b) in
  let! supplementary_ptr := uadd base size_of_mgmt in
  let! supplementary_len := usub shm_size size_of_mgmt in
  let allocator := BumpAllocator.new supplementary_ptr supplementary_len in
  let! '(r, q, allocator) := OverflowQueue.init (receive_channel m) allocator in
  match r with
  | Err _ => Panic
  | Ok _ =>
      let m := set_receive m q in
      let! '(r, q, allocator) := IndexQueue.init (retrieve_channel m) allocator in
      match r with
      | Err _ => Panic
      | Ok _ => Return (set_retrieve m q)
      end
  end.

(** The compatibility checks of the branch that opened existing memory. *)
Definition check_existing (b : Builder) (m : SharedManagementData)
    : outcome (result unit ZeroCopyCreationError) :=
  let! retrieve_size := retrieve_channel_size b in
  if negb (OverflowQueue.capacity (receive_channel m) =? receive_channel_size b) then
    Return (Err IncompatibleBufferSize)
  else if negb (IndexQueue.capacity (retrieve_channel m) =? retrieve_size) then
    Return (Err IncompatibleMaxBorrowedSampleSetting)
  else if negb (Bool.eqb (enable_safe_overflow m) (b_enable_safe_overflow b)) then
    Return (Err IncompatibleOverflowSetting)
  else Return (Ok tt).

(** What the operating system answers: [perm k] is the [k]-th query of the
    permissions ([None]: the query failed; [Some true]: the owner may read and
    write, which is how the creator marks a finished connection), [wait k] the
    time the adaptive wait reports after its [k]-th call. *)
Record Os := mkOs { perm : nat → option bool; wait : nat → option Z }.

(** 10 ms in nanoseconds. *)
Definition MAX_CREATION_DURATION : Z := 10000000.

(** The [while] loop; the result counts the queries and the waits made. *)
Fixpoint wait_for_creation (fuel : nat) (os : Os) (queries waits : nat)
    : outcome (result (nat * nat) ZeroCopyCreationError) :=
  match fuel with
  | O => Undefined
  | S fuel =>
      match perm os queries with
      | None => Return (Err CreationInternalError)
      | Some ready =>
          if ready then
            match wait os waits with
            | None => Return (Err CreationInternalError)
            | Some elapsed =>
                if elapsed <? MAX_CREATION_DURATION then Return (Ok (S queries, S waits))
                else wait_for_creation fuel os (S queries) (S waits)
            end
          else Return (Ok (S queries, waits))
      end
  end.

(** The branch of [create_or_open_shm] that opened existing shared memory with
    the contents [m]. *)
Definition open_existing (fuel : nat) (b : Builder) (os : Os) (m : SharedManagementData)
    : outcome (result unit ZeroCopyCreationError) :=
  let! r := wait_for_creation fuel os 0 0 in
  match r with
  | Err e => Return (Err e)
  | Ok (queries, _) =>
      match perm os queries with
      | None => Return (Err CreationInternalError)
      | Some false => Return (Err ConnectionMaybeCorrupted)
      | Some true => check_existing b m
      end
  end.

(** ** Sender and receiver *)

Definition try_send (m : SharedManagementData) (ptr : Z)
    : outcome (result (option Z) ZeroCopySendError * SharedManagementData) :=
  let! used := IndexQueue.len (retrieve_channel m) in
  let! space_in_retrieve_channel := usub (IndexQueue.capacity (retrieve_channel m)) used in
  let! n := OverflowQueue.len (receive_channel m) in
  let! needed := uadd (max_borrowed_samples m) n in
  if space_in_retrieve_channel <=? needed then Return (Err ClearRetrieveChannelBeforeSend, m)
  else
    let! full := (if negb (enable_safe_overflow m) then OverflowQueue.is_full (receive_channel m)
                  else Return false) in
    if full : bool then Return (Err ReceiveBufferFull, m)
    else
      let! '(r, q) := OverflowQueue.push (receive_channel m) ptr in
      Return (Ok r, set_receive m q).

(** [blocking_send] waits while the channel is full ([fuel] rounds of the
    receiver [rx], which may change the shared data meanwhile). *)
Fixpoint blocking_send (fuel : nat) (rx : SharedManagementData → SharedManagementData)
    (m : SharedManagementData) (ptr : Z)
    : outcome (result (option Z) ZeroCopySendError * SharedManagementData) :=
  let! full := (if negb (enable_safe_overflow m) then OverflowQueue.is_full (receive_channel m)
                else Return false) in
  if full : bool then
    match fuel with
    | O => Undefined
    | S fuel => blocking_send fuel rx (rx m) ptr
    end
  else try_send m ptr.

Definition reclaim (m : SharedManagementData) : outcome (option Z * SharedManagementData) :=
  let! '(r, q) := IndexQueue.pop (retrieve_channel m) in
  Return (r, set_retrieve m q).

(** The receiver keeps its [borrow_counter] outside of the shared memory. *)
Definition receive (m : SharedManagementData) (borrow_counter : Z)
    : outcome (result (option Z) ZeroCopyReceiveError * SharedManagementData * Z) :=
  if max_borrowed_samples m <=? borrow_counter then
    Return (Err ReceiveWouldExceedMaxBorrowValue, m, borrow_counter)
  else
    let! '(r, q) := OverflowQueue.pop (receive_channel m) in
    match r with
    | None => Return (Ok None, set_receive m q, borrow_counter)
    | Some v =>
        let! c := uadd borrow_counter 1 in
        Return (Ok (Some v), set_receive m q, c)
    end.

Definition release (m : SharedManagementData) (borrow_counter ptr : Z)
    : outcome (result unit ZeroCopyReleaseError * SharedManagementData * Z) :=
  let! '(b, q) := IndexQueue.push (retrieve_channel m) ptr in
  let m := set_retrieve m q in
  if b : bool then let! c := usub borrow_counter 1 in Return (Ok tt, m, c)
  else Return (Err RetrieveBufferFull, m, borrow_counter).

Definition is_connected (m : SharedManagementData) : bool :=
  state m =? Z.lor State_Sender State_Receiver.

(** ** [try_send] access by access

    The receiver works on the shared data between any two accesses of the
    sender; the queue operations themselves are linearizable. *)
Inductive send_pc :=
| SRetrieveLen (ptr : Z)
| SReceiveLen (ptr space : Z)
| SIsFull (ptr : Z)
| SPush (ptr : Z)
| SDone (r : result (option Z) ZeroCopySendError).

Definition send_step (m : SharedManagementData) (pc : send_pc)
    : outcome (SharedManagementData * send_pc) :=
  match pc with
  | SRetrieveLen ptr =>
      let! used := IndexQueue.len (retrieve_channel m) in
      let! space := usub (IndexQueue.capacity (retrieve_channel m)) used in
      Return (m, SReceiveLen ptr space)
  | SReceiveLen ptr space =>
      let! n := OverflowQueue.len (receive_channel m) in
      let! needed := uadd (max_borrowed_samples m) n in
      Return (m, if space <=? needed then SDone (Err ClearRetrieveChannelBeforeSend)
                 else if enable_safe_overflow m then SPush ptr else SIsFull ptr)
  | SIsFull ptr =>
      let! full := OverflowQueue.is_full (receive_channel m) in
      Return (m, if full : bool then SDone (Err ReceiveBufferFull) else SPush ptr)
  | SPush ptr =>
      let! '(r, q) := OverflowQueue.push (receive_channel m) ptr in
      Return (set_receive m q, SDone (Ok r))
  | SDone r => Return (m, pc)
  end.

Fixpoint send_run (fuel : nat) (m : SharedManagementData) (pc : send_pc)
    : outcome (result (option Z) ZeroCopySendError * SharedManagementData) :=
  match pc, fuel with
  | SDone r, _ => Return (r, m)
  | _, O => Undefined
  | _, S fuel => let! '(m, pc) := send_step m pc in send_run fuel m pc
  end.

(** Two threads on one connection: the sender starts a [try_send] or makes its
    next access, the receiver receives or releases. [releases] collects what
    [release] returned. *)
Inductive action := AStart (ptr : Z) | ASender | AReceive | ARelease (ptr : Z).

Record link := mkLink {
  l_mgmt : SharedManagementData;
  l_borrow_counter : Z;
  l_sender : send_pc;
  l_releases : list (result unit ZeroCopyReleaseError)
}.

Definition link_step (l : link) (a : action) : outcome link :=
  let '(mkLink m bc pc re) := l in
  match a with
  | AStart ptr => Return (mkLink m bc (SRetrieveLen ptr) re)
  | ASender => let! '(m, pc) := send_step m pc in Return (mkLink m bc pc re)
  | AReceive => let! '(_, m, bc) := receive m bc in Return (mkLink m bc pc re)
  | ARelease ptr =>
      let! '(r, m, bc) := release m bc ptr in Return (mkLink m bc pc (re ++ [r]))
  end.

Fixpoint link_run (l : link) (acts : list action) : outcome link :=
  match acts with
  | [] => Return l
  | a :: acts => let! l := link_step l a in link_run l acts
  end.

(** ** The connection state *)

(** The loop of [reserve_port]: the first expected value is [None] without a
    load. *)
Fixpoint reserve_port_loop (fuel : nat) (cell current_state new_state : Z)
    : outcome (result unit ZeroCopyCreationError * Z) :=
  match fuel with
  | O => Undefined
  | S fuel =>
      let '(cell, r) := compare_exchange cell current_state (Z.lor current_state new_state) in
      match r with
      | Ok _ => Return (Ok tt, cell)
      | Err v =>
          if negb (Z.land v new_state =? 0) then Return (Err AnotherInstanceIsAlreadyConnected, cell)
          else if negb (Z.land v State_MarkedForDestruction =? 0) then
            Return (Err CreationInternalError, cell)
          else reserve_port_loop fuel cell v new_state
      end
  end.

Definition reserve_port (cell new_state : Z) : outcome (result unit ZeroCopyCreationError * Z) :=
  reserve_port_loop 2 cell State_None new_state.

(** The new state [cleanup_shared_memory] computes; [Z.ldiff] is the [& !] of
    the source. *)
Definition cleanup_state (current_state state_to_remove : Z) : Z :=
  if current_state =? state_to_remove then State_MarkedForDestruction
  else Z.ldiff current_state state_to_remove.

(** [true]: the shared memory is removed by this call. *)
Fixpoint cleanup_loop (fuel : nat) (cell current_state state_to_remove : Z) : outcome (bool * Z) :=
  match fuel with
  | O => Undefined
  | S fuel =>
      let new_state := cleanup_state current_state state_to_remove in
      let '(cell, r) := compare_exchange cell current_state new_state in
      match r with
      | Ok _ => Return (new_state =? State_MarkedForDestruction, cell)
      | Err v => cleanup_loop fuel cell v state_to_remove
      end
  end.

Definition cleanup_shared_memory (cell state_to_remove : Z) : outcome (bool * Z) :=
  cleanup_loop 2 cell cell state_to_remove.

(** Processes that connect and disconnect as sender or receiver ([bit]). *)
Inductive port_pc :=
| PIdle
| PReserve (bit current : Z)
| PConnected (bit : Z)
| PCleanupLoad (bit : Z)
| PCleanup (bit current : Z)
| PRemove.

Definition port_step (cell : Z) (pc : port_pc) : Z * port_pc :=
  match pc with
  | PReserve bit cur =>
      let '(cell, r) := compare_exchange cell cur (Z.lor cur bit) in
      (cell,
       match r with
       | Ok _ => PConnected bit
       | Err v =>
           if negb (Z.land v bit =? 0) then PIdle
           else if negb (Z.land v State_MarkedForDestruction =? 0) then PIdle
           else PReserve bit v
       end)
  | PCleanupLoad bit => (cell, PCleanup bit cell)
  | PCleanup bit cur =>
      let new := cleanup_state cur bit in
      let '(cell, r) := compare_exchange cell cur new in
      (cell,
       match r with
       | Ok _ => if new =? State_MarkedForDestruction then PRemove else PIdle
       | Err v => PCleanup bit v
       end)
  | _ => (cell, pc)
  end.

(** [removed] counts the removals of the shared memory. *)
Record ports := mkPorts { cell : Z; removed : nat; procs : list port_pc }.

Definition is_port (bit : Z) : Prop := bit = State_Sender ∨ bit = State_Receiver.

Inductive ports_step : ports → option Z → ports → Prop :=
| port_connect c n ts1 ts2 bit :
    is_port bit →
    ports_step (mkPorts c n (ts1 ++ PIdle :: ts2)) None
               (mkPorts c n (ts1 ++ PReserve bit State_None :: ts2))
| port_disconnect c n ts1 ts2 bit :
    ports_step (mkPorts c n (ts1 ++ PConnected bit :: ts2)) None
               (mkPorts c n (ts1 ++ PCleanupLoad bit :: ts2))
| port_access c n ts1 pc ts2 c' pc' :
    pc ≠ PRemove → port_step c pc = (c', pc') →
    ports_step (mkPorts c n (ts1 ++ pc :: ts2)) None (mkPorts c' n (ts1 ++ pc' :: ts2))
| port_remove c n ts1 ts2 :
    ports_step (mkPorts c n (ts1 ++ PRemove :: ts2)) (Some c)
               (mkPorts c (S n) (ts1 ++ PIdle :: ts2)).

(** The processes that count as connected in the role [bit]. *)
Definition holds (bit : Z) (pc : port_pc) : bool :=
  match pc with
  | PConnected b | PCleanupLoad b | PCleanup b _ => b =? bit
  | _ => false
  end.

Definition removing (pc : port_pc) : bool := match pc with PRemove => true | _ => false end.

Fixpoint count (f : port_pc → bool) (ts : list port_pc) : nat :=
  match ts with [] => 0 | t :: ts => Nat.b2n (f t) + count f ts end.

(** ** The connection in use

    [borrowed] lists the samples the receiver holds, [sent] those the sender
    handed over and [returned] those it got back (reclaimed or evicted). *)
Record conn := mkConn {
  mgmt : SharedManagementData;
  borrow_counter : Z;
  borrowed : list Z;
  sent : list Z;
  returned : list Z
}.

(** Calls of the two ports in any order; the receiver releases what it has
    borrowed. The label is the sample a [release] failed for. *)
Inductive conn_step : conn → option Z → conn → Prop :=
| step_send m bc bo se re ptr r m' :
    try_send m ptr = Return (r, m') →
    conn_step (mkConn m bc bo se re) None
      (match r with
       | Ok ev => mkConn m' bc bo (ptr :: se) (option_list ev ++ re)
       | Err _ => mkConn m' bc bo se re
       end)
| step_reclaim m bc bo se re r m' :
    reclaim m = Return (r, m') →
    conn_step (mkConn m bc bo se re) None (mkConn m' bc bo se (option_list r ++ re))
| step_receive m bc bo se re r m' bc' :
    receive m bc = Return (r, m', bc') →
    conn_step (mkConn m bc bo se re) None
      (mkConn m' bc' (match r with Ok (Some v) => v :: bo | _ => bo end) se re)
| step_release m bc bo1 v bo2 se re r m' bc' :
    release m bc v = Return (r, m', bc') →
    conn_step (mkConn m bc (bo1 ++ v :: bo2) se re)
      (match r with Ok _ => None | Err _ => Some v end)
      (mkConn m' bc' (match r with Ok _ => bo1 ++ bo2 | Err _ => bo1 ++ v :: bo2 end) se re).

(** The steps of a connection, counted. *)
Inductive conn_run : conn → nat → conn → Prop :=
| run_refl c : conn_run c 0 c
| run_step c k c' l c'' : conn_run c k c' → conn_step c' l c'' → conn_run c (S k) c''.

(** [rx] and [rt] are the contents of the receive and the retrieve channel. *)
Record conn_inv (b : Builder) (k : nat) (c : conn) (rx rt : list Z) : Prop := {
  ci_rx : OverflowQueue.queue_rep (receive_channel (mgmt c)) rx;
  ci_rt : IndexQueue.queue_rep (retrieve_channel (mgmt c)) rt;
  ci_rx_cap : OverflowQueue.capacity (receive_channel (mgmt c)) = buffer_size b;
  ci_rt_cap : IndexQueue.capacity (retrieve_channel (mgmt c)) =
              buffer_size b + b_max_borrowed_samples b + 1;
  ci_max : max_borrowed_samples (mgmt c) = b_max_borrowed_samples b;
  ci_nonneg : 0 ≤ buffer_size b ∧ 0 ≤ b_max_borrowed_samples b;
  ci_rx_len : Z.of_nat (length rx) ≤ buffer_size b;
  ci_counter : borrow_counter c = Z.of_nat (length (borrowed c));
  ci_borrow : borrow_counter c ≤ b_max_borrowed_samples b;
  ci_rx_pos : OverflowQueue.write_position (receive_channel (mgmt c)) ≤ Z.of_nat k;
  ci_rt_pos : IndexQueue.write_position (retrieve_channel (mgmt c)) ≤ Z.of_nat k;
  ci_space : Z.of_nat (length rt) + Z.of_nat (length (borrowed c)) + Z.of_nat (length rx)
             ≤ buffer_size b + b_max_borrowed_samples b + 1;
  ci_conserved : sent c ≡ₚ rx ++ borrowed c ++ rt ++ returned c
}.

Definition fresh (m : SharedManagementData) : conn := mkConn m 0 [] [] [].
End Operations.

Section Theorems.
Context `{P : Profile}.

(** ** Construction *)

Lemma setup_ok size_of_mgmt b base :
  0 ≤ buffer_size b → 0 ≤ b_max_borrowed_samples b → 0 ≤ size_of_mgmt → 0 ≤ base →
  base + size_of_mgmt + 32 * (buffer_size b + b_max_borrowed_samples b + 4) < USIZE →
  ∃ m, setup_new_connection size_of_mgmt b base = Return m ∧
    conn_inv b 0 (fresh m) [] [] ∧ state m = State_None ∧
    enable_safe_overflow m = b_enable_safe_overflow b ∧ check_existing b m = Return (Ok tt).
Proof.
  intros Hb Hm Hsz Hbase Hw. unfold setup_new_connection, retrieve_channel_size.
  rewrite uadd_ok by lia. cbn [obind]. rewrite uadd_ok by lia. cbn [obind].
  set (rt := buffer_size b + b_max_borrowed_samples b + 1). unfold receive_channel_size.
  unfold const_memory_size, IndexQueue.const_memory_size, OverflowQueue.const_memory_size.
  rewrite (umul_ok 8 rt) by lia. cbn [obind]. rewrite uadd_ok by lia. cbn [obind].
  rewrite usub_ok by lia. cbn [obind]. rewrite uadd_ok by lia. cbn [obind].
  rewrite uadd_ok by lia. cbn [obind]. rewrite umul_ok by lia. cbn [obind].
  rewrite uadd_ok by lia. cbn [obind]. rewrite usub_ok by lia. cbn [obind].
  rewrite uadd_ok by lia. cbn [obind]. rewrite uadd_ok by lia. cbn [obind].
  rewrite usub_ok by lia. cbn [obind].
  set (len := size_of_mgmt + _ + _ - size_of_mgmt).
  set (a0 := BumpAllocator.new (base + size_of_mgmt) len).
  assert (bump_owns a0 (base + size_of_mgmt) (base + size_of_mgmt + len) []) as Hown0
    by (constructor; cbn; try done; lia).
  unfold OverflowQueue.init. cbn [receive_channel mgmt_new].
  unfold OverflowQueue.new_uninit. cbn [OverflowQueue.is_memory_initialized OverflowQueue.capacity].
  rewrite uadd_ok by lia. cbn [obind]. rewrite umul_ok by lia. cbn [obind].
  destruct (bump_allocate_succeeds a0 _ _ [] (mkLayout (8 * (buffer_size b + 1)) 8) Hown0)
    as (c1 & a1 & Ha1 & Hl1 & _ & Hown1 & Hpos1); [split; cbn; [lia|by exists 3]|cbn; lia..|].
  cbn [allocate bump_BaseAllocator]. rewrite Ha1. cbn [obind]. cbn in Hl1.
  rewrite (proj2 (Z.leb_le _ _)) by lia. cbn [obind].
  unfold IndexQueue.init. cbn [retrieve_channel set_receive mgmt_new].
  unfold IndexQueue.new_uninit. cbn [IndexQueue.is_memory_initialized IndexQueue.capacity].
  rewrite umul_ok by lia. cbn [obind].
  assert (size a1 = len) as Hlen1 by (destruct Hown1 as [? Hh]; cbn in *; lia).
  destruct (bump_allocate_succeeds a1 _ _ _ (mkLayout (8 * rt) 8) Hown1)
    as (c2 & a2 & Ha2 & Hl2 & _); [split; cbn; [lia|by exists 3]|cbn in *; lia..|].
  cbn [allocate bump_BaseAllocator]. rewrite Ha2. cbn [obind]. cbn in Hl2.
  rewrite (proj2 (Z.leb_le _ _)) by lia. cbn [obind].
  eexists. split; [done|]. split_and!; try done.
  - constructor; cbn; try done; try lia.
    + constructor; cbn; rewrite ?length_replicate; try lia. apply ring_rep_nil.
    + constructor; cbn; rewrite ?length_replicate; try lia. apply ring_rep_nil.
  - unfold check_existing, retrieve_channel_size. rewrite uadd_ok by lia. cbn [obind].
    rewrite uadd_ok by lia. cbn. unfold receive_channel_size. fold rt.
    rewrite !Z.eqb_refl. cbn. by destruct (b_enable_safe_overflow b).
Qed.

(** Setting up a new connection never runs into its [fatal_panic!]: the memory
    computed by [const_memory_size] suffices for both channels whatever address
    the shared memory is mapped to, and the result is a connection with both
    channels empty, of the configured sizes, and no port connected. *)
Theorem connection_setup_succeeds size_of_mgmt b base :
  0 ≤ buffer_size b → 0 ≤ b_max_borrowed_samples b → 0 ≤ size_of_mgmt → 0 ≤ base →
  base + size_of_mgmt + 32 * (buffer_size b + b_max_borrowed_samples b + 4) < USIZE →
  ∃ m, setup_new_connection size_of_mgmt b base = Return m ∧
    conn_inv b 0 (fresh m) [] [] ∧ state m = State_None ∧
    enable_safe_overflow m = b_enable_safe_overflow b ∧ check_existing b m = Return (Ok tt).
Proof. apply setup_ok. Qed.

(** ** The channels in use *)

Section Use.
Context (b : Builder) (k : nat) (c : conn) (rx rt : list Z).
Context (Hinv : conn_inv b k c rx rt).
Context (Hk : Z.of_nat k + buffer_size b + b_max_borrowed_samples b + 4 < USIZE).

Lemma conn_oq_ok : OverflowQueue.no_overflow (receive_channel (mgmt c)).
Proof. destruct Hinv. unfold OverflowQueue.no_overflow. lia. Qed.

Lemma conn_iq_ok : IndexQueue.no_overflow (retrieve_channel (mgmt c)).
Proof. destruct Hinv. unfold IndexQueue.no_overflow. lia. Qed.

Lemma conn_rx_len : OverflowQueue.len (receive_channel (mgmt c)) = Return (Z.of_nat (length rx)).
Proof.
  pose proof conn_oq_ok. destruct Hinv as [[_ ? ? Hw _ _] _ Hc _ _ _ _ _ _ ? ? _ _].
  unfold OverflowQueue.len, OverflowQueue.acquire_read_and_write_position, OverflowQueue.no_overflow in *.
  rewrite usub_ok by lia. f_equal. lia.
Qed.

Lemma conn_rt_len : IndexQueue.len (retrieve_channel (mgmt c)) = Return (Z.of_nat (length rt)).
Proof.
  pose proof conn_iq_ok. destruct Hinv as [_ [_ ? Hw ? _] _ Hc _ ? _ _ _ ? ? _ _].
  unfold IndexQueue.len, IndexQueue.acquire_read_and_write_position, IndexQueue.no_overflow in *.
  rewrite usub_ok by lia. f_equal. lia.
Qed.

Lemma conn_rx_full :
  OverflowQueue.is_full (receive_channel (mgmt c)) =
    Return (Z.of_nat (length rx) =? buffer_size b).
Proof.
  pose proof conn_oq_ok. destruct Hinv as [[_ ? ? Hw _ _] _ Hc _ _ _ _ _ _ ? ? _ _].
  unfold OverflowQueue.is_full, OverflowQueue.acquire_read_and_write_position, OverflowQueue.no_overflow in *.
  rewrite uadd_ok by lia. cbn [obind]. f_equal. rewrite Hw, Hc.
  destruct (Z.eqb_spec (Z.of_nat (length rx)) (buffer_size b)), (Z.eqb_spec
    (OverflowQueue.read_position (receive_channel (mgmt c)) + Z.of_nat (length rx))
    (OverflowQueue.read_position (receive_channel (mgmt c)) + buffer_size b)); lia || done.
Qed.
End Use.

Lemma oq_push_position q l v r q' :
  OverflowQueue.queue_rep q l → OverflowQueue.no_overflow q →
  OverflowQueue.push q v = Return (r, q') →
  OverflowQueue.write_position q' = OverflowQueue.write_position q + 1.
Proof.
  intros [_ ? ? ? _ _] Hov. unfold OverflowQueue.no_overflow, OverflowQueue.push in *.
  destruct (uadd (OverflowQueue.read_position q) (OverflowQueue.capacity q)); [|done..]. cbn [obind].
  destruct (OverflowQueue.at_ q _); [|done..]. cbn [obind].
  destruct (raw_write _ _ _); [|done..]. cbn [obind]. rewrite uadd_ok by lia. cbn [obind].
  destruct (_ =? _); [|by intros [= _ <-]].
  destruct (uadd (OverflowQueue.read_position q) 1); [|done..]. cbn [obind].
  destruct (compare_exchange _ _ _) as [cell [x|x]]; [|by intros [= _ <-]].
  destruct (OverflowQueue.at_ _ _); [|done..]. cbn [obind].
  destruct (raw_read _ _); [|done..]. by intros [= _ <-].
Qed.

Lemma iq_push_position q l v r q' :
  IndexQueue.queue_rep q l → IndexQueue.no_overflow q → IndexQueue.push q v = Return (r, q') →
  IndexQueue.write_position q' = IndexQueue.write_position q + if r then 1 else 0.
Proof.
  intros [_ ? ? ? _] Hov. unfold IndexQueue.no_overflow, IndexQueue.push in *.
  destruct (uadd (IndexQueue.read_position q) (IndexQueue.capacity q)); [|done..]. cbn [obind].
  destruct (_ =? _); [intros [= <- <-]; lia|].
  destruct (IndexQueue.at_ q _); [|done..]. cbn [obind].
  destruct (raw_write _ _ _); [|done..]. cbn [obind]. rewrite uadd_ok by lia.
  by intros [= <- <-].
Qed.

Lemma iq_pop_position q r q' :
  IndexQueue.pop q = Return (r, q') → IndexQueue.write_position q' = IndexQueue.write_position q.
Proof.
  unfold IndexQueue.pop. destruct (_ =? _); [by intros [= _ <-]|].
  destruct (IndexQueue.at_ q _); [|done..]. cbn [obind].
  destruct (raw_read _ _); [|done..]. cbn [obind]. destruct (uadd _ _); [|done..].
  by intros [= _ <-].
Qed.

Lemma conn_inv_weaken b k c rx rt : conn_inv b k c rx rt → conn_inv b (S k) c rx rt.
Proof. intros []. constructor; try done; lia. Qed.

(** [try_send] on every branch. *)
Lemma try_send_inv b k m bc bo se re rx rt ptr :
  conn_inv b k (mkConn m bc bo se re) rx rt →
  Z.of_nat k + buffer_size b + b_max_borrowed_samples b + 4 < USIZE →
  ∃ r m', try_send m ptr = Return (r, m') ∧
    match r with
    | Ok ev => ∃ rx', rx ++ [ptr] = option_list ev ++ rx' ∧
        (ev = None ↔ Z.of_nat (length rx) < buffer_size b) ∧
        (enable_safe_overflow m = false → ev = None) ∧
        conn_inv b (S k) (mkConn m' bc bo (ptr :: se) (option_list ev ++ re)) rx' rt
    | Err ClearRetrieveChannelBeforeSend =>
        m' = m ∧ buffer_size b < Z.of_nat (length rt) + Z.of_nat (length rx)
    | Err ReceiveBufferFull =>
        m' = m ∧ enable_safe_overflow m = false ∧ Z.of_nat (length rx) = buffer_size b
    end.
Proof.
  intros Hinv Hk. pose proof (conn_rt_len _ _ _ _ _ Hinv Hk) as Hrt.
  pose proof (conn_rx_len _ _ _ _ _ Hinv Hk) as Hrx.
  pose proof (conn_rx_full _ _ _ _ _ Hinv Hk) as Hfull.
  pose proof (conn_oq_ok _ _ _ _ _ Hinv Hk) as Hov.
  pose proof Hinv as [Hqr Hir Hc1 Hc2 Hmx Hnn Hrl Hct Hbo Hp1 Hp2 Hsp Hcons]. cbn [mgmt borrow_counter borrowed sent returned] in *.
  pose proof (IndexQueue.rep_bound _ _ Hir) as Hib.
  unfold try_send. rewrite Hrt. cbn [obind]. rewrite usub_ok by lia. cbn [obind].
  rewrite Hrx. cbn [obind]. rewrite Hmx, uadd_ok by lia. cbn [obind].
  destruct (Z.leb_spec (IndexQueue.capacity (retrieve_channel m) - Z.of_nat (length rt))
    (b_max_borrowed_samples b + Z.of_nat (length rx))).
  { do 2 eexists. split; [done|]. split; [done|]. lia. }
  assert ((if negb (enable_safe_overflow m) then OverflowQueue.is_full (receive_channel m)
           else Return false) =
          Return (negb (enable_safe_overflow m) && (Z.of_nat (length rx) =? buffer_size b))) as ->.
  { destruct (enable_safe_overflow m); [done|]. exact Hfull. }
  cbn [obind]. destruct (negb (enable_safe_overflow m) && _) eqn:Ef.
  { apply andb_prop in Ef as [E1 E2]. do 2 eexists. split; [done|]. split; [done|].
    split; [by destruct (enable_safe_overflow m)|lia]. }
  destruct (oq_push_rep (receive_channel m) rx ptr Hqr Hov) as (r & q' & rx' & Hpush & Hrep' & Hl' & Hc' & Heq & Hn);
    [lia|].
  rewrite Hpush. cbn [obind]. do 2 eexists. split; [done|]. exists rx'. split; [done|].
  rewrite Hc1 in *. split; [done|]. split.
  { intros Hso. apply Hn. rewrite Hso in Ef. cbn in Ef. lia. }
  pose proof (oq_push_position _ _ _ _ _ Hqr Hov Hpush).
  assert (Z.of_nat (length rx') ≤ Z.of_nat (length rx) + 1).
  { apply (f_equal length) in Heq. rewrite !length_app in Heq. cbn in Heq. lia. }
  constructor; cbn; try done; try lia.
  trans (rx ++ [ptr] ++ bo ++ rt ++ re).
  - rewrite Hcons. solve_Permutation.
  - rewrite app_assoc, Heq. solve_Permutation.
Qed.

Lemma reclaim_inv b k m bc bo se re rx rt :
  conn_inv b k (mkConn m bc bo se re) rx rt →
  Z.of_nat k + buffer_size b + b_max_borrowed_samples b + 4 < USIZE →
  ∃ r m' rt', reclaim m = Return (r, m') ∧ rt = option_list r ++ rt' ∧ (r = None ↔ rt = []) ∧
    conn_inv b k (mkConn m' bc bo se (option_list r ++ re)) rx rt'.
Proof.
  intros Hinv Hk. pose proof (conn_iq_ok _ _ _ _ _ Hinv Hk) as Hov.
  pose proof Hinv as [Hqr Hir Hc1 Hc2 Hmx Hnn Hrl Hct Hbo Hp1 Hp2 Hsp Hcons]. cbn [mgmt borrow_counter borrowed sent returned] in *.
  pose proof (iq_pop_rep _ _ Hir Hov) as Hpop. unfold reclaim. destruct rt as [|x rt].
  - rewrite Hpop. cbn [obind]. exists None. do 2 eexists. split; [done|]. split; [done|].
    split; [done|]. by destruct m.
  - destruct Hpop as (q' & Hpop & Hrep & Hc). rewrite Hpop. cbn [obind].
    exists (Some x). do 2 eexists. split; [done|]. split; [done|]. split; [done|].
    apply iq_pop_position in Hpop. cbn in Hsp.
    constructor; cbn; try done; try lia. rewrite Hcons. solve_Permutation.
Qed.

Lemma receive_inv b k m bc bo se re rx rt :
  conn_inv b k (mkConn m bc bo se re) rx rt →
  Z.of_nat k + buffer_size b + b_max_borrowed_samples b + 4 < USIZE →
  ∃ r m' bc', receive m bc = Return (r, m', bc') ∧
    match r with
    | Err _ => m' = m ∧ bc' = bc ∧ Z.of_nat (length bo) = b_max_borrowed_samples b
    | Ok None => m' = m ∧ bc' = bc ∧ rx = []
    | Ok (Some v) => ∃ rx', rx = v :: rx' ∧
        conn_inv b (S k) (mkConn m' bc' (v :: bo) se re) rx' rt
    end.
Proof.
  intros Hinv Hk. pose proof (conn_oq_ok _ _ _ _ _ Hinv Hk) as Hov.
  pose proof Hinv as [Hqr Hir Hc1 Hc2 Hmx Hnn Hrl Hct Hbo Hp1 Hp2 Hsp Hcons]. cbn [mgmt borrow_counter borrowed sent returned] in *.
  unfold receive. rewrite Hmx. destruct (Z.leb_spec (b_max_borrowed_samples b) bc).
  { do 3 eexists. split; [done|]. split; [done|]. split; [done|]. lia. }
  pose proof (oq_pop_rep _ _ Hqr Hov) as Hpop. destruct rx as [|x rx].
  - rewrite Hpop. cbn [obind]. do 3 eexists. split; [done|]. cbn. by destruct m.
  - destruct Hpop as [-> Hrep]. cbn [obind]. rewrite uadd_ok by lia. cbn [obind].
    do 3 eexists. split; [done|]. cbn. exists rx. split; [done|]. cbn in *.
    constructor; cbn; try done; try lia. rewrite Hcons. solve_Permutation.
Qed.

(** [release] of a borrowed sample always finds room. *)
Lemma release_inv b k m bc bo1 v bo2 se re rx rt :
  conn_inv b k (mkConn m bc (bo1 ++ v :: bo2) se re) rx rt →
  Z.of_nat k + buffer_size b + b_max_borrowed_samples b + 4 < USIZE →
  ∃ m' bc', release m bc v = Return (Ok tt, m', bc') ∧
    conn_inv b (S k) (mkConn m' bc' (bo1 ++ bo2) se re) rx (rt ++ [v]).
Proof.
  intros Hinv Hk. pose proof (conn_iq_ok _ _ _ _ _ Hinv Hk) as Hov.
  pose proof Hinv as [Hqr Hir Hc1 Hc2 Hmx Hnn Hrl Hct Hbo Hp1 Hp2 Hsp Hcons]. cbn [mgmt borrow_counter borrowed sent returned] in *.
  rewrite length_app in *. cbn in *.
  pose proof (iq_push_rep _ _ v Hir Hov) as Hpush. unfold release.
  rewrite (proj2 (Z.ltb_lt _ _)) in Hpush by lia. destruct Hpush as (q' & Hpush & Hrep & Hc).
  rewrite Hpush. cbn [obind]. rewrite usub_ok by lia. cbn [obind].
  do 2 eexists. split; [done|]. apply (iq_push_position _ _ _ _ _ Hir Hov) in Hpush. cbn in Hpush.
  constructor; cbn; rewrite ?length_app; cbn; try done; try lia.
  rewrite Hcons. solve_Permutation.
Qed.

(** What never changes while a connection is in use. *)
Lemma reclaim_overflow_flag m r m' :
  reclaim m = Return (r, m') → enable_safe_overflow m' = enable_safe_overflow m.
Proof.
  unfold reclaim. destruct (IndexQueue.pop _) as [[o q]| |]; [|done..]. by intros [= _ <-].
Qed.

Lemma try_send_overflow_flag m v r m' :
  try_send m v = Return (r, m') → enable_safe_overflow m' = enable_safe_overflow m.
Proof.
  unfold try_send. destruct (IndexQueue.len _); [|done..]. cbn [obind].
  destruct (usub _ _); [|done..]. cbn [obind]. destruct (OverflowQueue.len _); [|done..]. cbn [obind].
  destruct (uadd _ _); [|done..]. cbn [obind]. destruct (_ <=? _); [by intros [= _ <-]|].
  destruct (if negb _ then _ else _) as [[]| |]; [by intros [= _ <-]| |done..]. cbn [obind].
  destruct (OverflowQueue.push _ _) as [[o q]| |]; [|done..]. by intros [= _ <-].
Qed.

Lemma receive_overflow_flag m bc r m' bc' :
  receive m bc = Return (r, m', bc') → enable_safe_overflow m' = enable_safe_overflow m.
Proof.
  unfold receive. destruct (_ <=? _); [by intros [= _ <- _]|].
  destruct (OverflowQueue.pop _) as [[[v|] q]| |]; [| |done..]; cbn [obind]; [|by intros [= _ <- _]].
  destruct (uadd _ _); [|done..]. by intros [= _ <- _].
Qed.

Lemma release_overflow_flag m bc v r m' bc' :
  release m bc v = Return (r, m', bc') → enable_safe_overflow m' = enable_safe_overflow m.
Proof.
  unfold release. destruct (IndexQueue.push _ _) as [[[] q]| |]; [| |done..]; cbn [obind];
    [|by intros [= _ <- _]]. destruct (usub _ _); [|done..]. by intros [= _ <- _].
Qed.

(** With safe overflow, a blocking send never waits. *)
Lemma blocking_send_overflow fuel rx m v :
  enable_safe_overflow m = true → blocking_send fuel rx m v = try_send m v.
Proof. intros Ho. destruct fuel; cbn [blocking_send]; by rewrite Ho. Qed.

(** The values a receiver has borrowed do not matter for the accounting. *)
Lemma conn_inv_borrowed b k m bc bo bo' se re rx rt :
  conn_inv b k (mkConn m bc bo se re) rx rt → length bo' = length bo →
  conn_inv b k (mkConn m bc bo' (rx ++ bo' ++ rt) []) rx rt.
Proof.
  intros [] Hl. constructor; cbn [mgmt borrow_counter borrowed sent returned] in *; try done; try lia.
  by rewrite app_nil_r.
Qed.

Lemma conn_run_inv b m k c :
  conn_inv b 0 (fresh m) [] [] →
  Z.of_nat k + buffer_size b + b_max_borrowed_samples b + 4 < USIZE →
  conn_run (fresh m) k c → ∃ rx rt, conn_inv b k c rx rt.
Proof.
  intros H0 Hk Hrun. remember (fresh m) as c0 eqn:Hc0. revert H0 Hk.
  induction Hrun as [c|c k c' l c'' Hrun IH Hstep]; intros H0 Hk; [eauto|].
  destruct IH as (rx & rt & Hinv); try done; [lia|]. destruct Hstep.
  - destruct (try_send_inv _ _ _ _ _ _ _ _ _ ptr Hinv) as (r' & m2 & Hs & Hr); [lia|].
    rewrite H in Hs. injection Hs as <- <-. destruct r as [ev|[]].
    + destruct Hr as (rx' & _ & _ & _ & Hr). eauto.
    + destruct Hr as [-> _]. eauto using conn_inv_weaken.
    + destruct Hr as [-> _]. eauto using conn_inv_weaken.
  - destruct (reclaim_inv _ _ _ _ _ _ _ _ _ Hinv) as (r' & m2 & rt' & Hs & _ & _ & Hr); [lia|].
    rewrite H in Hs. injection Hs as <- <-. eauto using conn_inv_weaken.
  - destruct (receive_inv _ _ _ _ _ _ _ _ _ Hinv) as (r' & m2 & bc2 & Hs & Hr); [lia|].
    rewrite H in Hs. injection Hs as <- <- <-. destruct r as [[v|]|[]].
    + destruct Hr as (rx' & _ & Hr). eauto.
    + destruct Hr as (-> & -> & _). eauto using conn_inv_weaken.
    + destruct Hr as (-> & -> & _). eauto using conn_inv_weaken.
  - destruct (release_inv _ _ _ _ _ _ _ _ _ _ _ Hinv) as (m2 & bc2 & Hs & Hr); [lia|].
    rewrite H in Hs. injection Hs as -> <- <-. eauto.
Qed.

(** C12. The accounting of a connection. Whatever calls sender and receiver make, in
    any order (each call running to its end before the next), no sample is lost
    or duplicated: the samples sent are those in the receive channel, those the
    receiver has borrowed, those in the retrieve channel and those the sender got
    back. The receiver never holds more than it may borrow, no call panics, and
    releasing a borrowed sample always succeeds. *)
Theorem connection_conserves_samples b m k c :
  conn_inv b 0 (fresh m) [] [] →
  Z.of_nat k + buffer_size b + b_max_borrowed_samples b + 4 < USIZE →
  conn_run (fresh m) k c →
  (∃ rx rt, sent c ≡ₚ rx ++ borrowed c ++ rt ++ returned c ∧
     OverflowQueue.queue_rep (receive_channel (mgmt c)) rx ∧
     IndexQueue.queue_rep (retrieve_channel (mgmt c)) rt ∧
     Z.of_nat (length rx) ≤ buffer_size b) ∧
  Z.of_nat (length (borrowed c)) ≤ b_max_borrowed_samples b ∧
  (∀ v, v ∈ borrowed c → ∃ m' bc', release (mgmt c) (borrow_counter c) v = Return (Ok tt, m', bc')) ∧
  (∀ v, safe (try_send (mgmt c) v)) ∧ safe (reclaim (mgmt c)) ∧
  safe (receive (mgmt c) (borrow_counter c)).
Proof.
  intros H0 Hk Hrun. destruct (conn_run_inv b m k c H0 Hk Hrun) as (rx & rt & Hinv).
  pose proof Hinv as [Hqr Hir _ _ _ _ Hrl Hct Hbo _ _ _ Hcons].
  destruct c as [m' bc bo se re]. cbn [mgmt borrow_counter borrowed sent returned] in *. split_and!.
  - by exists rx, rt.
  - lia.
  - intros v (bo1 & bo2 & ->)%list_elem_of_split.
    destruct (release_inv _ _ _ _ _ _ _ _ _ _ _ Hinv Hk) as (m2 & bc2 & Hs & _). eauto.
  - intros v. destruct (try_send_inv _ _ _ _ _ _ _ _ _ v Hinv Hk) as (r & m2 & Hs & _).
    rewrite Hs. by eexists.
  - destruct (reclaim_inv _ _ _ _ _ _ _ _ _ Hinv Hk) as (r & m2 & rt' & Hs & _).
    rewrite Hs. by eexists.
  - destruct (receive_inv _ _ _ _ _ _ _ _ _ Hinv Hk) as (r & m2 & bc2 & Hs & _).
    rewrite Hs. by eexists.
Qed.

(** ** The connection state *)

Lemma count_mid f ts1 pc ts2 :
  count f (ts1 ++ pc :: ts2) = (Nat.b2n (f pc) + count f (ts1 ++ ts2))%nat.
Proof. induction ts1 as [|t ts1 IH]; [done|]. cbn. rewrite IH. lia. Qed.

Definition port_wf (pc : port_pc) : Prop :=
  match pc with
  | PReserve b cur => is_port b ∧ (cur = State_None ∨ cur = 3 - b)
  | PConnected b | PCleanupLoad b | PCleanup b _ => is_port b
  | _ => True
  end.

(** The state byte says who is connected: [s] and [r] whether there is a sender
    and a receiver, [d] whether the connection is marked for destruction. *)
Record ports_inv (p : ports) (s r d : bool) : Prop := {
  pi_cell : cell p = if d then State_MarkedForDestruction else Z.b2z s + 2 * Z.b2z r;
  pi_sender : count (holds State_Sender) (procs p) = Nat.b2n s;
  pi_receiver : count (holds State_Receiver) (procs p) = Nat.b2n r;
  pi_dead : d = true → s = false ∧ r = false;
  pi_removed : (count removing (procs p) + removed p)%nat = Nat.b2n d;
  pi_wf : Forall port_wf (procs p)
}.

Ltac port_unfold :=
  unfold is_port, State_None, State_Sender, State_Receiver, State_MarkedForDestruction in *.

(** Re-establish the invariant of the ports for concrete bits. *)
Ltac port_solve Hmk :=
  apply Hmk; cbn; port_unfold; solve [done | lia].

Lemma port_access_inv c n ts1 pc ts2 c' pc' s r d :
  ports_inv (mkPorts c n (ts1 ++ pc :: ts2)) s r d → pc ≠ PRemove → port_step c pc = (c', pc') →
  ∃ s' r' d', ports_inv (mkPorts c' n (ts1 ++ pc' :: ts2)) s' r' d'.
Proof.
  intros [Hc Hs Hr Hd Hm Hwf] Hpc Hst. cbn in *. rewrite count_mid in Hs, Hr, Hm.
  apply Forall_app in Hwf as [Hwf1 [Hp Hwf2]%Forall_cons].
  assert (∀ (c2 : Z) (pc2 : port_pc) (s' r' d' : bool),
    c2 = (if d' then State_MarkedForDestruction else Z.b2z s' + 2 * Z.b2z r') →
    (Nat.b2n (holds State_Sender pc2) + Nat.b2n s = Nat.b2n (holds State_Sender pc) + Nat.b2n s')%nat →
    (Nat.b2n (holds State_Receiver pc2) + Nat.b2n r = Nat.b2n (holds State_Receiver pc) + Nat.b2n r')%nat →
    (d' = true → s' = false ∧ r' = false) →
    (Nat.b2n (removing pc2) + Nat.b2n d = Nat.b2n (removing pc) + Nat.b2n d')%nat →
    port_wf pc2 → ports_inv (mkPorts c2 n (ts1 ++ pc2 :: ts2)) s' r' d') as Hmk.
  { intros. constructor; cbn; rewrite ?count_mid; try done; try lia.
    apply Forall_app. split; [done|]. by constructor. }
  destruct pc as [|bit cur|bit|bit|bit cur|]; cbn in Hst; try done.
  - injection Hst as <- <-. exists s, r, d. by apply Hmk.
  - destruct Hp as [Hb Hcur]. unfold compare_exchange in Hst.
    destruct (Z.eqb_spec c cur) as [<-|Hne].
    + injection Hst as <- <-. subst c. destruct d, s, r, Hb as [-> | ->];
        try (by destruct (Hd eq_refl)); port_unfold; cbn in *; try lia;
        first [exists true, true, false; by port_solve Hmk
              |exists true, false, false; by port_solve Hmk
              |exists false, true, false; by port_solve Hmk].
    + exists s, r, d.
      subst c. destruct d, s, r, Hb as [-> | ->];
        try (by destruct (Hd eq_refl)); port_unfold; cbn in *; injection Hst as <- <-; by port_solve Hmk.
  - injection Hst as <- <-. exists s, r, d. by apply Hmk.
  - injection Hst as <- <-. exists s, r, d. by apply Hmk.
  - unfold compare_exchange in Hst. destruct (Z.eqb_spec c cur) as [<-|Hne].
    + subst c. destruct d, s, r, Hp as [-> | ->];
        try (by destruct (Hd eq_refl)); port_unfold; cbn in *; injection Hst as <- <-; try lia;
        first [exists false, false, true; by port_solve Hmk
              |exists true, false, false; by port_solve Hmk
              |exists false, true, false; by port_solve Hmk].
    + injection Hst as <- <-. exists s, r, d. by apply Hmk.
Qed.

Lemma ports_step_inv p l p' s r d :
  ports_inv p s r d → ports_step p l p' →
  (∃ s' r' d', ports_inv p' s' r' d') ∧ (∀ c, l = Some c → c = State_MarkedForDestruction).
Proof.
  intros Hinv Hst. destruct Hst as [c n ts1 ts2 bit Hb|c n ts1 ts2 bit|c n ts1 pc ts2 c' pc' Hpc Hst|c n ts1 ts2].
  - split; [|done]. exists s, r, d. destruct Hinv as [Hc Hs Hr Hd Hm Hwf]. cbn in *.
    rewrite count_mid in Hs, Hr, Hm. apply Forall_app in Hwf as [? [? ?]%Forall_cons].
    constructor; cbn; rewrite ?count_mid; try done.
    apply Forall_app. split; [done|]. constructor; [|done]. split; [done|]. by left.
  - split; [|done]. exists s, r, d. destruct Hinv as [Hc Hs Hr Hd Hm Hwf]. cbn in *.
    rewrite count_mid in Hs, Hr, Hm. apply Forall_app in Hwf as [? [? ?]%Forall_cons].
    constructor; cbn; rewrite ?count_mid; try done. apply Forall_app. by split; [|constructor].
  - split; [by eapply port_access_inv|done].
  - destruct Hinv as [Hc Hs Hr Hd Hm Hwf]. cbn in *. rewrite count_mid in Hs, Hr, Hm. cbn in *.
    assert (d = true) as -> by (destruct d; [done|cbn in Hm; lia]). split; [|by intros ? [= <-]].
    exists s, r, true. apply Forall_app in Hwf as [? [? ?]%Forall_cons].
    constructor; cbn; rewrite ?count_mid; try done; cbn in *; try lia.
    apply Forall_app. by split; [|constructor].
Qed.

Lemma ports_reachable n p tr :
  steps ports_step (mkPorts State_None 0 (replicate n PIdle)) tr p →
  (∃ s r d, ports_inv p s r d) ∧ Forall (λ c, c = State_MarkedForDestruction) tr.
Proof.
  revert p tr. apply (steps_invariant ports_step (λ p tr,
    (∃ s r d, ports_inv p s r d) ∧ Forall (λ c, c = State_MarkedForDestruction) tr)).
  - split; [|done]. exists false, false, false.
    assert (∀ f, f PIdle = false → count f (replicate n PIdle) = 0%nat) as Hz.
    { intros f Hf. induction n as [|n IH]; [done|]. cbn. by rewrite Hf, IH. }
    constructor; cbn; try done; rewrite ?Hz by done; try done. by apply Forall_replicate.
  - intros p tr p' _ ((s & r & d & Hinv) & HF) Hst.
    destruct (ports_step_inv _ _ _ _ _ _ Hinv Hst) as [Hinv' _]. done.
  - intros p tr l p' _ ((s & r & d & Hinv) & HF) Hst.
    destruct (ports_step_inv _ _ _ _ _ _ Hinv Hst) as [Hinv' Hl]. split; [done|].
    apply Forall_app. split; [done|]. constructor; [|done]. by apply Hl.
Qed.

Lemma marked_forever p l p' s r d :
  ports_inv p s r d → ports_step p l p' → cell p = State_MarkedForDestruction →
  cell p' = State_MarkedForDestruction.
Proof.
  intros Hinv Hst Hc. destruct Hst as [| |c n ts1 pc ts2 c' pc' Hpc Hst|]; try done. cbn in *.
  subst c. destruct Hinv as [Hcell Hs Hr Hd Hm Hwf]. cbn in *.
  assert (d = true) as -> by (destruct d, s, r; done). destruct (Hd eq_refl) as [-> ->].
  rewrite count_mid in Hs, Hr. apply Forall_app in Hwf as [_ [Hp _]%Forall_cons].
  destruct pc as [|bit cur|bit|bit|bit cur|]; cbn in Hst; try by injection Hst as <- <-.
  - destruct Hp as [Hb Hcur]. unfold compare_exchange in Hst.
    destruct (Z.eqb_spec State_MarkedForDestruction cur) as [<-|]; [|by injection Hst as <- <-].
    port_unfold. lia.
  - exfalso. destruct Hp as [-> | ->]; cbn in *; lia.
Qed.

(** C14. The ports of a connection: any number of processes connect and disconnect
    as sender or receiver, interleaved at the accesses to the state byte. At most
    one process is connected in each role, and the state byte says which; the
    shared memory is removed at most once, only after the last port has left, and
    from then on nobody connects any more. *)
Theorem connection_ports_exclusive n p tr :
  steps ports_step (mkPorts State_None 0 (replicate n PIdle)) tr p →
  (count (holds State_Sender) (procs p) ≤ 1)%nat ∧
  (count (holds State_Receiver) (procs p) ≤ 1)%nat ∧
  (cell p = Z.lor State_Sender State_Receiver ↔
     count (holds State_Sender) (procs p) = 1%nat ∧ count (holds State_Receiver) (procs p) = 1%nat) ∧
  (removed p ≤ 1)%nat ∧ Forall (λ c, c = State_MarkedForDestruction) tr ∧
  (cell p = State_MarkedForDestruction →
     count (holds State_Sender) (procs p) = 0%nat ∧ count (holds State_Receiver) (procs p) = 0%nat ∧
     ∀ l p', ports_step p l p' → cell p' = State_MarkedForDestruction).
Proof.
  intros Hst. destruct (ports_reachable n p tr Hst) as ((s & r & d & Hinv) & HF).
  pose proof Hinv as [Hc Hs Hr Hd Hm _]. rewrite Hs, Hr.
  split_and!; [by destruct s; cbn; lia|by destruct r; cbn; lia| | |done|].
  - rewrite Hc. destruct d; [destruct (Hd eq_refl) as [-> ->]|destruct s, r];
      split; first [done | by intros [? ?]].
  - destruct d; cbn in Hm; lia.
  - intros Hcell. assert (d = true) as -> by (rewrite Hc in Hcell; destruct d, s, r; done).
    destruct (Hd eq_refl) as [-> ->]. split_and!; try done.
    intros l p' Hstep. by eapply marked_forever.
Qed.

(** The port operations that run alone. *)
Lemma reserve_and_cleanup bit other :
  is_port bit → other = 0 ∨ other = 3 - bit →
  reserve_port other bit = Return (Ok tt, other + bit) ∧
  reserve_port (other + bit) bit = Return (Err AnotherInstanceIsAlreadyConnected, other + bit) ∧
  reserve_port State_MarkedForDestruction bit =
    Return (Err CreationInternalError, State_MarkedForDestruction) ∧
  cleanup_shared_memory (other + bit) bit =
    Return (if other =? 0 then (true, State_MarkedForDestruction) else (false, other)).
Proof. intros [-> | ->] [-> | ->]; split_and!; reflexivity. Qed.

(** [try_send] is its accesses: a sender that runs alone through the access
    sequence does exactly what [try_send] does, errors and panics included. *)
Theorem send_solo_run_is_try_send m ptr : send_run 5 m (SRetrieveLen ptr) = try_send m ptr.
Proof.
  unfold try_send. cbn [send_run send_step].
  destruct (IndexQueue.len (retrieve_channel m)); cbn [obind]; [|done..].
  destruct (usub _ _); cbn [obind]; [|done..]. cbn [send_step].
  destruct (OverflowQueue.len (receive_channel m)); cbn [obind]; [|done..].
  destruct (uadd (max_borrowed_samples m) _); cbn [obind]; [|done..].
  destruct (_ <=? _); [done|]. destruct (enable_safe_overflow m); cbn [negb obind send_step].
  - destruct (OverflowQueue.push _ _) as [[r q]| |]; done.
  - destruct (OverflowQueue.is_full _) as [[]| |]; cbn [obind]; try done. cbn [send_step].
    destruct (OverflowQueue.push _ _) as [[r q]| |]; done.
Qed.
End Theorems.

(** ** Where the accounting breaks *)

(** One sample of buffer, one sample to borrow. *)
Definition tiny : Builder := mkBuilder 1 false 1.

Definition send_all (ptr : Z) : list action := [AStart ptr; ASender; ASender; ASender; ASender].

(** The sender reads the fill level of the retrieve channel before that of the
    receive channel. If the receiver releases one sample and receives another in
    between, that sample is counted in neither, the sender sends one sample too
    many, and a later [release] of a borrowed sample fails with
    [RetrieveBufferFull], which [try_send] is meant to exclude: the sample is
    never returned. *)
Theorem release_fails_after_race (P : Profile) :
  (let! m := setup_new_connection 64 tiny 4096 in
   let! l := link_run (mkLink m 0 (SDone (Ok None)) [])
     (send_all 10 ++ [AReceive; ARelease 10] ++ send_all 20 ++ [AReceive] ++ send_all 30 ++
      [AStart 40; ASender; ARelease 20; AReceive; ASender; ASender; ASender] ++
      [ARelease 30; AReceive; ARelease 40]) in
   Return (l_sender l, l_releases l)) =
  Return (SDone (Ok None), [Ok tt; Ok tt; Ok tt; Err RetrieveBufferFull]).
Proof. vm_compute. reflexivity. Qed.

(** Opening a connection that its creator has not finished yet: the condition
    of the waiting loop is inverted. If the first two looks at the permissions
    find the connection unfinished, [create_or_open_shm] fails with
    [ConnectionMaybeCorrupted] without having waited at all; and a finished
    connection is waited for. *)
Theorem unfinished_connection_not_waited_for (P : Profile) fuel b os m :
  (perm os 0 = Some false → perm os 1 = Some false →
   wait_for_creation (S fuel) os 0 0 = Return (Ok (1%nat, 0%nat)) ∧
   open_existing (S fuel) b os m = Return (Err ConnectionMaybeCorrupted)) ∧
  (perm os 0 = Some true → wait os 0 = Some 0 →
   wait_for_creation (S fuel) os 0 0 = Return (Ok (1%nat, 1%nat))).
Proof.
  split.
  - intros H0 H1. unfold open_existing. cbn [wait_for_creation]. rewrite H0. cbn. by rewrite H1.
  - intros H0 H1. cbn [wait_for_creation]. by rewrite H0, H1.
Qed.

(** ** Witnesses *)

Section Witnesses.
#[local] Instance conn_checked : Profile := true.

Lemma connection_setup_succeeds_witness :
  ∃ m, setup_new_connection 200 builder_new 4096 = Return m ∧ state m = State_None.
Proof.
  destruct (connection_setup_succeeds 200 builder_new 4096) as (m & Hm & _ & Hs & _);
    [done|done|lia|lia|reflexivity|]. exists m. split; [exact Hm|exact Hs].
Defined.

(** Two samples sent, one of them received. *)
Lemma tiny_run :
  ∃ m c, conn_inv tiny 0 (fresh m) [] [] ∧ conn_run (fresh m) 2 c ∧ borrowed c = [10] ∧ sent c = [10].
Proof.
  destruct (setup_ok 64 tiny 4096) as (m & Hm & Hi & _); [done|done|lia|lia|reflexivity|].
  injection Hm as <-. do 2 eexists. split; [exact Hi|]. split.
  - eapply run_step; [eapply run_step; [apply run_refl|]|].
    + apply (step_send _ 0 [] [] [] 10). reflexivity.
    + apply step_receive. reflexivity.
  - split; reflexivity.
Qed.

Lemma connection_conserves_samples_witness :
  ∃ m c, conn_run (fresh m) 2 c ∧ borrowed c = [10] ∧ 
    ∃ m' bc', release (mgmt c) (borrow_counter c) 10 = Return (Ok tt, m', bc').
Proof.
  destruct tiny_run as (m & c & Hi & Hr & Hb & _).
  destruct (connection_conserves_samples tiny m 2 c Hi) as (_ & _ & Hrel & _);
    [reflexivity|exact Hr|]. exists m, c. split; [exact Hr|]. split; [exact Hb|].
  apply Hrel. rewrite Hb. left.
Defined.

Lemma connection_ports_exclusive_witness :
  (count (holds State_Sender) [PConnected State_Sender; PReserve State_Receiver State_None] ≤ 1)%nat.
Proof.
  apply (connection_ports_exclusive 2
    (mkPorts State_Sender 0 [PConnected State_Sender; PReserve State_Receiver State_None]) []).
  eapply steps_silent.
  2: { apply (port_access State_None 0 [] (PReserve State_Sender State_None)
         [PReserve State_Receiver State_None]); [done|reflexivity]. }
  eapply steps_silent; [|apply (port_connect _ _ [PReserve State_Sender State_None] []); by right].
  eapply steps_silent; [|apply (port_connect _ _ [] [PIdle]); by left].
  apply steps_refl.
Defined.

Lemma unfinished_connection_witness :
  open_existing 1 builder_new (mkOs (λ _, Some false) (λ _, None))
    (mgmt_new 4 9 false 4) = Return (Err ConnectionMaybeCorrupted).
Proof.
  apply (unfinished_connection_not_waited_for true 0 builder_new
    (mkOs (λ _, Some false) (λ _, None)) (mgmt_new 4 9 false 4)); reflexivity.
Defined.
End Witnesses.
