(* ===== verification/Container.v ===== *)
(** * elkodon_bb/lock_free/src/mpmc/container.rs

    The lock-free container that lists the ports of a service: an index set, a
    flag per index that says whether the element is active, and the elements;
    readers keep a [ContainerState] that they bring up to date when the head of
    the index set has changed.

    - sequential operations; the content of a container as a list of optional
      values, which every operation and every snapshot is proved against;
    - writers and a reader interleaved at their atomic accesses, and the schedule
      in which a reader never learns of an element. *)

From S2P Require Import Prelude Elementary UniqueIndexSet.

Section Container.
Context `{P : Profile} {T : Type}.

(** ** Data *)

(** [active_index] and [data] are the memory behind the two pointers. *)
Record Container := mkContainer {
  active_index : list bool;
  data : list (option T);
  c_capacity : Z;
  c_is_memory_initialized : bool;
  index_set : UniqueIndexSet
}.

Record ContainerState := mkContainerState {
  current_index_set_head : Z;
  s_data : list (option (Z * T));
  s_active_index : list bool
}.

Definition set_active (c : Container) a :=
  mkContainer a (data c) (c_capacity c) (c_is_memory_initialized c) (index_set c).
Definition set_data (c : Container) d :=
  mkContainer (active_index c) d (c_capacity c) (c_is_memory_initialized c) (index_set c).
Definition set_index_set (c : Container) s :=
  mkContainer (active_index c) (data c) (c_capacity c) (c_is_memory_initialized c) s.

(** ** Construction *)

Definition c_new_uninit (cap : Z) : Container :=
  mkContainer [] [] cap false (UniqueIndexSet.new_uninit cap).

(** [init], for elements of the size and alignment of [layout]. *)
Definition c_init {S} `{BaseAllocator S} (layout : Layout) (c : Container) (allocator : S)
    : outcome (result unit AllocationError * Container * S) :=
  if c_is_memory_initialized c then Panic
  else
    let! '(r, i, allocator) := UniqueIndexSet.init (index_set c) allocator in
    let c := set_index_set c i in
    match r with
    | Err e => Return (Err e, c, allocator)
    | Ok _ =>
        let! '(r, allocator) := allocate allocator (mkLayout (c_capacity c) 1) in
        match r with
        | Err e => Return (Err e, c, allocator)
        | Ok ca =>
            let! size := umul (l_size layout) (c_capacity c) in
            let! '(r, allocator) := allocate allocator (mkLayout size (l_align layout)) in
            match r with
            | Err e => Return (Err e, c, allocator)
            | Ok cd =>
                if (c_capacity c <=? c_len ca) && (size <=? c_len cd) then
                  Return (Ok tt,
                    mkContainer (replicate (Z.to_nat (c_capacity c)) false)
                      (replicate (Z.to_nat (c_capacity c)) None) (c_capacity c) true (index_set c),
                    allocator)
                else Undefined
            end
        end
    end.

Definition c_const_memory_size (layout : Layout) (cap : Z) : outcome Z :=
  let! n := uadd cap 1 in
  let! a := umul 4 n in
  let! e := uadd 1 (l_size layout) in
  let! b := umul e cap in
  let! s := uadd a b in
  let! s := uadd s 4 in
  let! s := usub s 1 in
  let! s := uadd s (l_align layout) in
  usub s 1.

(** [FixedSizeContainer::default] *)
Definition fixed_size_container (CAPACITY : Z) : Container :=
  mkContainer (replicate (Z.to_nat CAPACITY) false) (replicate (Z.to_nat CAPACITY) None) CAPACITY
    true (UniqueIndexSet.fixed_size_new CAPACITY).

Definition verify_memory_initialization (c : Container) : outcome unit :=
  if c_is_memory_initialized c then Return tt else Panic.

(** ** Adding and removing *)

(** The callback [add] attaches to the index: it runs when the index is
    dropped. *)
Definition deactivate (index : Z) (c : Container) : outcome Container :=
  let! a := raw_write (active_index c) index false in Return (set_active c a).

(** The returned [UniqueIndex] carries the callback. *)
Definition add (c : Container) (v : T) : outcome (option (UniqueIndex Container) * Container) :=
  let! _ := verify_memory_initialization c in
  let! '(r, s) := acquire_with_additional_cleanup (index_set c) deactivate in
  let c := set_index_set c s in
  match r with
  | Some index =>
      let! d := raw_write (data c) (value index) (Some v) in
      let c := set_data c d in
      let! a := raw_write (active_index c) (value index) true in
      Return (Some index, set_active c a)
  | None => Return (None, c)
  end.

(** Dropping the index [add] returned. *)
Definition drop_index (i : UniqueIndex Container) (c : Container) : outcome Container :=
  let! c := match cleanup_callback i with Some f => f (value i) c | None => Return c end in
  let! s := release_raw_index (index_set c) (value i) in
  Return (set_index_set c s).

Definition remove_raw_index (c : Container) (index : Z) : outcome Container :=
  let! _ := verify_memory_initialization c in
  let! a := raw_write (active_index c) index false in
  let c := set_active c a in
  let! s := release_raw_index (index_set c) index in
  Return (set_index_set c s).

(** ** Snapshots *)

(** One round of the inner loop of [update_state]. *)
Definition copy_element (c : Container) (i : Z) (st : ContainerState) : outcome ContainerState :=
  let! a := raw_read (active_index c) i in
  let! sa := raw_write (s_active_index st) i a in
  let! sd :=
    (if a : bool then
       let! v := raw_read (data c) i in
       raw_write (s_data st) i ((λ v, (wrap U32 i, v)) <$> v)
     else Return (s_data st)) in
  Return (mkContainerState (current_index_set_head st) sd sa).

(** The inner loop: it repeats as long as the head changes. *)
Fixpoint copy_loop (fuel : nat) (c : Container) (i cur : Z) (st : ContainerState)
    : outcome (Z * ContainerState) :=
  match fuel with
  | O => Undefined
  | S fuel =>
      let! st := copy_element c i st in
      let new := head (index_set c) in
      if new =? cur then Return (cur, st) else copy_loop fuel c i new st
  end.

Fixpoint update_loop (todo : list Z) (c : Container) (cur : Z) (st : ContainerState)
    : outcome ContainerState :=
  match todo with
  | [] => Return st
  | i :: todo => let! '(cur, st) := copy_loop 2 c i cur st in update_loop todo c cur st
  end.

Definition update_state (c : Container) (st : ContainerState) : outcome (bool * ContainerState) :=
  let cur := head (index_set c) in
  if current_index_set_head st =? cur then Return (false, st)
  else
    let st := mkContainerState cur (s_data st) (s_active_index st) in
    let! st := update_loop (indices (c_capacity c)) c cur st in
    Return (true, st).

Definition get_state (c : Container) : outcome ContainerState :=
  let! _ := verify_memory_initialization c in
  let n := Z.to_nat (c_capacity c) in
  let! '(_, st) := update_state c (mkContainerState 0 (replicate n None) (replicate n false)) in
  Return st.

(** [for_each]: the elements in the order of the calls of the callback;
    reading an element that was never written is undefined. *)
Fixpoint for_each_loop (acts : list bool) (ds : list (option (Z * T))) : outcome (list (Z * T)) :=
  match acts, ds with
  | [], [] => Return []
  | a :: acts, d :: ds =>
      let! r := for_each_loop acts ds in
      if a : bool then match d with Some e => Return (e :: r) | None => Undefined end
      else Return r
  | _, _ => Panic
  end.

Definition for_each (st : ContainerState) : outcome (list (Z * T)) :=
  for_each_loop (s_active_index st) (s_data st).

(** ** Interleaving: writers and a reader *)

Inductive pc :=
| WAcquire (v : T)
| WWriteData (i : Z) (v : T)
| WActivate (i : Z)
| WAdded (i : option Z)
| WDeactivate (i : Z)
| WRelease (i : Z)
| WRemoved
| ULoadHead (st : ContainerState)
| UCopy (i : Z) (todo : list Z) (cur : Z) (st : ContainerState)
| UCheck (i : Z) (todo : list Z) (cur : Z) (st : ContainerState)
| UDone (changed : bool) (st : ContainerState).

(** The reader goes on with the next index or is done. *)
Definition next_index (todo : list Z) (cur : Z) (st : ContainerState) : pc :=
  match todo with [] => UDone true st | i :: todo => UCopy i todo cur st end.

Definition thread_step (c : Container) (t : pc) : outcome (Container * pc) :=
  match t with
  | WAcquire v =>
      let! '(r, s) := acquire_raw_index (index_set c) in
      Return (set_index_set c s, match r with Some i => WWriteData i v | None => WAdded None end)
  | WWriteData i v =>
      let! d := raw_write (data c) i (Some v) in Return (set_data c d, WActivate i)
  | WActivate i =>
      let! a := raw_write (active_index c) i true in Return (set_active c a, WAdded (Some i))
  | WDeactivate i => let! c := deactivate i c in Return (c, WRelease i)
  | WRelease i =>
      let! s := release_raw_index (index_set c) i in Return (set_index_set c s, WRemoved)
  | ULoadHead st =>
      let cur := head (index_set c) in
      Return (c,
        if current_index_set_head st =? cur then UDone false st
        else next_index (indices (c_capacity c)) cur
               (mkContainerState cur (s_data st) (s_active_index st)))
  | UCopy i todo cur st => let! st := copy_element c i st in Return (c, UCheck i todo cur st)
  | UCheck i todo cur st =>
      let new := head (index_set c) in
      Return (c, if new =? cur then next_index todo cur st else UCopy i todo new st)
  | WAdded _ | WRemoved | UDone _ _ => Return (c, t)
  end.

Fixpoint run_schedule (ks : list nat) (c : Container) (ts : list pc) : outcome (Container * list pc) :=
  match ks with
  | [] => Return (c, ts)
  | k :: ks =>
      match ts !! k with
      | None => Panic
      | Some t => let! '(c, t) := thread_step c t in run_schedule ks c (<[k := t]> ts)
      end
  end.

(** ** The content of a container *)

Definition is_some {A} (o : option A) : bool := match o with Some _ => true | None => false end.

(** The elements with their indices, in order. *)
Definition elements_from (k : nat) (content : list (option T)) : list (Z * T) :=
  omap (λ p, (λ v, (Z.of_nat p.1, v)) <$> p.2) (imap (λ j o, ((k + j)%nat, o)) content).
Definition elements : list (option T) → list (Z * T) := elements_from 0.

(** The container holds [content], its modification counter is [aba]. *)
Record container_rep (c : Container) (aba : Z) (content : list (option T)) : Prop := {
  cr_init : c_is_memory_initialized c = true;
  cr_cap : c_capacity c = capacity (index_set c);
  cr_len : Z.of_nat (length content) = c_capacity c;
  cr_active : active_index c = is_some <$> content;
  cr_data_len : length (data c) = length content;
  cr_data : ∀ i v, content !! i = Some (Some v) → data c !! i = Some (Some v);
  cr_set : ∃ fl, set_rep (index_set c) aba fl ∧ NoDup fl ∧
    (∀ i, 0 ≤ i < c_capacity c → (i ∈ fl ↔ content !! Z.to_nat i = Some None));
  cr_fresh : aba = 0 → Forall (λ o, o = None) content
}.

(** The snapshot shows [content]. *)
Record state_shows (st : ContainerState) (content : list (option T)) : Prop := {
  ss_active : s_active_index st = is_some <$> content;
  ss_len : length (s_data st) = length content;
  ss_data : ∀ i v, content !! i = Some (Some v) → s_data st !! i = Some (Some (Z.of_nat i, v))
}.

(** A snapshot taken when the counter was [aba0]: it shows the content as long as
    the counter has not moved on. *)
Definition state_rep (st : ContainerState) (aba : Z) (content : list (option T)) : Prop :=
  ∃ aba0 h, current_index_set_head st = pack_from_head_and_aba h aba0 ∧ 0 ≤ h < U32 ∧
    0 ≤ aba0 ≤ aba ∧ length (s_data st) = length content ∧
    length (s_active_index st) = length content ∧
    (aba0 = aba → state_shows st content).
End Container.
Arguments Container T : clear implicits.
Arguments ContainerState T : clear implicits.

Section Theorems.
Context `{P : Profile} {T : Type}.
Implicit Types (c : Container T) (st : ContainerState T) (content : list (option T)).

(** ** Adding and removing *)

Lemma active_insert content i o :
  is_some <$> (<[i := o]> content) = <[i := is_some o]> (is_some <$> content).
Proof. by rewrite list_fmap_insert. Qed.

Lemma add_rep c aba content v :
  container_rep c aba content → aba + 1 < U32 →
  ∃ r c', add c v = Return (r, c') ∧
    match r with
    | Some index =>
        content !! Z.to_nat (value index) = Some None ∧ 0 ≤ value index < c_capacity c ∧
        cleanup_callback index = Some deactivate ∧
        container_rep c' (aba + 1) (<[Z.to_nat (value index) := Some v]> content)
    | None => c' = c ∧ Forall (λ o, o ≠ None) content
    end.
Proof.
  intros Hrep Haba. pose proof Hrep as [Hini Hcap Hlen Hact Hdl Hd (fl & Hset & Hnd & Hfl) Hfr].
  unfold add, verify_memory_initialization, acquire_with_additional_cleanup, UniqueIndexSet.verify_init.
  rewrite Hini. cbn [obind]. pose proof Hset as [Hi2 _ _ _ _ Hch]. rewrite Hi2. cbn [obind].
  pose proof (acquire_rep _ _ _ Hset Hnd Haba) as Hacq. destruct fl as [|x fl].
  - rewrite Hacq. cbn [obind fmap option_fmap option_map]. do 2 eexists. split; [done|].
    split; [by destruct c|]. apply Forall_lookup. intros k o Hk ->.
    pose proof (lookup_lt_Some _ _ _ Hk). destruct (Hfl (Z.of_nat k)) as [_ Hno]; [lia|].
    rewrite Nat2Z.id in Hno. by apply not_elem_of_nil in Hno.
  - destruct Hacq as (s' & -> & Hset' & Hcap'). cbn [obind fmap option_fmap option_map value].
    destruct Hch as (Hx & _). rewrite <- Hcap in Hx.
    destruct (Hfl x Hx) as [Hn _]. specialize (Hn ltac:(left)).
    rewrite raw_write_ok by (cbn; lia). cbn [obind].
    rewrite raw_write_ok by (cbn; rewrite Hact, length_fmap; lia). cbn [obind].
    do 2 eexists. split; [done|]. cbn [value cleanup_callback]. split_and!; try done; try lia.
    apply NoDup_cons in Hnd as [Hni Hnd].
    constructor; cbn; rewrite ?length_insert; try done; try lia.
    + by rewrite Hact, active_insert.
    + intros i w Hi. destruct (decide (i = Z.to_nat x)) as [->|Hne].
      * rewrite list_lookup_insert_eq in Hi by lia. injection Hi as ->.
        by rewrite list_lookup_insert_eq by lia.
      * rewrite list_lookup_insert_ne in Hi |- * by done. by apply Hd.
    + exists fl. split_and!; try done. intros i Hi. destruct (decide (i = x)) as [->|Hne].
      * rewrite list_lookup_insert_eq by lia. by split.
      * rewrite list_lookup_insert_ne by lia. rewrite <- Hfl by done. rewrite elem_of_cons.
        split; [by right|]. by intros [->|?].
    + intros ?. pose proof Hset as [_ _ _ ? _ _]. lia.
Qed.

Lemma remove_rep c aba content i v :
  container_rep c aba content → aba + 1 < U32 → 0 ≤ i → content !! Z.to_nat i = Some (Some v) →
  ∃ c', remove_raw_index c i = Return c' ∧
    drop_index (mkUniqueIndex (Container T) i (Some deactivate)) c = Return c' ∧
    container_rep c' (aba + 1) (<[Z.to_nat i := None]> content).
Proof.
  intros Hrep Haba Hi0 Hi. pose proof Hrep as [Hini Hcap Hlen Hact Hdl Hd (fl & Hset & Hnd & Hfl) Hfr].
  pose proof (lookup_lt_Some _ _ _ Hi) as Hlt. assert (0 ≤ i < c_capacity c) as Hic by lia.
  assert (i ∉ fl) as Hni by (rewrite Hfl by done; rewrite Hi; done).
  destruct (release_rep (index_set c) aba fl i Hset Haba) as (s' & Hrel & Hset' & Hcap'); [lia|done|].
  unfold remove_raw_index, drop_index, deactivate, verify_memory_initialization.
  rewrite Hini. cbn [obind cleanup_callback value].
  rewrite raw_write_ok by (rewrite Hact, length_fmap; lia). cbn [obind index_set set_active].
  rewrite Hrel. cbn [obind]. eexists. split_and!; [done|done|].
  constructor; cbn; rewrite ?length_insert; try done; try lia.
  - by rewrite Hact, active_insert.
  - intros j w Hj. destruct (decide (j = Z.to_nat i)) as [->|Hne].
    + by rewrite list_lookup_insert_eq in Hj by lia.
    + rewrite list_lookup_insert_ne in Hj by done. by apply Hd.
  - exists (i :: fl). split_and!; [done|by constructor|]. intros j Hj.
    destruct (decide (j = i)) as [->|Hne].
    + rewrite list_lookup_insert_eq by lia. split; [done|]. intros _. left.
    + rewrite list_lookup_insert_ne by lia. rewrite <- Hfl by done. rewrite elem_of_cons.
      split; [by intros [->|?]|by right].
  - intros ?. pose proof Hset as [_ _ _ ? _ _]. lia.
Qed.

(** ** Snapshots *)

(** The first [k] entries of the snapshot are up to date. *)
Definition shows_upto (k : nat) st content : Prop :=
  length (s_data st) = length content ∧ length (s_active_index st) = length content ∧
  ∀ i o, (i < k)%nat → content !! i = Some o →
    s_active_index st !! i = Some (is_some o) ∧
    ∀ v, o = Some v → s_data st !! i = Some (Some (Z.of_nat i, v)).

Lemma copy_element_shows c aba content k st o :
  container_rep c aba content → content !! k = Some o → Z.of_nat k < U32 →
  shows_upto k st content →
  ∃ st', copy_element c (Z.of_nat k) st = Return st' ∧
    current_index_set_head st' = current_index_set_head st ∧ shows_upto (S k) st' content.
Proof.
  intros [Hini Hcap Hlen Hact Hdl Hd _ _] Ho Hk (Hl1 & Hl2 & Hsh).
  pose proof (lookup_lt_Some _ _ _ Ho) as Hlt. unfold copy_element.
  rewrite (raw_read_ok _ _ (is_some o)); [|lia|].
  2: { by rewrite Nat2Z.id, Hact, list_lookup_fmap, Ho. }
  cbn [obind]. rewrite raw_write_ok by lia. cbn [obind]. rewrite Nat2Z.id.
  destruct o as [v|]; cbn [is_some].
  - rewrite (raw_read_ok _ _ (Some v)) by (rewrite ?Nat2Z.id; auto with lia). cbn [obind].
    rewrite raw_write_ok by lia. cbn [obind]. eexists. split; [done|]. split; [done|].
    unfold shows_upto. cbn [s_data s_active_index]. rewrite !length_insert, Nat2Z.id. split_and!; try done.
    intros i o' Hi Ho'. destruct (decide (i = k)) as [->|Hne].
    + rewrite Ho in Ho'. injection Ho' as <-. rewrite !list_lookup_insert_eq by lia.
      split; [done|]. intros w [= <-]. cbn. unfold wrap. by rewrite Z.mod_small by lia.
    + rewrite !list_lookup_insert_ne by done. apply Hsh; [lia|done].
  - cbn [obind]. eexists. split; [done|]. split; [done|].
    unfold shows_upto. cbn [s_data s_active_index]. rewrite !length_insert. split_and!; try done.
    intros i o' Hi Ho'. destruct (decide (i = k)) as [->|Hne].
    + rewrite Ho in Ho'. injection Ho' as <-. rewrite !list_lookup_insert_eq by lia. done.
    + rewrite !list_lookup_insert_ne by done. apply Hsh; [lia|done].
Qed.

Lemma update_loop_shows c aba content k n st :
  container_rep c aba content → (k + n = length content)%nat → c_capacity c < U32 →
  shows_upto k st content →
  ∃ st', update_loop (Z.of_nat <$> seq k n) c (head (index_set c)) st = Return st' ∧
    current_index_set_head st' = current_index_set_head st ∧ shows_upto (k + n) st' content.
Proof.
  intros Hrep. revert k st. induction n as [|n IH]; intros k st Hn Hc Hsh; cbn [seq fmap list_fmap update_loop].
  - exists st. by rewrite Nat.add_0_r.
  - destruct (lookup_lt_is_Some_2 content k) as [o Ho]; [lia|]. pose proof (cr_len _ _ _ Hrep).
    destruct (copy_element_shows c aba content k st o Hrep Ho) as (st1 & H1 & Hh1 & Hs1); [lia|done|].
    cbn [copy_loop]. rewrite H1. cbn [obind]. rewrite Z.eqb_refl. cbn [obind].
    destruct (IH (S k) st1) as (st' & H2 & Hh2 & Hs2); [lia|done|done|].
    exists st'. split; [exact H2|]. split; [congruence|]. by replace (k + S n)%nat with (S k + n)%nat by lia.
Qed.

Lemma shows_all st content : shows_upto (length content) st content → state_shows st content.
Proof.
  intros (H1 & H2 & Hsh). constructor; [|done|].
  - apply list_eq. intros i. rewrite list_lookup_fmap.
    destruct (content !! i) as [o|] eqn:Ho; cbn.
    + apply Hsh; [by eapply lookup_lt_Some|done].
    + apply lookup_ge_None. apply lookup_ge_None in Ho. lia.
  - intros i v Hi. eapply Hsh; [by eapply lookup_lt_Some|done|done].
Qed.

Lemma update_state_rep c aba content st :
  container_rep c aba content → c_capacity c < U32 → state_rep st aba content →
  ∃ b st', update_state c st = Return (b, st') ∧ state_rep st' aba content ∧
    state_shows st' content ∧ (b = false → st' = st).
Proof.
  intros Hrep Hcb (aba0 & h & Hh & Hhr & Ha & Hl1 & Hl2 & Hsh).
  pose proof Hrep as [_ Hcap Hlen _ _ _ (fl & Hset & _) _]. unfold update_state.
  pose proof Hset as [_ ? _ Har Hhead Hch].
  assert (0 ≤ List.hd (capacity (index_set c)) fl < U32) as Hhd.
  { pose proof (hd_range (capacity (index_set c)) fl (λ x, chain_bounds _ _ _ x Hch)). lia. }
  destruct (Z.eqb_spec (current_index_set_head st) (head (index_set c))) as [He|Hne].
  - do 2 eexists. split; [done|]. assert (aba0 = aba) as ->.
    { rewrite Hh, Hhead in He. apply (f_equal extract_head_and_aba) in He.
      rewrite !extract_pack in He by (done || lia). by injection He. }
    split; [|by auto]. by exists aba, h.
  - destruct (update_loop_shows c aba content 0 (length content)
      (mkContainerState (head (index_set c)) (s_data st) (s_active_index st)) Hrep)
      as (st' & Hup & Hh' & Hs'); [lia|done|by split_and!; [done|done|lia]|].
    unfold indices. rewrite <- Hlen, Nat2Z.id, Hup. cbn [obind]. do 2 eexists. split; [done|].
    pose proof (shows_all _ _ Hs') as Hall. split_and!; [|done|done].
    exists aba, (List.hd (capacity (index_set c)) fl). rewrite Hh'. cbn.
    destruct Hs' as (? & ? & _). split_and!; try done; lia.
Qed.

(** A snapshot that was brought up to date carries the head it was compared with. *)
Lemma copy_element_head c i st st' : copy_element c i st = Return st' → current_index_set_head st' = current_index_set_head st.
Proof.
  unfold copy_element. destruct (raw_read (active_index c) i) as [a| |]; [|done..]. cbn [obind].
  destruct (raw_write (s_active_index st) i a); [|done..]. cbn [obind].
  destruct a; [|by intros [= <-]]. destruct (raw_read (data c) i); [|done..]. cbn [obind].
  destruct (raw_write _ _ _); [|done..]. by intros [= <-].
Qed.

Lemma update_loop_head c todo : ∀ cur st st',
  update_loop todo c cur st = Return st' → current_index_set_head st' = current_index_set_head st.
Proof.
  assert (∀ fuel i cur st x st', copy_loop fuel c i cur st = Return (x, st') →
    current_index_set_head st' = current_index_set_head st) as Hcopy.
  { induction fuel as [|fuel IH]; intros i cur st x st'; [done|]. cbn [copy_loop].
    destruct (copy_element c i st) as [st1| |] eqn:E; [|done..]. apply copy_element_head in E. cbn [obind].
    destruct (_ =? _); [by intros [= _ <-]|]. intros ->%IH. done. }
  induction todo as [|i todo IH]; intros cur st st'; [by intros [= <-]|]. cbn [update_loop].
  destruct (copy_loop 2 c i cur st) as [[x st1]| |] eqn:E; [|done..]. apply Hcopy in E. cbn [obind].
  intros ->%IH. done.
Qed.

Lemma update_state_head c st r st' :
  update_state c st = Return (r, st') → current_index_set_head st' = head (index_set c).
Proof.
  unfold update_state. destruct (Z.eqb_spec (current_index_set_head st) (head (index_set c))) as [He|_].
  { by intros [= _ <-]. }
  destruct (update_loop _ _ _ _) as [st1| |] eqn:E; [|done..]. apply update_loop_head in E. by intros [= _ <-].
Qed.

Lemma get_state_rep c aba content :
  container_rep c aba content → c_capacity c < U32 →
  ∃ st, get_state c = Return st ∧ state_rep st aba content ∧ state_shows st content.
Proof.
  intros Hrep Hcb. unfold get_state, verify_memory_initialization. rewrite (cr_init _ _ _ Hrep). cbn [obind].
  pose proof (cr_len _ _ _ Hrep) as Hlen.
  destruct (update_state_rep c aba content (mkContainerState 0
    (replicate (Z.to_nat (c_capacity c)) None) (replicate (Z.to_nat (c_capacity c)) false)) Hrep Hcb)
    as (b & st' & H1 & H2 & H3 & _).
  { exists 0, 0. cbn. rewrite !length_replicate. pose proof Hrep as [_ _ _ _ _ _ (? & [_ _ _ ? _ _] & _) Hfr].
    split_and!; try done; try lia. intros Ha. symmetry in Ha. specialize (Hfr Ha).
    rewrite <- Hlen, Nat2Z.id. apply shows_all. split_and!; cbn; rewrite ?length_replicate; try done.
    intros i o Hi Ho. rewrite Forall_lookup in Hfr. pose proof (Hfr _ _ Ho) as ->.
    by rewrite lookup_replicate_2. }
  rewrite H1. cbn [obind]. by exists st'.
Qed.

Lemma for_each_from content k acts ds :
  acts = is_some <$> content → length ds = length content →
  (∀ i v, content !! i = Some (Some v) → ds !! i = Some (Some (Z.of_nat (k + i), v))) →
  for_each_loop acts ds = Return (elements_from k content).
Proof.
  revert k acts ds. induction content as [|o content IH]; intros k acts ds -> Hl Hd.
  - by destruct ds.
  - destruct ds as [|d ds]; [done|]. cbn [fmap list_fmap for_each_loop].
    rewrite (IH (S k)); [|done|by injection Hl|].
    2: { intros i v Hi. specialize (Hd (S i) v Hi). cbn in Hd.
         by replace (S k + i)%nat with (k + S i)%nat by lia. }
    cbn [obind]. unfold elements_from. cbn [imap]. rewrite Nat.add_0_r.
    assert (imap (λ j o0, ((k + S j)%nat, o0)) content = imap (λ j o0, ((S k + j)%nat, o0)) content) as Himap.
    { apply imap_ext. intros j x Hj. f_equal. lia. }
    unfold compose. rewrite Himap. destruct o as [v|]; cbn.
    + specialize (Hd 0%nat v eq_refl). cbn in Hd. injection Hd as ->. by rewrite Nat.add_0_r.
    + done.
Qed.

Lemma for_each_shows st content : state_shows st content → for_each st = Return (elements content).
Proof. intros [Ha Hl Hd]. by apply for_each_from. Qed.

Lemma state_rep_later st aba content aba' content' :
  state_rep st aba content → aba < aba' → length content' = length content →
  state_rep st aba' content'.
Proof.
  intros (aba0 & h & Hh & Hhr & Ha & Hl1 & Hl2 & _) Hlt Hlen. exists aba0, h.
  split_and!; try done; try lia.
Qed.

Lemma fixed_size_container_rep cap :
  0 ≤ cap → cap + 1 < U32 →
  container_rep (fixed_size_container (T := T) cap) 0 (replicate (Z.to_nat cap) None).
Proof.
  intros H0 H1. constructor; cbn; rewrite ?length_replicate; try done; try lia.
  - unfold wrap. by rewrite Z.mod_small by lia.
  - by rewrite fmap_replicate.
  - exists (indices cap). split_and!; [by apply fixed_size_rep|apply indices_NoDup|].
    intros i Hi. rewrite indices_spec, lookup_replicate_2 by lia. done.
  - intros _. by apply Forall_replicate.
Qed.

(** C39. The container of the ports of a service. On a container with the content
    [content], [add] stores its value at a free index ([None] exactly when there
    is none) and removing an index (by dropping the handle or directly) deletes
    its element and nothing else; a snapshot from [get_state], or any older
    snapshot brought up to date with [update], lists exactly the stored elements
    with their indices, and [update] answers [false] only if the snapshot was
    up to date already. *)
Theorem container_correct c aba content v st :
  container_rep c aba content → aba + 1 < U32 → c_capacity c < U32 → state_rep st aba content →
  (∃ r c', add c v = Return (r, c') ∧
     match r with
     | Some index =>
         content !! Z.to_nat (value index) = Some None ∧
         container_rep c' (aba + 1) (<[Z.to_nat (value index) := Some v]> content) ∧
         state_rep st (aba + 1) (<[Z.to_nat (value index) := Some v]> content)
     | None => c' = c ∧ Forall (λ o, o ≠ None) content
     end) ∧
  (∀ i w, 0 ≤ i → content !! Z.to_nat i = Some (Some w) →
     ∃ c', remove_raw_index c i = Return c' ∧
       drop_index (mkUniqueIndex (Container T) i (Some deactivate)) c = Return c' ∧
       container_rep c' (aba + 1) (<[Z.to_nat i := None]> content) ∧
       state_rep st (aba + 1) (<[Z.to_nat i := None]> content)) ∧
  (∃ b st', update_state c st = Return (b, st') ∧ state_rep st' aba content ∧
     for_each st' = Return (elements content) ∧ (b = false → st' = st)) ∧
  (∃ st', get_state c = Return st' ∧ state_rep st' aba content ∧
     for_each st' = Return (elements content)).
Proof.
  intros Hrep Haba Hcb Hst. split_and!.
  - destruct (add_rep c aba content v Hrep Haba) as (r & c' & Hadd & Hr).
    exists r, c'. split; [done|]. destruct r as [index|]; [|done].
    destruct Hr as (Hn & _ & _ & Hrep'). split_and!; try done.
    eapply state_rep_later; [done|lia|by rewrite length_insert].
  - intros i w Hi Hw. destruct (remove_rep c aba content i w Hrep Haba Hi Hw) as (c' & H1 & H2 & H3).
    exists c'. split_and!; try done. eapply state_rep_later; [done|lia|by rewrite length_insert].
  - destruct (update_state_rep c aba content st Hrep Hcb Hst) as (b & st' & H1 & H2 & H3 & H4).
    exists b, st'. split_and!; try done. by apply for_each_shows.
  - destruct (get_state_rep c aba content Hrep Hcb) as (st' & H1 & H2 & H3). exists st'.
    split_and!; try done. by apply for_each_shows.
Qed.
End Theorems.

(** ** A reader that misses an element *)

Definition empty_state : ContainerState Z := mkContainerState 0 [None; None] [false; false].

(** A reader can miss an element for good: the head of the index set changes
    when a writer acquires its index, the element becomes active only later. A
    reader that updates its snapshot in between does not see the element, and all
    its later updates answer that nothing has changed although the element is in
    the container. *)
Theorem reader_misses_element (P : Profile) :
  (let! '(c, ts) := run_schedule ([0] ++ replicate 10 1 ++ replicate 2 0)%nat
     (fixed_size_container 2) [WAcquire 7; ULoadHead empty_state] in
   match ts with
   | [WAdded i; UDone changed st] =>
       let! '(changed', st') := update_state c st in
       let! seen := for_each st' in
       let! fresh := get_state c in
       let! content := for_each fresh in
       Return (i, changed, changed', seen, content)
   | _ => Panic
   end) = Return (Some 0, true, false, [], [(0, 7)]).
Proof. vm_compute. reflexivity. Qed.

(** ** Witness *)

Lemma container_correct_witness :
  let c := fixed_size_container (T := Z) 2 in
  ∃ b st', update_state c empty_state = Return (b, st') ∧ for_each st' = Return [].
Proof.
  destruct (container_correct (P := true) (fixed_size_container (T := Z) 2) 0 [None; None] 5 empty_state)
    as (_ & _ & (b & st' & H1 & _ & H2 & _) & _).
  - apply (fixed_size_container_rep 2); unfold U32; lia.
  - reflexivity.
  - reflexivity.
  - exists 0, 0. split_and!; try done; try lia. intros _. constructor; try done.
    intros [|[|i]] v Hi; done.
  - exists b, st'. split; [exact H1|exact H2].
Defined.
