(* ===== verification/BbContainers.v ===== *)
(** * elkodon_bb/container: queue.rs and vec.rs

    The queue and the vector over memory that is not owned: both are proved to
    implement lists, with every access inside of the memory and every element
    read initialised. The queue is the history of a publisher.

    - [Module Queue]: [push], [push_with_overflow], [pop], [clear], [get];
    - [Module Vec]: [push], [fill], [pop], [clear], [get]. *)

From S2P Require Import Prelude Ring Elementary.

Module Queue.
Section Queue.
Context `{P : Profile} {T : Type}.

(** [data] is the memory behind [data_ptr]. *)
Record Queue := mkQueue {
  data : list (option T);
  start : Z;
  len : Z;
  capacity : Z;
  is_initialized : bool
}.

(** [Queue::new] with owned memory. *)
Definition new (cap : Z) : Queue := mkQueue (replicate (Z.to_nat cap) None) 0 0 cap true.
Definition new_uninit (cap : Z) : Queue := mkQueue [] 0 0 cap false.

Definition init {S} `{BaseAllocator S} (layout : Layout) (q : Queue) (allocator : S)
    : outcome (result unit AllocationError * Queue * S) :=
  if is_initialized q then Panic
  else
    let! size := umul (l_size layout) (capacity q) in
    let! '(r, allocator) := allocate allocator (mkLayout size (l_align layout)) in
    match r with
    | Err e => Return (Err e, q, allocator)
    | Ok c =>
        if size <=? c_len c then
          Return (Ok tt, mkQueue (replicate (Z.to_nat (capacity q)) None) (start q) (len q)
                           (capacity q) true, allocator)
        else Undefined
    end.

Definition const_memory_size (layout : Layout) (cap : Z) : outcome Z :=
  let! m := umul (l_size layout) cap in
  let! s := uadd m (l_align layout) in
  usub s 1.

Definition verify_init (q : Queue) : outcome unit :=
  if is_initialized q then Return tt else Panic.

Definition is_empty (q : Queue) : bool := len q =? 0.
Definition is_full (q : Queue) : bool := len q =? capacity q.

Definition get_unchecked (q : Queue) (index : Z) : outcome T :=
  let! a := usub (start q) (len q) in
  let! b := uadd a index in
  let! i := urem b (capacity q) in
  let! o := raw_read (data q) i in
  assume_init o.

Definition get (q : Queue) (index : Z) : outcome T :=
  if len q <=? index then Panic else get_unchecked q index.

Definition pop (q : Queue) : outcome (option T * Queue) :=
  if is_empty q then Return (None, q)
  else
    let! _ := verify_init q in
    let! a := usub (start q) (len q) in
    let! index := urem a (capacity q) in
    let! l := usub (len q) 1 in
    let! o := raw_read (data q) index in
    let! d := raw_write (data q) index None in
    let! v := assume_init o in
    Return (Some v, mkQueue d (start q) l (capacity q) (is_initialized q)).

Definition unchecked_push (q : Queue) (v : T) : outcome Queue :=
  let! index := urem (start q) (capacity q) in
  let! d := raw_write (data q) index (Some v) in
  let! s := uadd (start q) 1 in
  let! l := uadd (len q) 1 in
  Return (mkQueue d s l (capacity q) (is_initialized q)).

Definition push (q : Queue) (v : T) : outcome (bool * Queue) :=
  if len q =? capacity q then Return (false, q)
  else
    let! _ := verify_init q in
    let! q := unchecked_push q v in
    Return (true, q).

Definition push_with_overflow (q : Queue) (v : T) : outcome (option T * Queue) :=
  let! '(overridden_value, q) :=
    (if len q =? capacity q then pop q else Return (None, q)) in
  let! _ := verify_init q in
  let! q := unchecked_push q v in
  Return (overridden_value, q).

(** [clear] and [Drop]: pops until nothing is left. *)
Fixpoint clear (fuel : nat) (q : Queue) : outcome Queue :=
  let! '(r, q) := pop q in
  match r with
  | None => Return q
  | Some _ => match fuel with O => Undefined | S fuel => clear fuel q end
  end.

(** ** The queue as a list *)

Record rep (q : Queue) (l : list T) : Prop := {
  rep_init : is_initialized q = true;
  rep_data : Z.of_nat (length (data q)) = capacity q;
  rep_len : len q = Z.of_nat (length l);
  rep_bound : len q ≤ capacity q;
  rep_start : len q ≤ start q;
  rep_word : start q + 1 < USIZE ∧ capacity q < USIZE;
  rep_ring : ring_rep (data q) (capacity q) (start q - len q) (Some <$> l)
}.
End Queue.
Arguments Queue T : clear implicits.

Section Theorems.
Context `{P : Profile} {T : Type}.
Implicit Types (q : Queue T) (l : list T) (v : T).

Lemma mq_new_rep cap : 0 ≤ cap < USIZE → rep (new (T := T) cap) [].
Proof.
  intros. constructor; cbn; rewrite ?length_replicate; try done; try (unfold USIZE in *; lia).
Qed.

Lemma mq_unchecked_push q l v :
  rep q l → len q < capacity q →
  ∃ q', unchecked_push q v = Return q' ∧ start q' = start q + 1 ∧ capacity q' = capacity q ∧
    (start q' + 1 < USIZE → rep q' (l ++ [v])).
Proof.
  intros [Hi Hd Hl Hb Hs Hw Hr] Hlt. unfold unchecked_push. rewrite urem_ok by lia. cbn [obind].
  pose proof (Z.mod_pos_bound (start q) (capacity q)).
  rewrite raw_write_ok by lia. cbn [obind]. rewrite uadd_ok by lia. cbn [obind].
  rewrite uadd_ok by lia. cbn [obind]. eexists. split; [done|]. split; [done|]. split; [done|].
  intros Hw'. cbn in Hw'. constructor; cbn; rewrite ?length_insert, ?length_app; cbn; try done; try lia.
  rewrite fmap_app. replace (start q + 1 - (len q + 1)) with (start q - len q) by lia.
  pose proof (ring_rep_snoc (data q) (capacity q) (start q - len q) (Some <$> l) (Some v)) as Hsn.
  rewrite length_fmap in Hsn.
  replace (start q - len q + Z.of_nat (length l)) with (start q) in Hsn by lia.
  apply Hsn; try done; lia.
Qed.

Lemma mq_pop q l :
  rep q l →
  match l with
  | [] => pop q = Return (None, q)
  | x :: l' => ∃ q', pop q = Return (Some x, q') ∧ rep q' l' ∧ start q' = start q ∧
                     capacity q' = capacity q
  end.
Proof.
  intros [Hi Hd Hl Hb Hs Hw Hr]. unfold pop, is_empty, verify_init. destruct l as [|x l]; cbn in Hl.
  - by rewrite Hl.
  - rewrite (proj2 (Z.eqb_neq _ _)) by lia. rewrite Hi. cbn [obind].
    rewrite usub_ok by lia. cbn [obind]. rewrite urem_ok by lia. cbn [obind].
    pose proof (Z.mod_pos_bound (start q - len q) (capacity q)).
    rewrite usub_ok by lia. cbn [obind]. rewrite fmap_cons in Hr.
    apply ring_rep_cons in Hr as [Hx Hr]. unfold slot in Hx.
    rewrite (raw_read_ok _ _ (Some x)) by (done || lia). cbn [obind].
    rewrite raw_write_ok by lia. cbn [obind assume_init]. eexists. split; [done|].
    split; [|done]. constructor; cbn; rewrite ?length_insert; try done; try lia.
    replace (start q - (len q - 1)) with (start q - len q + 1) by lia.
    apply (ring_rep_insert_outside _ _ _ (start q - len q)); [lia| |done].
    intros k Hk. rewrite length_fmap in Hk. lia.
Qed.

Lemma mq_get q l i x :
  rep q l → l !! i = Some x → get q (Z.of_nat i) = Return x ∧ get_unchecked q (Z.of_nat i) = Return x.
Proof.
  intros [Hi Hd Hl Hb Hs Hw Hr] Hx. pose proof (lookup_lt_Some _ _ _ Hx) as Hlt. unfold get.
  rewrite (proj2 (Z.leb_gt _ _)) by lia. assert (get_unchecked q (Z.of_nat i) = Return x) as ->; [|done].
  unfold get_unchecked. rewrite usub_ok by lia. cbn [obind]. rewrite uadd_ok by lia. cbn [obind].
  rewrite urem_ok by lia. cbn [obind].
  pose proof (Z.mod_pos_bound (start q - len q + Z.of_nat i) (capacity q)).
  rewrite (raw_read_ok _ _ (Some x)); [done|lia|]. apply (Hr i). by rewrite list_lookup_fmap, Hx.
Qed.

(** The overflowing push in terms of the list. *)
Lemma mq_push_with_overflow q l v :
  rep q l → 0 < capacity q →
  ∃ r q', push_with_overflow q v = Return (r, q') ∧ start q' = start q + 1 ∧
    capacity q' = capacity q ∧
    (start q' + 1 < USIZE → ∃ l', l ++ [v] = option_list r ++ l' ∧ rep q' l' ∧
       (r = None ↔ Z.of_nat (length l) < capacity q)).
Proof.
  intros Hrep Hc. pose proof Hrep as [Hi Hd Hl Hb Hs Hw Hr]. unfold push_with_overflow.
  destruct (Z.eqb_spec (len q) (capacity q)) as [Hf|Hnf].
  - destruct l as [|x l]; [cbn in Hl; lia|].
    destruct (mq_pop _ _ Hrep) as (q1 & -> & Hrep1 & Hs1 & Hc1). cbn [obind].
    unfold verify_init. rewrite (rep_init _ _ Hrep1). cbn [obind].
    destruct (mq_unchecked_push q1 l v Hrep1) as (q2 & -> & Hs2 & Hc2 & Hrep2).
    { rewrite (rep_len _ _ Hrep1), Hc1. cbn in Hl. lia. }
    cbn [obind]. do 2 eexists. split; [done|]. split; [lia|]. split; [lia|]. intros Hw'.
    exists (l ++ [v]). split; [done|]. split; [auto|]. split; [done|]. cbn in *. lia.
  - cbn [obind]. unfold verify_init. rewrite Hi. cbn [obind].
    destruct (mq_unchecked_push q l v Hrep) as (q2 & -> & Hs2 & Hc2 & Hrep2); [lia|].
    cbn [obind]. do 2 eexists. split; [done|]. split; [lia|]. split; [lia|]. intros Hw'.
    exists (l ++ [v]). split; [done|]. split; [auto|]. split; [lia|done].
Qed.

(** The queue is a bounded FIFO of its elements: [push] appends unless it is
    full, [push_with_overflow] always appends and returns the element it had to
    drop, [pop] returns the oldest element, [get] the element at a position, and
    [clear] (also run on drop) takes out everything; no operation panics, leaves
    the memory of the queue or reads an uninitialised element. *)
Theorem queue_refines_list q l v :
  rep q l → 0 < capacity q → start q + 2 < USIZE →
  (∃ q', push q v = Return (Z.of_nat (length l) <? capacity q, q') ∧
     rep q' (if Z.of_nat (length l) <? capacity q then l ++ [v] else l)) ∧
  (∃ r q' l', push_with_overflow q v = Return (r, q') ∧ l ++ [v] = option_list r ++ l' ∧
     rep q' l' ∧ (r = None ↔ Z.of_nat (length l) < capacity q)) ∧
  (∃ q', pop q = Return (List.hd_error l, q') ∧ rep q' (List.tl l)) ∧
  (∀ i x, l !! i = Some x → get q (Z.of_nat i) = Return x) ∧
  (∃ q', clear (length l) q = Return q' ∧ rep q' []).
Proof.
  intros Hrep Hc Hw. pose proof Hrep as [Hi _ Hl Hb _ _ _]. split_and!.
  - unfold push. destruct (Z.ltb_spec (Z.of_nat (length l)) (capacity q)) as [Hlt|Hge].
    + rewrite (proj2 (Z.eqb_neq _ _)) by lia. unfold verify_init. rewrite Hi. cbn [obind].
      destruct (mq_unchecked_push q l v Hrep) as (q2 & -> & Hs2 & Hc2 & Hrep2); [lia|].
      cbn [obind]. eexists. split; [done|]. apply Hrep2. lia.
    + rewrite (proj2 (Z.eqb_eq _ _)) by lia. by exists q.
  - destruct (mq_push_with_overflow q l v Hrep Hc) as (r & q' & Hp & Hs' & _ & Hr).
    destruct Hr as (l' & Heq & Hrep' & Hn); [lia|]. by exists r, q', l'.
  - pose proof (mq_pop q l Hrep) as Hp. destruct l as [|x l]; [by exists q|].
    destruct Hp as (q' & Hp & Hrep' & _). by exists q'.
  - intros i x Hx. by apply (mq_get q l).
  - clear Hc Hw Hi Hl Hb. revert q Hrep. induction l as [|x l IH]; intros q Hrep; cbn [length clear];
      pose proof (mq_pop _ _ Hrep) as Hp.
    + rewrite Hp. by exists q.
    + destruct Hp as (q' & -> & Hrep' & _). cbn [obind]. by apply IH.
Qed.
End Theorems.
End Queue.

(** ** The vector *)

Module Vec.
Section Vec.
Context `{P : Profile} {T : Type}.

Record Vec := mkVec {
  data : list (option T);
  capacity : Z;
  len : Z;
  is_initialized : bool
}.

(** [FixedSizeVec::default]: the memory is an array behind the vector. *)
Definition new (cap : Z) : Vec := mkVec (replicate (Z.to_nat cap) None) cap 0 true.
Definition new_uninit (cap : Z) : Vec := mkVec [] cap 0 false.

Definition init {S} `{BaseAllocator S} (layout : Layout) (v : Vec) (allocator : S)
    : outcome (result unit AllocationError * Vec * S) :=
  if is_initialized v then Panic
  else
    let! size := umul (l_size layout) (capacity v) in
    let! '(r, allocator) := allocate allocator (mkLayout size (l_align layout)) in
    match r with
    | Err e => Return (Err e, v, allocator)
    | Ok c =>
        if size <=? c_len c then
          Return (Ok tt, mkVec (replicate (Z.to_nat (capacity v)) None) (capacity v) (len v) true,
                  allocator)
        else Undefined
    end.

Definition verify_init (v : Vec) : outcome unit :=
  if is_initialized v then Return tt else Panic.

Definition is_empty (v : Vec) : bool := len v =? 0.
Definition is_full (v : Vec) : bool := len v =? capacity v.

Definition push_unchecked (v : Vec) (x : T) : outcome Vec :=
  let! d := raw_write (data v) (len v) (Some x) in
  let! l := uadd (len v) 1 in
  Return (mkVec d (capacity v) l (is_initialized v)).

Definition push (v : Vec) (x : T) : outcome (bool * Vec) :=
  if is_full v then Return (false, v)
  else
    let! _ := verify_init v in
    let! v := push_unchecked v x in
    Return (true, v).

(** [for _ in len..capacity]; there is no check for initialised memory. *)
Fixpoint fill_loop (n : nat) (v : Vec) (x : T) : outcome Vec :=
  match n with
  | O => Return v
  | S n => let! v := push_unchecked v x in fill_loop n v x
  end.

Definition fill (v : Vec) (x : T) : outcome Vec :=
  fill_loop (Z.to_nat (capacity v - len v)) v x.

Definition pop_unchecked (v : Vec) : outcome (T * Vec) :=
  let! o := raw_read (data v) (len v - 1) in
  let! d := raw_write (data v) (len v - 1) None in
  let! l := usub (len v) 1 in
  let! x := assume_init o in
  Return (x, mkVec d (capacity v) l (is_initialized v)).

Definition pop (v : Vec) : outcome (option T * Vec) :=
  if is_empty v then Return (None, v)
  else
    let! _ := verify_init v in
    let! '(x, v) := pop_unchecked v in
    Return (Some x, v).

(** [clear] and [Drop]. *)
Fixpoint clear_loop (n : nat) (v : Vec) : outcome Vec :=
  match n with
  | O => Return v
  | S n => let! '(_, v) := pop_unchecked v in clear_loop n v
  end.

Definition clear (v : Vec) : outcome Vec := clear_loop (Z.to_nat (len v)) v.

Definition get_unchecked (v : Vec) (index : Z) : outcome T :=
  let! o := raw_read (data v) index in assume_init o.

Definition get (v : Vec) (index : Z) : outcome (option T) :=
  if len v <=? index then Return None
  else
    let! _ := verify_init v in
    let! x := get_unchecked v index in
    Return (Some x).

(** A write through the reference [get_mut] returns. *)
Definition get_mut_write (v : Vec) (index : Z) (x : T) : outcome (option unit * Vec) :=
  if len v <=? index then Return (None, v)
  else
    let! _ := verify_init v in
    let! d := raw_write (data v) index (Some x) in
    Return (Some tt, mkVec d (capacity v) (len v) (is_initialized v)).

(** The vector holds [l]: its first cells are initialised with it. *)
Record rep (v : Vec) (l : list T) : Prop := {
  vrep_init : is_initialized v = true;
  vrep_data : Z.of_nat (length (data v)) = capacity v;
  vrep_cap : capacity v < USIZE;
  vrep_len : len v = Z.of_nat (length l);
  vrep_bound : len v ≤ capacity v;
  vrep_cells : ∀ i x, l !! i = Some x → data v !! i = Some (Some x)
}.
End Vec.
Arguments Vec T : clear implicits.

Section Theorems.
Context `{P : Profile} {T : Type}.
Implicit Types (v : Vec T) (l : list T) (x : T).

Lemma vec_new_rep cap : 0 ≤ cap < USIZE → rep (new (T := T) cap) [].
Proof.
  intros. constructor; cbn; rewrite ?length_replicate; try done; try lia.
Qed.

Lemma vec_push_unchecked v l x :
  rep v l → len v < capacity v →
  ∃ v', push_unchecked v x = Return v' ∧ rep v' (l ++ [x]) ∧ capacity v' = capacity v.
Proof.
  intros [Hi Hd Hc Hl Hb Hx] Hlt. unfold push_unchecked. rewrite raw_write_ok by lia. cbn [obind].
  rewrite uadd_ok by lia. cbn [obind]. eexists. split; [done|]. split; [|done].
  constructor; cbn; rewrite ?length_insert, ?length_app; cbn; try done; try lia.
  intros i y Hy. apply lookup_app_Some in Hy as [Hy|[Hge Hy]].
  - pose proof (lookup_lt_Some _ _ _ Hy). rewrite list_lookup_insert_ne by lia. by apply Hx.
  - apply list_lookup_singleton_Some in Hy as [Hz <-]. replace i with (Z.to_nat (len v)) by lia.
    apply list_lookup_insert_eq. lia.
Qed.

Lemma vec_pop_unchecked v l x :
  rep v (l ++ [x]) → ∃ v', pop_unchecked v = Return (x, v') ∧ rep v' l ∧ capacity v' = capacity v.
Proof.
  intros [Hi Hd Hc Hl Hb Hx]. rewrite length_app in Hl. cbn in Hl. unfold pop_unchecked.
  rewrite (raw_read_ok _ _ (Some x)); [|lia|].
  2: { apply Hx. replace (Z.to_nat (len v - 1)) with (length l) by lia.
       rewrite lookup_app_r by lia. by rewrite Nat.sub_diag. }
  cbn [obind]. rewrite raw_write_ok by lia. cbn [obind]. rewrite usub_ok by lia. cbn [obind assume_init].
  eexists. split; [done|]. split; [|done]. constructor; cbn; rewrite ?length_insert; try done; try lia.
  intros i y Hy. pose proof (lookup_lt_Some _ _ _ Hy). rewrite list_lookup_insert_ne by lia.
  apply Hx. by apply lookup_app_l_Some.
Qed.

Lemma vec_fill_loop n v l x :
  rep v l → n = Z.to_nat (capacity v - len v) →
  ∃ v', fill_loop n v x = Return v' ∧ rep v' (l ++ replicate n x).
Proof.
  revert v l. induction n as [|n IH]; intros v l Hrep Hn; cbn [fill_loop replicate].
  - rewrite app_nil_r. by exists v.
  - destruct (vec_push_unchecked v l x Hrep) as (v' & -> & Hr & Hc'); [lia|]. cbn [obind].
    destruct (IH v' (l ++ [x]) Hr) as (v2 & -> & Hr2).
    { pose proof (vrep_len _ _ Hrep). pose proof (vrep_len _ _ Hr). rewrite length_app in *. cbn in *. lia. }
    exists v2. by rewrite <- app_assoc in Hr2.
Qed.

Lemma vec_clear_loop v l :
  rep v l → ∃ v', clear_loop (length l) v = Return v' ∧ rep v' [].
Proof.
  revert v. induction l as [|y l IH] using rev_ind; intros v Hrep; [by exists v|].
  rewrite length_app, Nat.add_comm. cbn [length Nat.add clear_loop].
  destruct (vec_pop_unchecked v l y Hrep) as (v' & -> & Hr & _). cbn [obind]. by apply IH.
Qed.

(** The vector is a bounded stack of its elements: [push] appends unless it is
    full, [fill] appends copies up to the capacity, [pop] removes the last
    element, [get] and [get_mut] reach exactly the elements below the length, and
    [clear] (also run on drop) removes all; no operation panics, leaves the
    memory of the vector or reads an uninitialised element. *)
Theorem vec_refines_list v l x :
  rep v l →
  (∃ v', push v x = Return (Z.of_nat (length l) <? capacity v, v') ∧
     rep v' (if Z.of_nat (length l) <? capacity v then l ++ [x] else l)) ∧
  (∃ v', fill v x = Return v' ∧ rep v' (l ++ replicate (Z.to_nat (capacity v) - length l) x)) ∧
  (∃ v', pop v = Return (last l, v') ∧ rep v' (removelast l)) ∧
  (∀ i, 0 ≤ i → get v i = Return (l !! Z.to_nat i)) ∧
  (∀ i, 0 ≤ i < len v → ∃ v', get_mut_write v i x = Return (Some tt, v') ∧
     rep v' (<[Z.to_nat i := x]> l)) ∧
  (∃ v', clear v = Return v' ∧ rep v' []).
Proof.
  intros Hrep. pose proof Hrep as [Hi Hd Hc Hl Hb Hx]. split_and!.
  - unfold push, is_full, verify_init. destruct (Z.ltb_spec (Z.of_nat (length l)) (capacity v)).
    + rewrite (proj2 (Z.eqb_neq _ _)) by lia. rewrite Hi. cbn [obind].
      destruct (vec_push_unchecked v l x Hrep) as (v' & -> & Hr & _); [lia|]. cbn [obind]. by exists v'.
    + rewrite (proj2 (Z.eqb_eq _ _)) by lia. by exists v.
  - unfold fill. replace (Z.to_nat (capacity v) - length l)%nat with (Z.to_nat (capacity v - len v)) by lia.
    by apply vec_fill_loop.
  - unfold pop, is_empty, verify_init. destruct l as [|y l0 _] using rev_ind.
    + rewrite Hl. by exists v.
    + rewrite length_app in Hl. cbn in Hl. rewrite (proj2 (Z.eqb_neq _ _)) by lia. rewrite Hi. cbn [obind].
      destruct (vec_pop_unchecked v l0 y Hrep) as (v' & -> & Hr & _). cbn [obind].
      exists v'. by rewrite last_snoc, removelast_last.
  - intros i H0. unfold get, verify_init. destruct (Z.leb_spec (len v) i).
    + by rewrite (proj2 (lookup_ge_None l (Z.to_nat i))) by lia.
    + rewrite Hi. cbn [obind]. destruct (lookup_lt_is_Some_2 l (Z.to_nat i)) as [y Hy]; [lia|].
      unfold get_unchecked. rewrite (raw_read_ok _ _ (Some y)) by auto. cbn [obind assume_init].
      by rewrite Hy.
  - intros i Hr. unfold get_mut_write, verify_init. rewrite (proj2 (Z.leb_gt _ _)) by lia. rewrite Hi.
    cbn [obind]. rewrite raw_write_ok by lia. cbn [obind]. eexists. split; [done|].
    constructor; cbn; rewrite ?length_insert; try done; try lia.
    intros j y Hy. destruct (decide (j = Z.to_nat i)) as [->|Hne].
    + rewrite list_lookup_insert_eq in Hy by lia. rewrite list_lookup_insert_eq by lia. congruence.
    + rewrite list_lookup_insert_ne in Hy by done. rewrite list_lookup_insert_ne by done. by apply Hx.
  - unfold clear. replace (Z.to_nat (len v)) with (length l) by lia. by apply vec_clear_loop.
Qed.
End Theorems.
End Vec.

(** ** Witnesses *)

Lemma queue_refines_list_witness :
  ∃ r q' l', Queue.push_with_overflow (P := true) (Queue.new 2) 7 = Return (r, q') ∧
    [] ++ [7] = option_list r ++ l' ∧ Queue.rep q' l' ∧ (r = None ↔ Z.of_nat 0 < 2).
Proof.
  apply (Queue.queue_refines_list (P := true) (Queue.new 2) [] 7); [|done|done].
  apply Queue.mq_new_rep. done.
Defined.

Lemma vec_refines_list_witness :
  ∃ v', Vec.fill (P := true) (Vec.new 3) 5 = Return v' ∧ Vec.rep v' [5; 5; 5].
Proof.
  apply (Vec.vec_refines_list (P := true) (Vec.new 3) [] 5). apply Vec.vec_new_rep. done.
Defined.
