(* ===== verification/TriggerQueue.v ===== *)
(** * elkodon_bb/threadsafe/src/trigger_queue.rs

    A bounded queue for any number of threads: a queue behind a mutex and two
    semaphores that count its free and its used slots. The mutex and the semaphores
    belong to the operating system; they do what POSIX says, and a wait can time out
    or fail.

    Every operation is a sequence of calls of the operating system, and those of all
    threads interleave in any order. *)

From S2P Require Import Prelude Ring BbContainers.

Module TriggerQueue.

(** How an operation waits: [try_*], [timed_*], [blocking_*], and the [try_pop] of
    the loop of [clear]. *)
Inductive kind := Try | Timed | Blocking | Clear.

(** What the operating system does when a thread waits or posts. *)
Inductive answer := Fine | TimedOut | Failed.

Inductive wait_result := Taken (value : Z) | Refused | Waiting | Error.

(** [try_wait], [timed_wait] and [wait] of a semaphore. *)
Definition wait (k : kind) (a : answer) (value : Z) : wait_result :=
  match a with
  | Failed => Error
  | _ =>
      if 0 <? value then Taken (value - 1)
      else match k, a with
           | Try, _ | Clear, _ | Timed, TimedOut => Refused
           | _, _ => Waiting
           end
  end.

Inductive event {T : Type} := EPush (v : T) | EPop (v : T).
Arguments event : clear implicits.

Section Operations.
Context `{P : Profile} {T : Type}.
Context (CAPACITY SEM_VALUE_MAX : Z).

Record TriggerQueue := mkTriggerQueue {
  queue : Queue.Queue T;
  locked : bool;
  free_slots : Z;
  used_slots : Z
}.

(** [new_with_custom_clock]: [fatal_panic!] if the operating system refuses the
    initial value. *)
Definition new : outcome TriggerQueue :=
  let free := wrap U32 CAPACITY in
  if SEM_VALUE_MAX <? free then Panic
  else Return (mkTriggerQueue (Queue.new CAPACITY) false free 0).

Definition set_queue (s : TriggerQueue) q := mkTriggerQueue q (locked s) (free_slots s) (used_slots s).
Definition set_locked (s : TriggerQueue) b := mkTriggerQueue (queue s) b (free_slots s) (used_slots s).
Definition set_free (s : TriggerQueue) n := mkTriggerQueue (queue s) (locked s) n (used_slots s).
Definition set_used (s : TriggerQueue) n := mkTriggerQueue (queue s) (locked s) (free_slots s) n.

(** [post().unwrap()] *)
Definition post (value : Z) : outcome Z := if value <? SEM_VALUE_MAX then Return (value + 1) else Panic.

Inductive pc :=
| Idle
| PushWait (k : kind) (v : T)
| PushLock (v : T)
| PushCrit (v : T)
| PushPost
| PushRet (r : bool)
| PopWait (k : kind)
| PopLock (k : kind)
| PopCrit (k : kind)
| PopPost (k : kind) (r : option T)
| PopRet (r : option T)
| LenLock
| LenCrit
| LenRet (n : Z) (is_full is_empty : bool).

(** The end of [pop]: [blocking_pop] unwraps the value, [clear] goes on as long as
    there was one. *)
Definition pop_end (k : kind) (r : option T) : outcome pc :=
  match k, r with
  | Blocking, None => Panic
  | Clear, Some _ => Return (PopWait Clear)
  | _, _ => Return (PopRet r)
  end.

(** One call of the operating system. The critical section ends with the statement
    that uses the guard, so that the mutex is released together with the access. *)
Definition step (s : TriggerQueue) (a : answer) (t : pc) : outcome (TriggerQueue * pc * option (event T)) :=
  match t with
  | Idle | PushRet _ | PopRet _ | LenRet _ _ _ => Return (s, t, None)
  | PushWait k v =>
      match wait k a (free_slots s) with
      | Taken n => Return (set_free s n, PushLock v, None)
      | Refused => Return (s, PushRet false, None)
      | Waiting => Return (s, t, None)
      | Error => Panic
      end
  | PushLock v =>
      match a with
      | Failed => Panic
      | _ => if locked s then Return (s, t, None) else Return (set_locked s true, PushCrit v, None)
      end
  | PushCrit v =>
      let! '(r, q) := Queue.push (queue s) v in
      Return (set_locked (set_queue s q) false, PushPost, if (r : bool) then Some (EPush v) else None)
  | PushPost => let! n := post (used_slots s) in Return (set_used s n, PushRet true, None)
  | PopWait k =>
      match wait k a (used_slots s) with
      | Taken n => Return (set_used s n, PopLock k, None)
      | Refused => Return (s, PopRet None, None)
      | Waiting => Return (s, t, None)
      | Error => Panic
      end
  | PopLock k =>
      match a with
      | Failed => Panic
      | _ => if locked s then Return (s, t, None) else Return (set_locked s true, PopCrit k, None)
      end
  | PopCrit k =>
      let! '(r, q) := Queue.pop (queue s) in
      Return (set_locked (set_queue s q) false, PopPost k r, EPop <$> r)
  | PopPost k r =>
      let! n := post (free_slots s) in
      let! t := pop_end k r in
      Return (set_free s n, t, None)
  | LenLock =>
      match a with
      | Failed => Panic
      | _ => if locked s then Return (s, t, None) else Return (set_locked s true, LenCrit, None)
      end
  | LenCrit =>
      Return (set_locked s false,
        LenRet (Queue.len (queue s)) (Queue.is_full (queue s)) (Queue.is_empty (queue s)), None)
  end.

(** The operations. *)
Inductive start : pc → pc → Prop :=
| start_push k v : k ≠ Clear → start Idle (PushWait k v)
| start_pop k : start Idle (PopWait k)
| start_len : start Idle LenLock
| pushed r : start (PushRet r) Idle
| popped r : start (PopRet r) Idle
| observed n f e : start (LenRet n f e) Idle.

Inductive sys_step : TriggerQueue * list pc → option (event T) → TriggerQueue * list pc → Prop :=
| sys_start s l t t' r :
    start t t' → sys_step (s, l ++ t :: r) None (s, l ++ t' :: r)
| sys_access s l t r a s' t' e :
    step s a t = Return (s', t', e) → sys_step (s, l ++ t :: r) e (s', l ++ t' :: r).

(** ** Specification and invariant *)

Definition fifo_spec `{EqDecision T} (l : list T) (e : event T) : option (list T) :=
  match e with
  | EPush v => if Z.of_nat (length l) <? CAPACITY then Some (l ++ [v]) else None
  | EPop v => match l with x :: l => if decide (x = v) then Some l else None | [] => None end
  end.

(** The slots and elements that threads on their way have taken and not yet given. *)
Definition pushing (t : pc) : nat := match t with PushLock _ | PushCrit _ => 1 | _ => 0 end.
Definition pushed_ (t : pc) : nat := match t with PushPost => 1 | _ => 0 end.
Definition popping (t : pc) : nat := match t with PopLock _ | PopCrit _ => 1 | _ => 0 end.
Definition popped_ (t : pc) : nat := match t with PopPost _ _ => 1 | _ => 0 end.
Definition critical (t : pc) : nat := match t with PushCrit _ | PopCrit _ | LenCrit => 1 | _ => 0 end.

Definition pc_ok (t : pc) : Prop := match t with PopPost _ r => is_Some r | _ => True end.

Record sys_inv (x : TriggerQueue * list pc) (l : list T) : Prop := {
  inv_rep : Queue.rep (queue x.1) l;
  inv_capacity : Queue.capacity (queue x.1) = CAPACITY;
  inv_free : free_slots x.1 + total pushing x.2 + total popped_ x.2 + Z.of_nat (length l) = CAPACITY;
  inv_used : used_slots x.1 + total pushed_ x.2 + total popping x.2 = Z.of_nat (length l);
  inv_nonneg : 0 ≤ free_slots x.1 ∧ 0 ≤ used_slots x.1;
  inv_locked : total critical x.2 = if locked x.1 then 1 else 0;
  inv_threads : Forall pc_ok x.2
}.
End Operations.
Arguments TriggerQueue : clear implicits.
Arguments pc : clear implicits.

Section Theorems.
Context `{P : Profile} {T : Type} `{EqDecision T}.
Context (CAPACITY SEM_VALUE_MAX : Z).
Implicit Types (s : TriggerQueue T) (ts l r : list (pc T)) (elems : list T).

#[local] Notation sys_inv := (sys_inv CAPACITY).
#[local] Notation step := (step SEM_VALUE_MAX).
#[local] Notation fifo_spec := (fifo_spec CAPACITY).


Lemma tq_new_inv n :
  0 ≤ CAPACITY ≤ SEM_VALUE_MAX → CAPACITY < U32 →
  ∃ s, new CAPACITY SEM_VALUE_MAX = Return s ∧ sys_inv (s, replicate n Idle) [] ∧ Queue.start (queue s) = 0.
Proof.
  intros Hc Hu. unfold new, wrap. rewrite Z.mod_small by lia. zbool. eexists. split; [done|]. split; [|done].
  constructor; cbn [fst snd queue locked free_slots used_slots]; rewrite ?total_replicate by done; cbn; try done; try lia.
  - apply Queue.mq_new_rep. unfold U32, USIZE in *. lia.
  - by apply Forall_replicate.
Qed.

(** What an access does to the rest of the invariant. *)
Definition access_post s l r elems s' t' (e : option (event T)) : Prop :=
  ∃ elems', match e with Some e => fifo_spec elems e = Some elems' | None => elems' = elems end ∧
    sys_inv (s', l ++ t' :: r) elems' ∧
    Queue.start (queue s') ≤ Queue.start (queue s) + match e with Some _ => 1 | None => 0 end.

(** An access that leaves the queue alone. *)
Lemma access_semaphores s l t r elems s' t' :
  sys_inv (s, l ++ t :: r) elems → queue s' = queue s →
  free_slots s' + Z.of_nat (pushing t') + Z.of_nat (popped_ t') =
    free_slots s + Z.of_nat (pushing t) + Z.of_nat (popped_ t) →
  used_slots s' + Z.of_nat (pushed_ t') + Z.of_nat (popping t') =
    used_slots s + Z.of_nat (pushed_ t) + Z.of_nat (popping t) →
  0 ≤ free_slots s' → 0 ≤ used_slots s' →
  Z.of_nat (critical t') - (if locked s' then 1 else 0) = Z.of_nat (critical t) - (if locked s then 1 else 0) →
  pc_ok t' → access_post s l r elems s' t' None.
Proof.
  intros [H1 H2 H3 H4 H5 H6 H7] Hq Hf Hu Hf0 Hu0 Hc Hok. cbn [fst snd] in *. exists elems. split; [done|].
  split; [|by rewrite Hq, Z.add_0_r]. rewrite !total_split in *. apply Forall_app in H7 as [Hl [_ Hr]%Forall_cons].
  constructor; cbn [fst snd]; rewrite ?Hq, ?total_split; try done; try lia.
  apply Forall_app; split; [done|by constructor].
Qed.

Lemma push_crit s l v r elems :
  sys_inv (s, l ++ PushCrit v :: r) elems → Queue.start (queue s) + 2 < USIZE →
  ∃ q, Queue.push (queue s) v = Return (true, q) ∧
    access_post s l r elems (set_locked (set_queue s q) false) PushPost (Some (EPush v)).
Proof.
  intros [H1 H2 H3 H4 H5 H6 H7] Hst. cbn [fst snd] in *. rewrite !total_split in *. cbn in H3, H4, H6.
  pose proof (total_nonneg pushing l). pose proof (total_nonneg pushing r).
  pose proof (total_nonneg popped_ l). pose proof (total_nonneg popped_ r).
  assert (Z.of_nat (length elems) < CAPACITY) as Hlt by lia.
  pose proof H1 as [Hi _ Hlen _ _ _ _]. unfold Queue.push. rewrite (proj2 (Z.eqb_neq _ _)) by lia.
  unfold Queue.verify_init. rewrite Hi. cbn [obind].
  destruct (Queue.mq_unchecked_push (queue s) elems v H1) as (q & -> & Hs & Hc & Hrep); [lia|].
  cbn [obind]. exists q. split; [done|]. exists (elems ++ [v]). cbn [fifo_spec]. zbool. split; [done|].
  split; [|cbn; lia]. apply Forall_app in H7 as [Hl [_ Hr]%Forall_cons].
  constructor; cbn [fst snd set_locked set_queue queue locked free_slots used_slots];
    rewrite ?total_split, ?length_app; cbn; try lia.
  - apply Hrep. lia.
  - revert H6. pose proof (total_nonneg critical l). pose proof (total_nonneg critical r). destruct (locked s); lia.
  - apply Forall_app; split; [done|by constructor].
Qed.

Lemma pop_crit s l k r elems :
  sys_inv (s, l ++ PopCrit k :: r) elems →
  ∃ x q, Queue.pop (queue s) = Return (Some x, q) ∧
    access_post s l r elems (set_locked (set_queue s q) false) (PopPost k (Some x)) (Some (EPop x)).
Proof.
  intros [H1 H2 H3 H4 H5 H6 H7]. cbn [fst snd] in *. rewrite !total_split in *. cbn in H3, H4, H6.
  pose proof (total_nonneg popping l). pose proof (total_nonneg popping r).
  pose proof (total_nonneg pushed_ l). pose proof (total_nonneg pushed_ r).
  pose proof (Queue.mq_pop (queue s) elems H1) as Hp. destruct elems as [|x elems]; [cbn in H4; lia|].
  destruct Hp as (q & Hp & Hrep & Hs & Hc). exists x, q. split; [done|]. exists elems. cbn [fifo_spec length] in *.
  rewrite decide_True by done. split; [done|]. split; [|cbn; lia]. apply Forall_app in H7 as [Hl [_ Hr]%Forall_cons].
  constructor; cbn [fst snd set_locked set_queue queue locked free_slots used_slots];
    rewrite ?total_split; cbn; try done; try lia.
  - revert H6. pose proof (total_nonneg critical l). pose proof (total_nonneg critical r). destruct (locked s); lia.
  - apply Forall_app; split; [done|]. by constructor; [eexists|].
Qed.

Lemma tq_access_inv s l t r a elems s' t' e :
  sys_inv (s, l ++ t :: r) elems → Queue.start (queue s) + 2 < USIZE → step s a t = Return (s', t', e) →
  access_post s l r elems s' t' e.
Proof.
  intros Hinv Hb Hst. pose proof Hinv as [_ _ _ _ [Hf Hu] _ Hts]. cbn [fst snd] in *.
  apply Forall_app in Hts as [_ [Ht _]%Forall_cons].
  assert (∀ k v n, wait k a v = Taken n → 0 < v ∧ n = v - 1) as Hw.
  { intros k v n. unfold wait. destruct a; try done; destruct (Z.ltb_spec 0 v); try (by destruct k);
      intros [= <-]; done. }
  assert (∀ v n, post SEM_VALUE_MAX v = Return n → n = v + 1) as Hpost.
  { intros v n. unfold post. case_bool; [|done]. by intros [= <-]. }
  destruct t as [|k v|v|v| |b|k|k|k|k o|o| | |n f m]; cbn [step] in Hst;
    try (injection Hst as <- <- <-; by eapply access_semaphores).
  - destruct (wait k a (free_slots s)) as [n| | |] eqn:E; try done; injection Hst as <- <- <-;
      try (by eapply access_semaphores). apply Hw in E as [? ->].
    eapply access_semaphores; try done; cbn; lia.
  - destruct a; try done; destruct (locked s) eqn:El; injection Hst as <- <- <-;
      (eapply access_semaphores; try done; cbn; rewrite ?El; lia).
  - destruct (push_crit s l v r elems Hinv Hb) as (q & Hp & Hpost'). rewrite Hp in Hst. cbn [obind] in Hst.
    by injection Hst as <- <- <-.
  - destruct (post SEM_VALUE_MAX (used_slots s)) as [n| |] eqn:E; try done. apply Hpost in E as ->.
    injection Hst as <- <- <-. eapply access_semaphores; try done; cbn; lia.
  - destruct (wait k a (used_slots s)) as [n| | |] eqn:E; try done; injection Hst as <- <- <-;
      try (by eapply access_semaphores). apply Hw in E as [? ->].
    eapply access_semaphores; try done; cbn; lia.
  - destruct a; try done; destruct (locked s) eqn:El; injection Hst as <- <- <-;
      (eapply access_semaphores; try done; cbn; rewrite ?El; lia).
  - destruct (pop_crit s l k r elems Hinv) as (x & q & Hp & Hpost'). rewrite Hp in Hst. cbn [obind] in Hst.
    by injection Hst as <- <- <-.
  - destruct (post SEM_VALUE_MAX (free_slots s)) as [n| |] eqn:E; try done. apply Hpost in E as ->. cbn [obind] in Hst.
    destruct (pop_end k o) as [t1| |] eqn:Hend; try done. injection Hst as <- <- <-.
    assert (t1 = PopRet o ∨ t1 = PopWait Clear) as Ht1.
    { revert Hend. unfold pop_end. destruct k, o; try done; intros [= <-]; auto. }
    destruct Ht1 as [-> | ->]; (eapply access_semaphores; try done; cbn; lia).
  - destruct a; try done; destruct (locked s) eqn:El; injection Hst as <- <- <-;
      (eapply access_semaphores; try done; cbn; rewrite ?El; lia).
  - injection Hst as <- <- <-. destruct (locked s) eqn:El; [eapply access_semaphores; try done; cbn; rewrite ?El; lia|].
    destruct Hinv as [_ _ _ _ _ H6 _]. cbn [fst snd] in H6. rewrite total_split, El in H6. cbn in H6.
    pose proof (total_nonneg critical l). pose proof (total_nonneg critical r). lia.
Qed.

Lemma tq_start_inv s l t t' r elems :
  sys_inv (s, l ++ t :: r) elems → start t t' → sys_inv (s, l ++ t' :: r) elems.
Proof.
  intros Hinv Hst. pose proof Hinv as [_ _ _ _ [Hf Hu] _ _].
  destruct (access_semaphores s l t r elems s t' Hinv) as (elems' & -> & H & _); try done; destruct Hst; cbn; lia.
Qed.

Lemma tq_reachable_inv n s0 x tr :
  0 ≤ CAPACITY ≤ SEM_VALUE_MAX → CAPACITY < U32 → new CAPACITY SEM_VALUE_MAX = Return s0 →
  steps (sys_step SEM_VALUE_MAX) (s0, replicate n Idle) tr x → Z.of_nat (length tr) + 2 < USIZE →
  ∃ elems, spec_run fifo_spec [] tr = Some elems ∧ sys_inv x elems ∧
    Queue.start (queue x.1) ≤ Z.of_nat (length tr).
Proof.
  intros Hc Hu Hnew Hst. destruct (tq_new_inv n Hc Hu) as (s1 & Hnew' & Hinv0 & Hs0).
  rewrite Hnew in Hnew'. injection Hnew' as <-.
  revert x tr Hst.
  apply (steps_invariant _ (λ x tr, Z.of_nat (length tr) + 2 < USIZE →
    ∃ elems, spec_run fifo_spec [] tr = Some elems ∧ sys_inv x elems ∧
      Queue.start (queue x.1) ≤ Z.of_nat (length tr))).
  - intros _. exists []. split; [done|]. split; [exact Hinv0|]. cbn. lia.
  - intros x tr x' _ IH Hst Hb. destruct (IH Hb) as (elems & Hrun & Hinv & Hw).
    inversion Hst as [s l t t' r Ht|s l t r a s' t' e Ht]; subst x x'; cbn [fst] in *.
    + exists elems. split; [done|]. split; [by eapply tq_start_inv|done].
    + subst e. destruct (tq_access_inv _ _ _ _ _ _ _ _ _ Hinv ltac:(lia) Ht) as (c' & -> & Hi & Hwc).
      exists elems. split; [done|]. split; [done|]. cbn [fst]. lia.
  - intros x tr e x' _ IH Hst Hb. rewrite length_app in *. cbn [length] in *.
    destruct IH as (elems & Hrun & Hinv & Hw); [lia|].
    inversion Hst as [|s l t r a s' t' e' Ht]; subst x x' e'; cbn [fst] in *.
    destruct (tq_access_inv _ _ _ _ _ _ _ _ _ Hinv ltac:(lia) Ht) as (c' & Hc' & Hi & Hwc).
    exists c'. split; [by rewrite spec_run_app, Hrun; cbn; rewrite Hc'|]. split; [done|]. cbn [fst]. lia.
Qed.

(** C18. The trigger queue is a bounded FIFO under every interleaving: what the threads
    have pushed and popped is a run of a queue of at most [CAPACITY] elements, no
    element that was accepted is lost, and one thread at a time is in the critical
    section. While no operation is under way the semaphores are the numbers of the
    free and of the used slots. *)
Theorem trigger_queue_linearizable n s0 s ts tr :
  0 ≤ CAPACITY ≤ SEM_VALUE_MAX → CAPACITY < U32 → new CAPACITY SEM_VALUE_MAX = Return s0 →
  steps (sys_step SEM_VALUE_MAX) (s0, replicate n Idle) tr (s, ts) → Z.of_nat (length tr) + 2 < USIZE →
  ∃ elems, spec_run fifo_spec [] tr = Some elems ∧ Queue.rep (queue s) elems ∧
    Z.of_nat (length elems) ≤ CAPACITY ∧ total critical ts ≤ 1 ∧
    (total pushing ts + total pushed_ ts + total popping ts + total popped_ ts = 0 →
      used_slots s = Z.of_nat (length elems) ∧ free_slots s = CAPACITY - Z.of_nat (length elems)).
Proof.
  intros Hc Hu Hnew Hst Hb. destruct (tq_reachable_inv n s0 (s, ts) tr Hc Hu Hnew Hst Hb) as (elems & Hrun & Hinv & _).
  destruct Hinv as [H1 H2 H3 H4 H5 H6 _]. cbn [fst snd] in *. exists elems.
  pose proof (total_nonneg pushing ts). pose proof (total_nonneg pushed_ ts).
  pose proof (total_nonneg popping ts). pose proof (total_nonneg popped_ ts).
  split_and!; try done; [lia|rewrite H6; case_bool; lia|intros; lia].
Qed.

(** No operation of the trigger queue panics while the operating system does not
    fail: the queue has room whenever a push has got its slot, [blocking_pop] finds
    an element when it has been woken up, and no semaphore runs over. *)
Theorem trigger_queue_safe n s0 s ts tr :
  0 ≤ CAPACITY ≤ SEM_VALUE_MAX → CAPACITY < U32 → new CAPACITY SEM_VALUE_MAX = Return s0 →
  steps (sys_step SEM_VALUE_MAX) (s0, replicate n Idle) tr (s, ts) → Z.of_nat (length tr) + 2 < USIZE →
  ∀ t a, t ∈ ts → a ≠ Failed → safe (step s a t).
Proof.
  intros Hc Hu Hnew Hst Hb t a Hin Ha.
  destruct (tq_reachable_inv n s0 (s, ts) tr Hc Hu Hnew Hst Hb) as (elems & _ & Hinv & Hq). cbn [fst] in Hq.
  apply list_elem_of_split in Hin as (l & r & ->). pose proof Hinv as [_ _ H3 H4 [Hf Hu0] _ Hts]. cbn [fst snd] in *.
  apply Forall_app in Hts as [_ [Ht _]%Forall_cons]. rewrite !total_split in *.
  pose proof (total_nonneg pushing l). pose proof (total_nonneg pushing r).
  pose proof (total_nonneg popped_ l). pose proof (total_nonneg popped_ r).
  pose proof (total_nonneg popping l). pose proof (total_nonneg popping r).
  pose proof (total_nonneg pushed_ l). pose proof (total_nonneg pushed_ r).
  unfold safe. destruct t as [|k v|v|v| |b|k|k|k|k o|o| | |m f e]; cbn [step]; cbn in H3, H4; eauto.
  - unfold wait. destruct a; try done; case_bool; eauto; destruct k; eauto.
  - destruct a; try done; case_bool; eauto.
  - destruct (push_crit s l v r elems Hinv ltac:(lia)) as (q & -> & _). cbn. eauto.
  - unfold post. zbool. cbn. eauto.
  - unfold wait. destruct a; try done; case_bool; eauto; destruct k; eauto.
  - destruct a; try done; case_bool; eauto.
  - destruct (pop_crit s l k r elems Hinv) as (x & q & -> & _). cbn. eauto.
  - unfold post. zbool. destruct Ht as [x ->]. cbn. destruct k; cbn; eauto.
  - destruct a; try done; case_bool; eauto.
Qed.

(** ** One thread alone *)

(** The thread runs until its operation returns. *)
Fixpoint alone (fuel : nat) s (t : pc T) : outcome (TriggerQueue T * pc T) :=
  match t with
  | PushRet _ | PopRet _ | LenRet _ _ _ => Return (s, t)
  | _ =>
      match fuel with
      | O => Undefined
      | S fuel => let! '(s, t, _) := step s Fine t in alone fuel s t
      end
  end.

Lemma alone_S fuel s t s' t' e :
  step s Fine t = Return (s', t', e) →
  match t with PushRet _ | PopRet _ | LenRet _ _ _ => False | _ => True end →
  alone (S fuel) s t = alone fuel s' t'.
Proof. intros Hst Ht. destruct t; try done; cbn [alone]; rewrite Hst; done. Qed.

Lemma alone_facts s t elems :
  sys_inv (s, [t]) elems → pushing t = 0%nat → pushed_ t = 0%nat → popping t = 0%nat → popped_ t = 0%nat →
  critical t = 0%nat →
  free_slots s = CAPACITY - Z.of_nat (length elems) ∧ used_slots s = Z.of_nat (length elems) ∧ locked s = false.
Proof.
  intros [_ _ H3 H4 _ H6 _] A B C D E. cbn [fst snd] in *. unfold total in *. cbn in *. rewrite A, B, C, D, E in *.
  destruct (locked s); cbn in *; split_and!; try done; lia.
Qed.

(** [tq_access_inv] for a thread without others. *)
Lemma alone_step s t elems s' t' e :
  sys_inv (s, [t]) elems → Queue.start (queue s) + 2 < USIZE → step s Fine t = Return (s', t', e) →
  access_post s [] [] elems s' t' e.
Proof. intros Hinv Hb Hst. by eapply (tq_access_inv s [] t [] Fine). Qed.

Lemma alone_push m s k v elems :
  CAPACITY ≤ SEM_VALUE_MAX → sys_inv (s, [PushWait k v]) elems → Queue.start (queue s) + 3 < USIZE →
  Z.of_nat (length elems) < CAPACITY →
  ∃ s', alone (4 + m) s (PushWait k v) = Return (s', PushRet true) ∧ sys_inv (s', [PushRet true]) (elems ++ [v]).
Proof.
  intros Hmax Hinv Hb Hlt. destruct (alone_facts _ _ _ Hinv) as (Hf & Hu & Hl); try done.
  assert (step s Fine (PushWait k v) = Return (set_free s (free_slots s - 1), PushLock v, None)) as E1.
  { cbn [step]. unfold wait. by zbool. }
  destruct (alone_step _ _ _ _ _ _ Hinv ltac:(lia) E1) as (? & -> & H1 & _).
  set (s1 := set_free s (free_slots s - 1)) in *.
  assert (step s1 Fine (PushLock v) = Return (set_locked s1 true, PushCrit v, None)) as E2.
  { cbn [step]. by replace (locked s1) with false by done. }
  destruct (alone_step s1 _ _ _ _ _ H1 ltac:(cbn; lia) E2) as (? & -> & H2 & _).
  destruct (push_crit (set_locked s1 true) [] v [] elems H2 ltac:(cbn; lia)) as (q & Hq & elems' & He & H3 & Hs3).
  cbn [fifo_spec] in He. revert He. zbool. intros [= <-]. set (s3 := set_locked (set_queue _ q) false) in *.
  assert (step s3 Fine PushPost = Return (set_used s3 (used_slots s3 + 1), PushRet true, None)) as E4.
  { cbn [step]. unfold post. assert (used_slots s3 = used_slots s) as -> by done. by zbool. }
  destruct (alone_step s3 _ _ _ _ _ H3 ltac:(cbn in *; lia) E4) as (? & -> & H4 & _).
  assert (step (set_locked s1 true) Fine (PushCrit v) = Return (s3, PushPost, Some (EPush v))) as E3.
  { cbn [step]. by rewrite Hq. }
  exists (set_used s3 (used_slots s3 + 1)). split; [|done]. cbn [Nat.add].
  rewrite (alone_S _ _ _ _ _ _ E1 I), (alone_S _ _ _ _ _ _ E2 I), (alone_S _ _ _ _ _ _ E3 I),
    (alone_S _ _ _ _ _ _ E4 I). by destruct m.
Qed.

Lemma alone_pop m s k x elems :
  CAPACITY ≤ SEM_VALUE_MAX → sys_inv (s, [PopWait k]) (x :: elems) → Queue.start (queue s) + 2 < USIZE →
  ∃ s' t, pop_end k (Some x) = Return t ∧ alone (4 + m) s (PopWait k) = alone m s' t ∧ sys_inv (s', [t]) elems ∧
    Queue.start (queue s') ≤ Queue.start (queue s).
Proof.
  intros Hmax Hinv Hb. destruct (alone_facts _ _ _ Hinv) as (Hf & Hu & Hl); try done. cbn [length] in *.
  assert (step s Fine (PopWait k) = Return (set_used s (used_slots s - 1), PopLock k, None)) as E1.
  { cbn [step]. unfold wait. by zbool. }
  destruct (alone_step _ _ _ _ _ _ Hinv ltac:(lia) E1) as (? & -> & H1 & _).
  set (s1 := set_used s (used_slots s - 1)) in *.
  assert (step s1 Fine (PopLock k) = Return (set_locked s1 true, PopCrit k, None)) as E2.
  { cbn [step]. by replace (locked s1) with false by done. }
  destruct (alone_step s1 _ _ _ _ _ H1 ltac:(cbn; lia) E2) as (? & -> & H2 & _).
  destruct (pop_crit (set_locked s1 true) [] k [] (x :: elems) H2) as (y & q & Hq & elems' & He & H3 & Hs3).
  cbn [fifo_spec] in He. destruct (decide (x = y)) as [<-|]; [|done]. injection He as <-.
  assert (Queue.start q = Queue.start (queue s)) as Hqs.
  { pose proof (Queue.mq_pop _ _ (inv_rep _ _ _ Hinv)) as (q' & Hq' & _ & Hst & _).
    cbn [fst] in Hq', Hst. change (Queue.pop (queue s) = Return (Some x, q)) in Hq. rewrite Hq in Hq'.
    by injection Hq' as <-. }
  set (s3 := set_locked (set_queue _ q) false) in *.
  assert (∃ t, pop_end k (Some x) = Return t) as [t Ht] by (destruct k; cbn; eauto).
  assert (step s3 Fine (PopPost k (Some x)) = Return (set_free s3 (free_slots s3 + 1), t, None)) as E4.
  { cbn [step]. unfold post. assert (free_slots s3 = free_slots s) as -> by done. zbool. cbn [obind]. by rewrite Ht. }
  destruct (alone_step s3 _ _ _ _ _ H3 ltac:(cbn; lia) E4) as (? & -> & H4 & _).
  assert (step (set_locked s1 true) Fine (PopCrit k) = Return (s3, PopPost k (Some x), Some (EPop x))) as E3.
  { cbn [step]. by rewrite Hq. }
  exists (set_free s3 (free_slots s3 + 1)), t. split; [done|]. split; [|split; [done|cbn; lia]]. cbn [Nat.add].
  by rewrite (alone_S _ _ _ _ _ _ E1 I), (alone_S _ _ _ _ _ _ E2 I), (alone_S _ _ _ _ _ _ E3 I),
    (alone_S _ _ _ _ _ _ E4 I).
Qed.

(** The operations return: on its own, [try_push] appends the element or finds the
    queue full, [try_pop] takes the oldest element or finds the queue empty, and the
    loop of [clear] ends with the empty queue, after four calls of the operating
    system for every element. *)
Theorem trigger_queue_operations_return s v elems :
  CAPACITY ≤ SEM_VALUE_MAX → sys_inv (s, [Idle]) elems → Queue.start (queue s) + 3 < USIZE →
  (∃ s' , alone 4 s (PushWait Try v) = Return (s', PushRet (Z.of_nat (length elems) <? CAPACITY)) ∧
     Queue.rep (queue s') (if Z.of_nat (length elems) <? CAPACITY then elems ++ [v] else elems)) ∧
  (∃ s', alone 4 s (PopWait Try) = Return (s', PopRet (List.hd_error elems)) ∧ Queue.rep (queue s') (List.tl elems)) ∧
  (∃ s', alone (4 * length elems + 1) s (PopWait Clear) = Return (s', PopRet None) ∧ Queue.rep (queue s') []).
Proof.
  intros Hmax Hinv Hb.
  assert (∀ t, start Idle t → sys_inv (s, [t]) elems) as Hstart by (intros t Ht; by apply (tq_start_inv s [] Idle t [])).
  destruct (alone_facts _ _ _ Hinv) as (Hf & Hu & Hl); try done. split_and!.
  - destruct (Z.ltb_spec (Z.of_nat (length elems)) CAPACITY) as [Hlt|Hge].
    + destruct (alone_push 0 s Try v elems Hmax) as (s' & Hr & Hi); try done; [by apply Hstart; constructor|].
      exists s'. split; [exact Hr|apply Hi].
    + exists s. cbn [alone step]. unfold wait. zbool. split; [done|apply Hinv].
  - destruct elems as [|x elems].
    + exists s. cbn in *. rewrite Hu. split; [done|apply Hinv].
    + destruct (alone_pop 0 s Try x elems Hmax) as (s' & t & Ht & Hr & Hi & _); [by apply Hstart; constructor|lia|].
      injection Ht as <-. exists s'. split; [exact Hr|apply Hi].
  - assert (sys_inv (s, [PopWait Clear]) elems) as Hc by (by apply Hstart; constructor).
    clear Hinv Hf Hu Hl Hstart. revert s Hb Hc. induction elems as [|x elems IH]; intros s Hb Hc.
    + destruct (alone_facts _ _ _ Hc) as (_ & Hu & _); try done. exists s. cbn in *. rewrite Hu. split; [done|apply Hc].
    + destruct (alone_pop (4 * length elems + 1) s Clear x elems Hmax Hc) as (s' & t & Ht & Hr & Hi & Hs); [lia|].
      injection Ht as <-. replace (4 * length (x :: elems) + 1)%nat with (4 + (4 * length elems + 1))%nat by (cbn; lia).
      rewrite Hr. apply IH; [lia|done].
Qed.
End Theorems.

(** ** Witnesses *)

Section Witnesses.
#[local] Instance checked : Profile := true.

(** A push of 7 is finished, another thread waits for an element and has got it. *)
Definition empty_queue : TriggerQueue Z := mkTriggerQueue (Queue.new 2) false 2 0.
Definition queue_of_7 : Queue.Queue Z := Queue.mkQueue [Some 7; None] 1 1 2 true.
Definition after_push : TriggerQueue Z := mkTriggerQueue queue_of_7 false 1 0.

Lemma trigger_sample_run :
  steps (sys_step 10) (empty_queue, replicate 2 Idle) [EPush 7] (after_push, [PushRet true; PopLock Blocking]).
Proof.
  eapply steps_silent;
    [|apply (sys_access 10 (set_used after_push 1) [PushRet true] (PopWait Blocking) [] Fine); reflexivity].
  eapply steps_silent; [|apply (sys_access 10 after_push [] PushPost [PopWait Blocking] Fine); reflexivity].
  eapply (steps_label _ _ []);
    [|apply (sys_access 10 (mkTriggerQueue (Queue.new 2) true 1 0) [] (PushCrit 7) [PopWait Blocking] Fine); reflexivity].
  eapply steps_silent;
    [|apply (sys_access 10 (set_free empty_queue 1) [] (PushLock 7) [PopWait Blocking] Fine); reflexivity].
  eapply steps_silent; [|apply (sys_access 10 empty_queue [] (PushWait Try 7) [PopWait Blocking] Fine); reflexivity].
  eapply steps_silent; [|apply (sys_access 10 empty_queue [PushWait Try 7] (PopWait Blocking) [] Fine); reflexivity].
  eapply steps_silent; [|apply (sys_start 10 empty_queue [PushWait Try 7] Idle (PopWait Blocking) []); constructor].
  eapply steps_silent; [|apply (sys_start 10 empty_queue [] Idle (PushWait Try 7) [Idle]); by constructor].
  apply steps_refl.
Qed.

Lemma trigger_queue_linearizable_witness :
  ∃ elems, spec_run (fifo_spec 2) [] [EPush 7] = Some elems ∧ Queue.rep queue_of_7 elems ∧
    Z.of_nat (length elems) ≤ 2.
Proof.
  destruct (trigger_queue_linearizable 2 10 2 empty_queue after_push [PushRet true; PopLock Blocking] [EPush 7])
    as (elems & H1 & H2 & H3 & _); [lia|reflexivity|reflexivity|exact trigger_sample_run|reflexivity|].
  exists elems. exact (conj H1 (conj H2 H3)).
Defined.

Lemma trigger_queue_safe_witness : safe (step 10 after_push Fine (PopLock Blocking)).
Proof.
  apply (trigger_queue_safe 2 10 2 empty_queue after_push [PushRet true; PopLock Blocking] [EPush 7]);
    [lia|reflexivity|reflexivity|exact trigger_sample_run|reflexivity| |discriminate].
  right. left.
Defined.

Lemma trigger_queue_operations_return_witness :
  ∃ s', alone 10 4 empty_queue (PushWait Try 7) = Return (s', PushRet true) ∧ Queue.rep (queue s') [7].
Proof.
  apply (trigger_queue_operations_return 2 10 empty_queue 7 []); [lia| |reflexivity].
  destruct (tq_new_inv (T := Z) 2 10 1 ltac:(lia) ltac:(reflexivity)) as (s & Hs & Hi & _). injection Hs as <-. exact Hi.
Defined.
End Witnesses.
End TriggerQueue.
