(* ===== verification/Events.v ===== *)
(** * Events within a process

    elkodon_cal/src/event/process_local.rs over
    elkodon_bb/posix/src/condition_variable.rs: a queue of trigger ids behind a mutex,
    and a condition variable to sleep on while it is empty. The mutex and the
    condition variable of the operating system do what POSIX says: a signal wakes a
    sleeper if there is one, and a sleeper can wake up for no reason or after its
    time. The calls of all threads interleave in any order.

    The theorems show that no trigger id is lost, that [blocking_wait] never comes
    back without one and that nobody sleeps through a signal, unless a waiter with a
    timeout takes it away. *)

From S2P Require Import Prelude Ring BbContainers.

Module LocalEvent.

(** [blocking_wait], and [timed_wait] or [try_wait], whose timeout is zero. *)
Inductive kind := Blocking | Timed.

(** What the operating system answers; to a sleeper: [Fine] is [ESUCCES]. *)
Inductive answer := Fine | TimedOut | Failed.

Inductive NotifierNotifyError := FailedToDeliverSignal | NotifyInternalFailure.
Inductive ListenerWaitError := ContractViolation | WaitInternalFailure.

Inductive event := ENotify (id : Z) | EReceive (id : Z).

Section Operations.
Context `{P : Profile}.
Context (DEFAULT_CAPACITY : Z).

Record Management := mkManagement { queue : Queue.Queue Z; locked : bool }.
Definition set_locked (m : Management) (b : bool) := mkManagement (queue m) b.

Definition new : Management := mkManagement (Queue.new DEFAULT_CAPACITY) false.

(** [Notify...]: [modify_notify_one] of [notify]; [Wait...]: [wait_while] and
    [timed_wait_while]; [WaitElapsed]: after waking up, with the mutex. *)
Inductive pc :=
| Idle
| NotifyLock (id : Z)
| NotifyCrit (id : Z)
| NotifySignal (r : bool)
| NotifyRet (r : result unit NotifierNotifyError)
| WaitLock (k : kind)
| WaitTest (k : kind)
| Sleeping (k : kind)
| Woken (k : kind) (w : answer)
| WaitElapsed
| WaitRet (r : result (option Z) ListenerWaitError).

(** The end of [notify]. *)
Definition notified (r : bool) : pc :=
  NotifyRet (if r then Ok tt else Err FailedToDeliverSignal).

(** A call of the operating system by one thread. A critical section is one step with
    the call that leaves it. *)
Definition step (m : Management) (a : answer) (t : pc) : outcome (Management * pc * option event) :=
  match t with
  | Idle | NotifyRet _ | WaitRet _ => Return (m, t, None)
  | NotifyLock id =>
      match a with
      | Failed => Return (m, NotifyRet (Err NotifyInternalFailure), None)
      | _ => if locked m then Return (m, t, None) else Return (set_locked m true, NotifyCrit id, None)
      end
  | NotifyCrit id =>
      let! '(r, q) := Queue.push (queue m) id in
      Return (mkManagement q false, NotifySignal r, if (r : bool) then Some (ENotify id) else None)
  | NotifySignal r => match a with Failed => Panic | _ => Return (m, notified r, None) end
  | WaitLock k =>
      match a with
      | Failed => Return (m, WaitRet (Err WaitInternalFailure), None)
      | _ => if locked m then Return (m, t, None) else Return (set_locked m true, WaitTest k, None)
      end
  | WaitTest k =>
      if negb (Queue.is_empty (queue m)) then
        let! '(r, q) := Queue.pop (queue m) in
        Return (mkManagement q false, WaitRet (Ok r), EReceive <$> r)
      else
        match a with
        | Failed => Return (set_locked m false, WaitRet (Err WaitInternalFailure), None)
        | _ => Return (set_locked m false, Sleeping k, None)
        end
  | Sleeping k => Return (m, match k, a with Timed, _ | Blocking, Fine => Woken k a | _, _ => t end, None)
  | Woken k w =>
      if locked m then Return (m, t, None)
      else match k, w with
           | Blocking, Fine => Return (set_locked m true, WaitTest Blocking, None)
           | Timed, Fine => Return (set_locked m true, WaitElapsed, None)
           | _, TimedOut => Return (m, WaitRet (Ok None), None)
           | _, Failed => Return (m, WaitRet (Err WaitInternalFailure), None)
           end
  | WaitElapsed =>
      match a with
      | Fine => Return (m, WaitTest Timed, None)
      | TimedOut => Return (set_locked m false, WaitRet (Ok None), None)
      | Failed => Return (set_locked m false, WaitRet (Err WaitInternalFailure), None)
      end
  end.

Inductive start : pc → pc → Prop :=
| start_notify id : start Idle (NotifyLock id)
| start_wait k : start Idle (WaitLock k)
| returned_notify r : start (NotifyRet r) Idle
| returned_wait r : start (WaitRet r) Idle.

(** A signal wakes one of the sleepers if there are any. *)
Definition is_sleeping (t : pc) : bool := match t with Sleeping _ => true | _ => false end.
Definition woken (t : pc) : pc := match t with Sleeping k => Woken k Fine | t => t end.

Inductive sys_step (allow : pc → answer → bool) : Management * list pc → option event → Management * list pc → Prop :=
| sys_start m ts i t t' :
    ts !! i = Some t → start t t' → allow t' Fine = true → sys_step allow (m, ts) None (m, <[i := t']> ts)
| sys_access m ts i t a m' t' e :
    ts !! i = Some t → allow t a = true → step m a t = Return (m', t', e) →
    (∀ r, t = NotifySignal r → ¬ ∃ j u, ts !! j = Some u ∧ is_sleeping u = true) →
    sys_step allow (m, ts) e (m', <[i := t']> ts)
| sys_signal m ts i r j u :
    ts !! i = Some (NotifySignal r) → ts !! j = Some u → is_sleeping u = true →
    sys_step allow (m, ts) None (m, <[j := woken u]> (<[i := notified r]> ts)).

(** The operating system does not fail; and nobody waits with a timeout. *)
Definition no_failure (t : pc) (a : answer) : bool := match a with Failed => false | _ => true end.
Definition no_timeout (t : pc) (a : answer) : bool :=
  no_failure t a &&
  match t with WaitLock Timed | WaitTest Timed | Sleeping Timed | Woken Timed _ | WaitElapsed => false | _ => true end.
Definition anything (t : pc) (a : answer) : bool := true.

(** ** Specification and invariant *)

Definition fifo_spec (l : list Z) (e : event) : option (list Z) :=
  match e with
  | ENotify v => if Z.of_nat (length l) <? DEFAULT_CAPACITY then Some (l ++ [v]) else None
  | EReceive v => match l with x :: l => if x =? v then Some l else None | [] => None end
  end.

Definition critical (t : pc) : nat := match t with NotifyCrit _ | WaitTest _ | WaitElapsed => 1 | _ => 0 end.
Definition sleeping (t : pc) : nat := match t with Sleeping _ => 1 | _ => 0 end.
(** On the way to look at the queue, or to send a signal. *)
Definition awake (t : pc) : nat :=
  match t with WaitLock _ | WaitTest _ | Woken _ _ | NotifySignal _ => 1 | _ => 0 end.

Record sys_inv (x : Management * list pc) (l : list Z) : Prop := {
  inv_rep : Queue.rep (queue x.1) l;
  inv_capacity : Queue.capacity (queue x.1) = DEFAULT_CAPACITY;
  inv_locked : total critical x.2 = if locked x.1 then 1 else 0
}.

Definition blocking_only (t : pc) : Prop :=
  match t with
  | WaitLock k | WaitTest k | Sleeping k => k = Blocking
  | Woken k w => k = Blocking ∧ w = Fine
  | WaitElapsed => False
  | WaitRet r => r ≠ Ok None
  | _ => True
  end.

Record wake_inv (ts : list pc) (l : list Z) : Prop := {
  wake_kind : Forall blocking_only ts;
  wake_enough : 0 < total sleeping ts → Z.of_nat (length l) ≤ total awake ts
}.
End Operations.

Section Theorems.
Context `{P : Profile}.
Context (DEFAULT_CAPACITY : Z).
Implicit Types (m : Management) (ts : list pc) (l : list Z).

#[local] Notation sys_inv := (sys_inv DEFAULT_CAPACITY).
#[local] Notation fifo_spec := (fifo_spec DEFAULT_CAPACITY).


(** The critical section is left or not touched. *)
Definition access_post m ts i l m' t' (e : option event) : Prop :=
  ∃ l', match e with Some e => fifo_spec l e = Some l' | None => l' = l end ∧
    sys_inv (m', <[i := t']> ts) l' ∧
    Queue.start (queue m') ≤ Queue.start (queue m) + match e with Some _ => 1 | None => 0 end.

Lemma access_queue m ts i t l m' t' :
  sys_inv (m, ts) l → ts !! i = Some t → queue m' = queue m →
  Z.of_nat (critical t') - (if locked m' then 1 else 0) = Z.of_nat (critical t) - (if locked m then 1 else 0) →
  access_post m ts i l m' t' None.
Proof.
  intros [H1 H2 H3] Hi Hq Hc. cbn [fst snd] in *. exists l. split; [done|]. split; [|by rewrite Hq, Z.add_0_r].
  constructor; cbn [fst snd]; rewrite ?Hq, ?(total_insert _ _ _ _ _ Hi); try done. lia.
Qed.

Lemma critical_locked m ts i t l :
  sys_inv (m, ts) l → ts !! i = Some t → critical t = 1%nat → locked m = true.
Proof.
  intros [_ _ H3] Hi Hc. cbn [fst snd] in H3. pose proof (total_lookup critical ts i t Hi). rewrite Hc in *.
  destruct (locked m); [done|]. lia.
Qed.

Lemma notify_crit m ts i id l :
  sys_inv (m, ts) l → ts !! i = Some (NotifyCrit id) → Queue.start (queue m) + 2 < USIZE →
  let ok := Z.of_nat (length l) <? DEFAULT_CAPACITY in
  ∃ q, Queue.push (queue m) id = Return (ok, q) ∧
    access_post m ts i l (mkManagement q false) (NotifySignal ok) (if ok then Some (ENotify id) else None).
Proof.
  intros Hinv Hi Hb ok. pose proof (critical_locked _ _ _ _ _ Hinv Hi eq_refl) as Hlk.
  pose proof Hinv as [H1 H2 H3]. cbn [fst snd] in *. rewrite Hlk in H3.
  pose proof H1 as [Hini _ Hlen Hbd _ _ _]. unfold Queue.push, ok.
  destruct (Z.ltb_spec (Z.of_nat (length l)) DEFAULT_CAPACITY) as [Hlt|Hge].
  - rewrite (proj2 (Z.eqb_neq _ _)) by lia. unfold Queue.verify_init. rewrite Hini. cbn [obind].
    destruct (Queue.mq_unchecked_push (queue m) l id H1) as (q & -> & Hs & Hc & Hrep); [lia|].
    cbn [obind]. exists q. split; [done|]. exists (l ++ [id]). cbn [fifo_spec]. zbool. split; [done|].
    split; [|cbn; lia]. constructor; cbn [fst snd queue locked]; [apply Hrep; lia|lia|].
    rewrite (total_insert _ _ _ _ _ Hi). cbn. lia.
  - rewrite (proj2 (Z.eqb_eq _ _)) by lia. exists (queue m). split; [done|].
    eapply access_queue; try done. cbn. rewrite Hlk. lia.
Qed.

Lemma wait_test m ts i k l x l' :
  sys_inv (m, ts) l → ts !! i = Some (WaitTest k) → l = x :: l' →
  ∃ q, Queue.pop (queue m) = Return (Some x, q) ∧
    access_post m ts i l (mkManagement q false) (WaitRet (Ok (Some x))) (Some (EReceive x)).
Proof.
  intros Hinv Hi ->. pose proof (critical_locked _ _ _ _ _ Hinv Hi eq_refl) as Hlk.
  pose proof Hinv as [H1 H2 H3]. cbn [fst snd] in *. rewrite Hlk in H3.
  destruct (Queue.mq_pop (queue m) (x :: l') H1) as (q & Hp & Hrep & Hs & Hc). exists q. split; [done|].
  exists l'. cbn. rewrite Z.eqb_refl. split; [done|]. split; [|cbn; lia].
  constructor; cbn [fst snd queue locked]; [done|congruence|]. rewrite (total_insert _ _ _ _ _ Hi). cbn. lia.
Qed.

Lemma queue_empty m ts l : sys_inv (m, ts) l → Queue.is_empty (queue m) = match l with [] => true | _ => false end.
Proof.
  intros [[_ _ Hlen _ _ _ _] _ _]. cbn [fst] in Hlen. unfold Queue.is_empty. rewrite Hlen. by destruct l.
Qed.

Lemma event_access_inv m ts i t a l m' t' e :
  sys_inv (m, ts) l → ts !! i = Some t → Queue.start (queue m) + 2 < USIZE → step m a t = Return (m', t', e) →
  access_post m ts i l m' t' e.
Proof.
  intros Hinv Hi Hb Hst. pose proof (critical_locked _ _ _ _ _ Hinv Hi) as Hlk.
  destruct t as [|id|id|r|r|k|k|k|k w| |r]; cbn [step critical] in *;
    try (injection Hst as <- <- <-; by eapply access_queue).
  - destruct a; try (injection Hst as <- <- <-; by eapply access_queue);
      (destruct (locked m) eqn:El; injection Hst as <- <- <-; eapply access_queue; try done; cbn; rewrite ?El; lia).
  - destruct (notify_crit m ts i id l Hinv Hi Hb) as (q & Hp & Hpost). rewrite Hp in Hst. cbn [obind] in Hst.
    by injection Hst as <- <- <-.
  - destruct a; try done; injection Hst as <- <- <-; by eapply access_queue.
  - destruct a; try (injection Hst as <- <- <-; by eapply access_queue);
      (destruct (locked m) eqn:El; injection Hst as <- <- <-; eapply access_queue; try done; cbn; rewrite ?El; lia).
  - rewrite (queue_empty m ts l Hinv) in Hst. destruct l as [|x l]; cbn [negb] in Hst.
    + destruct a; injection Hst as <- <- <-; (eapply access_queue; try done; cbn; rewrite (Hlk eq_refl); lia).
    + destruct (wait_test m ts i k _ x l Hinv Hi eq_refl) as (q & Hp & Hpost). rewrite Hp in Hst. cbn [obind] in Hst.
      by injection Hst as <- <- <-.
  - injection Hst as <- <- <-. eapply access_queue; try done. by destruct k, a.
  - destruct (locked m) eqn:El; [injection Hst as <- <- <-; by eapply access_queue|].
    destruct k, w; injection Hst as <- <- <-; (eapply access_queue; try done; cbn; rewrite ?El; lia).
  - destruct a; injection Hst as <- <- <-; (eapply access_queue; try done; cbn; rewrite ?(Hlk eq_refl); lia).
Qed.

Lemma signal_inv m ts i r j u l :
  sys_inv (m, ts) l → ts !! i = Some (NotifySignal r) → ts !! j = Some u → is_sleeping u = true →
  sys_inv (m, <[j := woken u]> (<[i := notified r]> ts)) l ∧ <[i := notified r]> ts !! j = Some u.
Proof.
  intros Hinv Hi Hj Hu. assert (i ≠ j) as Hne by (intros ->; rewrite Hi in Hj; by injection Hj as <-).
  assert (<[i := notified r]> ts !! j = Some u) as Hj' by (by rewrite list_lookup_insert_ne).
  split; [|done]. destruct (access_queue m ts i _ l m (notified r) Hinv Hi) as (? & -> & H1 & _); [done|by destruct r|].
  destruct (access_queue m _ j u l m (woken u) H1 Hj') as (? & -> & H2 & _); [done|by destruct u|done].
Qed.

Lemma event_reachable_inv allow n x tr :
  0 ≤ DEFAULT_CAPACITY < USIZE →
  steps (sys_step allow) (new DEFAULT_CAPACITY, replicate n Idle) tr x → Z.of_nat (length tr) + 2 < USIZE →
  ∃ l, spec_run fifo_spec [] tr = Some l ∧ sys_inv x l ∧ Queue.start (queue x.1) ≤ Z.of_nat (length tr).
Proof.
  intros Hcap Hst. revert x tr Hst.
  apply (steps_invariant _ (λ x tr, Z.of_nat (length tr) + 2 < USIZE →
    ∃ l, spec_run fifo_spec [] tr = Some l ∧ sys_inv x l ∧ Queue.start (queue x.1) ≤ Z.of_nat (length tr))).
  - intros _. exists []. split; [done|]. split; [|done]. constructor; cbn [fst snd]; [by apply Queue.mq_new_rep|done|].
    by rewrite total_replicate.
  - intros x tr x' _ IH Hst Hb. destruct (IH Hb) as (l & Hrun & Hinv & Hw). exists l.
    inversion Hst as [m ts i t t' Hi Ht _|m ts i t a m' t' e Hi _ Ht _|m ts i r j u Hi Hj Hu]; subst; cbn [fst] in *.
    + destruct (access_queue m ts i t l m t' Hinv Hi) as (? & -> & Hinv' & _); [done|by destruct Ht|]. done.
    + destruct (event_access_inv _ _ _ _ _ _ _ _ _ Hinv Hi ltac:(lia) Ht) as (l' & -> & Hinv' & Hs). split_and!; [done..|lia].
    + by destruct (signal_inv _ _ _ _ _ _ _ Hinv Hi Hj Hu).
  - intros x tr e x' _ IH Hst Hb. rewrite length_app in *. cbn [length] in *. destruct IH as (l & Hrun & Hinv & Hw); [lia|].
    inversion Hst as [|m ts i t a m' t' e' Hi _ Ht _|]; subst; cbn [fst] in *.
    destruct (event_access_inv _ _ _ _ _ _ _ _ _ Hinv Hi ltac:(lia) Ht) as (l' & He & Hinv' & Hs). exists l'.
    split_and!; [by rewrite spec_run_app, Hrun; cbn; rewrite He|done|lia].
Qed.

(** The event is a queue: under every interleaving, with timeouts and failures,
    the ids that were accepted are received in their order, each once; one thread at
    a time is in the critical section. *)
Theorem local_event_linearizable n m ts tr :
  0 ≤ DEFAULT_CAPACITY < USIZE →
  steps (sys_step anything) (new DEFAULT_CAPACITY, replicate n Idle) tr (m, ts) → Z.of_nat (length tr) + 2 < USIZE →
  ∃ l, spec_run fifo_spec [] tr = Some l ∧ Queue.rep (queue m) l ∧ Z.of_nat (length l) ≤ DEFAULT_CAPACITY ∧
    total critical ts ≤ 1.
Proof.
  intros Hcap Hst Hb. destruct (event_reachable_inv _ _ _ _ Hcap Hst Hb) as (l & Hrun & [H1 H2 H3] & _). cbn [fst snd] in *.
  exists l. pose proof H1 as [_ _ ? ? _ _ _]. split_and!; [done..|lia|]. rewrite H3. case_bool; lia.
Qed.

(** ** Nobody sleeps through a signal *)

Lemma wake_change ts i t t' l l' :
  wake_inv ts l → ts !! i = Some t → blocking_only t' → (sleeping t' ≤ sleeping t)%nat →
  Z.of_nat (length l') - Z.of_nat (awake t') ≤ Z.of_nat (length l) - Z.of_nat (awake t) →
  wake_inv (<[i := t']> ts) l'.
Proof.
  intros [Hk He] Hi Ht Hs Ha. constructor; [by apply Forall_insert|]. rewrite !(total_insert _ _ _ _ _ Hi).
  intros H. lia.
Qed.

(** An empty queue is no reason to wake up. *)
Lemma wake_empty ts i t' : Forall blocking_only ts → blocking_only t' → wake_inv (<[i := t']> ts) [].
Proof. intros Hk Ht. constructor; [by apply Forall_insert|]. intros _. cbn. unfold total. lia. Qed.

Lemma wake_access m ts i t a l m' t' e l' :
  sys_inv (m, ts) l → wake_inv ts l → ts !! i = Some t → no_timeout t a = true →
  step m a t = Return (m', t', e) → (∀ r, t = NotifySignal r → total sleeping ts = 0) →
  match e with Some e => fifo_spec l e = Some l' | None => l' = l end → wake_inv (<[i := t']> ts) l'.
Proof.
  intros Hinv Hw Hi Ha Hst Hsig He. pose proof Hw as [Hk Hen]. pose proof (Forall_lookup_1 _ _ _ _ Hk Hi) as Hti.
  destruct t as [|id|id|r|r|k|k|k|k w| |r]; cbn [step blocking_only] in *; subst;
    try (by destruct a; injection Hst as <- <- <-; subst; eapply wake_change).
  - destruct a; try discriminate Ha; destruct (locked m); injection Hst as <- <- <-; subst; by eapply wake_change.
  - destruct (Queue.push (queue m) id) as [[r q]| |]; try done. injection Hst as <- <- <-. destruct r; subst.
    + cbn in He. revert He. case_bool; [|done]. intros [= <-]. eapply wake_change; try done. rewrite length_app. cbn. lia.
    + eapply wake_change; try done. cbn. lia.
  - destruct a; try discriminate Ha; injection Hst as <- <- <-; subst; constructor;
      try (apply Forall_insert; [done|by destruct r]);
      rewrite (total_insert sleeping _ _ _ _ Hi), (Hsig r eq_refl); destruct r; cbn; lia.
  - destruct a; try discriminate Ha; destruct (locked m); injection Hst as <- <- <-; subst; by eapply wake_change.
  - rewrite (queue_empty m ts l Hinv) in Hst. destruct l as [|x l]; cbn [negb] in Hst.
    + destruct a; try discriminate Ha; injection Hst as <- <- <-; subst; by apply wake_empty.
    + destruct (wait_test m ts i Blocking _ x l Hinv Hi eq_refl) as (q & Hp & _). rewrite Hp in Hst. cbn [obind] in Hst.
      injection Hst as <- <- <-. cbn in He. rewrite Z.eqb_refl in He. injection He as <-.
      eapply wake_change; try done. cbn [length awake]. lia.
  - destruct a; try discriminate Ha; injection Hst as <- <- <-; subst; (eapply wake_change; try done; cbn; lia).
  - destruct Hti as [-> ->]. destruct (locked m); injection Hst as <- <- <-; subst; by eapply wake_change.
Qed.

Lemma total_sleeping_zero ts : ¬ (∃ j u, ts !! j = Some u ∧ is_sleeping u = true) → total sleeping ts = 0.
Proof.
  intros Hn. unfold total. induction ts as [|t ts IH]; [done|]. cbn.
  assert (sleeping t = 0%nat) as ->.
  { destruct t; try done. exfalso. apply Hn. by exists 0%nat, (Sleeping k). }
  apply IH. intros (j & u & Hj & Hu). apply Hn. by exists (S j), u.
Qed.

Lemma wake_signal ts i r j u l :
  wake_inv ts l → ts !! i = Some (NotifySignal r) → ts !! j = Some u → is_sleeping u = true →
  <[i := notified r]> ts !! j = Some u → wake_inv (<[j := woken u]> (<[i := notified r]> ts)) l.
Proof.
  intros [Hk He] Hi Hj Hu Hj'. pose proof (Forall_lookup_1 _ _ _ _ Hk Hj) as Hbu. destruct u as [| | | | | | |k| | |]; try done.
  cbn in Hbu. subst k. constructor.
  - apply Forall_insert; [apply Forall_insert; [done|by destruct r]|done].
  - rewrite !(total_insert _ _ _ _ _ Hj'), !(total_insert _ _ _ _ _ Hi). destruct r; cbn; lia.
Qed.

Lemma reachable_wake n x tr :
  0 ≤ DEFAULT_CAPACITY < USIZE →
  steps (sys_step no_timeout) (new DEFAULT_CAPACITY, replicate n Idle) tr x → Z.of_nat (length tr) + 2 < USIZE →
  ∃ l, spec_run fifo_spec [] tr = Some l ∧ wake_inv x.2 l.
Proof.
  intros Hcap Hst. revert x tr Hst.
  apply (steps_invariant _ (λ x tr, Z.of_nat (length tr) + 2 < USIZE →
    ∃ l, spec_run fifo_spec [] tr = Some l ∧ wake_inv x.2 l)).
  - intros _. exists []. split; [done|]. constructor; [by apply Forall_replicate|]. cbn. by rewrite total_replicate.
  - intros x tr x' Hreach IH Hst Hb. destruct (IH Hb) as (l & Hrun & Hw). exists l. split; [done|].
    destruct (event_reachable_inv _ _ _ _ Hcap Hreach Hb) as (l0 & Hrun0 & Hinv & _). rewrite Hrun in Hrun0. injection Hrun0 as <-.
    inversion Hst as [m ts i t t' Hi Ht Ha|m ts i t a m' t' e Hi Ha Ht Hsig|m ts i r j u Hi Hj Hu]; subst; cbn [fst snd] in *.
    + pose proof (Forall_lookup_1 _ _ _ _ (wake_kind _ _ Hw) Hi) as Hti.
      destruct Ht as [id|k|r|r]; eapply wake_change; try done; try (cbn; lia). by destruct k.
    + eapply wake_access; try done. intros r ->. apply total_sleeping_zero. by eapply Hsig.
    + eapply wake_signal; try done. by destruct (signal_inv _ _ _ _ _ _ _ Hinv Hi Hj Hu).
  - intros x tr e x' Hreach IH Hst Hb. rewrite length_app in Hb. cbn [length] in Hb. destruct IH as (l & Hrun & Hw); [lia|].
    destruct (event_reachable_inv _ _ _ _ Hcap Hreach ltac:(lia)) as (l0 & Hrun0 & Hinv & Hq).
    rewrite Hrun in Hrun0. injection Hrun0 as <-.
    inversion Hst as [|m ts i t a m' t' e' Hi Ha Ht Hsig|]; subst; cbn [fst snd] in *.
    destruct (event_access_inv _ _ _ _ _ _ _ _ _ Hinv Hi ltac:(lia) Ht) as (l' & He & _). exists l'.
    split; [by rewrite spec_run_app, Hrun; cbn; rewrite He|]. eapply wake_access; try done.
    intros r ->. apply total_sleeping_zero. by eapply Hsig.
Qed.

(** C19. Without timeouts nobody sleeps through a signal: while somebody sleeps in
    [blocking_wait], there is for every id in the queue a thread that is awake and
    about to look at the queue, or about to send a signal; and [blocking_wait] never
    returns without an id. *)
Theorem no_signal_is_lost n m ts tr :
  0 ≤ DEFAULT_CAPACITY < USIZE →
  steps (sys_step no_timeout) (new DEFAULT_CAPACITY, replicate n Idle) tr (m, ts) → Z.of_nat (length tr) + 2 < USIZE →
  ∃ l, Queue.rep (queue m) l ∧ (0 < total sleeping ts → Z.of_nat (length l) ≤ total awake ts) ∧
    WaitRet (Ok None) ∉ ts.
Proof.
  intros Hcap Hst Hb. destruct (reachable_wake _ _ _ Hcap Hst Hb) as (l & Hrun & [Hk He]).
  destruct (event_reachable_inv _ _ _ _ Hcap Hst Hb) as (l0 & Hrun0 & [Hrep _ _] & _). rewrite Hrun in Hrun0. injection Hrun0 as <-.
  cbn [fst snd] in *. exists l. split; [done|]. split; [done|]. intros Hin. rewrite Forall_forall in Hk. by apply (Hk _ Hin).
Qed.
End Theorems.

(** ** Schedules that are executed *)

Inductive command := Begin (i : nat) (t' : pc) | Run (i : nat) (a : answer) | Signal (i j : nat).

Definition starts (t t' : pc) : bool :=
  match t, t' with
  | Idle, NotifyLock _ | Idle, WaitLock _ | NotifyRet _, Idle | WaitRet _, Idle => true
  | _, _ => false
  end.
Definition nobody_sleeps (ts : list pc) : bool := forallb (λ u, negb (is_sleeping u)) ts.
Definition signals (t : pc) : bool := match t with NotifySignal _ => true | _ => false end.

Definition exec1 `{P : Profile} (allow : pc → answer → bool) (x : Management * list pc) (c : command)
    : option (option event * (Management * list pc)) :=
  let '(m, ts) := x in
  match c with
  | Begin i t' =>
      t ← ts !! i; if starts t t' && allow t' Fine then Some (None, (m, <[i := t']> ts)) else None
  | Run i a =>
      t ← ts !! i;
      if allow t a && (negb (signals t) || nobody_sleeps ts) then
        match step m a t with Return (m', t', e) => Some (e, (m', <[i := t']> ts)) | _ => None end
      else None
  | Signal i j =>
      t ← ts !! i; u ← ts !! j;
      match t with
      | NotifySignal r =>
          if is_sleeping u then Some (None, (m, <[j := woken u]> (<[i := notified r]> ts))) else None
      | _ => None
      end
  end.

Fixpoint exec `{P : Profile} allow x (tr : list event) (cs : list command) : option (Management * list pc * list event) :=
  match cs with
  | [] => Some (x, tr)
  | c :: cs => '(e, x) ← exec1 allow x c; exec allow x (tr ++ match e with Some e => [e] | None => [] end) cs
  end.

Lemma exec1_step `{P : Profile} allow x c e x' : exec1 allow x c = Some (e, x') → sys_step allow x e x'.
Proof.
  destruct x as [m ts], c as [i t'|i a|i j]; cbn [exec1]; destruct (ts !! i) as [t|] eqn:Hi; try done; cbn [mbind option_bind].
  - destruct (starts t t') eqn:Hs, (allow t' Fine) eqn:Ha; try done. intros [= <- <-].
    eapply sys_start; [done| |done]. destruct t, t'; try done; constructor.
  - destruct (allow t a) eqn:Ha; [|done]. cbn [andb].
    destruct (negb (signals t) || nobody_sleeps ts) eqn:Hn; [|done].
    destruct (step m a t) as [[[m' t'] e0]| |] eqn:Hst; try done. intros [= <- <-].
    eapply sys_access; try done. intros r -> (k & u & Hk & Hu). cbn in Hn. unfold nobody_sleeps in Hn.
    rewrite forallb_forall in Hn. specialize (Hn u). rewrite Hu in Hn. discriminate Hn.
    apply list_elem_of_In. by eapply list_elem_of_lookup_2.
  - destruct (ts !! j) as [u|] eqn:Hj; try done. cbn [mbind option_bind]. destruct t as [| | |r| | | | | | |]; try done.
    destruct (is_sleeping u) eqn:Hu; [|done]. intros [= <- <-]. by eapply sys_signal.
Qed.

Lemma exec_steps `{P : Profile} allow y tr0 x tr cs x' tr' :
  steps (sys_step allow) y tr0 x → tr0 = tr → exec allow x tr cs = Some (x', tr') → steps (sys_step allow) y tr' x'.
Proof.
  intros Hs ->. revert x tr Hs. induction cs as [|c cs IH]; intros x tr Hs; cbn [exec].
  - by intros [= <- <-].
  - destruct (exec1 allow x c) as [[e x1]|] eqn:He; [|done]. cbn [mbind option_bind].
    apply exec1_step in He. apply IH. destruct e as [e|]; [by eapply steps_label|].
    rewrite app_nil_r. by eapply steps_silent.
Qed.

Section Witnesses.
#[local] Instance checked : Profile := true.

(** A waiter falls asleep and is woken by a signal for 7, which it takes; 8 is in the
    queue. *)
Definition wake_up : list command :=
  [Begin 0 (WaitLock Blocking); Run 0 Fine; Run 0 Fine;
   Begin 1 (NotifyLock 7); Run 1 Fine; Run 1 Fine; Signal 1 0; Begin 1 Idle;
   Begin 1 (NotifyLock 8); Run 1 Fine; Run 1 Fine; Run 0 Fine; Run 0 Fine].

Definition after_wake_up : Management * list pc :=
  (mkManagement (Queue.mkQueue [None; Some 8; None] 2 1 3 true) false, [WaitRet (Ok (Some 7)); NotifySignal true]).

Lemma local_event_linearizable_witness :
  ∃ l, spec_run (fifo_spec 3) [] [ENotify 7; ENotify 8; EReceive 7] = Some l ∧ Queue.rep (queue after_wake_up.1) l ∧
    Z.of_nat (length l) ≤ 3 ∧ total critical after_wake_up.2 ≤ 1.
Proof.
  apply (local_event_linearizable 3 2 after_wake_up.1 after_wake_up.2); [by split| |reflexivity].
  apply (exec_steps anything _ [] (new 3, replicate 2 Idle) [] wake_up); [apply steps_refl|reflexivity|].
  vm_compute. reflexivity.
Defined.

Lemma no_signal_is_lost_witness :
  ∃ l, Queue.rep (queue after_wake_up.1) l ∧
    (0 < total sleeping after_wake_up.2 → Z.of_nat (length l) ≤ total awake after_wake_up.2) ∧
    WaitRet (Ok None) ∉ after_wake_up.2.
Proof.
  apply (no_signal_is_lost 3 2 after_wake_up.1 after_wake_up.2 [ENotify 7; ENotify 8; EReceive 7]); [by split| |reflexivity].
  apply (exec_steps no_timeout _ [] (new 3, replicate 2 Idle) [] wake_up); [apply steps_refl|reflexivity|].
  vm_compute. reflexivity.
Defined.

(** A waiter with a timeout can take a signal away: it is woken by the signal for 7,
    finds that its time is over and returns nothing, without a look at the queue. The
    id stays in the queue, the other waiter sleeps in [blocking_wait], and nobody is
    awake who would look at the queue or send a signal. *)
Theorem timed_waiter_swallows_signal :
  ∃ m ts tr, steps (sys_step no_failure) (new 3, replicate 3 Idle) tr (m, ts) ∧
    tr = [ENotify 7] ∧ Queue.len (queue m) = 1 ∧
    ts = [WaitRet (Ok None); Sleeping Blocking; NotifyRet (Ok tt)] ∧ total awake ts = 0.
Proof.
  eexists _, _, _. split.
  - apply (exec_steps no_failure _ [] (new 3, replicate 3 Idle) []
      [Begin 0 (WaitLock Timed); Run 0 Fine; Run 0 Fine; Begin 1 (WaitLock Blocking); Run 1 Fine; Run 1 Fine;
       Begin 2 (NotifyLock 7); Run 2 Fine; Run 2 Fine; Signal 2 0; Run 0 Fine; Run 0 TimedOut]);
      [apply steps_refl|reflexivity|]. vm_compute. reflexivity.
  - by split_and!.
Qed.
End Witnesses.
End LocalEvent.
