(* ===== verification/SharedMemory.v ===== *)
(** * elkodon_cal/src/shared_memory/posix.rs

    The data segment of a publisher: one piece of POSIX shared memory that holds
    the allocator with its bookkeeping at the front and the data behind it.

    - [create] and [open] with their answers to what the operating system
      reports, generic in the allocator (class [ShmAllocator]);
    - [allocate] and [deallocate] and the addresses other processes compute from
      an offset;
    - with the pool allocator: creation succeeds, gives exactly the requested
      number of samples, and the data never overlaps the bookkeeping. *)

From S2P Require Import Prelude Elementary UniqueIndexSet BumpAllocator PoolAllocator ShmAllocator.

(** ** Data *)

Inductive SharedMemoryCreateError :=
| CreateAlreadyExists | CreateSizeIsZero | CreateInsufficientPermissions | CreateInternalError.

Inductive SharedMemoryOpenError :=
| OpenDoesNotExist | OpenInsufficientPermissions | OpenSizeIsZero | OpenSizeDoesNotFit
| OpenWrongAllocatorSelected | OpenInternalError.

(** [elkodon_bb_posix::shared_memory::SharedMemoryCreationError] *)
Inductive SharedMemoryCreationError :=
| SizeDoesNotFit | InsufficientMemory | InsufficientMemoryToBeMemoryLocked
| UnsupportedSizeOfZero | InsufficientPermissions | MappedRegionLimitReached
| PerProcessFileHandleLimitReached | SystemWideFileHandleLimitReached | NameTooLong
| InvalidName | AlreadyExist | DoesNotExist | UnableToMapAtEnforcedBaseAddress
| UnknownError (errno : Z) | FileTruncateError | FileStatError | MemoryLockCreationError
| SharedMemoryRemoveError.

Record AllocatorDetails (A : Type) := mkAllocatorDetails {
  allocator_id : Z;
  allocator : A;
  mgmt_size : Z
}.
Arguments mkAllocatorDetails {A}. Arguments allocator_id {A}. Arguments allocator {A}.
Arguments mgmt_size {A}.

(** [base_address] and [total_size] are those of the mapped POSIX shared
    memory; [details] is what lies at its start. *)
Record Memory (A : Type) := mkMemory {
  base_address : Z;
  total_size : Z;
  details : AllocatorDetails A
}.
Arguments mkMemory {A}. Arguments base_address {A}. Arguments total_size {A}. Arguments details {A}.

Record ShmPointer := mkShmPointer { offset : PointerOffset; data_ptr : Z }.

(** What the operating system answers: the address of the mapping or an error,
    and whether the permissions could be set. *)
Record CreateOs := mkCreateOs {
  os_create : Z → result Z SharedMemoryCreationError;
  os_set_permission : bool
}.

(** A shared memory object of [os_size] bytes, mapped at an address, and whether
    its permissions are [OWNER_WRITE], those of an unfinished segment. *)
Record OpenOs := mkOpenOs {
  os_open : result Z SharedMemoryCreationError;
  os_size : Z;
  os_unfinished : option bool
}.

Section Operations.
Context `{P : Profile} {A Config : Type} `{ShmAllocator A Config}.

(** [size_of] and [align_of] of [AllocatorDetails], and the page size. *)
Context (details_layout : Layout) (page_size : Z).

Definition allocator_details_size : outcome Z :=
  let! s := uadd (l_size details_layout) (l_align details_layout) in usub s 1.

Definition allocator_size (size : Z) (c : Config) : outcome Z :=
  let! d := allocator_details_size in
  let! m := shm_management_size size c in
  uadd d m.

Definition create (size : Z) (c : Config) (os : CreateOs)
    : outcome (result (Memory A) SharedMemoryCreateError) :=
  if size =? 0 then Return (Err CreateSizeIsZero)
  else
    let! mgmt := allocator_size size c in
    let! total := uadd size mgmt in
    match os_create os total with
    | Err AlreadyExist => Return (Err CreateAlreadyExists)
    | Err InsufficientPermissions => Return (Err CreateInsufficientPermissions)
    | Err _ => Return (Err CreateInternalError)
    | Ok base =>
        let! data := uadd base mgmt in
        let! a := shm_new_uninit page_size (mkChunk data size) c in
        let! d := allocator_details_size in
        let! mgmt_addr := uadd base d in
        let! n := shm_management_size size c in
        let! '(r, a, _) := shm_init a (BumpAllocator.new mgmt_addr n) in
        match r with
        | Err _ => Return (Err CreateInternalError)
        | Ok _ =>
            if os_set_permission os then
              Return (Ok (mkMemory base total (mkAllocatorDetails shm_unique_id a mgmt)))
            else Return (Err CreateInternalError)
        end
    end.

(** [open]; [contents] is what the creator left at the start of the memory. *)
Definition open (os : OpenOs) (contents : AllocatorDetails A)
    : outcome (result (Memory A) SharedMemoryOpenError) :=
  match os_open os with
  | Err DoesNotExist => Return (Err OpenDoesNotExist)
  | Err SizeDoesNotFit => Return (Err OpenSizeDoesNotFit)
  | Err InsufficientPermissions => Return (Err OpenInsufficientPermissions)
  | Err _ => Return (Err OpenInternalError)
  | Ok base =>
      match os_unfinished os with
      | None | Some true => Return (Err OpenInternalError)
      | Some false =>
          if os_size os <=? 1 then Return (Err OpenSizeDoesNotFit)
          else if negb (allocator_id contents =? shm_unique_id) then
            Return (Err OpenWrongAllocatorSelected)
          else Return (Ok (mkMemory base (os_size os) contents))
      end
  end.

Definition size (m : Memory A) : outcome Z := usub (total_size m) (mgmt_size (details m)).

Definition max_alignment (m : Memory A) : Z := shm_max_alignment (allocator (details m)).

Definition allocator_data_start_address (m : Memory A) : outcome Z :=
  uadd (base_address m) (mgmt_size (details m)).

Definition set_allocator (m : Memory A) (a : A) : Memory A :=
  mkMemory (base_address m) (total_size m)
    (mkAllocatorDetails (allocator_id (details m)) a (mgmt_size (details m))).

Definition mem_allocate (m : Memory A) (layout : Layout)
    : outcome (result ShmPointer ShmAllocationError * Memory A) :=
  let! '(r, a) := shm_allocate (allocator (details m)) layout in
  let m := set_allocator m a in
  match r with
  | Err e => Return (Err e, m)
  | Ok o =>
      let! start := allocator_data_start_address m in
      let! p := uadd o start in
      Return (Ok (mkShmPointer o p), m)
  end.

Definition mem_deallocate (m : Memory A) (o : PointerOffset) (layout : Layout)
    : outcome (result unit DeallocationError * Memory A) :=
  let! '(r, a) := shm_deallocate (allocator (details m)) o layout in
  Return (r, set_allocator m a).
End Operations.

(** ** The segment of a publisher *)

Section Theorems.
Context `{P : Profile}.

(** A pool segment that starts with room for exactly [n] chunks of [bl]. *)
Record pool_segment (m : Memory ShmPoolAllocator) (bl : Layout) (n aba : Z) (offs : list Chunk)
    : Prop := {
  seg_base : 0 ≤ base_address m;
  seg_mgmt : 0 ≤ mgmt_size (details m);
  seg_end : base_address m + total_size m < USIZE;
  seg_size : n * l_size bl + l_align bl - 1 = total_size m - mgmt_size (details m);
  seg_pool : shm_pool_rep (allocator (details m)) (base_address m + mgmt_size (details m))
               (n * l_size bl + l_align bl - 1) aba offs;
  seg_bucket : bucket_size (pool_allocator (allocator (details m))) = l_size bl;
  seg_align : bucket_alignment (pool_allocator (allocator (details m))) = l_align bl;
  seg_number : number_of_buckets (pool_allocator (allocator (details m))) = n;
  seg_start : start (pool_allocator (allocator (details m))) <
              base_address m + mgmt_size (details m) + l_align bl
}.

Lemma pool_new_uninit_align bl ptr sz s :
  PoolAllocator.new_uninit bl ptr sz = Return s → bucket_alignment s = l_align bl.
Proof.
  unfold PoolAllocator.new_uninit. destruct (Math.align _ _); [|done..]. cbn [obind].
  destruct (calc_number_of_buckets _ _ _); [|done..]. by intros [= <-].
Qed.

Lemma create_pool_ok dl page bl n base (os : CreateOs) :
  layout_wf dl → layout_wf bl → 0 < l_size bl → l_size bl mod l_align bl = 0 → 0 < n →
  l_align bl ≤ page → n + 2 < U32 → 0 ≤ base →
  base + 4 * (n * l_size bl + l_size dl + l_align dl + l_align bl) + 16 * n + 64 < USIZE →
  (∀ k, os_create os k = Ok base) → os_set_permission os = true →
  ∃ m, create dl page (n * l_size bl + l_align bl - 1) (mkShmPoolConfig bl) os = Return (Ok m) ∧
    base_address m = base ∧ allocator_id (details m) = shm_unique_id (A := ShmPoolAllocator) ∧
    pool_segment m bl n 0 [] ∧
    l_size dl + 8 ≤ mgmt_size (details m) ∧
    allocator_details_size dl = Return (l_size dl + l_align dl - 1).
Proof.
  intros Hdl Hbl Hl Hmod Hn Hpage Hn32 Hbase Hw Hos Hperm.
  pose proof (layout_align_pos dl Hdl). pose proof (layout_align_pos bl Hbl). pose proof Hdl as [? _].
  set (sz := n * l_size bl + l_align bl - 1). assert (1 ≤ n * l_size bl) by nia. assert (0 < sz) by (unfold sz; lia).
  assert (allocator_details_size dl = Return (l_size dl + l_align dl - 1)) as Hd.
  { unfold allocator_details_size. rewrite uadd_ok by lia. cbn [obind]. by rewrite usub_ok by lia. }
  assert (l_align bl ≤ l_size bl) as Hal.
  { apply Z.mod_divide in Hmod; [|lia]. apply Z.divide_pos_le in Hmod; lia. }
  assert (sz / l_size bl = n) as Hq.
  { symmetry. apply (Z.div_unique _ _ _ (l_align bl - 1)); unfold sz; lia. }
  set (ms := 4 * (n + 1) + 3).
  assert (memory_size bl sz = Return ms) as Hms.
  { unfold memory_size. rewrite udiv_ok by lia. cbn [obind]. rewrite Hq. unfold const_memory_size.
    rewrite uadd_ok by lia. cbn [obind]. rewrite umul_ok by lia. cbn [obind].
    rewrite uadd_ok by lia. cbn [obind]. rewrite usub_ok by lia. f_equal. unfold ms. lia. }
  set (mg := l_size dl + l_align dl - 1 + ms).
  destruct (pool_setup_ok bl (base + mg) sz ms (base + (l_size dl + l_align dl - 1)))
    as (s0 & s' & a' & Hnew & Hinit & Hrep & Hbs & Hba & Hst & Hnb); try done; try (unfold mg, ms, sz; lia).
  { rewrite Hq. lia. }
  unfold create, allocator_size. cbn [shm_management_size shm_pool shm_new_uninit shm_init].
  unfold shm_pool_management_size. cbn [bucket_layout]. rewrite (proj2 (Z.eqb_neq _ _)) by lia.
  rewrite Hd, Hms. cbn [obind]. rewrite (uadd_ok (l_size dl + l_align dl - 1)) by (unfold ms; lia).
  fold mg. cbn [obind]. rewrite uadd_ok by (unfold mg, ms, sz; lia). cbn [obind]. rewrite Hos.
  rewrite uadd_ok by (unfold mg, ms; lia). cbn [obind]. unfold shm_pool_new_uninit. cbn [c_start c_len bucket_layout].
  rewrite Hnew. cbn [obind]. rewrite uadd_ok by (unfold sz in *; lia). cbn [obind]. unfold shm_pool_init.
  unfold shm_pool_max_alignment, PoolAllocator.max_alignment. cbn [pool_max_supported_alignment_by_memory pool_allocator].
  rewrite (pool_new_uninit_align _ _ _ _ Hnew), (proj2 (Z.ltb_ge _ _)) by lia.
  rewrite Hinit. cbn [obind]. rewrite Hperm. eexists. split; [done|]. cbn [base_address details mgmt_size allocator_id].
  split_and!; try done; [|unfold mg, ms; lia]. constructor; cbn; try done; try (unfold mg, ms, sz; lia).
  unfold sz in *. destruct Hrep as [[_ _ Hhi _ _ _ _ _ _] _]. rewrite Hbs in Hhi. nia.
Qed.

(** Creating the data segment of a publisher: with the pool allocator and a
    size for [n] messages whatever the alignment of the mapping, creation
    succeeds whenever the operating system provides the memory, the segment
    offers exactly [n] chunks, and the bookkeeping at its front ends before the
    data; another process that opens it finds the same allocator. Every error of
    the operating system is reported and none panics. *)
Theorem shared_memory_create_correct dl page bl n base (os : CreateOs) :
  layout_wf dl → layout_wf bl → 0 < l_size bl → l_size bl mod l_align bl = 0 → 0 < n →
  l_align bl ≤ page → n + 2 < U32 → 0 ≤ base →
  base + 4 * (n * l_size bl + l_size dl + l_align dl + l_align bl) + 16 * n + 64 < USIZE →
  (∀ k a, os_create os k = Ok a → a = base) →
  ∃ r, create (A := ShmPoolAllocator) dl page (n * l_size bl + l_align bl - 1)
         (mkShmPoolConfig bl) os = Return r ∧
    match r with
    | Ok m =>
        pool_segment m bl n 0 [] ∧ base + l_size dl ≤ base + mgmt_size (details m) ∧
        SharedMemory.size m = Return (n * l_size bl + l_align bl - 1) ∧
        (∀ b, open (mkOpenOs (Ok b) (total_size m) (Some false)) (details m) =
              Return (Ok (mkMemory b (total_size m) (details m))))
    | Err e => (∃ k e', os_create os k = Err e') ∨ os_set_permission os = false
    end.
Proof.
  intros Hdl Hbl Hl Hmod Hn Hpage Hn32 Hbase Hw Hos.
  destruct (create_pool_ok dl page bl n base (mkCreateOs (λ _, Ok base) true))
    as (m & Hm & <- & Hid & Hseg & Hd & _); try done.
  pose proof (layout_align_pos bl Hbl). pose proof Hdl as [? _]. assert (1 ≤ n * l_size bl) by nia.
  set (sz := n * l_size bl + l_align bl - 1) in *.
  assert (∀ e k, os_create os k = Err e → ∃ k e', os_create os k = Err e') as Hor by eauto.
  unfold create in *. cbn [os_create os_set_permission] in *. destruct (sz =? 0); [done|].
  destruct (allocator_size dl sz (mkShmPoolConfig bl)) as [mg| |]; [|done..]. cbn [obind] in *.
  destruct (uadd sz mg) as [tot| |]; [|done..]. cbn [obind] in *.
  destruct (os_create os tot) as [a|e] eqn:Ec; [|destruct e; eexists; (split; [done|]); left; eauto].
  rewrite (Hos _ _ Ec).
  destruct (uadd (base_address m) mg) as [da| |]; [|done..]. cbn [obind] in *.
  destruct (shm_new_uninit page (mkChunk da sz) (mkShmPoolConfig bl)) as [al| |]; [|done..]. cbn [obind] in *.
  destruct (allocator_details_size dl) as [ds| |]; [|done..]. cbn [obind] in *.
  destruct (uadd (base_address m) ds) as [ma| |]; [|done..]. cbn [obind] in *.
  destruct (shm_management_size sz (mkShmPoolConfig bl)) as [mn| |]; [|done..]. cbn [obind] in *.
  destruct (shm_init al (new ma mn)) as [[[[[]|] al'] bu]| |]; [|done..]. cbn [obind] in *.
  destruct (os_set_permission os); [|eexists; split; [done|]; by right].
  eexists. split; [exact Hm|]. cbn beta iota. split_and!; try done; try lia.
  - unfold SharedMemory.size. pose proof Hseg as [? ? ? Hsz _ _ _ _ _]. rewrite usub_ok.
    + f_equal. unfold sz. lia.
    + lia.
  - intros b. unfold open. cbn. destruct Hseg as [? ? ? Hsz _ _ _ _ _].
    rewrite (proj2 (Z.leb_gt _ _)).
    + by rewrite Hid.
    + lia.
Qed.
(** ** Used chunks

    The segment in terms of the indices of its used chunks; [adj] bytes precede
    the first chunk, because the data need not start aligned. *)
Record seg_used (m : Memory ShmPoolAllocator) (bl : Layout) (n adj aba : Z) (used : list Z)
    : Prop := {
  su_base : 0 ≤ base_address m;
  su_mgmt : 0 ≤ mgmt_size (details m);
  su_bucket : bucket_size (pool_allocator (allocator (details m))) = l_size bl;
  su_align : bucket_alignment (pool_allocator (allocator (details m))) = l_align bl;
  su_number : number_of_buckets (pool_allocator (allocator (details m))) = n;
  su_adj : 0 ≤ adj < l_align bl;
  su_start : start (pool_allocator (allocator (details m))) =
             base_address m + mgmt_size (details m) + adj;
  su_origin : pool_base_address (allocator (details m)) = base_address m + mgmt_size (details m);
  su_used : pool_used (pool_allocator (allocator (details m)))
              (base_address m + mgmt_size (details m))
              (base_address m + mgmt_size (details m) + (n * l_size bl + l_align bl - 1)) aba used
}.

Lemma seg_used_init m bl n aba :
  pool_segment m bl n aba [] → ∃ adj, seg_used m bl n adj aba [].
Proof.
  intros [Hb Hm He Hs [Ho Hp] Hbs Hba Hnb Hst].
  exists (start (pool_allocator (allocator (details m))) - (base_address m + mgmt_size (details m))).
  pose proof (wf_lo _ _ _ (pool_geometry _ _ _ _ _ Hp)).
  constructor; try done; try lia. by apply pool_used_empty.
Qed.

(** Replacing the index set keeps everything but the used chunks. *)
Lemma seg_used_set m bl n adj aba aba' used used' b :
  seg_used m bl n adj aba used →
  let p := pool_allocator (allocator (details m)) in
  capacity b = number_of_buckets p →
  pool_used (set_buckets p b) (base_address m + mgmt_size (details m))
    (base_address m + mgmt_size (details m) + (n * l_size bl + l_align bl - 1)) aba' used' →
  seg_used (set_allocator m (shm_pool_set (allocator (details m)) (set_buckets p b))) bl n adj aba' used'.
Proof. intros [] p Hcap Hu. constructor; try done. by etrans; [exact Hcap|]. Qed.

Lemma seg_used_allocate m bl n adj aba used :
  seg_used m bl n adj aba used → 0 < l_size bl → aba + 1 < U32 → Z.of_nat (length used) < n →
  ∃ i m', mem_allocate m bl =
      Return (Ok (mkShmPointer (adj + i * l_size bl)
                    (adj + i * l_size bl + (base_address m + mgmt_size (details m)))), m') ∧
    0 ≤ i < n ∧ i ∉ used ∧ seg_used m' bl n adj (aba + 1) (i :: used).
Proof.
  intros Hs Hl Haba Hlen. pose proof Hs as [Hb Hm Hbs Hba Hnb Hadj Hst Hor Hu].
  destruct (pool_used_allocate _ _ _ _ _ bl Hu Haba) as (i & b & Hal & Hi & Hni & Hcap & Hu');
    [lia..|].
  pose proof (bucket_in_range _ _ _ i (proj1 Hu) Hi) as Hrng.
  pose proof (proj1 Hu) as [_ ? ? ? ? _ _ _ _].
  unfold mem_allocate. cbn [shm_allocate shm_pool]. unfold shm_pool_allocate, shm_pool_max_alignment,
    PoolAllocator.max_alignment. rewrite Hba, Z.ltb_irrefl, Hal. cbn [obind c_start].
  cbn [pool_base_address shm_pool_set]. rewrite Hor, usub_ok by lia. cbn [obind].
  unfold allocator_data_start_address. cbn [base_address set_allocator details mgmt_size].
  rewrite uadd_ok by lia. cbn [obind]. rewrite Hst, Hbs in *.
  replace (base_address m + mgmt_size (details m) + adj + i * l_size bl -
    (base_address m + mgmt_size (details m))) with (adj + i * l_size bl) by lia.
  rewrite uadd_ok by lia. cbn [obind]. do 2 eexists. split; [done|].
  split_and!; try lia; try done. by eapply seg_used_set.
Qed.

Lemma seg_used_deallocate m bl n adj aba i used v l :
  seg_used m bl n adj aba (i :: used) → aba + 1 < U32 →
  adj + i * l_size bl ≤ v < adj + (i + 1) * l_size bl →
  ∃ m', mem_deallocate m v l = Return (Ok tt, m') ∧ seg_used m' bl n adj (aba + 1) used.
Proof.
  intros Hs Haba Hv. pose proof Hs as [Hb Hm Hbs Hba Hnb Hadj Hst Hor Hu].
  pose proof (pool_used_facts _ _ _ _ _ Hu) as [_ [Hi _]%Forall_cons].
  pose proof (bucket_in_range _ _ _ i (proj1 Hu) Hi) as Hrng.
  pose proof (proj1 Hu) as [_ ? ? ? ? ? _ _ _].
  destruct (pool_used_deallocate _ _ _ _ i used (v + (base_address m + mgmt_size (details m))) l Hu Haba)
    as (b & Hde & Hcap & Hu'); [lia|].
  unfold mem_deallocate. cbn [shm_deallocate shm_pool]. unfold shm_pool_deallocate.
  rewrite Hor, uadd_ok by nia. cbn [obind]. rewrite Hde. cbn [obind].
  eexists. split; [done|]. by eapply seg_used_set.
Qed.
End Theorems.

Section Witnesses.
#[local] Instance segment_checked : Profile := true.

Lemma shared_memory_create_correct_witness :
  ∃ m, create (A := ShmPoolAllocator) (mkLayout 128 8) 4096 (3 * 40 + 8 - 1)
         (mkShmPoolConfig (mkLayout 40 8)) (mkCreateOs (λ _, Ok 65536) true) = Return (Ok m) ∧
    pool_segment m (mkLayout 40 8) 3 0 [].
Proof.
  destruct (shared_memory_create_correct (mkLayout 128 8) 4096 (mkLayout 40 8) 3 65536
    (mkCreateOs (λ _, Ok 65536) true)) as ([m|e] & Hm & Hr); try done.
  - split; [done|]. by exists 3.
  - split; [done|]. by exists 3.
  - intros k a [= <-]. done.
  - exists m. split; [exact Hm|]. by destruct Hr.
Defined.
End Witnesses.
