(* ===== verification/Publisher.v ===== *)
(** * elkodon/src/port/publisher.rs, sample_mut.rs and details/subscriber_connections.rs

    The publisher port: it loans samples from its data segment, sends them to
    every connected subscriber, keeps the last ones as history and counts for
    every sample how often it is referenced, so that a sample goes back to the
    data segment when nobody uses it any more.

    - the message layout and the index of a sample;
    - the operations, from [loan] to [populate_subscriber_channels];
    - the reference counters against the list of all references to samples.

    What its environment contributes is a parameter: the sender side of a new
    connection ([connect]), and what a receiver does while a blocking send
    waits ([rounds], [receiver]). *)

From S2P Require Import Prelude Elementary UniqueIndexSet BumpAllocator PoolAllocator ShmAllocator SharedMemory ZeroCopyConnection Container BbContainers.

(** ** message.rs

    [Message] is [repr(C)]: the header, the data at its next aligned offset,
    and padding up to the larger of the two alignments. *)

Definition round_up (v a : Z) : Z := (v + a - 1) / a * a.

Definition data_offset (header data : Layout) : Z := round_up (l_size header) (l_align data).

Definition Message (header data : Layout) : Layout :=
  let align := Z.max (l_align header) (l_align data) in
  mkLayout (round_up (data_offset header data + l_size data) align) align.

(** ** Data *)

Inductive PublisherCreateError := ExceedsMaxSupportedPublishers | UnableToCreateDataSegment.

Inductive LoanError := LoanOutOfMemory | ExceedsMaxLoanedChunks | InternalFailure.

Inductive SendCopyError :=
| SendLoanError (e : LoanError)
| SendConnectionError (e : ZeroCopyCreationError).

Inductive UnableToDeliverStrategy := Block | DiscardSample.
Inductive DegrationAction := ActionIgnore | ActionWarn | ActionFail.

Record LocalPublisherConfig := mkLocalPublisherConfig {
  max_loaned_samples : Z;
  unable_to_deliver_strategy : UnableToDeliverStrategy
}.

(** [publish_subscribe::StaticConfig] without the name of the type. *)
Record StaticConfig := mkStaticConfig {
  max_subscribers : Z;
  max_publishers : Z;
  history_size : Z;
  subscriber_buffer_size : Z;
  subscriber_max_borrowed_samples : Z;
  sc_enable_safe_overflow : bool
}.

(** The two fields of the publisher that account for its samples. *)
Record Samples := mkSamples {
  sample_reference_counter : list Z;
  data_segment : Memory ShmPoolAllocator
}.

(** A connection is the shared memory its sender has mapped. *)
Definition Connections := list (option SharedManagementData).

Record Publisher := mkPublisher {
  samples : Samples;
  config : LocalPublisherConfig;
  subscriber_connections : Connections;
  subscriber_list_state : ContainerState Z;
  history : option (Queue.Queue Z);
  degration_callback : option (Z → DegrationAction);
  loan_counter : Z
}.

Definition set_samples p s :=
  mkPublisher s (config p) (subscriber_connections p) (subscriber_list_state p) (history p)
    (degration_callback p) (loan_counter p).
Definition set_connections p cs :=
  mkPublisher (samples p) (config p) cs (subscriber_list_state p) (history p)
    (degration_callback p) (loan_counter p).
Definition set_list_state p st :=
  mkPublisher (samples p) (config p) (subscriber_connections p) st (history p)
    (degration_callback p) (loan_counter p).
Definition set_history p h :=
  mkPublisher (samples p) (config p) (subscriber_connections p) (subscriber_list_state p) h
    (degration_callback p) (loan_counter p).
Definition set_degration_callback p f :=
  mkPublisher (samples p) (config p) (subscriber_connections p) (subscriber_list_state p)
    (history p) f (loan_counter p).
Definition set_loan_counter p n :=
  mkPublisher (samples p) (config p) (subscriber_connections p) (subscriber_list_state p)
    (history p) (degration_callback p) n.

Section Operations.
Context `{P : Profile}.

(** The layouts of the header and of the type of the messages. *)
Context (header_layout data_layout : Layout).
#[local] Notation message := (Message header_layout data_layout).

(** [MessagingPattern::required_amount_of_samples_per_data_segment] *)
Definition required_amount_of_samples_per_data_segment (c : StaticConfig) (max_loaned : Z)
    : outcome Z :=
  let! a := uadd (subscriber_buffer_size c) (subscriber_max_borrowed_samples c) in
  let! b := umul (max_subscribers c) a in
  let! d := uadd b (history_size c) in
  let! e := uadd d max_loaned in
  uadd e 1.

(** ** Reference counting *)

Definition sample_index (distance_to_chunk : Z) : outcome Z :=
  udiv distance_to_chunk (l_size message).

(** [fetch_add] of [d] on a cell: atomics wrap around in every profile. *)
Definition fetch_add (cells : list Z) (i d : Z) : outcome (Z * list Z) :=
  let! old := index_read cells i in
  let! cells := index_write cells i (wrap USIZE (old + d)) in
  Return (old, cells).

(** [sample_reference_counter[sample_index(v)].fetch_add(1)] *)
Definition retain (s : Samples) (distance : Z) : outcome (Z * Samples) :=
  let! i := sample_index distance in
  let! '(old, cells) := fetch_add (sample_reference_counter s) i 1 in
  Return (old, mkSamples cells (data_segment s)).

(** The body shared by [release_sample] and [retrieve_returned_samples]; they
    deallocate with different layouts. *)
Definition release_with (layout : Layout) (s : Samples) (distance : Z) : outcome Samples :=
  let! i := sample_index distance in
  let! '(old, cells) := fetch_add (sample_reference_counter s) i (-1) in
  if old =? 1 then
    let! '(r, m) := mem_deallocate (data_segment s) distance layout in
    match r with
    | Ok _ => Return (mkSamples cells m)
    | Err _ => Panic
    end
  else Return (mkSamples cells (data_segment s)).

Definition release_sample (s : Samples) (distance : Z) : outcome Samples :=
  release_with data_layout s distance.

(** The [loop] on one connection. *)
Fixpoint reclaim_loop (fuel : nat) (s : Samples) (m : SharedManagementData)
    : outcome (Samples * SharedManagementData) :=
  match fuel with
  | O => Undefined
  | S fuel =>
      let! '(r, m) := reclaim m in
      match r with
      | None => Return (s, m)
      | Some distance =>
          let! s := release_with message s distance in
          reclaim_loop fuel s m
      end
  end.

(** A retrieve channel holds at most its capacity. *)
Definition reclaim_fuel (m : SharedManagementData) : nat :=
  S (Z.to_nat (IndexQueue.capacity (retrieve_channel m))).

Fixpoint retrieve_returned_samples (s : Samples) (cs : Connections)
    : outcome (Samples * Connections) :=
  match cs with
  | [] => Return (s, [])
  | None :: cs =>
      let! '(s, cs) := retrieve_returned_samples s cs in Return (s, None :: cs)
  | Some m :: cs =>
      let! '(s, m) := reclaim_loop (reclaim_fuel m) s m in
      let! '(s, cs) := retrieve_returned_samples s cs in
      Return (s, Some m :: cs)
  end.

(** ** Sending *)

(** What the receiver does while a blocking send waits, for how many rounds. *)
Context (rounds : nat) (receiver : SharedManagementData → SharedManagementData).

Definition deliver_call (strategy : UnableToDeliverStrategy) (m : SharedManagementData) (v : Z) :=
  match strategy with
  | Block => blocking_send rounds receiver m v
  | DiscardSample => try_send m v
  end.

Definition release_overflow (s : Samples) (overflow : option Z) : outcome Samples :=
  match overflow with
  | Some old => release_sample s old
  | None => Return s
  end.

Fixpoint deliver_sample (strategy : UnableToDeliverStrategy) (s : Samples) (cs : Connections) (v : Z)
    : outcome (Z * Samples * Connections) :=
  match cs with
  | [] => Return (0, s, [])
  | None :: cs =>
      let! '(n, s, cs) := deliver_sample strategy s cs v in Return (n, s, None :: cs)
  | Some m :: cs =>
      let! '(r, m) := deliver_call strategy m v in
      match r with
      | Err ReceiveBufferFull | Err ClearRetrieveChannelBeforeSend =>
          let! '(n, s, cs) := deliver_sample strategy s cs v in Return (n, s, Some m :: cs)
      | Ok overflow =>
          let! '(_, s) := retain s v in
          let! s := release_overflow s overflow in
          let! '(n, s, cs) := deliver_sample strategy s cs v in
          let! n := uadd n 1 in
          Return (n, s, Some m :: cs)
      end
  end.

Definition add_to_history (s : Samples) (h : option (Queue.Queue Z)) (v : Z)
    : outcome (Samples * option (Queue.Queue Z)) :=
  match h with
  | None => Return (s, None)
  | Some q =>
      let! '(_, s) := retain s v in
      let! '(old, q) := Queue.push_with_overflow q v in
      let! s := release_overflow s old in
      Return (s, Some q)
  end.

(** ** Connections *)

(** The loop of [deliver_history]: the sample an overflowing send returns is
    dropped. *)
Fixpoint deliver_history_loop (todo : list nat) (q : Queue.Queue Z) (s : Samples)
    (m : SharedManagementData) : outcome (Samples * SharedManagementData) :=
  match todo with
  | [] => Return (s, m)
  | i :: todo =>
      let! v := Queue.get_unchecked q (Z.of_nat i) in
      let! '(r, m) := try_send m v in
      match r with
      | Ok _ => let! '(_, s) := retain s v in deliver_history_loop todo q s m
      | Err _ => deliver_history_loop todo q s m
      end
  end.

Definition deliver_history (h : option (Queue.Queue Z)) (s : Samples) (m : SharedManagementData)
    : outcome (Samples * SharedManagementData) :=
  match h with
  | None => Return (s, m)
  | Some q => deliver_history_loop (seq 0 (Z.to_nat (Queue.len q))) q s m
  end.

(** [Connection::new]: the sender for the subscriber with an id. *)
Context (connect : Z → outcome (result SharedManagementData ZeroCopyCreationError)).

(** [visited_indices[index] = Some(id)] *)
Fixpoint visit (visited : list (option Z)) (es : list (Z * Z)) : outcome (list (option Z)) :=
  match es with
  | [] => Return visited
  | (index, id) :: es => let! visited := index_write visited index (Some id) in visit visited es
  end.

(** The loop over the visited indices; [SubscriberConnections::create] keeps an
    existing connection, [remove] drops it. *)
Fixpoint populate_loop (callback : option (Z → DegrationAction)) (h : option (Queue.Queue Z))
    (visited : list (option Z)) (s : Samples) (cs : Connections)
    : outcome (result unit ZeroCopyCreationError * Samples * Connections) :=
  match visited, cs with
  | [], cs => Return (Ok tt, s, cs)
  | _ :: _, [] => Panic
  | None :: visited, _ :: cs =>
      let! '(r, s, cs) := populate_loop callback h visited s cs in Return (r, s, None :: cs)
  | Some id :: visited, Some m :: cs =>
      let! '(r, s, cs) := populate_loop callback h visited s cs in Return (r, s, Some m :: cs)
  | Some id :: visited, None :: cs =>
      let! c := connect id in
      match c with
      | Ok m =>
          let! '(s, m) := deliver_history h s m in
          let! '(r, s, cs) := populate_loop callback h visited s cs in Return (r, s, Some m :: cs)
      | Err e =>
          match callback with
          | Some f =>
              match f id with
              | ActionFail => Return (Err e, s, None :: cs)
              | ActionIgnore | ActionWarn =>
                  let! '(r, s, cs) := populate_loop callback h visited s cs in
                  Return (r, s, None :: cs)
              end
          | None =>
              let! '(r, s, cs) := populate_loop callback h visited s cs in
              Return (r, s, None :: cs)
          end
      end
  end.

Definition populate_subscriber_channels (p : Publisher)
    : outcome (result unit ZeroCopyCreationError * Publisher) :=
  let! es := for_each (subscriber_list_state p) in
  let! visited := visit (replicate (length (subscriber_connections p)) None) es in
  let! '(s, cs) := retrieve_returned_samples (samples p) (subscriber_connections p) in
  let! '(r, s, cs) := populate_loop (degration_callback p) (history p) visited s cs in
  Return (r, set_connections (set_samples p s) cs).

(** [subs]: the subscribers of the service in the dynamic storage. *)
Definition update_connections (subs : Container Z) (p : Publisher)
    : outcome (result unit ZeroCopyCreationError * Publisher) :=
  let! '(changed, st) := update_state subs (subscriber_list_state p) in
  let p := set_list_state p st in
  if changed : bool then populate_subscriber_channels p else Return (Ok tt, p).

Definition number_of_subscribers (p : Publisher) : Z :=
  Z.of_nat (length (filter (λ c, match c with Some m => is_connected m | None => false end = true)
                      (subscriber_connections p))).

(** ** The interface *)

Definition send_impl (subs : Container Z) (p : Publisher) (v : Z)
    : outcome (result Z ZeroCopyCreationError * Publisher) :=
  let! '(r, p) := update_connections subs p in
  match r with
  | Err e => Return (Err e, p)
  | Ok _ =>
      let! '(s, h) := add_to_history (samples p) (history p) v in
      let p := set_history p h in
      let! '(n, s, cs) :=
        deliver_sample (unable_to_deliver_strategy (config p)) s (subscriber_connections p) v in
      Return (Ok n, set_connections (set_samples p s) cs)
  end.

(** [SampleMut::new] and its [Drop]. *)
Definition sample_mut_new (p : Publisher) : Publisher :=
  set_loan_counter p (wrap USIZE (loan_counter p + 1)).

Definition sample_mut_drop (p : Publisher) (v : Z) : outcome Publisher :=
  let! s := release_sample (samples p) v in
  let p := set_samples p s in
  Return (set_loan_counter p (wrap USIZE (loan_counter p - 1))).

(** The sample is consumed: it is dropped whether sending succeeds or not. *)
Definition send (subs : Container Z) (p : Publisher) (v : Z)
    : outcome (result Z ZeroCopyCreationError * Publisher) :=
  let! '(r, p) := send_impl subs p v in
  let! p := sample_mut_drop p v in
  Return (r, p).

Definition loan (p : Publisher) : outcome (result ShmPointer LoanError * Publisher) :=
  let! '(s, cs) := retrieve_returned_samples (samples p) (subscriber_connections p) in
  let p := set_connections (set_samples p s) cs in
  if max_loaned_samples (config p) <=? loan_counter p then
    Return (Err ExceedsMaxLoanedChunks, p)
  else
    let! '(r, m) := mem_allocate (data_segment (samples p)) message in
    let p := set_samples p (mkSamples (sample_reference_counter (samples p)) m) in
    match r with
    | Ok chunk =>
        let! '(old, s) := retain (samples p) (offset chunk) in
        if negb (old =? 0) then Panic
        else Return (Ok chunk, sample_mut_new (set_samples p s))
    | Err (AllocationError_ OutOfMemory) => Return (Err LoanOutOfMemory, p)
    | Err (AllocationError_ SizeTooLarge) | Err (AllocationError_ AlignmentFailure) => Panic
    | Err _ => Return (Err InternalFailure, p)
    end.

Definition send_copy (subs : Container Z) (p : Publisher)
    : outcome (result Z SendCopyError * Publisher) :=
  let! '(r, p) := loan p in
  match r with
  | Err e => Return (Err (SendLoanError e), p)
  | Ok chunk =>
      let! '(r, p) := send_impl subs p (offset chunk) in
      let! p := sample_mut_drop p (offset chunk) in
      match r with
      | Ok n => Return (Ok n, p)
      | Err e => Return (Err (SendConnectionError e), p)
      end
  end.

(** [create_data_segment]: [segment] creates shared memory of a size. *)
Context (segment : Z → outcome (result (Memory ShmPoolAllocator) SharedMemoryCreateError)).

Definition create_data_segment (number_of_samples : Z)
    : outcome (result (Memory ShmPoolAllocator) SharedMemoryCreateError) :=
  let! a := umul (l_size message) number_of_samples in
  let! b := uadd a (l_align message) in
  let! size := usub b 1 in
  segment size.

(** [Publisher::new]: [subscribers] and [publishers] are the lists of the
    dynamic storage; the list of publishers with the new one is returned. *)
Definition publisher_new (port_id : Z) (c : StaticConfig) (lc : LocalPublisherConfig)
    (subscribers publishers : Container Z)
    : outcome (result Publisher PublisherCreateError * Container Z) :=
  let! number_of_samples := required_amount_of_samples_per_data_segment c (max_loaned_samples lc) in
  let! r := create_data_segment number_of_samples in
  match r with
  | Err _ => Return (Err UnableToCreateDataSegment, publishers)
  | Ok m =>
      let! '(guard, publishers) := add publishers port_id in
      match guard with
      | None => Return (Err ExceedsMaxSupportedPublishers, publishers)
      | Some _ =>
          let! st := get_state subscribers in
          let p := mkPublisher (mkSamples (replicate (Z.to_nat number_of_samples) 0) m) lc
                     (replicate (Z.to_nat (c_capacity subscribers)) None) st
                     (if history_size c =? 0 then None else Some (Queue.new (history_size c)))
                     None 0 in
          let! '(_, p) := populate_subscriber_channels p in
          Return (Ok p, publishers)
      end
  end.
End Operations.

(** ** The layout of a message *)

Lemma round_up_spec v a : 0 < a → v ≤ round_up v a < v + a ∧ round_up v a mod a = 0.
Proof.
  intros Ha. unfold round_up. pose proof (Z.div_mod (v + a - 1) a). pose proof (Z.mod_pos_bound (v + a - 1) a).
  split; [nia|]. by rewrite Z.mod_mul by lia.
Qed.

Lemma multiple_gap x y a : 0 < a → x mod a = 0 → y mod a = 0 → x < y → x + a ≤ y.
Proof.
  intros Ha Hx Hy Hlt. apply Z.mod_divide in Hx as [i ->], Hy as [j ->]; [|lia..].
  assert (i < j) by nia. nia.
Qed.

(** The layout of a Rust type: the size is a multiple of the alignment. *)
Definition type_layout (l : Layout) : Prop := layout_wf l ∧ l_size l mod l_align l = 0.

Section Layouts.
Context (header data : Layout) (Hh : type_layout header) (Hd : type_layout data).
Context (Hpos : 0 < l_size header).

Lemma message_align : ∃ k, 0 ≤ k ∧ l_align (Message header data) = 2 ^ k.
Proof.
  cbn. destruct Hh as [[_ (j & Hj & ->)] _], Hd as [[_ (k & Hk & ->)] _].
  destruct (Z.max_spec (2 ^ j) (2 ^ k)) as [[_ ->]|[_ ->]]; eauto.
Qed.

Lemma data_offset_aligned : data_offset header data mod l_align (Message header data) = 0.
Proof.
  unfold data_offset. pose proof (layout_align_pos _ (proj1 Hd)).
  destruct (round_up_spec (l_size header) (l_align data)) as [Hr Hm]; [lia|]. cbn.
  destruct (Z.max_spec (l_align header) (l_align data)) as [[_ ->]|[Hle ->]]; [done|].
  assert (l_size header mod l_align data = 0) as Hs.
  { eapply (pow2_mod_le _ _ (l_align header)); [apply Hd|apply Hh|done|apply Hh]. }
  replace (round_up (l_size header) (l_align data)) with (l_size header); [apply Hh|].
  destruct (decide (l_size header = round_up (l_size header) (l_align data))); [done|].
  assert (l_size header + l_align data ≤ round_up (l_size header) (l_align data)); [|lia].
  apply multiple_gap; try done. lia.
Qed.

Lemma message_layout :
  layout_wf (Message header data) ∧ 0 < l_size (Message header data) ∧
  l_size (Message header data) mod l_align (Message header data) = 0 ∧
  0 < l_align (Message header data) ≤ l_size (Message header data) ∧ 0 ≤ data_offset header data.
Proof.
  destruct message_align as (k & Hk & Ha). pose proof (Z.pow_pos_nonneg 2 k eq_refl Hk).
  pose proof (layout_align_pos _ (proj1 Hd)). pose proof (proj1 (proj1 Hd)).
  destruct (round_up_spec (l_size header) (l_align data)) as [Hr _]; [lia|].
  destruct (round_up_spec (data_offset header data + l_size data) (l_align (Message header data)))
    as [Hs Hm]; [lia|].
  assert (l_size (Message header data) = round_up (data_offset header data + l_size data)
    (l_align (Message header data))) as Hsz by done.
  unfold data_offset in *. rewrite Hsz. split_and!; try lia; try done.
  - split; [rewrite Hsz; lia|]. eauto.
  - apply Z.mod_divide in Hm; [|lia]. apply Z.divide_pos_le in Hm; lia.
Qed.

(** The data of a message that is not a zero-sized type starts before the end
    of the message, wherever inside of an alignment step the message starts. *)
Lemma data_inside adj :
  0 < l_size data → adj < l_align (Message header data) →
  adj + data_offset header data < l_size (Message header data).
Proof.
  intros Hs Hadj. destruct message_layout as (_ & _ & Hm & [Ha _] & _).
  assert (data_offset header data + l_align (Message header data) ≤ l_size (Message header data)); [|lia].
  apply multiple_gap; try done; [apply data_offset_aligned|].
  destruct (round_up_spec (data_offset header data + l_size data) (l_align (Message header data)))
    as [Hr _]; [lia|]. cbn in *. lia.
Qed.
End Layouts.

(** ** The reference counters

    [R] lists the references to samples, with repetition: whoever may still use
    a sample contributes its offset. *)

Section References.
Context `{P : Profile} (header data : Layout) (n adj : Z).
#[local] Notation msg := (Message header data).

Definition refs (R : list Z) (i : Z) : Z :=
  Z.of_nat (length (filter (λ v, v / l_size msg = i) R)).

(** An offset into a sample: to its message, or to the data of the message. *)
Definition offset_ok (v : Z) : Prop := 0 ≤ v ∧ v / l_size msg < n ∧ adj ≤ v mod l_size msg.

(** [loans] samples were loaned so far; the modification counter of the pool
    advances by two per sample that was loaned and given back. *)
Record samples_rep (s : Samples) (loans : Z) (R : list Z) : Prop := {
  sr_segment : ∃ aba used,
    seg_used (data_segment s) msg n adj aba used ∧ aba + Z.of_nat (length used) = 2 * loans ∧
    (∀ i, i ∈ used ↔ 0 < refs R i);
  sr_length : Z.of_nat (length (sample_reference_counter s)) = n;
  sr_counts : ∀ i, 0 ≤ i < n → sample_reference_counter s !! Z.to_nat i = Some (refs R i);
  sr_offsets : Forall offset_ok R
}.

Lemma refs_cons v R i : refs (v :: R) i = (if decide (v / l_size msg = i) then 1 else 0) + refs R i.
Proof. unfold refs. rewrite filter_cons. destruct (decide _); cbn; lia. Qed.

#[global] Instance refs_proper : Proper ((≡ₚ) ==> (=) ==> (=)) refs.
Proof. intros R1 R2 HR i ? <-. unfold refs. by rewrite HR. Qed.

Lemma refs_nonneg R i : 0 ≤ refs R i.
Proof. unfold refs. lia. Qed.

Lemma refs_le R i : refs R i ≤ Z.of_nat (length R).
Proof. unfold refs. pose proof (length_filter (λ v, v / l_size msg = i) R). lia. Qed.

Lemma refs_pos R i : 0 < refs R i ↔ ∃ v, v ∈ R ∧ v / l_size msg = i.
Proof.
  induction R as [|v R IH].
  - unfold refs. cbn. split; [lia|]. intros (v & Hv & _). by apply not_elem_of_nil in Hv.
  - rewrite refs_cons. pose proof (refs_nonneg R i). destruct (decide (v / l_size msg = i)) as [He|He].
    + split; [|lia]. intros _. exists v. split; [left|done].
    + rewrite Z.add_0_l, IH. split; intros (w & Hw & Hi); exists w; split; try done; [by right|].
      apply elem_of_cons in Hw as [->|?]; [done|done].
Qed.

Lemma samples_rep_perm s loans R1 R2 :
  R1 ≡ₚ R2 → samples_rep s loans R1 → samples_rep s loans R2.
Proof.
  intros HR [(aba & used & Hs & Ha & Hu) Hl Hc Ho]. constructor.
  - exists aba, used. split_and!; try done. intros i. by rewrite <- HR.
  - done.
  - intros i Hi. rewrite <- HR. by apply Hc.
  - by rewrite <- HR.
Qed.

(** Another offset into the same sample is as good a reference. *)
Lemma samples_rep_alias s loans R v w :
  samples_rep s loans (v :: R) → v / l_size msg = w / l_size msg → offset_ok w →
  samples_rep s loans (w :: R).
Proof.
  intros [(aba & used & Hs & Ha & Hu) Hl Hc Ho] He Hw.
  assert (∀ i, refs (w :: R) i = refs (v :: R) i) as Hr by (intros i; by rewrite !refs_cons, He).
  apply Forall_cons in Ho as [_ Ho]. constructor; try done.
  - exists aba, used. split_and!; try done. intros i. by rewrite Hr.
  - intros i Hi. rewrite Hr. by apply Hc.
  - by constructor.
Qed.

Lemma sample_index_ok v : offset_ok v → 0 < l_size msg → sample_index header data v = Return (v / l_size msg).
Proof. intros _ Hs. unfold sample_index. by rewrite udiv_ok by lia. Qed.

Lemma offset_index v : offset_ok v → 0 < l_size msg → 0 ≤ v / l_size msg < n.
Proof. intros (Hv & Hi & _) Hs. split; [|done]. apply Z.div_pos; lia. Qed.

(** Changing one counter. *)
Lemma fetch_add_ok cells i c d :
  0 ≤ i < Z.of_nat (length cells) → cells !! Z.to_nat i = Some c → 0 ≤ c + d < USIZE →
  fetch_add cells i d = Return (c, <[Z.to_nat i := c + d]> cells).
Proof.
  intros Hi Hc Hd. unfold fetch_add, index_read, index_write. rewrite (raw_read_ok _ _ c) by (done || lia).
  cbn [obind]. rewrite raw_write_ok by lia. cbn [obind]. unfold wrap. by rewrite Z.mod_small by lia.
Qed.

Lemma counts_insert cells R R' i0 c :
  0 ≤ i0 → Z.of_nat (length cells) = n →
  (∀ i, 0 ≤ i < n → cells !! Z.to_nat i = Some (refs R i)) → i0 < n →
  refs R' i0 = c → (∀ i, i ≠ i0 → refs R' i = refs R i) →
  ∀ i, 0 ≤ i < n → <[Z.to_nat i0 := c]> cells !! Z.to_nat i = Some (refs R' i).
Proof.
  intros H0 Hl Hc Hn He Hne i Hi. destruct (decide (i = i0)) as [->|Hd].
  - rewrite list_lookup_insert_eq by lia. by rewrite He.
  - rewrite list_lookup_insert_ne by lia. rewrite Hne by done. by apply Hc.
Qed.

Context (Hsize : 0 < l_size msg).

(** One more reference to a sample that is in use. *)
Lemma retain_rep s loans R v :
  samples_rep s loans R → v ∈ R → Z.of_nat (length R) + 1 < USIZE →
  ∃ s' old, retain header data s v = Return (old, s') ∧ samples_rep s' loans (v :: R).
Proof.
  intros [(aba & used & Hs & Ha & Hu) Hl Hc Ho] Hv Hlen.
  assert (offset_ok v) as Hok by (by eapply Forall_forall in Ho).
  pose proof (offset_index v Hok Hsize) as Hi. pose proof (refs_le R (v / l_size msg)).
  pose proof (refs_nonneg R (v / l_size msg)).
  unfold retain. rewrite sample_index_ok by done. cbn [obind].
  rewrite (fetch_add_ok _ _ (refs R (v / l_size msg))); [|lia|by apply Hc|lia]. cbn [obind].
  do 2 eexists. split; [done|]. constructor; cbn [sample_reference_counter data_segment].
  - exists aba, used. split_and!; try done. intros i. rewrite Hu, !refs_pos. split.
    + intros (w & Hw & Hwi). exists w. split; [by right|done].
    + intros (w & [->|Hw]%elem_of_cons & Hwi); eauto.
  - by rewrite length_insert.
  - apply (counts_insert _ R); try done; try lia.
    + rewrite refs_cons, decide_True by done. lia.
    + intros i Hne. by rewrite refs_cons, decide_False by done.
  - by constructor.
Qed.

(** Dropping a reference; the last one gives the sample back. *)
Lemma release_with_rep l s loans R v :
  samples_rep s loans (v :: R) → 2 * loans < U32 → Z.of_nat (length R) + 1 < USIZE →
  ∃ s', release_with header data l s v = Return s' ∧ samples_rep s' loans R.
Proof.
  intros [(aba & used & Hs & Ha & Hu) Hl Hc Ho] H32 Hlen. apply Forall_cons in Ho as [Hok Ho].
  pose proof (offset_index v Hok Hsize) as Hi. set (i0 := v / l_size msg) in *.
  pose proof (refs_le R i0). pose proof (refs_nonneg R i0).
  assert (refs (v :: R) i0 = 1 + refs R i0) as Hr by (rewrite refs_cons, decide_True by done; lia).
  assert (∀ i, i ≠ i0 → refs R i = refs (v :: R) i) as Hne.
  { intros i Hne. by rewrite refs_cons, decide_False by done. }
  unfold release_with. rewrite sample_index_ok by done. cbn [obind]. fold i0.
  rewrite (fetch_add_ok _ i0 (refs (v :: R) i0)); [|lia|by apply Hc|lia]. cbn [obind].
  assert (∀ i, 0 ≤ i < n → <[Z.to_nat i0 := refs (v :: R) i0 + -1]> (sample_reference_counter s)
    !! Z.to_nat i = Some (refs R i)) as Hc'.
  { apply (counts_insert _ (v :: R)); try done; lia. }
  destruct (Z.eqb_spec (refs (v :: R) i0) 1) as [H1|H1].
  - assert (i0 ∈ used) as (u1 & u2 & ->)%list_elem_of_split by (apply Hu; lia).
    assert (seg_used (data_segment s) msg n adj aba (i0 :: u1 ++ u2)) as Hs'.
    { destruct Hs. constructor; try done. eapply pool_used_perm; [|done]. solve_Permutation. }
    pose proof (su_used _ _ _ _ _ _ Hs') as Hpu. pose proof (pool_used_facts _ _ _ _ _ Hpu) as [Hnd _].
    apply NoDup_cons in Hnd as [Hni _]. rewrite length_app in Ha. cbn in Ha.
    destruct (seg_used_deallocate _ _ _ _ _ _ _ v l Hs') as (m' & Hde & Hm'); [lia| |].
    { pose proof (su_adj _ _ _ _ _ _ Hs). destruct Hok as (? & ? & Hmod).
      pose proof (Z.div_mod v (l_size msg)). pose proof (Z.mod_pos_bound v (l_size msg)). fold i0 in H2. lia. }
    rewrite Hde. cbn [obind]. eexists. split; [done|]. constructor; cbn [sample_reference_counter data_segment]; rewrite ?length_insert; try done.
    exists (aba + 1), (u1 ++ u2). rewrite length_app. split_and!; [done|lia|].
    intros i. destruct (decide (i = i0)) as [->|Hd].
    + split; [done|lia].
    + rewrite (Hne i Hd), <- Hu. set_solver.
  - eexists. split; [done|]. constructor; cbn [sample_reference_counter data_segment]; rewrite ?length_insert; try done.
    exists aba, used. split_and!; try done. intros i. rewrite Hu.
    destruct (decide (i = i0)) as [->|Hd]; [lia|]. by rewrite (Hne i Hd).
Qed.

(** There are at most as many used samples as references. *)
Lemma used_le_references (used R : list Z) :
  NoDup used → (∀ i, i ∈ used → 0 < refs R i) → (length used ≤ length R)%nat.
Proof.
  intros Hnd Hu. rewrite <- (length_fmap (λ v, v / l_size msg) R).
  apply submseteq_length, NoDup_submseteq; [done|]. intros i Hi.
  destruct (proj1 (refs_pos R i) (Hu i Hi)) as (v & Hv & <-). by apply (list_elem_of_fmap_2 (λ v, v / l_size msg)).
Qed.

(** With fewer references than samples an allocation succeeds, with a sample
    nobody refers to. *)
Lemma allocate_rep s loans R :
  samples_rep s loans R → 2 * loans + 2 < U32 → Z.of_nat (length R) < n → n < USIZE → adj < l_size msg →
  ∃ chunk m' s', mem_allocate (data_segment s) msg = Return (Ok chunk, m') ∧
    retain header data (mkSamples (sample_reference_counter s) m') (offset chunk) = Return (0, s') ∧
    refs R (offset chunk / l_size msg) = 0 ∧ offset chunk mod l_size msg = adj ∧
    offset_ok (offset chunk) ∧ samples_rep s' (loans + 1) (offset chunk :: R).
Proof.
  intros [(aba & used & Hs & Ha & Hu) Hl Hc Ho] H32 Hlen Hn Hadj.
  pose proof (su_used _ _ _ _ _ _ Hs) as Hpu. pose proof (pool_used_facts _ _ _ _ _ Hpu) as [Hnd _].
  assert (length used ≤ length R)%nat as Hle by (apply used_le_references; [done|]; intros i; apply Hu).
  destruct (seg_used_allocate _ _ _ _ _ _ Hs) as (i & m' & Hal & Hi & Hni & Hs'); [lia..|].
  pose proof (su_adj _ _ _ _ _ _ Hs) as Hadj0.
  assert ((adj + i * l_size msg) / l_size msg = i) as Hdiv by (rewrite Z.div_add, Z.div_small by lia; lia).
  assert ((adj + i * l_size msg) mod l_size msg = adj) as Hmod by (rewrite Z.mod_add, Z.mod_small by lia; lia).
  assert (refs R i = 0) as Hr.
  { pose proof (refs_nonneg R i). destruct (decide (0 < refs R i)) as [Hp|]; [|lia].
    by apply Hu in Hp. }
  assert (offset_ok (adj + i * l_size msg)) as Hok.
  { split; [nia|]. rewrite Hdiv, Hmod. lia. }
  do 2 eexists. eexists. split; [exact Hal|]. cbn [offset].
  unfold retain. rewrite sample_index_ok by done. cbn [obind sample_reference_counter data_segment].
  rewrite Hdiv. rewrite (fetch_add_ok _ i (refs R i)); [|lia|by apply Hc|unfold USIZE; lia]. cbn [obind].
  rewrite Hr. split; [done|]. split_and!; try done. constructor; cbn [sample_reference_counter data_segment]; rewrite ?length_insert; try done.
  - exists (aba + 1), (i :: used). split_and!; [done|cbn; lia|]. intros j.
    rewrite elem_of_cons, refs_cons, Hdiv, Hu. pose proof (refs_nonneg R j).
    destruct (decide (i = j)); subst; [lia|]. split; [intros [->|?]; [done|lia]|intros; right; lia].
  - apply (counts_insert _ R); try done; try lia.
    + rewrite refs_cons, Hdiv, decide_True by done. lia.
    + intros j Hne. by rewrite refs_cons, Hdiv, decide_False by done.
  - by constructor.
Qed.
End References.
