(* ===== verification/Subscriber.v ===== *)
(** * elkodon/src/port/subscriber.rs, sample.rs and details/publisher_connections.rs

    The subscriber port: it polls the connections to all publishers in order,
    translates the offset it receives into an address of its own mapping of the
    publisher's data segment, and returns the sample when it is dropped.

    The receiver side of a new connection is a parameter ([connect]). *)

From S2P Require Import Prelude Elementary UniqueIndexSet SharedMemory ZeroCopyConnection Container Publisher.

(** ** Data *)

Inductive ConnectionFailure :=
| FailedToEstablishConnection (e : ZeroCopyCreationError)
| UnableToMapPublishersDataSegment (e : SharedMemoryOpenError).

Inductive ReceiveError :=
| ExceedsMaxBorrowedSamples
| ReceiveConnectionFailure (e : ConnectionFailure).

Inductive SubscriberCreateError := ExceedsMaxSupportedSubscribers.

(** The receiver with its counter, and where the data of the publisher starts
    in this process ([allocator_data_start_address]). *)
Record Connection := mkConnection {
  receiver : SharedManagementData;
  r_borrow_counter : Z;
  data_start : Z
}.

Definition PublisherConnections := list (option Connection).

Record Subscriber := mkSubscriber {
  publisher_connections : PublisherConnections;
  publisher_list_state : ContainerState Z;
  s_degration_callback : option (Z → DegrationAction);
  dynamic_config_guard : option Z
}.

(** [ptr] is the address of the message. *)
Record Sample := mkSample { ptr : Z; channel_id : Z }.

Definition set_publisher_connections s cs :=
  mkSubscriber cs (publisher_list_state s) (s_degration_callback s) (dynamic_config_guard s).
Definition set_publisher_list_state s st :=
  mkSubscriber (publisher_connections s) st (s_degration_callback s) (dynamic_config_guard s).
Definition set_s_degration_callback s f :=
  mkSubscriber (publisher_connections s) (publisher_list_state s) f (dynamic_config_guard s).
Definition set_guard s g :=
  mkSubscriber (publisher_connections s) (publisher_list_state s) (s_degration_callback s) g.

Section Operations.
Context `{P : Profile}.
Context (header_layout data_layout : Layout).

(** ** Receiving *)

Definition receive_from_connection (channel_id : Z) (c : Connection)
    : outcome (result (option Sample) ReceiveError * Connection) :=
  let! '(r, m, bc) := receive (receiver c) (r_borrow_counter c) in
  let c := mkConnection m bc (data_start c) in
  match r with
  | Ok None => Return (Ok None, c)
  | Ok (Some relative_addr) =>
      let! absolute_address := uadd relative_addr (data_start c) in
      Return (Ok (Some (mkSample absolute_address channel_id)), c)
  | Err ReceiveWouldExceedMaxBorrowValue => Return (Err ExceedsMaxBorrowedSamples, c)
  end.

(** The loop of [receive] over the channels. *)
Fixpoint receive_loop (channel_id : Z) (cs : PublisherConnections)
    : outcome (result (option Sample) ReceiveError * PublisherConnections) :=
  match cs with
  | [] => Return (Ok None, [])
  | None :: cs =>
      let! '(r, cs) := receive_loop (channel_id + 1) cs in Return (r, None :: cs)
  | Some c :: cs =>
      let! '(r, c) := receive_from_connection channel_id c in
      match r with
      | Err e => Return (Err e, Some c :: cs)
      | Ok (Some sample) => Return (Ok (Some sample), Some c :: cs)
      | Ok None => let! '(r, cs) := receive_loop (channel_id + 1) cs in Return (r, Some c :: cs)
      end
  end.

(** ** Releasing *)

(** [release_sample] on the connection of the sample; a full retrieve channel
    is tried once more. *)
Definition release_to_connection (c : Connection) (message : Z) : outcome Connection :=
  let! distance := usub message (data_start c) in
  let! '(r, m, bc) := release (receiver c) (r_borrow_counter c) distance in
  match r with
  | Ok _ => Return (mkConnection m bc (data_start c))
  | Err RetrieveBufferFull =>
      let! '(r, m, bc) := release m bc distance in
      match r with
      | Ok _ => Return (mkConnection m bc (data_start c))
      | Err _ => Panic
      end
  end.

Definition release_sample (s : Subscriber) (channel_id message : Z) : outcome Subscriber :=
  let! o := index_read (publisher_connections s) channel_id in
  match o with
  | Some c =>
      let! c := release_to_connection c message in
      let! cs := index_write (publisher_connections s) channel_id (Some c) in
      Return (set_publisher_connections s cs)
  | None => Return s
  end.

(** [Sample::as_ptr]: the address of the data, behind the header. *)
Definition sample_as_ptr (x : Sample) : Z := ptr x + data_offset header_layout data_layout.

(** [Drop for Sample] *)
Definition sample_drop (s : Subscriber) (x : Sample) : outcome Subscriber :=
  release_sample s (channel_id x) (sample_as_ptr x).

(** ** Connections *)

(** [Connection::new]: the receiver for the publisher with an id and its data
    segment. *)
Context (connect : Z → outcome (result Connection ConnectionFailure)).

Fixpoint populate_loop (callback : option (Z → DegrationAction)) (visited : list (option Z))
    (cs : PublisherConnections) : outcome (result unit ConnectionFailure * PublisherConnections) :=
  match visited, cs with
  | [], cs => Return (Ok tt, cs)
  | _ :: _, [] => Panic
  | None :: visited, _ :: cs =>
      let! '(r, cs) := populate_loop callback visited cs in Return (r, None :: cs)
  | Some id :: visited, Some c :: cs =>
      let! '(r, cs) := populate_loop callback visited cs in Return (r, Some c :: cs)
  | Some id :: visited, None :: cs =>
      let! r := connect id in
      match r with
      | Ok c => let! '(r, cs) := populate_loop callback visited cs in Return (r, Some c :: cs)
      | Err e =>
          match callback with
          | Some f =>
              match f id with
              | ActionFail => Return (Err e, None :: cs)
              | ActionIgnore | ActionWarn =>
                  let! '(r, cs) := populate_loop callback visited cs in Return (r, None :: cs)
              end
          | None => let! '(r, cs) := populate_loop callback visited cs in Return (r, None :: cs)
          end
      end
  end.

Definition populate_publisher_channels (s : Subscriber)
    : outcome (result unit ConnectionFailure * Subscriber) :=
  let! es := for_each (publisher_list_state s) in
  let! visited := visit (replicate (length (publisher_connections s)) None) es in
  let! '(r, cs) := populate_loop (s_degration_callback s) visited (publisher_connections s) in
  Return (r, set_publisher_connections s cs).

Definition update_connections (pubs : Container Z) (s : Subscriber)
    : outcome (result unit ConnectionFailure * Subscriber) :=
  let! '(changed, st) := update_state pubs (publisher_list_state s) in
  let s := set_publisher_list_state s st in
  if changed : bool then populate_publisher_channels s else Return (Ok tt, s).

Definition subscriber_receive (pubs : Container Z) (s : Subscriber)
    : outcome (result (option Sample) ReceiveError * Subscriber) :=
  let! '(r, s) := update_connections pubs s in
  match r with
  | Err e => Return (Err (ReceiveConnectionFailure e), s)
  | Ok _ =>
      let! '(r, cs) := receive_loop 0 (publisher_connections s) in
      Return (r, set_publisher_connections s cs)
  end.

Definition number_of_publishers (s : Subscriber) : Z :=
  Z.of_nat (length (filter (λ c, match c with Some c => is_connected (receiver c) | None => false end = true)
                      (publisher_connections s))).

(** [Subscriber::new]: the subscriber is announced after it has connected. *)
Definition subscriber_new (port_id : Z) (subscribers publishers : Container Z)
    : outcome (result Subscriber SubscriberCreateError * Container Z) :=
  let! st := get_state publishers in
  let s := mkSubscriber (replicate (Z.to_nat (c_capacity publishers)) None) st None None in
  let! '(_, s) := populate_publisher_channels s in
  let! '(guard, subscribers) := add subscribers port_id in
  match guard with
  | Some index => Return (Ok (set_guard s (Some (value index))), subscribers)
  | None => Return (Err ExceedsMaxSupportedSubscribers, subscribers)
  end.
End Operations.

(** ** Polling *)

Section Theorems.
Context `{P : Profile} (b : Builder).

(** A channel with the offsets [rx] in its receive channel; [None] has none. *)
Definition channel_rep (k : nat) (o : option Connection) (rx : list Z) : Prop :=
  match o with
  | None => rx = []
  | Some c =>
      (∃ bo se re rt, conn_inv b k (mkConn (receiver c) (r_borrow_counter c) bo se re) rx rt) ∧
      Forall (λ v, 0 ≤ v + data_start c < USIZE) rx
  end.

(** The receiver may not borrow another sample. *)
Definition exhausted (c : Connection) : bool :=
  max_borrowed_samples (receiver c) <=? r_borrow_counter c.

(** The channels are polled in order; the first one that has a sample, or whose
    receiver may not borrow another one, decides. *)
Fixpoint first_sample (channel_id : Z) (cs : PublisherConnections) (rxs : list (list Z))
    : result (option Sample) ReceiveError :=
  match cs, rxs with
  | Some c :: cs, rx :: rxs =>
      if exhausted c then Err ExceedsMaxBorrowedSamples
      else match rx with
           | v :: _ => Ok (Some (mkSample (v + data_start c) channel_id))
           | [] => first_sample (channel_id + 1) cs rxs
           end
  | None :: cs, _ :: rxs => first_sample (channel_id + 1) cs rxs
  | _, _ => Ok None
  end.

(** What is left in the channels. *)
Fixpoint remaining (cs : PublisherConnections) (rxs : list (list Z)) : list (list Z) :=
  match cs, rxs with
  | Some c :: cs, rx :: rxs =>
      if exhausted c then rx :: rxs
      else match rx with v :: rx => rx :: rxs | [] => [] :: remaining cs rxs end
  | None :: cs, rx :: rxs => rx :: remaining cs rxs
  | _, _ => rxs
  end.

Lemma channel_rep_weaken k o rx : channel_rep k o rx → channel_rep (S k) o rx.
Proof.
  destruct o as [c|]; [|done]. intros ((bo & se & re & rt & Hc) & HF). split; [|done].
  exists bo, se, re, rt. by apply conn_inv_weaken.
Qed.

(** One channel. *)
Lemma receive_one k c ch rx :
  channel_rep k (Some c) rx → Z.of_nat k + buffer_size b + b_max_borrowed_samples b + 4 < USIZE →
  ∃ c', receive_from_connection ch c =
    Return (if exhausted c then Err ExceedsMaxBorrowedSamples
            else Ok ((λ v, mkSample (v + data_start c) ch) <$> List.hd_error rx), c') ∧
    channel_rep (S k) (Some c') (if exhausted c then rx else List.tl rx).
Proof.
  intros Hch Hk. pose proof (channel_rep_weaken _ _ _ Hch) as Hsame.
  destruct Hch as ((bo & se & re & rt & Hc) & HF). unfold receive_from_connection.
  destruct (receive_inv _ _ _ _ _ _ _ _ _ Hc Hk) as (r & m' & bc' & Hr & Hres). rewrite Hr. cbn [obind].
  unfold receive in Hr. unfold exhausted.
  destruct (max_borrowed_samples (receiver c) <=? r_borrow_counter c).
  - injection Hr as <- <- <-. eexists. split; [done|]. by destruct c.
  - destruct r as [[v|]|[]].
    + destruct Hres as (rx' & -> & Hc'). apply Forall_cons in HF as [Hv HF].
      rewrite uadd_ok by (cbn; lia). eexists. split; [done|]. split; [by exists (v :: bo), se, re, rt|done].
    + destruct Hres as (-> & -> & ->). eexists. split; [done|]. by destruct c.
    + destruct (OverflowQueue.pop _) as [[[w|] q]| |]; [| |done..]; cbn [obind] in Hr; [|done].
      by destruct (uadd _ _).
Qed.

(** [receive] polls the channels in order and returns the oldest sample of the
    first channel that has one, at the address of this process; the channels
    before it are empty and the ones after it are not touched. A channel whose
    receiver holds its maximum of samples ends the search with an error, also
    when a later channel has samples. No call panics. *)
Theorem receive_polls_in_order k ch cs rxs :
  Forall2 (channel_rep k) cs rxs → Z.of_nat k + buffer_size b + b_max_borrowed_samples b + 4 < USIZE →
  ∃ cs', receive_loop ch cs = Return (first_sample ch cs rxs, cs') ∧
    Forall2 (channel_rep (S k)) cs' (remaining cs rxs).
Proof.
  intros HF Hk. revert ch. induction HF as [|o rx cs rxs Ho HF IH]; intros ch; cbn [receive_loop].
  { exists []. split; [done|constructor]. }
  assert (Forall2 (channel_rep (S k)) cs rxs) as HFS.
  { eapply Forall2_impl; [exact HF|]. intros ? ?. apply channel_rep_weaken. }
  destruct o as [c|]; cbn [first_sample remaining].
  - destruct (receive_one k c ch rx Ho Hk) as (c' & -> & Hc'). cbn [obind].
    destruct (exhausted c); [eexists; split; [done|]; by constructor|].
    destruct rx as [|v rx]; cbn in *; [|eexists; split; [done|]; by constructor].
    destruct (IH (ch + 1)) as (cs' & -> & HF'). cbn [obind]. eexists. split; [done|]. by constructor.
  - destruct (IH (ch + 1)) as (cs' & -> & HF'). cbn [obind]. eexists. split; [done|]. by constructor.
Qed.
End Theorems.

Section Witnesses.
#[local] Instance subscriber_checked : Profile := true.

Lemma receive_polls_in_order_witness :
  ∃ m cs', receive_loop 0 [None; Some (mkConnection m 0 4096)] = Return (Ok None, cs').
Proof.
  destruct (setup_ok 256 (mkBuilder 2 true 1) 65536) as (m & Hs & Hm & _); try done.
  destruct (receive_polls_in_order (mkBuilder 2 true 1) 0 0 [None; Some (mkConnection m 0 4096)] [[]; []])
    as (cs' & Hr & _); [|done|].
  - constructor; [done|]. constructor; [|constructor]. split; [by exists [], [], [], []|constructor].
  - exists m, cs'. rewrite Hr. cbn [first_sample]. unfold exhausted. cbn [receiver r_borrow_counter].
    pose proof (ci_max _ _ _ _ _ Hm) as Hx. cbn in Hx. by rewrite Hx.
Defined.
End Witnesses.
