(* ===== verification/PubSub.v ===== *)
(** * A publisher and its subscribers

    The publisher port, the connections to its subscribers and the receiving
    end of each connection as one system. Every reference to a sample is held by
    a loan, by the history, by one of the channels or by a subscriber that has
    borrowed it; the reference counters of the publisher count exactly these,
    and the data segment is large enough that loaning never runs out of samples. *)

From S2P Require Import Prelude Ring Elementary IndexQueue OverflowQueue UniqueIndexSet BumpAllocator PoolAllocator ShmAllocator SharedMemory ZeroCopyConnection Container BbContainers Publisher Subscriber.

(** What a connection holds: the receive channel, the borrowed samples, the
    retrieve channel. *)
Record slot := mkSlot { rx : list Z; bo : list Z; rt : list Z }.

Definition no_slot : slot := mkSlot [] [] [].
Definition slot_refs (g : slot) : list Z := rx g ++ bo g ++ rt g.
Definition all_refs (gs : list slot) : list Z := mjoin (slot_refs <$> gs).
Definition emptied (g : slot) : slot := mkSlot (rx g) (bo g) [].

Lemma all_refs_cons g gs : all_refs (g :: gs) = slot_refs g ++ all_refs gs.
Proof. done. Qed.

(** Bounds under which no position and no counter wraps around. *)
Definition room (b : Builder) (k : nat) (loans : Z) (refs : nat) : Prop :=
  Z.of_nat k + buffer_size b + b_max_borrowed_samples b + 4 < USIZE ∧
  2 * loans + 2 < U32 ∧ Z.of_nat refs + 1 < USIZE.

(** Reordering and counting references. *)
Ltac refs_perm :=
  rewrite ?fmap_cons, ?all_refs_cons; unfold slot_refs; cbn [rx bo rt emptied];
  rewrite ?app_nil_r; solve_Permutation.
Ltac refs_room :=
  unfold room in *; rewrite ?fmap_cons, ?all_refs_cons in *; unfold slot_refs in *;
  cbn [rx bo rt emptied] in *; rewrite ?length_app, ?length_cons in *; lia.

Section Connections.
Context `{P : Profile} (header data : Layout) (n adj : Z) (b : Builder).
#[local] Notation msg := (Message header data).
Context (Hsize : 0 < l_size msg).
Implicit Types (g : slot) (gs : list slot) (s : Samples) (cs : Connections) (R : list Z).

(** The offset of a message, as the publisher sends it. *)
Definition chunk_ok (v : Z) : Prop := v mod l_size msg = adj.

Definition slot_rep (k : nat) (o : option SharedManagementData) (g : slot) : Prop :=
  match o with
  | None => g = no_slot
  | Some m =>
      (∃ se re, conn_inv b k (mkConn m (Z.of_nat (length (bo g))) (bo g) se re) (rx g) (rt g)) ∧
      enable_safe_overflow m = b_enable_safe_overflow b ∧ Forall chunk_ok (rx g ++ bo g)
  end.

#[local] Notation rep s loans R := (samples_rep header data n adj s loans R).

Lemma slot_rep_weaken k o g : slot_rep k o g → slot_rep (S k) o g.
Proof.
  destruct o as [m|]; [|done]. intros ((se & re & Hc) & Ho). split; [|done].
  exists se, re. by apply conn_inv_weaken.
Qed.

Lemma slot_size k o g :
  slot_rep k o g → 0 ≤ buffer_size b → 0 ≤ b_max_borrowed_samples b →
  Z.of_nat (length (rx g)) ≤ buffer_size b ∧ Z.of_nat (length (bo g)) ≤ b_max_borrowed_samples b ∧
  Z.of_nat (length (slot_refs g)) ≤ buffer_size b + b_max_borrowed_samples b + 1.
Proof.
  intros Hs H1 H2. destruct o as [m|].
  - destruct Hs as ((se & re & []) & _). cbn [mgmt borrow_counter borrowed sent returned] in *.
    unfold slot_refs. rewrite !length_app. lia.
  - rewrite Hs. cbn. lia.
Qed.

(** ** Returned samples *)

Lemma reclaim_loop_rep k loans bc bos se re rxs rts : ∀ fuel s m R,
  conn_inv b k (mkConn m bc bos se re) rxs rts → rep s loans (rts ++ R) →
  room b k loans (length (rts ++ R)) → (length rts < fuel)%nat →
  ∃ s' m' re', reclaim_loop header data fuel s m = Return (s', m') ∧
    conn_inv b k (mkConn m' bc bos se re') rxs [] ∧ rep s' loans R ∧
    enable_safe_overflow m' = enable_safe_overflow m.
Proof.
  revert re. induction rts as [|v rts IH]; intros re [|fuel] s m R Hc Hs (Hk & Hl & Hn) Hf;
    try (cbn in Hf; lia); cbn [reclaim_loop];
    destruct (reclaim_inv _ _ _ _ _ _ _ _ _ Hc Hk) as (r & m' & rt' & Hr & Heq & Hnone & Hc');
    pose proof (reclaim_overflow_flag _ _ _ Hr) as Hflag; rewrite Hr; cbn [obind].
  - rewrite (proj2 Hnone eq_refl) in *. destruct rt' as [|??]; [|done]. cbn in *.
    exists s, m', re. done.
  - destruct r as [w|]; [|by pose proof (proj1 Hnone eq_refl)].
    injection Heq as <- <-. cbn [app length] in *.
    destruct (release_with_rep header data n adj Hsize msg s loans (rts ++ R) v) as (s1 & Hs1 & Hrep);
      [done|lia|lia|]. rewrite Hs1. cbn [obind].
    destruct (IH _ fuel s1 m' R Hc' Hrep) as (s2 & m2 & re2 & H1 & H2 & H3 & H4); [|lia|].
    { unfold room. rewrite length_app in *. lia. }
    exists s2, m2, re2. rewrite H4. done.
Qed.

Lemma retrieve_rep k loans cs gs : ∀ s R,
  Forall2 (slot_rep k) cs gs → rep s loans (all_refs gs ++ R) →
  room b k loans (length (all_refs gs ++ R)) →
  ∃ s' cs', retrieve_returned_samples header data s cs = Return (s', cs') ∧
    Forall2 (slot_rep k) cs' (emptied <$> gs) ∧ rep s' loans (all_refs (emptied <$> gs) ++ R).
Proof.
  intros s R HF. revert s R.
  induction HF as [|o g cs gs Ho HF IH]; intros s R Hs Hrm; cbn [retrieve_returned_samples].
  { by exists s, []. }
  destruct o as [m|]; cbn in Ho.
  - destruct Ho as ((se & re & Hc) & Hfl & Hch).
    destruct (reclaim_loop_rep k loans _ _ _ _ _ _ (reclaim_fuel m) s m
      (all_refs gs ++ (rx g ++ bo g) ++ R) Hc) as (s1 & m1 & re1 & Hrl & Hc1 & Hs1 & Hfl1).
    + eapply samples_rep_perm; [|exact Hs]. refs_perm.
    + refs_room.
    + unfold reclaim_fuel. destruct Hc. cbn [mgmt borrow_counter borrowed sent returned] in *. lia.
    + rewrite Hrl. cbn [obind].
      destruct (IH s1 ((rx g ++ bo g) ++ R) Hs1) as (s2 & cs2 & Hr2 & HF2 & Hs2).
      { refs_room. }
      rewrite Hr2. cbn [obind]. do 2 eexists. split; [done|]. split.
      * constructor; [|done]. split; [by exists se, re1|]. by rewrite Hfl1.
      * eapply samples_rep_perm; [|exact Hs2]. refs_perm.
  - subst g. destruct (IH s R Hs Hrm) as (s2 & cs2 & -> & HF2 & Hs2). cbn [obind].
    do 2 eexists. split; [done|]. split; [by constructor|done].
Qed.
(** ** Delivery *)

(** A send reaches a connection: the sample is the last of the receive channel,
    from which the oldest one may have been evicted, or the send was refused. *)
Definition delivered (v : Z) (g g' : slot) : Prop :=
  bo g' = bo g ∧ rt g' = rt g ∧
  (rx g' = rx g ∨ ∃ ev, rx g ++ [v] = option_list ev ++ rx g').

Lemma delivered_refl v g : delivered v g g.
Proof. split_and!; auto. Qed.

(** Sending never waits. *)
Definition no_wait (strategy : UnableToDeliverStrategy) : Prop :=
  strategy = DiscardSample ∨ b_enable_safe_overflow b = true.

Lemma deliver_call_try_send rounds receiver strategy m v :
  no_wait strategy → enable_safe_overflow m = b_enable_safe_overflow b →
  deliver_call rounds receiver strategy m v = try_send m v.
Proof.
  intros [->|Ho] Hm; [done|]. destruct strategy; [|done]. apply blocking_send_overflow. by rewrite Hm.
Qed.

Lemma release_overflow_rep s loans R ev :
  rep s loans (option_list ev ++ R) → 2 * loans + 2 < U32 → Z.of_nat (length R) + 1 < USIZE →
  ∃ s', release_overflow header data s ev = Return s' ∧ rep s' loans R.
Proof.
  intros Hs Hl Hn. destruct ev as [w|]; cbn in *; [|by exists s].
  apply (release_with_rep header data n adj Hsize data s loans R w Hs); lia.
Qed.

(** One connection of [deliver_sample]. *)
Lemma deliver_one_rep k loans s m g v R :
  slot_rep k (Some m) g → rep s loans (slot_refs g ++ R) → v ∈ R → chunk_ok v →
  room b k loans (S (length (slot_refs g ++ R))) →
  ∃ r m' g', try_send m v = Return (r, m') ∧ slot_rep (S k) (Some m') g' ∧ delivered v g g' ∧
    match r with
    | Err _ => g' = g
    | Ok ev => ∃ s1 old s2, retain header data s v = Return (old, s1) ∧
        release_overflow header data s1 ev = Return s2 ∧ rep s2 loans (slot_refs g' ++ R)
    end.
Proof.
  intros ((se & re & Hc) & Hfl & Hch) Hs Hv Hok (Hk & Hl & Hn).
  destruct (try_send_inv _ _ _ _ _ _ _ _ _ v Hc Hk) as (r & m' & Hsend & Hr).
  pose proof (try_send_overflow_flag _ _ _ _ Hsend) as Hfl'. destruct r as [ev|e].
  - destruct Hr as (rx' & Hrx & Hev & _ & Hc'). exists (Ok ev), m', (mkSlot rx' (bo g) (rt g)).
    assert (Forall chunk_ok (option_list ev ++ rx' ++ bo g)) as Hch'.
    { rewrite app_assoc, <- Hrx, <- app_assoc. apply Forall_app in Hch as [Hc1 Hc2].
      apply Forall_app. split; [done|]. by constructor. }
    split; [done|]. split; [|split].
    + split; [by exists (v :: se), (option_list ev ++ re)|]. cbn. split; [by rewrite Hfl'|].
      by apply Forall_app in Hch' as [_ Hch'].
    + split_and!; [done|done|]. right. by exists ev.
    + destruct (retain_rep header data n adj Hsize s loans _ v Hs) as (s1 & old & Hs1 & Hrep1).
      { set_solver. } { lia. }
      destruct (release_overflow_rep s1 loans (slot_refs (mkSlot rx' (bo g) (rt g)) ++ R) ev) as (s2 & Hs2 & Hrep2).
      * eapply samples_rep_perm; [|exact Hrep1]. unfold slot_refs. cbn [rx bo rt].
        transitivity ((rx g ++ [v]) ++ bo g ++ rt g ++ R); [solve_Permutation|]. rewrite Hrx. solve_Permutation.
      * lia.
      * apply (f_equal length) in Hrx. unfold slot_refs in *. cbn [rx bo rt].
        rewrite !length_app in *. cbn in Hrx. lia.
      * by exists s1, old, s2.
  - exists (Err e), m', g. split; [done|]. split; [|by split; [apply delivered_refl|]].
    assert (m' = m) as -> by (destruct e; by destruct Hr as [-> _]).
    apply (slot_rep_weaken k (Some m)). by split; [exists se, re|].
Qed.

Lemma delivered_length v g g' :
  delivered v g g' → (length (slot_refs g') ≤ S (length (slot_refs g)))%nat.
Proof.
  intros (Hb & Ht & Hx). unfold slot_refs. rewrite Hb, Ht, !length_app.
  destruct Hx as [->|(ev & Hx)]; [lia|]. apply (f_equal length) in Hx. rewrite !length_app in Hx.
  cbn in Hx. lia.
Qed.

Lemma deliver_rep rounds receiver strategy k loans v cs gs : ∀ s R,
  no_wait strategy → Forall2 (slot_rep k) cs gs → rep s loans (all_refs gs ++ R) → v ∈ R → chunk_ok v →
  room b k loans (length (all_refs gs ++ R) + length gs) → Z.of_nat (length gs) + 1 < USIZE →
  ∃ c s' cs' gs', deliver_sample header data rounds receiver strategy s cs v = Return (c, s', cs') ∧
    Forall2 (slot_rep (S k)) cs' gs' ∧ Forall2 (delivered v) gs gs' ∧
    rep s' loans (all_refs gs' ++ R) ∧ 0 ≤ c ≤ Z.of_nat (length gs).
Proof.
  intros s R Hnw HF. revert s R.
  induction HF as [|o g cs gs Ho HF IH]; intros s R Hs Hv Hok Hrm Hlen; cbn [deliver_sample].
  { by exists 0, s, [], []. }
  rewrite length_cons in Hlen. destruct o as [m|].
  - assert (slot_rep k (Some m) g) as Ho' by done. destruct Ho as (_ & Hfl & _).
    rewrite deliver_call_try_send by done.
    destruct (deliver_one_rep k loans s m g v (all_refs gs ++ R) Ho') as (r & m' & g' & Hsend & Hsl & Hdl & Hr);
      [by rewrite all_refs_cons, <- app_assoc in Hs|set_solver|done|refs_room|].
    rewrite Hsend. cbn [obind]. destruct r as [ev|e].
    + destruct Hr as (s1 & old & s2 & -> & Hro & Hrep). cbn [obind]. rewrite Hro. cbn [obind].
      destruct (IH s2 (slot_refs g' ++ R)) as (c & s3 & cs3 & gs3 & Hd & HF3 & Hd3 & Hs3 & Hc);
        [|set_solver|done| |lia|].
      * eapply samples_rep_perm; [|exact Hrep]. solve_Permutation.
      * pose proof (delivered_length v g g' Hdl). refs_room.
      * rewrite Hd. cbn [obind]. rewrite uadd_ok by lia. cbn [obind]. do 4 eexists. split; [done|].
        split_and!; [by constructor|by constructor| |lia|cbn; lia].
        eapply samples_rep_perm; [|exact Hs3]. rewrite all_refs_cons. solve_Permutation.
    + subst g'. destruct (IH s (slot_refs g ++ R)) as (c & s3 & cs3 & gs3 & Hd & HF3 & Hd3 & Hs3 & Hc);
        [|set_solver|done|refs_room|lia|].
      * eapply samples_rep_perm; [|exact Hs]. rewrite all_refs_cons. solve_Permutation.
      * assert (rep s3 loans (all_refs (g :: gs3) ++ R)).
        { eapply samples_rep_perm; [|exact Hs3]. rewrite all_refs_cons. solve_Permutation. }
        destruct e; rewrite Hd; cbn [obind]; (do 4 eexists; split; [done|];
          split_and!; [by constructor|by constructor|done|lia|cbn; lia]).
  - cbn in Ho. subst g. destruct (IH s R Hs Hv Hok) as (c & s3 & cs3 & gs3 & Hd & HF3 & Hd3 & Hs3 & Hc);
      [refs_room|lia|]. rewrite Hd. cbn [obind]. exists c, s3, (None :: cs3), (no_slot :: gs3).
    split; [done|]. split_and!; [by constructor| |done|lia|cbn; lia].
    constructor; [apply delivered_refl|done].
Qed.
(** ** History *)

(** The history holds [l], at most [cap] samples ([None] for a size of 0). *)
Definition hist_rep (cap : Z) (k : nat) (h : option (Queue.Queue Z)) (l : list Z) : Prop :=
  match h with
  | None => l = [] ∧ cap = 0
  | Some q => Queue.rep q l ∧ Queue.capacity q = cap ∧ 0 < cap ∧ Queue.start q ≤ Z.of_nat k
  end.

Lemma hist_length cap k h l : hist_rep cap k h l → Z.of_nat (length l) ≤ cap.
Proof.
  destruct h as [q|]; cbn; [|intros [-> ->]; done].
  intros (Hq & <- & _). destruct Hq. lia.
Qed.

Lemma hist_weaken cap k h l : hist_rep cap k h l → hist_rep cap (S k) h l.
Proof. destruct h as [q|]; cbn; [|done]. intros (? & ? & ? & ?). split_and!; try done. lia. Qed.

Lemma add_to_history_rep cap k h l s loans R v :
  hist_rep cap k h l → rep s loans (l ++ R) → v ∈ R → chunk_ok v → Forall chunk_ok l →
  Z.of_nat k + 2 < USIZE → room b k loans (S (length (l ++ R))) →
  ∃ s' h' l', add_to_history header data s h v = Return (s', h') ∧
    hist_rep cap (S k) h' l' ∧ rep s' loans (l' ++ R) ∧ Forall chunk_ok l' ∧
    (∃ old, if cap =? 0 then l' = [] else l ++ [v] = option_list old ++ l').
Proof.
  intros Hh Hs Hv Hok Hl Hk (_ & H32 & Hn). destruct h as [q|]; cbn [add_to_history hist_rep] in *.
  2: { destruct Hh as [-> ->]. exists s, None, []. split_and!; try done. by exists None. }
  destruct Hh as (Hq & Hcap & Hc0 & Hst).
  destruct (retain_rep header data n adj Hsize s loans _ v Hs) as (s1 & old & -> & Hrep1); [set_solver|lia|].
  cbn [obind].
  destruct (Queue.mq_push_with_overflow q l v Hq) as (r & q' & -> & Hst' & Hcap' & Hpush); [lia|].
  destruct Hpush as (l' & Hl' & Hq' & _); [lia|]. cbn [obind].
  destruct (release_overflow_rep s1 loans (l' ++ R) r) as (s2 & -> & Hrep2).
  - eapply samples_rep_perm; [|exact Hrep1].
    transitivity ((l ++ [v]) ++ R); [solve_Permutation|]. rewrite Hl'. solve_Permutation.
  - lia.
  - apply (f_equal length) in Hl'. rewrite !length_app in *. cbn in *. lia.
  - cbn [obind]. exists s2, (Some q'), l'. split; [done|]. split; [|split_and!].
    + split_and!; try done; lia.
    + done.
    + assert (Forall chunk_ok (option_list r ++ l')) as HF.
      { rewrite <- Hl'. apply Forall_app. split; [done|]. by constructor. }
      by apply Forall_app in HF as [_ HF].
    + exists r. by rewrite (proj2 (Z.eqb_neq _ _)) by lia.
Qed.
End Connections.

(** ** The publisher *)

Section Publisher.
Context `{P : Profile} (header data : Layout) (adj : Z) (b : Builder).
#[local] Notation msg := (Message header data).
Context (Hh : type_layout header) (Hd : type_layout data) (Hpos : 0 < l_size header).
Context (Hadj : 0 ≤ adj < l_align msg).

(** [N] subscribers, a history of [cap] and [maxl] loans. *)
Context (N : nat) (cap maxl : Z).

(** The size [required_amount_of_samples_per_data_segment] computes. *)
Definition samples_required : Z :=
  Z.of_nat N * (buffer_size b + b_max_borrowed_samples b) + cap + maxl + 1.

(** Sizes and numbers of calls that fit the integers they are stored in. *)
Record bounds (k : nat) : Prop := {
  bd_nonneg : 0 ≤ buffer_size b ∧ 0 ≤ b_max_borrowed_samples b ∧ 0 ≤ cap ∧ 0 ≤ maxl;
  bd_calls : 2 * Z.of_nat k + 8 < U32;
  bd_size : (Z.of_nat N + 1) * (buffer_size b + b_max_borrowed_samples b + 4) + cap + maxl < U32
}.

#[local] Notation rep s loans R := (samples_rep header data samples_required adj s loans R).

Record pub_inv (k : nat) (p : Publisher) (loaned hist : list Z) (gs : list slot) : Prop := {
  pi_number : length gs = N;
  pi_samples : ∃ loans, loans ≤ Z.of_nat k ∧ rep (samples p) loans (loaned ++ hist ++ all_refs gs);
  pi_conns : Forall2 (slot_rep header data adj b k) (subscriber_connections p) gs;
  pi_hist : hist_rep cap k (history p) hist;
  pi_config : max_loaned_samples (config p) = maxl ∧ no_wait b (unable_to_deliver_strategy (config p));
  pi_loans : loan_counter p = Z.of_nat (length loaned) ∧ loan_counter p ≤ maxl;
  pi_chunks : Forall (chunk_ok header data adj) (loaned ++ hist)
}.

Lemma bounds_max k : bounds k → maxl + 1 < USIZE ∧ cap < USIZE ∧ Z.of_nat N + 1 < USIZE.
Proof. intros [(? & ? & ? & ?) _ Hs]. unfold U32, USIZE in *. split_and!; nia. Qed.

Lemma required_amount_ok k max_publishers :
  bounds k → required_amount_of_samples_per_data_segment
    (mkStaticConfig (Z.of_nat N) max_publishers cap (buffer_size b) (b_max_borrowed_samples b)
       (b_enable_safe_overflow b)) maxl = Return samples_required.
Proof.
  intros [(? & ? & ? & ?) _ Hs]. unfold required_amount_of_samples_per_data_segment, samples_required. cbn.
  unfold U32, USIZE in *. assert (0 ≤ Z.of_nat N * (buffer_size b + b_max_borrowed_samples b)) by nia.
  rewrite uadd_ok by (unfold USIZE; nia). cbn [obind]. rewrite umul_ok by (unfold USIZE; nia). cbn [obind].
  rewrite uadd_ok by (unfold USIZE; nia). cbn [obind]. rewrite uadd_ok by (unfold USIZE; nia). cbn [obind].
  by rewrite uadd_ok by (unfold USIZE; nia).
Qed.

Lemma pub_msize : 0 < l_size msg ∧ adj < l_size msg.
Proof. destruct (message_layout header data Hh Hd Hpos) as (_ & H1 & _ & H2 & _). lia. Qed.

Lemma all_refs_length k cs gs :
  Forall2 (slot_rep header data adj b k) cs gs → 0 ≤ buffer_size b → 0 ≤ b_max_borrowed_samples b →
  Z.of_nat (length (all_refs gs)) ≤
    Z.of_nat (length gs) * (buffer_size b + b_max_borrowed_samples b + 1) ∧
  Z.of_nat (length (all_refs (emptied <$> gs))) ≤
    Z.of_nat (length gs) * (buffer_size b + b_max_borrowed_samples b).
Proof.
  intros HF H1 H2. induction HF as [|o g cs gs Ho HF [IH1 IH2]]; [done|].
  destruct (slot_size header data adj b k o g Ho H1 H2) as (Hx & Hb & Ht).
  rewrite fmap_cons, !all_refs_cons, !length_app, !length_cons.
  assert (length (slot_refs (emptied g)) = length (rx g) + length (bo g))%nat as ->.
  { unfold slot_refs, emptied. cbn. rewrite app_nil_r. by rewrite length_app. }
  nia.
Qed.

Lemma pub_room k p loaned hist gs :
  bounds k → pub_inv k p loaned hist gs →
  ∀ loans, loans ≤ Z.of_nat k →
  room b k loans (length (loaned ++ hist ++ all_refs gs) + N + 2) ∧
  Z.of_nat (length (loaned ++ hist ++ all_refs (emptied <$> gs))) < samples_required + (Z.of_nat (length loaned) - maxl) ∧
  samples_required < U32 ∧ 0 ≤ samples_required.
Proof.
  intros [(? & ? & ? & ?) Hk Hs] [HN _ HF Hhi _ [Hl Hm] _] loans Hlo.
  destruct (all_refs_length k _ _ HF) as [Hr1 Hr2]; [lia..|]. rewrite HN in *.
  pose proof (hist_length _ _ _ _ Hhi). unfold room, samples_required, U32, USIZE in *.
  rewrite !length_app. split_and!; nia.
Qed.

Lemma pub_inv_weaken k p loaned hist gs :
  pub_inv k p loaned hist gs → pub_inv (S k) p loaned hist gs.
Proof.
  intros [? (loans & ? & ?) HF ? ? ? ?]. constructor; try done.
  - exists loans. split; [lia|done].
  - eapply Forall2_impl; [exact HF|]. intros o g. apply slot_rep_weaken.
  - by apply hist_weaken.
Qed.

(** *** Loaning *)

(** The publisher collects what was returned; only the samples, the connections
    and the retrieve channels change. *)
Lemma pub_retrieve k p loaned hist gs :
  bounds k → pub_inv k p loaned hist gs →
  ∃ s' cs', retrieve_returned_samples header data (samples p) (subscriber_connections p) = Return (s', cs') ∧
    pub_inv k (set_connections (set_samples p s') cs') loaned hist (emptied <$> gs).
Proof.
  intros Hb Hp. pose proof Hp as [HN (loans & Hlo & Hs) HF Hhi Hmx [Hl Hm] Hch].
  destruct (pub_room k p loaned hist gs Hb Hp loans Hlo) as (Hrm & _).
  destruct (retrieve_rep header data samples_required adj b (proj1 pub_msize) k loans
    (subscriber_connections p) gs (samples p) (loaned ++ hist) HF) as (s' & cs' & Hr & HF' & Hs').
  - eapply samples_rep_perm; [|exact Hs]. solve_Permutation.
  - refs_room.
  - exists s', cs'. split; [done|]. constructor; cbn; try done.
    + by rewrite length_fmap.
    + exists loans. split; [done|]. eapply samples_rep_perm; [|exact Hs']. solve_Permutation.
Qed.

Lemma loan_inv k p loaned hist gs :
  bounds k → pub_inv k p loaned hist gs →
  ∃ r p', loan header data p = Return (r, p') ∧
    match r with
    | Ok chunk =>
        Z.of_nat (length loaned) < maxl ∧
        refs header data (loaned ++ hist ++ all_refs (emptied <$> gs)) (offset chunk / l_size msg) = 0 ∧
        pub_inv (S k) p' (offset chunk :: loaned) hist (emptied <$> gs)
    | Err e =>
        e = ExceedsMaxLoanedChunks ∧ Z.of_nat (length loaned) = maxl ∧
        pub_inv k p' loaned hist (emptied <$> gs)
    end.
Proof.
  intros Hb Hp. destruct (pub_retrieve k p loaned hist gs Hb Hp) as (s' & cs' & Hr & Hp').
  unfold loan. rewrite Hr. cbn [obind]. pose proof Hp' as [HN (loans & Hlo & Hs) HF Hhi Hmx [Hl Hm] Hch].
  destruct (pub_room _ _ _ _ _ Hb Hp' loans Hlo) as ((_ & H32 & _) & _ & Hn & _).
  destruct (pub_room _ _ _ _ _ Hb Hp loans Hlo) as (_ & Hlt & _).
  rewrite (proj1 Hmx). destruct (Z.leb_spec maxl (loan_counter (set_connections (set_samples p s') cs'))) as [Hle|Hgt].
  { do 2 eexists. split; [done|]. split_and!; [done|lia|done]. }
  destruct (allocate_rep header data samples_required adj (proj1 pub_msize) s' loans _ Hs)
    as (chunk & m' & s2 & Hal & Hret & Hz & Hmod & Hok & Hs2);
    [lia|lia|unfold U32, USIZE in *; lia|apply pub_msize|].
  cbn [samples set_connections set_samples data_segment sample_reference_counter].
  rewrite Hal. cbn [obind]. rewrite Hret. cbn [obind Z.eqb negb].
  do 2 eexists. split; [done|]. split_and!; [lia|done|].
  cbn in Hl, Hm, Hgt. constructor; cbn; try done.
  - exists (loans + 1). split; [lia|]. done.
  - eapply Forall2_impl; [exact HF|]. intros o g. apply slot_rep_weaken.
  - by apply hist_weaken.
  - pose proof (bounds_max k Hb). unfold wrap. rewrite Z.mod_small by lia. lia.
  - by constructor.
Qed.
(** *** Dropping and sending a loaned sample *)

Lemma drop_inv k p l1 v l2 hist gs :
  bounds k → pub_inv k p (l1 ++ v :: l2) hist gs →
  ∃ p', sample_mut_drop header data p v = Return p' ∧ pub_inv k p' (l1 ++ l2) hist gs.
Proof.
  intros Hb Hp. pose proof Hp as [HN (loans & Hlo & Hs) HF Hhi Hmx [Hl Hm] Hch].
  destruct (pub_room _ _ _ _ _ Hb Hp loans Hlo) as ((_ & H32 & Hn) & _).
  destruct (release_with_rep header data samples_required adj (proj1 pub_msize) data (samples p) loans
    ((l1 ++ l2) ++ hist ++ all_refs gs) v) as (s' & Hr & Hs').
  - eapply samples_rep_perm; [|exact Hs]. solve_Permutation.
  - lia.
  - rewrite !length_app, length_cons in *. lia.
  - unfold sample_mut_drop, Publisher.release_sample. rewrite Hr. cbn [obind]. eexists. split; [done|].
    pose proof (bounds_max k Hb). rewrite length_app, length_cons in Hl.
    constructor; cbn; try done.
    + eauto.
    + rewrite length_app. unfold wrap. rewrite Z.mod_small by lia. lia.
    + rewrite <- app_assoc in Hch |- *. apply Forall_app in Hch as [H1 H2].
      apply Forall_app. split; [done|]. cbn in H2. by apply Forall_cons in H2 as [_ H2].
Qed.

Context (subs : Container Z) (rounds : nat) (rcv : SharedManagementData → SharedManagementData).
Context (connect : Z → outcome (result SharedManagementData ZeroCopyCreationError)).

(** No subscriber joined or left since the last update. *)
Definition quiet (p : Publisher) : Prop :=
  head (index_set subs) = current_index_set_head (subscriber_list_state p).

Lemma update_quiet p :
  quiet p → Publisher.update_connections header data connect subs p = Return (Ok tt, p).
Proof.
  intros Hq. unfold Publisher.update_connections, update_state. rewrite Hq, Z.eqb_refl. cbn [obind].
  by destruct p.
Qed.

Lemma send_impl_inv k p l1 v l2 hist gs :
  bounds k → pub_inv k p (l1 ++ v :: l2) hist gs → quiet p →
  ∃ c p' hist' gs', send_impl header data rounds rcv connect subs p v = Return (Ok c, p') ∧
    pub_inv (S k) p' (l1 ++ v :: l2) hist' gs' ∧ Forall2 (delivered v) gs gs' ∧
    0 ≤ c ≤ Z.of_nat N ∧ (∃ old, if cap =? 0 then hist' = [] else hist ++ [v] = option_list old ++ hist').
Proof.
  intros Hb Hp Hq. pose proof Hp as [HN (loans & Hlo & Hs) HF Hhi Hmx [Hl Hm] Hch].
  destruct (pub_room _ _ _ _ _ Hb Hp loans Hlo) as (Hrm & _). pose proof (bounds_max k Hb) as (_ & _ & HN').
  pose proof (proj2 Hmx) as Hnw.
  apply Forall_app in Hch as [Hcl Hchi].
  assert (chunk_ok header data adj v) as Hv by (by apply Forall_app in Hcl as [_ [? _]%Forall_cons]).
  unfold send_impl. rewrite update_quiet by done. cbn [obind].
  destruct (add_to_history_rep header data samples_required adj b (proj1 pub_msize) cap k (history p) hist
    (samples p) loans ((l1 ++ v :: l2) ++ all_refs gs) v) as (s1 & h1 & hist1 & -> & Hh1 & Hs1 & Hc1 & Hold);
    try done.
  - eapply samples_rep_perm; [|exact Hs]. solve_Permutation.
  - set_solver.
  - destruct Hb. unfold U32, USIZE in *. lia.
  - refs_room.
  - cbn [obind]. pose proof (hist_length _ _ _ _ Hh1). pose proof (hist_length _ _ _ _ Hhi).
    destruct (deliver_rep header data samples_required adj b (proj1 pub_msize) rounds rcv
      (unable_to_deliver_strategy (config p)) k loans v (subscriber_connections p) gs s1
      (hist1 ++ l1 ++ v :: l2)) as (c & s2 & cs2 & gs2 & Hdel & HF2 & Hd2 & Hs2 & Hc); try done.
    + eapply samples_rep_perm; [|exact Hs1]. solve_Permutation.
    + set_solver.
    + destruct Hold as [old Hold]. assert (length hist1 ≤ S (length hist))%nat.
      { destruct (cap =? 0); [rewrite Hold; cbn; lia|]. apply (f_equal length) in Hold.
        rewrite !length_app in Hold. cbn in Hold. lia. }
      refs_room.
    + rewrite HN. lia.
    + cbn [config set_history subscriber_connections]. rewrite Hdel. cbn [obind]. exists c. do 3 eexists. split; [done|]. split; [|split_and!; [exact Hd2|lia|lia|exact Hold]].
      constructor; cbn; try done.
      * by rewrite <- (Forall2_length _ _ _ Hd2).
      * exists loans. split; [lia|]. eapply samples_rep_perm; [|exact Hs2]. solve_Permutation.
      * by apply Forall_app.
Qed.

Lemma bounds_le k j : (j ≤ k)%nat → bounds k → bounds j.
Proof. intros Hj []. constructor; try done. lia. Qed.

Lemma send_inv k p l1 v l2 hist gs :
  bounds (S k) → pub_inv k p (l1 ++ v :: l2) hist gs → quiet p →
  ∃ c p' hist' gs', send header data rounds rcv connect subs p v = Return (Ok c, p') ∧
    pub_inv (S k) p' (l1 ++ l2) hist' gs' ∧ Forall2 (delivered v) gs gs' ∧
    0 ≤ c ≤ Z.of_nat N ∧ (∃ old, if cap =? 0 then hist' = [] else hist ++ [v] = option_list old ++ hist').
Proof.
  intros Hb Hp Hq.
  destruct (send_impl_inv k p l1 v l2 hist gs (bounds_le _ k (Nat.le_succ_diag_r k) Hb) Hp Hq)
    as (c & p1 & h1 & gs1 & Hs1 & Hp1 & Hd1 & Hc & Hold).
  destruct (drop_inv (S k) p1 l1 v l2 h1 gs1 Hb Hp1) as (p2 & Hs2 & Hp2).
  unfold send. rewrite Hs1. cbn [obind]. rewrite Hs2. cbn [obind]. by exists c, p2, h1, gs1.
Qed.
End Publisher.

(** ** The system *)

(** The receiving end of a connection: the counter of the receiver, where the
    data segment is mapped in its process, and the samples it holds. *)
Record peer := mkPeer { p_counter : Z; p_start : Z; p_samples : list Sample }.

(** [loaned] lists the offsets of the samples the user of the publisher holds;
    the peer [i] is the other end of the connection [i]. *)
Record sys := mkSys { pub : Publisher; loaned : list Z; peers : list peer }.

(** The offsets of the samples a peer holds. *)
Definition peer_offsets (e : peer) : list Z := (λ x, ptr x - p_start e) <$> p_samples e.
Definition held (s : sys) : list Z := mjoin (peer_offsets <$> peers s).

Definition set_connection (p : Publisher) (i : nat) (m : SharedManagementData) : Publisher :=
  set_connections p (<[i := Some m]> (subscriber_connections p)).

Section System.
Context `{P : Profile} (header data : Layout) (subs : Container Z).
Context (rounds : nat) (rcv : SharedManagementData → SharedManagementData).
Context (connect : Z → outcome (result SharedManagementData ZeroCopyCreationError)).

(** Calls of the user of the publisher and of the subscribers, in any order.
    Samples are sent while no subscriber joins or leaves. *)
Inductive sys_step : sys → sys → Prop :=
| sys_loan p l es r p' :
    loan header data p = Return (r, p') →
    sys_step (mkSys p l es)
      (mkSys p' (match r with Ok chunk => offset chunk :: l | Err _ => l end) es)
| sys_send p l1 v l2 es r p' :
    quiet subs p → send header data rounds rcv connect subs p v = Return (r, p') →
    sys_step (mkSys p (l1 ++ v :: l2) es) (mkSys p' (l1 ++ l2) es)
| sys_drop p l1 v l2 es p' :
    sample_mut_drop header data p v = Return p' →
    sys_step (mkSys p (l1 ++ v :: l2) es) (mkSys p' (l1 ++ l2) es)
| sys_receive p l es i m e r c :
    subscriber_connections p !! i = Some (Some m) → es !! i = Some e →
    receive_from_connection (Z.of_nat i) (mkConnection m (p_counter e) (p_start e)) = Return (r, c) →
    sys_step (mkSys p l es)
      (mkSys (set_connection p i (receiver c)) l
         (<[i := mkPeer (r_borrow_counter c) (p_start e)
                   (match r with Ok (Some x) => x :: p_samples e | _ => p_samples e end)]> es))
| sys_release p l es i m e x1 x x2 c :
    subscriber_connections p !! i = Some (Some m) → es !! i = Some e → p_samples e = x1 ++ x :: x2 →
    release_to_connection (mkConnection m (p_counter e) (p_start e)) (sample_as_ptr header data x) =
      Return c →
    sys_step (mkSys p l es)
      (mkSys (set_connection p i (receiver c)) l
         (<[i := mkPeer (r_borrow_counter c) (p_start e) (x1 ++ x2)]> es)).

Inductive sys_run : sys → nat → sys → Prop :=
| sys_refl s : sys_run s 0 s
| sys_next s k s' s'' : sys_run s k s' → sys_step s' s'' → sys_run s (S k) s''.

Context (b : Builder) (N : nat) (cap maxl adj : Z).
#[local] Notation msg := (Message header data).
#[local] Notation n := (samples_required b N cap maxl).
Context (Hh : type_layout header) (Hd : type_layout data) (Hpos : 0 < l_size header).
Context (Hdata : 0 < l_size data) (Hadj : 0 ≤ adj < l_align msg).

(** A peer agrees with the contents of its connection; its mapping of the data
    segment lies inside of the address space. *)
Definition peer_rep (e : peer) (g : slot) : Prop :=
  p_counter e = Z.of_nat (length (bo g)) ∧ bo g = peer_offsets e ∧
  0 ≤ p_start e ∧ p_start e + n * l_size msg < USIZE.

Record sys_inv (k : nat) (s : sys) (hist : list Z) (gs : list slot) : Prop := {
  si_pub : pub_inv header data adj b N cap maxl k (pub s) (loaned s) hist gs;
  si_peers : Forall2 peer_rep (peers s) gs
}.

(** Exchanging the contents of one slot. *)
Lemma all_refs_at gs i g g' :
  gs !! i = Some g → all_refs (<[i := g']> gs) ≡ₚ slot_refs g' ++ all_refs (<[i := no_slot]> gs).
Proof.
  revert i. induction gs as [|g0 gs IH]; intros [|i] Hi; try done.
  change (all_refs (g0 :: <[i := g']> gs) ≡ₚ slot_refs g' ++ all_refs (g0 :: <[i := no_slot]> gs)).
  rewrite !all_refs_cons, (IH i Hi). solve_Permutation.
Qed.

Lemma all_refs_split gs i g :
  gs !! i = Some g → all_refs gs ≡ₚ slot_refs g ++ all_refs (<[i := no_slot]> gs).
Proof. intros Hi. by rewrite <- (all_refs_at gs i g g Hi), list_insert_id. Qed.

Lemma slot_refs_in gs i g v : gs !! i = Some g → v ∈ slot_refs g → v ∈ all_refs gs.
Proof.
  intros Hi Hv. apply list_elem_of_join. exists (slot_refs g). split; [done|].
  apply list_elem_of_fmap_2. by eapply list_elem_of_lookup_2.
Qed.

(** The publisher's invariant after a peer has worked on connection [i]. *)
Lemma pub_inv_peer k p l hist gs i g m' g' loans :
  pub_inv header data adj b N cap maxl k p l hist gs → gs !! i = Some g → loans ≤ Z.of_nat k →
  slot_rep header data adj b (S k) (Some m') g' →
  samples_rep header data n adj (samples p) loans (l ++ hist ++ all_refs (<[i := g']> gs)) →
  pub_inv header data adj b N cap maxl (S k) (set_connection p i m') l hist (<[i := g']> gs).
Proof.
  intros Hp Hi Hlo Hg Hs. apply pub_inv_weaken in Hp as [HN _ HF Hhi Hmx Hl Hch].
  constructor; cbn; try done.
  - by rewrite length_insert.
  - exists loans. split; [lia|done].
  - by apply Forall2_insert.
Qed.

Lemma offset_bound v : offset_ok header data n adj v → 0 ≤ v < n * l_size msg.
Proof.
  intros (Hv & Hq & _). pose proof (pub_msize header data adj Hh Hd Hpos Hadj) as [Hs _].
  pose proof (Z.mul_succ_div_gt v (l_size msg) Hs). nia.
Qed.

Lemma sys_inv_unchanged k p l es hist gs i m e :
  sys_inv k (mkSys p l es) hist gs →
  subscriber_connections p !! i = Some (Some m) → es !! i = Some e →
  sys_inv (S k) (mkSys (set_connection p i m) l
    (<[i := mkPeer (p_counter e) (p_start e) (p_samples e)]> es)) hist gs.
Proof.
  intros [Hp HE] Hm He. unfold set_connection. rewrite (list_insert_id es i) by (rewrite He; by destruct e).
  rewrite (list_insert_id _ i (Some m)) by done.
  constructor; try done. apply pub_inv_weaken. by destruct p.
Qed.

Lemma receive_step_inv k p l es hist gs i m e :
  bounds b N cap maxl k → sys_inv k (mkSys p l es) hist gs →
  subscriber_connections p !! i = Some (Some m) → es !! i = Some e →
  ∃ r c g g', receive_from_connection (Z.of_nat i) (mkConnection m (p_counter e) (p_start e)) = Return (r, c) ∧
    gs !! i = Some g ∧ (r = Ok None → rx g = []) ∧
    sys_inv (S k) (mkSys (set_connection p i (receiver c)) l
         (<[i := mkPeer (r_borrow_counter c) (p_start e)
                   (match r with Ok (Some x) => x :: p_samples e | _ => p_samples e end)]> es)) hist (<[i := g']> gs).
Proof using Hh Hd Hpos Hadj.
  intros Hb Hsys Hm He. pose proof (sys_inv_unchanged _ _ _ _ _ _ _ _ _ Hsys Hm He) as Hsame.
  destruct Hsys as [Hp HE]. cbn [pub loaned peers] in *.
  pose proof Hp as [HN (loans & Hlo & Hs) HF Hhi Hmx Hl Hch].
  destruct (Forall2_lookup_l _ _ _ _ _ HF Hm) as (g & Hg & (se & re & Hc) & Hfl & Hcg).
  destruct (Forall2_lookup_lr _ _ _ _ _ _ HE He Hg) as (Hcnt & Hbo & Hst & Hend).
  destruct (pub_room header data adj b N cap maxl _ _ _ _ _ Hb Hp loans Hlo) as ((Hk & _) & _).
  destruct (receive_inv _ _ _ _ _ _ _ _ _ Hc Hk) as (r & m' & bc' & Hr & Hres).
  pose proof (receive_overflow_flag _ _ _ _ _ Hr) as Hfl'.
  unfold receive_from_connection. cbn [receiver r_borrow_counter data_start]. rewrite Hcnt, Hr. cbn [obind].
  destruct r as [[v|]|[]].
  - destruct Hres as (rx' & Hrx & Hc'). pose proof (ci_counter _ _ _ _ _ Hc') as Hbc. cbn in Hbc.
    assert (0 ≤ v < n * l_size msg) as Hv.
    { apply offset_bound. eapply Forall_forall; [apply (sr_offsets _ _ _ _ _ _ _ Hs)|].
      rewrite !elem_of_app. do 2 right. eapply slot_refs_in; [done|]. unfold slot_refs. rewrite Hrx. left. }
    rewrite uadd_ok by lia. cbn [obind].
    do 2 eexists. exists g, (mkSlot rx' (v :: bo g) (rt g)). split; [done|]. split; [done|]. split; [done|].
    cbn [receiver r_borrow_counter]. constructor; cbn [pub loaned peers].
    + eapply pub_inv_peer; try done.
      * split; [exists se, re; by rewrite Hbc in Hc'|]. cbn [rx bo rt]. split; [by rewrite Hfl'|].
        rewrite Hrx in Hcg. by rewrite <- Permutation_middle.
      * eapply samples_rep_perm; [|exact Hs].
        rewrite (all_refs_at _ _ _ _ Hg), (all_refs_split _ _ _ Hg).
        unfold slot_refs. cbn [rx bo rt]. rewrite Hrx. solve_Permutation.
    + apply Forall2_insert; [done|]. split_and!; try done; cbn.
      unfold peer_offsets. cbn. f_equal; [lia|]. done.
  - destruct Hres as (-> & -> & Hrx). do 2 eexists. exists g, g. split; [done|]. split; [done|]. split; [done|].
    rewrite (list_insert_id gs) by done. cbn. by rewrite <- Hcnt.
  - destruct Hres as (-> & -> & _). do 2 eexists. exists g, g. split; [done|]. split; [done|]. split; [done|].
    rewrite (list_insert_id gs) by done. cbn. by rewrite <- Hcnt.
Qed.
(** The data of a message lies in the same sample as the message. *)
Lemma data_alias w :
  chunk_ok header data adj w → offset_ok header data n adj w →
  offset_ok header data n adj (w + data_offset header data) ∧
  w / l_size msg = (w + data_offset header data) / l_size msg.
Proof.
  intros Hw (H0 & Hq & _). unfold chunk_ok in Hw.
  pose proof (data_inside header data Hh Hd Hpos adj Hdata (proj2 Hadj)) as Hin.
  destruct (message_layout header data Hh Hd Hpos) as (_ & Hs & _ & _ & Hoff).
  pose proof (Z.div_mod w (l_size msg)) as Hdm. set (q := w / l_size msg) in *.
  assert (w + data_offset header data = l_size msg * q + (adj + data_offset header data)) as Hsum by lia.
  assert ((w + data_offset header data) / l_size msg = q) as Hdiv.
  { symmetry. apply (Z.div_unique _ _ _ (adj + data_offset header data)); lia. }
  assert ((w + data_offset header data) mod l_size msg = adj + data_offset header data) as Hmod.
  { symmetry. apply (Z.mod_unique _ _ q); lia. }
  split; [|done]. split; [lia|]. rewrite Hdiv, Hmod. lia.
Qed.

(** Moving a sample from the borrowed ones to the retrieve channel, where it is
    the address of its data. *)
Lemma release_refs s loans l hist gs i g b1 w b2 :
  samples_rep header data n adj s loans (l ++ hist ++ all_refs gs) → gs !! i = Some g →
  bo g = b1 ++ w :: b2 → chunk_ok header data adj w →
  0 ≤ w + data_offset header data < n * l_size msg ∧
  samples_rep header data n adj s loans (l ++ hist ++
    all_refs (<[i := mkSlot (rx g) (b1 ++ b2) (rt g ++ [w + data_offset header data])]> gs)).
Proof.
  intros Hs Hg Hbg Hwc.
  assert (samples_rep header data n adj s loans
    (w :: (rx g ++ b1 ++ b2 ++ rt g) ++ l ++ hist ++ all_refs (<[i := no_slot]> gs))) as Hs1.
  { eapply samples_rep_perm; [|exact Hs]. rewrite (all_refs_split _ _ _ Hg). unfold slot_refs.
    rewrite Hbg. solve_Permutation. }
  assert (offset_ok header data n adj w) as Hwok
    by (by apply (sr_offsets _ _ _ _ _ _ _) in Hs1 as [? _]%Forall_cons).
  destruct (data_alias w Hwc Hwok) as [Hwok' Hdiv]. split; [by apply offset_bound|].
  pose proof (samples_rep_alias _ _ _ _ _ _ _ _ _ Hs1 Hdiv Hwok') as Hs2.
  eapply samples_rep_perm; [|exact Hs2].
  rewrite (all_refs_at _ _ _ (mkSlot (rx g) (b1 ++ b2) (rt g ++ [w + data_offset header data])) Hg).
  unfold slot_refs.
  cbn [rx bo rt]. solve_Permutation.
Qed.

Lemma release_step_inv k p l es hist gs i m e x1 x x2 :
  bounds b N cap maxl k → sys_inv k (mkSys p l es) hist gs →
  subscriber_connections p !! i = Some (Some m) → es !! i = Some e → p_samples e = x1 ++ x :: x2 →
  ∃ c g', release_to_connection (mkConnection m (p_counter e) (p_start e)) (sample_as_ptr header data x) =
      Return c ∧
    sys_inv (S k) (mkSys (set_connection p i (receiver c)) l
         (<[i := mkPeer (r_borrow_counter c) (p_start e) (x1 ++ x2)]> es)) hist (<[i := g']> gs).
Proof using Hh Hd Hpos Hdata Hadj.
  intros Hb [Hp HE] Hm He Hx. cbn [pub loaned peers] in *.
  pose proof Hp as [HN (loans & Hlo & Hs) HF Hhi Hmx Hl Hch].
  destruct (Forall2_lookup_l _ _ _ _ _ HF Hm) as (g & Hg & (se & re & Hc) & Hfl & Hcg).
  destruct (Forall2_lookup_lr _ _ _ _ _ _ HE He Hg) as (Hcnt & Hbo & Hst & Hend).
  destruct (pub_room header data adj b N cap maxl _ _ _ _ _ Hb Hp loans Hlo) as ((Hk & _) & _).
  set (off := λ y, ptr y - p_start e). set (w := ptr x - p_start e).
  assert (bo g = (off <$> x1) ++ w :: (off <$> x2)) as Hbg.
  { rewrite Hbo. unfold peer_offsets. by rewrite Hx, fmap_app, fmap_cons. }
  assert (chunk_ok header data adj w) as Hwc
    by (rewrite Hbg in Hcg; by apply Forall_app in Hcg as [_ [_ [? _]%Forall_cons]%Forall_app]).
  destruct (release_refs _ _ _ _ _ _ _ _ _ _ Hs Hg Hbg Hwc) as [Hw' Hs2].
  set (w' := w + data_offset header data) in *.
  apply (conn_inv_borrowed _ _ _ _ _ ((off <$> x1) ++ w' :: (off <$> x2))) in Hc;
    [|by rewrite Hbg, !length_app].
  destruct (release_inv _ _ _ _ _ _ _ _ _ _ _ Hc Hk) as (m' & bc' & Hr & Hc').
  pose proof (release_overflow_flag _ _ _ _ _ _ Hr) as Hfl'. pose proof (ci_counter _ _ _ _ _ Hc') as Hbc. cbn in Hbc.
  unfold release_to_connection, sample_as_ptr. cbn [receiver r_borrow_counter data_start].
  rewrite usub_ok by (unfold w', w in *; lia). cbn [obind].
  replace (ptr x + data_offset header data - p_start e) with w' by (unfold w', w; lia).
  rewrite Hcnt, Hr. cbn [obind]. do 2 eexists. split; [done|].
  cbn [receiver r_borrow_counter]. constructor; cbn [pub loaned peers].
  - eapply pub_inv_peer; [exact Hp|exact Hg|exact Hlo| |exact Hs2].
    split; [do 2 eexists; cbn [bo rx rt]; rewrite <- Hbc; exact Hc'|]. cbn [rx bo rt].
    split; [by rewrite Hfl'|]. rewrite Hbg, !Forall_app, Forall_cons in Hcg. rewrite !Forall_app.
    destruct Hcg as (? & ? & _ & ?). done.
  - apply Forall2_insert; [done|]. split_and!; try done; cbn.
    unfold peer_offsets. cbn. by rewrite fmap_app.
Qed.
Lemma peers_same_borrowed es gs gs' :
  Forall2 (λ g g', bo g' = bo g) gs gs' → Forall2 peer_rep es gs → Forall2 peer_rep es gs'.
Proof.
  intros Hg HE. revert gs' Hg. induction HE as [|e g es gs He HE IH]; intros gs' Hg.
  - by apply Forall2_nil_inv_l in Hg as ->.
  - apply Forall2_cons_inv_l in Hg as (g' & gs'' & Hb & Hg & ->). constructor; [|by apply IH].
    unfold peer_rep in *. by rewrite Hb.
Qed.

Lemma sys_step_inv k s s' hist gs :
  bounds b N cap maxl (S k) → sys_inv k s hist gs → sys_step s s' →
  ∃ hist' gs', sys_inv (S k) s' hist' gs'.
Proof.
  intros Hb Hsys Hst. pose proof (bounds_le b N cap maxl _ k (Nat.le_succ_diag_r k) Hb) as Hbk.
  destruct Hst as [p l es r p' Hr|p l1 v l2 es r p' Hq Hr|p l1 v l2 es p' Hr|p l es i m e r c Hm He Hr
                  |p l es i m e x1 x x2 c Hm He Hx Hr].
  - destruct Hsys as [Hp HE]. destruct (loan_inv header data adj b Hh Hd Hpos Hadj N cap maxl k p l hist gs Hbk Hp)
      as (r' & p2 & Hr2 & Hres). rewrite Hr in Hr2. injection Hr2 as <- <-.
    exists hist, (emptied <$> gs). assert (Forall2 peer_rep es (emptied <$> gs)).
    { eapply peers_same_borrowed; [|exact HE]. apply Forall2_fmap_r, Forall_Forall2_diag, Forall_true. done. }
    destruct r as [chunk|e].
    + destruct Hres as (_ & _ & Hp'). by constructor.
    + destruct Hres as (_ & _ & Hp'). constructor; [|done]. by apply pub_inv_weaken.
  - destruct Hsys as [Hp HE]. destruct (send_inv header data adj b Hh Hd Hpos Hadj N cap maxl subs rounds rcv connect
      k p l1 v l2 hist gs Hb Hp Hq) as (c & p2 & h2 & gs2 & Hr2 & Hp2 & Hdl & _).
    rewrite Hr in Hr2. injection Hr2 as -> <-. exists h2, gs2. constructor; [done|].
    eapply peers_same_borrowed; [|exact HE]. eapply Forall2_impl; [exact Hdl|]. by intros g g' [? _].
  - destruct Hsys as [Hp HE]. destruct (drop_inv header data adj b Hh Hd Hpos Hadj N cap maxl k p l1 v l2 hist gs Hbk Hp)
      as (p2 & Hr2 & Hp2). rewrite Hr in Hr2. injection Hr2 as <-. exists hist, gs.
    constructor; [|done]. by apply pub_inv_weaken.
  - destruct (receive_step_inv k p l es hist gs i m e Hbk Hsys Hm He) as (r2 & c2 & g & g2 & Hr2 & _ & _ & Hs2).
    rewrite Hr in Hr2. injection Hr2 as <- <-. by exists hist, (<[i := g2]> gs).
  - destruct (release_step_inv k p l es hist gs i m e x1 x x2 Hbk Hsys Hm He Hx) as (c2 & g2 & Hr2 & Hs2).
    rewrite Hr in Hr2. injection Hr2 as <-. by exists hist, (<[i := g2]> gs).
Qed.

Lemma sys_run_inv s k s' :
  bounds b N cap maxl k → (∃ hist gs, sys_inv 0 s hist gs) → sys_run s k s' →
  ∃ hist gs, sys_inv k s' hist gs.
Proof.
  intros Hb H0 Hrun. induction Hrun as [|s k s' s'' Hrun IH Hst]; [done|].
  destruct IH as (hist & gs & Hs); [|done|].
  - eapply bounds_le; [|done]. lia.
  - by eapply sys_step_inv.
Qed.
End System.

(** ** From the start *)

(** The publisher [Publisher::new] sets up, with the connections [cs]. *)
Definition initial_publisher (m : Memory ShmPoolAllocator) (cfg : LocalPublisherConfig)
    (cs : Connections) (st : ContainerState Z) (number_of_samples history_size : Z) : Publisher :=
  mkPublisher (mkSamples (replicate (Z.to_nat number_of_samples) 0) m) cfg cs st
    (if history_size =? 0 then None else Some (Queue.new history_size)) None 0.

Definition fresh_connection `{Profile} (b : Builder) (o : option SharedManagementData) : Prop :=
  match o with
  | None => True
  | Some m => conn_inv b 0 (fresh m) [] [] ∧ enable_safe_overflow m = b_enable_safe_overflow b
  end.

(** A peer that holds nothing, with a mapping of [size] bytes. *)
Definition fresh_peer (size : Z) (e : peer) : Prop :=
  p_counter e = 0 ∧ p_samples e = [] ∧ 0 ≤ p_start e ∧ p_start e + size < USIZE.

Lemma Forall2_replicate_r' {A B} (Q : A → Prop) (R : A → B → Prop) l y k :
  length l = k → Forall Q l → (∀ x, Q x → R x y) → Forall2 R l (replicate k y).
Proof. intros <- HF HQ. induction HF; cbn; constructor; auto. Qed.

Section Main.
Context `{P : Profile} (header data : Layout) (subs : Container Z).
Context (rounds : nat) (rcv : SharedManagementData → SharedManagementData).
Context (connect : Z → outcome (result SharedManagementData ZeroCopyCreationError)).
Context (b : Builder) (N : nat) (cap : Z) (cfg : LocalPublisherConfig).
#[local] Notation msg := (Message header data).
#[local] Notation maxl := (max_loaned_samples cfg).
#[local] Notation n := (samples_required b N cap maxl).

Lemma samples_rep_init adj m :
  seg_used m msg n adj 0 [] → 0 ≤ n →
  samples_rep header data n adj (mkSamples (replicate (Z.to_nat n) 0) m) 0 [].
Proof.
  intros Hs Hn. constructor; cbn.
  - exists 0, []. split_and!; try done. intros i. split; [by intros ?%not_elem_of_nil|].
    unfold refs. cbn. lia.
  - rewrite length_replicate. lia.
  - intros i Hi. by rewrite lookup_replicate_2 by lia.
  - constructor.
Qed.

Lemma sys_init m cs st es :
  type_layout header → type_layout data → 0 < l_size header → bounds b N cap maxl 0 →
  no_wait b (unable_to_deliver_strategy cfg) → pool_segment m msg n 0 [] →
  length cs = N → Forall (fresh_connection b) cs →
  length es = N → Forall (fresh_peer (n * l_size msg)) es →
  ∃ adj hist gs, 0 ≤ adj < l_align msg ∧
    sys_inv header data b N cap maxl adj 0 (mkSys (initial_publisher m cfg cs st n cap) [] es) hist gs.
Proof.
  intros Hh Hd Hpos Hb Hw Hm Hcs HFc Hes HFe. destruct (seg_used_init _ _ _ _ Hm) as [adj Hu].
  pose proof Hb as [(? & ? & ? & ?) _ Hsz].
  exists adj, [], (replicate N no_slot). split; [by destruct Hu|].
  constructor; cbn [pub loaned peers initial_publisher].
  - constructor; cbn; try done.
    + by rewrite length_replicate.
    + exists 0. split; [done|]. assert (all_refs (replicate N no_slot) = []) as ->.
      { unfold all_refs. clear. induction N; [done|]. cbn. done. }
      apply samples_rep_init; [done|]. unfold samples_required. nia.
    + eapply Forall2_replicate_r'; [done|exact HFc|]. intros [mg|] Ho; [|done].
      destruct Ho as [Hc Ho]. split; [by exists [], []|]. done.
    + unfold hist_rep. destruct (Z.eqb_spec cap 0); [done|]. cbn. split_and!; try done; try lia.
      apply Queue.mq_new_rep. unfold U32, USIZE in *. nia.
  - eapply Forall2_replicate_r'; [done|exact HFe|]. intros e (Hc0 & Hs0 & Hst & Hend).
    split_and!; try done. unfold peer_offsets. by rewrite Hs0.
Qed.
(** What the peers hold is among the references of the channels. *)
Lemma held_in_slots es gs v :
  Forall2 (peer_rep header data b N cap maxl) es gs → v ∈ mjoin (peer_offsets <$> es) →
  v ∈ all_refs (emptied <$> gs).
Proof.
  intros HE. induction HE as [|e g es gs (_ & Hb & _) HE IH]; [done|].
  rewrite !fmap_cons, all_refs_cons. cbn. rewrite !elem_of_app, <- Hb. intros [Hv|Hv]; [|by right; apply IH].
  left. unfold slot_refs, emptied. cbn. set_solver.
Qed.

Context (m : Memory ShmPoolAllocator) (cs : Connections) (st : ContainerState Z) (es : list peer).
Context (k : nat) (s : sys).

(** A publisher and its subscribers, from the moment the publisher is created,
    after any sequence of calls between two changes of the list of subscribers.
    The data segment is as large as
    [required_amount_of_samples_per_data_segment] says.
    Loaning succeeds exactly when fewer than the maximum of samples are on loan
    (it never runs out of memory), and gives a sample that neither another loan
    nor any subscriber holds. Every loaned sample can be sent or dropped, every
    subscriber can receive and release what it holds: no call panics. *)
Theorem publisher_never_runs_out :
  type_layout header → type_layout data → 0 < l_size header → 0 < l_size data →
  bounds b N cap maxl (S k) → no_wait b (unable_to_deliver_strategy cfg) →
  pool_segment m msg n 0 [] → length cs = N → Forall (fresh_connection b) cs →
  length es = N → Forall (fresh_peer (n * l_size msg)) es →
  sys_run header data subs rounds rcv connect
    (mkSys (initial_publisher m cfg cs st n cap) [] es) k s →
  (∀ max_publishers, required_amount_of_samples_per_data_segment
     (mkStaticConfig (Z.of_nat N) max_publishers cap (buffer_size b) (b_max_borrowed_samples b)
        (b_enable_safe_overflow b)) maxl = Return n) ∧
  (∃ r p', loan header data (pub s) = Return (r, p') ∧
     match r with
     | Ok chunk => Z.of_nat (length (loaned s)) < maxl ∧
         (∀ v, v ∈ loaned s ++ held s → v / l_size msg ≠ offset chunk / l_size msg)
     | Err e => e = ExceedsMaxLoanedChunks ∧ Z.of_nat (length (loaned s)) = maxl
     end) ∧
  (∀ v, v ∈ loaned s → safe (sample_mut_drop header data (pub s) v) ∧
     (quiet subs (pub s) → ∃ c p', send header data rounds rcv connect subs (pub s) v = Return (Ok c, p'))) ∧
  (∀ i mg e, subscriber_connections (pub s) !! i = Some (Some mg) → peers s !! i = Some e →
     safe (receive_from_connection (Z.of_nat i) (mkConnection mg (p_counter e) (p_start e))) ∧
     (∀ x, x ∈ p_samples e →
        safe (release_to_connection (mkConnection mg (p_counter e) (p_start e)) (sample_as_ptr header data x)))).
Proof.
  intros Hh Hd Hpos Hdata Hb Hw Hm Hcs HFc Hes HFe Hrun.
  pose proof (bounds_le b N cap maxl _ k (Nat.le_succ_diag_r k) Hb) as Hbk.
  destruct (sys_init m cs st es) as (adj & hist0 & gs0 & Hadj & H0); try done.
  { eapply bounds_le; [|done]. lia. }
  destruct (sys_run_inv header data subs rounds rcv connect b N cap maxl adj Hh Hd Hpos Hdata Hadj _ k s Hbk
    ltac:(eauto) Hrun) as (hist & gs & Hsys). destruct s as [p l es']. cbn [pub loaned peers held].
  pose proof Hsys as [Hp HE]. cbn [pub loaned peers] in *. split_and!.
  - intros mp. by apply (required_amount_ok b N cap maxl k).
  - destruct (loan_inv header data adj b Hh Hd Hpos Hadj N cap maxl k p l hist gs Hbk Hp) as (r & p' & Hr & Hres).
    exists r, p'. split; [done|]. destruct r as [chunk|e]; [|by destruct Hres as (? & ? & _)].
    destruct Hres as (Hlt & Hz & _). split; [done|]. intros v Hv Heq.
    assert (0 < refs header data (l ++ hist ++ all_refs (emptied <$> gs)) (offset chunk / l_size msg)); [|lia].
    apply refs_pos. exists v. split; [|done]. rewrite !elem_of_app. apply elem_of_app in Hv as [Hv|Hv]; [by left|].
    do 2 right. by eapply held_in_slots.
  - intros v (l1 & l2 & ->)%list_elem_of_split. split.
    + destruct (drop_inv header data adj b Hh Hd Hpos Hadj N cap maxl k p l1 v l2 hist gs Hbk Hp) as (p' & Hr & _).
      by exists p'.
    + intros Hq. destruct (send_inv header data adj b Hh Hd Hpos Hadj N cap maxl subs rounds rcv connect
        k p l1 v l2 hist gs Hb Hp Hq) as (c & p' & _ & _ & Hr & _). by exists c, p'.
  - intros i mg e Hmg He. split.
    + destruct (receive_step_inv header data b N cap maxl adj Hh Hd Hpos Hadj k p l es' hist gs i mg e Hbk Hsys Hmg He)
        as (r & c & _ & _ & Hr & _). by eexists.
    + intros x (x1 & x2 & Hx)%list_elem_of_split.
      destruct (release_step_inv header data b N cap maxl adj Hh Hd Hpos Hdata Hadj k p l es' hist gs i mg e x1 x x2
        Hbk Hsys Hmg He Hx) as (c & _ & Hr & _). by exists c.
Qed.
End Main.

Section Witnesses.
#[local] Instance pubsub_checked : Profile := true.

Definition w_header : Layout := mkLayout 32 8.
Definition w_data : Layout := mkLayout 8 8.
Definition w_builder : Builder := mkBuilder 2 true 1.
Definition w_config : LocalPublisherConfig := mkLocalPublisherConfig 2 DiscardSample.
Definition w_state : ContainerState Z := mkContainerState 0 [None] [false].
Definition w_connect (_ : Z) : outcome (result SharedManagementData ZeroCopyCreationError) :=
  Return (Err CreationInternalError).

(** One subscriber, two loans, a history of one: the first loan succeeds. *)
Lemma publisher_never_runs_out_witness :
  ∃ m mg chunk p', loan w_header w_data (initial_publisher m w_config [Some mg] w_state 7 1) =
    Return (Ok chunk, p').
Proof.
  destruct (create_pool_ok (mkLayout 128 8) 4096 (Message w_header w_data) 7 65536
    (mkCreateOs (λ _, Ok 65536) true)) as (m & _ & _ & _ & Hm & _); try done.
  { split; [done|]. by exists 3. } { split; [done|]. by exists 3. }
  destruct (setup_ok 256 w_builder 65536) as (mg & _ & Hmg & _ & Ho & _); try done.
  destruct (publisher_never_runs_out w_header w_data (c_new_uninit 1) 0 (λ m, m) w_connect w_builder 1 1
    w_config m [Some mg] w_state [mkPeer 0 4096 []] 0
    (mkSys (initial_publisher m w_config [Some mg] w_state 7 1) [] [mkPeer 0 4096 []]))
    as (_ & (r & p' & Hr & Hres) & _); try done.
  - split; [split; [done|]; by exists 3|done].
  - split; [split; [done|]; by exists 3|done].
  - by left.
  - by constructor.
  - constructor; [|constructor]. done.
  - constructor.
  - destruct r as [chunk|e]; [by exists m, mg, chunk, p'|]. destruct Hres as [_ Hl]. discriminate Hl.
Defined.
End Witnesses.
