(* ===== verification/PubSubScenarios.v ===== *)
(** * Runs of a publisher in which samples or subscribers get lost

    Concrete executions of the definitions of [Publisher] that
    leave the conditions of the accounting of [PubSub]: subscribers that leave,
    an index that is used again, a history longer than the buffer of a
    subscriber, and messages without data. *)

From S2P Require Import Prelude Elementary UniqueIndexSet BumpAllocator PoolAllocator ShmAllocator SharedMemory ZeroCopyConnection Container BbContainers Publisher.

Section Scenarios.
#[local] Instance scenario_checked : Profile := true.

Definition header : Layout := mkLayout 32 8.
Definition message_type : Layout := mkLayout 8 8.

Definition os : CreateOs := mkCreateOs (λ _, Ok 65536) true.
Definition segment (size : Z) : outcome (result (Memory ShmPoolAllocator) SharedMemoryCreateError) :=
  SharedMemory.create (mkLayout 128 8) 4096 size (mkShmPoolConfig (Message header message_type)) os.

Definition builder : ZeroCopyConnection.Builder := ZeroCopyConnection.mkBuilder 1 true 1.

(** Every subscriber gets a connection of its own. *)
Definition connect (id : Z) : outcome (result SharedManagementData ZeroCopyCreationError) :=
  let! m := setup_new_connection 256 builder 131072 in Return (Ok m).

Definition local_config : LocalPublisherConfig := mkLocalPublisherConfig 1 DiscardSample.

(** A publisher of a service with one subscriber at most and the given history. *)
Definition new_publisher (history : Z) : outcome (result Publisher PublisherCreateError * Container Z) :=
  publisher_new header message_type connect segment 1 (mkStaticConfig 1 1 history 1 1 true) local_config
    (fixed_size_container 1) (fixed_size_container 1).

Definition unwrap {A E} (r : result A E) : outcome A :=
  match r with Ok a => Return a | Err _ => Panic end.

Definition loan_and_send (subs : Container Z) (p : Publisher) : outcome (Z * Publisher) :=
  let! '(r, p) := loan header message_type p in
  let! chunk := unwrap r in
  let! '(r, p) := send header message_type 0 (λ m, m) connect subs p (offset chunk) in
  let! n := unwrap r in
  Return (n, p).

(** A subscriber joins, the publisher sends one sample, which stays in the
    receive channel, the subscriber leaves and the publisher takes notice. *)
Definition visitor (subs : Container Z) (p : Publisher) (id : Z) : outcome (Container Z * Publisher) :=
  let! '(r, subs) := add subs id in
  match r with
  | None => Panic
  | Some index =>
      let! '(_, p) := loan_and_send subs p in
      let! subs := drop_index index subs in
      let! '(_, p) := Publisher.update_connections header message_type connect subs p in
      Return (subs, p)
  end.

Fixpoint visitors (n : nat) (subs : Container Z) (p : Publisher) : outcome (Container Z * Publisher) :=
  match n with
  | O => Return (subs, p)
  | S n => let! '(subs, p) := visitor subs p (Z.of_nat n) in visitors n subs p
  end.

Definition loan_error (p : Publisher) : outcome (option LoanError) :=
  let! '(r, _) := loan header message_type p in
  Return (match r with Ok _ => None | Err e => Some e end).

(** When a subscriber has left, the publisher drops its side of the connection
    with the samples that are still in the receive channel, and their reference
    counters are never decremented: after four such subscribers, with nothing on
    loan, no history and no connection left, all four samples of the data segment
    are lost and loaning fails for good. *)
Theorem departed_subscribers_leak_samples :
  (let! '(r, _) := new_publisher 0 in
   let! p := unwrap r in
   let! '(subs, p) := visitors 4 (fixed_size_container 1) p in
   let! e := loan_error p in
   Return (loan_counter p, subscriber_connections p, sample_reference_counter (samples p), e)) =
  Return (0, [None], [1; 1; 1; 1], Some LoanOutOfMemory).
Proof. vm_compute. reflexivity. Qed.

(** The connection to the first subscriber can be made; asking for another one
    would not return. *)
Definition connect_first (id : Z) : outcome (result SharedManagementData ZeroCopyCreationError) :=
  if id =? 1 then connect id else Panic.

(** Subscriber 1 leaves and subscriber 2 joins between two updates of the
    publisher: 2 gets the index of 1. The publisher sees subscriber 2 in its list,
    but keeps the connection to 1 at that index and never connects to 2. *)
Theorem reused_index_never_connects :
  (let! '(r, _) := new_publisher 0 in
   let! p := unwrap r in
   let! '(i, subs) := add (fixed_size_container 1) 1 in
   let! '(_, p) := Publisher.update_connections header message_type connect_first subs p in
   let! subs := match i with Some i => drop_index i subs | None => Panic end in
   let! '(_, subs) := add subs 2 in
   let! '(r, p) := Publisher.update_connections header message_type connect_first subs p in
   let! es := for_each (subscriber_list_state p) in
   let! '(r', p) := Publisher.update_connections header message_type connect_first subs p in
   Return (r, r', es, match subscriber_connections p with [Some _] => true | _ => false end)) =
  Return (Ok tt, Ok tt, [(0, 2)], true).
Proof. vm_compute. reflexivity. Qed.

(** The offsets in the receive channel of the first connection. *)
Definition pending (p : Publisher) : outcome (list Z) :=
  match subscriber_connections p with
  | Some m :: _ =>
      let! '(r, m, bc) := receive m 0 in
      match r with
      | Ok (Some v) => Return [v]
      | _ => Return []
      end
  | _ => Return []
  end.

(** With a history of two and a buffer of one, a subscriber that joins gets both
    samples, the second evicts the first; [deliver_history] drops the evicted
    sample without releasing it. The counter of the first sample stays at 2
    although only the history refers to it, and it is still 1 after the sample has
    left the history too. *)
Theorem history_overflow_leaks_sample :
  (let! '(r, _) := new_publisher 2 in
   let! p := unwrap r in
   let! '(_, p) := loan_and_send (fixed_size_container 1) p in
   let! '(_, p) := loan_and_send (fixed_size_container 1) p in
   let! '(_, subs) := add (fixed_size_container 1) 1 in
   let! '(_, p) := Publisher.update_connections header message_type connect subs p in
   let! l := pending p in
   let c := sample_reference_counter (samples p) in
   let! '(_, p) := loan_and_send subs p in
   let! '(_, p) := loan_and_send subs p in
   let! '(_, p) := loan_and_send subs p in
   Return (take 2 c, (λ v, v / 40) <$> l, take 1 (sample_reference_counter (samples p)))) =
  Return ([2; 2], [1], [1]).
Proof. vm_compute. reflexivity. Qed.
End Scenarios.

(** ** Messages without data *)

(** Dropping a received sample returns the address of its data. For a message
    type of size zero that is the end of the message: the publisher takes it for
    the following sample and decrements the wrong reference counter. *)
Theorem zero_sized_message_releases_next (P : Profile) (header data : Layout) (v : Z) :
  type_layout header → type_layout data → 0 < l_size header → l_size data = 0 →
  0 ≤ v →
  Publisher.sample_index header data (v + data_offset header data) =
    Return (v / l_size (Message header data) + 1).
Proof.
  intros Hh Hd Hpos Hz Hv. destruct (message_layout header data Hh Hd Hpos) as (_ & Hs & _).
  pose proof (data_offset_aligned header data Hh Hd) as Ho. unfold Publisher.sample_index.
  rewrite udiv_ok by lia. assert (l_size (Message header data) = data_offset header data) as He.
  { pose proof (layout_align_pos _ (proj1 Hh)). cbn [l_size Message l_align] in *. rewrite Hz, Z.add_0_r.
    set (a := Z.max (l_align header) (l_align data)) in *.
    destruct (round_up_spec (data_offset header data) a) as [Hr Hm]; [lia|].
    destruct (decide (data_offset header data = round_up (data_offset header data) a)); [done|].
    pose proof (multiple_gap (data_offset header data) (round_up (data_offset header data) a) a). lia. }
  rewrite <- He. f_equal. replace (v + l_size (Message header data)) with (v + 1 * l_size (Message header data)) by lia.
  by rewrite Z.div_add by lia.
Qed.

Lemma zero_sized_message_releases_next_witness :
  Publisher.sample_index (mkLayout 32 8) (mkLayout 0 1) (64 + data_offset (mkLayout 32 8) (mkLayout 0 1)) =
    Return 3.
Proof.
  apply (zero_sized_message_releases_next true (mkLayout 32 8) (mkLayout 0 1) 64); try done.
  - split; [|done]. split; [done|]. by exists 3.
  - split; [|done]. split; [done|]. by exists 0.
Defined.
