(* ===== verification/RwLock.v ===== *)
(** * elkodon_pal/concurrency_primitives: mutex.rs and rwlock.rs

    The locks that are built from one or two atomic integers and a [wait]
    function of the platform: threads are state machines whose steps are the
    atomic accesses and the calls of [wait], interleaved arbitrarily. [wait] may
    return at any time with either answer (it may be woken up, time out or return
    spuriously), so what is proved holds for every platform.

    - [Module Mutex], [Module ReaderPreference], [Module WriterPreference]: the
      operations, and mutual exclusion for any number of threads;
    - [WriterPreference]: the schedule in which a wake-up is lost. *)

From S2P Require Import Prelude.

Definition SPIN_REPETITIONS : Z := 10000.
Definition WRITE_LOCKED : Z := 2 ^ 32 - 1.
Definition UNLOCKED : Z := 0.

(** How many threads satisfy [f]. *)
Fixpoint tally {A} (f : A → bool) (ts : list A) : Z :=
  match ts with [] => 0 | t :: ts => Z.b2z (f t) + tally f ts end.

Lemma tally_app {A} (f : A → bool) l1 l2 : tally f (l1 ++ l2) = tally f l1 + tally f l2.
Proof. induction l1 as [|t l1 IH]; [done|]. cbn. lia. Qed.

Lemma tally_bounds {A} (f : A → bool) l : 0 ≤ tally f l ≤ Z.of_nat (length l).
Proof. induction l as [|t l IH]; cbn [tally length]; [lia|]. destruct (f t); cbn; lia. Qed.

(** Interleaving: a step of one thread on the shared memory; [idle t t'] says
    which operations a thread may start, [step] is the next access of a thread,
    given the answer of [wait]. *)
Section Threads.
Context {S T : Type} (idle : T → T → Prop) (step : S → bool → T → outcome (S * T)).

Inductive threads_step : S * list T → S * list T → Prop :=
| thread_start s ts1 t t' ts2 :
    idle t t' → threads_step (s, ts1 ++ t :: ts2) (s, ts1 ++ t' :: ts2)
| thread_access s ts1 t ts2 answer s' t' :
    step s answer t = Return (s', t') →
    threads_step (s, ts1 ++ t :: ts2) (s', ts1 ++ t' :: ts2).

(** An invariant of the shared memory and all threads. *)
Lemma threads_invariant (I : S → list T → Prop) :
  (∀ s ts1 t t' ts2, I s (ts1 ++ t :: ts2) → idle t t' → I s (ts1 ++ t' :: ts2)) →
  (∀ s ts1 t ts2 answer s' t', I s (ts1 ++ t :: ts2) → step s answer t = Return (s', t') →
     I s' (ts1 ++ t' :: ts2)) →
  ∀ c c', I c.1 c.2 → rtc threads_step c c' → I c'.1 c'.2.
Proof.
  intros Hi Hs c c' H0 Hrun. induction Hrun as [c|c c1 c' Hst Hrun IH]; [done|].
  apply IH. destruct Hst; cbn in *; eauto.
Qed.

(** A schedule: which thread moves next and what [wait] would answer. *)
Fixpoint run (sched : list (nat * bool)) (s : S) (ts : list T) : outcome (S * list T) :=
  match sched with
  | [] => Return (s, ts)
  | (i, answer) :: sched =>
      match ts !! i with
      | None => Undefined
      | Some t =>
          let! '(s, t) := step s answer t in
          run sched s (<[i := t]> ts)
      end
  end.
Lemma run_steps sched s ts s' ts' :
  run sched s ts = Return (s', ts') → rtc threads_step (s, ts) (s', ts').
Proof.
  revert s ts. induction sched as [|[i answer] sched IH]; intros s ts Hr; cbn in Hr.
  { by injection Hr as <- <-. }
  destruct (ts !! i) as [t|] eqn:Ht; [|done].
  destruct (step s answer t) as [[s1 t1]| |] eqn:Hst; [|done..]. cbn [obind] in Hr.
  eapply rtc_l; [|by apply IH]. rewrite insert_take_drop by (by eapply lookup_lt_Some).
  rewrite <- (take_drop_middle ts i t Ht) at 1. by apply thread_access with answer.
Qed.
(** Threads that do not move do not matter. *)
Lemma run_app sched s ts us s' ts' :
  run sched s ts = Return (s', ts') → run sched s (ts ++ us) = Return (s', ts' ++ us).
Proof.
  revert s ts. induction sched as [|[i answer] sched IH]; intros s ts Hr; cbn in *.
  { by injection Hr as <- <-. }
  destruct (ts !! i) as [t|] eqn:Ht; [|done]. rewrite (lookup_app_l_Some _ _ _ _ Ht).
  destruct (step s answer t) as [[s1 t1]| |]; [|done..]. cbn [obind] in *.
  rewrite insert_app_l by (by eapply lookup_lt_Some). by apply IH.
Qed.
End Threads.

(** ** mutex.rs *)

Module Mutex.
Inductive pc :=
| Idle
| TryLock
| LockTry
| LockSpin (retry_counter : Z)
| LockWait
| LockCas (keep_running : bool)
| Locked
| UnlockStore
| UnlockWake.

(** The access of a thread to [state]. [try_lock]: [TryLock]; [lock]:
    [uncontested_lock] with [LockTry] and [LockSpin], then the loop with
    [LockWait] and [LockCas]; [unlock]: [UnlockStore] and [UnlockWake]. *)
Definition step (state : Z) (answer : bool) (t : pc) : outcome (Z * pc) :=
  match t with
  | Idle => Return (state, Idle)
  | TryLock =>
      let '(state, r) := compare_exchange state 0 1 in
      Return (state, match r with Ok _ => Locked | Err _ => Idle end)
  | LockTry =>
      let '(state, r) := compare_exchange state 0 1 in
      Return (state, match r with Ok _ => Locked | Err _ => LockSpin 0 end)
  | LockSpin retry_counter =>
      let '(state, r) := compare_exchange state 0 1 in
      Return (state,
        match r with
        | Ok _ => Locked
        | Err _ =>
            if SPIN_REPETITIONS =? retry_counter + 1 then LockWait else LockSpin (retry_counter + 1)
        end)
  | LockWait => Return (state, LockCas answer)
  | LockCas keep_running =>
      let '(state, r) := compare_exchange state 0 1 in
      Return (state,
        match r with
        | Ok _ => Locked
        | Err _ => if keep_running then LockWait else Idle
        end)
  | Locked => Return (state, Locked)
  | UnlockStore => Return (0, UnlockWake)
  | UnlockWake => Return (state, Idle)
  end.

Inductive start : pc → pc → Prop :=
| start_lock : start Idle LockTry
| start_try_lock : start Idle TryLock
| start_unlock : start Locked UnlockStore.

Definition holds (t : pc) : bool := match t with Locked | UnlockStore => true | _ => false end.

Definition inv (state : Z) (ts : list pc) : Prop :=
  (state = 0 ∨ state = 1) ∧ tally holds ts = state.

(** Mutual exclusion of the mutex: however [lock], [try_lock] and [unlock] of any
    number of threads are interleaved and whatever [wait] answers, at most one
    thread holds the mutex, and the integer is 1 exactly then. *)
Theorem mutex_exclusion (n : nat) state ts :
  rtc (threads_step start step) (0, replicate n Idle) (state, ts) →
  tally holds ts ≤ 1 ∧ (state = 1 ↔ tally holds ts = 1) ∧ (state = 0 ↔ tally holds ts = 0).
Proof.
  intros Hrun.
  assert (inv state ts) as [Hs Ht]; [|lia].
  apply (threads_invariant start step inv) in Hrun; cbn in *; [done|..].
  - intros s ts1 t t' ts2 [Hs Ht] Hst. split; [done|]. rewrite tally_app in *. cbn in *.
    destruct Hst; cbn in *; lia.
  - clear. intros s ts1 t ts2 answer s' t' [Hs Ht] Hst. unfold inv. rewrite tally_app in *. cbn [tally] in *.
    pose proof (tally_bounds holds ts1). pose proof (tally_bounds holds ts2).
    unfold step, compare_exchange in Hst.
    destruct t; cbn in *; try (destruct (Z.eqb_spec s 0)); injection Hst as <- <-;
      repeat case_match; cbn in *; lia.
  - split; [by left|]. clear. induction n; cbn in *; lia.
Qed.
End Mutex.

(** ** rwlock.rs: RwLockReaderPreference *)

Module ReaderPreference.
Section Lock.
Context `{P : Profile}.

(** [w] in the program counters of [unlock] records which lock the thread
    holds; the code does not know. *)
Inductive pc :=
| Idle
| ReadTryLoad
| ReadTryCas (reader_count : Z)
| ReadLoad (retry_counter : Z) (keep_running : bool)
| ReadWait (reader_count retry_counter : Z)
| ReadCas (reader_count retry_counter : Z) (keep_running : bool)
| ReadHeld
| WriteTry
| WriteCas (retry_counter : Z) (keep_running : bool)
| WriteWait (retry_counter : Z)
| WriteHeld
| UnlockLoad (w : bool)
| UnlockStore (w : bool)
| UnlockSub (w : bool)
| UnlockWake.

(** The inner loop of [read_lock], up to its next access. *)
Definition read_loop (reader_count retry_counter : Z) (keep_running : bool) : pc :=
  if negb (reader_count =? WRITE_LOCKED) then ReadCas reader_count retry_counter keep_running
  else if negb keep_running then Idle
  else if retry_counter <? SPIN_REPETITIONS then ReadLoad (retry_counter + 1) keep_running
  else ReadWait reader_count retry_counter.

(** [try_read_lock]: [ReadTryLoad], [ReadTryCas]; [read_lock]: [ReadLoad],
    [ReadWait], [ReadCas]; [try_write_lock]: [WriteTry]; [write_lock]:
    [WriteCas], [WriteWait]; [unlock]: the last four. *)
Definition step (cell : Z) (answer : bool) (t : pc) : outcome (Z * pc) :=
  match t with
  | Idle | ReadHeld | WriteHeld => Return (cell, t)
  | ReadTryLoad =>
      Return (cell, if cell =? WRITE_LOCKED then Idle else ReadTryCas cell)
  | ReadTryCas v =>
      let! v' := u32add v 1 in
      let '(cell, r) := compare_exchange cell v v' in
      Return (cell, match r with Ok _ => ReadHeld | Err _ => Idle end)
  | ReadLoad retry_counter keep_running => Return (cell, read_loop cell retry_counter keep_running)
  | ReadWait v retry_counter => Return (cell, ReadLoad retry_counter answer)
  | ReadCas v retry_counter keep_running =>
      let! v' := u32add v 1 in
      let '(cell, r) := compare_exchange cell v v' in
      Return (cell, match r with Ok _ => ReadHeld | Err v => read_loop v retry_counter keep_running end)
  | WriteTry =>
      let '(cell, r) := compare_exchange cell UNLOCKED WRITE_LOCKED in
      Return (cell, match r with Ok _ => WriteHeld | Err _ => Idle end)
  | WriteCas retry_counter keep_running =>
      let '(cell, r) := compare_exchange cell UNLOCKED WRITE_LOCKED in
      Return (cell,
        match r with
        | Ok _ => WriteHeld
        | Err _ =>
            if negb keep_running then Idle
            else if retry_counter <? SPIN_REPETITIONS then WriteCas (retry_counter + 1) keep_running
            else WriteWait retry_counter
        end)
  | WriteWait retry_counter => Return (cell, WriteCas retry_counter answer)
  | UnlockLoad w => Return (cell, if cell =? WRITE_LOCKED then UnlockStore w else UnlockSub w)
  | UnlockStore w => Return (UNLOCKED, UnlockWake)
  | UnlockSub w => Return (wrap U32 (cell - 1), UnlockWake)
  | UnlockWake => Return (cell, Idle)
  end.

Inductive start : pc → pc → Prop :=
| start_try_read : start Idle ReadTryLoad
| start_read : start Idle (ReadLoad 0 true)
| start_try_write : start Idle WriteTry
| start_write : start Idle (WriteCas 0 true)
| start_unlock_read : start ReadHeld (UnlockLoad false)
| start_unlock_write : start WriteHeld (UnlockLoad true).

Definition reads (t : pc) : bool :=
  match t with ReadHeld | UnlockLoad false | UnlockStore false | UnlockSub false => true | _ => false end.
Definition writes (t : pc) : bool :=
  match t with WriteHeld | UnlockLoad true | UnlockStore true | UnlockSub true => true | _ => false end.

(** What a thread knows. *)
Definition pc_ok (t : pc) : Prop :=
  match t with
  | ReadTryCas v | ReadCas v _ _ => 0 ≤ v < WRITE_LOCKED
  | UnlockStore w => w = true
  | UnlockSub w => w = false
  | _ => True
  end.

Record inv (n : nat) (cell : Z) (ts : list pc) : Prop := {
  inv_threads : length ts = n;
  inv_pcs : Forall pc_ok ts;
  inv_cell : (cell = WRITE_LOCKED ∧ tally writes ts = 1 ∧ tally reads ts = 0) ∨
             (cell = tally reads ts ∧ tally writes ts = 0)
}.

(** Replacing a thread that changed the numbers of holders. *)
Lemma rp_inv_update n cell cell' ts1 t t' ts2 :
  inv n cell (ts1 ++ t :: ts2) → Z.of_nat n < WRITE_LOCKED → pc_ok t' →
  (let r := tally reads (ts1 ++ t :: ts2) - Z.b2z (reads t) + Z.b2z (reads t') in
   let w := tally writes (ts1 ++ t :: ts2) - Z.b2z (writes t) + Z.b2z (writes t') in
   (cell' = WRITE_LOCKED ∧ w = 1 ∧ r = 0) ∨ (cell' = r ∧ w = 0)) →
  inv n cell' (ts1 ++ t' :: ts2).
Proof.
  intros [Hn Hp _] _ Ht Hc. constructor.
  - rewrite <- Hn, !length_app. done.
  - rewrite Forall_app, Forall_cons in Hp |- *. destruct Hp as (? & _ & ?). done.
  - rewrite !tally_app in Hc |- *. cbn [tally] in *.
    replace (tally reads ts1 + (Z.b2z (reads t) + tally reads ts2) - Z.b2z (reads t) + Z.b2z (reads t'))
      with (tally reads ts1 + (Z.b2z (reads t') + tally reads ts2)) in Hc by lia.
    replace (tally writes ts1 + (Z.b2z (writes t) + tally writes ts2) - Z.b2z (writes t) + Z.b2z (writes t'))
      with (tally writes ts1 + (Z.b2z (writes t') + tally writes ts2)) in Hc by lia. done.
Qed.

Lemma rp_read_loop_ok v retry_counter keep_running :
  0 ≤ v ≤ WRITE_LOCKED →
  let t := read_loop v retry_counter keep_running in pc_ok t ∧ reads t = false ∧ writes t = false.
Proof.
  intros Hv. unfold read_loop. destruct (Z.eqb_spec v WRITE_LOCKED); cbn [negb]; [|cbn; lia].
  destruct keep_running; [|done]. by destruct (_ <? _).
Qed.

(** The next access of a thread is defined and keeps the invariant. *)
Lemma rp_step_inv n cell ts1 t ts2 answer :
  inv n cell (ts1 ++ t :: ts2) → Z.of_nat n < WRITE_LOCKED →
  ∃ cell' t', step cell answer t = Return (cell', t') ∧ inv n cell' (ts1 ++ t' :: ts2).
Proof.
  intros Hi Hn. pose proof Hi as [Hl Hp Hc]. apply Forall_app in Hp as [_ [Ht _]%Forall_cons].
  pose proof (tally_bounds reads (ts1 ++ t :: ts2)) as Hr. rewrite Hl in Hr.
  assert (0 ≤ cell ≤ WRITE_LOCKED) as Hcell by (unfold WRITE_LOCKED in *; lia).
  assert (Z.b2z (reads t) ≤ tally reads (ts1 ++ t :: ts2) ∧ Z.b2z (writes t) ≤ tally writes (ts1 ++ t :: ts2)) as [Hrt Hwt].
  { rewrite !tally_app. cbn [tally]. pose proof (tally_bounds reads ts1). pose proof (tally_bounds reads ts2).
    pose proof (tally_bounds writes ts1). pose proof (tally_bounds writes ts2). lia. }
  destruct t as [| |v|retry_counter keep_running|v retry_counter|v retry_counter keep_running| |
    |retry_counter keep_running|retry_counter| |[]|[]|[]|]; try discriminate Ht;
    cbn [step pc_ok reads writes Z.b2z] in *; unfold compare_exchange, UNLOCKED, wrap;
    try (rewrite u32add_ok by (unfold WRITE_LOCKED, U32 in *; lia); cbn [obind]);
    try (match goal with |- context [?a =? ?b] => destruct (Z.eqb_spec a b) end);
    try (rewrite Z.mod_small by (unfold WRITE_LOCKED, U32 in *; lia));
    do 2 eexists; (split; [reflexivity|]); eapply rp_inv_update; try done; cbn [pc_ok reads writes Z.b2z];
    try (pose proof (rp_read_loop_ok cell retry_counter keep_running Hcell) as (? & Hlr & Hlw);
         rewrite ?Hlr, ?Hlw);
    try done; unfold WRITE_LOCKED in *; cbn [Z.b2z]; try lia.
  all: repeat case_match; cbn [pc_ok reads writes Z.b2z]; try done; lia.
Qed.

(** The reader-preferring lock: however the operations of any number of threads
    (fewer than 2^32 - 1) are interleaved and whatever [wait] answers, a writer
    excludes all readers and all other writers, the integer is the number of
    readers or marks the writer, and no access panics or overflows. *)
Theorem reader_preference_exclusion (n : nat) cell ts :
  Z.of_nat n < WRITE_LOCKED →
  rtc (threads_step start step) (UNLOCKED, replicate n Idle) (cell, ts) →
  tally writes ts ≤ 1 ∧ (tally writes ts = 1 → tally reads ts = 0) ∧
  cell = (if tally writes ts =? 1 then WRITE_LOCKED else tally reads ts) ∧
  (∀ t answer, t ∈ ts → safe (step cell answer t)).
Proof.
  intros Hn Hrun. assert (inv n cell ts) as Hi.
  { apply (threads_invariant start step (inv n)) in Hrun; [done|..]; cbn.
    - intros s ts1 t t' ts2 Hi Hst. eapply rp_inv_update; [exact Hi|done|by destruct Hst|].
      pose proof (inv_cell _ _ _ Hi). destruct Hst; cbn [reads writes Z.b2z]; lia.
    - intros s ts1 t ts2 answer s' t' Hi Hst.
      destruct (rp_step_inv n s ts1 t ts2 answer Hi Hn) as (s2 & t2 & Hst2 & Hi2).
      rewrite Hst in Hst2. by injection Hst2 as <- <-.
    - constructor; [by rewrite length_replicate| |right].
      + by apply Forall_replicate.
      + unfold UNLOCKED. clear. induction n; cbn in *; lia. }
  destruct (inv_cell _ _ _ Hi) as [(-> & Hw & Hr)|(Hc & Hw)]; rewrite Hw; cbn.
  - split_and!; try done; try lia. intros t answer (ts1 & ts2 & ->)%list_elem_of_split.
    destruct (rp_step_inv n _ ts1 t ts2 answer Hi Hn) as (s2 & t2 & Hst2 & _). by eexists.
  - split_and!; try done; try lia. intros t answer (ts1 & ts2 & ->)%list_elem_of_split.
    destruct (rp_step_inv n _ ts1 t ts2 answer Hi Hn) as (s2 & t2 & Hst2 & _). by eexists.
Qed.
End Lock.
End ReaderPreference.

(** ** rwlock.rs: RwLockWriterPreference *)

Module WriterPreference.
Section Lock.
Context `{P : Profile}.

Record RwLock := mkRwLock { state : Z; writer_wake_counter : Z }.

Definition set_state (l : RwLock) (s : Z) : RwLock := mkRwLock s (writer_wake_counter l).

(** [w] records which lock the thread holds; the code does not know. *)
Inductive pc :=
| Idle
| ReadTryLoad
| ReadTryCas (s : Z)
| ReadLoad (retry_counter : Z) (keep_running : bool)
| ReadWait (s retry_counter : Z)
| ReadCas (s retry_counter : Z) (keep_running : bool)
| ReadHeld
| WriteTry
| WriteLoad (retry_counter : Z) (keep_running : bool)
| WriteCas (s retry_counter : Z) (keep_running : bool)
| WriteMark (s retry_counter : Z)
| WriteCounter (retry_counter : Z)
| WriteWait (counter retry_counter : Z)
| WriteUnmark (s : Z)
| WriteUnmarkCounter
| WriteHeld
| UnlockLoad (w : bool)
| UnlockStore (w : bool)
| UnlockSub (w : bool)
| UnlockCounter
| Wake.

(** The loop of [read_lock], up to its next access. *)
Definition read_loop (s retry_counter : Z) (keep_running : bool) : pc :=
  if s mod 2 =? 1 then
    if negb keep_running then Idle
    else if retry_counter <? SPIN_REPETITIONS then ReadLoad (retry_counter + 1) keep_running
    else ReadWait s retry_counter
  else ReadCas s retry_counter keep_running.

(** The parts of the loop of [write_lock], each up to its next access. *)
Definition write_wait (retry_counter : Z) : pc :=
  if retry_counter <? SPIN_REPETITIONS then WriteLoad (retry_counter + 1) true
  else WriteCounter retry_counter.

Definition write_unmark (s : Z) : pc :=
  if negb (s mod 2 =? 0) && negb (s =? WRITE_LOCKED) then WriteUnmark s else Idle.

Definition write_rest (s retry_counter : Z) (keep_running : bool) : pc :=
  if negb keep_running then write_unmark s
  else if s mod 2 =? 0 then WriteMark s retry_counter
  else write_wait retry_counter.

Definition write_loop (s retry_counter : Z) (keep_running : bool) : pc :=
  if s <=? 1 then WriteCas s retry_counter keep_running
  else write_rest s retry_counter keep_running.

(** [try_read_lock]: [ReadTryLoad], [ReadTryCas]; [read_lock]: [ReadLoad],
    [ReadWait], [ReadCas]; [try_write_lock]: [WriteTry]; [write_lock]:
    [WriteLoad] to [WriteUnmarkCounter]; [unlock]: [UnlockLoad] to
    [UnlockCounter]; [Wake] stands for the calls of [wake_one] and [wake_all]. *)
Definition step (l : RwLock) (answer : bool) (t : pc) : outcome (RwLock * pc) :=
  match t with
  | Idle | ReadHeld | WriteHeld => Return (l, t)
  | ReadTryLoad => Return (l, if state l mod 2 =? 1 then Idle else ReadTryCas (state l))
  | ReadTryCas s =>
      let! s' := u32add s 2 in
      let '(cell, r) := compare_exchange (state l) s s' in
      Return (set_state l cell, match r with Ok _ => ReadHeld | Err _ => Idle end)
  | ReadLoad retry_counter keep_running => Return (l, read_loop (state l) retry_counter keep_running)
  | ReadWait s retry_counter => Return (l, ReadLoad retry_counter answer)
  | ReadCas s retry_counter keep_running =>
      let! s' := u32add s 2 in
      let '(cell, r) := compare_exchange (state l) s s' in
      Return (set_state l cell,
        match r with Ok _ => ReadHeld | Err v => read_loop v retry_counter keep_running end)
  | WriteTry =>
      let '(cell, r) := compare_exchange (state l) 0 WRITE_LOCKED in
      Return (set_state l cell, match r with Ok _ => WriteHeld | Err _ => Idle end)
  | WriteLoad retry_counter keep_running => Return (l, write_loop (state l) retry_counter keep_running)
  | WriteCas s retry_counter keep_running =>
      let '(cell, r) := compare_exchange (state l) s WRITE_LOCKED in
      Return (set_state l cell,
        match r with Ok _ => WriteHeld | Err v => write_rest v retry_counter keep_running end)
  | WriteMark s retry_counter =>
      let! s' := u32add s 1 in
      let '(cell, _) := compare_exchange (state l) s s' in
      Return (set_state l cell, write_wait retry_counter)
  | WriteCounter retry_counter => Return (l, WriteWait (writer_wake_counter l) retry_counter)
  | WriteWait counter retry_counter => Return (l, WriteLoad retry_counter answer)
  | WriteUnmark s =>
      let! s' := arith U32 (s - 1) in
      let '(cell, r) := compare_exchange (state l) s s' in
      Return (set_state l cell, match r with Ok _ => WriteUnmarkCounter | Err v => write_unmark v end)
  | WriteUnmarkCounter =>
      Return (mkRwLock (state l) (wrap U32 (writer_wake_counter l + 1)), Wake)
  | UnlockLoad w => Return (l, if state l =? WRITE_LOCKED then UnlockStore w else UnlockSub w)
  | UnlockStore w => Return (set_state l UNLOCKED, UnlockCounter)
  | UnlockSub w =>
      Return (set_state l (wrap U32 (state l - 2)), if state l =? 3 then UnlockCounter else Idle)
  | UnlockCounter =>
      Return (mkRwLock (state l) (wrap U32 (writer_wake_counter l + 1)), Wake)
  | Wake => Return (l, Idle)
  end.

Inductive start : pc → pc → Prop :=
| start_try_read : start Idle ReadTryLoad
| start_read : start Idle (ReadLoad 0 true)
| start_try_write : start Idle WriteTry
| start_write : start Idle (WriteLoad 0 true)
| start_unlock_read : start ReadHeld (UnlockLoad false)
| start_unlock_write : start WriteHeld (UnlockLoad true).

Definition reads (t : pc) : bool :=
  match t with ReadHeld | UnlockLoad false | UnlockStore false | UnlockSub false => true | _ => false end.
Definition writes (t : pc) : bool :=
  match t with WriteHeld | UnlockLoad true | UnlockStore true | UnlockSub true => true | _ => false end.

(** What a thread knows; [m] bounds the values it may have loaded. *)
Definition pc_ok (m : Z) (t : pc) : Prop :=
  match t with
  | ReadTryCas s | ReadCas s _ _ | WriteMark s _ => 0 ≤ s ≤ m ∧ s mod 2 = 0
  | WriteCas s _ _ => 0 ≤ s ≤ 1
  | WriteUnmark s => 0 ≤ s < WRITE_LOCKED ∧ s mod 2 = 1
  | UnlockStore w => w = true
  | UnlockSub w => w = false
  | _ => True
  end.

(** Without a writer, the state is twice the number of readers, plus one if a
    writer waits. *)
Record inv (n : nat) (l : RwLock) (ts : list pc) : Prop := {
  inv_threads : length ts = n;
  inv_pcs : Forall (pc_ok (2 * Z.of_nat n + 1)) ts;
  inv_state : (state l = WRITE_LOCKED ∧ tally writes ts = 1 ∧ tally reads ts = 0) ∨
              ((state l = 2 * tally reads ts ∨ state l = 2 * tally reads ts + 1) ∧ tally writes ts = 0)
}.

Lemma wp_inv_update n l l' ts1 t t' ts2 :
  inv n l (ts1 ++ t :: ts2) → pc_ok (2 * Z.of_nat n + 1) t' →
  (let r := tally reads (ts1 ++ t :: ts2) - Z.b2z (reads t) + Z.b2z (reads t') in
   let w := tally writes (ts1 ++ t :: ts2) - Z.b2z (writes t) + Z.b2z (writes t') in
   (state l' = WRITE_LOCKED ∧ w = 1 ∧ r = 0) ∨
   ((state l' = 2 * r ∨ state l' = 2 * r + 1) ∧ w = 0)) →
  inv n l' (ts1 ++ t' :: ts2).
Proof.
  intros [Hn Hp _] Ht Hc. constructor.
  - rewrite <- Hn, !length_app. done.
  - rewrite Forall_app, Forall_cons in Hp |- *. destruct Hp as (? & _ & ?). done.
  - rewrite !tally_app in Hc |- *. cbn [tally] in *.
    replace (tally reads ts1 + (Z.b2z (reads t) + tally reads ts2) - Z.b2z (reads t) + Z.b2z (reads t'))
      with (tally reads ts1 + (Z.b2z (reads t') + tally reads ts2)) in Hc by lia.
    replace (tally writes ts1 + (Z.b2z (writes t) + tally writes ts2) - Z.b2z (writes t) + Z.b2z (writes t'))
      with (tally writes ts1 + (Z.b2z (writes t') + tally writes ts2)) in Hc by lia. done.
Qed.

(** The loops lead to a program counter that is right about the value seen. *)
Definition continues (m : Z) (t : pc) : Prop := pc_ok m t ∧ reads t = false ∧ writes t = false.

Definition value_ok (m s : Z) : Prop := 0 ≤ s ≤ m ∨ s = WRITE_LOCKED.

Lemma write_wait_ok m retry_counter : continues m (write_wait retry_counter).
Proof. unfold write_wait. by destruct (_ <? _). Qed.

Lemma wp_read_loop_ok m s retry_counter keep_running :
  value_ok m s → continues m (read_loop s retry_counter keep_running).
Proof.
  intros Hs. unfold read_loop. destruct (Z.eqb_spec (s mod 2) 1).
  - destruct keep_running; [|done]. by destruct (_ <? _).
  - split; [|done]. destruct Hs as [Hs|Hs]; [|unfold WRITE_LOCKED in Hs; by subst]. cbn.
    split; [done|]. pose proof (Z.mod_pos_bound s 2). lia.
Qed.

Lemma write_unmark_ok m s : m < WRITE_LOCKED → value_ok m s → continues m (write_unmark s).
Proof.
  intros Hm Hs. unfold write_unmark.
  destruct (Z.eqb_spec (s mod 2) 0); [done|]. destruct (Z.eqb_spec s WRITE_LOCKED); [done|].
  split; [|done]. destruct Hs as [Hs|Hs]; [|done]. cbn. pose proof (Z.mod_pos_bound s 2). lia.
Qed.

Lemma write_rest_ok m s retry_counter keep_running :
  m < WRITE_LOCKED → value_ok m s → continues m (write_rest s retry_counter keep_running).
Proof.
  intros Hm Hs. unfold write_rest. destruct keep_running; [|by apply write_unmark_ok]. cbn [negb].
  destruct (Z.eqb_spec (s mod 2) 0); [|apply write_wait_ok]. split; [|done].
  destruct Hs as [Hs|Hs]; [done|unfold WRITE_LOCKED in Hs; by subst].
Qed.

Lemma write_loop_ok m s retry_counter keep_running :
  m < WRITE_LOCKED → value_ok m s → continues m (write_loop s retry_counter keep_running).
Proof.
  intros Hm Hs. unfold write_loop. destruct (Z.leb_spec s 1); [|by apply write_rest_ok].
  split; [|done]. unfold value_ok, WRITE_LOCKED in *. cbn. lia.
Qed.

(** The next access of a thread is defined and keeps the invariant. *)
Lemma wp_step_inv n l ts1 t ts2 answer :
  inv n l (ts1 ++ t :: ts2) → 2 * Z.of_nat n + 4 < WRITE_LOCKED →
  ∃ l' t', step l answer t = Return (l', t') ∧ inv n l' (ts1 ++ t' :: ts2).
Proof.
  intros Hi Hn. pose proof Hi as [Hl Hp Hc]. apply Forall_app in Hp as [_ [Ht _]%Forall_cons].
  pose proof (tally_bounds reads (ts1 ++ t :: ts2)) as Hr. rewrite Hl in Hr.
  set (m := 2 * Z.of_nat n + 1) in *.
  assert (value_ok m (state l)) as Hv by (unfold value_ok, m; lia).
  assert (m < WRITE_LOCKED) as Hm by lia.
  assert (Z.b2z (reads t) ≤ tally reads (ts1 ++ t :: ts2) ∧ Z.b2z (writes t) ≤ tally writes (ts1 ++ t :: ts2)) as [Hrt Hwt].
  { rewrite !tally_app. cbn [tally]. pose proof (tally_bounds reads ts1). pose proof (tally_bounds reads ts2).
    pose proof (tally_bounds writes ts1). pose proof (tally_bounds writes ts2). lia. }
  destruct t as [| |s|retry_counter keep_running|s retry_counter|s retry_counter keep_running| |
    |retry_counter keep_running|s retry_counter keep_running|s retry_counter|retry_counter|counter retry_counter
    |s| | |[]|[]|[]| |]; try discriminate Ht; cbn [step pc_ok reads writes Z.b2z] in *;
    unfold compare_exchange, UNLOCKED;
    try (rewrite u32add_ok by (unfold WRITE_LOCKED, U32, m in *; lia); cbn [obind]);
    try (rewrite arith_ok by (unfold WRITE_LOCKED, U32, m in *; Z.to_euclidean_division_equations; lia); cbn [obind]).
  all: repeat match goal with |- context [?x =? ?y] => destruct (Z.eqb_spec x y) end.
  all: do 2 eexists; (split; [reflexivity|]); eapply wp_inv_update; [exact Hi|..]; cbn [state set_state].
  all: try match goal with
    | |- context [read_loop ?x ?y ?z] => destruct (wp_read_loop_ok m x y z Hv) as (? & Hlr & Hlw)
    | |- context [write_loop ?x ?y ?z] => destruct (write_loop_ok m x y z Hm Hv) as (? & Hlr & Hlw)
    | |- context [write_rest ?x ?y ?z] => destruct (write_rest_ok m x y z Hm Hv) as (? & Hlr & Hlw)
    | |- context [write_wait ?x] => destruct (write_wait_ok m x) as (? & Hlr & Hlw)
    | |- context [write_unmark ?x] => destruct (write_unmark_ok m x Hm Hv) as (? & Hlr & Hlw)
    end; try done; rewrite ?Hlr, ?Hlw.
  all: cbn [pc_ok reads writes Z.b2z]; try done; try lia.
  all: try (unfold wrap; rewrite Z.mod_small by (unfold WRITE_LOCKED, U32, m in *; lia); lia).
  all: unfold value_ok, WRITE_LOCKED, m in *; Z.to_euclidean_division_equations; lia.
Qed.

(** C33. The writer-preferring lock: however the operations of any number of threads
    (fewer than 2^31 - 3) are interleaved and whatever [wait] answers, a writer
    excludes all readers and all other writers; while there is none, half of the
    state is the number of readers; no access panics or overflows. *)
Theorem writer_preference_exclusion (n : nat) l ts :
  2 * Z.of_nat n + 4 < WRITE_LOCKED →
  rtc (threads_step start step) (mkRwLock UNLOCKED 0, replicate n Idle) (l, ts) →
  tally writes ts ≤ 1 ∧ (tally writes ts = 1 → tally reads ts = 0 ∧ state l = WRITE_LOCKED) ∧
  (tally writes ts = 0 → state l / 2 = tally reads ts) ∧
  (∀ t answer, t ∈ ts → safe (step l answer t)).
Proof.
  intros Hn Hrun. assert (inv n l ts) as Hi.
  { apply (threads_invariant start step (inv n)) in Hrun; [done|..]; cbn.
    - intros s ts1 t t' ts2 Hi Hst. eapply wp_inv_update; [exact Hi|by destruct Hst|].
      pose proof (inv_state _ _ _ Hi). destruct Hst; cbn [reads writes Z.b2z]; lia.
    - intros s ts1 t ts2 answer s' t' Hi Hst.
      destruct (wp_step_inv n s ts1 t ts2 answer Hi Hn) as (s2 & t2 & Hst2 & Hi2).
      rewrite Hst in Hst2. by injection Hst2 as <- <-.
    - constructor; [by rewrite length_replicate| |right].
      + by apply Forall_replicate.
      + unfold UNLOCKED. cbn. clear. induction n; cbn in *; lia. }
  split_and!.
  - pose proof (inv_state _ _ _ Hi). lia.
  - pose proof (inv_state _ _ _ Hi). lia.
  - intros Hw. destruct (inv_state _ _ _ Hi) as [(_ & ? & _)|[Hs _]]; [lia|].
    Z.to_euclidean_division_equations. lia.
  - intros t answer (ts1 & ts2 & ->)%list_elem_of_split.
    destruct (wp_step_inv n _ ts1 t ts2 answer Hi Hn) as (s2 & t2 & Hst2 & _). by eexists.
Qed.

(** ** A lost wake-up

    A platform whose [wait] sleeps as long as the integer has the expected
    value: a sleeping thread makes no step. *)
Definition sleeping_step (l : RwLock) (answer : bool) (t : pc) : outcome (RwLock * pc) :=
  match t with
  | ReadWait s _ => if state l =? s then Undefined else step l answer t
  | WriteWait counter _ => if writer_wake_counter l =? counter then Undefined else step l answer t
  | _ => step l answer t
  end.

(** Other threads read, or try to write. *)
Inductive start_no_write_lock : pc → pc → Prop :=
| other_start t t' : start t t' → t' ≠ WriteLoad 0 true → start_no_write_lock t t'.

Definition stuck (t : pc) : Prop :=
  match t with
  | Idle | ReadTryLoad | ReadLoad _ _ | ReadWait _ _ | WriteTry => True
  | _ => False
  end.

(** The first thread sleeps, the others cannot get the lock. *)
Definition all_stuck (l : RwLock) (ts : list pc) : Prop :=
  l = mkRwLock 1 1 ∧ ∃ us, ts = WriteWait 1 SPIN_REPETITIONS :: us ∧ Forall stuck us.

Lemma stuck_access answer t l' t' :
  stuck t → sleeping_step (mkRwLock 1 1) answer t = Return (l', t') → l' = mkRwLock 1 1 ∧ stuck t'.
Proof.
  intros Ht Hst. destruct t; try done; cbn in Ht, Hst; try (by injection Hst as <- <-).
  - injection Hst as <- <-. split; [done|]. unfold read_loop. cbn.
    destruct keep_running; [|done]. by destruct (_ <? _).
  - case_match; [done|]. by injection Hst as <- <-.
Qed.

Lemma stuck_forever c c' :
  all_stuck c.1 c.2 → rtc (threads_step start_no_write_lock sleeping_step) c c' → all_stuck c'.1 c'.2.
Proof.
  apply threads_invariant; clear.
  - intros s ts1 t t' ts2 (-> & us & Hts & HF) Hst. split; [done|].
    destruct ts1 as [|w ts1]; injection Hts as -> <-.
    + inversion Hst as [? ? Hs]. inversion Hs.
    + eexists. split; [done|]. rewrite Forall_app, Forall_cons in HF |- *. destruct HF as (? & Ht & ?).
      split_and!; try done. destruct Hst as [t t' Hst Hne]. by destruct Hst.
  - intros s ts1 t ts2 answer s' t' (-> & us & Hts & HF) Hst.
    destruct ts1 as [|w ts1]; injection Hts as -> <-; [done|].
    rewrite Forall_app, Forall_cons in HF. destruct HF as (? & Ht & ?).
    destruct (stuck_access _ _ _ _ Ht Hst) as [-> Ht']. split; [done|]. eexists. split; [done|].
    by rewrite Forall_app, Forall_cons.
Qed.

Lemma stuck_holds_nothing us : Forall stuck us → tally reads us = 0 ∧ tally writes us = 0.
Proof. induction 1 as [|t us Ht _ IH]; [done|]. by destruct t. Qed.

(** The reader (thread 1) gets the lock; the writer (thread 0) marks it and spins
    until it decides to sleep. *)
Definition until_reader_unlocks : list (nat * bool) :=
  [(1%nat, true); (1%nat, true)] ++ replicate (Z.to_nat (SPIN_REPETITIONS + 2)) (0%nat, true).

(** The reader unlocks; the writer loads the counter. *)
Definition until_writer_sleeps : list (nat * bool) :=
  replicate 4 (1%nat, true) ++ [(0%nat, true)].

(** C34. The writer loads [writer_wake_counter] only after it has seen the lock taken,
    so the last reader can unlock, increment the counter and wake nobody in
    between; the writer then sleeps on the new value. Two threads and any number
    [k] of others reach a state in which nobody holds the lock, and from which, as long as
    nobody calls [write_lock] again and no wait returns without a reason, no reader and no
    [try_write_lock] ever gets it: the mark of the sleeping writer keeps them out. *)
Theorem writer_wakeup_lost (k : nat) :
  ∃ l ts, rtc (threads_step start sleeping_step)
            (mkRwLock UNLOCKED 0, Idle :: Idle :: replicate k Idle) (l, ts) ∧
    tally reads ts = 0 ∧ tally writes ts = 0 ∧ WriteWait 1 SPIN_REPETITIONS ∈ ts ∧
    ∀ l' ts', rtc (threads_step start_no_write_lock sleeping_step) (l, ts) (l', ts') →
      l' = l ∧ tally reads ts' = 0 ∧ tally writes ts' = 0 ∧ WriteWait 1 SPIN_REPETITIONS ∈ ts'.
Proof.
  set (us := replicate k Idle).
  assert (run sleeping_step until_reader_unlocks (mkRwLock UNLOCKED 0) [WriteLoad 0 true; ReadLoad 0 true] =
    Return (mkRwLock 3 0, [WriteCounter SPIN_REPETITIONS; ReadHeld])) as H1 by (vm_compute; reflexivity).
  assert (run sleeping_step until_writer_sleeps (mkRwLock 3 0) [WriteCounter SPIN_REPETITIONS; UnlockLoad false] =
    Return (mkRwLock 1 1, [WriteWait 1 SPIN_REPETITIONS; Idle])) as H2 by (vm_compute; reflexivity).
  apply (run_app _ _ _ _ us), (run_steps start) in H1, H2. rename H1 into R1, H2 into R2.
  assert (Forall stuck (Idle :: us)) as HF by (constructor; [done|by apply Forall_replicate]).
  exists (mkRwLock 1 1), ([WriteWait 1 SPIN_REPETITIONS; Idle] ++ us). split_and!.
  - eapply rtc_l; [apply (thread_start _ _ _ [] Idle (WriteLoad 0 true)); constructor|].
    eapply rtc_l; [apply (thread_start _ _ _ [WriteLoad 0 true] Idle (ReadLoad 0 true)); constructor|].
    etransitivity; [exact R1|].
    eapply rtc_l; [apply (thread_start _ _ _ [WriteCounter SPIN_REPETITIONS] ReadHeld (UnlockLoad false)); constructor|].
    exact R2.
  - cbn. by destruct (stuck_holds_nothing _ HF).
  - cbn. by destruct (stuck_holds_nothing _ HF).
  - left.
  - intros l' ts' Hrun. apply stuck_forever in Hrun; [|by split; [|exists (Idle :: us)]].
    destruct Hrun as (Hl & vs & Hvs & HF'). cbn in Hl, Hvs. subst. destruct (stuck_holds_nothing _ HF').
    split_and!; try done. left.
Qed.
End Lock.
End WriterPreference.

(** ** Witnesses *)

(** Two threads on a mutex, one of which has locked it. *)
Lemma mutex_exclusion_witness : tally Mutex.holds [Mutex.Locked; Mutex.LockTry] ≤ 1.
Proof.
  apply (Mutex.mutex_exclusion 2 1 [Mutex.Locked; Mutex.LockTry]).
  eapply rtc_l; [apply (thread_start _ _ _ [] Mutex.Idle Mutex.LockTry [Mutex.Idle]); constructor|].
  eapply rtc_l; [apply (thread_start _ _ _ [Mutex.LockTry] Mutex.Idle Mutex.LockTry []); constructor|].
  by apply (run_steps _ _ [(0%nat, true)]).
Defined.

(** A reader holds the lock, a writer tries. *)
Lemma reader_preference_exclusion_witness :
  tally ReaderPreference.writes [ReaderPreference.ReadHeld; ReaderPreference.WriteTry] ≤ 1.
Proof.
  apply (ReaderPreference.reader_preference_exclusion (P := true) 2 1
    [ReaderPreference.ReadHeld; ReaderPreference.WriteTry]); [done|].
  eapply rtc_l; [apply (thread_start _ _ _ [] ReaderPreference.Idle (ReaderPreference.ReadLoad 0 true)
    [ReaderPreference.Idle]); constructor|].
  eapply rtc_l; [apply (thread_start _ _ _ [ReaderPreference.ReadLoad 0 true] ReaderPreference.Idle
    ReaderPreference.WriteTry []); constructor|].
  by apply (run_steps _ _ [(0%nat, true); (0%nat, true)]).
Defined.

Lemma writer_preference_exclusion_witness :
  tally WriterPreference.writes [WriterPreference.WriteHeld; WriterPreference.Idle] ≤ 1.
Proof.
  apply (WriterPreference.writer_preference_exclusion (P := true) 2 (WriterPreference.mkRwLock WRITE_LOCKED 0)
    [WriterPreference.WriteHeld; WriterPreference.Idle]); [done|].
  eapply rtc_l; [apply (thread_start _ _ _ [] WriterPreference.Idle WriterPreference.WriteTry
    [WriterPreference.Idle]); constructor|].
  by apply (run_steps _ _ [(0%nat, true)]).
Defined.
