(* ===== verification/WinMutex.v ===== *)
(** * elkodon_pal/posix/src/windows/pthread.rs: mutexes

    The mutexes of POSIX on a platform that does not have them: the mutex of
    [RwLock.Mutex] with the type, the owner and the states of a robust mutex around it.

    Threads are state machines whose steps are the accesses to the owner, to the flags and
    to the inner mutex; any number of them are interleaved. The theorems: normal and
    error-checking mutexes exclude, and an error-checking one refuses every call its
    caller must not make; runs in which a recursive and a robust mutex have two owners. *)

From S2P Require Import Prelude RwLock.

Definition PTHREAD_MUTEX_NORMAL : Z := 1.
Definition PTHREAD_MUTEX_RECURSIVE : Z := 2.
Definition PTHREAD_MUTEX_ERRORCHECK : Z := 4.
Definition PTHREAD_MUTEX_STALLED : Z := 8.
Definition PTHREAD_MUTEX_ROBUST : Z := 16.

Inductive Errno := ESUCCES | EDEADLK | EAGAIN | EBUSY | ETIMEDOUT | EOWNERDEAD | ENOTRECOVERABLE.

#[export] Instance errno_eq_dec : EqDecision Errno.
Proof. solve_decision. Defined.

Record pthread_mutexattr_t := mkAttr { a_robustness : Z; a_mtype : Z }.

(** [mtx]: the integer of the inner mutex. *)
Record pthread_mutex_t := mkMutex {
  mtx : Z;
  track_thread_id : bool;
  mtype : Z;
  current_owner : Z;
  inconsistent_state : bool;
  unrecoverable_state : bool
}.

Definition set_mtx (m : pthread_mutex_t) (v : Z) :=
  mkMutex v (track_thread_id m) (mtype m) (current_owner m) (inconsistent_state m) (unrecoverable_state m).
Definition set_owner (m : pthread_mutex_t) (v : Z) :=
  mkMutex (mtx m) (track_thread_id m) (mtype m) v (inconsistent_state m) (unrecoverable_state m).
Definition set_inconsistent (m : pthread_mutex_t) (b : bool) :=
  mkMutex (mtx m) (track_thread_id m) (mtype m) (current_owner m) b (unrecoverable_state m).
Definition set_unrecoverable (m : pthread_mutex_t) (b : bool) :=
  mkMutex (mtx m) (track_thread_id m) (mtype m) (current_owner m) (inconsistent_state m) b.

Definition pthread_mutexattr_settype (a : pthread_mutexattr_t) (t : Z) := mkAttr (a_robustness a) t.
Definition pthread_mutexattr_setrobust (a : pthread_mutexattr_t) (r : Z) := mkAttr r (a_mtype a).

Definition pthread_mutex_init (a : pthread_mutexattr_t) : pthread_mutex_t :=
  mkMutex 0
    ((a_mtype a =? PTHREAD_MUTEX_ERRORCHECK) || (a_mtype a =? PTHREAD_MUTEX_RECURSIVE) || (a_robustness a =? PTHREAD_MUTEX_ROBUST))
    (Z.lor (a_mtype a) (a_robustness a)) 0 false false.

Definition pthread_mutex_consistent (m : pthread_mutex_t) : pthread_mutex_t := set_inconsistent m false.

(** [mtype & flag != 0] *)
Definition has_flag (m : pthread_mutex_t) (flag : Z) : bool := negb (Z.land (mtype m) flag =? 0).

Definition owner_and_ref_count (v : Z) : Z * Z := (Z.shiftr v 32, Z.shiftr (wrap USIZE (Z.shiftl v 32)) 32).
Definition owner_word (thread_id : Z) : Z := Z.shiftl thread_id 32.

(** ** Threads *)

Inductive op := LockOp | TimedLockOp | TryLockOp.

(** [Ready e]: between two calls, the last of which returned [e]. [prepare_lock]:
    [LoadOwner] to [Relock]; the call of the inner mutex: [Inner], [SetOwner];
    [pthread_mutex_unlock]: the rest. *)
Inductive pc :=
| Ready (e : Errno)
| CallLock (o : op)
| LoadOwner (o : op)
| Recoverable (o : op) (current : Z)
| ExitCode (o : op) (current : Z)
| TakeOver
| SetInconsistent
| Relock (o : op) (current ref_count : Z)
| Inner (o : op) (t : Mutex.pc)
| SetOwner
| CallUnlock
| UnlockOwner
| UnlockState
| UnlockLoad
| UnlockCas (current : Z)
| UnlockReset
| UnlockInner (t : Mutex.pc).

(** [depth]: how often the thread has locked the mutex and not unlocked it again; the code
    does not know. *)
Record thread := mkThread { tid : Z; depth : nat; at_ : pc }.

Section Steps.
Context `{P : Profile}.

Definition start_inner (o : op) : pc := Inner o (match o with TryLockOp => Mutex.TryLock | _ => Mutex.LockTry end).

(** What the calls do with an error of [prepare_lock]: a timed lock goes on after
    [EDEADLK], 36 in the source. *)
Definition prepared (o : op) (e : Errno) : pc :=
  match o, e with
  | TimedLockOp, EDEADLK => start_inner o
  | _, _ => Ready e
  end.

(** From [if owner == thread_id] on. *)
Definition check_owner (m : pthread_mutex_t) (me : Z) (o : op) (current : Z) : pc :=
  let '(owner, ref_count) := owner_and_ref_count current in
  if owner =? me then
    if has_flag m PTHREAD_MUTEX_ERRORCHECK then prepared o EDEADLK else Relock o current ref_count
  else start_inner o.

(** [answer]: whether GetExitCodeThread says that the owner is still active. *)
Definition step (m : pthread_mutex_t) (answer : bool) (t : thread) : outcome (pthread_mutex_t * thread) :=
  let me := tid t in
  let go m p := Return (m, mkThread me (depth t) p) in
  let locked m e := Return (m, mkThread me (S (depth t)) (Ready e)) in
  match at_ t with
  | Ready _ => Return (m, t)
  | CallLock o => go m (if track_thread_id m then LoadOwner o else start_inner o)
  | LoadOwner o =>
      let current := current_owner m in
      go m (if has_flag m PTHREAD_MUTEX_ROBUST then Recoverable o current else check_owner m me o current)
  | Recoverable o current =>
      go m (if unrecoverable_state m then prepared o ENOTRECOVERABLE
            else if negb ((owner_and_ref_count current).1 =? 0) then ExitCode o current
            else check_owner m me o current)
  | ExitCode o current => go m (if answer then check_owner m me o current else TakeOver)
  | TakeOver => go (set_owner m (owner_word me)) SetInconsistent
  | SetInconsistent => locked (set_inconsistent m true) EOWNERDEAD
  | Relock o current ref_count =>
      if ref_count =? U32 - 1 then go m (prepared o EAGAIN)
      else if has_flag m PTHREAD_MUTEX_RECURSIVE then
        let! next := uadd current 1 in
        let '(cell, r) := compare_exchange (current_owner m) current next in
        let m := set_owner m cell in
        match r with
        | Ok _ => locked m ESUCCES
        | Err v =>
            if negb ((owner_and_ref_count v).1 =? me) then go m (start_inner o) else go m (Relock o v ref_count)
        end
      else if negb ((owner_and_ref_count current).1 =? me) then go m (start_inner o) else go m (Relock o current ref_count)
  | Inner o p =>
      let! '(state, p) := Mutex.step (mtx m) (match o with LockOp => true | _ => false end) p in
      let m := set_mtx m state in
      match o, p with
      | _, Mutex.Locked | LockOp, Mutex.Idle => if track_thread_id m then go m SetOwner else locked m ESUCCES
      | TimedLockOp, Mutex.Idle => go m (Ready ETIMEDOUT)
      | TryLockOp, Mutex.Idle => go m (Ready EBUSY)
      | _, p => go m (Inner o p)
      end
  | SetOwner => locked (set_owner m (owner_word me)) ESUCCES
  | CallUnlock => go m (if has_flag m PTHREAD_MUTEX_ERRORCHECK then UnlockOwner else UnlockState)
  | UnlockOwner =>
      go m (if negb (me =? (owner_and_ref_count (current_owner m)).1) then Ready EBUSY else UnlockState)
  | UnlockState =>
      let m := if inconsistent_state m then set_unrecoverable m true else m in
      go m (if has_flag m PTHREAD_MUTEX_RECURSIVE then UnlockLoad else UnlockReset)
  | UnlockLoad => go m (UnlockCas (current_owner m))
  | UnlockCas current =>
      let new_value := if (owner_and_ref_count current).2 =? 0 then 0 else current - 1 in
      let '(cell, r) := compare_exchange (current_owner m) current new_value in
      let m := set_owner m cell in
      match r with
      | Ok _ => go m (UnlockInner Mutex.UnlockStore)
      | Err v => go m (UnlockCas v)
      end
  | UnlockReset => go (set_owner m 0) (UnlockInner Mutex.UnlockStore)
  | UnlockInner p =>
      let! '(state, p) := Mutex.step (mtx m) answer p in
      let m := set_mtx m state in
      match p with
      | Mutex.Idle => go m (Ready ESUCCES)
      | p => Return (m, mkThread me (pred (depth t)) (UnlockInner p))
      end
  end.

(** The calls: every lock function at any time; unlocking at any time, too, where the
    mutex checks it ([any]), otherwise only by a thread that has locked it. *)
Inductive calls (any : bool) : thread → thread → Prop :=
| call_lock me d e o : calls any (mkThread me d (Ready e)) (mkThread me d (CallLock o))
| call_unlock me d e : any = true ∨ (0 < d)%nat → calls any (mkThread me d (Ready e)) (mkThread me d CallUnlock).
End Steps.

(** ** Normal and error-checking mutexes *)

Section Exclusion.
Context `{P : Profile}.
(** Whether the mutex checks errors. *)
Context (ec : bool).

(** As [pthread_mutex_init] leaves it. *)
Definition new_mutex : pthread_mutex_t :=
  pthread_mutex_init (mkAttr PTHREAD_MUTEX_STALLED (if ec then PTHREAD_MUTEX_ERRORCHECK else PTHREAD_MUTEX_NORMAL)).

Definition holding (t : thread) : bool :=
  match at_ t with SetOwner => true | _ => negb (depth t =? 0)%nat end.

(** The owner that the mutex names. *)
Definition registered (t : thread) : Prop := depth t = 1%nat ∧ at_ t ≠ UnlockInner Mutex.UnlockStore.

Definition inner_ok (o : op) (p : Mutex.pc) : Prop :=
  match p with
  | Mutex.TryLock => o = TryLockOp
  | Mutex.LockTry | Mutex.LockSpin _ | Mutex.LockWait => o ≠ TryLockOp
  | Mutex.LockCas keep_running => o ≠ TryLockOp ∧ (o = LockOp → keep_running = true)
  | _ => False
  end.

Definition thread_ok (t : thread) : Prop :=
  (depth t ≤ 1)%nat ∧
  match at_ t with
  | Ready _ | CallLock _ => True
  | CallUnlock => ec = true ∨ depth t = 1%nat
  | LoadOwner _ | UnlockOwner => ec = true
  | Inner o p => inner_ok o p
  | SetOwner => ec = true ∧ depth t = 0%nat
  | UnlockState | UnlockReset | UnlockInner Mutex.UnlockStore => depth t = 1%nat
  | UnlockInner Mutex.UnlockWake => depth t = 0%nat
  | _ => False
  end.

Record mutex_inv (tids : list Z) (m : pthread_mutex_t) (ts : list thread) : Prop := {
  inv_type : mtype m = mtype new_mutex ∧ track_thread_id m = ec ∧ inconsistent_state m = false;
  inv_tids : tid <$> ts = tids;
  inv_threads : Forall thread_ok ts;
  inv_mtx : (mtx m = 0 ∨ mtx m = 1) ∧ tally holding ts = mtx m;
  inv_owner : ∃ k, 0 ≤ k < U32 ∧ current_owner m = owner_word k ∧ (ec = true → ∀ t, t ∈ ts → k = tid t ↔ registered t)
}.

Lemma owner_word_split k : 0 ≤ k < U32 → owner_and_ref_count (owner_word k) = (k, 0).
Proof.
  intros Hk. unfold owner_and_ref_count, owner_word, wrap. rewrite !Z.shiftl_mul_pow2, !Z.shiftr_div_pow2 by lia.
  rewrite Z.div_mul by lia. f_equal. replace (k * 2 ^ 32 * 2 ^ 32) with (k * USIZE) by (unfold USIZE; lia).
  by rewrite Z.mod_mul.
Qed.

(** Another thread holds nothing while one does. *)
Lemma others_do_not_hold ts1 t ts2 u :
  tally holding (ts1 ++ t :: ts2) ≤ 1 → holding t = true → u ∈ ts1 ++ ts2 → holding u = false.
Proof.
  intros Ht Hh Hu. rewrite tally_app in Ht. cbn [tally] in Ht. rewrite Hh in Ht. cbn in Ht.
  assert (∀ l, u ∈ l → holding u = true → 1 ≤ tally holding l) as Hin.
  { intros l [l1 [l2 ->]]%list_elem_of_split Hu'. rewrite tally_app. cbn [tally]. rewrite Hu'. cbn.
    pose proof (tally_bounds holding l1). pose proof (tally_bounds holding l2). lia. }
  destruct (holding u) eqn:E; [|done]. pose proof (tally_bounds holding ts1). pose proof (tally_bounds holding ts2).
  apply elem_of_app in Hu as [Hu|Hu]; specialize (Hin _ Hu eq_refl); lia.
Qed.

Lemma registered_holding t : registered t → holding t = true.
Proof. intros [Hd _]. unfold holding. rewrite Hd. by destruct (at_ t). Qed.

Lemma tid_not_twice ts1 ts2 u : NoDup ((tid <$> ts1) ++ tid u :: (tid <$> ts2)) → u ∈ ts1 ++ ts2 → False.
Proof.
  intros [_ [Hd [Hn _]%NoDup_cons]]%NoDup_app [Hu|Hu]%elem_of_app.
  - apply (Hd (tid u)); [by apply list_elem_of_fmap_2|left].
  - apply Hn. by apply list_elem_of_fmap_2.
Qed.

(** A step of one thread: what it has to do to the integer and to the owner. *)
Lemma mutex_inv_update tids m ts1 t ts2 m' t' :
  mutex_inv tids m (ts1 ++ t :: ts2) → 
  mtype m' = mtype m → track_thread_id m' = track_thread_id m → inconsistent_state m' = inconsistent_state m →
  tid t' = tid t → thread_ok t' → mtx m' = mtx m - Z.b2z (holding t) + Z.b2z (holding t') →
  (∃ k, 0 ≤ k < U32 ∧ current_owner m' = owner_word k ∧
    (ec = true → (k = tid t ↔ registered t') ∧ ∀ u, u ∈ ts1 ++ ts2 → k = tid u ↔ registered u)) →
  (mtx m' = 0 ∨ mtx m' = 1) → mutex_inv tids m' (ts1 ++ t' :: ts2).
Proof.
  intros [Hty Hti Hth [_ Hm] _] H1 H2 H3 Htid Hok Hmtx (k & Hk & Hown & Hreg) Hb. constructor.
  - by rewrite H1, H2, H3.
  - rewrite <- Hti, !fmap_app. cbn. by rewrite Htid.
  - rewrite Forall_app, Forall_cons in Hth |- *. by destruct Hth as (? & _ & ?).
  - split; [done|]. rewrite tally_app in Hm |- *. cbn [tally] in *. lia.
  - exists k. split; [done|]. split; [done|]. intros He u Hu. destruct (Hreg He) as [Ht Hothers].
    apply elem_of_app in Hu as [Hu|[->|Hu]%elem_of_cons]; [apply Hothers, elem_of_app; by left|by rewrite Htid|apply Hothers, elem_of_app; by right].
Qed.

(** A step that leaves the owner alone. *)
Lemma mutex_inv_keep tids m ts1 t ts2 v d p :
  mutex_inv tids m (ts1 ++ t :: ts2) → let t' := mkThread (tid t) d p in
  thread_ok t' → (registered t ↔ registered t') →
  v = mtx m - Z.b2z (holding t) + Z.b2z (holding t') → (v = 0 ∨ v = 1) → mutex_inv tids (set_mtx m v) (ts1 ++ t' :: ts2).
Proof.
  intros Hi t' Hok Hreg Hv Hb. eapply mutex_inv_update; try done.
  destruct (inv_owner _ _ _ Hi) as (k & Hk & Hown & Hall). exists k. split; [done|]. split; [done|]. intros He. split.
  - rewrite (Hall He t) by (apply elem_of_app; right; left). done.
  - intros u Hu. apply (Hall He). rewrite elem_of_app, elem_of_cons. apply elem_of_app in Hu. tauto.
Qed.

Lemma mutex_inv_stay tids m ts1 t ts2 p :
  mutex_inv tids m (ts1 ++ t :: ts2) → let t' := mkThread (tid t) (depth t) p in
  thread_ok t' → (registered t ↔ registered t') → holding t = holding t' → mutex_inv tids m (ts1 ++ t' :: ts2).
Proof.
  intros Hi t' Hok Hreg Hh. replace m with (set_mtx m (mtx m)) by (by destruct m).
  apply mutex_inv_keep; try done; [rewrite Hh; subst t'; lia|by destruct (inv_mtx _ _ _ Hi)].
Qed.

Lemma has_flag_errorcheck tids m ts : mutex_inv tids m ts → has_flag m PTHREAD_MUTEX_ERRORCHECK = ec.
Proof. intros [(Ht & _) _ _ _ _]. unfold has_flag. rewrite Ht. unfold new_mutex. by destruct ec. Qed.
Lemma has_flag_robust tids m ts : mutex_inv tids m ts → has_flag m PTHREAD_MUTEX_ROBUST = false.
Proof. intros [(Ht & _) _ _ _ _]. unfold has_flag. rewrite Ht. unfold new_mutex. by destruct ec. Qed.
Lemma has_flag_recursive tids m ts : mutex_inv tids m ts → has_flag m PTHREAD_MUTEX_RECURSIVE = false.
Proof. intros [(Ht & _) _ _ _ _]. unfold has_flag. rewrite Ht. unfold new_mutex. by destruct ec. Qed.

(** The owner of the mutex and the threads. *)
Lemma owner_is_me tids m ts1 t ts2 :
  mutex_inv tids m (ts1 ++ t :: ts2) → ec = true →
  ∃ k, owner_and_ref_count (current_owner m) = (k, 0) ∧ (k = tid t ↔ registered t).
Proof.
  intros Hi He. destruct (inv_owner _ _ _ Hi) as (k & Hk & Hown & Hall). exists k. rewrite Hown, owner_word_split by done.
  split; [done|]. apply Hall; [done|]. apply elem_of_app. right. left.
Qed.

Lemma mutex_step_returns state answer p : ∃ state' p', Mutex.step state answer p = Return (state', p').
Proof. destruct p; cbn [Mutex.step]; unfold compare_exchange; try destruct (state =? 0); by do 2 eexists. Qed.

(** The inner mutex: it is taken only when it is free. *)
Lemma inner_step m o p state p' :
  inner_ok o p → mtx m = 0 ∨ mtx m = 1 → Mutex.step (mtx m) (match o with LockOp => true | _ => false end) p = Return (state, p') →
  (p' = Mutex.Locked ∧ mtx m = 0 ∧ state = 1) ∨ (p' = Mutex.Idle ∧ o ≠ LockOp ∧ state = mtx m) ∨ (inner_ok o p' ∧ state = mtx m).
Proof.
  intros Hok Hm Hst. destruct p; try done; cbn [Mutex.step inner_ok] in *; unfold compare_exchange in Hst.
  all: try (destruct (Z.eqb_spec (mtx m) 0)); injection Hst as <- <-; try (left; split_and!; (done || lia)); right.
  - left. split; [done|]. by rewrite Hok.
  - right. done.
  - case_match; right; done.
  - right. split; [|done]. destruct o; done.
  - right. split; [|done]. destruct o; done.
  - destruct Hok as [H1 H2]. destruct keep_running; [right; done|]. left. split; [done|]. split; [|done].
    intros ->. by specialize (H2 eq_refl).
Qed.

Lemma mutex_step_inv tids m ts1 t ts2 answer :
  NoDup tids → Forall (λ k, 0 < k < U32) tids → mutex_inv tids m (ts1 ++ t :: ts2) →
  ∃ m' t', step m answer t = Return (m', t') ∧ mutex_inv tids m' (ts1 ++ t' :: ts2).
Proof.
  intros Hnd Htids Hi. pose proof Hi as [(Hty & Htr & Hinc) Hti Hth [Hb Hsum] Hown].
  apply Forall_app in Hth as [_ [Hok _]%Forall_cons]. destruct t as [me d p]. unfold thread_ok in Hok. cbn [depth at_] in Hok.
  destruct Hok as [Hd Hok].
  assert (∀ q, thread_ok (mkThread me d q) → (registered (mkThread me d p) ↔ registered (mkThread me d q)) →
    holding (mkThread me d p) = holding (mkThread me d q) → mutex_inv tids m (ts1 ++ mkThread me d q :: ts2)) as Hstay
    by (intros q; by apply (mutex_inv_stay tids m ts1 (mkThread me d p) ts2 q)).
  unfold step. cbn [tid depth at_]. rewrite ?(has_flag_errorcheck _ _ _ Hi), ?(has_flag_robust _ _ _ Hi), ?(has_flag_recursive _ _ _ Hi), ?Htr.
  assert (∀ q q', q ≠ UnlockInner Mutex.UnlockStore → q' ≠ UnlockInner Mutex.UnlockStore →
    registered (mkThread me d q) ↔ registered (mkThread me d q')) as Hreg by (intros q q' ? ?; unfold registered; cbn; tauto).
  destruct p; try done; cbn [at_].
  - by do 2 eexists.
  - do 2 eexists. split; [reflexivity|]. apply Hstay; [|apply Hreg; by destruct ec|by destruct ec].
    split; [done|]. cbn. destruct ec eqn:He; cbn; rewrite ?He; [done|]. by destruct o.
  - destruct (owner_is_me _ _ _ _ _ Hi Hok) as (k & Hk & Hkr). do 2 eexists. split; [reflexivity|].
    assert (check_owner m me o (current_owner m) = start_inner o ∨ check_owner m me o (current_owner m) = Ready EDEADLK) as Hc.
    { unfold check_owner. rewrite Hk, (has_flag_errorcheck _ _ _ Hi), Hok. destruct (_ =? _); [|by left]. destruct o; [by right|by left|by right]. }
    apply Hstay; [| |by destruct Hc as [-> | ->]].
    + split; [done|]. cbn [at_]. destruct Hc as [-> | ->]; [|done]. by destruct o.
    + apply Hreg; [done|]. by destruct Hc as [-> | ->].
  - destruct (mutex_step_returns (mtx m) (match o with LockOp => true | _ => false end) t) as (v & p' & Hst).
    rewrite Hst. cbn [obind]. replace (track_thread_id (set_mtx m v)) with ec by (by destruct m).
    destruct (inner_step m o t v p' Hok Hb Hst) as [(-> & Hm0 & ->)|[(-> & Ho & ->)|[Hin ->]]].
    + assert (d = 0%nat) as ->.
      { destruct d as [|d]; [done|]. rewrite tally_app in Hsum. cbn in Hsum. pose proof (tally_bounds holding ts1). pose proof (tally_bounds holding ts2). lia. }
      destruct ec eqn:He.
      * do 2 eexists. split; [by destruct o|]. apply (mutex_inv_keep tids m ts1 _ ts2 1 0 SetOwner Hi); cbn; [by split; [cbn; lia|]|by apply Hreg|lia|by right].
      * do 2 eexists. split; [by destruct o|]. apply (mutex_inv_update tids m ts1 _ ts2 (set_mtx m 1) (mkThread me 1 (Ready ESUCCES)) Hi); cbn; try done.
        -- lia.
        -- destruct Hown as (k & Hk & Hown & _). exists k. split; [done|]. split; [done|]. by rewrite He.
        -- by right.
    + eexists _, (mkThread me d (Ready (match o with TimedLockOp => ETIMEDOUT | _ => EBUSY end))). split; [by destruct o|].
      apply (mutex_inv_keep tids m ts1 _ ts2 (mtx m) d (Ready (match o with TimedLockOp => ETIMEDOUT | _ => EBUSY end)) Hi); cbn; [by split|by apply Hreg|unfold holding; cbn; lia|done].
    + eexists _, (mkThread me d (Inner o p')). split; [by destruct o, p'|].
      apply (mutex_inv_keep tids m ts1 _ ts2 (mtx m) d (Inner o p') Hi); cbn; [by split|by apply Hreg|unfold holding; cbn; lia|done].
  - destruct Hok as [He ->]. do 2 eexists. split; [reflexivity|]. apply (mutex_inv_update tids m ts1 _ ts2 _ _ Hi); cbn; try done; [lia|].
    assert (me ∈ tids) as Hme by (rewrite <- Hti, fmap_app; apply elem_of_app; right; left).
    exists me. rewrite Forall_forall in Htids. specialize (Htids me Hme). split; [lia|]. split; [done|]. intros _. split.
    + split; [|done]. intros _. by split.
    + intros u Hu. assert (holding u = false) as Hnh by (eapply others_do_not_hold; [rewrite Hsum; lia|reflexivity|done]).
      split; [|by intros Hr%registered_holding; rewrite Hr in Hnh]. intros ->. exfalso.
      rewrite <- Hti, fmap_app in Hnd. cbn in Hnd. by eapply tid_not_twice.
  - do 2 eexists. split; [reflexivity|]. apply Hstay; [|apply Hreg; by destruct ec|by destruct ec].
    split; [done|]. cbn. destruct ec eqn:He; [done|]. destruct Hok; done.
  - destruct (owner_is_me _ _ _ _ _ Hi Hok) as (k & Hk & Hkr). do 2 eexists. split; [reflexivity|]. rewrite Hk. cbn [fst].
    apply Hstay; [|apply Hreg; by destruct (me =? k)|by destruct (me =? k)].
    split; [done|]. cbn. destruct (Z.eqb_spec me k) as [->|]; cbn; [|done]. by destruct (proj1 Hkr eq_refl).
  - rewrite Hinc. cbn zeta. rewrite (has_flag_recursive _ _ _ Hi). do 2 eexists. split; [reflexivity|]. apply Hstay; [by split|by apply Hreg|done].
  - cbn in Hok. subst d. do 2 eexists. split; [reflexivity|]. apply (mutex_inv_update tids m ts1 _ ts2 _ _ Hi); cbn; try done; [lia|].
    exists 0. split; [done|]. split; [done|]. intros He. assert (me ∈ tids) as Hme by (rewrite <- Hti, fmap_app; apply elem_of_app; right; left).
    rewrite Forall_forall in Htids. pose proof (Htids me Hme). split; [split; [lia|by intros [_ []]]|].
    intros u Hu. assert (holding u = false) as Hnh by (eapply others_do_not_hold; [rewrite Hsum; lia|reflexivity|done]).
    assert (tid u ∈ tids) as Htu.
    { rewrite <- Hti. apply list_elem_of_fmap_2. rewrite elem_of_app, elem_of_cons. apply elem_of_app in Hu. tauto. }
    pose proof (Htids _ Htu). split; [lia|]. intros Hr%registered_holding. by rewrite Hr in Hnh.
  - destruct t; try done; cbn [Mutex.step obind] in *.
    + subst d. do 2 eexists. split; [reflexivity|]. cbn [pred].
      assert (mtx m = 1) as Hm1.
      { rewrite tally_app in Hsum. cbn in Hsum. pose proof (tally_bounds holding ts1). pose proof (tally_bounds holding ts2). lia. }
      apply (mutex_inv_keep tids m ts1 _ ts2 0 0 (UnlockInner Mutex.UnlockWake) Hi); cbn; [by split; [cbn; lia|]| |lia|by left].
      split; [by intros [_ []]|by intros [? _]].
    + subst d. do 2 eexists. split; [reflexivity|]. apply (mutex_inv_keep tids m ts1 _ ts2 (mtx m) 0 (Ready ESUCCES) Hi); cbn; try done; [|lia].
      split; by intros [? _].
Qed.

Lemma mutex_calls_inv tids m ts1 t t' ts2 :
  mutex_inv tids m (ts1 ++ t :: ts2) → calls ec t t' → mutex_inv tids m (ts1 ++ t' :: ts2).
Proof.
  intros Hi Hc. pose proof (inv_threads _ _ _ Hi) as [_ [[Hd _] _]%Forall_cons]%Forall_app.
  destruct Hc as [me d e o|me d e Ha]; apply (mutex_inv_stay tids m ts1 (mkThread me d (Ready e)) ts2); try done.
  - split; by intros [? _].
  - split; [done|]. cbn in *. destruct Ha as [|]; [by left|right; lia].
  - split; by intros [? _].
Qed.

Lemma mutex_reachable_inv tids m ts :
  NoDup tids → Forall (λ k, 0 < k < U32) tids →
  rtc (threads_step (calls ec) step) (new_mutex, (λ k, mkThread k 0 (Ready ESUCCES)) <$> tids) (m, ts) → mutex_inv tids m ts.
Proof.
  intros Hnd Htids Hrun. apply (threads_invariant (calls ec) step (mutex_inv tids)) in Hrun; [done| | |]; cbn.
  - intros s ts1 t t' ts2. apply mutex_calls_inv.
  - intros s ts1 t ts2 answer s' t' Hi Hst. destruct (mutex_step_inv tids s ts1 t ts2 answer Hnd Htids Hi) as (m2 & t2 & Hst' & Hi2).
    rewrite Hst in Hst'. by injection Hst' as -> ->.
  - constructor; cbn.
    + unfold new_mutex. by destruct ec.
    + rewrite <- list_fmap_compose. apply list_fmap_id.
    + apply Forall_fmap, Forall_forall. intros k _. by split; [cbn; lia|].
    + split; [by left|]. clear. induction tids as [|k l IH]; cbn in *; lia.
    + exists 0. split; [done|]. split; [done|]. intros _ t (k & -> & Hk)%list_elem_of_fmap. rewrite Forall_forall in Htids.
      specialize (Htids k Hk). cbn. split; [lia|by intros [? _]].
Qed.

(** C31. Mutual exclusion of the POSIX mutex of Windows, of the normal and of the
    error-checking kind: however the lock, timed lock, try-lock and unlock calls of any
    number of threads are interleaved, at most one thread holds the mutex, and no call
    panics. A normal mutex needs that only its holder unlocks it. An error-checking one
    does not: a thread that does not hold the mutex and unlocks it gets an error and
    changes nothing, and so does the holder that locks it again. *)
Theorem pthread_mutex_exclusion tids m ts :
  NoDup tids → Forall (λ k, 0 < k < U32) tids →
  rtc (threads_step (calls ec) step) (new_mutex, (λ k, mkThread k 0 (Ready ESUCCES)) <$> tids) (m, ts) →
  tally holding ts ≤ 1 ∧ (mtx m = 1 ↔ tally holding ts = 1) ∧
  (∀ t answer, t ∈ ts → safe (step m answer t)) ∧
  (ec = true → ∀ me answer,
    (mkThread me 0 UnlockOwner ∈ ts → step m answer (mkThread me 0 UnlockOwner) = Return (m, mkThread me 0 (Ready EBUSY))) ∧
    (∀ d o, o ≠ TimedLockOp → mkThread me (S d) (LoadOwner o) ∈ ts →
       step m answer (mkThread me (S d) (LoadOwner o)) = Return (m, mkThread me (S d) (Ready EDEADLK)))).
Proof.
  intros Hnd Htids Hrun. pose proof (mutex_reachable_inv tids m ts Hnd Htids Hrun) as Hi.
  destruct (inv_mtx _ _ _ Hi) as [Hb Hsum]. split; [lia|]. split; [lia|]. split.
  { intros t answer (ts1 & ts2 & ->)%list_elem_of_split.
    destruct (mutex_step_inv tids m ts1 t ts2 answer Hnd Htids Hi) as (m' & t' & Hst & _). by eexists. }
  intros He me answer. split.
  - intros (ts1 & ts2 & ->)%list_elem_of_split. destruct (owner_is_me _ _ _ _ _ Hi He) as (k & Hk & Hreg).
    cbn [step at_ tid depth]. rewrite Hk. cbn [fst]. destruct (Z.eqb_spec me k) as [->|]; [|done].
    by destruct (proj1 Hreg eq_refl).
  - intros d o Ho (ts1 & ts2 & ->)%list_elem_of_split. destruct (owner_is_me _ _ _ _ _ Hi He) as (k & Hk & Hreg).
    pose proof (inv_threads _ _ _ Hi) as [_ [[Hd _] _]%Forall_cons]%Forall_app. cbn in Hd.
    cbn [step at_ tid depth]. rewrite (has_flag_robust _ _ _ Hi). unfold check_owner. rewrite Hk, (has_flag_errorcheck _ _ _ Hi), He.
    destruct (Z.eqb_spec k me) as [->|Hne]; [by destruct o|]. exfalso. apply Hne, Hreg. split; [cbn; lia|done].
Qed.
End Exclusion.

(** ** What the mutex does wrong *)

Section Runs.
#[local] Instance mutex_checked : Profile := true.

Definition two_threads (p : pc) : list thread := [mkThread 7 0 p; mkThread 8 0 p].

Lemma call_and_run any m ts i t t' sched m' ts' :
  ts !! i = Some t → calls any t t' → run step sched m (<[i := t']> ts) = Return (m', ts') →
  rtc (threads_step (calls any) step) (m, ts) (m', ts').
Proof.
  intros Hi Hc Hr. eapply rtc_l; [|by eapply run_steps].
  rewrite insert_take_drop by (by eapply lookup_lt_Some). rewrite <- (take_drop_middle ts i t Hi) at 1. by apply thread_start.
Qed.

(** Unlocking a recursive mutex always unlocks the inner mutex, also when the thread has
    locked it twice: after two locks and one unlock of the first thread the second one
    has the mutex, too. *)
Theorem recursive_mutex_has_two_owners :
  ∃ m, rtc (threads_step (calls false) step)
    (pthread_mutex_init (mkAttr PTHREAD_MUTEX_STALLED PTHREAD_MUTEX_RECURSIVE), two_threads (Ready ESUCCES))
    (m, [mkThread 7 1 (Ready ESUCCES); mkThread 8 1 (Ready ESUCCES)]).
Proof.
  eexists. unfold two_threads.
  etrans; [eapply (call_and_run _ _ _ 0 _ _ (replicate 4 (0%nat, true))); [reflexivity|apply (call_lock _ _ _ _ LockOp)|vm_compute; reflexivity]|].
  etrans; [eapply (call_and_run _ _ _ 0 _ _ (replicate 3 (0%nat, true))); [reflexivity|apply (call_lock _ _ _ _ LockOp)|vm_compute; reflexivity]|].
  etrans; [eapply (call_and_run _ _ _ 0 _ _ (replicate 6 (0%nat, true))); [reflexivity|apply call_unlock; right; lia|vm_compute; reflexivity]|].
  eapply (call_and_run _ _ _ 1 _ _ (replicate 4 (1%nat, true))); [reflexivity|apply (call_lock _ _ _ _ LockOp)|vm_compute; reflexivity].
Qed.

(** The owner of a robust mutex has died. Two threads find out at the same time, and both
    take the mutex over. *)
Theorem robust_mutex_has_two_owners :
  let dead := set_owner (set_mtx (pthread_mutex_init (mkAttr PTHREAD_MUTEX_ROBUST PTHREAD_MUTEX_NORMAL)) 1) (owner_word 9) in
  ∃ m, rtc (threads_step (calls false) step) (dead, two_threads (Ready ESUCCES))
    (m, [mkThread 7 1 (Ready EOWNERDEAD); mkThread 8 1 (Ready EOWNERDEAD)]).
Proof.
  eexists. unfold two_threads.
  etrans; [eapply (call_and_run _ _ _ 0 _ _ (replicate 3 (0%nat, false))); [reflexivity|apply (call_lock _ _ _ _ LockOp)|vm_compute; reflexivity]|].
  eapply (call_and_run _ _ _ 1 _ _ (replicate 6 (1%nat, false) ++ replicate 3 (0%nat, false))); [reflexivity|apply (call_lock _ _ _ _ LockOp)|vm_compute; reflexivity].
Qed.

(** A witness of the positive result: two threads, the second of which waits for an
    error-checking mutex and then unlocks one it does not hold. *)
Lemma pthread_mutex_exclusion_witness :
  ∃ m, tally holding [mkThread 7 1 (Ready ESUCCES); mkThread 8 0 UnlockOwner] ≤ 1 ∧
    step m true (mkThread 8 0 UnlockOwner) = Return (m, mkThread 8 0 (Ready EBUSY)).
Proof.
  assert (∃ m, rtc (threads_step (calls true) step) (new_mutex true, two_threads (Ready ESUCCES))
    (m, [mkThread 7 1 (Ready ESUCCES); mkThread 8 0 UnlockOwner])) as [m Hrun].
  { eexists. unfold two_threads.
    etrans; [eapply (call_and_run _ _ _ 0 _ _ (replicate 4 (0%nat, true))); [reflexivity|apply (call_lock _ _ _ _ LockOp)|vm_compute; reflexivity]|].
    eapply (call_and_run _ _ _ 1 _ _ (replicate 1 (1%nat, true))); [reflexivity|apply call_unlock; by left|vm_compute; reflexivity]. }
  exists m. destruct (pthread_mutex_exclusion true [7; 8] m [mkThread 7 1 (Ready ESUCCES); mkThread 8 0 UnlockOwner]) as (H1 & _ & _ & H2).
  - apply (bool_decide_unpack _). vm_compute. exact I.
  - repeat constructor; unfold U32; lia.
  - exact Hrun.
  - split; [exact H1|]. apply (H2 eq_refl 8 true). right. left.
Defined.
End Runs.
