(* ===== verification/IpcHandle.v ===== *)
(** * elkodon_bb/posix/src/unmovable_ipc_handle.rs, and the constructs that live in such handles

    A mutex, a read-write mutex, a barrier or an unnamed semaphore lives in a handle that
    stays where it is, in memory that processes may share. The [reference_counter] of the
    handle says whether it is uninitialized (-1), is being set up or torn down (0), or how
    many objects refer to it. Any number of threads create, acquire with [from_ipc_handle],
    use and drop; as in [RwLock] they are state machines over the atomic accesses.

    The theorems: the object of the operating system is set up once, used only while it is
    there and torn down once, by its last user; a creation that fails without giving the
    handle back blocks it for ever. *)

From S2P Require Import Prelude RwLock.

(** [IpcHandleState] *)
Definition Uninitialized : Z := -1.
Definition PerformingInitialization : Z := 0.
Definition Initialized : Z := 1.

(** What [create] and [from_ipc_handle] fail with. *)
Inductive HandleError := HandleAlreadyInitialized | CreationFailed | HandleUninitialized | IsNotInterProcessCapable.

(** [object]: whether the object of the operating system is initialized; the calls that set
    it up, use it and tear it down are undefined in the wrong state. *)
Record Handle := mkHandle { reference_counter : Z; is_interprocess_capable : bool; object : bool }.
Definition new_handle : Handle := mkHandle Uninitialized false false.
Definition set_counter (h : Handle) (n : Z) : Handle := mkHandle n (is_interprocess_capable h) (object h).
Definition set_capable (h : Handle) (b : bool) : Handle := mkHandle (reference_counter h) b (object h).
Definition set_object (h : Handle) (b : bool) : Handle := mkHandle (reference_counter h) (is_interprocess_capable h) b.

Inductive pc :=
| Without (e : option HandleError)
| CreateCas (capable resets : bool)
| CreateCapable (capable resets : bool)
| CreateInit (resets : bool)
| CreateReset
| CreateFinish
| OpenLoad
| OpenCas (ref_count : Z)
| OpenCheck
| Holding
| Using
| DropSub (e : option HandleError)
| DropDestroy (e : option HandleError)
| DropStore (e : option HandleError).

Definition I64_END : Z := 2 ^ 63.

Section Steps.
Context `{P : Profile}.

(** [ref_count + 1] *)
Definition iadd (a b : Z) : outcome Z :=
  if a + b <? I64_END then Return (a + b) else if overflow_checks then Panic else Return (a + b - 2 * I64_END).

(** The loop of [from_ipc_handle], up to its next access. *)
Definition open_loop (ref_count : Z) : pc :=
  if ref_count <=? PerformingInitialization then Without (Some HandleUninitialized) else OpenCas ref_count.

(** [create] of a construct: [CreateCas] to [CreateFinish]; [resets]: whether it gives the
    handle back where it fails. [from_ipc_handle]: [OpenLoad] to [OpenCheck]; the object it
    has made is dropped when the handle is not inter-process capable. [drop]: [DropSub] to
    [DropStore]. [answer]: whether the operating system sets the object up, and whether a
    weak exchange fails. *)
Definition step (h : Handle) (answer : bool) (t : pc) : outcome (Handle * pc) :=
  match t with
  | Without e => Return (h, Without e)
  | CreateCas capable resets =>
      let '(cell, r) := compare_exchange (reference_counter h) Uninitialized PerformingInitialization in
      Return (set_counter h cell,
        match r with Ok _ => CreateCapable capable resets | Err _ => Without (Some HandleAlreadyInitialized) end)
  | CreateCapable capable resets => Return (set_capable h capable, CreateInit resets)
  | CreateInit resets =>
      if answer then if object h then Undefined else Return (set_object h true, CreateFinish)
      else Return (h, if resets then CreateReset else Without (Some CreationFailed))
  | CreateReset => Return (set_counter h Uninitialized, Without (Some CreationFailed))
  | CreateFinish => Return (set_counter h Initialized, Holding)
  | OpenLoad => Return (h, open_loop (reference_counter h))
  | OpenCas ref_count =>
      let! next := iadd ref_count 1 in
      let '(cell, r) := if answer then (reference_counter h, Err (reference_counter h)) else compare_exchange (reference_counter h) ref_count next in
      Return (set_counter h cell, match r with Ok _ => OpenCheck | Err v => open_loop v end)
  | OpenCheck => Return (h, if is_interprocess_capable h then Holding else DropSub (Some IsNotInterProcessCapable))
  | Holding => Return (h, Holding)
  | Using => if object h then Return (h, Holding) else Undefined
  | DropSub e =>
      let n := reference_counter h in
      Return (set_counter h (n - 1), if n =? 1 then DropDestroy e else Without e)
  | DropDestroy e => if object h then Return (set_object h false, DropStore e) else Undefined
  | DropStore e => Return (set_counter h Uninitialized, Without e)
  end.

(** [resetting]: every creation that fails gives the handle back. *)
Inductive calls (resetting : bool) : pc → pc → Prop :=
| call_create e capable resets : (resetting = true → resets = true) → calls resetting (Without e) (CreateCas capable resets)
| call_open e : calls resetting (Without e) OpenLoad
| call_use : calls resetting Holding Using
| call_drop : calls resetting Holding (DropSub None).

(** ** One object at a time *)

(** Those the counter counts, those that set up or tear down, and those of them that rely
    on the object. *)
Definition refers (t : pc) : bool := match t with OpenCheck | Holding | Using | DropSub _ => true | _ => false end.
Definition exclusive (t : pc) : bool :=
  match t with CreateCapable _ _ | CreateInit _ | CreateReset | CreateFinish | DropDestroy _ | DropStore _ => true | _ => false end.
Definition has_object (t : pc) : bool := match t with CreateFinish | DropDestroy _ => true | _ => false end.

Definition pc_ok (resetting : bool) (n : Z) (t : pc) : Prop :=
  match t with
  | CreateCas _ resets | CreateCapable _ resets | CreateInit resets => Z.b2z resetting ≤ Z.b2z resets
  | OpenCas ref_count => 0 < ref_count ≤ n
  | _ => True
  end.

(** The counter, and how many threads refer to the object ([r]), set it up or tear it down
    ([x]), and rely on it meanwhile ([o]). *)
Definition fits (resetting : bool) (h : Handle) (r x o : Z) : Prop :=
  (reference_counter h = -1 ∧ r = 0 ∧ x = 0 ∧ Z.b2z (object h) = 0) ∨
  (reference_counter h = 0 ∧ r = 0 ∧ Z.b2z resetting ≤ x ≤ 1 ∧ Z.b2z (object h) = o) ∨
  (0 < reference_counter h ∧ r = reference_counter h ∧ x = 0 ∧ Z.b2z (object h) = 1).

Record handle_inv (resetting : bool) (n : Z) (h : Handle) (ts : list pc) : Prop := {
  hi_threads : Forall (pc_ok resetting n) ts;
  hi_count : Z.of_nat (length ts) = n;
  hi_state : fits resetting h (tally refers ts) (tally exclusive ts) (tally has_object ts)
}.

Lemma has_object_exclusive ts : tally has_object ts ≤ tally exclusive ts.
Proof. induction ts as [|t ts IH]; [done|]. cbn. destruct t; cbn; lia. Qed.

Lemma tally_middle {A} (f : A → bool) l1 t l2 : tally f (l1 ++ t :: l2) = Z.b2z (f t) + tally f (l1 ++ l2).
Proof. rewrite !tally_app. cbn [tally]. lia. Qed.

Lemma handle_inv_bound resetting n h ts : handle_inv resetting n h ts → -1 ≤ reference_counter h ≤ n.
Proof. intros [_ Hn Hs]. pose proof (tally_bounds refers ts). unfold fits in Hs. lia. Qed.

(** A step of one thread keeps the invariant when the counts fit again. *)
Lemma handle_inv_update resetting n h h' ts1 t t' ts2 :
  handle_inv resetting n h (ts1 ++ t :: ts2) → pc_ok resetting n t' →
  (∀ r x o : Z, 0 ≤ r → 0 ≤ o ≤ x →
    fits resetting h (Z.b2z (refers t) + r) (Z.b2z (exclusive t) + x) (Z.b2z (has_object t) + o) →
    fits resetting h' (Z.b2z (refers t') + r) (Z.b2z (exclusive t') + x) (Z.b2z (has_object t') + o)) →
  handle_inv resetting n h' (ts1 ++ t' :: ts2).
Proof.
  intros [Hts Hn Hs] Hok Hstep. constructor.
  - rewrite Forall_app, Forall_cons in Hts |- *. by destruct Hts as (? & _ & ?).
  - rewrite length_app in Hn |- *. done.
  - rewrite !tally_middle in *. pose proof (has_object_exclusive (ts1 ++ ts2)). pose proof (tally_bounds refers (ts1 ++ ts2)).
    pose proof (tally_bounds has_object (ts1 ++ ts2)). apply Hstep; [lia|lia|done].
Qed.

Lemma open_loop_ok resetting n c : c ≤ n → pc_ok resetting n (open_loop c).
Proof. intros H. unfold open_loop. destruct (Z.leb_spec c PerformingInitialization); [done|]. unfold PerformingInitialization in *. cbn. lia. Qed.
Lemma open_refers c : refers (open_loop c) = false.
Proof. unfold open_loop. by case_match. Qed.
Lemma open_exclusive c : exclusive (open_loop c) = false.
Proof. unfold open_loop. by case_match. Qed.
Lemma open_has_object c : has_object (open_loop c) = false.
Proof. unfold open_loop. by case_match. Qed.

Ltac fit_counts :=
  let r := fresh in let x := fresh in let o := fresh in intros r x o ? ?; unfold fits; cbn; rewrite ?open_refers, ?open_exclusive, ?open_has_object; cbn; lia.

(** Every access is allowed, and keeps the invariant. *)
Lemma handle_step_inv resetting n h ts1 t ts2 answer :
  n + 1 < I64_END → handle_inv resetting n h (ts1 ++ t :: ts2) →
  ∃ h' t', step h answer t = Return (h', t') ∧ handle_inv resetting n h' (ts1 ++ t' :: ts2).
Proof.
  intros Hn Hi. pose proof (handle_inv_bound _ _ _ _ Hi) as Hb. pose proof (hi_threads _ _ _ _ Hi) as [_ [Hok _]%Forall_cons]%Forall_app.
  assert (∃ r x o, 0 ≤ r ∧ 0 ≤ o ≤ x ∧ fits resetting h (Z.b2z (refers t) + r) (Z.b2z (exclusive t) + x) (Z.b2z (has_object t) + o)) as (r0 & x0 & o0 & Hr0 & Ho0 & Hfits).
  { exists (tally refers (ts1 ++ ts2)), (tally exclusive (ts1 ++ ts2)), (tally has_object (ts1 ++ ts2)).
    pose proof (has_object_exclusive (ts1 ++ ts2)). pose proof (tally_bounds refers (ts1 ++ ts2)). pose proof (tally_bounds has_object (ts1 ++ ts2)).
    split; [lia|]. split; [lia|]. rewrite <- !tally_middle. apply Hi. }
  pose proof (λ h', handle_inv_update resetting n h h' ts1 t) as Hupd. unfold fits in Hfits.
  assert (0 ≤ Z.b2z resetting ≤ 1) as Hres by (destruct resetting; cbn; lia).
  destruct h as [c cap obj], t; cbn [step reference_counter object is_interprocess_capable set_counter set_object set_capable refers exclusive has_object Z.b2z pc_ok] in *;
    unfold Uninitialized, PerformingInitialization, Initialized in *.
  - by do 2 eexists.
  - unfold compare_exchange. destruct (Z.eqb_spec c (-1)); do 2 eexists; (split; [done|]); apply (Hupd _ _ _ Hi); try done; fit_counts.
  - do 2 eexists; (split; [done|]); apply (Hupd _ _ _ Hi); try done; fit_counts.
  - destruct answer; [destruct obj; [exfalso; cbn in *; lia|]|destruct resets; cbn in Hok]; do 2 eexists; (split; [done|]); apply (Hupd _ _ _ Hi); try done; fit_counts.
  - do 2 eexists; (split; [done|]); apply (Hupd _ _ _ Hi); try done; fit_counts.
  - do 2 eexists; (split; [done|]); apply (Hupd _ _ _ Hi); try done; fit_counts.
  - do 2 eexists; (split; [done|]); apply (Hupd _ _ _ Hi); [apply open_loop_ok; lia|fit_counts].
  - unfold iadd. rewrite (proj2 (Z.ltb_lt _ _)) by lia. cbn [obind]. unfold compare_exchange. cbn [object].
    destruct answer; [|destruct (Z.eqb_spec c ref_count)]; do 2 eexists; (split; [done|]); apply (Hupd _ _ _ Hi); try done; try (apply open_loop_ok; lia); fit_counts.
  - do 2 eexists; (split; [done|]); apply (Hupd _ _ _ Hi); destruct cap; try done; fit_counts.
  - do 2 eexists. split; [done|]. exact Hi.
  - destruct obj; [|exfalso; cbn in *; lia]. do 2 eexists; (split; [done|]); apply (Hupd _ _ _ Hi); try done; fit_counts.
  - do 2 eexists; (split; [done|]); apply (Hupd _ _ _ Hi); destruct (Z.eqb_spec c 1); try done; fit_counts.
  - destruct obj; [|exfalso; cbn in *; lia]. do 2 eexists; (split; [done|]); apply (Hupd _ _ _ Hi); try done; fit_counts.
  - do 2 eexists; (split; [done|]); apply (Hupd _ _ _ Hi); try done; fit_counts.
Qed.

Lemma handle_calls_inv resetting n h ts1 t t' ts2 :
  handle_inv resetting n h (ts1 ++ t :: ts2) → calls resetting t t' → handle_inv resetting n h (ts1 ++ t' :: ts2).
Proof.
  intros Hi Hc. apply (handle_inv_update _ _ _ h _ _ _ _ Hi); destruct Hc as [e capable resets Hr|e| |]; try done; try fit_counts.
  cbn. destruct resetting, resets; cbn; try lia; by specialize (Hr eq_refl).
Qed.

Lemma handle_reachable_inv resetting n h ts :
  Z.of_nat n + 1 < I64_END →
  rtc (threads_step (calls resetting) step) (new_handle, replicate n (Without None)) (h, ts) → handle_inv resetting (Z.of_nat n) h ts.
Proof.
  intros Hn Hrun. apply (threads_invariant (calls resetting) step (handle_inv resetting (Z.of_nat n))) in Hrun; [done| | |]; cbn.
  - intros s ts1 t t' ts2. apply handle_calls_inv.
  - intros s ts1 t ts2 answer s' t' Hi Hst. destruct (handle_step_inv _ _ _ _ _ _ answer Hn Hi) as (h2 & t2 & Hst' & Hi2).
    rewrite Hst in Hst'. by injection Hst' as -> ->.
  - assert (∀ f, f (Without None) = false → tally f (replicate n (Without None)) = 0) as Ht.
    { intros f Hf. clear -Hf. induction n as [|n IH]; [done|]. cbn. rewrite Hf, IH. done. }
    constructor; [by apply Forall_replicate|by rewrite length_replicate|]. rewrite !Ht by done. by left.
Qed.

(** C29. The object in a handle is safe to use: whatever creations, acquisitions, uses and
    drops of any number of threads are interleaved, and whichever creations fail, the object
    is never set up over a living one, never used or torn down when it is not there, and by
    at most one thread at a time; while anybody refers to it, it is there, and the counter
    is their number. Where every failed creation gives the handle back, a handle that
    nobody refers to and nobody works on can be created again. *)
Theorem ipc_handle_safe resetting n h ts :
  Z.of_nat n + 1 < I64_END →
  rtc (threads_step (calls resetting) step) (new_handle, replicate n (Without None)) (h, ts) →
  (∀ t answer, t ∈ ts → safe (step h answer t)) ∧
  tally exclusive ts ≤ 1 ∧
  (0 < tally refers ts → object h = true ∧ tally exclusive ts = 0 ∧ reference_counter h = tally refers ts) ∧
  (resetting = true → tally refers ts = 0 → tally exclusive ts = 0 → h = mkHandle Uninitialized (is_interprocess_capable h) false).
Proof.
  intros Hn Hrun. pose proof (handle_reachable_inv resetting n h ts Hn Hrun) as Hi. split.
  { intros t answer (ts1 & ts2 & ->)%list_elem_of_split.
    destruct (handle_step_inv _ _ _ _ _ _ answer Hn Hi) as (h' & t' & Hst & _). by eexists. }
  pose proof (hi_state _ _ _ _ Hi) as Hs. unfold fits in Hs. destruct h as [c cap obj]. cbn in *. split; [lia|]. split.
  - intros Hr. destruct obj; cbn in *; [|lia]. split; [done|]. lia.
  - intros -> Hr Hx. cbn in Hs. destruct obj; cbn in *; [lia|]. f_equal. unfold Uninitialized. lia.
Qed.

(** ** A creation that fails *)

(** Those who have nothing to do with the object. *)
Definition outside (t : pc) : Prop :=
  match t with Without _ | CreateCas _ _ | OpenLoad => True | OpenCas ref_count => 0 < ref_count | _ => False end.

(** A thread that creates, and fails without giving the handle back, leaves it in the state
    of being set up. Nobody is in that state any more, and it never ends: every later
    creation fails since the handle is already initialized, and every acquisition since it
    is not. *)
Theorem failed_creation_blocks_handle (capable : bool) ts :
  Forall outside ts →
  ∃ h, rtc (threads_step (calls false) step) (new_handle, Without None :: ts) (h, Without (Some CreationFailed) :: ts) ∧
  ∀ h' ts', rtc (threads_step (calls false) step) (h, Without (Some CreationFailed) :: ts) (h', ts') →
    reference_counter h' = PerformingInitialization ∧ object h' = false ∧ Forall outside ts' ∧
    ∀ answer capable resets,
      step h' answer (CreateCas capable resets) = Return (h', Without (Some HandleAlreadyInitialized)) ∧
      step h' answer OpenLoad = Return (h', Without (Some HandleUninitialized)).
Proof.
  intros Hts. exists (mkHandle 0 capable false). split.
  { eapply rtc_l; [apply (thread_start _ _ _ [] _ (CreateCas capable false) ts); by constructor|].
    apply (run_steps _ _ [(0%nat, false); (0%nat, false); (0%nat, false)]). reflexivity. }
  intros h' ts' Hrun. assert (reference_counter h' = 0 ∧ object h' = false ∧ Forall outside ts') as (Hc & Ho & Hts').
  { apply (threads_invariant (calls false) step (λ h ts, reference_counter h = 0 ∧ object h = false ∧ Forall outside ts)) in Hrun; [done| | |].
    - intros h0 ts1 t t' ts2 (Hc & Ho & [H1 [H2 H3]%Forall_cons]%Forall_app) Hcall. split; [done|]. split; [done|].
      apply Forall_app. split; [done|]. apply Forall_cons. split; [by destruct Hcall|done].
    - intros h0 ts1 t ts2 answer h1 t1 (Hc & Ho & [H1 [H2 H3]%Forall_cons]%Forall_app) Hst.
      assert (reference_counter h1 = 0 ∧ object h1 = false ∧ outside t1) as (Hc1 & Ho1 & Ht1).
      { destruct h0 as [c cap obj]. cbn in Hc, Ho. subst c obj. destruct t; try done; cbn in *.
        - by injection Hst as <- <-.
        - by injection Hst as <- <-.
        - by injection Hst as <- <-.
        - destruct (iadd _ _); cbn in Hst; try done. unfold compare_exchange in Hst. rewrite (proj2 (Z.eqb_neq 0 _)) in Hst by lia.
          destruct answer; by injection Hst as <- <-. }
      split; [done|]. split; [done|]. apply Forall_app. split; [done|]. by apply Forall_cons.
    - split; [done|]. split; [done|]. by apply Forall_cons. }
  split; [done|]. split; [done|]. split; [done|]. intros answer capable' resets. destruct h' as [c cap obj]. cbn in Hc. by subst c.
Qed.
End Steps.

(** Two threads: the second finds the mutex of the first, and is the last to drop it. *)
Section Witness.
#[local] Instance handle_checked : Profile := true.

Lemma ipc_handle_safe_witness :
  ∃ h, object h = true ∧ reference_counter h = 1 ∧ safe (step h false (DropSub None)) ∧
    rtc (threads_step (calls true) step) (new_handle, replicate 2 (Without None)) (h, [Without None; DropSub None]).
Proof.
  assert (∃ h, rtc (threads_step (calls true) step) (new_handle, replicate 2 (Without None)) (h, [Without None; DropSub None])) as [h Hrun].
  { eexists.
    eapply rtc_l; [apply (thread_start _ _ _ [] _ (CreateCas true true) [Without None]); by constructor|].
    etrans; [apply (run_steps _ _ [(0%nat, true); (0%nat, true); (0%nat, true); (0%nat, true)]); reflexivity|].
    eapply rtc_l; [apply (thread_start _ _ _ [Holding] _ OpenLoad []); by constructor|].
    etrans; [apply (run_steps _ _ [(1%nat, false); (1%nat, false); (1%nat, false)]); reflexivity|].
    eapply rtc_l; [apply (thread_start _ _ _ [] _ (DropSub None) [Holding]); by constructor|].
    etrans; [apply (run_steps _ _ [(0%nat, false)]); reflexivity|].
    eapply rtc_l; [apply (thread_start _ _ _ [Without None] _ (DropSub None) []); by constructor|]. apply rtc_refl. }
  exists h. destruct (ipc_handle_safe true 2 h [Without None; DropSub None]) as (H1 & _ & H2 & _); [done|exact Hrun|].
  destruct (H2 ltac:(done)) as (Ho & _ & Hc). split; [exact Ho|]. split; [exact Hc|]. split; [|exact Hrun]. apply H1. right. left.
Defined.
End Witness.
