(* ===== verification/PosixLocks.v ===== *)
(** * elkodon_bb/posix: mutex.rs, read_write_mutex.rs, barrier.rs; elkodon_bb/elementary: scope_guard.rs

    The locks that live in an [IpcHandle]: how they are created, locked with and without a
    timeout, and unlocked by their guards. The locks of the operating system are an
    interface, seen by one thread: every call says what it answers, and [mine] whether the
    thread holds the lock afterwards.

    - [Module Mutex], [Module ReadWriteMutex], [Module Barrier].

    The theorems: a guard is given out exactly when the thread has got the lock, and a lock
    with a timeout comes back; what a failed creation does to the handle. *)

From S2P Require Import Prelude Clock.
From S2P Require IpcHandle.

Import IpcHandle(Handle, reference_counter, object, set_counter, set_object, set_capable, Uninitialized, PerformingInitialization, Initialized).

(** ** scope_guard.rs

    What [on_init] has set up is cleaned up at the end, however [body] ends. *)
Definition scope_guard {W A E} (on_init : W → result unit E * W) (on_drop : W → outcome W) (body : W → outcome (result A E * W)) (w : W)
    : outcome (result A E * W) :=
  let '(r, w) := on_init w in
  match r with
  | Err e => Return (Err e, w)
  | Ok _ =>
      let! '(r, w) := body w in
      let! w := on_drop w in
      Return (r, w)
  end.

(** [Uninitialized] to [PerformingInitialization], or not. *)
Definition begin_create (h : Handle) : option Handle :=
  let '(cell, r) := compare_exchange (reference_counter h) Uninitialized PerformingInitialization in
  match r with Ok _ => Some (set_counter h cell) | Err _ => None end.
Definition finish_create (h : Handle) : Handle := set_counter (set_object h true) Initialized.
Definition give_back (h : Handle) : Handle := set_counter h Uninitialized.

(** [Drop]: [destroy] answers whether it has worked. *)
Definition drop_construct {W} (destroy : W → bool * W) (h : Handle) (w : W) : outcome (Handle * W) :=
  let n := reference_counter h in
  let h := set_counter h (n - 1) in
  if n =? 1 then
    let '(ok, w) := destroy w in
    if ok : bool then Return (set_counter (set_object h false) Uninitialized, w) else Panic
  else Return (h, w).

(** ** mutex.rs *)

Module Mutex.
Inductive MutexCreationError :=
| InsufficientMemory | InsufficientResources | InsufficientPermissions | NoInterProcessSupport | UnableToSetType | UnableToSetProtocol
| UnableToSetThreadTerminationBehavior | UnableToSetPriorityCeiling | HandleAlreadyInitialized | UnknownError (e : Errno).
(** The guard is the permission to use the value, and unlocks. *)
Inductive MutexGuard := mkMutexGuard.
Inductive MutexLockError :=
| ExceededMaximumNumberOfRecursiveLocks | DeadlockDetected | LockAcquiredButOwnerDied (g : MutexGuard) | UnrecoverableState | LockUnknownError (e : Errno).
Inductive MutexTimedLockError :=
| TimeoutExceedsMaximumSupportedDuration | TimedMutexLockError (e : MutexLockError) | TimedAdaptiveWaitError (e : AdaptiveWaitError)
| FailureInInternalClockWhileWait (e : TimeError).
Inductive MutexUnlockError := OwnedByDifferentEntity | UnlockUnknownError (e : Errno).
Inductive MutexGetPrioCeilingError := GetInsufficientPermissions | GetUnknownError (e : Errno).
Inductive MutexSetPrioCeilingError := ValueOutOfRange | SetInsufficientPermissions | SetUnknownError (e : Errno).

Inductive MutexType := Normal | Recursive | WithDeadlockDetection.
Inductive MutexPriorityInheritance := PrioNone | Inherit | Protect.
Inductive MutexThreadTerminationBehavior := StallWhenLocked | ReleaseWhenLocked.

Record MutexBuilder := mkBuilder {
  is_interprocess_capable : bool;
  mutex_type : MutexType;
  thread_termination_behavior : MutexThreadTerminationBehavior;
  priority_inheritance : MutexPriorityInheritance;
  priority_ceiling : option Z;
  clock_type : ClockType
}.
Definition builder_new (default : ClockType) : MutexBuilder := mkBuilder true Normal StallWhenLocked PrioNone None default.
Definition with_clock_type (b : MutexBuilder) (v : ClockType) : MutexBuilder :=
  mkBuilder (is_interprocess_capable b) (mutex_type b) (thread_termination_behavior b) (priority_inheritance b) (priority_ceiling b) v.
Definition with_interprocess_capable (b : MutexBuilder) (v : bool) : MutexBuilder :=
  mkBuilder v (mutex_type b) (thread_termination_behavior b) (priority_inheritance b) (priority_ceiling b) (clock_type b).
Definition with_mutex_type (b : MutexBuilder) (v : MutexType) : MutexBuilder :=
  mkBuilder (is_interprocess_capable b) v (thread_termination_behavior b) (priority_inheritance b) (priority_ceiling b) (clock_type b).
Definition with_thread_termination_behavior (b : MutexBuilder) (v : MutexThreadTerminationBehavior) : MutexBuilder :=
  mkBuilder (is_interprocess_capable b) (mutex_type b) v (priority_inheritance b) (priority_ceiling b) (clock_type b).
Definition with_priority_inheritance (b : MutexBuilder) (v : MutexPriorityInheritance) : MutexBuilder :=
  mkBuilder (is_interprocess_capable b) (mutex_type b) (thread_termination_behavior b) v (priority_ceiling b) (clock_type b).
Definition with_priority_ceiling (b : MutexBuilder) (v : Z) : MutexBuilder :=
  mkBuilder (is_interprocess_capable b) (mutex_type b) (thread_termination_behavior b) (priority_inheritance b) (Some v) (clock_type b).

Record MutexHandle (T : Type) := mkMutexHandle { handle : Handle; handle_clock_type : ClockType; value : option T }.
Arguments mkMutexHandle {T}. Arguments handle {T}. Arguments handle_clock_type {T}. Arguments value {T}.
Definition handle_new {T} (default : ClockType) : MutexHandle T := mkMutexHandle IpcHandle.new_handle default None.
Definition set_handle {T} (h : MutexHandle T) (x : Handle) : MutexHandle T := mkMutexHandle x (handle_clock_type h) (value h).

Class PthreadMutex (W : Type) := {
  pthread_mutexattr_init : W → bool * W;
  pthread_mutexattr_destroy : W → bool * W;
  pthread_mutexattr_setpshared : W → bool * W;
  pthread_mutexattr_settype : MutexType → W → bool * W;
  pthread_mutexattr_setprotocol : MutexPriorityInheritance → W → bool * W;
  pthread_mutexattr_setrobust : MutexThreadTerminationBehavior → W → bool * W;
  pthread_mutexattr_setprioceiling : Z → W → bool * W;
  pthread_mutex_init : W → result unit Errno * W;
  pthread_mutex_destroy : W → bool * W;
  pthread_mutex_lock : W → result unit Errno * W;
  pthread_mutex_trylock : W → result unit Errno * W;
  pthread_mutex_timedlock : timespec → W → result unit Errno * W;
  pthread_mutex_unlock : W → result unit Errno * W;
  pthread_mutex_consistent : W → bool * W;
  pthread_mutex_getprioceiling : W → result Z Errno * W;
  pthread_mutex_setprioceiling : Z → W → result Z Errno * W
}.

Section Operations.
Context `{P : Profile} {W : Type} `{!ClockOs W, !PthreadMutex W} {T : Type}.
Implicit Types (w : W) (b : MutexBuilder) (h : MutexHandle T).

(** A call that must work, or the creation fails with [e]. *)
Definition require {A} (call : W → bool * W) (e : MutexCreationError) (k : W → outcome (result A MutexCreationError * W)) w
    : outcome (result A MutexCreationError * W) :=
  let '(ok, w) := call w in if ok : bool then k w else Return (Err e, w).

Definition init_error (e : Errno) : MutexCreationError :=
  match e with ENOMEM => InsufficientMemory | EAGAIN => InsufficientResources | EPERM => InsufficientPermissions | v => UnknownError v end.

Definition initialize b w : outcome (result unit MutexCreationError * W) :=
  scope_guard
    (λ w, let '(ok, w) := pthread_mutexattr_init w in (if ok : bool then Ok tt else Err InsufficientMemory, w))
    (λ w, let '(ok, w) := pthread_mutexattr_destroy w in if ok : bool then Return w else Panic)
    (require (if is_interprocess_capable b then pthread_mutexattr_setpshared else λ w, (true, w)) NoInterProcessSupport
    (require (pthread_mutexattr_settype (mutex_type b)) UnableToSetType
    (require (pthread_mutexattr_setprotocol (priority_inheritance b)) UnableToSetProtocol
    (require (pthread_mutexattr_setrobust (thread_termination_behavior b)) UnableToSetThreadTerminationBehavior
    (require (match priority_ceiling b with Some v => pthread_mutexattr_setprioceiling v | None => λ w, (true, w) end) UnableToSetPriorityCeiling
    (λ w, let '(r, w) := pthread_mutex_init w in Return (match r with Ok _ => Ok tt | Err e => Err (init_error e) end, w))))))) w.

Definition create b (t : T) h w : outcome (result unit MutexCreationError * MutexHandle T * W) :=
  match begin_create (handle h) with
  | None => Return (Err HandleAlreadyInitialized, h, w)
  | Some x =>
      let h := mkMutexHandle (set_capable x (is_interprocess_capable b)) (clock_type b) (Some t) in
      let! '(r, w) := initialize b w in
      match r with
      | Err e => Return (Err e, h, w)
      | Ok _ => Return (Ok tt, set_handle h (finish_create (handle h)), w)
      end
  end.

Definition drop h w : outcome (MutexHandle T * W) :=
  let! '(x, w) := drop_construct pthread_mutex_destroy (handle h) w in Return (set_handle h x, w).

Definition lock w : result MutexGuard MutexLockError * W :=
  let '(r, w) := pthread_mutex_lock w in
  (match r with
   | Ok _ => Ok mkMutexGuard
   | Err EAGAIN => Err ExceededMaximumNumberOfRecursiveLocks
   | Err EDEADLK => Err DeadlockDetected
   | Err EOWNERDEAD => Err (LockAcquiredButOwnerDied mkMutexGuard)
   | Err ENOTRECOVERABLE => Err UnrecoverableState
   | Err v => Err (LockUnknownError v)
   end, w).

Definition try_lock w : result (option MutexGuard) MutexLockError * W :=
  let '(r, w) := pthread_mutex_trylock w in
  (match r with
   | Ok _ => Ok (Some mkMutexGuard)
   | Err EDEADLK | Err EBUSY => Ok None
   | Err EAGAIN => Err ExceededMaximumNumberOfRecursiveLocks
   | Err EOWNERDEAD => Err (LockAcquiredButOwnerDied mkMutexGuard)
   | Err ENOTRECOVERABLE => Err UnrecoverableState
   | Err v => Err (LockUnknownError v)
   end, w).

Definition timed_error (e : TimedError MutexLockError) : MutexTimedLockError :=
  match e with
  | TransferError v => TimedMutexLockError v
  | AdaptiveError v => TimedAdaptiveWaitError v
  | TimedTimeError v => FailureInInternalClockWhileWait v
  end.

Definition timed_lock (fuel : nat) h (duration : Duration) w : outcome (result (option MutexGuard) MutexTimedLockError * W) :=
  match handle_clock_type h with
  | Realtime =>
      let '(r, w) := now_with_clock Realtime w in
      match r with
      | Err e => Return (Err (FailureInInternalClockWhileWait e), w)
      | Ok now =>
          let! n := as_duration now in
          let! timeout := dadd n duration in
          let '(r, w) := pthread_mutex_timedlock (duration_as_timespec timeout) w in
          Return (match r with
                  | Ok _ => Ok (Some mkMutexGuard)
                  | Err ETIMEDOUT => Ok None
                  | Err EAGAIN => Err (TimedMutexLockError ExceededMaximumNumberOfRecursiveLocks)
                  | Err EINVAL => Err TimeoutExceedsMaximumSupportedDuration
                  | Err EDEADLK => Err (TimedMutexLockError DeadlockDetected)
                  | Err ENOTRECOVERABLE => Err (TimedMutexLockError UnrecoverableState)
                  | Err v => Err (TimedMutexLockError (LockUnknownError v))
                  end, w)
      end
  | Monotonic =>
      let! '(r, _, w) := timed fuel (λ (_ : unit) w, let '(r, w) := try_lock w in Return (r, tt, w)) duration tt w in
      Return (match r with Ok g => Ok g | Err e => Err (timed_error e) end, w)
  end.

Definition make_consistent w : W := (pthread_mutex_consistent w).2.

Definition get_priority_ceiling w : result Z MutexGetPrioCeilingError * W :=
  let '(r, w) := pthread_mutex_getprioceiling w in
  (match r with Ok v => Ok v | Err EPERM => Err GetInsufficientPermissions | Err v => Err (GetUnknownError v) end, w).
Definition set_priority_ceiling (v : Z) w : result Z MutexSetPrioCeilingError * W :=
  let '(r, w) := pthread_mutex_setprioceiling v w in
  (match r with
   | Ok v => Ok v
   | Err EINVAL => Err ValueOutOfRange
   | Err EPERM => Err SetInsufficientPermissions
   | Err v => Err (SetUnknownError v)
   end, w).

Definition release w : result unit MutexUnlockError * W :=
  let '(r, w) := pthread_mutex_unlock w in
  (match r with Ok _ => Ok tt | Err EPERM => Err OwnedByDifferentEntity | Err v => Err (UnlockUnknownError v) end, w).
Definition guard_drop (g : MutexGuard) w : outcome W :=
  let '(r, w) := release w in match r with Ok _ => Return w | Err _ => Panic end.

(** The guard that an operation hands out. *)
Definition lock_guard (r : result MutexGuard MutexLockError) : option MutexGuard :=
  match r with Ok g | Err (LockAcquiredButOwnerDied g) => Some g | Err _ => None end.
Definition try_lock_guard (r : result (option MutexGuard) MutexLockError) : option MutexGuard :=
  match r with Ok g => g | Err (LockAcquiredButOwnerDied g) => Some g | Err _ => None end.
Definition timed_lock_guard (r : result (option MutexGuard) MutexTimedLockError) : option MutexGuard :=
  match r with Ok g => g | Err (TimedMutexLockError (LockAcquiredButOwnerDied g)) => Some g | Err _ => None end.
End Operations.
End Mutex.

(** ** read_write_mutex.rs *)

Module ReadWriteMutex.
Inductive ReadWriteMutexCreationError :=
| InsufficientMemory | InsufficientResources | InsufficientPermissions | NoInterProcessSupport | NoMutexKindSupport
| HandleAlreadyInitialized | UnknownError (e : Errno).
Inductive ReadWriteMutexReadLockError := MaximumAmountOfReadLocksAcquired | ReadDeadlockConditionDetected | ReadUnknownError (e : Errno).
Inductive ReadWriteMutexWriteLockError := WriteDeadlockConditionDetected | WriteUnknownError (e : Errno).
Inductive ReadWriteMutexUnlockError := OwnedByDifferentEntity | UnlockUnknownError (e : Errno).
(** [ReadWriteMutexReadTimedLockError] and [ReadWriteMutexWriteTimedLockError] *)
Inductive RwTimedLockError (E : Type) := TimeoutExceedsMaximumSupportedDuration | RwLockError (e : E) | RwAdaptiveWaitError (e : AdaptiveWaitError) | RwTimeError (e : TimeError).
Arguments TimeoutExceedsMaximumSupportedDuration {E}. Arguments RwLockError {E}. Arguments RwAdaptiveWaitError {E}. Arguments RwTimeError {E}.

Inductive ReadWriteMutexPriority := PreferReader | PreferWriter | PreferWriterNonRecursive.
Inductive MutexReadGuard := mkReadGuard.
Inductive MutexWriteGuard := mkWriteGuard.

Record ReadWriteMutexBuilder := mkBuilder { clock_type : ClockType; mutex_priority : ReadWriteMutexPriority; is_interprocess_capable : bool }.
Definition builder_new (default : ClockType) : ReadWriteMutexBuilder := mkBuilder default PreferReader true.

Record ReadWriteMutexHandle (T : Type) := mkRwHandle { handle : Handle; handle_clock_type : ClockType; value : option T }.
Arguments mkRwHandle {T}. Arguments handle {T}. Arguments handle_clock_type {T}. Arguments value {T}.
Definition handle_new {T} (default : ClockType) : ReadWriteMutexHandle T := mkRwHandle IpcHandle.new_handle default None.
Definition set_handle {T} (h : ReadWriteMutexHandle T) (x : Handle) : ReadWriteMutexHandle T := mkRwHandle x (handle_clock_type h) (value h).

Class PthreadRwlock (W : Type) := {
  pthread_rwlockattr_init : W → result unit Errno * W;
  pthread_rwlockattr_destroy : W → bool * W;
  (** the argument: PTHREAD_PROCESS_SHARED instead of PTHREAD_PROCESS_PRIVATE, which is 0 *)
  pthread_rwlockattr_setpshared : bool → W → bool * W;
  pthread_rwlockattr_setkind_np : ReadWriteMutexPriority → W → bool * W;
  pthread_rwlock_init : W → result unit Errno * W;
  pthread_rwlock_destroy : W → bool * W;
  pthread_rwlock_rdlock : W → result unit Errno * W;
  pthread_rwlock_tryrdlock : W → result unit Errno * W;
  pthread_rwlock_timedrdlock : timespec → W → result unit Errno * W;
  pthread_rwlock_wrlock : W → result unit Errno * W;
  pthread_rwlock_trywrlock : W → result unit Errno * W;
  pthread_rwlock_timedwrlock : timespec → W → result unit Errno * W;
  pthread_rwlock_unlock : W → result unit Errno * W
}.

Section Operations.
Context `{P : Profile} {W : Type} `{!ClockOs W, !PthreadRwlock W} {T : Type}.
Implicit Types (w : W) (b : ReadWriteMutexBuilder) (h : ReadWriteMutexHandle T).

Definition attr_error (e : Errno) : ReadWriteMutexCreationError := match e with ENOMEM => InsufficientMemory | v => UnknownError v end.
Definition init_error (e : Errno) : ReadWriteMutexCreationError :=
  match e with EAGAIN | ENOMEM => InsufficientResources | EPERM => InsufficientPermissions | v => UnknownError v end.

(** With the handle as the failure leaves it: everything but the attributes gives it back. *)
Definition initialize b h w : outcome (result (ReadWriteMutexHandle T) (ReadWriteMutexCreationError * ReadWriteMutexHandle T) * W) :=
  scope_guard
    (λ w, let '(r, w) := pthread_rwlockattr_init w in (match r with Ok _ => Ok tt | Err e => Err (attr_error e, h) end, w))
    (λ w, let '(ok, w) := pthread_rwlockattr_destroy w in if ok : bool then Return w else Panic)
    (λ w,
      let '(ok, w) := pthread_rwlockattr_setpshared false w in
      if negb ok then Return (Err (NoInterProcessSupport, set_handle h (give_back (handle h))), w)
      else
        let '(ok, w) := pthread_rwlockattr_setkind_np (mutex_priority b) w in
        if negb ok then Return (Err (NoMutexKindSupport, set_handle h (give_back (handle h))), w)
        else
          let '(r, w) := pthread_rwlock_init w in
          Return (match r with
                  | Ok _ => Ok h
                  | Err e => Err (init_error e, set_handle h (give_back (handle h)))
                  end, w)) w.

Definition create b (t : T) h w : outcome (result unit ReadWriteMutexCreationError * ReadWriteMutexHandle T * W) :=
  match begin_create (handle h) with
  | None => Return (Err HandleAlreadyInitialized, h, w)
  | Some x =>
      let! '(r, w) := initialize b (set_handle h x) w in
      match r with
      | Err (e, h) => Return (Err e, h, w)
      | Ok h =>
          Return (Ok tt, mkRwHandle (finish_create (set_capable (handle h) (is_interprocess_capable b))) (clock_type b) (Some t), w)
      end
  end.

(** The last one takes the value away. *)
Definition drop h w : outcome (ReadWriteMutexHandle T * W) :=
  let! '(x, w) := drop_construct pthread_rwlock_destroy (handle h) w in
  Return (mkRwHandle x (handle_clock_type h) (if reference_counter (handle h) =? 1 then None else value h), w).

Definition read_error (e : Errno) : ReadWriteMutexReadLockError :=
  match e with EAGAIN => MaximumAmountOfReadLocksAcquired | EDEADLK => ReadDeadlockConditionDetected | v => ReadUnknownError v end.
Definition write_error (e : Errno) : ReadWriteMutexWriteLockError :=
  match e with EDEADLK => WriteDeadlockConditionDetected | v => WriteUnknownError v end.

Definition read_lock w : result MutexReadGuard ReadWriteMutexReadLockError * W :=
  let '(r, w) := pthread_rwlock_rdlock w in (match r with Ok _ => Ok mkReadGuard | Err e => Err (read_error e) end, w).
Definition read_try_lock w : result (option MutexReadGuard) ReadWriteMutexReadLockError * W :=
  let '(r, w) := pthread_rwlock_tryrdlock w in
  (match r with Ok _ => Ok (Some mkReadGuard) | Err EBUSY => Ok None | Err e => Err (read_error e) end, w).
Definition write_lock w : result MutexWriteGuard ReadWriteMutexWriteLockError * W :=
  let '(r, w) := pthread_rwlock_wrlock w in (match r with Ok _ => Ok mkWriteGuard | Err e => Err (write_error e) end, w).
Definition write_try_lock w : result (option MutexWriteGuard) ReadWriteMutexWriteLockError * W :=
  let '(r, w) := pthread_rwlock_trywrlock w in
  (match r with Ok _ => Ok (Some mkWriteGuard) | Err EBUSY => Ok None | Err e => Err (write_error e) end, w).

Definition timed_error {E} (e : TimedError E) : RwTimedLockError E :=
  match e with TransferError v => RwLockError v | AdaptiveError v => RwAdaptiveWaitError v | TimedTimeError v => RwTimeError v end.

Definition read_timed_lock (fuel : nat) h (timeout : Duration) w : outcome (result (option MutexReadGuard) (RwTimedLockError ReadWriteMutexReadLockError) * W) :=
  match handle_clock_type h with
  | Realtime =>
      let '(r, w) := now_with_clock Realtime w in
      match r with
      | Err e => Return (Err (RwTimeError e), w)
      | Ok now =>
          let! n := as_duration now in
          let! timeout_adjusted := dadd n timeout in
          let '(r, w) := pthread_rwlock_timedrdlock (duration_as_timespec timeout_adjusted) w in
          Return (match r with
                  | Ok _ => Ok (Some mkReadGuard)
                  | Err ETIMEDOUT => Ok None
                  | Err EINVAL => Err TimeoutExceedsMaximumSupportedDuration
                  | Err e => Err (RwLockError (read_error e))
                  end, w)
      end
  | Monotonic =>
      let! '(r, _, w) := timed fuel (λ (_ : unit) w, let '(r, w) := read_try_lock w in Return (r, tt, w)) timeout tt w in
      Return (match r with Ok g => Ok g | Err e => Err (timed_error e) end, w)
  end.

Definition write_timed_lock (fuel : nat) h (timeout : Duration) w : outcome (result (option MutexWriteGuard) (RwTimedLockError ReadWriteMutexWriteLockError) * W) :=
  match handle_clock_type h with
  | Realtime =>
      let '(r, w) := now_with_clock Realtime w in
      match r with
      | Err e => Return (Err (RwTimeError e), w)
      | Ok now =>
          let! n := as_duration now in
          let! timeout_adjusted := dadd n timeout in
          let '(r, w) := pthread_rwlock_timedwrlock (duration_as_timespec timeout_adjusted) w in
          Return (match r with
                  | Ok _ => Ok (Some mkWriteGuard)
                  | Err ETIMEDOUT => Ok None
                  | Err EINVAL => Err TimeoutExceedsMaximumSupportedDuration
                  | Err e => Err (RwLockError (write_error e))
                  end, w)
      end
  | Monotonic =>
      let! '(r, _, w) := timed fuel (λ (_ : unit) w, let '(r, w) := write_try_lock w in Return (r, tt, w)) timeout tt w in
      Return (match r with Ok g => Ok g | Err e => Err (timed_error e) end, w)
  end.

Definition release w : result unit ReadWriteMutexUnlockError * W :=
  let '(r, w) := pthread_rwlock_unlock w in
  (match r with Ok _ => Ok tt | Err EPERM => Err OwnedByDifferentEntity | Err v => Err (UnlockUnknownError v) end, w).
Definition guard_drop w : outcome W := let '(r, w) := release w in match r with Ok _ => Return w | Err _ => Panic end.
End Operations.
End ReadWriteMutex.

(** ** barrier.rs *)

Module Barrier.
Inductive BarrierCreationError := InsufficientMemory | SystemWideBarrierLimitReached | HandleAlreadyInitialized | UnknownError (e : Errno).

Record BarrierBuilder := mkBuilder { number_of_waiters : Z; is_interprocess_capable : bool }.
Definition builder_new (n : Z) : BarrierBuilder := mkBuilder n false.

Class PthreadBarrier (W : Type) := {
  pthread_barrierattr_init : W → result unit Errno * W;
  pthread_barrierattr_destroy : W → bool * W;
  pthread_barrierattr_setpshared : bool → W → bool * W;
  pthread_barrier_init : Z → W → result unit Errno * W;
  pthread_barrier_destroy : W → bool * W;
  (** whether it answers 0 or PTHREAD_BARRIER_SERIAL_THREAD *)
  pthread_barrier_wait : W → bool * W
}.

Section Operations.
Context {W : Type} `{!PthreadBarrier W}.
Implicit Types (w : W) (b : BarrierBuilder) (h : Handle).

Definition attr_error (e : Errno) : BarrierCreationError := match e with ENOMEM => InsufficientMemory | v => UnknownError v end.
Definition init_error (e : Errno) : BarrierCreationError :=
  match e with ENOMEM => InsufficientMemory | EAGAIN => SystemWideBarrierLimitReached | v => UnknownError v end.

Definition create b h w : outcome (result unit BarrierCreationError * Handle * W) :=
  match begin_create h with
  | None => Return (Err HandleAlreadyInitialized, h, w)
  | Some h =>
      let! '(r, w) := scope_guard
        (λ w, let '(r, w) := pthread_barrierattr_init w in (match r with Ok _ => Ok tt | Err e => Err (attr_error e, h) end, w))
        (λ w, let '(ok, w) := pthread_barrierattr_destroy w in if ok : bool then Return w else Panic)
        (λ w,
          let '(ok, w) := pthread_barrierattr_setpshared (is_interprocess_capable b) w in
          if negb ok then Panic
          else
            let h := set_capable h (is_interprocess_capable b) in
            let '(r, w) := pthread_barrier_init (number_of_waiters b) w in
            Return (match r with Ok _ => Ok (finish_create h) | Err e => Err (init_error e, h) end, w)) w in
      Return (match r with Ok h => (Ok tt, h) | Err (e, h) => (Err e, h) end, w)
  end.

Definition drop h w : outcome (Handle * W) := drop_construct pthread_barrier_destroy h w.

Definition wait w : outcome W := let '(ok, w) := pthread_barrier_wait w in if ok : bool then Return w else Panic.
End Operations.
End Barrier.

(** ** Guards are locks *)

(** What the calls of the operating system do for the calling thread; [mine]: it holds the
    mutex. A mutex whose owner died is handed to the next one with EOWNERDEAD. *)
Definition acquired (r : result unit Errno) : bool := match r with Ok _ | Err EOWNERDEAD => true | Err _ => false end.

Class MutexLaws (W : Type) `{!ClockOs W, !ClockLaws W, !Mutex.PthreadMutex W} := {
  mine : W → bool;
  clock_keeps_mine :: ClockKeeps mine;
  lock_law w r w' : Mutex.pthread_mutex_lock w = (r, w') → mine w = false → mine w' = acquired r;
  trylock_law w r w' : Mutex.pthread_mutex_trylock w = (r, w') → clock w ≤ clock w' ∧ (mine w = false → mine w' = acquired r);
  timedlock_law ts w r w' : Mutex.pthread_mutex_timedlock ts w = (r, w') → mine w = false → mine w' = acquired r;
  unlock_law w r w' : Mutex.pthread_mutex_unlock w = (r, w') → mine w = true → r = Ok tt ∧ mine w' = false
}.

Section MutexTheorems.
Import Mutex.
Context `{P : Profile} {W : Type} `{!ClockOs W, !ClockLaws W, !PthreadMutex W, !MutexLaws W} {T : Type}.
Implicit Types (w : W) (h : MutexHandle T).

Definition has_guard (g : option MutexGuard) : bool := match g with Some _ => true | None => false end.

Lemma lock_gives_guard w r w' : lock w = (r, w') → mine w = false → mine w' = has_guard (lock_guard r).
Proof.
  unfold lock. destruct (pthread_mutex_lock w) as [r0 w0] eqn:E. intros [= <- <-] Hm. rewrite (lock_law _ _ _ E Hm).
  destruct r0 as [|[]]; done.
Qed.

Lemma try_lock_gives_guard w r w' : try_lock w = (r, w') → clock w ≤ clock w' ∧ (mine w = false → mine w' = has_guard (try_lock_guard r)).
Proof.
  unfold try_lock. destruct (pthread_mutex_trylock w) as [r0 w0] eqn:E. destruct (trylock_law _ _ _ E) as [Hc Hm]. intros [= <- <-].
  split; [done|]. intros H. rewrite (Hm H). destruct r0 as [|[]]; done.
Qed.

Lemma monotonic_gives_guard w h fuel duration :
  mine w = false → handle_clock_type h = Monotonic → 0 ≤ duration →
  ADAPTIVE_WAIT_YIELD_REPETITIONS + duration / ADAPTIVE_WAIT_INITIAL_WAITING_TIME + 2 < USIZE →
  ADAPTIVE_WAIT_YIELD_REPETITIONS + duration / ADAPTIVE_WAIT_INITIAL_WAITING_TIME + 1 < Z.of_nat fuel →
  ∃ r w', timed_lock (T := T) fuel h duration w = Return (r, w') ∧ mine w' = has_guard (timed_lock_guard r) ∧
    (r = Ok None → duration ≤ clock w' - clock w).
Proof.
  intros Hm Hc Hd Hb Hf. unfold timed_lock. rewrite Hc. set (attempt := λ (_ : unit) w, let '(r, w) := try_lock w in Return (r, tt, w)).
  destruct (timed_ends attempt mine (λ _ b, b = false)) with (timeout := duration) (fuel := fuel) (x := tt) (w := w) as (r & [] & w' & Hr & Hre); try done.
  { intros [] w0 H0. unfold attempt. destruct (try_lock w0) as [r w'] eqn:E. destruct (try_lock_gives_guard _ _ _ E) as [Hclk Hg].
    do 3 eexists. split; [done|]. split; [done|]. intros ->. by rewrite (Hg H0). }
  assert (∀ x0 w0 r0, mine w0 = false → attempt x0 w0 = Return (r0, tt, w') → mine w' = has_guard (try_lock_guard r0)) as Hlast.
  { intros x0 w0 r0 H0 Ha. unfold attempt in Ha. destruct (try_lock w0) as [r1 w1] eqn:E. injection Ha as -> ->.
    destruct (try_lock_gives_guard _ _ _ E) as [_ Hg]. by apply Hg. }
  rewrite Hr. cbn [obind]. do 2 eexists. split; [done|]. destruct r as [[g|]|[]]; cbn in Hre |- *.
  - destruct Hre as (x0 & w0 & H0 & Ha). split; [by rewrite (Hlast _ _ _ H0 Ha)|done].
  - destruct Hre as [H1 H2]. by split.
  - destruct Hre as (x0 & w0 & H0 & Ha). split; [|done]. rewrite (Hlast _ _ _ H0 Ha). by destruct e.
  - destruct Hre as [H1 _]. by split.
  - destruct Hre as [H1 _]. by split.
Qed.

(** The realtime clock hands the waiting to the operating system. One answer of it is not
    understood: that of a mutex whose owner died. *)
Lemma realtime_gives_guard fuel h duration w r w' :
  mine w = false → handle_clock_type h = Realtime → timed_lock (T := T) fuel h duration w = Return (r, w') →
  mine w' = match r with
            | Err (TimedMutexLockError (LockUnknownError EOWNERDEAD)) => true
            | _ => has_guard (timed_lock_guard r)
            end.
Proof.
  intros Hm Hc. unfold timed_lock. rewrite Hc. pose proof (now_keeps mine Realtime w) as Hk.
  destruct (now_with_clock Realtime w) as [[now|e] w0]; cbn [snd] in Hk; rewrite Hm in Hk; [|by intros [= <- <-]].
  destruct (as_duration now) as [n| |]; cbn; try done. destruct (dadd n duration) as [ts| |]; cbn; try done.
  destruct (pthread_mutex_timedlock _ w0) as [r0 w1] eqn:E. intros [= <- <-]. rewrite (timedlock_law _ _ _ _ E Hk).
  destruct r0 as [|[]]; done.
Qed.

(** C36. A thread has the mutex exactly when it has the guard: after [lock] and [try_lock] the
    thread holds the mutex if and only if a guard was handed out, also when the previous
    owner died and the guard comes with an error. On the monotonic clock the same holds for
    [timed_lock], also when the clock fails while waiting; it comes back whatever the other
    threads do, and says that it was too late only when the time has passed. On the realtime
    clock it holds for every answer of [timed_lock] but one, the unknown error EOWNERDEAD,
    with which the thread holds a mutex without a guard
    ([realtime_timed_lock_loses_the_guard]). Dropping a guard gives the mutex back. *)
Theorem guard_is_the_lock w h fuel duration :
  mine w = false → 0 ≤ duration →
  ADAPTIVE_WAIT_YIELD_REPETITIONS + duration / ADAPTIVE_WAIT_INITIAL_WAITING_TIME + 2 < USIZE →
  ADAPTIVE_WAIT_YIELD_REPETITIONS + duration / ADAPTIVE_WAIT_INITIAL_WAITING_TIME + 1 < Z.of_nat fuel →
  (∀ r w', lock w = (r, w') → mine w' = has_guard (lock_guard r)) ∧
  (∀ r w', try_lock w = (r, w') → mine w' = has_guard (try_lock_guard r)) ∧
  match handle_clock_type h with
  | Monotonic =>
      ∃ r w', timed_lock (T := T) fuel h duration w = Return (r, w') ∧ mine w' = has_guard (timed_lock_guard r) ∧
        (r = Ok None → duration ≤ clock w' - clock w)
  | Realtime =>
      ∀ r w', timed_lock (T := T) fuel h duration w = Return (r, w') →
        mine w' = match r with
                  | Err (TimedMutexLockError (LockUnknownError EOWNERDEAD)) => true
                  | _ => has_guard (timed_lock_guard r)
                  end
  end ∧
  (∀ w g, mine w = true → ∃ w', guard_drop g w = Return w' ∧ mine w' = false).
Proof.
  intros Hm Hd Hb Hf. split; [intros r w' Hl; by eapply lock_gives_guard|]. split; [intros r w' Hl; by eapply try_lock_gives_guard|]. split.
  - destruct (handle_clock_type h) eqn:Hc; [by apply monotonic_gives_guard|intros r w'; by apply realtime_gives_guard].
  - intros w0 g H0. unfold guard_drop, release. destruct (pthread_mutex_unlock w0) as [r w'] eqn:E. destruct (unlock_law _ _ _ E H0) as [-> H1]. by exists w'.
Qed.

(** On the realtime clock the owner that died is forgotten: the thread holds the mutex, and
    has an error without a guard. Nothing is left that could unlock it. *)
Theorem realtime_timed_lock_loses_the_guard w h fuel duration now ts w0 w' :
  mine w = false → handle_clock_type h = Realtime →
  now_with_clock Realtime w = (Ok now, w0) → as_duration now = Return ts → ts + duration < DURATION_END →
  pthread_mutex_timedlock (duration_as_timespec (ts + duration)) w0 = (Err EOWNERDEAD, w') →
  timed_lock (T := T) fuel h duration w = Return (Err (TimedMutexLockError (LockUnknownError EOWNERDEAD)), w') ∧ mine w' = true.
Proof.
  intros Hm Hc Hn Hts Hb Hl. unfold timed_lock. rewrite Hc, Hn, Hts. cbn [obind]. rewrite dadd_ok by done. cbn [obind]. rewrite Hl.
  split; [done|]. rewrite (timedlock_law _ _ _ _ Hl); [done|]. pose proof (now_keeps mine Realtime w) as Hk. rewrite Hn in Hk. cbn in Hk. by rewrite Hk.
Qed.
End MutexTheorems.

(** ** Creation and the handle *)

Lemma begin_create_new h : reference_counter h = Uninitialized → begin_create h = Some (set_counter h PerformingInitialization).
Proof. intros Hh. unfold begin_create, compare_exchange. by rewrite Hh. Qed.
Lemma begin_create_busy h : reference_counter h ≠ Uninitialized → begin_create h = None.
Proof. intros Hh. unfold begin_create, compare_exchange. by rewrite (proj2 (Z.eqb_neq _ _) Hh). Qed.

(** What a creation does to its handle. A mutex that cannot be created blocks it: the handle
    is left in the state of being set up, in which every later creation fails. *)
Theorem mutex_creation_and_handle `{!Mutex.PthreadMutex W} {T} b (t : T) (h : Mutex.MutexHandle T) w r h' w' :
  reference_counter (Mutex.handle h) = Uninitialized → Mutex.create b t h w = Return (r, h', w') →
  match r with
  | Ok _ => reference_counter (Mutex.handle h') = Initialized ∧ object (Mutex.handle h') = true ∧ Mutex.value h' = Some t
  | Err _ => reference_counter (Mutex.handle h') = PerformingInitialization ∧
      ∀ b t w, Mutex.create b t h' w = Return (Err Mutex.HandleAlreadyInitialized, h', w)
  end.
Proof.
  intros Hh. unfold Mutex.create. rewrite (begin_create_new _ Hh).
  destruct (Mutex.initialize b w) as [[[[]|e] w1]| |]; cbn; try done; intros [= <- <- <-]; [done|].
  split; [done|]. intros b' t' w''. by rewrite begin_create_busy.
Qed.

(** So does a barrier. *)
Theorem barrier_creation_and_handle `{!Barrier.PthreadBarrier W} b h w r h' w' :
  reference_counter h = Uninitialized → Barrier.create b h w = Return (r, h', w') →
  match r with
  | Ok _ => reference_counter h' = Initialized ∧ object h' = true
  | Err _ => reference_counter h' = PerformingInitialization ∧ ∀ b w, Barrier.create b h' w = Return (Err Barrier.HandleAlreadyInitialized, h', w)
  end.
Proof.
  intros Hh. unfold Barrier.create. rewrite (begin_create_new _ Hh).
  assert (∀ x b w, reference_counter x = PerformingInitialization → Barrier.create b x w = Return (Err Barrier.HandleAlreadyInitialized, x, w)) as Hblocked.
  { intros x b' w1 Hx. unfold Barrier.create. rewrite begin_create_busy; [done|by rewrite Hx]. }
  unfold scope_guard. destruct (Barrier.pthread_barrierattr_init w) as [[[]|e] w1]; cbn.
  2:{ intros [= <- <- <-]. split; [done|]. intros b' w2. by apply Hblocked. }
  destruct (Barrier.pthread_barrierattr_setpshared _ w1) as [[] w2]; cbn; [|done].
  destruct (Barrier.pthread_barrier_init _ w2) as [[[]|e] w3]; cbn; destruct (Barrier.pthread_barrierattr_destroy w3) as [[] w4]; cbn; try done;
    intros [= <- <- <-]; [done|]. split; [done|]. intros b' w5. by apply Hblocked.
Qed.

(** A read-write mutex gives its handle back, except where the attributes cannot be made. *)
Theorem rw_mutex_creation_and_handle `{!ReadWriteMutex.PthreadRwlock W} {T} b (t : T) (h : ReadWriteMutex.ReadWriteMutexHandle T) w r h' w' :
  reference_counter (ReadWriteMutex.handle h) = Uninitialized → ReadWriteMutex.create b t h w = Return (r, h', w') →
  match r with
  | Ok _ => reference_counter (ReadWriteMutex.handle h') = Initialized ∧ object (ReadWriteMutex.handle h') = true ∧ ReadWriteMutex.value h' = Some t
  | Err _ => reference_counter (ReadWriteMutex.handle h') =
      match (ReadWriteMutex.pthread_rwlockattr_init w).1 with Ok _ => Uninitialized | Err _ => PerformingInitialization end
  end.
Proof.
  intros Hh. unfold ReadWriteMutex.create. rewrite (begin_create_new _ Hh). unfold ReadWriteMutex.initialize, scope_guard.
  destruct (ReadWriteMutex.pthread_rwlockattr_init w) as [[[]|e] w1]; cbn; [|by intros [= <- <- <-]].
  assert (∀ (o : outcome W) (res : result (ReadWriteMutex.ReadWriteMutexHandle T) (ReadWriteMutex.ReadWriteMutexCreationError * ReadWriteMutex.ReadWriteMutexHandle T)) r' h0 w0,
    (let! '(r, w) := let! w := o in Return (res, w) in
     match r with
     | Err (e, h) => Return (Err e, h, w)
     | Ok h => Return (Ok tt, ReadWriteMutex.mkRwHandle (finish_create (set_capable (ReadWriteMutex.handle h) (ReadWriteMutex.is_interprocess_capable b)))
         (ReadWriteMutex.clock_type b) (Some t), w)
     end) = Return (r', h0, w0) →
    match res, r' with
    | Ok _, Ok _ => reference_counter (ReadWriteMutex.handle h0) = Initialized ∧ object (ReadWriteMutex.handle h0) = true ∧ ReadWriteMutex.value h0 = Some t
    | Err (_, h1), Err _ => h0 = h1
    | _, _ => False
    end) as Hend.
  { intros [w0| |] [h0|[e0 h0]] r' h1 w1'; cbn; try done; by intros [= <- <- <-]. }
  destruct (ReadWriteMutex.pthread_rwlockattr_setpshared _ w1) as [[] w2]; cbn [negb obind].
  2:{ intros Hr. apply Hend in Hr. destruct r; [done|]. by subst h'. }
  destruct (ReadWriteMutex.pthread_rwlockattr_setkind_np _ w2) as [[] w3]; cbn [negb obind].
  2:{ intros Hr. apply Hend in Hr. destruct r; [done|]. by subst h'. }
  destruct (ReadWriteMutex.pthread_rwlock_init w3) as [[[]|e] w4]; cbn [obind]; intros Hr; apply Hend in Hr; destruct r; try done. by subst h'.
Qed.

(** ** A free mutex, and one whose owner died *)

Section Sample.
#[local] Instance locks_checked : Profile := true.

Inductive SampleMutex := Free | Held | OwnerDied.
Definition take (s : SampleMutex) : result unit Errno * SampleMutex :=
  match s with Free => (Ok tt, Held) | Held => (Err EDEADLK, Held) | OwnerDied => (Err EOWNERDEAD, Held) end.
Definition LocksWorld : Type := SampleClock * SampleMutex.
Definition taken (w : LocksWorld) : result unit Errno * LocksWorld := let '(r, s) := take w.2 in (r, (w.1, s)).

#[local] Instance locks_clock_os : ClockOs LocksWorld := beside_os.
#[local] Instance locks_clock_laws : ClockLaws LocksWorld := beside_laws.
#[local] Instance locks_os : Mutex.PthreadMutex LocksWorld := {
  pthread_mutexattr_init w := (true, w);
  pthread_mutexattr_destroy w := (true, w);
  pthread_mutexattr_setpshared w := (true, w);
  pthread_mutexattr_settype _ w := (true, w);
  pthread_mutexattr_setprotocol _ w := (true, w);
  pthread_mutexattr_setrobust _ w := (true, w);
  pthread_mutexattr_setprioceiling _ w := (false, w);
  pthread_mutex_init w := (Ok tt, w);
  pthread_mutex_destroy w := (true, w);
  pthread_mutex_lock := taken;
  pthread_mutex_trylock := taken;
  pthread_mutex_timedlock _ := taken;
  pthread_mutex_unlock w := (match w.2 with Held => Ok tt | _ => Err EPERM end, (w.1, Free));
  pthread_mutex_consistent w := (true, w);
  pthread_mutex_getprioceiling w := (Err EINVAL, w);
  pthread_mutex_setprioceiling _ w := (Err EINVAL, w)
}.

Definition holds (s : SampleMutex) : bool := match s with Held => true | _ => false end.
Lemma taken_law (w : LocksWorld) r w' : taken w = (r, w') → clock w ≤ clock w' ∧ (holds w.2 = false → holds w'.2 = acquired r).
Proof. destruct w as [c []]; intros [= <- <-]; (split; [done|]); done. Qed.

#[local] Instance locks_laws : MutexLaws LocksWorld.
Proof.
  refine {| mine := λ w, holds w.2 |}.
  - intros w r w' H. apply (proj2 (taken_law _ _ _ H)).
  - intros w r w' H. by apply taken_law.
  - intros ts w r w' H. apply (proj2 (taken_law _ _ _ H)).
  - intros [c []] r w' [= <- <-]; done.
Defined.

Lemma guard_is_the_lock_witness :
  ∃ r w', Mutex.timed_lock (T := unit) (Z.to_nat 10012) (Mutex.handle_new Monotonic) (from_millis 1) ((from_secs 5, OwnerDied) : LocksWorld) = Return (r, w') ∧
    mine w' = has_guard (Mutex.timed_lock_guard r).
Proof.
  destruct (guard_is_the_lock (T := unit) ((from_secs 5, OwnerDied) : LocksWorld) (Mutex.handle_new Monotonic) (Z.to_nat 10012) (from_millis 1))
    as (_ & _ & (r & w' & H1 & H2 & _) & _); [done|done|reflexivity|rewrite Z2Nat.id by lia; reflexivity|].
  exists r, w'. exact (conj H1 H2).
Defined.

Lemma realtime_timed_lock_loses_the_guard_witness :
  ∃ w', Mutex.timed_lock (T := unit) 0 (Mutex.handle_new Realtime) (from_millis 1) ((from_secs 5, OwnerDied) : LocksWorld) =
      Return (Err (Mutex.TimedMutexLockError (Mutex.LockUnknownError EOWNERDEAD)), w') ∧ mine w' = true.
Proof.
  eexists. eapply (realtime_timed_lock_loses_the_guard (T := unit) ((from_secs 5, OwnerDied) : LocksWorld)); reflexivity.
Defined.
End Sample.
