(* ===== verification/PosixSemaphore.v ===== *)
(** * elkodon_bb/posix/src/semaphore.rs

    Named semaphores, unnamed ones in an [IpcHandle], and what can be done with both. The
    semaphores of the operating system are an interface ([SemaphoreOs]) with what POSIX says
    about them ([SemaphoreLaws]).

    The theorems: any number of handles of a semaphore count together; waiting with a
    timeout ends, and takes something exactly when it says so; a semaphore that is created
    and dropped leaves nothing behind. [OpenOrCreate] never creates: it hands out a
    semaphore without a handle. *)

From S2P Require Import Prelude Clock.
From S2P Require IpcHandle PosixLocks MessageQueue.

Import MessageQueue(CreationMode, CreateExclusive, PurgeAndCreate, OpenOrCreate, Name, add_slash).

Inductive NamedSemaphoreCreationError :=
| InsufficientPermissions | InitialValueTooLarge | PerProcessFileHandleLimitReached | SystemWideFileHandleLimitReached | AlreadyExists
| MaxFilePathLengthExceeded | Interrupt | NotSupportForGivenName | DoesNotExist | NoSpaceLeft | UnknownError (e : Errno).
Inductive UnnamedSemaphoreCreationError :=
| UnnamedInitialValueTooLarge | ExceedsMaximumNumberOfSemaphores | UnnamedInsufficientPermissions | HandleAlreadyInitialized | UnnamedUnknownError (e : Errno).
Inductive SemaphorePostError := Overflow | PostUnknownError (e : Errno).
Inductive SemaphoreWaitError := NotSupported | DeadlockConditionDetected | WaitInterrupt | WaitUnknownError (e : Errno).
Inductive SemaphoreTimedWaitError :=
| WaitingTimeExceedsSystemLimits | TimedSemaphoreWaitError (e : SemaphoreWaitError) | TimedAdaptiveWaitError (e : AdaptiveWaitError) | TimedWaitTimeError (e : TimeError).

Inductive UnlinkMode := IgnoreNonExistingSemaphore | FailWhenSemaphoreDoesNotExist.
Inductive InitMode := Create | Open | TryOpen.

Record NamedSemaphoreBuilder := mkNamedBuilder { nb_name : Name; nb_initial_value : Z; nb_permission : Z; nb_clock_type : ClockType; nb_creation_mode : option CreationMode }.
Definition named_builder_new (n : Name) (owner_all : Z) (default : ClockType) : NamedSemaphoreBuilder := mkNamedBuilder n 0 owner_all default None.
Definition creation_mode (b : NamedSemaphoreBuilder) (m : CreationMode) : NamedSemaphoreBuilder :=
  mkNamedBuilder (nb_name b) (nb_initial_value b) (nb_permission b) (nb_clock_type b) (Some m).
Definition initial_value (b : NamedSemaphoreBuilder) (v : Z) : NamedSemaphoreBuilder :=
  mkNamedBuilder (nb_name b) v (nb_permission b) (nb_clock_type b) (nb_creation_mode b).

(** [None]: SEM_FAILED, which is a null pointer. *)
Record NamedSemaphore := mkNamed { sem_name : Name; sem_handle : option Z; has_ownership : bool; sem_clock_type : ClockType }.
Definition set_handle (s : NamedSemaphore) (h : option Z) : NamedSemaphore := mkNamed (sem_name s) h (has_ownership s) (sem_clock_type s).
Definition set_ownership (s : NamedSemaphore) (b : bool) : NamedSemaphore := mkNamed (sem_name s) (sem_handle s) b (sem_clock_type s).

Class SemaphoreOs (W : Type) := {
  sem_create : Name → Z → Z → W → result Z Errno * W;
  sem_open : Name → W → result Z Errno * W;
  sem_unlink : Name → W → result unit Errno * W;
  sem_close : Z → W → bool * W;
  sem_init : Z → bool → Z → W → result unit Errno * W;
  sem_destroy : Z → W → bool * W;
  sem_post : Z → W → result unit Errno * W;
  sem_wait : Z → W → result unit Errno * W;
  sem_trywait : Z → W → result unit Errno * W;
  sem_timedwait : Z → timespec → W → result unit Errno * W
}.

Section Operations.
Context `{P : Profile} {W : Type} `{!ClockOs W, !SemaphoreOs W}.
(** [MAX_INITIAL_SEMAPHORE_VALUE] *)
Context (max_initial : Z).
Implicit Types (w : W) (s : NamedSemaphore) (b : NamedSemaphoreBuilder) (h : option Z).

(** A call on the semaphore behind a pointer. *)
Definition on_handle {A} h (call : Z → W → A * W) w : outcome (A * W) :=
  match h with None => Undefined | Some d => Return (call d w) end.

(** ** SemaphoreInterface *)

Definition post h w : outcome (result unit SemaphorePostError * W) :=
  let! '(r, w) := on_handle h sem_post w in
  match r with
  | Ok _ => Return (Ok tt, w)
  | Err EINVAL => Panic
  | Err EOVERFLOW => Return (Err Overflow, w)
  | Err v => Return (Err (PostUnknownError v), w)
  end.

Definition wait_error (e : Errno) : SemaphoreWaitError :=
  match e with ENOSYS => NotSupported | EDEADLK => DeadlockConditionDetected | EINTR => WaitInterrupt | v => WaitUnknownError v end.

Definition wait h w : outcome (result unit SemaphoreWaitError * W) :=
  let! '(r, w) := on_handle h sem_wait w in
  match r with
  | Ok _ => Return (Ok tt, w)
  | Err EINVAL => Panic
  | Err e => Return (Err (wait_error e), w)
  end.

Definition try_wait h w : outcome (result bool SemaphoreWaitError * W) :=
  let! '(r, w) := on_handle h sem_trywait w in
  match r with
  | Ok _ => Return (Ok true, w)
  | Err EAGAIN => Return (Ok false, w)
  | Err EINVAL => Panic
  | Err e => Return (Err (wait_error e), w)
  end.

Definition timed_predicate h w : outcome (result bool SemaphoreWaitError * W) :=
  let! '(r, w) := try_wait h w in Return (match r with Ok b => Ok (negb b) | Err e => Err e end, w).

Definition timed_wait (fuel : nat) h (c : ClockType) (timeout : Duration) w : outcome (result bool SemaphoreTimedWaitError * W) :=
  match c with
  | Monotonic =>
      let '(r, w) := adaptive_wait_new Monotonic w in
      match r with
      | Err e => Return (Err (TimedWaitTimeError e), w)
      | Ok a =>
          let! '(r, _, w) := timed_wait_while fuel (timed_predicate h) timeout a w in
          Return (match r with
                  | Ok v => Ok v
                  | Err (PredicateFailure v) => Err (TimedSemaphoreWaitError v)
                  | Err (WaitFailure v) => Err (TimedAdaptiveWaitError v)
                  end, w)
      end
  | Realtime =>
      let '(r, w) := now_with_clock Realtime w in
      match r with
      | Err e => Return (Err (TimedWaitTimeError e), w)
      | Ok now =>
          let! n := as_duration now in
          let! wait_time := dadd timeout n in
          let! '(r, w) := on_handle h (λ d, sem_timedwait d (duration_as_timespec wait_time)) w in
          Return (match r with
                  | Ok _ => Ok true
                  | Err ETIMEDOUT => Ok false
                  | Err EINVAL => Err WaitingTimeExceedsSystemLimits
                  | Err EDEADLK => Err (TimedSemaphoreWaitError DeadlockConditionDetected)
                  | Err EINTR => Err (TimedSemaphoreWaitError WaitInterrupt)
                  | Err v => Err (TimedSemaphoreWaitError (WaitUnknownError v))
                  end, w)
      end
  end.

(** ** Named semaphores *)

Definition unlink s (mode : UnlinkMode) w : result unit NamedSemaphoreCreationError * W :=
  let '(r, w) := sem_unlink (add_slash (sem_name s)) w in
  (match r with
   | Ok _ => Ok tt
   | Err ENOENT => match mode with IgnoreNonExistingSemaphore => Ok tt | FailWhenSemaphoreDoesNotExist => Err AlreadyExists end
   | Err EACCES => Err InsufficientPermissions
   | Err ENAMETOOLONG => Err MaxFilePathLengthExceeded
   | Err v => Err (UnknownError v)
   end, w).

Definition open_error (e : Errno) : NamedSemaphoreCreationError :=
  match e with
  | ENOENT => DoesNotExist | EACCES => InsufficientPermissions | EEXIST => AlreadyExists | EINTR => Interrupt | EINVAL => NotSupportForGivenName
  | EMFILE => PerProcessFileHandleLimitReached | ENAMETOOLONG => MaxFilePathLengthExceeded | ENFILE => SystemWideFileHandleLimitReached
  | ENOSPC => NoSpaceLeft | v => UnknownError v
  end.

(** [success_when]: with [TryOpen] a semaphore that does not exist is no error. *)
Definition open s (permission : Z) (mode : InitMode) (value : Z) w : result unit NamedSemaphoreCreationError * NamedSemaphore * W :=
  if max_initial <? value then (Err InitialValueTooLarge, s, w)
  else
    let '(r, w) := match mode with Create => sem_create (add_slash (sem_name s)) permission value w | _ => sem_open (add_slash (sem_name s)) w end in
    match r with
    | Ok d => (Ok tt, set_handle s (Some d), w)
    | Err e =>
        let s := set_handle s None in
        match mode, e with
        | TryOpen, ENOENT => (Ok tt, s, w)
        | _, e => (Err (open_error e), s, w)
        end
    end.

(** A semaphore without a handle is dropped without effect, as it is on every error here. *)
Definition drop s w : outcome W :=
  match sem_handle s with
  | None => Return w
  | Some d =>
      let '(ok, w) := sem_close d w in
      if ok : bool then
        if has_ownership s then
          let '(r, w) := unlink s FailWhenSemaphoreDoesNotExist w in
          match r with Ok _ => Return w | Err _ => Panic end
        else Return w
      else Panic
  end.

Definition created s (permission value : Z) w : result NamedSemaphore NamedSemaphoreCreationError * W :=
  let '(r, s, w) := open (set_ownership s true) permission Create value w in (match r with Ok _ => Ok s | Err e => Err e end, w).

(** [none]: [Permission::NONE] *)
Definition named_new (none : Z) b w : result NamedSemaphore NamedSemaphoreCreationError * W :=
  let new_sem := mkNamed (nb_name b) None false (nb_clock_type b) in
  match nb_creation_mode b with
  | None =>
      let '(r, s, w) := open new_sem none Open 0 w in (match r with Ok _ => Ok s | Err e => Err e end, w)
  | Some PurgeAndCreate =>
      let '(r, w) := unlink (set_ownership new_sem true) IgnoreNonExistingSemaphore w in
      match r with Err e => (Err e, w) | Ok _ => created new_sem (nb_permission b) (nb_initial_value b) w end
  | Some CreateExclusive => created new_sem (nb_permission b) (nb_initial_value b) w
  | Some OpenOrCreate =>
      let '(r, s, w) := open new_sem none TryOpen 0 w in
      match r with
      | Ok _ => (Ok s, w)
      | Err DoesNotExist => created s (nb_permission b) (nb_initial_value b) w
      | Err v => (Err v, w)
      end
  end.

(** ** Unnamed semaphores *)

Record UnnamedSemaphoreBuilder := mkUnnamedBuilder { ub_clock_type : ClockType; ub_is_interprocess_capable : bool; ub_initial_value : Z }.
Definition unnamed_builder_new (default : ClockType) : UnnamedSemaphoreBuilder := mkUnnamedBuilder default true 0.

(** [sem]: the address of the semaphore in the handle. *)
Record UnnamedSemaphoreHandle := mkUnnamedHandle { uh_handle : IpcHandle.Handle; uh_clock_type : ClockType; sem : Z }.
Definition set_ipc (h : UnnamedSemaphoreHandle) (x : IpcHandle.Handle) : UnnamedSemaphoreHandle := mkUnnamedHandle x (uh_clock_type h) (sem h).

Definition init_error (e : Errno) : UnnamedSemaphoreCreationError :=
  match e with
  | EINVAL => UnnamedInitialValueTooLarge | ENOSPC => ExceedsMaximumNumberOfSemaphores | EPERM => UnnamedInsufficientPermissions
  | v => UnnamedUnknownError v
  end.

Definition unnamed_create (b : UnnamedSemaphoreBuilder) (h : UnnamedSemaphoreHandle) w
    : result unit UnnamedSemaphoreCreationError * UnnamedSemaphoreHandle * W :=
  match PosixLocks.begin_create (uh_handle h) with
  | None => (Err HandleAlreadyInitialized, h, w)
  | Some x =>
      let h := mkUnnamedHandle (IpcHandle.set_capable x (ub_is_interprocess_capable b)) (ub_clock_type b) (sem h) in
      if max_initial <? ub_initial_value b then (Err UnnamedInitialValueTooLarge, set_ipc h (PosixLocks.give_back (uh_handle h)), w)
      else
        let '(r, w) := sem_init (sem h) (ub_is_interprocess_capable b) (ub_initial_value b) w in
        match r with
        | Ok _ => (Ok tt, set_ipc h (PosixLocks.finish_create (uh_handle h)), w)
        | Err e => (Err (init_error e), h, w)
        end
  end.

Definition unnamed_drop (h : UnnamedSemaphoreHandle) w : outcome (UnnamedSemaphoreHandle * W) :=
  let! '(x, w) := PosixLocks.drop_construct (sem_destroy (sem h)) (uh_handle h) w in Return (set_ipc h x, w).
End Operations.

(** ** What POSIX says

    The names of the semaphores, the semaphores behind the pointers of this process, and
    the values. The other processes can change values while this one waits. *)

Record Semaphores := mkSemaphores { sk_names : gmap Name Z; sk_open : gmap Z Z; sk_values : gmap Z Z }.
Definition set_value (k : Semaphores) (id v : Z) : Semaphores := mkSemaphores (sk_names k) (sk_open k) (<[id := v]> (sk_values k)).

(** The pointer [d] leads to the semaphore [id] with the value [v]. *)
Definition leads_to (k : Semaphores) (d id v : Z) : Prop := sk_open k !! d = Some id ∧ sk_values k !! id = Some v.

Class SemaphoreLaws (W : Type) `{!ClockOs W, !ClockLaws W, !SemaphoreOs W} := {
  semaphores : W → Semaphores;
  sem_value_max : Z;
  clock_keeps_open :: ClockKeeps (λ w, sk_open (semaphores w));
  sem_create_law n p v w r w' :
    sem_create n p v w = (r, w') →
    match r with
    | Ok d => ∃ id, sk_names (semaphores w) !! n = None ∧ sk_values (semaphores w) !! id = None ∧
        semaphores w' = mkSemaphores (<[n := id]> (sk_names (semaphores w))) (<[d := id]> (sk_open (semaphores w))) (<[id := v]> (sk_values (semaphores w)))
    | Err e => semaphores w' = semaphores w
    end;
  sem_open_law n w r w' :
    sem_open n w = (r, w') →
    match r with
    | Ok d => ∃ id, sk_names (semaphores w) !! n = Some id ∧
        semaphores w' = mkSemaphores (sk_names (semaphores w)) (<[d := id]> (sk_open (semaphores w))) (sk_values (semaphores w))
    | Err e => semaphores w' = semaphores w
    end;
  sem_unlink_law n w r w' :
    sem_unlink n w = (r, w') →
    match r with
    | Ok _ => is_Some (sk_names (semaphores w) !! n) ∧ sk_names (semaphores w') = delete n (sk_names (semaphores w))
    | Err e => semaphores w' = semaphores w
    end;
  sem_close_law d id w :
    sk_open (semaphores w) !! d = Some id → ∃ w', sem_close d w = (true, w') ∧ sk_names (semaphores w') = sk_names (semaphores w);
  sem_post_law d id v w r w' :
    leads_to (semaphores w) d id v → sem_post d w = (r, w') →
    if v <? sem_value_max then r = Ok tt ∧ semaphores w' = set_value (semaphores w) id (v + 1)
    else r = Err EOVERFLOW ∧ semaphores w' = semaphores w;
  sem_trywait_law d id v w r w' :
    leads_to (semaphores w) d id v → sem_trywait d w = (r, w') →
    match r with
    | Ok _ => 0 < v ∧ semaphores w' = set_value (semaphores w) id (v - 1)
    | Err e => semaphores w' = semaphores w ∧ (e = EAGAIN → v ≤ 0) ∧ e ≠ EINVAL
    end;
  sem_trywait_frame d w r w' :
    sem_trywait d w = (r, w') → clock w ≤ clock w' ∧ sk_open (semaphores w') = sk_open (semaphores w) ∧
    (is_Some (sk_open (semaphores w) !! d) → r ≠ Err EINVAL)
}.

Section Theorems.
Context `{P : Profile} {W : Type} `{!ClockOs W, !ClockLaws W, !SemaphoreOs W, !SemaphoreLaws W}.
Context (max_initial : Z).
Implicit Types (w : W) (s : NamedSemaphore).

(** *** Counting *)

(** The handles [ds] belong to one semaphore, which has the value [v]. *)
Record shared (k : Semaphores) (ds : list Z) (id v : Z) : Prop := {
  sh_open : Forall (λ d, sk_open k !! d = Some id) ds;
  sh_value : sk_values k !! id = Some v;
  sh_bound : 0 ≤ v ≤ sem_value_max
}.

Lemma shared_leads k ds id v i d : shared k ds id v → ds !! i = Some d → leads_to k d id v.
Proof. intros [Ho Hv _] Hi. split; [|done]. by eapply Forall_lookup_1 in Ho. Qed.
Lemma shared_set k ds id v v' : shared k ds id v → 0 ≤ v' ≤ sem_value_max → shared (set_value k id v') ds id v'.
Proof. intros [Ho Hv _] Hb. constructor; cbn; [done|by rewrite lookup_insert_eq|done]. Qed.

Inductive SemOp := OpPost (i : nat) | OpTryWait (i : nat).
Inductive SemRes := Posted (r : result unit SemaphorePostError) | Waited (r : result bool SemaphoreWaitError).

Definition sem_step (o : SemOp) (ds : list Z) w : outcome (SemRes * W) :=
  match o with
  | OpPost i => match ds !! i with None => Undefined | Some d => let! '(r, w) := post (Some d) w in Return (Posted r, w) end
  | OpTryWait i => match ds !! i with None => Undefined | Some d => let! '(r, w) := try_wait (Some d) w in Return (Waited r, w) end
  end.
Fixpoint sem_run (os : list SemOp) (ds : list Z) w : outcome (list SemRes * W) :=
  match os with
  | [] => Return ([], w)
  | o :: os => let! '(r, w) := sem_step o ds w in let! '(rs, w) := sem_run os ds w in Return (r :: rs, w)
  end.

(** The specification: a counter between zero and its maximum; what it is after an answer,
    where the answer is one it can give. A wait may fail for another reason than the value. *)
Definition counter_next (o : SemOp) (r : SemRes) (v : Z) : option Z :=
  match o, r with
  | OpPost _, Posted (Ok _) => if v <? sem_value_max then Some (v + 1) else None
  | OpPost _, Posted (Err Overflow) => if v <? sem_value_max then None else Some v
  | OpTryWait _, Waited (Ok true) => if 0 <? v then Some (v - 1) else None
  | OpTryWait _, Waited (Ok false) => if 0 <? v then None else Some v
  | OpTryWait _, Waited (Err _) => Some v
  | _, _ => None
  end.
Fixpoint counter_run (os : list SemOp) (rs : list SemRes) (v : Z) : option Z :=
  match os, rs with
  | [], [] => Some v
  | o :: os, r :: rs => counter_next o r v ≫= counter_run os rs
  | _, _ => None
  end.

Definition op_ok (ds : list Z) (o : SemOp) : Prop := match o with OpPost i | OpTryWait i => is_Some (ds !! i) end.

Lemma sem_step_counts ds id v o w :
  shared (semaphores w) ds id v → op_ok ds o →
  ∃ r v' w', sem_step o ds w = Return (r, w') ∧ counter_next o r v = Some v' ∧ shared (semaphores w') ds id v'.
Proof.
  intros Hs Ho. pose proof (sh_bound _ _ _ _ Hs). destruct o as [i|i]; destruct Ho as [d Hd]; cbn [sem_step]; rewrite Hd;
    pose proof (shared_leads _ _ _ _ _ _ Hs Hd) as Hl; unfold post, try_wait, on_handle; cbn [obind].
  - destruct (sem_post d w) as [r w'] eqn:E. pose proof (sem_post_law _ _ _ _ _ _ Hl E) as Hlaw.
    destruct (Z.ltb_spec v sem_value_max); destruct Hlaw as [-> Hk]; cbn; eexists _, _, _; (split; [done|]); cbn;
      (case_match; [split; [done|rewrite Hk]|lia] || (case_match; [lia|split; [done|rewrite Hk]])); [|done]. apply (shared_set _ _ _ v); [done|lia].
  - destruct (sem_trywait d w) as [r w'] eqn:E. pose proof (sem_trywait_law _ _ _ _ _ _ Hl E) as Hlaw. destruct r as [u|e].
    + destruct Hlaw as [Hv Hk]. exists (Waited (Ok true)), (v - 1), w'. split; [by destruct u|]. cbn. rewrite (proj2 (Z.ltb_lt _ _) Hv). split; [done|].
      rewrite Hk. apply (shared_set _ _ _ v); [done|lia].
    + destruct Hlaw as (Hk & He & Hi). rewrite <- Hk in Hs. destruct (decide (e = EAGAIN)) as [->|Hne].
      * exists (Waited (Ok false)), v, w'. split; [done|]. cbn. rewrite (proj2 (Z.ltb_ge _ _)) by (by apply He). done.
      * destruct e; try done; by eexists _, v, w'.
Qed.

(** All handles of a semaphore, in whatever order they post and wait without blocking, are
    one counter: a wait that says it has taken one has, and says that there was none only if
    the value was zero; when it is interrupted or fails otherwise it takes nothing; a post
    adds one, and at the maximum it fails with an overflow and changes nothing. *)
Theorem semaphore_is_a_counter ds id v os w :
  shared (semaphores w) ds id v → Forall (op_ok ds) os →
  ∃ rs v' w', sem_run os ds w = Return (rs, w') ∧ counter_run os rs v = Some v' ∧ shared (semaphores w') ds id v'.
Proof.
  intros Hs Hos. revert v w Hs. induction Hos as [|o os Ho Hos IH]; intros v w Hs; [by exists [], v, w|].
  destruct (sem_step_counts ds id v o w Hs Ho) as (r & v1 & w1 & Hst & Hn & Hs1). cbn [sem_run]. rewrite Hst. cbn [obind].
  destruct (IH _ _ Hs1) as (rs & v2 & w2 & Hr & Hc & Hs2). rewrite Hr. cbn [obind].
  exists (r :: rs), v2, w2. split; [done|]. cbn. by rewrite Hn.
Qed.

(** *** Waiting with a timeout *)

Lemma try_wait_returns d w :
  is_Some (sk_open (semaphores w) !! d) →
  ∃ r w', timed_predicate (Some d) w = Return (r, w') ∧ clock w ≤ clock w' ∧ sk_open (semaphores w') = sk_open (semaphores w) ∧
    (r = Ok false → sem_trywait d w = (Ok tt, w')).
Proof.
  intros Hd. unfold timed_predicate, try_wait, on_handle. cbn [obind]. destruct (sem_trywait d w) as [r w'] eqn:E.
  destruct (sem_trywait_frame _ _ _ _ E) as (Hc & Ho & He). specialize (He Hd). destruct r as [[]|e]; [by do 2 eexists|].
  destruct e; try done; by do 2 eexists.
Qed.

(** On the monotonic clock [timed_wait] ends, whatever the other processes do: it has taken
    one from the value when it says [true], and waited for longer than the timeout when it
    says [false]. *)
Theorem timed_wait_ends d timeout fuel w :
  is_Some (sk_open (semaphores w) !! d) → 0 ≤ timeout →
  ADAPTIVE_WAIT_YIELD_REPETITIONS + timeout / ADAPTIVE_WAIT_INITIAL_WAITING_TIME + 1 < Z.of_nat fuel →
  ADAPTIVE_WAIT_YIELD_REPETITIONS + timeout / ADAPTIVE_WAIT_INITIAL_WAITING_TIME + 2 < USIZE →
  ∃ r w', timed_wait fuel (Some d) Monotonic timeout w = Return (r, w') ∧
    (r = Ok true → ∃ w0, sem_trywait d w0 = (Ok tt, w')) ∧
    (r = Ok false → timeout < clock w' - clock w).
Proof.
  intros Hd Ht Hf Hb. unfold timed_wait. pose proof (now_keeps (λ w, sk_open (semaphores w)) Monotonic w) as Hk.
  destruct (adaptive_wait_new Monotonic w) as [r w1] eqn:Ea. destruct (adaptive_wait_new_spec _ _ _ Ea) as [Hw1 Hwt].
  destruct r as [a|e]; [|by do 2 eexists]. destruct (Hwt a eq_refl) as (Hy & s & Hs & Hwait).
  assert (sk_open (semaphores w1) = sk_open (semaphores w)) as Hk1.
  { unfold adaptive_wait_new in Ea. destruct (now_with_clock Monotonic w) as [[] ?]; by injection Ea as _ <-. }
  destruct (timed_wait_while_spec (timed_predicate (Some d)) (λ w, sk_open (semaphores w)) (λ m, is_Some (m !! d)))
    with (timeout := timeout) (a := a) (s := s) (w := w1) (fuel := fuel) as (r & a' & w' & Hr & Hre); try done.
  - intros w0 H0. destruct (try_wait_returns d w0 H0) as (b & w' & H1 & H2 & H3 & _). exists b, w'. by rewrite H3.
  - by rewrite Hk1.
  - rewrite Hy. unfold ADAPTIVE_WAIT_YIELD_REPETITIONS, ADAPTIVE_WAIT_INITIAL_WAITING_TIME, from_micros. lia.
  - rewrite Hy. lia.
  - rewrite Hr. cbn [obind]. do 2 eexists. split; [done|]. destruct r as [[]|[]]; (split; [intros [=]|intros [=]]).
    + destruct Hre as (w0 & H0 & Hp). exists w0. destruct (try_wait_returns d w0 H0) as (b & w2 & H1 & _ & _ & H4). rewrite Hp in H1.
      injection H1 as <- <-. by apply H4.
    + destruct Hre as [_ Hre]. lia.
Qed.

(** *** Named semaphores *)

(** A semaphore that does not exist is not created by [OpenOrCreate]: the result is a
    semaphore without a handle, nothing has changed, and posting to it is undefined. *)
Theorem open_or_create_never_creates none b w w' :
  nb_creation_mode b = Some OpenOrCreate → 0 ≤ max_initial →
  sem_open (add_slash (nb_name b)) w = (Err ENOENT, w') →
  ∃ s, named_new max_initial none b w = (Ok s, w') ∧ sem_handle s = None ∧ semaphores w' = semaphores w ∧ post (sem_handle s) w' = Undefined.
Proof.
  intros Hm Hx Ho. unfold named_new. rewrite Hm. unfold open. cbn [sem_name]. rewrite (proj2 (Z.ltb_ge _ _) Hx), Ho.
  eexists. split; [done|]. split; [done|]. split; [|done]. apply (sem_open_law _ _ _ _ Ho).
Qed.

(** A semaphore that was created has its initial value, and its owner removes its name when
    it is dropped; a name that cannot be removed any more is a panic. *)
Theorem create_exclusive_and_drop none b w r w1 :
  nb_creation_mode b = Some CreateExclusive → named_new max_initial none b w = (r, w1) →
  match r with
  | Err _ => semaphores w1 = semaphores w
  | Ok s => ∃ d id,
      sem_handle s = Some d ∧ nb_initial_value b ≤ max_initial ∧ sk_names (semaphores w) !! add_slash (nb_name b) = None ∧
      sk_names (semaphores w1) !! add_slash (nb_name b) = Some id ∧ leads_to (semaphores w1) d id (nb_initial_value b) ∧
      match drop s w1 with
      | Return w2 => sk_names (semaphores w2) = sk_names (semaphores w)
      | Panic => ∃ e w0, (sem_unlink (add_slash (nb_name b)) w0).1 = Err e
      | Undefined => False
      end
  end.
Proof.
  intros Hm. unfold named_new. rewrite Hm. unfold created, open. cbn [sem_name set_ownership].
  destruct (Z.ltb_spec max_initial (nb_initial_value b)); [by intros [= <- <-]|].
  destruct (sem_create _ _ _ w) as [[d|e] w'] eqn:Ec; pose proof (sem_create_law _ _ _ _ _ _ Ec) as Hlaw; cbn in Hlaw.
  2:{ intros [= <- <-]. done. }
  intros [= <- <-]. destruct Hlaw as (id & Hn & Hid & Hk). exists d, id. cbn. split; [done|]. split; [done|]. split; [done|].
  split; [rewrite Hk; cbn; by rewrite lookup_insert_eq|]. split; [rewrite Hk; split; cbn; by rewrite lookup_insert_eq|].
  unfold drop. cbn. destruct (sem_close_law d id w') as (w2 & -> & Hn2); [rewrite Hk; cbn; by rewrite lookup_insert_eq|].
  unfold unlink. cbn. destruct (sem_unlink _ w2) as [r w3] eqn:Eu. pose proof (sem_unlink_law _ _ _ _ Eu) as Hu. destruct r as [[]|e].
  - destruct Hu as [_ ->]. rewrite Hn2, Hk. cbn. by rewrite delete_insert_id.
  - destruct e; exists ltac:(match type of Eu with _ = (Err ?e, _) => exact e end), w2; by rewrite Eu.
Qed.

(** An unnamed semaphore gives its handle back when the initial value is too large, and
    blocks it when the operating system refuses. *)
Theorem unnamed_creation_and_handle b h w r h' w' :
  IpcHandle.reference_counter (uh_handle h) = IpcHandle.Uninitialized → unnamed_create max_initial b h w = (r, h', w') →
  match r with
  | Ok _ => IpcHandle.reference_counter (uh_handle h') = IpcHandle.Initialized ∧ IpcHandle.object (uh_handle h') = true
  | Err _ =>
      if max_initial <? ub_initial_value b then IpcHandle.reference_counter (uh_handle h') = IpcHandle.Uninitialized
      else IpcHandle.reference_counter (uh_handle h') = IpcHandle.PerformingInitialization ∧
        ∀ b w, unnamed_create max_initial b h' w = (Err HandleAlreadyInitialized, h', w)
  end.
Proof.
  intros Hh. unfold unnamed_create. rewrite (PosixLocks.begin_create_new _ Hh). destruct (max_initial <? ub_initial_value b); [by intros [= <- <- <-]|].
  destruct (sem_init _ _ _ w) as [[[]|e] w1]; intros [= <- <- <-]; [done|]. split; [done|]. intros b' w2. by rewrite PosixLocks.begin_create_busy.
Qed.
End Theorems.

(** ** An operating system *)

Section Sample.
#[local] Instance semaphore_checked : Profile := true.

(** Values go up to three; pointers are the ids of their semaphores. *)
Definition SemWorld : Type := SampleClock * Semaphores.
Implicit Types w : SemWorld.
#[local] Instance sem_clock_os : ClockOs SemWorld := beside_os.
#[local] Instance sem_clock_laws : ClockLaws SemWorld := beside_laws.
Definition with_semaphores w (k : Semaphores) : SemWorld := (w.1, k).
Definition add_to (d : Z) (allowed : Z → bool) (e : Errno) (delta : Z) w : result unit Errno * SemWorld :=
  match (id ← sk_open w.2 !! d; v ← sk_values w.2 !! id; Some (id, v)) with
  | None => (Err ENOSYS, w)
  | Some (id, v) => if allowed v then (Ok tt, with_semaphores w (set_value w.2 id (v + delta))) else (Err e, w)
  end.

#[local] Instance sem_os : SemaphoreOs SemWorld := {
  sem_create n p v w :=
    match sk_names w.2 !! n with
    | Some _ => (Err EEXIST, w)
    | None =>
        let id := MessageQueue.next_free (sk_values w.2) in
        (Ok id, with_semaphores w (mkSemaphores (<[n := id]> (sk_names w.2)) (<[id := id]> (sk_open w.2)) (<[id := v]> (sk_values w.2))))
    end;
  sem_open n w :=
    match sk_names w.2 !! n with
    | None => (Err ENOENT, w)
    | Some id => (Ok id, with_semaphores w (mkSemaphores (sk_names w.2) (<[id := id]> (sk_open w.2)) (sk_values w.2)))
    end;
  sem_unlink n w :=
    match sk_names w.2 !! n with
    | None => (Err ENOENT, w)
    | Some _ => (Ok tt, with_semaphores w (mkSemaphores (delete n (sk_names w.2)) (sk_open w.2) (sk_values w.2)))
    end;
  sem_close d w := (true, with_semaphores w (mkSemaphores (sk_names w.2) (delete d (sk_open w.2)) (sk_values w.2)));
  sem_init _ _ _ w := (Ok tt, w);
  sem_destroy _ w := (true, w);
  sem_post d w := add_to d (λ v, v <? 3) EOVERFLOW 1 w;
  sem_wait d w := add_to d (λ v, 0 <? v) EINTR (-1) w;
  sem_trywait d w := add_to d (λ v, 0 <? v) EAGAIN (-1) w;
  sem_timedwait d _ w := add_to d (λ v, 0 <? v) ETIMEDOUT (-1) w
}.

Lemma add_to_law allowed e delta d id v w r w' :
  leads_to w.2 d id v → add_to d allowed e delta w = (r, w') →
  if allowed v : bool then r = Ok tt ∧ w'.2 = set_value w.2 id (v + delta) else r = Err e ∧ w'.2 = w.2.
Proof. intros [Ho Hv]. unfold add_to. rewrite Ho. cbn. rewrite Hv. cbn. destruct (allowed v); by intros [= <- <-]. Qed.
Lemma add_to_frame allowed e delta d w r w' :
  e ≠ EINVAL → add_to d allowed e delta w = (r, w') → w'.1 = w.1 ∧ sk_open w'.2 = sk_open w.2 ∧ r ≠ Err EINVAL.
Proof. intros He. unfold add_to. destruct (sk_open w.2 !! d ≫= _) as [[id v]|]; [destruct (allowed v)|]; intros [= <- <-]; repeat split; congruence. Qed.

#[local] Instance sem_laws : SemaphoreLaws SemWorld.
Proof.
  refine {| semaphores := λ w, w.2; sem_value_max := 3 |}.
  - intros n p v w r w'. cbn. destruct (sk_names w.2 !! n) eqn:En; intros [= <- <-]; [done|].
    eexists. split; [done|]. split; [apply MessageQueue.next_free_none|done].
  - intros n w r w'. cbn. destruct (sk_names w.2 !! n) eqn:En; intros [= <- <-]; [|done]. by eexists.
  - intros n w r w'. cbn. destruct (sk_names w.2 !! n) eqn:En; intros [= <- <-]; [|done]. split; [by eexists|done].
  - intros d id w Hd. by eexists.
  - intros d id v w r w' Hl H. apply (add_to_law _ _ _ _ _ _ _ _ _ Hl H).
  - intros d id v w r w' [Ho Hv] H. cbn in H. unfold add_to in H. rewrite Ho in H. cbn in H. rewrite Hv in H. cbn in H.
    destruct (Z.ltb_spec 0 v); injection H as <- <-; [done|]. split; [done|]. split; [|done]. done.
  - intros d w r w' H. destruct (add_to_frame _ EAGAIN _ _ _ _ _ ltac:(done) H) as (H1 & H2 & H3). split; [cbn; by rewrite H1|]. by split.
Defined.

Definition sample_semaphores : SemWorld := (from_secs 5, mkSemaphores {[ [47; 97] := 1 ]} {[ 1 := 1; 2 := 1 ]} {[ 1 := 2 ]}).

Lemma semaphore_is_a_counter_witness :
  ∃ w', sem_run [OpPost 0; OpPost 1; OpTryWait 1; OpTryWait 0; OpTryWait 1; OpTryWait 0] [1; 2] sample_semaphores =
    Return ([Posted (Ok tt); Posted (Err Overflow); Waited (Ok true); Waited (Ok true); Waited (Ok true); Waited (Ok false)], w').
Proof.
  destruct (semaphore_is_a_counter [1; 2] 1 2 [OpPost 0; OpPost 1; OpTryWait 1; OpTryWait 0; OpTryWait 1; OpTryWait 0] sample_semaphores)
    as (rs & v' & w' & H & _).
  - constructor; [repeat constructor|done|cbn; lia].
  - repeat constructor; by eexists.
  - exists w'. rewrite H. vm_compute in H. by injection H as <- _.
Defined.

Lemma timed_wait_ends_witness :
  ∃ r w', timed_wait (Z.to_nat 10012) (Some 2) Monotonic (from_millis 1) sample_semaphores = Return (r, w').
Proof.
  destruct (timed_wait_ends 2 (from_millis 1) (Z.to_nat 10012) sample_semaphores) as (r & w' & H & _);
    [by eexists|done|rewrite Z2Nat.id by lia; reflexivity|reflexivity|].
  exists r, w'. exact H.
Defined.

Lemma open_or_create_never_creates_witness :
  ∃ s, named_new 100 0 (creation_mode (named_builder_new [98] 448 Monotonic) OpenOrCreate) sample_semaphores = (Ok s, sample_semaphores) ∧
    post (sem_handle s) sample_semaphores = Undefined.
Proof.
  destruct (open_or_create_never_creates 100 0 (creation_mode (named_builder_new [98] 448 Monotonic) OpenOrCreate) sample_semaphores sample_semaphores)
    as (s & H1 & _ & _ & H2); [done|done|reflexivity|].
  exists s. exact (conj H1 H2).
Defined.
End Sample.
