(* ===== verification/Semaphore.v ===== *)
(** * elkodon_pal/concurrency_primitives: semaphore.rs, barrier.rs, condition_variable.rs

    As in [RwLock], threads are state machines over the atomic accesses and the
    calls of [wait] of the platform, and [wait] may answer anything at any time.

    - [Module Semaphore]: as many waits succeed as the initial value and the
      posts allow;
    - [Module Barrier]: nobody passes before everybody has arrived;
    - [Module ConditionVariable]: the mutex is held when [wait] succeeds, and a
      notification between unlocking and sleeping is not missed. *)

From S2P Require Import Prelude RwLock.

(** ** semaphore.rs *)

Module Semaphore.
Section Semaphore.
Context `{P : Profile}.

(** [posted] and [passed] count the calls of [post] and the successful waits;
    the code has only [value]. *)
Record Semaphore := mkSemaphore { value : Z; posted : Z; passed : Z }.

Definition new (initial_value : Z) : Semaphore := mkSemaphore initial_value 0 0.

Inductive pc :=
| Idle
| Post
| PostWake
| TryLoad
| TryCas (current_value : Z)
| WaitLoad (retry_counter : Z) (keep_running : bool)
| WaitSleep (current_value retry_counter : Z)
| WaitCas (current_value retry_counter : Z) (keep_running : bool).

(** [compare_exchange_weak] may fail although the values agree. *)
Definition compare_exchange_weak (spurious : bool) (cell current new : Z) : Z * result Z Z :=
  if spurious then (cell, Err cell) else compare_exchange cell current new.

(** The loops, up to their next access. *)
Definition try_loop (current_value : Z) : pc :=
  if current_value =? 0 then Idle else TryCas current_value.

Definition wait_loop (current_value retry_counter : Z) (keep_running : bool) : pc :=
  if negb (current_value =? 0) then WaitCas current_value retry_counter keep_running
  else if negb keep_running then Idle
  else if retry_counter <? SPIN_REPETITIONS then WaitLoad (retry_counter + 1) keep_running
  else WaitSleep current_value retry_counter.

(** [post]: [Post], [PostWake]; [try_wait]: [TryLoad], [TryCas]; [wait]: the
    others. [answer] is the answer of [wait], and whether a weak exchange fails. *)
Definition step (s : Semaphore) (answer : bool) (t : pc) : outcome (Semaphore * pc) :=
  match t with
  | Idle => Return (s, Idle)
  | Post => Return (mkSemaphore (wrap U32 (value s + 1)) (posted s + 1) (passed s), PostWake)
  | PostWake => Return (s, Idle)
  | TryLoad => Return (s, try_loop (value s))
  | TryCas v =>
      let! v' := arith U32 (v - 1) in
      let '(cell, r) := compare_exchange_weak answer (value s) v v' in
      match r with
      | Ok _ => Return (mkSemaphore cell (posted s) (passed s + 1), Idle)
      | Err v => Return (mkSemaphore cell (posted s) (passed s), try_loop v)
      end
  | WaitLoad retry_counter keep_running => Return (s, wait_loop (value s) retry_counter keep_running)
  | WaitSleep v retry_counter => Return (s, WaitLoad retry_counter answer)
  | WaitCas v retry_counter keep_running =>
      let! v' := arith U32 (v - 1) in
      let '(cell, r) := compare_exchange_weak answer (value s) v v' in
      match r with
      | Ok _ => Return (mkSemaphore cell (posted s) (passed s + 1), Idle)
      | Err v => Return (mkSemaphore cell (posted s) (passed s), wait_loop v retry_counter keep_running)
      end
  end.

Inductive start : pc → pc → Prop :=
| start_post : start Idle Post
| start_try_wait : start Idle TryLoad
| start_wait : start Idle (WaitLoad 0 true).

Definition pc_ok (t : pc) : Prop :=
  match t with TryCas v | WaitCas v _ _ => 0 < v < U32 | _ => True end.

(** As long as the posts fit the integer, the value is what is left over. *)
Record inv (initial : Z) (s : Semaphore) (ts : list pc) : Prop := {
  inv_counts : 0 ≤ posted s ∧ 0 ≤ passed s;
  inv_range : 0 ≤ value s < U32;
  inv_value : initial + posted s < U32 → value s = initial + posted s - passed s;
  inv_pcs : Forall pc_ok ts
}.

Lemma try_loop_ok v : 0 ≤ v < U32 → pc_ok (try_loop v).
Proof. intros Hv. unfold try_loop. destruct (Z.eqb_spec v 0); cbn; lia. Qed.

Lemma wait_loop_ok v retry_counter keep_running :
  0 ≤ v < U32 → pc_ok (wait_loop v retry_counter keep_running).
Proof.
  intros Hv. unfold wait_loop. destruct (Z.eqb_spec v 0); cbn [negb]; [|cbn; lia].
  destruct keep_running; [|done]. by destruct (_ <? _).
Qed.

Lemma sem_step_inv initial s ts1 t ts2 answer :
  inv initial s (ts1 ++ t :: ts2) →
  ∃ s' t', step s answer t = Return (s', t') ∧ inv initial s' (ts1 ++ t' :: ts2).
Proof.
  intros [Hc Hr Hv Hp]. rewrite Forall_app, Forall_cons in Hp. destruct Hp as (H1 & Ht & H2).
  assert (∀ t', pc_ok t' → Forall pc_ok (ts1 ++ t' :: ts2)) as Hp by (intros; by rewrite Forall_app, Forall_cons).
  pose proof (try_loop_ok (value s) Hr). pose proof (λ a b, wait_loop_ok (value s) a b Hr).
  destruct t; cbn [step pc_ok] in *; unfold compare_exchange_weak, compare_exchange;
    try (rewrite arith_ok by lia; cbn [obind]);
    try (destruct answer); try (destruct (Z.eqb_spec (value s) current_value));
    do 2 eexists; (split; [reflexivity|]); constructor; cbn; auto; try lia.
  all: try (by apply Hp); unfold wrap, U32 in *; Z.to_euclidean_division_equations; lia.
Qed.

(** The semaphore: whatever the interleaving of [post], [wait] and [try_wait] of
    any number of threads, and even if weak exchanges fail spuriously, the value
    is the initial value plus the posts minus the successful waits; so never more
    waits succeed than there were permits. *)
Theorem semaphore_counts initial (n : nat) s ts :
  0 ≤ initial < U32 →
  rtc (threads_step start step) (new initial, replicate n Idle) (s, ts) →
  initial + posted s < U32 →
  value s = initial + posted s - passed s ∧ passed s ≤ initial + posted s ∧
  (∀ t answer, t ∈ ts → safe (step s answer t)).
Proof.
  intros H0 Hrun Hb. assert (inv initial s ts) as Hi.
  { apply (threads_invariant start step (inv initial)) in Hrun; [done|..]; cbn.
    - intros s1 ts1 t t' ts2 [Hc Hr Hv Hp] Hst. constructor; try done.
      rewrite Forall_app, Forall_cons in *. destruct Hp as (? & _ & ?). split_and!; try done. by destruct Hst.
    - intros s1 ts1 t ts2 answer s' t' Hi Hst.
      destruct (sem_step_inv initial s1 ts1 t ts2 answer Hi) as (s2 & t2 & Hst2 & Hi2).
      rewrite Hst in Hst2. by injection Hst2 as <- <-.
    - constructor; cbn; try lia. by apply Forall_replicate. }
  pose proof (inv_value _ _ _ Hi Hb) as Hval. pose proof (inv_range _ _ _ Hi). split_and!; [done|lia|].
  intros t answer (ts1 & ts2 & ->)%list_elem_of_split.
  destruct (sem_step_inv initial s ts1 t ts2 answer Hi) as (s2 & t2 & Hst2 & _). by eexists.
Qed.
End Semaphore.
End Semaphore.

(** ** barrier.rs *)

Module Barrier.
(** [Before]: has not called [wait] yet. *)
Inductive pc :=
| Before
| Arrive
| WakeAll
| SpinLoad (retry_counter : Z)
| WaitLoad
| WaitSleep (current_value : Z)
| Passed.

Definition step (waiters : Z) (answer : bool) (t : pc) : outcome (Z * pc) :=
  match t with
  | Before | Passed => Return (waiters, t)
  | Arrive => Return (wrap U32 (waiters - 1), if waiters =? 1 then WakeAll else SpinLoad 0)
  | WakeAll => Return (waiters, Passed)
  | SpinLoad retry_counter =>
      Return (waiters,
        if 0 <? waiters then
          if SPIN_REPETITIONS =? retry_counter + 1 then WaitLoad else SpinLoad (retry_counter + 1)
        else WaitLoad)
  | WaitLoad => Return (waiters, if waiters =? 0 then Passed else WaitSleep waiters)
  | WaitSleep _ => Return (waiters, WaitLoad)
  end.

Inductive start : pc → pc → Prop :=
| start_wait : start Before Arrive.

Definition missing (t : pc) : bool := match t with Before | Arrive => true | _ => false end.

Record inv (n : nat) (waiters : Z) (ts : list pc) : Prop := {
  inv_threads : length ts = n;
  inv_waiters : waiters = tally missing ts;
  inv_passed : Forall (λ t, t = Passed ∨ t = WakeAll → waiters = 0) ts
}.

Lemma bar_step_inv n s ts1 t ts2 answer s' t' :
  Z.of_nat n < U32 → inv n s (ts1 ++ t :: ts2) → step s answer t = Return (s', t') →
  inv n s' (ts1 ++ t' :: ts2).
Proof.
  intros Hn [Hl Hw Hp] Hst. pose proof (tally_bounds missing (ts1 ++ t :: ts2)) as Hb. rewrite Hl in Hb.
  rewrite tally_app in *. cbn [tally] in *.
  pose proof (tally_bounds missing ts1). pose proof (tally_bounds missing ts2).
  rewrite Forall_app, Forall_cons in Hp. destruct Hp as (H1 & Ht & H2).
  assert (t = Arrive → s' = s - 1 ∧ 1 ≤ s) as Ha.
  { intros ->. cbn [missing Z.b2z] in *. injection Hst as <- _. unfold wrap. rewrite Z.mod_small; lia. }
  assert (t ≠ Arrive → s' = s) as Hna by (intros Hne; destruct t; by injection Hst as <- _).
  constructor.
  - rewrite <- Hl, !length_app. done.
  - rewrite tally_app. cbn [tally].
    destruct t; injection Hst as Hs <-; cbn [missing Z.b2z] in *; try (specialize (Ha eq_refl)); try (rewrite Hna by done);
      repeat case_match; cbn [missing Z.b2z]; lia.
  - assert (∀ us, Forall (λ t, t = Passed ∨ t = WakeAll → s = 0) us →
      Forall (λ t, t = Passed ∨ t = WakeAll → s' = 0) us) as Hkeep.
    { intros us HF. eapply Forall_impl; [exact HF|]. intros u Hu Hpass. specialize (Hu Hpass).
      destruct t; try (by rewrite Hna). specialize (Ha eq_refl). lia. }
    rewrite Forall_app, Forall_cons. split_and!; [by apply Hkeep| |by apply Hkeep].
    destruct t; injection Hst as Hs <-; intros [Hq|Hq]; try done; repeat case_match; try done;
      try (specialize (Ha eq_refl)); try (rewrite Hna by done); try lia; apply Ht; auto.
Qed.

(** The barrier for [n] threads that wait once each: a thread only passes when
    all of them have arrived, and when all have arrived the integer is 0, so that
    every thread passes with its next look at it. *)
Theorem barrier_waits_for_all (n : nat) waiters ts :
  Z.of_nat n < U32 →
  rtc (threads_step start step) (Z.of_nat n, replicate n Before) (waiters, ts) →
  (Passed ∈ ts → tally missing ts = 0) ∧
  (tally missing ts = 0 → waiters = 0 ∧ ∀ answer, step waiters answer WaitLoad = Return (waiters, Passed)).
Proof.
  intros Hn Hrun. assert (inv n waiters ts) as [Hl Hw Hp].
  { apply (threads_invariant start step (inv n)) in Hrun; [done|..]; cbn; clear Hrun.
    - intros s ts1 t t' ts2 [Hl Hw Hp] Hst. destruct Hst. constructor.
      + rewrite length_app in *. done.
      + rewrite tally_app in *. done.
      + rewrite Forall_app, Forall_cons in *. destruct Hp as (? & _ & ?). split_and!; try done. by intros [].
    - intros s ts1 t ts2 answer s' t' Hi Hst. eapply bar_step_inv; eauto.
    - constructor; [by rewrite length_replicate| |by apply Forall_replicate; intros []].
      clear. induction n; cbn in *; lia. }
  split.
  - intros Hin. rewrite Forall_forall in Hp. rewrite <- Hw. apply (Hp _ Hin). by left.
  - intros H0. split; [lia|]. intros answer. cbn. by replace waiters with 0 by lia.
Qed.
End Barrier.

(** ** condition_variable.rs *)

Module ConditionVariable.

(** The mutex and the counter; [notified] counts the notifications, the code has
    only [counter]. *)
Record shared := mkShared { mutex : Z; counter : Z; notified : Z }.

Definition set_mutex (s : shared) (m : Z) : shared := mkShared m (counter s) (notified s).

(** [InMutex] is an operation on the mutex alone; [since] records how many
    notifications there were when the waiting thread loaded the counter. *)
Inductive pc :=
| InMutex (t : Mutex.pc)
| Notify
| NotifyWake
| WaitLoad
| WaitUnlock (counter_value since : Z)
| WaitUnlockWake (counter_value since : Z)
| WaitSleep (counter_value since : Z)
| WaitLock (t : Mutex.pc).

(** The last part of [wait] is [mtx.lock]; [wait] returns with it. *)
Definition lock_result (t : Mutex.pc) : pc :=
  match t with
  | Mutex.Locked | Mutex.Idle => InMutex t
  | _ => WaitLock t
  end.

Definition step (s : shared) (answer : bool) (t : pc) : outcome (shared * pc) :=
  match t with
  | InMutex t =>
      let! '(m, t) := Mutex.step (mutex s) answer t in Return (set_mutex s m, InMutex t)
  | Notify => Return (mkShared (mutex s) (wrap U32 (counter s + 1)) (notified s + 1), NotifyWake)
  | NotifyWake => Return (s, InMutex Mutex.Idle)
  | WaitLoad => Return (s, WaitUnlock (counter s) (notified s))
  | WaitUnlock v since => Return (set_mutex s 0, WaitUnlockWake v since)
  | WaitUnlockWake v since => Return (s, WaitSleep v since)
  | WaitSleep v since => Return (s, if answer then WaitLock Mutex.LockTry else InMutex Mutex.Idle)
  | WaitLock t =>
      let! '(m, t) := Mutex.step (mutex s) answer t in Return (set_mutex s m, lock_result t)
  end.

(** [wait] is called with the mutex locked. *)
Inductive start : pc → pc → Prop :=
| start_mutex t t' : Mutex.start t t' → start (InMutex t) (InMutex t')
| start_notify : start (InMutex Mutex.Idle) Notify
| start_wait : start (InMutex Mutex.Locked) WaitLoad.

Definition holds (t : pc) : bool :=
  match t with
  | InMutex t | WaitLock t => Mutex.holds t
  | WaitLoad | WaitUnlock _ _ => true
  | _ => false
  end.

Definition pc_ok (s : shared) (t : pc) : Prop :=
  match t with
  | WaitUnlock v since | WaitUnlockWake v since | WaitSleep v since =>
      0 ≤ since ≤ notified s ∧ v = wrap U32 since
  | _ => True
  end.

Record inv (s : shared) (ts : list pc) : Prop := {
  inv_mutex : (mutex s = 0 ∨ mutex s = 1) ∧ tally holds ts = mutex s;
  inv_counter : 0 ≤ notified s ∧ counter s = wrap U32 (notified s);
  inv_pcs : Forall (pc_ok s) ts
}.

Lemma mutex_step_holds m answer t m' t' :
  (m = 0 ∨ m = 1) → Z.b2z (Mutex.holds t) ≤ m → Mutex.step m answer t = Return (m', t') →
  (m' = 0 ∨ m' = 1) ∧ m' - Z.b2z (Mutex.holds t') = m - Z.b2z (Mutex.holds t).
Proof.
  intros Hm Hh Hst. unfold Mutex.step, compare_exchange in Hst.
  destruct t; cbn in *; try (destruct (Z.eqb_spec m 0)); injection Hst as <- <-;
    repeat case_match; cbn in *; lia.
Qed.

Lemma pc_ok_mono s s' t : notified s ≤ notified s' → pc_ok s t → pc_ok s' t.
Proof. intros Hle. destruct t; cbn; lia. Qed.

Lemma wrap_succ k : wrap U32 (wrap U32 k + 1) = wrap U32 (k + 1).
Proof. unfold wrap, U32. Z.to_euclidean_division_equations. lia. Qed.

(** Replacing a thread and the shared state. *)
Lemma cv_inv_update s s' ts1 t t' ts2 :
  inv s (ts1 ++ t :: ts2) → notified s ≤ notified s' → counter s' = wrap U32 (notified s') → pc_ok s' t' →
  (mutex s' = 0 ∨ mutex s' = 1) → mutex s' - Z.b2z (holds t') = mutex s - Z.b2z (holds t) →
  inv s' (ts1 ++ t' :: ts2).
Proof.
  intros [[Hm Ht] [H0 Hc] Hp] Hle Hc' Hok Hm' Hd. constructor.
  - split; [done|]. rewrite tally_app in *. cbn [tally] in *. lia.
  - split; [lia|done].
  - rewrite Forall_app, Forall_cons in *. destruct Hp as (H1 & _ & H2).
    split_and!; [..|done|]; (eapply Forall_impl; [eassumption|]); intros; by eapply pc_ok_mono.
Qed.

Lemma cv_step_inv s ts1 t ts2 answer s' t' :
  inv s (ts1 ++ t :: ts2) → step s answer t = Return (s', t') → inv s' (ts1 ++ t' :: ts2).
Proof.
  intros Hi Hst. pose proof Hi as [[Hm Ht] [H0 Hc] Hp]. rewrite tally_app in Ht. cbn [tally] in Ht.
  pose proof (tally_bounds holds ts1). pose proof (tally_bounds holds ts2).
  rewrite Forall_app, Forall_cons in Hp. destruct Hp as (_ & Hok & _).
  destruct t; cbn [step holds pc_ok] in *;
    try (destruct (Mutex.step (mutex s) answer t) as [[m' u]| |] eqn:Hmx; try done; cbn [obind] in Hst;
         apply mutex_step_holds in Hmx as [Hm' Hd]; [|done|lia]);
    injection Hst as <- <-; (eapply cv_inv_update; [exact Hi|..]); cbn; try done; try lia.
  all: try (by rewrite Hc, wrap_succ); try (by destruct answer); try (destruct u; cbn in *; try done; lia).
  cbn in Ht. lia.
Qed.

(** The condition variable together with its mutex: whatever the interleaving and
    whatever the platform answers, at most one thread holds the mutex, also when
    [wait] has returned true; and a notification that comes after a waiting thread
    has loaded the counter (up to 2^32 - 1 of them) changes the counter, so that
    the thread does not fall asleep on the value it expects. *)
Theorem condition_variable_correct (n : nat) s ts :
  rtc (threads_step start step) (mkShared 0 0 0, replicate n (InMutex Mutex.Idle)) (s, ts) →
  tally holds ts ≤ 1 ∧ mutex s = tally holds ts ∧
  (∀ v since, WaitSleep v since ∈ ts → since < notified s < since + U32 → counter s ≠ v).
Proof.
  intros Hrun. assert (inv s ts) as [[Hm Ht] [H0 Hc] Hp].
  { apply (threads_invariant start step inv) in Hrun; [done|..]; cbn; clear Hrun.
    - intros s1 ts1 t t' ts2 Hi Hst. pose proof Hi as [[Hm _] [_ Hc] _].
      eapply cv_inv_update; [exact Hi|..]; try done; destruct Hst as [t t' Hst| |]; try done; by destruct Hst.
    - intros s1 ts1 t ts2 answer s' t' Hi Hst. eapply cv_step_inv; eauto.
    - constructor; cbn; [split; [by left|]|done|by apply Forall_replicate].
      clear. induction n; cbn in *; lia. }
  split_and!; [lia|lia|]. intros v since Hin Hb. rewrite Forall_forall in Hp.
  destruct (Hp _ Hin) as [Hs ->]. rewrite Hc. unfold wrap, U32 in *. Z.to_euclidean_division_equations. lia.
Qed.
End ConditionVariable.

(** ** Witnesses *)

(** One permit, one successful wait. *)
Lemma semaphore_counts_witness : 1 ≤ 1 + 0.
Proof.
  apply (Semaphore.semaphore_counts (P := true) 1 1 (Semaphore.mkSemaphore 0 0 1) [Semaphore.Idle]); [done| |done].
  eapply rtc_l; [apply (thread_start _ _ _ [] Semaphore.Idle (Semaphore.WaitLoad 0 true) []); constructor|].
  by apply (run_steps _ _ [(0%nat, false); (0%nat, false)]).
Defined.

(** Two threads, the second one to arrive passes. *)
Lemma barrier_waits_for_all_witness : tally Barrier.missing [Barrier.SpinLoad 0; Barrier.Passed] = 0.
Proof.
  destruct (Barrier.barrier_waits_for_all 2 0 [Barrier.SpinLoad 0; Barrier.Passed]) as [H _];
    [done| |apply H; right; left].
  eapply rtc_l; [apply (thread_start _ _ _ [] Barrier.Before Barrier.Arrive [Barrier.Before]); constructor|].
  eapply rtc_l; [apply (thread_start _ _ _ [Barrier.Arrive] Barrier.Before Barrier.Arrive []); constructor|].
  by apply (run_steps _ _ [(0%nat, true); (1%nat, true); (1%nat, true)]).
Defined.

(** A thread has locked the mutex and calls [wait]. *)
Lemma condition_variable_correct_witness :
  tally ConditionVariable.holds [ConditionVariable.WaitUnlock 0 0] ≤ 1.
Proof.
  apply (ConditionVariable.condition_variable_correct 1 (ConditionVariable.mkShared 1 0 0)).
  eapply rtc_l; [apply (thread_start _ _ _ [] (ConditionVariable.InMutex Mutex.Idle)
    (ConditionVariable.InMutex Mutex.TryLock) []); repeat constructor|].
  eapply rtc_l; [apply (thread_access _ _ _ [] (ConditionVariable.InMutex Mutex.TryLock) [] true); reflexivity|].
  eapply rtc_l; [apply (thread_start _ _ _ [] _ ConditionVariable.WaitLoad []); constructor|].
  by apply (run_steps _ _ [(0%nat, true)]).
Defined.
