(* ===== verification/ByteString.v ===== *)
(** * elkodon_bb/container: byte_string.rs

    [FixedSizeByteString], the string of all names and paths: a buffer of fixed
    capacity that is kept null-terminated.

    The structure is [repr(C)]: the [CAPACITY] cells of [data] are followed by the
    byte [_terminator]. Raw pointers into [data] reach the terminator, an index
    [data[i]] is checked against [CAPACITY]. [memory] is both together. The
    capacity is a parameter; so is the build profile.

    [rep s bs]: the string [s] holds the bytes [bs] and is null-terminated. *)

From S2P Require Import Prelude.
From stdpp Require Import strings.
Open Scope Z_scope.

Module Bytes.

(** Bytes of an ASCII literal. *)
Definition bytes_of_string (s : String.string) : list Z :=
  (λ a, Z.of_nat (Ascii.nat_of_ascii a)) <$> String.list_ascii_of_string s.

Definition ISIZE_MAX : Z := 2 ^ 63 - 1.

Inductive FixedSizeByteStringModificationError := InsertWouldExceedCapacity.

Record FixedSizeByteString := mkString {
  len : Z;
  memory : list (option Z)
}.

(** [std::ptr::copy(src, dst, count)] within one allocation. *)
Definition ptr_copy (m : list (option Z)) (src dst count : Z) : outcome (list (option Z)) :=
  let n := Z.of_nat (length m) in
  if (0 <=? src) && (0 <=? dst) && (0 <=? count) && (src + count <=? n) && (dst + count <=? n)
  then Return (take (Z.to_nat dst) m ++ take (Z.to_nat count) (drop (Z.to_nat src) m)
               ++ drop (Z.to_nat (dst + count)) m)
  else Undefined.

(** [std::ptr::copy] of foreign bytes to the cells from [dst] on. *)
Definition ptr_copy_from (m : list (option Z)) (bytes : list Z) (dst : Z) : outcome (list (option Z)) :=
  if (0 <=? dst) && (dst + Z.of_nat (length bytes) <=? Z.of_nat (length m))
  then Return (take (Z.to_nat dst) m ++ (Some <$> bytes) ++ drop (Z.to_nat dst + length bytes) m)
  else Undefined.

(** [std::slice::from_raw_parts] of bytes. *)
Fixpoint init_all (m : list (option Z)) : outcome (list Z) :=
  match m with
  | [] => Return []
  | o :: m => let! b := assume_init o in let! bs := init_all m in Return (b :: bs)
  end.

Definition from_raw_parts (m : list (option Z)) (start n : Z) : outcome (list Z) :=
  if (0 <=? start) && (0 <=? n) && (start + n <=? Z.of_nat (length m))
  then init_all (take (Z.to_nat n) (drop (Z.to_nat start) m)) else Undefined.

(** [strlen]: [i] counts up to [isize::MAX]; the cells are those from the pointer on. *)
Fixpoint strlen_loop (cells : list Z) (i : Z) : outcome Z :=
  if i =? ISIZE_MAX then Return 0
  else match cells with
       | [] => Undefined
       | c :: cells => if c =? 0 then Return i else strlen_loop cells (i + 1)
       end.
Definition strlen (ptr : list Z) : outcome Z := strlen_loop ptr 0.

(** [as_escaped_string]: [String::from_utf8(..).unwrap()] of ASCII bytes. *)
Definition hex_digits : list Z :=
  [48; 49; 50; 51; 52; 53; 54; 55; 56; 57; 97; 98; 99; 100; 101; 102].

Definition escape (c : Z) : outcome (list Z) :=
  if c =? 9 then Return [92; 116]
  else if c =? 13 then Return [92; 114]
  else if c =? 10 then Return [92; 110]
  else if (0x20 <=? c) && (c <=? 0x7e) then Return [c]
  else
    let! h := index_read hex_digits (Z.shiftr c 4) in
    let! l := index_read hex_digits (Z.land c 0xf) in
    Return [92; 120; h; l].

Fixpoint escape_all (bytes : list Z) : outcome (list Z) :=
  match bytes with
  | [] => Return []
  | c :: bytes => let! e := escape c in let! r := escape_all bytes in Return (e ++ r)
  end.

(** ASCII is UTF-8; the check for other encodings is not needed here. *)
Definition is_ascii (bytes : list Z) : bool := forallb (λ b, (0 <=? b) && (b <? 128)) bytes.

Definition as_escaped_string (bytes : list Z) : outcome (list Z) :=
  let! r := escape_all bytes in
  if is_ascii r then Return r else Panic.

Section ByteString.
Context `{P : Profile} (CAPACITY : Z).

Implicit Types (s : FixedSizeByteString) (bytes : list Z).

(** The check of [data[i]]. *)
Definition check_index (i : Z) : outcome unit :=
  if (0 <=? i) && (i <? CAPACITY) then Return tt else Panic.

(** [data[i].write(b)] *)
Definition cell_write s (i b : Z) : outcome FixedSizeByteString :=
  let! _ := check_index i in
  let! m := raw_write (memory s) i (Some b) in
  Return (mkString (len s) m).

(** [*data[i].as_ptr()] *)
Definition cell_read s (i : Z) : outcome Z :=
  let! _ := check_index i in
  let! o := raw_read (memory s) i in
  assume_init o.

Definition new : outcome FixedSizeByteString :=
  cell_write (mkString 0 (replicate (Z.to_nat CAPACITY) None ++ [Some 0])) 0 0.

Definition new_unchecked bytes : outcome FixedSizeByteString :=
  let n := Z.of_nat (length bytes) in
  if CAPACITY <? n then Panic
  else
    let! new_self := new in
    let! m := ptr_copy_from (memory new_self) bytes 0 in
    let! m := ptr_copy_from m [0] n in
    Return (mkString n m).

Definition as_bytes s : outcome (list Z) := from_raw_parts (memory s) 0 (len s).

Definition as_bytes_with_nul s : outcome (list Z) :=
  let! n := uadd (len s) 1 in from_raw_parts (memory s) 0 n.

Definition capacity : Z := CAPACITY.
Definition is_empty s : bool := len s =? 0.
Definition is_full s : bool := len s =? CAPACITY.

Definition clear s : outcome FixedSizeByteString := cell_write (mkString 0 (memory s)) 0 0.

Fixpoint write_bytes s (idx i : Z) bytes : outcome FixedSizeByteString :=
  match bytes with
  | [] => Return s
  | byte :: bytes =>
      let! k := uadd idx i in
      let! s := cell_write s k byte in
      write_bytes s idx (i + 1) bytes
  end.

Definition insert_bytes_unchecked s (idx : Z) bytes : outcome FixedSizeByteString :=
  let n := Z.of_nat (length bytes) in
  let! _ := check_index idx in
  let! count := usub (len s) idx in
  let! m := ptr_copy (memory s) idx (idx + n) count in
  let! s := write_bytes (mkString (len s) m) idx 0 bytes in
  let! l := uadd (len s) n in
  let s := mkString l (memory s) in
  if l <? CAPACITY then cell_write s l 0 else Return s.

Definition insert_bytes s (idx : Z) bytes
    : outcome (result unit FixedSizeByteStringModificationError * FixedSizeByteString) :=
  if len s <? idx then Panic
  else
    let! total := uadd (len s) (Z.of_nat (length bytes)) in
    if CAPACITY <? total then Return (Err InsertWouldExceedCapacity, s)
    else
      let! s := insert_bytes_unchecked s idx bytes in
      Return (Ok tt, s).

Definition insert s (idx byte : Z) := insert_bytes s idx [byte].
Definition push s (byte : Z) := insert s (len s) byte.
Definition push_bytes s bytes := insert_bytes s (len s) bytes.

(** [From<&[u8; N]>]: [unwrap] panics on an error. *)
Definition from_array bytes : outcome FixedSizeByteString :=
  if CAPACITY <? Z.of_nat (length bytes) then Panic
  else
    let! s := new in
    let! '(r, s) := push_bytes s bytes in
    match r with Ok _ => Return s | Err _ => Panic end.

Definition from_bytes bytes
    : outcome (result FixedSizeByteString FixedSizeByteStringModificationError) :=
  let! s := new in
  let! '(r, s) := push_bytes s bytes in
  match r with Ok _ => Return (Ok s) | Err _ => Return (Err InsertWouldExceedCapacity) end.

(** [ptr] points to the bytes [cells]. *)
Definition from_c_str (cells : list Z)
    : outcome (result FixedSizeByteString FixedSizeByteStringModificationError) :=
  let! string_length := strlen cells in
  if CAPACITY <? string_length then Return (Err InsertWouldExceedCapacity)
  else
    let! new_self := new in
    let! m := ptr_copy_from (memory new_self) (take (Z.to_nat string_length) cells) 0 in
    Return (Ok (mkString string_length m)).

Definition remove_range_impl s (idx n : Z) : outcome FixedSizeByteString :=
  let! e := uadd idx n in
  let! _ := check_index e in
  let! _ := check_index idx in
  let! count := usub (len s) e in
  let! m := ptr_copy (memory s) e idx count in
  let! l := usub (len s) n in
  cell_write (mkString l m) l 0.

Definition remove s (idx : Z) : outcome (Z * FixedSizeByteString) :=
  if len s <? idx then Panic
  else
    let! removed_byte := cell_read s idx in
    let! s := remove_range_impl s idx 1 in
    Return (removed_byte, s).

Definition remove_range s (idx n : Z) : outcome FixedSizeByteString :=
  let! e := uadd idx n in
  if len s <? e then Panic else remove_range_impl s idx n.

Definition pop s : outcome (option Z * FixedSizeByteString) :=
  if is_empty s then Return (None, s)
  else
    let! i := usub (len s) 1 in
    let! '(b, s) := remove s i in
    Return (Some b, s).

(** The closure of [retain] is [FnMut]: it has a state [St]. *)
Fixpoint retain_loop {St} (f : St → Z → St * bool) (n : Z) (range : list Z) (st : St) s
    : outcome (St * FixedSizeByteString) :=
  match range with
  | [] => Return (st, s)
  | i :: range =>
      let! a := usub n i in
      let! idx := usub a 1 in
      let! b := cell_read s idx in
      let '(st, r) := f st b in
      if r then let! '(_, s) := remove s idx in retain_loop f n range st s
      else retain_loop f n range st s
  end.

Definition retain_impl {St} s (f : St → Z → St * bool) (st : St) :=
  retain_loop f (len s) (seqZ 0 (len s)) st s.

Definition retain {St} s (f : St → Z → St * bool) (st : St) : outcome FixedSizeByteString :=
  let! '(_, s) := retain_impl s f st in Return s.

(** The inner loop of [find] and [rfind]: does [bytes] occur at [i]? *)
Fixpoint matches_at s (i : Z) (n : Z) bytes : outcome bool :=
  match bytes with
  | [] => Return true
  | b :: bytes =>
      let! k := uadd i n in
      let! c := cell_read s k in
      if c =? b then matches_at s i (n + 1) bytes else Return false
  end.

Fixpoint find_loop s bytes (range : list Z) : outcome (option Z) :=
  match range with
  | [] => Return None
  | i :: range =>
      let! has_found := matches_at s i 0 bytes in
      if has_found then Return (Some i) else find_loop s bytes range
  end.

Definition find s bytes : outcome (option Z) :=
  let n := Z.of_nat (length bytes) in
  if len s <? n then Return None
  else
    let! d := usub (len s) n in
    let! e := uadd d 1 in
    find_loop s bytes (seqZ 0 e).

Definition rfind s bytes : outcome (option Z) :=
  let n := Z.of_nat (length bytes) in
  if len s <? n then Return None
  else
    let! d := usub (len s) n in
    let! e := uadd d 1 in
    find_loop s bytes (reverse (seqZ 0 e)).

Definition strip_prefix s bytes : outcome (bool * FixedSizeByteString) :=
  let! r := find s bytes in
  match r with
  | Some 0 => let! s := remove_range s 0 (Z.of_nat (length bytes)) in Return (true, s)
  | _ => Return (false, s)
  end.

Definition strip_suffix s bytes : outcome (bool * FixedSizeByteString) :=
  let n := Z.of_nat (length bytes) in
  if len s <? n then Return (false, s)
  else
    let! pos := usub (len s) n in
    let! r := rfind s bytes in
    match r with
    | Some v =>
        if negb (v =? pos) then Return (false, s)
        else let! s := remove_range s pos n in Return (true, s)
    | None => Return (false, s)
    end.

Definition truncate s (new_len : Z) : outcome FixedSizeByteString :=
  if len s <? new_len then Return s
  else
    let s := mkString new_len (memory s) in
    if new_len <? CAPACITY then cell_write s new_len 0 else Return s.

(** [PartialEq] of strings of any two capacities, and with byte slices. *)
Definition string_eq s (other : FixedSizeByteString) : outcome bool :=
  let! a := as_bytes s in
  let! b := as_bytes other in
  Return (bool_decide (a = b)).
Definition slice_eq s bytes : outcome bool :=
  let! a := as_bytes s in Return (bool_decide (a = bytes)).
End ByteString.

(** ** The string as a list of bytes *)

Section Rep.
Context (CAPACITY : Z).

(** The bytes, what follows them, and the terminator at the end. *)
Record holds (s : FixedSizeByteString) (bs : list Z) (rest : list (option Z)) : Prop := {
  h_len : len s = Z.of_nat (length bs);
  h_mem : memory s = (Some <$> bs) ++ rest;
  h_size : Z.of_nat (length bs + length rest) = CAPACITY + 1;
  h_last : last rest = Some (Some 0)
}.

Definition rep (s : FixedSizeByteString) (bs : list Z) : Prop :=
  ∃ rest, holds s bs rest ∧ head rest = Some (Some 0).
End Rep.

Section Lemmas.
Context `{P : Profile} (CAPACITY : Z) (Hcap : 0 < CAPACITY < ISIZE_MAX).

Implicit Types (s : FixedSizeByteString) (bytes bs : list Z) (m rest : list (option Z)).

Lemma holds_bound s bs rest : holds CAPACITY s bs rest → 0 ≤ len s ≤ CAPACITY.
Proof.
  intros [Hl _ Hs Hlast]. destruct rest; [done|]. cbn in Hs. lia.
Qed.

Lemma rep_bound s bs : rep CAPACITY s bs → 0 ≤ len s ≤ CAPACITY ∧ len s = Z.of_nat (length bs).
Proof. intros (rest & H & _). split; [by eapply holds_bound | apply H]. Qed.

Lemma check_index_ok i : 0 ≤ i < CAPACITY → check_index CAPACITY i = Return tt.
Proof.
  intros. unfold check_index. by zbool.
Qed.

Lemma check_index_panic i : CAPACITY ≤ i → check_index CAPACITY i = Panic.
Proof.
  intros. unfold check_index. by zbool.
Qed.

Lemma cell_write_at s m1 x m2 i b :
  memory s = m1 ++ x :: m2 → Z.of_nat (length m1) = i → i < CAPACITY →
  cell_write CAPACITY s i b = Return (mkString (len s) (m1 ++ Some b :: m2)).
Proof.
  intros Hm Hi Hc. unfold cell_write. rewrite check_index_ok by lia. cbn [obind].
  rewrite Hm, raw_write_ok by (rewrite length_app; cbn; lia). cbn [obind].
  replace (Z.to_nat i) with (length m1) by lia.
  rewrite insert_app_r_alt by done. by rewrite Nat.sub_diag.
Qed.

Lemma cell_read_at s bs rest i b :
  holds CAPACITY s bs rest → bs !! i = Some b → Z.of_nat i < CAPACITY →
  cell_read CAPACITY s (Z.of_nat i) = Return b.
Proof.
  intros [Hl Hm _ _] Hb Hi. unfold cell_read. rewrite check_index_ok by lia. cbn [obind].
  rewrite (raw_read_ok _ _ (Some b)); [done|lia|].
  rewrite Nat2Z.id, Hm, lookup_app_l by (rewrite length_fmap; by eapply lookup_lt_Some).
  by rewrite list_lookup_fmap, Hb.
Qed.

Lemma init_all_fmap bs : init_all (Some <$> bs) = Return bs.
Proof. induction bs as [|b bs IH]; [done|]. cbn. cbn in IH. by rewrite IH. Qed.

Lemma from_raw_parts_prefix bs rest n :
  n = Z.of_nat (length bs) → from_raw_parts ((Some <$> bs) ++ rest) 0 n = Return bs.
Proof.
  intros ->. unfold from_raw_parts. rewrite length_app, length_fmap.
  zbool. rewrite Nat2Z.id, drop_0.
  rewrite take_app_length' by (by rewrite length_fmap). apply init_all_fmap.
Qed.

Lemma as_bytes_ok s bs rest : holds CAPACITY s bs rest → as_bytes s = Return bs.
Proof. intros [Hl Hm _ _]. unfold as_bytes. rewrite Hm. by apply from_raw_parts_prefix. Qed.

Lemma as_bytes_rep s bs : rep CAPACITY s bs → as_bytes s = Return bs.
Proof. intros (rest & H & _). by eapply as_bytes_ok. Qed.

(** A null-terminated string is read by C as its bytes. *)
Lemma as_bytes_with_nul_rep s bs :
  rep CAPACITY s bs → as_bytes_with_nul s = Return (bs ++ [0]).
Proof.
  intros (rest & H & Hh). pose proof (holds_bound _ _ _ H). destruct H as [Hl Hm Hs _].
  unfold as_bytes_with_nul. rewrite uadd_ok by (unfold ISIZE_MAX, USIZE in *; lia). cbn [obind].
  destruct rest as [|x rest]; [done|]. injection Hh as ->.
  rewrite Hm. replace ((Some <$> bs) ++ Some 0 :: rest) with ((Some <$> (bs ++ [0])) ++ rest)
    by (by rewrite fmap_app, <- (assoc_L (++))).
  apply from_raw_parts_prefix. rewrite length_app. cbn. lia.
Qed.

(** A structure with the null byte written at its length is null-terminated. *)
Lemma terminate s bs x rest :
  holds CAPACITY s bs (x :: rest) → len s < CAPACITY →
  ∃ s', cell_write CAPACITY s (len s) 0 = Return s' ∧ rep CAPACITY s' bs.
Proof.
  intros [Hl Hm Hs Hlast] Hc.
  rewrite (cell_write_at s _ x rest) by (rewrite ?length_fmap; done).
  eexists. split; [done|]. exists (Some 0 :: rest). split; [|done]. split; cbn; try done.
  by destruct rest.
Qed.

Lemma new_ok : ∃ s, new CAPACITY = Return s ∧ rep CAPACITY s [].
Proof.
  unfold new. set (s0 := mkString 0 _).
  destruct (Z.to_nat CAPACITY) as [|n] eqn:En; [lia|].
  destruct (terminate s0 [] None (replicate n None ++ [Some 0])) as (s & Hs & Hr).
  - subst s0. split; cbn; rewrite ?length_app, ?length_replicate; cbn; try done; try lia.
    change (None :: replicate n None ++ [Some 0]) with ((None :: replicate n None) ++ [Some 0]).
    by rewrite last_snoc.
  - cbn. lia.
  - exists s. by split.
Qed.

Lemma clear_ok s bs : rep CAPACITY s bs → ∃ s', clear CAPACITY s = Return s' ∧ rep CAPACITY s' [].
Proof.
  intros (rest & [Hl Hm Hs Hlast] & Hh). unfold clear.
  destruct (memory s) as [|x m] eqn:E.
  { symmetry in Hm. apply app_nil in Hm as [_ ->]. done. }
  destruct (terminate (mkString 0 (x :: m)) [] x m) as (s' & Hs' & Hr); [|cbn; lia|eauto].
  split; cbn; try done.
  - apply (f_equal length) in Hm. rewrite length_app, length_fmap in Hm. cbn in Hm. lia.
  - rewrite Hm. by rewrite last_app, Hlast.
Qed.

(** *** Insertion *)

Lemma ptr_copy_at m src dst count :
  0 ≤ src → 0 ≤ dst → 0 ≤ count →
  src + count ≤ Z.of_nat (length m) → dst + count ≤ Z.of_nat (length m) →
  ptr_copy m src dst count =
    Return (take (Z.to_nat dst) m ++ take (Z.to_nat count) (drop (Z.to_nat src) m)
            ++ drop (Z.to_nat (dst + count)) m).
Proof. intros. unfold ptr_copy. by zbool. Qed.

Lemma write_bytes_at bytes s m1 x m2 idx i :
  memory s = m1 ++ x ++ m2 → length x = length bytes → Z.of_nat (length m1) = idx + i →
  0 ≤ idx → 0 ≤ i → idx + i + Z.of_nat (length bytes) ≤ CAPACITY →
  write_bytes CAPACITY s idx i bytes = Return (mkString (len s) (m1 ++ (Some <$> bytes) ++ m2)).
Proof.
  revert s m1 x i. induction bytes as [|b bytes IH]; intros s m1 [|y x] i Hm Hx Hi Hidx Hi0 Hc;
    try done; cbn [write_bytes].
  - cbn in Hm. by destruct s; cbn in *; subst.
  - cbn in Hx, Hc. rewrite uadd_ok by (unfold ISIZE_MAX, USIZE in *; lia). cbn [obind].
    rewrite (cell_write_at s m1 y (x ++ m2)) by (done || lia). cbn [obind].
    rewrite (IH _ (m1 ++ [Some b]) x); cbn; try lia.
    + by rewrite <- (assoc_L (++)).
    + by rewrite <- (assoc_L (++)).
    + rewrite length_app. cbn. lia.
Qed.

Lemma write_bytes_not_return bytes : ∀ s idx i,
  0 ≤ idx → 0 ≤ i → idx + i ≤ CAPACITY → CAPACITY < idx + i + Z.of_nat (length bytes) →
  ¬ safe (write_bytes CAPACITY s idx i bytes).
Proof.
  induction bytes as [|b bytes IH]; intros s idx i Hidx Hi Hle Hlt [s' Hs]; cbn [length] in Hlt; [lia|].
  cbn [write_bytes] in Hs. rewrite uadd_ok in Hs by (unfold ISIZE_MAX, USIZE in *; lia).
  cbn [obind] in Hs. destruct (cell_write CAPACITY s (idx + i) b) as [s1| |] eqn:E; try done.
  unfold cell_write in E. destruct (Z.eqb_spec (idx + i) CAPACITY).
  - by rewrite check_index_panic in E by lia.
  - eapply (IH s1 idx (i + 1)); [lia..|]. by exists s'.
Qed.

(** Copying [B] over what follows it, and over what precedes it. *)
Lemma ptr_copy_up (A B R1 R2 : list (option Z)) idx n count :
  idx = Z.of_nat (length A) → n = Z.of_nat (length R1) → count = Z.of_nat (length B) →
  ∃ X, ptr_copy (A ++ B ++ R1 ++ R2) idx (idx + n) count = Return (A ++ X ++ B ++ R2) ∧
    length X = length R1.
Proof.
  intros -> -> ->. exists (take (length R1) (B ++ R1)).
  split; [|rewrite length_take, length_app; lia].
  rewrite ptr_copy_at by (rewrite ?length_app; lia). f_equal.
  rewrite take_app_ge by lia. rewrite (drop_app_length' A _ (Z.to_nat (Z.of_nat (length A)))) by lia.
  rewrite (take_app_length' B _ (Z.to_nat (Z.of_nat (length B)))) by lia. rewrite <- (assoc_L (++)). f_equal. f_equal.
  - rewrite (assoc_L (++)), take_app_le by (rewrite length_app; lia). f_equal. lia.
  - f_equal. rewrite !(assoc_L (++)). apply drop_app_length'. rewrite !length_app. lia.
Qed.

Lemma ptr_copy_down (A C B R : list (option Z)) src idx count :
  src = Z.of_nat (length A + length C) → idx = Z.of_nat (length A) →
  count = Z.of_nat (length B) →
  ∃ X, ptr_copy (A ++ C ++ B ++ R) src idx count = Return (A ++ B ++ X ++ R) ∧
    length X = length C.
Proof.
  intros -> -> ->. exists (drop (length B) (C ++ B)).
  split; [|rewrite length_drop, length_app; lia].
  rewrite ptr_copy_at by (rewrite ?length_app; lia). f_equal.
  rewrite (take_app_length' A) by lia. f_equal.
  rewrite (drop_app_ge A) by lia.
  rewrite (drop_app_length' C) by lia.
  rewrite (take_app_length' B _ (Z.to_nat (Z.of_nat (length B)))) by lia. f_equal.
  rewrite drop_app_ge by lia. replace (_ - _)%nat with (length B) by lia.
  rewrite (assoc_L (++)), drop_app_le by (rewrite length_app; lia). done.
Qed.

(** A string at the end of its capacity is terminated by [_terminator]. *)
Lemma full_rep s bs rest : holds CAPACITY s bs rest → len s = CAPACITY → rep CAPACITY s bs.
Proof.
  intros H Hf. exists rest. split; [done|]. destruct H as [Hl _ Hs Hla].
  destruct rest as [|y [|]]; [done|by injection Hla as ->|]. cbn in Hs. lia.
Qed.

(** The bytes after the insertion point move behind the inserted ones. *)
Lemma insert_bytes_unchecked_ok s bs bytes idx :
  rep CAPACITY s bs → 0 ≤ idx ≤ len s → idx < CAPACITY →
  len s + Z.of_nat (length bytes) ≤ CAPACITY →
  ∃ s', insert_bytes_unchecked CAPACITY s idx bytes = Return s' ∧
    rep CAPACITY s' (take (Z.to_nat idx) bs ++ bytes ++ drop (Z.to_nat idx) bs).
Proof.
  intros (rest & H & Hh) Hidx Hc Hn. pose proof (holds_bound _ _ _ H). destruct H as [Hl Hm Hs Hlast].
  unfold insert_bytes_unchecked. rewrite check_index_ok by lia. cbn [obind].
  rewrite usub_ok by (unfold ISIZE_MAX, USIZE in *; lia). cbn [obind].
  pose proof (length_take bs (Z.to_nat idx)) as HA. pose proof (length_drop bs (Z.to_nat idx)) as HB.
  rewrite <- (take_drop (Z.to_nat idx) bs), fmap_app, <- (assoc_L (++)) in Hm.
  revert Hm HA HB. generalize (take (Z.to_nat idx) bs), (drop (Z.to_nat idx) bs). intros A B Hm HA HB.
  rewrite <- (take_drop (length bytes) rest) in Hm.
  assert (HR : length (take (length bytes) rest) = length bytes) by (rewrite length_take; lia).
  destruct (ptr_copy_up (Some <$> A) (Some <$> B) (take (length bytes) rest) (drop (length bytes) rest)
              idx (Z.of_nat (length bytes)) (len s - idx)) as (X & HX & HXl);
    rewrite ?length_fmap, ?HR; try lia.
  rewrite Hm, HX. cbn [obind].
  rewrite (write_bytes_at bytes (mkString (len s) _) (Some <$> A) X
             ((Some <$> B) ++ drop (length bytes) rest));
    cbn [memory len]; try done; rewrite ?length_fmap; try lia.
  cbn [obind len memory]. rewrite uadd_ok by (unfold ISIZE_MAX, USIZE in *; lia). cbn [obind].
  set (s' := mkString _ _).
  assert (Hs' : holds CAPACITY s' (A ++ bytes ++ B) (drop (length bytes) rest)).
  { unfold s'. split; cbn [memory len]; rewrite ?length_app, ?length_drop, ?last_drop_lt; try done; try lia.
    rewrite !fmap_app. by rewrite <- !(assoc_L (++)). }
  case_bool.
  - destruct (drop (length bytes) rest) as [|y R2] eqn:ER2; [by destruct Hs'|].
    apply (terminate s' _ y R2); [done|]. unfold s'. cbn. lia.
  - exists s'. split; [done|]. eapply full_rep; [done|]. unfold s'. cbn. lia.
Qed.

Lemma insert_bytes_unchecked_not_return s bytes idx :
  0 ≤ idx ≤ len s → CAPACITY < idx + Z.of_nat (length bytes) → idx < CAPACITY →
  ¬ safe (insert_bytes_unchecked CAPACITY s idx bytes).
Proof.
  intros Hi Hn Hc [s' Hs]. unfold insert_bytes_unchecked in Hs. inv_outcome.
  match goal with E : write_bytes _ _ _ _ _ = _ |- _ =>
    eapply (write_bytes_not_return bytes _ idx 0); [..|eexists; exact E]; lia end.
Qed.

(** [insert_bytes] on every branch. A full string panics when nothing is inserted
    at its end: the index [data[CAPACITY]] is computed all the same. *)
Lemma insert_bytes_spec s bs bytes idx :
  rep CAPACITY s bs → 0 ≤ idx → Z.of_nat (length bytes) ≤ ISIZE_MAX →
  if len s <? idx then insert_bytes CAPACITY s idx bytes = Panic
  else if CAPACITY <? len s + Z.of_nat (length bytes)
    then insert_bytes CAPACITY s idx bytes = Return (Err InsertWouldExceedCapacity, s)
  else if idx =? CAPACITY then insert_bytes CAPACITY s idx bytes = Panic
  else ∃ s', insert_bytes CAPACITY s idx bytes = Return (Ok tt, s') ∧
    rep CAPACITY s' (take (Z.to_nat idx) bs ++ bytes ++ drop (Z.to_nat idx) bs).
Proof.
  intros H Hidx Hn. pose proof (rep_bound _ _ H). unfold insert_bytes.
  destruct (Z.ltb_spec (len s) idx); [done|].
  rewrite uadd_ok by (unfold ISIZE_MAX, USIZE in *; lia). cbn [obind].
  destruct (Z.ltb_spec CAPACITY (len s + Z.of_nat (length bytes))); [done|].
  destruct (Z.eqb_spec idx CAPACITY) as [->|].
  - unfold insert_bytes_unchecked. by rewrite check_index_panic by lia.
  - destruct (insert_bytes_unchecked_ok s bs bytes idx) as (s' & Hs' & Hr); try done; try lia.
    exists s'. by rewrite Hs'.
Qed.

Lemma push_bytes_spec s bs bytes :
  rep CAPACITY s bs → Z.of_nat (length bytes) ≤ ISIZE_MAX →
  if CAPACITY <? len s + Z.of_nat (length bytes)
    then push_bytes CAPACITY s bytes = Return (Err InsertWouldExceedCapacity, s)
  else if len s =? CAPACITY then push_bytes CAPACITY s bytes = Panic
  else ∃ s', push_bytes CAPACITY s bytes = Return (Ok tt, s') ∧ rep CAPACITY s' (bs ++ bytes).
Proof.
  intros H Hn. pose proof (rep_bound _ _ H) as [Hb Hl]. unfold push_bytes.
  pose proof (insert_bytes_spec s bs bytes (len s) H ltac:(lia) Hn) as Hi.
  rewrite Z.ltb_irrefl in Hi. case_bool; try done.
  destruct Hi as (s' & Hs' & Hr). exists s'. split; [done|].
  rewrite Hl, Nat2Z.id, take_ge, drop_ge, app_nil_r in Hr by lia. done.
Qed.

(** *** Removal *)

(** [remove_range] on every branch. Ranges that reach the capacity panic, and so
    does the removal of nothing from a full string. *)
Lemma remove_range_impl_ok s bs idx n :
  rep CAPACITY s bs → 0 ≤ idx → 0 ≤ n → idx + n ≤ len s → idx + n < CAPACITY → len s - n < CAPACITY →
  ∃ s', remove_range_impl CAPACITY s idx n = Return s' ∧
    rep CAPACITY s' (take (Z.to_nat idx) bs ++ drop (Z.to_nat (idx + n)) bs).
Proof.
  intros (rest & H & Hh) Hidx Hn He Hc Hc2. pose proof (holds_bound _ _ _ H).
  destruct H as [Hl Hm Hs Hlast].
  unfold remove_range_impl. rewrite uadd_ok by (unfold ISIZE_MAX, USIZE in *; lia). cbn [obind].
  rewrite !check_index_ok by lia. cbn [obind].
  rewrite usub_ok by (unfold ISIZE_MAX, USIZE in *; lia). cbn [obind].
  pose proof (length_take bs (Z.to_nat idx)) as HA.
  pose proof (length_take (drop (Z.to_nat idx) bs) (Z.to_nat n)) as HC. rewrite length_drop in HC.
  pose proof (length_drop bs (Z.to_nat (idx + n))) as HB.
  assert (Hbs : bs = take (Z.to_nat idx) bs ++ take (Z.to_nat n) (drop (Z.to_nat idx) bs)
                  ++ drop (Z.to_nat (idx + n)) bs).
  { replace (Z.to_nat (idx + n)) with (Z.to_nat idx + Z.to_nat n)%nat by lia.
    by rewrite <- drop_drop, take_drop, take_drop. }
  rewrite Hbs, !fmap_app, <- !(assoc_L (++)) in Hm. clear Hbs. revert Hm HA HC HB.
  generalize (take (Z.to_nat idx) bs), (take (Z.to_nat n) (drop (Z.to_nat idx) bs)),
    (drop (Z.to_nat (idx + n)) bs). intros A C B Hm HA HC HB.
  destruct (ptr_copy_down (Some <$> A) (Some <$> C) (Some <$> B) rest (idx + n) idx (len s - (idx + n)))
    as (X & HX & HXl); rewrite ?length_fmap; try lia.
  rewrite Hm, HX. cbn [obind]. rewrite usub_ok by (unfold ISIZE_MAX, USIZE in *; lia). cbn [obind].
  assert (Hr : ∃ y R, X ++ rest = y :: R) by (destruct X; [destruct rest|]; cbn; eauto; done).
  destruct Hr as (y & R & Hr).
  apply (terminate (mkString _ _) _ y R); cbn [len]; [|lia]. rewrite <- Hr.
  rewrite length_fmap in HXl. split; cbn [memory len]; rewrite ?length_app; try lia.
  - rewrite !fmap_app. by rewrite <- !(assoc_L (++)).
  - by rewrite last_app, Hlast.
Qed.

Lemma remove_range_spec s bs idx n :
  rep CAPACITY s bs → 0 ≤ idx → 0 ≤ n → idx + n < USIZE →
  if len s <? idx + n then remove_range CAPACITY s idx n = Panic
  else if (idx + n =? CAPACITY) || (len s - n =? CAPACITY)
    then remove_range CAPACITY s idx n = Panic
  else ∃ s', remove_range CAPACITY s idx n = Return s' ∧
    rep CAPACITY s' (take (Z.to_nat idx) bs ++ drop (Z.to_nat (idx + n)) bs).
Proof.
  intros H Hidx Hn Hw. pose proof (rep_bound _ _ H) as [Hb Hl]. unfold remove_range.
  rewrite uadd_ok by lia. cbn [obind].
  destruct (Z.ltb_spec (len s) (idx + n)); [done|].
  destruct (Z.eqb_spec (idx + n) CAPACITY) as [He|]; cbn [orb].
  { unfold remove_range_impl. rewrite uadd_ok by lia. cbn [obind].
    by rewrite check_index_panic by lia. }
  destruct (Z.eqb_spec (len s - n) CAPACITY) as [He|].
  2:{ apply remove_range_impl_ok; try done; lia. }
  destruct H as (rest & [Hl' Hm Hs Hla] & _).
  unfold remove_range_impl. rewrite uadd_ok by lia. cbn [obind].
  rewrite !check_index_ok by lia. cbn [obind].
  rewrite usub_ok by (unfold ISIZE_MAX, USIZE in *; lia). cbn [obind].
  rewrite ptr_copy_at by (rewrite ?Hm, ?length_app, ?length_fmap; lia). cbn [obind].
  rewrite usub_ok by (unfold ISIZE_MAX, USIZE in *; lia). cbn [obind].
  unfold cell_write. by rewrite check_index_panic by lia.
Qed.

Lemma remove_ok s bs idx b :
  rep CAPACITY s bs → bs !! Z.to_nat idx = Some b → 0 ≤ idx → idx + 1 < CAPACITY →
  ∃ s', remove CAPACITY s idx = Return (b, s') ∧
    rep CAPACITY s' (take (Z.to_nat idx) bs ++ drop (S (Z.to_nat idx)) bs).
Proof.
  intros H Hb Hi Hc. pose proof (rep_bound _ _ H) as [Hlb Hl]. pose proof (lookup_lt_Some _ _ _ Hb).
  unfold remove. zbool.
  destruct (remove_range_impl_ok s bs idx 1) as (s' & Hs' & Hr); try done; try lia.
  destruct H as (rest & H & _).
  pose proof (cell_read_at _ _ _ _ _ H Hb ltac:(lia)) as Hrd. rewrite Z2Nat.id in Hrd by lia.
  rewrite Hrd. cbn [obind]. rewrite Hs'. cbn [obind].
  exists s'. split; [done|]. replace (S (Z.to_nat idx)) with (Z.to_nat (idx + 1)) by lia. done.
Qed.

(** The last byte of a full string and the byte behind the last one cannot be
    removed: [remove] panics, or reads far outside of the string. *)
Lemma remove_not_return s bs idx :
  rep CAPACITY s bs → 0 ≤ idx → (len s ≤ idx ∨ idx + 1 = CAPACITY) →
  ¬ safe (remove CAPACITY s idx).
Proof.
  intros H Hi Hc. pose proof (rep_bound _ _ H) as [Hlb Hl]. unfold remove.
  destruct (Z.ltb_spec (len s) idx); [by intros [? ?]|].
  intros [[b s'] Hr]. destruct (cell_read CAPACITY s idx); [|done..]. cbn [obind] in Hr.
  unfold remove_range_impl in Hr. rewrite uadd_ok in Hr by (unfold ISIZE_MAX, USIZE in *; lia).
  cbn [obind] in Hr. destruct (Z.ltb_spec (idx + 1) CAPACITY).
  2:{ by rewrite check_index_panic in Hr by lia. }
  rewrite !check_index_ok in Hr by lia. cbn [obind] in Hr.
  unfold usub, arith in Hr. revert Hr. zbool. destruct overflow_checks; [done|]. cbn [obind].
  assert (idx = len s) as -> by lia.
  unfold wrap. replace (len s - (len s + 1)) with (-1) by lia.
  destruct H as (rest & [Hl' Hm Hs _] & _).
  unfold ptr_copy. change ((-1) mod USIZE) with (USIZE - 1). rewrite Hm, length_app, length_fmap.
  unfold ISIZE_MAX, USIZE in *. by zbool.
Qed.

(** [remove] on every branch. *)
Lemma byte_remove_spec s bs idx :
  rep CAPACITY s bs → 0 ≤ idx →
  match bs !! Z.to_nat idx with
  | Some b =>
      if idx + 1 =? CAPACITY then ¬ safe (remove CAPACITY s idx)
      else ∃ s', remove CAPACITY s idx = Return (b, s') ∧
        rep CAPACITY s' (take (Z.to_nat idx) bs ++ drop (S (Z.to_nat idx)) bs)
  | None => ¬ safe (remove CAPACITY s idx)
  end.
Proof.
  intros H Hi. pose proof (rep_bound _ _ H) as [Hb Hl]. destruct (bs !! Z.to_nat idx) as [b|] eqn:E.
  - pose proof (lookup_lt_Some _ _ _ E). destruct (Z.eqb_spec (idx + 1) CAPACITY).
    + apply (remove_not_return s bs); (done || lia).
    + apply remove_ok; (done || lia).
  - apply lookup_ge_None in E. apply (remove_not_return s bs); (done || lia).
Qed.

Lemma pop_spec s bs :
  rep CAPACITY s bs →
  match last bs with
  | None => pop CAPACITY s = Return (None, s)
  | Some b =>
      if len s =? CAPACITY then ¬ safe (pop CAPACITY s)
      else ∃ s', pop CAPACITY s = Return (Some b, s') ∧ rep CAPACITY s' (removelast bs)
  end.
Proof.
  intros H. pose proof (rep_bound _ _ H) as [Hb Hl]. unfold pop, is_empty.
  destruct (last bs) as [b|] eqn:Eb.
  2:{ apply last_None in Eb as ->. rewrite Hl. done. }
  apply last_Some in Eb as (bs' & ->). rewrite length_app in Hl. cbn in Hl. zbool.
  rewrite usub_ok by (unfold ISIZE_MAX, USIZE in *; lia). cbn [obind].
  destruct (Z.eqb_spec (len s) CAPACITY).
  - intros [[o s'] Hr]. destruct (remove CAPACITY s (len s - 1)) as [p| |] eqn:Er; try done.
    eapply remove_not_return; [done| |right|exists p; exact Er]; unfold ISIZE_MAX, USIZE in *; lia.
  - destruct (remove_ok s (bs' ++ [b]) (len s - 1) b) as (s' & Hs' & Hr); try done; try lia.
    { rewrite lookup_app_r by lia. replace (Z.to_nat (len s - 1) - length bs')%nat with O by lia. done. }
    rewrite Hs'. cbn [obind]. exists s'. split; [done|].
    rewrite removelast_last. rewrite take_app_length' in Hr by lia.
    rewrite drop_ge, app_nil_r in Hr by (rewrite length_app; cbn; lia). done.
Qed.

(** *** Retain *)

(** What [retain] keeps: the closure sees the bytes from the last to the first, and
    a byte for which it answers [true] is removed. *)
Fixpoint retain_list {St} (f : St → Z → St * bool) (st : St) bs : St * list Z :=
  match bs with
  | [] => (st, [])
  | b :: bs =>
      let '(st, kept) := retain_list f st bs in
      let '(st, removed) := f st b in
      (st, if removed then kept else b :: kept)
  end.

Lemma retain_list_snoc {St} (f : St → Z → St * bool) st bs b :
  retain_list f st (bs ++ [b]) =
  let '(st, removed) := f st b in
  let '(st, kept) := retain_list f st bs in
  (st, if removed then kept else kept ++ [b]).
Proof.
  induction bs as [|c bs IH]; cbn.
  - by destruct (f st b) as [st' []].
  - rewrite IH. destruct (f st b) as [st1 r1]. destruct (retain_list f st1 bs) as [st2 kept].
    destruct (f st2 c) as [st3 r3]. by destruct r1, r3.
Qed.

Lemma retain_loop_ok {St} (f : St → Z → St * bool) n bs : ∀ kept st s,
  rep CAPACITY s (bs ++ kept) → Z.of_nat (length bs) < CAPACITY → Z.of_nat (length bs) ≤ n ≤ CAPACITY →
  ∃ s', retain_loop CAPACITY f n (seqZ (n - Z.of_nat (length bs)) (Z.of_nat (length bs))) st s =
      Return ((retain_list f st bs).1, s') ∧
    rep CAPACITY s' ((retain_list f st bs).2 ++ kept).
Proof.
  induction bs as [|b bs IH] using rev_ind; intros kept st s H Hc Hn.
  { exists s. done. }
  rewrite retain_list_snoc. rewrite length_app in *. cbn [length] in *.
  rewrite seqZ_cons by lia. cbn [retain_loop].
  set (k := Z.of_nat (length bs)). rewrite !usub_ok by (unfold ISIZE_MAX, USIZE in *; lia). cbn [obind].
  rewrite usub_ok by (unfold ISIZE_MAX, USIZE in *; lia). cbn [obind].
  replace (n - (n - Z.of_nat (length bs + 1)) - 1) with k by lia.
  assert (Hb : ((bs ++ [b]) ++ kept) !! Z.to_nat k = Some b).
  { rewrite <- (assoc_L (++)). unfold k. rewrite Nat2Z.id. by apply list_lookup_middle. }
  assert (Hrd : cell_read CAPACITY s k = Return b).
  { destruct H as (rest & H & _). unfold k. eapply cell_read_at; [done| |lia].
    unfold k in Hb. by rewrite Nat2Z.id in Hb. }
  rewrite Hrd. cbn [obind]. destruct (f st b) as [st1 r].
  replace (seqZ _ (Z.pred _)) with (seqZ (n - k) k) by (f_equal; lia).
  destruct r.
  - destruct (remove_ok s _ k b H Hb ltac:(lia) ltac:(lia)) as (s1 & Hs1 & Hr1). rewrite Hs1. cbn [obind].
    assert (Hr2 : rep CAPACITY s1 (bs ++ kept)).
    { rewrite <- (assoc_L (++)) in Hr1. unfold k in Hr1. rewrite Nat2Z.id, take_app_length in Hr1.
      by rewrite drop_app_ge, Nat.sub_succ_l, Nat.sub_diag in Hr1 by lia. }
    destruct (IH kept st1 s1 Hr2) as (s2 & Hs2 & Hr3); [lia..|].
    exists s2. fold k in Hs2. rewrite Hs2. by destruct (retain_list f st1 bs).
  - rewrite <- (assoc_L (++)) in H.
    destruct (IH (b :: kept) st1 s H) as (s2 & Hs2 & Hr3); [lia..|].
    exists s2. fold k in Hs2. rewrite Hs2. destruct (retain_list f st1 bs) as [st2 l]. cbn in *.
    split; [done|]. by rewrite <- (assoc_L (++)).
Qed.

(** On a full string the closure must keep the last byte. *)
Lemma retain_impl_ok {St} (f : St → Z → St * bool) st s bs :
  rep CAPACITY s bs → (len s < CAPACITY ∨ ∃ b, last bs = Some b ∧ (f st b).2 = false) →
  ∃ s', retain_impl CAPACITY s f st = Return ((retain_list f st bs).1, s') ∧
    rep CAPACITY s' (retain_list f st bs).2.
Proof.
  intros H Hc. pose proof (rep_bound _ _ H) as [Hb Hl]. unfold retain_impl.
  destruct (decide (len s < CAPACITY)) as [Hlt|Hfull].
  { destruct (retain_loop_ok f (len s) bs [] st s) as (s' & Hs' & Hr); [by rewrite app_nil_r|lia..|].
    exists s'. rewrite app_nil_r in Hr. split; [|done]. rewrite <- Hs'. f_equal. f_equal; lia. }
  destruct Hc as [|(b & Hlast & Hf)]; [done|]. apply last_Some in Hlast as (bs' & ->).
  rewrite retain_list_snoc. rewrite length_app in Hl. cbn [length] in Hl.
  rewrite seqZ_cons by lia. cbn [retain_loop].
  rewrite !usub_ok by (unfold ISIZE_MAX, USIZE in *; lia). cbn [obind].
  rewrite usub_ok by (unfold ISIZE_MAX, USIZE in *; lia). cbn [obind].
  replace (len s - 0 - 1) with (Z.of_nat (length bs')) by lia.
  pose proof H as (rest & Hh & _). rewrite (cell_read_at _ _ _ _ b Hh) by (by apply list_lookup_middle || lia).
  cbn [obind]. destruct (f st b) as [st1 r]. cbn in Hf. subst r.
  destruct (retain_loop_ok f (len s) bs' [b] st1 s) as (s' & Hs' & Hr); [done|lia..|].
  exists s'. destruct (retain_list f st1 bs'). cbn in *. split; [|done].
  rewrite <- Hs'. f_equal. f_equal; lia.
Qed.

Lemma retain_impl_not_return {St} (f : St → Z → St * bool) st s bs b :
  rep CAPACITY s bs → len s = CAPACITY → last bs = Some b → (f st b).2 = true →
  ¬ safe (retain_impl CAPACITY s f st).
Proof.
  intros H Hl Hlast Hf [x Hx]. apply last_Some in Hlast as (bs' & ->).
  pose proof (rep_bound _ _ H) as [Hb Hlen]. rewrite length_app in Hlen. cbn [length] in Hlen.
  unfold retain_impl in Hx. rewrite seqZ_cons in Hx by lia. cbn [retain_loop] in Hx.
  rewrite usub_ok in Hx by (unfold ISIZE_MAX, USIZE in *; lia). cbn [obind] in Hx.
  rewrite usub_ok in Hx by (unfold ISIZE_MAX, USIZE in *; lia). cbn [obind] in Hx.
  replace (len s - 0 - 1) with (Z.of_nat (length bs')) in Hx by lia.
  pose proof H as (rest & Hh & _).
  rewrite (cell_read_at _ _ _ _ b Hh) in Hx by (by apply list_lookup_middle || lia).
  cbn [obind] in Hx. destruct (f st b) as [st1 r]. cbn in Hf. subst r. inv_outcome.
  eapply (remove_not_return s _ (Z.of_nat (length bs')) H); [lia..|]. by eexists.
Qed.

(** [retain] on every branch. *)
Lemma retain_branches {St} (f : St → Z → St * bool) st s bs :
  rep CAPACITY s bs →
  if match last bs with Some b => (len s =? CAPACITY) && (f st b).2 | None => false end
  then ¬ safe (retain CAPACITY s f st)
  else ∃ s', retain CAPACITY s f st = Return s' ∧ rep CAPACITY s' (retain_list f st bs).2.
Proof.
  intros H. pose proof (rep_bound _ _ H) as [Hb Hl].
  assert (len s < CAPACITY ∨ (∃ b, last bs = Some b ∧ (f st b).2 = false) →
    ∃ s', retain CAPACITY s f st = Return s' ∧ rep CAPACITY s' (retain_list f st bs).2) as Hok.
  { intros Hc. destruct (retain_impl_ok f st s bs H Hc) as (s' & Hs & Hr). exists s'. unfold retain. by rewrite Hs. }
  destruct (last bs) as [b|] eqn:E.
  - destruct (Z.eqb_spec (len s) CAPACITY) as [Hf|]; cbn [andb]; [|apply Hok; left; lia].
    destruct (f st b).2 eqn:Ef; [|apply Hok; right; by exists b].
    intros [x Hx]. unfold retain in Hx. inv_outcome. eapply (retain_impl_not_return f st s bs b); [done..|by eexists].
  - apply last_None in E as ->. apply Hok. left. cbn in Hl. lia.
Qed.

(** *** Search *)

Definition occurs bs bytes (i : Z) : Prop :=
  0 ≤ i ∧ i + Z.of_nat (length bytes) ≤ Z.of_nat (length bs) ∧
  take (length bytes) (drop (Z.to_nat i) bs) = bytes.
#[global] Instance occurs_dec bs bytes i : Decision (occurs bs bytes i).
Proof. unfold occurs. apply _. Defined.

Lemma matches_at_ok bytes : ∀ s bs i n,
  rep CAPACITY s bs → 0 ≤ i → 0 ≤ n → i + n + Z.of_nat (length bytes) ≤ len s →
  matches_at CAPACITY s i n bytes = Return (bool_decide (occurs bs bytes (i + n))).
Proof.
  induction bytes as [|b bytes IH]; intros s bs i n H Hi Hn Hl; cbn [matches_at].
  { symmetry. f_equal. apply bool_decide_eq_true. pose proof (rep_bound _ _ H).
    repeat split; cbn in *; lia. }
  pose proof (rep_bound _ _ H) as [Hb Hlb]. cbn in Hl.
  rewrite uadd_ok by (unfold ISIZE_MAX, USIZE in *; lia). cbn [obind].
  destruct (lookup_lt_is_Some_2 bs (Z.to_nat (i + n))) as [c Hc]; [lia|].
  pose proof H as (rest & Hh & _).
  pose proof (cell_read_at _ _ _ _ _ Hh Hc ltac:(lia)) as Hrd. rewrite Z2Nat.id in Hrd by lia.
  rewrite Hrd. cbn [obind].
  assert (Hd : drop (Z.to_nat (i + n)) bs = c :: drop (Z.to_nat (i + (n + 1))) bs).
  { rewrite (drop_S _ c) by done. f_equal. f_equal. lia. }
  destruct (Z.eqb_spec c b) as [->|Hne].
  - rewrite (IH s bs) by (done || lia). f_equal. apply bool_decide_ext. unfold occurs. rewrite Hd.
    cbn [length take]. split; intros (? & ? & He); (do 2 (split; [lia|])); [by f_equal|by injection He].
  - symmetry. f_equal. apply bool_decide_eq_false. intros (_ & _ & He). rewrite Hd in He. cbn in He.
    congruence.
Qed.

(** The loop stops at the first position of its range at which the bytes occur. *)
Lemma find_loop_ok range s bs bytes :
  rep CAPACITY s bs →
  Forall (λ i, 0 ≤ i ∧ i + Z.of_nat (length bytes) ≤ len s) range →
  (∃ r1 i r2, range = r1 ++ i :: r2 ∧ find_loop CAPACITY s bytes range = Return (Some i) ∧
     occurs bs bytes i ∧ Forall (λ j, ¬ occurs bs bytes j) r1) ∨
  find_loop CAPACITY s bytes range = Return None ∧ Forall (λ j, ¬ occurs bs bytes j) range.
Proof.
  intros H. induction range as [|i range IH]; intros Hr; cbn [find_loop].
  { by right. }
  apply Forall_cons in Hr as [[Hi Hil] Hr].
  rewrite (matches_at_ok bytes s bs i 0) by (done || lia). cbn [obind]. rewrite Z.add_0_r.
  case_bool_decide as Ho.
  - left. exists [], i, range. done.
  - destruct (IH Hr) as [(r1 & j & r2 & -> & Hf & Hj & Hn)|[Hf Hn]].
    + left. exists (i :: r1), j, r2. do 3 (split; [done|]). by constructor.
    + right. split; [done|]. by constructor.
Qed.

Lemma seqZ_split (a n : Z) r1 i r2 : seqZ a n = r1 ++ i :: r2 → ∀ j, a ≤ j < i → j ∈ r1.
Proof.
  intros He j Hj.
  assert (Hi : seqZ a n !! length r1 = Some i) by (rewrite He; by apply list_lookup_middle).
  apply lookup_seqZ in Hi as [Hi Hin].
  apply list_elem_of_lookup. exists (Z.to_nat (j - a)).
  rewrite <- (lookup_app_l r1 (i :: r2)) by lia. rewrite <- He. apply lookup_seqZ. lia.
Qed.

Lemma seqZ_rsplit (a n : Z) r1 i r2 :
  reverse (seqZ a n) = r1 ++ i :: r2 → ∀ j, i < j < a + n → j ∈ r1.
Proof.
  intros He j Hj. apply (f_equal reverse) in He.
  rewrite reverse_involutive, reverse_app, reverse_cons, <- (assoc_L (++)) in He.
  change ([i] ++ reverse r1) with (i :: reverse r1) in He.
  assert (Hi : seqZ a n !! length (reverse r2) = Some i) by (rewrite He; by apply list_lookup_middle).
  apply lookup_seqZ in Hi as [Hi Hin].
  assert (Hl : seqZ a n !! Z.to_nat (j - a) = Some j) by (apply lookup_seqZ; lia).
  rewrite He, lookup_app_r in Hl by lia.
  destruct (Z.to_nat (j - a) - length (reverse r2))%nat as [|k] eqn:Ek; [lia|].
  change (reverse r1 !! k = Some j) in Hl. apply list_elem_of_lookup_2 in Hl. by rewrite elem_of_reverse in Hl.
Qed.

(** [find] is the first, [rfind] the last position at which the bytes occur. *)
Lemma find_spec s bs bytes :
  rep CAPACITY s bs →
  ∃ r, find CAPACITY s bytes = Return r ∧
    match r with
    | Some i => occurs bs bytes i ∧ ∀ j, j < i → ¬ occurs bs bytes j
    | None => ∀ j, ¬ occurs bs bytes j
    end.
Proof.
  intros H. pose proof (rep_bound _ _ H) as [Hb Hl]. unfold find.
  destruct (Z.ltb_spec (len s) (Z.of_nat (length bytes))).
  { exists None. split; [done|]. intros j (? & ? & ?). lia. }
  rewrite usub_ok by (unfold ISIZE_MAX, USIZE in *; lia). cbn [obind].
  rewrite uadd_ok by (unfold ISIZE_MAX, USIZE in *; lia). cbn [obind].
  destruct (find_loop_ok (seqZ 0 (len s - Z.of_nat (length bytes) + 1)) s bs bytes H)
    as [(r1 & i & r2 & Hr & Hf & Ho & Hn)|[Hf Hn]].
  - apply Forall_forall. intros i [? ?]%elem_of_seqZ. lia.
  - exists (Some i). split; [done|]. split; [done|]. intros j Hj Hoj.
    rewrite Forall_forall in Hn. eapply Hn; [|exact Hoj]. eapply seqZ_split; [exact Hr|].
    destruct Hoj. lia.
  - exists None. split; [done|]. intros j Hoj. rewrite Forall_forall in Hn.
    apply (Hn j); [|done]. apply elem_of_seqZ. destruct Hoj as (? & ? & _). lia.
Qed.

Lemma rfind_spec s bs bytes :
  rep CAPACITY s bs →
  ∃ r, rfind CAPACITY s bytes = Return r ∧
    match r with
    | Some i => occurs bs bytes i ∧
        ∀ j, i < j → ¬ occurs bs bytes j
    | None => ∀ j, ¬ occurs bs bytes j
    end.
Proof.
  intros H. pose proof (rep_bound _ _ H) as [Hb Hl]. unfold rfind.
  destruct (Z.ltb_spec (len s) (Z.of_nat (length bytes))).
  { exists None. split; [done|]. intros j (? & ? & ?). lia. }
  rewrite usub_ok by (unfold ISIZE_MAX, USIZE in *; lia). cbn [obind].
  rewrite uadd_ok by (unfold ISIZE_MAX, USIZE in *; lia). cbn [obind].
  destruct (find_loop_ok (reverse (seqZ 0 (len s - Z.of_nat (length bytes) + 1))) s bs bytes H)
    as [(r1 & i & r2 & Hr & Hf & Ho & Hn)|[Hf Hn]].
  - apply Forall_forall. intros i Hi. apply elem_of_reverse, elem_of_seqZ in Hi. lia.
  - exists (Some i). split; [done|]. split; [done|]. intros j Hj Hoj.
    rewrite Forall_forall in Hn. eapply Hn; [|exact Hoj]. eapply seqZ_rsplit; [exact Hr|].
    destruct Hoj as (? & ? & _). lia.
  - exists None. split; [done|]. intros j Hoj. rewrite Forall_forall in Hn.
    apply (Hn j); [|done]. apply elem_of_reverse, elem_of_seqZ. destruct Hoj as (? & ? & _). lia.
Qed.

(** *** Prefixes, suffixes, truncation *)

Lemma occurs_prefix bs bytes : occurs bs bytes 0 ↔ bytes `prefix_of` bs.
Proof.
  unfold occurs. change (Z.to_nat 0) with O. rewrite drop_0. split.
  - intros (_ & _ & He). exists (drop (length bytes) bs). rewrite <- He at 1. by rewrite take_drop.
  - intros [k ->]. rewrite length_app. do 2 (split; [lia|]). apply take_app_length.
Qed.

Lemma occurs_suffix bs bytes :
  (length bytes ≤ length bs)%nat →
  occurs bs bytes (Z.of_nat (length bs - length bytes)) ↔ bytes `suffix_of` bs.
Proof.
  intros Hl. unfold occurs. rewrite Nat2Z.id.
  rewrite take_ge by (rewrite length_drop; lia). split.
  - intros (_ & _ & He). exists (take (length bs - length bytes) bs).
    rewrite <- (take_drop (length bs - length bytes) bs) at 1. by f_equal.
  - intros [k ->]. rewrite length_app. do 2 (split; [lia|]).
    replace (_ - _)%nat with (length k) by lia. apply drop_app_length.
Qed.

Lemma strip_prefix_spec s bs bytes :
  rep CAPACITY s bs →
  if decide (bytes `prefix_of` bs) then
    if (Z.of_nat (length bytes) =? CAPACITY) || (len s - Z.of_nat (length bytes) =? CAPACITY)
    then strip_prefix CAPACITY s bytes = Panic
    else ∃ s', strip_prefix CAPACITY s bytes = Return (true, s') ∧
      rep CAPACITY s' (drop (length bytes) bs)
  else strip_prefix CAPACITY s bytes = Return (false, s).
Proof.
  intros H. pose proof (rep_bound _ _ H) as [Hb Hl]. unfold strip_prefix.
  destruct (find_spec s bs bytes H) as (r & Hf & Hr). rewrite Hf. cbn [obind].
  destruct (decide _) as [Hp|Hp]; rewrite <- occurs_prefix in Hp.
  - pose proof Hp as (_ & Hob & _).
    assert (r = Some 0) as ->.
    { destruct r as [i|]; [|by destruct (Hr 0)]. f_equal. destruct Hr as [[Hi _] Hr].
      destruct (Z.lt_trichotomy i 0) as [|[|]]; [lia|done|]. by destruct (Hr 0). }
    pose proof (remove_range_spec s bs 0 (Z.of_nat (length bytes)) H) as Hrr.
    rewrite Z.add_0_l in Hrr. unfold ISIZE_MAX, USIZE in *.
    specialize (Hrr ltac:(lia) ltac:(lia) ltac:(lia)). revert Hrr. zbool.
    case_bool; [by intros ->|]. intros (s' & -> & Hr'). exists s'. by rewrite Nat2Z.id in Hr'.
  - destruct r as [[]|]; try done. by destruct Hr.
Qed.

Lemma strip_suffix_spec s bs bytes :
  rep CAPACITY s bs →
  if decide (bytes `suffix_of` bs) then
    if len s =? CAPACITY then strip_suffix CAPACITY s bytes = Panic
    else ∃ s', strip_suffix CAPACITY s bytes = Return (true, s') ∧
      rep CAPACITY s' (take (length bs - length bytes) bs)
  else strip_suffix CAPACITY s bytes = Return (false, s).
Proof.
  intros H. pose proof (rep_bound _ _ H) as [Hb Hl]. unfold strip_suffix.
  destruct (Z.ltb_spec (len s) (Z.of_nat (length bytes))) as [|Hle].
  { destruct (decide _) as [Hp|]; [|done]. apply suffix_length in Hp. lia. }
  rewrite usub_ok by (unfold ISIZE_MAX, USIZE in *; lia). cbn [obind].
  destruct (rfind_spec s bs bytes H) as (r & Hf & Hr). rewrite Hf. cbn [obind].
  set (pos := Z.of_nat (length bs - length bytes)).
  assert (Hpos : len s - Z.of_nat (length bytes) = pos) by lia. rewrite Hpos.
  destruct (decide _) as [Hp|Hp]; rewrite <- occurs_suffix in Hp by lia; fold pos in Hp.
  - assert (r = Some pos) as ->.
    { destruct r as [i|]; [|by destruct (Hr pos)]. f_equal. destruct Hr as [Ho Hr].
      destruct (Z.lt_trichotomy i pos) as [|[|]]; [|done|].
      - destruct (Hr pos); [lia|done].
      - destruct Ho as (? & ? & _). lia. }
    zbool. pose proof (remove_range_spec s bs pos (Z.of_nat (length bytes)) H) as Hrr.
    unfold ISIZE_MAX, USIZE in *. specialize (Hrr ltac:(lia) ltac:(lia) ltac:(lia)). revert Hrr. zbool.
    replace (pos + Z.of_nat (length bytes)) with (len s) by lia.
    destruct (Z.eqb_spec (len s) CAPACITY); cbn [orb]; [by intros ->|]. zbool.
    intros (s' & -> & Hr'). exists s'. split; [done|].
    rewrite (drop_ge bs), app_nil_r in Hr' by lia. unfold pos in Hr'. by rewrite Nat2Z.id in Hr'.
  - destruct r as [i|]; [|done]. destruct (Z.eqb_spec i pos) as [->|]; [|done]. by destruct Hr.
Qed.

Lemma truncate_spec s bs new_len :
  rep CAPACITY s bs → 0 ≤ new_len →
  if len s <? new_len then truncate CAPACITY s new_len = Return s
  else ∃ s', truncate CAPACITY s new_len = Return s' ∧ rep CAPACITY s' (take (Z.to_nat new_len) bs).
Proof.
  intros (rest & H & Hh) Hn. pose proof (holds_bound _ _ _ H). destruct H as [Hl Hm Hs Hlast].
  unfold truncate.
  destruct (Z.ltb_spec (len s) new_len); [done|].
  set (s' := mkString new_len (memory s)). set (bs' := take (Z.to_nat new_len) bs).
  pose proof (length_take bs (Z.to_nat new_len)) as Ht. fold bs' in Ht.
  pose proof (length_drop bs (Z.to_nat new_len)) as Hd.
  assert (Hs' : holds CAPACITY s' bs' ((Some <$> drop (Z.to_nat new_len) bs) ++ rest)).
  { split; cbn [s' len memory]; rewrite ?length_app, ?length_fmap; try lia.
    - rewrite Hm, (assoc_L (++)), <- fmap_app. unfold bs'. by rewrite take_drop.
    - by rewrite last_app, Hlast. }
  destruct (Z.ltb_spec new_len CAPACITY).
  - destruct ((Some <$> drop (Z.to_nat new_len) bs) ++ rest) as [|y R] eqn:E.
    { destruct Hs' as [_ _ _ Hx]. done. }
    apply (terminate s' _ y R); [done|cbn; lia].
  - exists s'. split; [done|]. eapply full_rep; [done|]. cbn. lia.
Qed.

(** *** Construction *)

Lemma ptr_copy_from_at (m1 X m2 : list (option Z)) bytes dst :
  length X = length bytes → dst = Z.of_nat (length m1) →
  ptr_copy_from (m1 ++ X ++ m2) bytes dst = Return (m1 ++ (Some <$> bytes) ++ m2).
Proof.
  intros HX ->. unfold ptr_copy_from. rewrite !length_app. zbool. f_equal.
  rewrite take_app_length' by lia. f_equal. f_equal.
  rewrite drop_app_ge by lia. apply drop_app_length'. lia.
Qed.

(** Copying bytes to the start of an empty string. *)
Lemma copy_into_new s bytes :
  rep CAPACITY s [] → Z.of_nat (length bytes) ≤ CAPACITY →
  ∃ rest, ptr_copy_from (memory s) bytes 0 = Return ((Some <$> bytes) ++ rest) ∧
    rest = drop (length bytes) (memory s) ∧
    holds CAPACITY (mkString (Z.of_nat (length bytes)) ((Some <$> bytes) ++ rest)) bytes rest.
Proof.
  intros (rest & [Hl Hm Hs Hlast] & Hh) Hn. cbn in Hm, Hs. exists (drop (length bytes) rest).
  rewrite Hm. repeat split; cbn [len memory]; try done.
  - rewrite <- (take_drop (length bytes) rest) at 1.
    apply (ptr_copy_from_at [] (take (length bytes) rest)); [rewrite length_take; lia|done].
  - rewrite length_drop. lia.
  - rewrite last_drop_lt; [done|lia].
Qed.

Lemma new_unchecked_spec bytes :
  if CAPACITY <? Z.of_nat (length bytes) then new_unchecked CAPACITY bytes = Panic
  else ∃ s, new_unchecked CAPACITY bytes = Return s ∧ rep CAPACITY s bytes.
Proof.
  unfold new_unchecked. destruct (Z.ltb_spec CAPACITY (Z.of_nat (length bytes))); [done|].
  destruct new_ok as (s0 & -> & H0). cbn [obind].
  destruct (copy_into_new s0 bytes H0 ltac:(lia)) as (rest & -> & _ & [Hl Hm Hs Hlast]). cbn [obind].
  destruct rest as [|x rest]; [done|].
  rewrite (ptr_copy_from_at (Some <$> bytes) [x] rest) by (rewrite ?length_fmap; done). cbn [obind].
  eexists. split; [done|]. exists (Some 0 :: rest). split; [|done].
  split; cbn; try done. by destruct rest.
Qed.

Lemma from_bytes_spec bytes :
  Z.of_nat (length bytes) ≤ ISIZE_MAX →
  if CAPACITY <? Z.of_nat (length bytes)
  then from_bytes CAPACITY bytes = Return (Err InsertWouldExceedCapacity) ∧
       from_array CAPACITY bytes = Panic
  else ∃ s, from_bytes CAPACITY bytes = Return (Ok s) ∧ from_array CAPACITY bytes = Return s ∧
    rep CAPACITY s bytes.
Proof.
  intros Hn. unfold from_bytes, from_array. destruct new_ok as (s0 & -> & H0). cbn [obind].
  pose proof (push_bytes_spec s0 [] bytes H0 Hn) as Hp.
  pose proof (rep_bound _ _ H0) as [_ Hl]. cbn in Hl. rewrite Hl, Z.add_0_l in Hp.
  destruct (Z.ltb_spec CAPACITY (Z.of_nat (length bytes))); [by rewrite Hp|].
  revert Hp. zbool. intros (s & -> & Hr). by exists s.
Qed.

Lemma strlen_loop_ok str junk : ∀ i,
  Forall (λ c, c ≠ 0) str → 0 ≤ i → i + Z.of_nat (length str) < ISIZE_MAX →
  strlen_loop (str ++ 0 :: junk) i = Return (i + Z.of_nat (length str)).
Proof.
  induction str as [|c str IH]; intros i Hf Hi Hl; cbn [app strlen_loop]; cbn [length] in Hl; zbool.
  - f_equal. cbn. lia.
  - apply Forall_cons in Hf as [Hc Hf]. zbool. rewrite IH by (done || lia). f_equal. cbn. lia.
Qed.

(** [from_c_str] finds the bytes in front of the first null byte. It does not write
    a null byte of its own: the cell behind a short string is not initialised. *)
Lemma from_c_str_spec str junk :
  Forall (λ c, c ≠ 0) str → Z.of_nat (length str) < ISIZE_MAX →
  if CAPACITY <? Z.of_nat (length str)
  then from_c_str CAPACITY (str ++ 0 :: junk) = Return (Err InsertWouldExceedCapacity)
  else ∃ s rest, from_c_str CAPACITY (str ++ 0 :: junk) = Return (Ok s) ∧ holds CAPACITY s str rest ∧
    (0 < Z.of_nat (length str) < CAPACITY → head rest = Some None).
Proof.
  intros Hf Hl. unfold from_c_str, strlen. rewrite strlen_loop_ok by (done || lia). cbn [obind].
  rewrite Z.add_0_l. destruct (Z.ltb_spec CAPACITY (Z.of_nat (length str))); [done|].
  destruct new_ok as (s0 & E0 & H0). rewrite E0. cbn [obind].
  rewrite Nat2Z.id, take_app_length.
  destruct (copy_into_new s0 str H0 ltac:(lia)) as (rest & -> & Hrest & Hh). cbn [obind].
  do 2 eexists. split; [done|]. split; [exact Hh|]. intros Hlen. subst rest.
  unfold new, cell_write in E0. rewrite check_index_ok in E0 by lia. cbn [obind] in E0.
  inv_outcome. subst. cbn [memory]. rewrite head_lookup, lookup_drop.
  rewrite list_lookup_insert_ne by lia. rewrite lookup_app_l by (rewrite length_replicate; lia).
  apply lookup_replicate. split; [done|lia].
Qed.

Lemma from_c_str_bytes bytes junk :
  Forall (λ c, c ≠ 0) bytes → Z.of_nat (length bytes) < ISIZE_MAX →
  if CAPACITY <? Z.of_nat (length bytes)
  then from_c_str CAPACITY (bytes ++ 0 :: junk) = Return (Err InsertWouldExceedCapacity)
  else ∃ s, from_c_str CAPACITY (bytes ++ 0 :: junk) = Return (Ok s) ∧ as_bytes s = Return bytes.
Proof.
  intros Hz Hl. pose proof (from_c_str_spec bytes junk Hz Hl) as Hs. destruct (_ <? _); [done|].
  destruct Hs as (s & rest & -> & Hh & _). exists s. split; [done|]. by eapply as_bytes_ok.
Qed.

(** *** Display *)

Lemma escape_printable c :
  0 ≤ c < 256 → ∃ e, escape c = Return e ∧ Forall (λ b, 0x20 ≤ b ≤ 0x7e) e.
Proof.
  assert (H : forallb (λ c, match escape c with
                | Return e => forallb (λ b, (0x20 <=? b) && (b <=? 0x7e)) e
                | _ => false end) (seqZ 0 256) = true) by (vm_compute; reflexivity).
  intros Hc. rewrite forallb_forall in H.
  specialize (H c). rewrite <- list_elem_of_In, elem_of_seqZ in H. specialize (H ltac:(lia)).
  destruct (escape c) as [e| |]; [|done..]. exists e. split; [done|].
  apply Forall_forall. intros b Hb. rewrite forallb_forall in H.
  specialize (H b). rewrite <- list_elem_of_In in H. specialize (H Hb). lia.
Qed.

(** The rendering of any bytes is printable ASCII; in particular it is UTF-8 and
    [unwrap] does not panic. *)
Lemma as_escaped_string_ok bytes :
  Forall (λ c, 0 ≤ c < 256) bytes →
  ∃ r, as_escaped_string bytes = Return r ∧ Forall (λ b, 0x20 ≤ b ≤ 0x7e) r.
Proof.
  intros Hf. assert (He : ∃ r, escape_all bytes = Return r ∧ Forall (λ b, 0x20 ≤ b ≤ 0x7e) r).
  { induction Hf as [|c bytes Hc Hf (r & Hr & Hp)]; [by exists []|].
    destruct (escape_printable c Hc) as (e & He & Hpe). cbn. rewrite He, Hr. cbn.
    eexists. split; [done|]. by apply Forall_app. }
  destruct He as (r & Hr & Hp). exists r. split; [|done]. unfold as_escaped_string. rewrite Hr. cbn [obind].
  unfold is_ascii. replace (forallb _ r) with true; [done|]. symmetry. apply forallb_forall.
  intros b Hb. rewrite <- list_elem_of_In in Hb. rewrite Forall_forall in Hp. specialize (Hp b Hb). lia.
Qed.
End Lemmas.

(** ** Theorems *)

Section Theorems.
Context `{P : Profile} (CAPACITY : Z).
Implicit Types (s : FixedSizeByteString) (bytes bs : list Z).

(** C16. A string whose null byte is in place is a list of at most [CAPACITY] bytes. What the
    constructors make, what insertion and [push_bytes], [remove], [pop], [remove_range],
    [retain] (which removes the bytes for which the closure answers [true]; the comment at
    the code says the opposite), [clear], [truncate], search and stripping do to it, on
    every branch, panics included, and that the null byte stays behind the bytes. A string
    made by [from_c_str] has the right bytes, but its null byte is not promised. *)
Theorem byte_string_refines_list s bs bytes junk idx n st (f : Z → Z → Z * bool) :
  0 < CAPACITY < ISIZE_MAX → rep CAPACITY s bs → Z.of_nat (length bytes) < ISIZE_MAX →
  0 ≤ idx → 0 ≤ n → idx + n < USIZE →
  as_bytes s = Return bs ∧ as_bytes_with_nul s = Return (bs ++ [0]) ∧
  (∃ s', new CAPACITY = Return s' ∧ rep CAPACITY s' []) ∧
  (if CAPACITY <? Z.of_nat (length bytes)
   then from_bytes CAPACITY bytes = Return (Err InsertWouldExceedCapacity) ∧ from_array CAPACITY bytes = Panic
   else ∃ s', from_bytes CAPACITY bytes = Return (Ok s') ∧ from_array CAPACITY bytes = Return s' ∧ rep CAPACITY s' bytes) ∧
  (Forall (λ c, c ≠ 0) bytes →
   if CAPACITY <? Z.of_nat (length bytes)
   then from_c_str CAPACITY (bytes ++ 0 :: junk) = Return (Err InsertWouldExceedCapacity)
   else ∃ s', from_c_str CAPACITY (bytes ++ 0 :: junk) = Return (Ok s') ∧ as_bytes s' = Return bytes) ∧
  (∃ s', clear CAPACITY s = Return s' ∧ rep CAPACITY s' []) ∧
  (if len s <? idx then insert_bytes CAPACITY s idx bytes = Panic
   else if CAPACITY <? len s + Z.of_nat (length bytes)
     then insert_bytes CAPACITY s idx bytes = Return (Err InsertWouldExceedCapacity, s)
   else if idx =? CAPACITY then insert_bytes CAPACITY s idx bytes = Panic
   else ∃ s', insert_bytes CAPACITY s idx bytes = Return (Ok tt, s') ∧
     rep CAPACITY s' (take (Z.to_nat idx) bs ++ bytes ++ drop (Z.to_nat idx) bs)) ∧
  (if CAPACITY <? len s + Z.of_nat (length bytes)
     then push_bytes CAPACITY s bytes = Return (Err InsertWouldExceedCapacity, s)
   else if len s =? CAPACITY then push_bytes CAPACITY s bytes = Panic
   else ∃ s', push_bytes CAPACITY s bytes = Return (Ok tt, s') ∧ rep CAPACITY s' (bs ++ bytes)) ∧
  match bs !! Z.to_nat idx with
  | Some b =>
      if idx + 1 =? CAPACITY then ¬ safe (remove CAPACITY s idx)
      else ∃ s', remove CAPACITY s idx = Return (b, s') ∧
        rep CAPACITY s' (take (Z.to_nat idx) bs ++ drop (S (Z.to_nat idx)) bs)
  | None => ¬ safe (remove CAPACITY s idx)
  end ∧
  match last bs with
  | None => pop CAPACITY s = Return (None, s)
  | Some b =>
      if len s =? CAPACITY then ¬ safe (pop CAPACITY s)
      else ∃ s', pop CAPACITY s = Return (Some b, s') ∧ rep CAPACITY s' (removelast bs)
  end ∧
  (if len s <? idx + n then remove_range CAPACITY s idx n = Panic
   else if (idx + n =? CAPACITY) || (len s - n =? CAPACITY)
     then remove_range CAPACITY s idx n = Panic
   else ∃ s', remove_range CAPACITY s idx n = Return s' ∧
     rep CAPACITY s' (take (Z.to_nat idx) bs ++ drop (Z.to_nat (idx + n)) bs)) ∧
  (if match last bs with Some b => (len s =? CAPACITY) && (f st b).2 | None => false end
   then ¬ safe (retain CAPACITY s f st)
   else ∃ s', retain CAPACITY s f st = Return s' ∧ rep CAPACITY s' (retain_list f st bs).2) ∧
  (∃ r, find CAPACITY s bytes = Return r ∧
     match r with
     | Some i => occurs bs bytes i ∧ ∀ j, j < i → ¬ occurs bs bytes j
     | None => ∀ j, ¬ occurs bs bytes j
     end) ∧
  (∃ r, rfind CAPACITY s bytes = Return r ∧
     match r with
     | Some i => occurs bs bytes i ∧ ∀ j, i < j → ¬ occurs bs bytes j
     | None => ∀ j, ¬ occurs bs bytes j
     end) ∧
  (if decide (bytes `prefix_of` bs) then
     if (Z.of_nat (length bytes) =? CAPACITY) || (len s - Z.of_nat (length bytes) =? CAPACITY)
     then strip_prefix CAPACITY s bytes = Panic
     else ∃ s', strip_prefix CAPACITY s bytes = Return (true, s') ∧
       rep CAPACITY s' (drop (length bytes) bs)
   else strip_prefix CAPACITY s bytes = Return (false, s)) ∧
  (if decide (bytes `suffix_of` bs) then
     if len s =? CAPACITY then strip_suffix CAPACITY s bytes = Panic
     else ∃ s', strip_suffix CAPACITY s bytes = Return (true, s') ∧
       rep CAPACITY s' (take (length bs - length bytes) bs)
   else strip_suffix CAPACITY s bytes = Return (false, s)) ∧
  (if len s <? n then truncate CAPACITY s n = Return s
   else ∃ s', truncate CAPACITY s n = Return s' ∧ rep CAPACITY s' (take (Z.to_nat n) bs)).
Proof.
  intros Hcap H Hb Hi Hn Hw. split_and!.
  - by eapply as_bytes_rep.
  - by eapply as_bytes_with_nul_rep.
  - by apply new_ok.
  - apply from_bytes_spec; [done|lia].
  - intros Hz. by apply from_c_str_bytes.
  - by eapply clear_ok.
  - apply insert_bytes_spec; (done || lia).
  - apply push_bytes_spec; (done || lia).
  - by apply byte_remove_spec.
  - by apply pop_spec.
  - by apply remove_range_spec.
  - by apply retain_branches.
  - by apply find_spec.
  - by apply rfind_spec.
  - by apply strip_prefix_spec.
  - by apply strip_suffix_spec.
  - by apply truncate_spec.
Qed.

(** A string that fills its capacity cannot be shortened from its end: [pop], the
    removal of the last byte and of a suffix panic although the operation is valid. *)
Theorem full_string_cannot_be_shortened s bs bytes :
  0 < CAPACITY < ISIZE_MAX → rep CAPACITY s bs → len s = CAPACITY → bytes `suffix_of` bs →
  ¬ safe (pop CAPACITY s) ∧ ¬ safe (remove CAPACITY s (len s - 1)) ∧
  strip_suffix CAPACITY s bytes = Panic ∧ push_bytes CAPACITY s [] = Panic.
Proof.
  intros Hcap H Hf Hsuf. pose proof (rep_bound _ _ _ H) as [Hb Hl]. split_and!.
  - pose proof (pop_spec _ Hcap s bs H) as Hp. rewrite Hf, Z.eqb_refl in Hp.
    destruct (last bs) eqn:E; [done|]. apply last_None in E as ->. cbn in Hl. lia.
  - apply (remove_not_return _ Hcap _ bs); try done; unfold ISIZE_MAX, USIZE in *; lia.
  - pose proof (strip_suffix_spec _ Hcap s bs bytes H) as Hp. rewrite Hf, Z.eqb_refl in Hp.
    by rewrite decide_True in Hp.
  - pose proof (push_bytes_spec _ Hcap s bs [] H) as Hp. cbn in Hp.
    specialize (Hp ltac:(unfold ISIZE_MAX; lia)). revert Hp. zbool. done.
Qed.

(** A string made from a C string is read back correctly by its length, but its
    null-terminated view reads a byte that was never written. *)
Theorem from_c_str_not_terminated str junk :
  Forall (λ c, c ≠ 0) str → 0 < Z.of_nat (length str) < CAPACITY → CAPACITY < ISIZE_MAX →
  ∃ s, from_c_str CAPACITY (str ++ 0 :: junk) = Return (Ok s) ∧
    as_bytes s = Return str ∧ as_bytes_with_nul s = Undefined.
Proof.
  intros Hf Hl Hc. assert (Hcap : 0 < CAPACITY < ISIZE_MAX) by lia.
  pose proof (from_c_str_spec _ Hcap str junk Hf ltac:(lia)) as Hs. revert Hs. zbool.
  intros (s & rest & Hs & Hh & Hn). exists s. split; [done|].
  split; [by eapply as_bytes_ok|]. specialize (Hn ltac:(lia)).
  pose proof (holds_bound _ _ _ _ Hh). destruct Hh as [Hlen Hm Hsz _].
  unfold as_bytes_with_nul. rewrite uadd_ok by (unfold ISIZE_MAX, USIZE in *; lia). cbn [obind].
  destruct rest as [|x rest]; [done|]. injection Hn as ->.
  unfold from_raw_parts. rewrite Hm, Hlen, length_app, length_fmap. cbn [length]. zbool.
  rewrite drop_0. rewrite take_app_ge by (rewrite length_fmap; lia). rewrite length_fmap.
  replace (_ - _)%nat with 1%nat by lia. cbn [take].
  clear. induction str as [|c str IH]; [done|]. cbn. cbn in IH. by rewrite IH.
Qed.
End Theorems.

(** ** Witnesses *)

(** The string [hallo] in a buffer of eight bytes. *)
Definition hallo : FixedSizeByteString :=
  mkString 5 ((Some <$> bytes_of_string "hallo") ++ [Some 0; None; None; Some 0]).

Lemma hallo_rep : rep 8 hallo (bytes_of_string "hallo").
Proof. exists [Some 0; None; None; Some 0]. by repeat split. Qed.

Lemma byte_string_refines_list_witness :
  rep 8 hallo (bytes_of_string "hallo") ∧
  ∃ s', @insert_bytes false 8 hallo 1 (bytes_of_string "ey") = Return (Ok tt, s') ∧
    rep 8 s' (bytes_of_string "heyallo").
Proof.
  split; [exact hallo_rep|].
  destruct (@byte_string_refines_list false 8 hallo (bytes_of_string "hallo") (bytes_of_string "ey") []
              1 2 0 (λ st b, (st, b =? 108))) as (_ & _ & _ & _ & _ & _ & H & _).
  - unfold ISIZE_MAX. lia.
  - exact hallo_rep.
  - unfold ISIZE_MAX. cbn. lia.
  - lia.
  - lia.
  - unfold USIZE. lia.
  - exact H.
Defined.

Definition full : FixedSizeByteString := mkString 2 [Some 104; Some 111; Some 0].

Lemma full_string_cannot_be_shortened_witness :
  ¬ safe (@pop true 2 full) ∧ @strip_suffix true 2 full [111] = Panic.
Proof.
  destruct (@full_string_cannot_be_shortened true 2 full [104; 111] [111]) as (H1 & _ & H2 & _).
  - unfold ISIZE_MAX. lia.
  - exists [Some 0]. by repeat split.
  - reflexivity.
  - exists [104]. reflexivity.
  - exact (conj H1 H2).
Defined.

Lemma from_c_str_not_terminated_witness :
  ∃ s, from_c_str 8 (bytes_of_string "hallo" ++ [0]) = Return (Ok s) ∧
    @as_bytes_with_nul true s = Undefined.
Proof.
  destruct (@from_c_str_not_terminated true 8 (bytes_of_string "hallo") []) as (s & H1 & _ & H2).
  - by repeat constructor.
  - cbn. lia.
  - unfold ISIZE_MAX. lia.
  - exists s. exact (conj H1 H2).
Defined.
End Bytes.
