(* ===== verification/SemanticString.v ===== *)
(** * elkodon_bb/container: semantic_string.rs

    The trait [SemanticString]: strings whose content obeys rules. A kind of
    string is a capacity and two tests ([SemanticStringAccessor]); the operations
    are the default methods of the trait over [ByteString]. [inv] is the promise
    of the trait: the bytes pass both tests. *)

From S2P Require Import Prelude ByteString.

Inductive SemanticStringError := InvalidCharacter | InvalidName | ExceedsMaximumLength.

Class SemanticStringAccessor := {
  CAPACITY : Z;
  is_invalid_content : list Z → bool;
  does_contain_invalid_characters : list Z → bool
}.

(** What the trait needs of a kind of string: room for at least one byte, and a
    test of characters that looks at them one by one. *)
Class SemanticStringLaws (K : SemanticStringAccessor) := {
  capacity_bounds : 0 < CAPACITY < Bytes.ISIZE_MAX;
  invalid_characters_nil : does_contain_invalid_characters [] = false;
  invalid_characters_app a b :
    does_contain_invalid_characters (a ++ b) =
    does_contain_invalid_characters a || does_contain_invalid_characters b
}.

Module Semantic.
Import Bytes.

(** The capacity of the string in which a failing [strip_prefix] or [strip_suffix]
    renders its argument. *)
Definition MESSAGE_CAPACITY : Z := 123.

Section Operations.
Context `{P : Profile} (K : SemanticStringAccessor).
Implicit Types (s : FixedSizeByteString) (bytes : list Z).

Definition new_empty : outcome FixedSizeByteString := Bytes.new CAPACITY.

Definition insert_bytes s (idx : Z) bytes
    : outcome (result unit SemanticStringError * FixedSizeByteString) :=
  if does_contain_invalid_characters bytes then Return (Err InvalidCharacter, s)
  else
    let! '(r, s) := Bytes.insert_bytes CAPACITY s idx bytes in
    match r with
    | Err _ => Return (Err ExceedsMaximumLength, s)
    | Ok _ =>
        let! content := as_bytes s in
        if is_invalid_content content then
          let! s := Bytes.remove_range CAPACITY s idx (Z.of_nat (length bytes)) in
          Return (Err InvalidName, s)
        else Return (Ok tt, s)
    end.

Definition insert s (idx byte : Z) := insert_bytes s idx [byte].
Definition push s (byte : Z) := insert s (len s) byte.
Definition push_bytes s bytes := insert_bytes s (len s) bytes.

Definition new (value : list Z) : outcome (result FixedSizeByteString SemanticStringError) :=
  let! new_self := new_empty in
  let! '(r, new_self) := push_bytes new_self value in
  match r with Ok _ => Return (Ok new_self) | Err e => Return (Err e) end.

Definition from_c_str (cells : list Z) : outcome (result FixedSizeByteString SemanticStringError) :=
  let! n := strlen cells in new (take (Z.to_nat n) cells).

Definition remove s (idx : Z) : outcome (result Z SemanticStringError * FixedSizeByteString) :=
  let! '(value, s) := Bytes.remove CAPACITY s idx in
  let! content := as_bytes s in
  if is_invalid_content content then
    let! '(r, s) := Bytes.insert CAPACITY s idx value in
    match r with Ok _ => Return (Err InvalidName, s) | Err _ => Panic end
  else Return (Ok value, s).

Definition pop s : outcome (result (option Z) SemanticStringError * FixedSizeByteString) :=
  if len s =? 0 then Return (Ok None, s)
  else
    let! i := usub (len s) 1 in
    let! '(r, s) := remove s i in
    match r with Ok b => Return (Ok (Some b), s) | Err e => Return (Err e, s) end.

Definition remove_range s (idx n : Z) : outcome (result unit SemanticStringError * FixedSizeByteString) :=
  let! temp := Bytes.remove_range CAPACITY s idx n in
  let! content := as_bytes temp in
  if is_invalid_content content then Return (Err InvalidName, s)
  else let! s := Bytes.remove_range CAPACITY s idx n in Return (Ok tt, s).

(** The closure runs over a copy first and, with the state it then has, over the
    string itself. *)
Definition retain {St} s (f : St → Z → St * bool) (st : St)
    : outcome (result unit SemanticStringError * FixedSizeByteString) :=
  let! '(st, temp) := Bytes.retain_impl CAPACITY s f st in
  let! content := as_bytes temp in
  if is_invalid_content content then Return (Err InvalidName, s)
  else let! s := Bytes.retain CAPACITY s f st in Return (Ok tt, s).

Definition render_message bytes : outcome unit :=
  let! prefix := Bytes.new MESSAGE_CAPACITY in
  let! _ := Bytes.insert_bytes_unchecked MESSAGE_CAPACITY prefix 0 bytes in
  Return tt.

Definition strip_prefix s bytes : outcome (result bool SemanticStringError * FixedSizeByteString) :=
  let! '(found, temp) := Bytes.strip_prefix CAPACITY s bytes in
  if negb found then Return (Ok false, s)
  else
    let! content := as_bytes temp in
    if is_invalid_content content then
      let! _ := render_message bytes in Return (Err InvalidName, s)
    else let! '(_, s) := Bytes.strip_prefix CAPACITY s bytes in Return (Ok true, s).

Definition strip_suffix s bytes : outcome (result bool SemanticStringError * FixedSizeByteString) :=
  let! '(found, temp) := Bytes.strip_suffix CAPACITY s bytes in
  if negb found then Return (Ok false, s)
  else
    let! content := as_bytes temp in
    if is_invalid_content content then
      let! _ := render_message bytes in Return (Err InvalidName, s)
    else let! '(_, s) := Bytes.strip_suffix CAPACITY s bytes in Return (Ok true, s).

Definition truncate s (new_len : Z) : outcome (result unit SemanticStringError * FixedSizeByteString) :=
  let! temp := Bytes.truncate CAPACITY s new_len in
  let! content := as_bytes temp in
  if is_invalid_content content then Return (Err InvalidName, s)
  else let! s := Bytes.truncate CAPACITY s new_len in Return (Ok tt, s).

(** [$string_name::new_unchecked] *)
Definition new_unchecked bytes : outcome FixedSizeByteString := Bytes.new_unchecked CAPACITY bytes.
End Operations.

(** ** The promise of the trait *)

Definition valid (K : SemanticStringAccessor) (bs : list Z) : Prop :=
  is_invalid_content bs = false ∧ does_contain_invalid_characters bs = false.

Definition inv (K : SemanticStringAccessor) (s : FixedSizeByteString) (bs : list Z) : Prop :=
  rep CAPACITY s bs ∧ valid K bs.

Section Lemmas.
Context `{P : Profile} (K : SemanticStringAccessor) `{L : !SemanticStringLaws K}.
Implicit Types (s : FixedSizeByteString) (bytes bs : list Z).

Lemma invalid_characters_forall bs :
  does_contain_invalid_characters bs = false ↔
  Forall (λ c, does_contain_invalid_characters [c] = false) bs.
Proof.
  induction bs as [|b bs IH].
  - split; [done|]. intros _. apply invalid_characters_nil.
  - rewrite Forall_cons, <- IH. change (b :: bs) with ([b] ++ bs).
    rewrite invalid_characters_app, orb_false_iff. done.
Qed.

Lemma invalid_characters_take bs n :
  does_contain_invalid_characters bs = false → does_contain_invalid_characters (take n bs) = false.
Proof. rewrite !invalid_characters_forall. apply Forall_take. Qed.

Lemma invalid_characters_drop bs n :
  does_contain_invalid_characters bs = false → does_contain_invalid_characters (drop n bs) = false.
Proof. rewrite !invalid_characters_forall. apply Forall_drop. Qed.

(** The bytes a retained string keeps are among those it had. *)
Lemma invalid_characters_retain {St} (f : St → Z → St * bool) st bs :
  does_contain_invalid_characters bs = false →
  does_contain_invalid_characters (retain_list f st bs).2 = false.
Proof.
  rewrite !invalid_characters_forall. induction bs as [|b bs IH]; [done|].
  rewrite Forall_cons. intros [Hb Hbs]. cbn. specialize (IH Hbs).
  destruct (retain_list f st bs) as [st1 kept]. destruct (f st1 b) as [st2 []]; [done|].
  by constructor.
Qed.

(** Insertion, from a string that need not be valid yet. *)
Lemma ss_insert_bytes_spec s bs bytes idx :
  rep CAPACITY s bs → 0 ≤ idx → Z.of_nat (length bytes) ≤ ISIZE_MAX →
  let bs' := take (Z.to_nat idx) bs ++ bytes ++ drop (Z.to_nat idx) bs in
  if does_contain_invalid_characters bytes
    then insert_bytes K s idx bytes = Return (Err InvalidCharacter, s)
  else if len s <? idx then insert_bytes K s idx bytes = Panic
  else if CAPACITY <? len s + Z.of_nat (length bytes)
    then insert_bytes K s idx bytes = Return (Err ExceedsMaximumLength, s)
  else if idx =? CAPACITY then insert_bytes K s idx bytes = Panic
  else if is_invalid_content bs' then
    if (idx + Z.of_nat (length bytes) =? CAPACITY) || (len s =? CAPACITY)
    then insert_bytes K s idx bytes = Panic
    else ∃ s', insert_bytes K s idx bytes = Return (Err InvalidName, s') ∧ rep CAPACITY s' bs
  else ∃ s', insert_bytes K s idx bytes = Return (Ok tt, s') ∧ rep CAPACITY s' bs'.
Proof.
  intros H Hi Hn bs'. pose proof (rep_bound _ _ _ H) as [Hb Hl]. pose proof capacity_bounds as Hc.
  unfold insert_bytes. destruct (does_contain_invalid_characters bytes); [done|].
  pose proof (Bytes.insert_bytes_spec _ Hc s bs bytes idx H Hi Hn) as Hs.
  destruct (Z.ltb_spec (len s) idx); [by rewrite Hs|].
  destruct (Z.ltb_spec CAPACITY (len s + Z.of_nat (length bytes))); [by rewrite Hs|].
  destruct (Z.eqb_spec idx CAPACITY); [by rewrite Hs|].
  destruct Hs as (s1 & -> & Hr1). cbn [obind]. fold bs' in Hr1. rewrite (as_bytes_rep _ _ _ Hr1). cbn [obind].
  destruct (is_invalid_content bs'); [|eauto].
  pose proof (rep_bound _ _ _ Hr1) as [Hb1 Hl1].
  assert (Hbs' : Z.of_nat (length bs') = len s + Z.of_nat (length bytes)).
  { unfold bs'. rewrite !length_app, length_take, length_drop. lia. }
  pose proof (remove_range_spec _ Hc s1 bs' idx (Z.of_nat (length bytes)) Hr1 Hi) as Hr.
  unfold ISIZE_MAX, USIZE in *. specialize (Hr ltac:(lia) ltac:(lia)). revert Hr. zbool.
  replace (len s1 - Z.of_nat (length bytes)) with (len s) by lia.
  case_bool; [by intros ->|]. intros (s2 & -> & Hr2). exists s2. split; [done|].
  enough (Hbs : take (Z.to_nat idx) bs' ++ drop (Z.to_nat (idx + Z.of_nat (length bytes))) bs' = bs)
    by (by rewrite Hbs in Hr2).
  unfold bs'. rewrite take_app_length' by (rewrite length_take; lia).
  rewrite drop_app_ge by (rewrite length_take; lia).
  rewrite drop_app_length' by (rewrite length_take; lia). by rewrite take_drop.
Qed.

Lemma new_spec value :
  Z.of_nat (length value) ≤ ISIZE_MAX →
  if does_contain_invalid_characters value then new K value = Return (Err InvalidCharacter)
  else if CAPACITY <? Z.of_nat (length value) then new K value = Return (Err ExceedsMaximumLength)
  else if is_invalid_content value then
    if Z.of_nat (length value) =? CAPACITY then new K value = Panic
    else new K value = Return (Err InvalidName)
  else ∃ s, new K value = Return (Ok s) ∧ inv K s value.
Proof.
  intros Hn. pose proof capacity_bounds as Hc. unfold new, new_empty.
  destruct (new_ok _ Hc) as (s0 & -> & H0). cbn [obind]. unfold push_bytes.
  pose proof (rep_bound _ _ _ H0) as [_ Hl0]. change (len s0 = 0) in Hl0. rewrite Hl0.
  pose proof (ss_insert_bytes_spec s0 [] value 0 H0 ltac:(lia) Hn) as Hs. cbv zeta in Hs.
  rewrite take_nil, drop_nil, app_nil_r, app_nil_l, Hl0, !Z.add_0_l, Z.ltb_irrefl in Hs.
  rewrite (proj2 (Z.eqb_neq 0 CAPACITY)), orb_false_r in Hs by lia.
  destruct (does_contain_invalid_characters value) eqn:Ed; [by rewrite Hs|].
  destruct (CAPACITY <? Z.of_nat (length value)) eqn:E1; [by rewrite Hs|].
  destruct (is_invalid_content value) eqn:Ei.
  - revert Hs. case_bool; [by intros ->|by intros (s' & -> & _)].
  - destruct Hs as (s' & -> & Hr). by exists s'.
Qed.

Lemma new_unchecked_inv bs : Z.of_nat (length bs) ≤ CAPACITY → valid K bs →
  ∃ s, new_unchecked K bs = Return s ∧ inv K s bs.
Proof.
  intros Hl Hv. pose proof (new_unchecked_spec _ capacity_bounds bs) as Hs. revert Hs. zbool.
  intros (s & Hs & Hr). by exists s.
Qed.

Lemma valid_content bs : valid K bs → is_invalid_content bs = false.
Proof. by intros []. Qed.

(** Removal of a byte: a byte whose removal makes the name illegal is put back. *)
Lemma remove_spec s bs idx b :
  inv K s bs → bs !! Z.to_nat idx = Some b → 0 ≤ idx → idx + 1 < CAPACITY →
  let bs' := take (Z.to_nat idx) bs ++ drop (S (Z.to_nat idx)) bs in
  if is_invalid_content bs'
  then ∃ s', remove K s idx = Return (Err InvalidName, s') ∧ inv K s' bs
  else ∃ s', remove K s idx = Return (Ok b, s') ∧ inv K s' bs'.
Proof.
  intros [H Hv] Hb Hi Hc bs'. pose proof capacity_bounds as Hcap. unfold remove.
  destruct (remove_ok _ Hcap s bs idx b H Hb Hi Hc) as (s1 & -> & Hr1). cbn [obind]. fold bs' in Hr1.
  rewrite (as_bytes_rep _ _ _ Hr1). cbn [obind].
  pose proof (lookup_lt_Some _ _ _ Hb) as Hlt. pose proof (rep_bound _ _ _ H) as [Hlb Hl].
  pose proof (rep_bound _ _ _ Hr1) as [_ Hl1].
  assert (Hbs' : S (length bs') = length bs).
  { unfold bs'. rewrite length_app, length_take, length_drop. lia. }
  destruct (is_invalid_content bs') eqn:Ei.
  - pose proof (Bytes.insert_bytes_spec _ Hcap s1 bs' [b] idx Hr1 Hi) as Hs. cbn [length] in Hs.
    unfold ISIZE_MAX in *. specialize (Hs ltac:(lia)). revert Hs. zbool.
    intros (s2 & Hs2 & Hr2). unfold Bytes.insert. rewrite Hs2. cbn [obind].
    exists s2. split; [done|]. split; [|done].
    enough (Hbs : take (Z.to_nat idx) bs' ++ [b] ++ drop (Z.to_nat idx) bs' = bs)
      by (by rewrite Hbs in Hr2).
    unfold bs'. rewrite take_app_length', drop_app_length' by (rewrite length_take; lia).
    cbn [app]. rewrite <- (drop_S _ b) by done. by rewrite take_drop.
  - exists s1. split; [done|]. split; [done|]. split; [done|].
    unfold bs'. rewrite invalid_characters_app, orb_false_iff.
    split; [apply invalid_characters_take|apply invalid_characters_drop]; apply Hv.
Qed.

Lemma ss_remove_range_spec s bs idx n :
  inv K s bs → 0 ≤ idx → 0 ≤ n → idx + n < USIZE →
  let bs' := take (Z.to_nat idx) bs ++ drop (Z.to_nat (idx + n)) bs in
  if (len s <? idx + n) || (idx + n =? CAPACITY) || (len s - n =? CAPACITY)
    then remove_range K s idx n = Panic
  else if is_invalid_content bs' then remove_range K s idx n = Return (Err InvalidName, s)
  else ∃ s', remove_range K s idx n = Return (Ok tt, s') ∧ inv K s' bs'.
Proof.
  intros [H Hv] Hi Hn Hw bs'. unfold remove_range.
  pose proof (Bytes.remove_range_spec _ capacity_bounds s bs idx n H Hi Hn Hw) as Hs.
  destruct (len s <? idx + n); [by rewrite Hs|]. cbn [orb].
  destruct (_ || _); [by rewrite Hs|]. destruct Hs as (s1 & -> & Hr). cbn [obind]. fold bs' in Hr.
  rewrite (as_bytes_rep _ _ _ Hr). cbn [obind]. destruct (is_invalid_content bs') eqn:E; [done|].
  exists s1. split; [done|]. split; [done|]. split; [done|]. unfold bs'.
  rewrite invalid_characters_app, orb_false_iff.
  split; [apply invalid_characters_take|apply invalid_characters_drop]; apply Hv.
Qed.

Lemma ss_truncate_spec s bs n :
  inv K s bs → 0 ≤ n →
  let bs' := take (Z.to_nat n) bs in
  if is_invalid_content bs' then truncate K s n = Return (Err InvalidName, s)
  else ∃ s', truncate K s n = Return (Ok tt, s') ∧ inv K s' bs'.
Proof.
  intros [H Hv] Hn bs'. unfold truncate.
  pose proof (Bytes.truncate_spec _ capacity_bounds s bs n H Hn) as Hs. pose proof (rep_bound _ _ _ H) as [Hb Hl].
  assert (∃ s1, Bytes.truncate CAPACITY s n = Return s1 ∧ rep CAPACITY s1 bs') as (s1 & -> & Hr).
  { destruct (Z.ltb_spec (len s) n); [|done]. exists s. split; [done|]. unfold bs'.
    by rewrite take_ge by lia. }
  cbn [obind]. rewrite (as_bytes_rep _ _ _ Hr). cbn [obind].
  destruct (is_invalid_content bs') eqn:E; [done|]. exists s1. split; [done|]. split; [done|].
  split; [done|]. by apply invalid_characters_take, Hv.
Qed.

(** A closure may keep a state as long as its answers for a byte do not depend on it: it
    is run a second time, with the state the first run has left. *)
Definition steady {St} (f : St → Z → St * bool) : Prop := ∀ st st' b, (f st b).2 = (f st' b).2.

Lemma retain_list_steady {St} (f : St → Z → St * bool) st bs :
  steady f → (retain_list f st bs).2 = List.filter (λ b, negb (f st b).2) bs.
Proof.
  intros Hf. induction bs as [|b bs IH]; [done|]. cbn. rewrite <- IH. destruct (retain_list f st bs) as [st1 kept].
  rewrite (Hf st st1 b). by destruct (f st1 b) as [st2 []].
Qed.

Lemma retain_spec {St} (f : St → Z → St * bool) st s bs :
  inv K s bs → steady f → (len s < CAPACITY ∨ ∃ b, last bs = Some b ∧ (f st b).2 = false) →
  let bs' := List.filter (λ b, negb (f st b).2) bs in
  if is_invalid_content bs'
    then retain K s f st = Return (Err InvalidName, s)
  else ∃ s', retain K s f st = Return (Ok tt, s') ∧ inv K s' bs'.
Proof.
  intros [H Hv] Hf Hl bs'. unfold retain, Bytes.retain.
  destruct (retain_impl_ok _ capacity_bounds f st s bs H Hl) as (s1 & Hs1 & Hr). rewrite Hs1. cbn [obind].
  pose proof (invalid_characters_retain f st bs) as Hc. rewrite retain_list_steady in Hr, Hc by done. fold bs' in Hr, Hc.
  rewrite (as_bytes_rep _ _ _ Hr). cbn [obind]. destruct (is_invalid_content bs') eqn:E; [done|].
  set (st1 := (retain_list f st bs).1). destruct (retain_impl_ok _ capacity_bounds f st1 s bs H) as (s2 & Hs2 & Hr2).
  { destruct Hl as [|(b & Hb & Hg)]; [by left|]. right. exists b. by rewrite (Hf st1 st b). }
  rewrite retain_list_steady in Hr2 by done.
  replace (List.filter (λ b, negb (f st1 b).2) bs) with bs' in Hr2 by (apply List.filter_ext; intros b; by rewrite (Hf st st1 b)).
  exists s2. rewrite Hs2. split; [done|]. split; [done|]. split; [done|]. by apply Hc, Hv.
Qed.

(** The argument of a failing strip operation is rendered into 123 bytes. *)
Lemma render_message_spec bytes :
  if Z.of_nat (length bytes) <=? MESSAGE_CAPACITY then render_message bytes = Return tt
  else ¬ safe (render_message bytes).
Proof.
  assert (Hc : 0 < MESSAGE_CAPACITY < ISIZE_MAX) by (unfold MESSAGE_CAPACITY, ISIZE_MAX; lia).
  unfold render_message. destruct (new_ok _ Hc) as (s0 & -> & H0). cbn [obind].
  pose proof (rep_bound _ _ _ H0) as [_ Hl]. change (len s0 = 0) in Hl.
  destruct (Z.leb_spec (Z.of_nat (length bytes)) MESSAGE_CAPACITY).
  - destruct (insert_bytes_unchecked_ok _ Hc s0 [] bytes 0 H0) as (s1 & -> & _); [lia..|done].
  - intros [u Hu]. inv_outcome.
    eapply (insert_bytes_unchecked_not_return _ Hc s0 bytes 0); [lia..|]. by eexists.
Qed.

Lemma ss_strip_prefix_spec s bs bytes :
  inv K s bs →
  let bs' := drop (length bytes) bs in
  if decide (bytes `prefix_of` bs) then
    if (Z.of_nat (length bytes) =? CAPACITY) || (len s - Z.of_nat (length bytes) =? CAPACITY)
    then strip_prefix K s bytes = Panic
    else if is_invalid_content bs' then
      if Z.of_nat (length bytes) <=? MESSAGE_CAPACITY
      then strip_prefix K s bytes = Return (Err InvalidName, s)
      else ¬ safe (strip_prefix K s bytes)
    else ∃ s', strip_prefix K s bytes = Return (Ok true, s') ∧ inv K s' bs'
  else strip_prefix K s bytes = Return (Ok false, s).
Proof.
  intros [H Hv] bs'. unfold strip_prefix.
  pose proof (Bytes.strip_prefix_spec _ capacity_bounds s bs bytes H) as Hs.
  destruct (decide _); [|by rewrite Hs]. destruct (_ || _); [by rewrite Hs|].
  destruct Hs as (s1 & -> & Hr). cbn [obind negb]. fold bs' in Hr.
  rewrite (as_bytes_rep _ _ _ Hr). cbn [obind]. destruct (is_invalid_content bs') eqn:E.
  - pose proof (render_message_spec bytes) as Hm. case_bool; [by rewrite Hm|].
    intros [r Hr']. apply Hm. inv_outcome. by eexists.
  - exists s1. split; [done|]. split; [done|]. split; [done|]. by apply invalid_characters_drop, Hv.
Qed.

Lemma ss_strip_suffix_spec s bs bytes :
  inv K s bs →
  let bs' := take (length bs - length bytes) bs in
  if decide (bytes `suffix_of` bs) then
    if len s =? CAPACITY then strip_suffix K s bytes = Panic
    else if is_invalid_content bs' then
      if Z.of_nat (length bytes) <=? MESSAGE_CAPACITY
      then strip_suffix K s bytes = Return (Err InvalidName, s)
      else ¬ safe (strip_suffix K s bytes)
    else ∃ s', strip_suffix K s bytes = Return (Ok true, s') ∧ inv K s' bs'
  else strip_suffix K s bytes = Return (Ok false, s).
Proof.
  intros [H Hv] bs'. unfold strip_suffix.
  pose proof (Bytes.strip_suffix_spec _ capacity_bounds s bs bytes H) as Hs.
  destruct (decide _); [|by rewrite Hs]. destruct (len s =? CAPACITY); [by rewrite Hs|].
  destruct Hs as (s1 & -> & Hr). cbn [obind negb]. fold bs' in Hr.
  rewrite (as_bytes_rep _ _ _ Hr). cbn [obind]. destruct (is_invalid_content bs') eqn:E.
  - pose proof (render_message_spec bytes) as Hm. case_bool; [by rewrite Hm|].
    intros [r Hr']. apply Hm. inv_outcome. by eexists.
  - exists s1. split; [done|]. split; [done|]. split; [done|]. by apply invalid_characters_take, Hv.
Qed.

(** ** Calls *)

(** The modifying operations with their arguments. *)
Inductive op :=
| Insert (idx : Z) (bytes : list Z)
| Remove (idx : Z)
| Pop
| RemoveRange (idx n : Z)
| Retain {St : Type} (f : St → Z → St * bool) (st : St)
| StripPrefix (bytes : list Z)
| StripSuffix (bytes : list Z)
| Truncate (new_len : Z).

Definition ignore_ok {A B} (m : outcome (result A SemanticStringError * B))
    : outcome (option SemanticStringError * B) :=
  let! '(r, s) := m in
  Return (match r with Ok _ => None | Err e => Some e end, s).

Definition call (o : op) s : outcome (option SemanticStringError * FixedSizeByteString) :=
  match o with
  | Insert idx bytes => ignore_ok (insert_bytes K s idx bytes)
  | Remove idx => ignore_ok (remove K s idx)
  | Pop => ignore_ok (pop K s)
  | RemoveRange idx n => ignore_ok (remove_range K s idx n)
  | Retain f st => ignore_ok (retain K s f st)
  | StripPrefix bytes => ignore_ok (strip_prefix K s bytes)
  | StripSuffix bytes => ignore_ok (strip_suffix K s bytes)
  | Truncate n => ignore_ok (truncate K s n)
  end.

(** Arguments a caller can pass: sizes of slices, and ranges whose end is a [usize]; and of
    the closures of [retain] those that answer alike when they are run again. *)
Definition args_ok (o : op) : Prop :=
  match o with
  | Insert idx bytes => 0 ≤ idx ∧ Z.of_nat (length bytes) ≤ ISIZE_MAX
  | Remove idx => 0 ≤ idx
  | RemoveRange idx n => 0 ≤ idx ∧ 0 ≤ n ∧ idx + n < USIZE
  | Retain f _ => steady f
  | Truncate n => 0 ≤ n
  | _ => True
  end.

(** Calls inside of the string that do not touch its capacity. *)
Definition in_range (o : op) s : Prop :=
  len s < CAPACITY ∧
  match o with
  | Insert idx bytes => idx ≤ len s ∧ len s + Z.of_nat (length bytes) < CAPACITY
  | Remove idx => idx < len s
  | RemoveRange idx n => idx + n ≤ len s
  | StripPrefix bytes | StripSuffix bytes => Z.of_nat (length bytes) ≤ MESSAGE_CAPACITY
  | _ => True
  end.

(** What a call may do: keep the string valid, keep the bytes on an error, and
    return when it is in range. *)
Definition call_ok (o : op) s bs : Prop :=
  (∀ e s', call o s = Return (e, s') → ∃ bs', inv K s' bs' ∧ (e ≠ None → bs' = bs)) ∧
  (in_range o s → safe (call o s)).

Lemma call_ok_done o s bs e s' bs' :
  call o s = Return (e, s') → inv K s' bs' → (e ≠ None → bs' = bs) → call_ok o s bs.
Proof.
  intros Hc Hi He. split.
  - intros e1 s1 H1. rewrite H1 in Hc. injection Hc as -> ->. eauto.
  - intros _. by exists (e, s').
Qed.

Lemma call_ok_stuck o s bs : ¬ safe (call o s) → ¬ in_range o s → call_ok o s bs.
Proof. intros H1 H2. split; [|done]. intros e s' Hc. destruct H1. by eexists. Qed.

Lemma panic_not_safe {A} (m : outcome A) : m = Panic → ¬ safe m.
Proof. intros -> [? ?]. done. Qed.

Lemma ignore_not_safe {A B} (m : outcome (result A SemanticStringError * B)) :
  ¬ safe m → ¬ safe (ignore_ok m).
Proof. intros H [x Hx]. apply H. unfold ignore_ok in Hx. inv_outcome. by eexists. Qed.

Lemma insert_call_ok s bs idx bytes :
  inv K s bs → args_ok (Insert idx bytes) → call_ok (Insert idx bytes) s bs.
Proof.
  intros Hinv [Hi Hn]. pose proof Hinv as [H Hv]. pose proof (ss_insert_bytes_spec s bs bytes idx H Hi Hn) as Hs.
  cbv zeta in Hs. destruct (does_contain_invalid_characters bytes) eqn:Ed.
  { eapply call_ok_done; [cbn; by rewrite Hs|done|done]. }
  destruct (Z.ltb_spec (len s) idx).
  { apply call_ok_stuck; [by apply ignore_not_safe, panic_not_safe|]. intros [_ ?]. lia. }
  destruct (Z.ltb_spec CAPACITY (len s + Z.of_nat (length bytes))).
  { eapply call_ok_done; [cbn; by rewrite Hs|done|done]. }
  destruct (Z.eqb_spec idx CAPACITY).
  { apply call_ok_stuck; [by apply ignore_not_safe, panic_not_safe|]. intros [? ?]. lia. }
  destruct (is_invalid_content _) eqn:Ei.
  - destruct (_ || _) eqn:Eo.
    + apply call_ok_stuck; [by apply ignore_not_safe, panic_not_safe|]. intros [? ?]. lia.
    + destruct Hs as (s' & Hs & Hr). eapply call_ok_done; [cbn; by rewrite Hs|by split|done].
  - destruct Hs as (s' & Hs & Hr). eapply call_ok_done; [cbn; by rewrite Hs| |by intros []].
    split; [exact Hr|]. split; [exact Ei|]. rewrite !invalid_characters_app, Ed.
    rewrite invalid_characters_take, invalid_characters_drop by apply Hv. done.
Qed.

Lemma remove_call_ok s bs idx : inv K s bs → 0 ≤ idx → call_ok (Remove idx) s bs.
Proof.
  intros Hinv Hi. pose proof Hinv as [H Hv]. pose proof (rep_bound _ _ _ H) as [Hb Hl].
  destruct (decide (idx < len s ∧ idx + 1 < CAPACITY)) as [[Hlt Hc]|Hn].
  - destruct (lookup_lt_is_Some_2 bs (Z.to_nat idx)) as [b Hbb]; [lia|].
    pose proof (remove_spec s bs idx b Hinv Hbb Hi Hc) as Hs. cbv zeta in Hs. case_bool;
      destruct Hs as (s' & Hs & Hr); (eapply call_ok_done; [cbn; by rewrite Hs|done|done]).
  - apply call_ok_stuck.
    + apply ignore_not_safe. intros [x Hx]. unfold remove in Hx. inv_outcome.
      eapply (remove_not_return _ capacity_bounds s bs idx H Hi); [lia|]. by eexists.
    + intros [? ?]. cbn in *. lia.
Qed.

Lemma pop_call_ok s bs : inv K s bs → call_ok Pop s bs.
Proof.
  intros Hinv. pose proof Hinv as [H Hv]. pose proof (rep_bound _ _ _ H) as [Hb Hl].
  destruct (Z.eqb_spec (len s) 0) as [E|].
  { eapply call_ok_done; [cbn; unfold pop; by rewrite E|done|done]. }
  destruct (remove_call_ok s bs (len s - 1) Hinv ltac:(lia)) as [Hrem Hsafe].
  assert (Hpop : call Pop s = call (Remove (len s - 1)) s).
  { cbn. unfold pop. zbool. pose proof capacity_bounds.
    rewrite usub_ok by (unfold ISIZE_MAX, USIZE in *; lia). cbn [obind].
    destruct (remove K s (len s - 1)) as [[[] ?]| |]; done. }
  split; rewrite Hpop; [done|]. intros [? _]. apply Hsafe. split; cbn; lia.
Qed.

Lemma retain_call_ok {St} (f : St → Z → St * bool) st s bs : inv K s bs → steady f → call_ok (Retain f st) s bs.
Proof.
  intros Hinv Hf. pose proof (rep_bound _ _ _ (proj1 Hinv)) as [Hb Hl].
  assert (Hok : (len s < CAPACITY ∨ ∃ b, last bs = Some b ∧ (f st b).2 = false) → call_ok (Retain f st) s bs).
  { intros Hr. pose proof (retain_spec f st s bs Hinv Hf Hr) as Hs. cbv zeta in Hs.
    case_bool; [|destruct Hs as (s' & Hs & Hr')]; (eapply call_ok_done; [cbn; by rewrite Hs|done|done]). }
  destruct (decide (len s < CAPACITY)); [auto|].
  destruct (last bs) as [b|] eqn:Eb.
  2:{ apply last_None in Eb as ->. cbn in Hl. pose proof capacity_bounds. lia. }
  destruct (f st b).2 eqn:Eg; [|eauto].
  apply call_ok_stuck; [|intros [? ?]; lia]. apply ignore_not_safe. intros [x Hx].
  unfold retain in Hx. inv_outcome.
  eapply (retain_impl_not_return _ capacity_bounds f st s bs b (proj1 Hinv));
    [lia|done|exact Eg|by eexists].
Qed.

(** The other operations that work on a copy first. *)
Lemma other_call_ok o s bs :
  inv K s bs → args_ok o → (match o with Insert _ _ | Remove _ | Pop | Retain _ _ => False | _ => True end) →
  call_ok o s bs.
Proof.
  intros Hinv Ha Ho. pose proof (rep_bound _ _ _ (proj1 Hinv)) as [Hb Hl].
  destruct o as [| | |idx n|St f st|bytes|bytes|n]; try done.
  - destruct Ha as (Hi & Hn & Hw). pose proof (ss_remove_range_spec s bs idx n Hinv Hi Hn Hw) as Hs.
    cbv zeta in Hs. destruct (_ || _ || _) eqn:E.
    { apply call_ok_stuck; [by apply ignore_not_safe, panic_not_safe|]. intros [? ?]. cbn in *. lia. }
    case_bool; [|destruct Hs as (s' & Hs & Hr')]; (eapply call_ok_done; [cbn; by rewrite Hs|done|done]).
  - pose proof (ss_strip_prefix_spec s bs bytes Hinv) as Hs. cbv zeta in Hs.
    destruct (decide _) as [Hp|]; [|eapply call_ok_done; [cbn; by rewrite Hs|done|done]].
    apply prefix_length in Hp. destruct (_ || _) eqn:E.
    { apply call_ok_stuck; [by apply ignore_not_safe, panic_not_safe|]. intros [? ?]. cbn in *. lia. }
    case_bool; [| |destruct Hs as (s' & Hs & Hr')]; try (eapply call_ok_done; [cbn; by rewrite Hs|done|done]).
    apply call_ok_stuck; [by apply ignore_not_safe|]. intros [? ?]. cbn in *. lia.
  - pose proof (ss_strip_suffix_spec s bs bytes Hinv) as Hs. cbv zeta in Hs.
    destruct (decide _) as [Hp|]; [|eapply call_ok_done; [cbn; by rewrite Hs|done|done]].
    destruct (len s =? CAPACITY) eqn:E.
    { apply call_ok_stuck; [by apply ignore_not_safe, panic_not_safe|]. intros [? ?]. cbn in *. lia. }
    case_bool; [| |destruct Hs as (s' & Hs & Hr')]; try (eapply call_ok_done; [cbn; by rewrite Hs|done|done]).
    apply call_ok_stuck; [by apply ignore_not_safe|]. intros [? ?]. cbn in *. lia.
  - pose proof (ss_truncate_spec s bs n Hinv Ha) as Hs. cbv zeta in Hs.
    case_bool; [|destruct Hs as (s' & Hs & Hr')]; (eapply call_ok_done; [cbn; by rewrite Hs|done|done]).
Qed.

Lemma every_call_ok o s bs : inv K s bs → args_ok o → call_ok o s bs.
Proof.
  intros Hi Ha. destruct o.
  all: try by apply other_call_ok.
  - by apply insert_call_ok.
  - by apply remove_call_ok.
  - by apply pop_call_ok.
  - by apply retain_call_ok.
Qed.

(** A sequence of calls; errors are ignored by the caller. *)
Fixpoint calls (os : list op) s : outcome FixedSizeByteString :=
  match os with
  | [] => Return s
  | o :: os => let! '(_, s) := call o s in calls os s
  end.
End Lemmas.

(** ** Theorems *)

Section Theorems.
Context `{P : Profile} (K : SemanticStringAccessor) `{L : !SemanticStringLaws K}.

(** C15. A semantic string is valid forever: [new] accepts exactly the valid byte
    sequences that fit (an illegal name that fills the capacity makes it panic),
    and no sequence of calls, failing ones included, produces a string whose bytes
    violate the rules of its kind. The closures given to [retain] may keep a state, but
    what they answer for a byte must not depend on it: [retain] runs them twice, and
    one that answers otherwise breaks a string
    ([SystemTypes.stateful_retain_breaks_file_name]). *)
Theorem semantic_string_stays_valid value os :
  Z.of_nat (length value) ≤ ISIZE_MAX → Forall args_ok os →
  (if does_contain_invalid_characters value then new K value = Return (Err InvalidCharacter)
   else if CAPACITY <? Z.of_nat (length value) then new K value = Return (Err ExceedsMaximumLength)
   else if is_invalid_content value then
     if Z.of_nat (length value) =? CAPACITY then new K value = Panic
     else new K value = Return (Err InvalidName)
   else ∃ s, new K value = Return (Ok s) ∧ inv K s value ∧
     ∀ s', calls K os s = Return s' → ∃ bs, as_bytes s' = Return bs ∧ valid K bs).
Proof.
  intros Hn Ha. pose proof (new_spec K value Hn) as Hs.
  destruct (does_contain_invalid_characters value); [done|].
  destruct (CAPACITY <? Z.of_nat (length value)); [done|].
  destruct (is_invalid_content value); [done|].
  destruct Hs as (s & Hs & Hi). exists s. split; [done|]. split; [done|].
  clear Hs Hn. revert s value Hi. induction Ha as [|o os Ho Ha IH]; intros s bs Hi s' Hc; cbn in Hc.
  - injection Hc as <-. exists bs. split; [eapply as_bytes_rep, Hi|apply Hi].
  - destruct (call K o s) as [[e s1]| |] eqn:E; [|done..]. cbn in Hc.
    destruct (every_call_ok K o s bs Hi Ho) as [Hok _].
    destruct (Hok e s1 E) as (bs1 & Hi1 & _). by apply (IH s1 bs1).
Qed.

(** C20. A call that reports an error has not changed the bytes, and a call within the
    string that stays below the capacity returns. The closures of [retain] are those of
    the previous theorem. *)
Theorem semantic_string_errors_keep_content o s bs :
  inv K s bs → args_ok o →
  (∀ e s', call K o s = Return (Some e, s') → as_bytes s' = Return bs) ∧
  (in_range K o s → ∃ r, call K o s = Return r).
Proof.
  intros Hi Ha. destruct (every_call_ok K o s bs Hi Ha) as [Hok Hsafe]. split; [|done].
  intros e s' Hc. destruct (Hok _ _ Hc) as (bs' & Hi' & He). rewrite <- (He ltac:(done)).
  eapply as_bytes_rep, Hi'.
Qed.
End Theorems.
End Semantic.
