(* ===== verification/SystemTypes.v ===== *)
(** * elkodon_bb/system_types: names, paths and addresses

    - [Settings]: the constants of elkodon_pal/settings, for Unix and for Windows;
    - [FileName], [Path], [FilePath], [UserName], [GroupName]: the kinds of semantic
      strings, each an instance of the trait of [SemanticString];
    - joining and splitting of paths: file_path.rs, path.rs;
    - [Module Ipv4]: ipv4_address.rs. *)

From S2P Require Import Prelude ByteString SemanticString.
From stdpp Require Import strings.
Open Scope Z_scope.

Import Bytes Semantic.

(** ** Constants of the platform *)

Class Settings := {
  TEMP_DIRECTORY : list Z;
  PATH_SEPARATOR : Z;
  FILENAME_LENGTH : Z;
  PATH_LENGTH : Z
}.

Definition settings_unix : Settings := {|
  TEMP_DIRECTORY := bytes_of_string "/tmp/";
  PATH_SEPARATOR := 47;
  FILENAME_LENGTH := 255;
  PATH_LENGTH := 4096 |}.

Definition settings_win : Settings := {|
  TEMP_DIRECTORY := bytes_of_string "C:\Windows\Temp\";
  PATH_SEPARATOR := 92;
  FILENAME_LENGTH := 255;
  PATH_LENGTH := 255 |}.

(** What the code needs of a platform. *)
Class SettingsLaws (S : Settings) := {
  separator_is : PATH_SEPARATOR = 47 ∨ PATH_SEPARATOR = 92;
  lengths_ok : 2 < FILENAME_LENGTH ≤ PATH_LENGTH ∧ PATH_LENGTH < ISIZE_MAX
}.

#[global] Instance settings_unix_laws : SettingsLaws settings_unix.
Proof. split; cbn; unfold ISIZE_MAX; lia. Qed.
#[global] Instance settings_win_laws : SettingsLaws settings_win.
Proof. split; cbn; unfold ISIZE_MAX; lia. Qed.

(** ** The kinds of strings *)

Definition file_name_invalid_character (c : Z) : bool :=
  (c =? 0) || (c =? 47) || ((1 <=? c) && (c <=? 31)) || (c =? 58) || (c =? 92) || (c =? 60)
  || (c =? 62) || (c =? 34) || (c =? 124) || (c =? 63) || (c =? 42).

Definition path_invalid_character (c : Z) : bool :=
  (c =? 0) || ((1 <=? c) && (c <=? 31)) || (c =? 60) || (c =? 62) || (c =? 34) || (c =? 124)
  || (c =? 63) || (c =? 42).

Definition user_invalid_character (c : Z) : bool :=
  negb (((97 <=? c) && (c <=? 122)) || ((48 <=? c) && (c <=? 57)) || (c =? 45)).

Definition dots (value : list Z) : bool :=
  bool_decide (value = []) || bool_decide (value = [46]) || bool_decide (value = [46; 46]).

Section Kinds.
Context {Env : Settings}.

Definition file_path_invalid_content (string : list Z) : bool :=
  dots string
  || bool_decide (last string = Some PATH_SEPARATOR)
  || ((2 <=? length string)%nat && bool_decide (drop (length string - 2) string = [PATH_SEPARATOR; 46]))
  || ((3 <=? length string)%nat && bool_decide (drop (length string - 3) string = [PATH_SEPARATOR; 46; 46])).

Definition name_invalid_content (string : list Z) : bool :=
  match string with
  | [] => true
  | c :: _ => (c =? 45) || ((48 <=? c) && (c <=? 57))
  end.

Definition FileName : SemanticStringAccessor := {|
  CAPACITY := FILENAME_LENGTH;
  is_invalid_content := dots;
  does_contain_invalid_characters := existsb file_name_invalid_character |}.

Definition Path : SemanticStringAccessor := {|
  CAPACITY := PATH_LENGTH;
  is_invalid_content := λ _, false;
  does_contain_invalid_characters := existsb path_invalid_character |}.

Definition FilePath : SemanticStringAccessor := {|
  CAPACITY := PATH_LENGTH;
  is_invalid_content := file_path_invalid_content;
  does_contain_invalid_characters := existsb path_invalid_character |}.

Definition USER_NAME_LENGTH : Z := 31.
Definition UserName : SemanticStringAccessor := {|
  CAPACITY := USER_NAME_LENGTH;
  is_invalid_content := name_invalid_content;
  does_contain_invalid_characters := existsb user_invalid_character |}.

Definition GROUP_NAME_LENGTH : Z := 31.
Definition GroupName : SemanticStringAccessor := {|
  CAPACITY := GROUP_NAME_LENGTH;
  is_invalid_content := name_invalid_content;
  does_contain_invalid_characters := existsb user_invalid_character |}.
End Kinds.

Section KindLaws.
Context {Env : Settings} `{!SettingsLaws Env}.

#[global] Instance file_name_laws : SemanticStringLaws FileName.
Proof.
  split; [|done|intros; apply existsb_app]. pose proof lengths_ok. cbn. lia.
Qed.
#[global] Instance path_laws : SemanticStringLaws Path.
Proof.
  split; [|done|intros; apply existsb_app]. pose proof lengths_ok. cbn. lia.
Qed.
#[global] Instance file_path_laws : SemanticStringLaws FilePath.
Proof.
  split; [|done|intros; apply existsb_app]. pose proof lengths_ok. cbn. lia.
Qed.
#[global] Instance user_name_laws : SemanticStringLaws UserName.
Proof. split; [|done|intros; apply existsb_app]. cbn. unfold USER_NAME_LENGTH, ISIZE_MAX. lia. Qed.
#[global] Instance group_name_laws : SemanticStringLaws GroupName.
Proof. split; [|done|intros; apply existsb_app]. cbn. unfold GROUP_NAME_LENGTH, ISIZE_MAX. lia. Qed.
End KindLaws.

(** ** Joining and splitting *)

Section Paths.
Context `{P : Profile} {Env : Settings}.
Implicit Types (path file fp : FixedSizeByteString).

(** [!path.is_empty() && path.as_bytes()[path.len() - 1] != PATH_SEPARATOR] *)
Definition needs_separator path : outcome bool :=
  if is_empty path then Return false
  else
    let! bytes := as_bytes path in
    let! i := usub (len path) 1 in
    let! c := index_read bytes i in
    Return (negb (c =? PATH_SEPARATOR)).

Definition from_path_and_file path file
    : outcome (result FixedSizeByteString SemanticStringError) :=
  let! path_bytes := as_bytes path in
  let! new_self := Bytes.new_unchecked PATH_LENGTH path_bytes in
  let! sep := needs_separator path in
  let! '(r, new_self) :=
    (if sep then Bytes.push PATH_LENGTH new_self PATH_SEPARATOR else Return (Ok tt, new_self)) in
  match r with
  | Err _ => Return (Err ExceedsMaximumLength)
  | Ok _ =>
      let! file_bytes := as_bytes file in
      let! '(r, new_self) := Bytes.push_bytes PATH_LENGTH new_self file_bytes in
      match r with
      | Err _ => Return (Err ExceedsMaximumLength)
      | Ok _ => Return (Ok new_self)
      end
  end.

Fixpoint rfind_loop (bytes : list Z) (n byte : Z) (range : list Z) : outcome (option Z) :=
  match range with
  | [] => Return None
  | i :: range =>
      let! a := usub n 1 in
      let! pos := usub a i in
      let! c := index_read bytes pos in
      if c =? byte then Return (Some pos) else rfind_loop bytes n byte range
  end.

(** [FilePath::rfind] *)
Definition rfind fp (byte : Z) : outcome (option Z) :=
  let! bytes := as_bytes fp in rfind_loop bytes (len fp) byte (seqZ 0 (len fp)).

(** [slice.get(a..b).unwrap()] *)
Definition get_range (bytes : list Z) (a b : Z) : outcome (list Z) :=
  if (0 <=? a) && (a <=? b) && (b <=? Z.of_nat (length bytes))
  then Return (take (Z.to_nat (b - a)) (drop (Z.to_nat a) bytes)) else Panic.

Definition file_name fp : outcome (list Z) :=
  let! r := rfind fp PATH_SEPARATOR in
  let! bytes := as_bytes fp in
  match r with
  | None => Return bytes
  | Some pos => let! a := uadd pos 1 in get_range bytes a (len fp)
  end.

Definition path_of fp : outcome (list Z) :=
  let! r := rfind fp PATH_SEPARATOR in
  match r with
  | None => from_raw_parts (memory fp) 0 0
  | Some pos => let! bytes := as_bytes fp in let! b := uadd pos 1 in get_range bytes 0 b
  end.

Definition file_path_from_file_name file : outcome FixedSizeByteString :=
  let! b := as_bytes file in new_unchecked FilePath b.

Definition path_from_file_path fp : outcome FixedSizeByteString :=
  let! b := as_bytes fp in new_unchecked Path b.

Definition add_path_entry path (entry : FixedSizeByteString)
    : outcome (result unit SemanticStringError * FixedSizeByteString) :=
  let! sep := needs_separator path in
  let! '(r, path) :=
    (if sep then Semantic.push Path path PATH_SEPARATOR else Return (Ok tt, path)) in
  match r with
  | Err _ => Return (Err ExceedsMaximumLength, path)
  | Ok _ =>
      let! bytes := as_bytes entry in
      let! '(r, path) := Semantic.push_bytes Path path bytes in
      match r with
      | Err _ => Return (Err ExceedsMaximumLength, path)
      | Ok _ => Return (Ok tt, path)
      end
  end.
End Paths.

(** The directory part a path contributes: a separator is added unless the path is
    empty or ends with one. *)
Definition directory {Env : Settings} (bs : list Z) : list Z :=
  match last bs with
  | None => []
  | Some c => if c =? PATH_SEPARATOR then bs else bs ++ [PATH_SEPARATOR]
  end.

Section Lemmas.
Context `{P : Profile} {Env : Settings} `{!SettingsLaws Env}.
Implicit Types (path file fp s : FixedSizeByteString) (bs pb fb : list Z).

Lemma directory_ends pb : directory pb = [] ∨ ∃ l, directory pb = l ++ [PATH_SEPARATOR].
Proof.
  unfold directory. destruct (last pb) as [c|] eqn:E; [|by left]. right.
  apply last_Some in E as (l & ->). case_bool; [|by eexists].
  exists l. assert (c = PATH_SEPARATOR) as -> by lia. done.
Qed.

Lemma directory_nil pb : directory pb = [] ↔ pb = [].
Proof.
  unfold directory. split; [|by intros ->]. destruct (last pb) as [c|] eqn:E.
  - apply last_Some in E as (l & ->). case_bool; intros H; apply app_nil in H; naive_solver.
  - by apply last_None in E.
Qed.

Lemma needs_separator_ok cap path pb :
  rep cap path pb → cap < ISIZE_MAX →
  ∃ b, needs_separator path = Return b ∧ directory pb = if b then pb ++ [PATH_SEPARATOR] else pb.
Proof.
  intros H Hc. pose proof (rep_bound _ _ _ H) as [Hb Hl]. unfold needs_separator, is_empty, directory.
  destruct (last pb) as [c|] eqn:E.
  - apply last_Some in E as (l & ->). rewrite length_app in Hl. cbn [length] in Hl. zbool.
    rewrite (as_bytes_rep _ _ _ H). cbn [obind].
    rewrite usub_ok by (unfold ISIZE_MAX, USIZE in *; lia). cbn [obind].
    rewrite (index_read_ok _ _ c); [|lia|].
    + eexists. split; [done|]. by destruct (c =? PATH_SEPARATOR).
    + replace (Z.to_nat (len path - 1)) with (length l) by lia. by apply list_lookup_middle.
  - apply last_None in E as ->. rewrite Hl. by exists false.
Qed.

(** Nothing but the separator is at the end of the part in front of the last one. *)
Lemma separator_not_in_file_name fb :
  existsb file_name_invalid_character fb = false → PATH_SEPARATOR ∉ fb.
Proof.
  intros Hf Hin. apply not_true_iff_false in Hf. apply Hf, existsb_exists.
  exists PATH_SEPARATOR. rewrite <- list_elem_of_In. split; [done|].
  unfold file_name_invalid_character. destruct separator_is as [-> | ->]; done.
Qed.

Lemma file_name_characters_in_path fb :
  existsb file_name_invalid_character fb = false → existsb path_invalid_character fb = false.
Proof.
  induction fb as [|c fb IH]; [done|]. cbn. rewrite !orb_false_iff. intros [Hc Hf].
  split; [|auto]. unfold file_name_invalid_character, path_invalid_character in *. lia.
Qed.

Lemma directory_characters pb :
  existsb path_invalid_character pb = false → existsb path_invalid_character (directory pb) = false.
Proof.
  intros H. unfold directory. destruct (last pb); [|done]. case_bool; [done|].
  rewrite existsb_app, H. cbn. unfold path_invalid_character.
  destruct separator_is as [-> | ->]; done.
Qed.

(** The bytes behind the last separator are unique. *)
Lemma last_part_unique pb fb l r :
  PATH_SEPARATOR ∉ fb → PATH_SEPARATOR ∉ r →
  directory pb ++ fb = l ++ PATH_SEPARATOR :: r → directory pb = l ++ [PATH_SEPARATOR] ∧ fb = r.
Proof.
  intros Hf Hr He. destruct (directory_ends pb) as [Hd|(l' & Hd)]; rewrite Hd in *.
  - cbn in He. subst fb. destruct Hf. apply elem_of_app. right. by left.
  - rewrite <- (assoc_L (++)) in He. cbn in He.
    apply not_elem_of_app_cons_inv_r in He as (-> & _ & ->); done.
Qed.

Lemma suffix_last_part pb fb r n :
  PATH_SEPARATOR ∉ fb → PATH_SEPARATOR ∉ r →
  drop n (directory pb ++ fb) = PATH_SEPARATOR :: r → fb = r.
Proof.
  intros Hf Hr Hd. eapply (last_part_unique pb fb (take n (directory pb ++ fb)) r); try done.
  rewrite <- Hd. by rewrite take_drop.
Qed.

Lemma dots_true bs : dots bs = true ↔ bs = [] ∨ bs = [46] ∨ bs = [46; 46].
Proof. unfold dots. rewrite !orb_true_iff, !bool_decide_eq_true. tauto. Qed.

(** A directory and a file name make a file path. *)
Lemma join_valid pb fb :
  valid Path pb → valid FileName fb → valid FilePath (directory pb ++ fb).
Proof.
  intros [_ Hp] [Hfc Hf]. cbn in *. pose proof (separator_not_in_file_name fb Hf) as Hns.
  assert (Hne : fb ≠ []) by (by intros ->).
  assert (H46 : PATH_SEPARATOR ≠ 46) by (destruct separator_is as [-> | ->]; lia).
  split; cbn.
  2:{ rewrite existsb_app, directory_characters by done. by apply file_name_characters_in_path. }
  unfold file_path_invalid_content.
  destruct (dots (directory pb ++ fb)) eqn:Ed.
  { exfalso. destruct (directory_ends pb) as [Hd|(l & Hd)]; rewrite Hd in Ed; [cbn in Ed; congruence|].
    assert (Hin : PATH_SEPARATOR ∈ (l ++ [PATH_SEPARATOR]) ++ fb) by (rewrite !elem_of_app; left; right; by left).
    apply dots_true in Ed as [Ed|[Ed|Ed]]; rewrite Ed in Hin; set_solver. }
  cbn [orb]. rewrite !bool_decide_eq_false_2; [by rewrite !andb_false_r|..].
  - intros Hd. eapply suffix_last_part in Hd; [|done|]; [by subst fb|]. set_solver.
  - intros Hd. eapply suffix_last_part in Hd; [|done|]; [by subst fb|]. set_solver.
  - rewrite last_app. destruct (last fb) as [c|] eqn:E; [|by apply last_None in E].
    intros [= ->]. apply Hns. apply last_Some in E as (? & ->). set_solver.
Qed.

(** [rfind] finds the last occurrence of the byte. *)
Lemma rfind_loop_ok byte bs n a : ∀ r,
  bs = a ++ r → byte ∉ r → n = Z.of_nat (length bs) → n ≤ ISIZE_MAX →
  rfind_loop bs n byte (seqZ (Z.of_nat (length r)) (Z.of_nat (length a))) = Return None ∧ (byte ∉ bs) ∨
  ∃ l r', bs = l ++ byte :: r' ∧ byte ∉ r' ∧
    rfind_loop bs n byte (seqZ (Z.of_nat (length r)) (Z.of_nat (length a))) =
    Return (Some (Z.of_nat (length l))).
Proof.
  induction a as [|c a IH] using rev_ind; intros r Hbs Hr Hn Hm.
  { left. cbn in Hbs. subst bs. done. }
  rewrite length_app. cbn [length]. rewrite seqZ_cons by lia. cbn [rfind_loop].
  pose proof (f_equal length Hbs) as Hlen. rewrite !length_app in Hlen. cbn [length] in Hlen.
  rewrite usub_ok by (unfold ISIZE_MAX, USIZE in *; lia). cbn [obind].
  rewrite usub_ok by (unfold ISIZE_MAX, USIZE in *; lia). cbn [obind].
  rewrite <- (assoc_L (++)) in Hbs. cbn [app] in Hbs.
  rewrite (index_read_ok _ _ c); [|lia|].
  2:{ replace (Z.to_nat (n - 1 - Z.of_nat (length r))) with (length a) by lia.
      rewrite Hbs. by apply list_lookup_middle. }
  cbn [obind]. destruct (Z.eqb_spec c byte) as [->|Hne].
  - right. exists a, r. do 2 (split; [done|]). do 2 f_equal. lia.
  - specialize (IH (c :: r) Hbs). cbn [length] in IH.
    replace (Z.succ (Z.of_nat (length r))) with (Z.of_nat (S (length r))) by lia.
    replace (Z.pred (Z.of_nat (length a + 1))) with (Z.of_nat (length a)) by lia.
    apply IH; [|done..]. rewrite elem_of_cons. naive_solver.
Qed.

Lemma rfind_ok cap fp bs :
  rep cap fp bs → cap < ISIZE_MAX →
  rfind fp PATH_SEPARATOR = Return None ∧ (PATH_SEPARATOR ∉ bs) ∨
  ∃ l r, bs = l ++ PATH_SEPARATOR :: r ∧ PATH_SEPARATOR ∉ r ∧
    rfind fp PATH_SEPARATOR = Return (Some (Z.of_nat (length l))).
Proof.
  intros H Hc. pose proof (rep_bound _ _ _ H) as [Hb Hl]. unfold rfind.
  rewrite (as_bytes_rep _ _ _ H). cbn [obind]. rewrite Hl.
  apply (rfind_loop_ok PATH_SEPARATOR bs (Z.of_nat (length bs)) bs []); [by rewrite app_nil_r|..].
  - apply not_elem_of_nil.
  - done.
  - lia.
Qed.

Lemma get_range_ok bs l r :
  bs = l ++ r →
  get_range bs (Z.of_nat (length l)) (Z.of_nat (length bs)) = Return r ∧
  get_range bs 0 (Z.of_nat (length l)) = Return l.
Proof.
  intros ->. unfold get_range. rewrite length_app. zbool. split; f_equal.
  - rewrite Nat2Z.id, drop_app_length. apply take_ge. lia.
  - rewrite drop_0, Z.sub_0_r, Nat2Z.id. apply take_app_length.
Qed.

(** Splitting a joined path gives back its parts. *)
Lemma split_ok cap fp pb fb :
  rep cap fp (directory pb ++ fb) → cap < ISIZE_MAX → PATH_SEPARATOR ∉ fb →
  file_name fp = Return fb ∧ path_of fp = Return (directory pb).
Proof.
  intros H Hc Hf. pose proof (rep_bound _ _ _ H) as [Hb Hl]. unfold file_name, path_of.
  destruct (rfind_ok cap fp _ H Hc) as [[-> Hns]|(l & r & Hs & Hr & ->)]; cbn [obind];
    rewrite (as_bytes_rep _ _ _ H); cbn [obind].
  - destruct (directory_ends pb) as [Hd|(l & Hd)]; rewrite Hd in *.
    + split; [done|]. unfold from_raw_parts. by zbool.
    + destruct Hns. rewrite !elem_of_app. left. right. by left.
  - pose proof (f_equal length Hs) as Hlen. rewrite !length_app in Hlen. cbn [length] in Hlen.
    rewrite length_app in Hl. rewrite uadd_ok by (unfold ISIZE_MAX, USIZE in *; lia). cbn [obind].
    destruct (last_part_unique pb fb l r Hf Hr Hs) as [Hd ->].
    destruct (get_range_ok (directory pb ++ r) (directory pb) r eq_refl) as [H1 H2].
    replace (Z.of_nat (length l) + 1) with (Z.of_nat (length (directory pb)))
      by (rewrite Hd, length_app; cbn; lia).
    rewrite Hl. rewrite length_app in H1. by rewrite H1, H2.
Qed.

(** Appending to a string that is being built. *)
Lemma append_ok cap s bs bytes :
  rep cap s bs → 0 < cap < ISIZE_MAX → Z.of_nat (length bytes) ≤ ISIZE_MAX → bytes ≠ [] →
  if cap <? Z.of_nat (length bs + length bytes)
  then Bytes.push_bytes cap s bytes = Return (Err InsertWouldExceedCapacity, s)
  else ∃ s', Bytes.push_bytes cap s bytes = Return (Ok tt, s') ∧ rep cap s' (bs ++ bytes).
Proof.
  intros H Hc Hn Hne. pose proof (rep_bound _ _ _ H) as [Hb Hl].
  pose proof (push_bytes_spec _ Hc s bs bytes H Hn) as Hs.
  replace (Z.of_nat (length bs + length bytes)) with (len s + Z.of_nat (length bytes)) by lia.
  destruct bytes; [done|]. cbn [length] in *.
  destruct (Z.ltb_spec cap (len s + Z.of_nat (S (length bytes)))); [done|].
  by rewrite (proj2 (Z.eqb_neq (len s) cap)) in Hs by lia.
Qed.

Lemma from_path_and_file_ok path file pb fb :
  inv Path path pb → inv FileName file fb →
  if PATH_LENGTH <? Z.of_nat (length (directory pb) + length fb)
  then from_path_and_file path file = Return (Err ExceedsMaximumLength)
  else ∃ fp, from_path_and_file path file = Return (Ok fp) ∧ inv FilePath fp (directory pb ++ fb).
Proof.
  intros [Hp Hpv] [Hf Hfv]. pose proof lengths_ok as Hlen. cbn [Path FileName CAPACITY] in Hp, Hf.
  assert (Hc : 0 < PATH_LENGTH < ISIZE_MAX) by lia.
  pose proof (rep_bound _ _ _ Hp) as [Hpb Hpl]. pose proof (rep_bound _ _ _ Hf) as [Hfb Hfl].
  unfold from_path_and_file. rewrite (as_bytes_rep _ _ _ Hp). cbn [obind].
  pose proof (new_unchecked_spec _ Hc pb) as Hn. revert Hn. zbool. intros (s0 & -> & H0). cbn [obind].
  destruct (needs_separator_ok _ _ _ Hp (proj2 Hc)) as (sep & -> & Hd). cbn [obind].
  assert (Hsep : (if sep then Bytes.push PATH_LENGTH s0 PATH_SEPARATOR else Return (Ok tt, s0)) =
      Return (Err InsertWouldExceedCapacity, s0) ∧ PATH_LENGTH < Z.of_nat (length (directory pb)) ∨
    ∃ s1, (if sep then Bytes.push PATH_LENGTH s0 PATH_SEPARATOR else Return (Ok tt, s0)) =
      Return (Ok tt, s1) ∧ rep PATH_LENGTH s1 (directory pb)).
  { rewrite Hd. destruct sep; [|right; by exists s0].
    pose proof (append_ok _ s0 pb [PATH_SEPARATOR] H0 Hc) as Ha. cbn [length] in Ha.
    unfold ISIZE_MAX in *. specialize (Ha ltac:(lia) ltac:(done)). rewrite length_app. cbn [length].
    destruct (Z.ltb_spec PATH_LENGTH (Z.of_nat (length pb + 1))); [left; split; [done|lia]|by right]. }
  destruct Hsep as [[-> Hx]|(s1 & -> & H1)]; cbn [obind].
  { by rewrite (proj2 (Z.ltb_lt _ _)) by lia. }
  rewrite (as_bytes_rep _ _ _ Hf). cbn [obind].
  assert (Hne : fb ≠ []) by (intros ->; by destruct Hfv).
  pose proof (append_ok _ s1 (directory pb) fb H1 Hc ltac:(lia) Hne) as Ha.
  destruct (PATH_LENGTH <? _); [by rewrite Ha|]. destruct Ha as (fp & -> & Hr). exists fp. split; [done|].
  split; [done|]. by apply join_valid.
Qed.

Lemma path_push_ok s bs bytes :
  inv Path s bs → existsb path_invalid_character bytes = false → bytes ≠ [] →
  Z.of_nat (length bytes) ≤ ISIZE_MAX →
  if PATH_LENGTH <? Z.of_nat (length bs + length bytes)
  then Semantic.push_bytes Path s bytes = Return (Err ExceedsMaximumLength, s)
  else ∃ s', Semantic.push_bytes Path s bytes = Return (Ok tt, s') ∧ inv Path s' (bs ++ bytes).
Proof.
  intros [H [_ Hv]] Hc Hne Hn. pose proof (rep_bound _ _ _ H) as [Hb Hl]. cbn in Hb.
  pose proof (Semantic.ss_insert_bytes_spec Path s bs bytes (len s) H ltac:(lia) Hn) as Hs.
  unfold Semantic.push_bytes. cbv zeta in Hs.
  cbn [Path does_contain_invalid_characters is_invalid_content CAPACITY] in Hs.
  rewrite Hc, Z.ltb_irrefl in Hs.
  replace (len s + Z.of_nat (length bytes)) with (Z.of_nat (length bs + length bytes)) in Hs by lia.
  destruct (Z.ltb_spec PATH_LENGTH (Z.of_nat (length bs + length bytes))); [done|].
  destruct bytes; [done|]. cbn [length] in *.
  rewrite (proj2 (Z.eqb_neq (len s) PATH_LENGTH)) in Hs by lia.
  destruct Hs as (s' & Hs & Hr). exists s'. split; [done|].
  rewrite Hl, Nat2Z.id, take_ge, drop_ge, app_nil_r in Hr by lia. split; [done|]. split; [done|].
  cbn [Path does_contain_invalid_characters] in *. by rewrite existsb_app, Hv, Hc.
Qed.

(** The separator is added first: it stays when the entry does not fit. *)
Lemma add_path_entry_ok path entry pb eb :
  inv Path path pb → inv FileName entry eb →
  if PATH_LENGTH <? Z.of_nat (length (directory pb))
    then add_path_entry path entry = Return (Err ExceedsMaximumLength, path)
  else if PATH_LENGTH <? Z.of_nat (length (directory pb) + length eb)
    then ∃ s, add_path_entry path entry = Return (Err ExceedsMaximumLength, s) ∧ inv Path s (directory pb)
  else ∃ s, add_path_entry path entry = Return (Ok tt, s) ∧ inv Path s (directory pb ++ eb).
Proof.
  intros Hp [He [Hec Hev]]. pose proof lengths_ok as Hlen.
  destruct (needs_separator_ok _ _ _ (proj1 Hp)) as (sep & Hns & Hd); [cbn; lia|].
  unfold add_path_entry. rewrite Hns. cbn [obind].
  assert (Hsep : (if sep then Semantic.push Path path PATH_SEPARATOR else Return (Ok tt, path)) =
      Return (Err ExceedsMaximumLength, path) ∧ PATH_LENGTH < Z.of_nat (length (directory pb)) ∨
    Z.of_nat (length (directory pb)) ≤ PATH_LENGTH ∧
    ∃ s1, (if sep then Semantic.push Path path PATH_SEPARATOR else Return (Ok tt, path)) =
      Return (Ok tt, s1) ∧ inv Path s1 (directory pb)).
  { rewrite Hd. destruct sep.
    - pose proof (path_push_ok path pb [PATH_SEPARATOR] Hp) as Ha. rewrite length_app. cbn [length] in *.
      assert (existsb path_invalid_character [PATH_SEPARATOR] = false) as Hc
        by (cbn; unfold path_invalid_character; by destruct separator_is as [-> | ->]).
      unfold ISIZE_MAX in *. specialize (Ha Hc ltac:(done) ltac:(lia)).
      destruct (Z.ltb_spec PATH_LENGTH (Z.of_nat (length pb + 1))); [left|right]; (split; [done|done]).
    - right. pose proof (rep_bound _ _ _ (proj1 Hp)) as [Hb Hl]. cbn in Hb. split; [lia|by exists path]. }
  destruct Hsep as [[-> Hx]|(Hx & s1 & -> & H1)]; cbn [obind].
  { by rewrite (proj2 (Z.ltb_lt _ _)) by lia. }
  rewrite (proj2 (Z.ltb_ge _ _)) by lia. rewrite (as_bytes_rep _ _ _ He). cbn [obind].
  pose proof (rep_bound _ _ _ He) as [Heb Hel]. cbn in Heb.
  pose proof (path_push_ok s1 (directory pb) eb H1 (file_name_characters_in_path _ Hev)) as Ha.
  specialize (Ha ltac:(by intros ->) ltac:(lia)).
  destruct (PATH_LENGTH <? _); [rewrite Ha; by exists s1|].
  destruct Ha as (s2 & -> & H2). by exists s2.
Qed.
End Lemmas.

(** ** Theorems *)

Section Theorems.
Context `{P : Profile} {Env : Settings} `{!SettingsLaws Env}.

(** Joining a path and a file name gives a valid file path unless it gets too long,
    and splitting it gives back the directory and the name. *)
Theorem file_path_round_trip path file pb fb :
  inv Path path pb → inv FileName file fb →
  if PATH_LENGTH <? Z.of_nat (length (directory pb) + length fb)
  then from_path_and_file path file = Return (Err ExceedsMaximumLength)
  else ∃ fp, from_path_and_file path file = Return (Ok fp) ∧ inv FilePath fp (directory pb ++ fb) ∧
    file_name fp = Return fb ∧ path_of fp = Return (directory pb).
Proof.
  intros Hp Hf. pose proof (from_path_and_file_ok path file pb fb Hp Hf) as Hj.
  destruct (PATH_LENGTH <? _); [done|]. destruct Hj as (fp & Hj & Hi). exists fp.
  split; [done|]. split; [done|]. pose proof lengths_ok.
  apply (split_ok PATH_LENGTH); [apply Hi|lia|]. apply separator_not_in_file_name, Hf.
Qed.

(** A failing [add_path_entry] is not atomic: when the separator still fits but the
    entry does not, the path keeps the separator. *)
Theorem add_path_entry_error_changes_path path entry pb eb :
  inv Path path pb → inv FileName entry eb →
  directory pb ≠ pb → Z.of_nat (length (directory pb)) ≤ PATH_LENGTH →
  PATH_LENGTH < Z.of_nat (length (directory pb) + length eb) →
  ∃ s, add_path_entry path entry = Return (Err ExceedsMaximumLength, s) ∧
    as_bytes s = Return (pb ++ [PATH_SEPARATOR]).
Proof.
  intros Hp He Hd H1 H2. pose proof (add_path_entry_ok path entry pb eb Hp He) as Hs. revert Hs. zbool.
  intros (s & Hs & Hi). exists s. split; [done|]. rewrite (as_bytes_rep _ _ _ (proj1 Hi)).
  f_equal. unfold directory in *. destruct (last pb) eqn:E; [by case_bool|].
  by apply last_None in E as ->.
Qed.

(** An illegal file path of maximal length is not refused with an error: the
    attempt to take back the last bytes panics. *)
Theorem longest_illegal_path_panics value :
  Z.of_nat (length value) = PATH_LENGTH → last value = Some PATH_SEPARATOR →
  existsb path_invalid_character value = false →
  Semantic.new FilePath value = Panic.
Proof.
  intros Hl Hlast Hc. pose proof lengths_ok as Hlen.
  pose proof (new_spec FilePath value) as Hs. unfold ISIZE_MAX in *. specialize (Hs ltac:(lia)).
  cbn [FilePath does_contain_invalid_characters is_invalid_content CAPACITY] in Hs.
  rewrite Hc, Hl, Z.ltb_irrefl, Z.eqb_refl in Hs.
  replace (file_path_invalid_content value) with true in Hs; [done|].
  unfold file_path_invalid_content. rewrite (bool_decide_eq_true_2 _ Hlast). by destruct (dots value).
Qed.
End Theorems.

(** ** Witnesses *)

#[local] Existing Instance settings_unix.

Lemma file_path_round_trip_witness :
  ∃ path file fp,
    @Semantic.new true Path (bytes_of_string "/tmp") = Return (Ok path) ∧
    @Semantic.new true FileName (bytes_of_string "a.txt") = Return (Ok file) ∧
    @from_path_and_file true settings_unix path file = Return (Ok fp) ∧
    @file_name true settings_unix fp = Return (bytes_of_string "a.txt") ∧
    @path_of true settings_unix fp = Return (bytes_of_string "/tmp/").
Proof.
  destruct (@new_spec true Path _ (bytes_of_string "/tmp")) as (path & Hp & Hip).
  { vm_compute. discriminate. }
  destruct (@new_spec true FileName _ (bytes_of_string "a.txt")) as (file & Hf & Hif).
  { vm_compute. discriminate. }
  destruct (@file_path_round_trip true settings_unix _ path file _ _ Hip Hif) as (fp & Hj & _ & H1 & H2).
  exists path, file, fp. exact (conj Hp (conj Hf (conj Hj (conj H1 H2)))).
Defined.

Lemma longest_illegal_path_panics_witness :
  @Semantic.new true FilePath (replicate 4095 97 ++ [47]) = Panic.
Proof.
  apply (@longest_illegal_path_panics true settings_unix _).
  - reflexivity.
  - apply last_snoc.
  - vm_compute. reflexivity.
Defined.

Lemma add_path_entry_error_changes_path_witness :
  ∃ path entry s, @add_path_entry true settings_unix path entry = Return (Err ExceedsMaximumLength, s) ∧
    as_bytes path = Return (replicate 4095 97) ∧ as_bytes s = Return (replicate 4095 97 ++ [47]).
Proof.
  destruct (@new_spec true Path _ (replicate 4095 97)) as (path & Hp & Hip).
  { vm_compute. discriminate. }
  destruct (@new_spec true FileName _ (bytes_of_string "a.txt")) as (file & Hf & Hif).
  { vm_compute. discriminate. }
  destruct (@add_path_entry_error_changes_path true settings_unix _ path file _ _ Hip Hif) as (s & Hs & Hb).
  - vm_compute. discriminate.
  - vm_compute. discriminate.
  - vm_compute. reflexivity.
  - exists path, file, s. split; [exact Hs|]. split; [|exact Hb]. eapply as_bytes_rep, Hip.
Defined.

(** A closure with a state: [retain] checks one result and applies another, and a
    file name becomes a dot. *)
Definition forget_after (limit : Z) : Z → Z → Z * bool := λ st b, (st + 1, (limit <=? st) && (b =? 97)).

Theorem stateful_retain_breaks_file_name :
  ∃ s s', @Semantic.new true FileName (bytes_of_string "aa.") = Return (Ok s) ∧
    @Semantic.retain true FileName Z s (forget_after 3) 0 = Return (Ok tt, s') ∧
    as_bytes s' = Return (bytes_of_string ".") ∧ dots (bytes_of_string ".") = true.
Proof. do 2 eexists. split; [vm_compute; reflexivity|]. split; [vm_compute; reflexivity|]. done. Qed.

(** Removing the extension, emptying the rest, a path in a name: the calls that
    would leave an illegal name are refused. *)
Lemma semantic_string_stays_valid_witness :
  ∃ s s' bs, @Semantic.new true FileName (bytes_of_string "a.txt") = Return (Ok s) ∧
    @calls true FileName
      [StripSuffix (bytes_of_string ".txt"); Pop; Insert 0 (bytes_of_string "../")] s = Return s' ∧
    as_bytes s' = Return bs ∧ valid FileName bs.
Proof.
  destruct (@semantic_string_stays_valid true FileName _ (bytes_of_string "a.txt")
    [StripSuffix (bytes_of_string ".txt"); Pop; Insert 0 (bytes_of_string "../")]) as (s & Hs & _ & Hv).
  - vm_compute. discriminate.
  - repeat constructor; vm_compute; discriminate.
  - assert (Hc : ∃ s', @calls true FileName
      [StripSuffix (bytes_of_string ".txt"); Pop; Insert 0 (bytes_of_string "../")] s = Return s').
    { clear - Hs. vm_compute in Hs. injection Hs as <-. eexists. vm_compute. reflexivity. }
    destruct Hc as (s' & Hc). destruct (Hv s' Hc) as (bs & Hb & Hvb).
    exists s, s', bs. exact (conj Hs (conj Hc (conj Hb Hvb))).
Defined.

Lemma semantic_string_errors_keep_content_witness :
  ∃ s s', @Semantic.new true FileName (bytes_of_string "a.txt") = Return (Ok s) ∧
    @call true FileName (Truncate 0) s = Return (Some InvalidName, s') ∧
    as_bytes s' = Return (bytes_of_string "a.txt").
Proof.
  destruct (@new_spec true FileName _ (bytes_of_string "a.txt")) as (s & Hs & Hi).
  { vm_compute. discriminate. }
  destruct (@semantic_string_errors_keep_content true FileName _ (Truncate 0) s _ Hi) as [He _].
  { vm_compute. discriminate. }
  assert (Hc : ∃ s', @call true FileName (Truncate 0) s = Return (Some InvalidName, s')).
  { clear - Hs. vm_compute in Hs. injection Hs as <-. eexists. vm_compute. reflexivity. }
  destruct Hc as (s' & Hc). exists s, s'. exact (conj Hs (conj Hc (He _ _ Hc))).
Defined.

(** ** ipv4_address.rs *)

Module Ipv4.
(** [Ipv4Address] is a [u32]; a left shift drops the bits that leave it. *)
Definition shl32 (x n : Z) : Z := wrap U32 (Z.shiftl x n).
Definition as_u8 (x : Z) : Z := wrap U8 x.

Definition new (a b c d : Z) : Z :=
  Z.lor (Z.lor (Z.lor (shl32 a 24) (shl32 b 16)) (shl32 c 8)) d.

Definition octets (x : Z) : list Z :=
  [as_u8 (Z.shiftr x 24);
   as_u8 (Z.shiftr (shl32 x 8) 24);
   as_u8 (Z.shiftr (shl32 x 16) 24);
   as_u8 (Z.shiftr (shl32 x 24) 24)].

Definition compare (x : Z) (v0 v1 v2 v3 netmask : Z) : bool :=
  let rhs := new v0 v1 v2 v3 in
  let shift := 32 - netmask in
  Z.shiftr x shift =? Z.shiftr rhs shift.

Definition BROADCAST : Z := new 255 255 255 255.

Definition is_unspecified (x : Z) : bool := compare x 0 0 0 0 32.
Definition is_loopback (x : Z) : bool := compare x 127 0 0 0 8.
Definition is_private (x : Z) : bool :=
  compare x 10 0 0 0 8 || compare x 192 168 0 0 16 || compare x 172 16 0 0 12.
Definition is_link_local (x : Z) : bool := compare x 169 254 0 0 16.
Definition is_shared (x : Z) : bool := compare x 100 64 0 0 10.
Definition is_benchmarking (x : Z) : bool := compare x 198 18 0 0 15.
Definition is_broadcast (x : Z) : bool :=
  match octets BROADCAST with
  | [a; b; c; d] => compare x a b c d 32
  | _ => false
  end.
Definition is_reserved (x : Z) : bool := compare x 240 0 0 0 4 && negb (is_broadcast x).
Definition is_multicast (x : Z) : bool := compare x 224 0 0 0 4.
Definition is_documentation (x : Z) : bool :=
  compare x 192 0 2 0 24 || compare x 198 51 100 0 24 || compare x 203 0 113 0 24.
Definition is_global (x : Z) : bool :=
  negb (is_unspecified x) && negb (is_private x) && negb (is_shared x) && negb (is_loopback x)
  && negb (is_link_local x) && negb (is_documentation x) && negb (is_benchmarking x)
  && negb (is_reserved x) && negb (is_broadcast x).

(** The address as a number in base 256. *)
Lemma new_value a b c d :
  0 ≤ a < 256 → 0 ≤ b < 256 → 0 ≤ c < 256 → 0 ≤ d < 256 →
  new a b c d = a * 2 ^ 24 + b * 2 ^ 16 + c * 2 ^ 8 + d.
Proof.
  intros Ha Hb Hc Hd. unfold new, shl32, wrap, U32. rewrite !Z.shiftl_mul_pow2 by lia.
  rewrite !Z.mod_small by lia.
  rewrite (lor_disjoint_pow a (b * 2 ^ 16) 24) by lia.
  replace (a * 2 ^ 24 + b * 2 ^ 16) with ((a * 2 ^ 8 + b) * 2 ^ 16) by lia.
  rewrite (lor_disjoint_pow _ (c * 2 ^ 8) 16) by lia.
  replace ((a * 2 ^ 8 + b) * 2 ^ 16 + c * 2 ^ 8) with ((a * 2 ^ 16 + b * 2 ^ 8 + c) * 2 ^ 8) by lia.
  rewrite (lor_disjoint_pow _ d 8) by lia. lia.
Qed.

Lemma octets_value x :
  0 ≤ x < U32 →
  octets x = [x / 2 ^ 24; x / 2 ^ 16 mod 256; x / 2 ^ 8 mod 256; x mod 256].
Proof.
  intros Hx. unfold octets, as_u8, shl32, wrap, U8, U32 in *.
  rewrite !Z.shiftr_div_pow2, !Z.shiftl_mul_pow2 by lia.
  f_equal; [|f_equal; [|f_equal; [|f_equal]]]; Z.to_euclidean_division_equations; lia.
Qed.

(** An address is its four octets. *)
Theorem ipv4_round_trip a b c d x :
  0 ≤ a < 256 → 0 ≤ b < 256 → 0 ≤ c < 256 → 0 ≤ d < 256 → 0 ≤ x < U32 →
  octets (new a b c d) = [a; b; c; d] ∧ 0 ≤ new a b c d < U32 ∧
  match octets x with [a; b; c; d] => new a b c d = x | _ => False end.
Proof.
  intros Ha Hb Hc Hd Hx. assert (Hn : 0 ≤ new a b c d < U32).
  { rewrite new_value by done. unfold U32. lia. }
  split; [|split; [done|]].
  - rewrite octets_value, new_value by done.
    f_equal; [|f_equal; [|f_equal; [|f_equal]]]; Z.to_euclidean_division_equations; lia.
  - rewrite octets_value by done. unfold U32 in *. rewrite new_value;
      Z.to_euclidean_division_equations; lia.
Qed.

(** The shifts of [compare] decide whether an address is in a block. *)
Lemma compare_block x v0 v1 v2 v3 base netmask :
  new v0 v1 v2 v3 = base → 0 ≤ netmask ≤ 32 → base mod 2 ^ (32 - netmask) = 0 →
  compare x v0 v1 v2 v3 netmask = true ↔ base ≤ x < base + 2 ^ (32 - netmask).
Proof.
  intros <- Hm Hb. unfold compare. rewrite !Z.shiftr_div_pow2 by lia. rewrite Z.eqb_eq.
  set (p := 2 ^ (32 - netmask)) in *. assert (0 < p) by (apply Z.pow_pos_nonneg; lia).
  pose proof (Z.div_mod (new v0 v1 v2 v3) p ltac:(lia)) as Hd.
  rewrite (Z.div_mod x p) at 2 3 by lia. pose proof (Z.mod_pos_bound x p ltac:(lia)).
  set (q := new v0 v1 v2 v3 / p) in *. rewrite Hd, Hb. split; [intros ->; lia|]. intros. nia.
Qed.

(** The special addresses are the blocks of RFC 6890. *)
Theorem ipv4_classes x :
  0 ≤ x < U32 →
  (is_unspecified x = true ↔ x = 0) ∧
  (is_loopback x = true ↔ 0x7f000000 ≤ x ≤ 0x7fffffff) ∧
  (is_private x = true ↔ 0x0a000000 ≤ x ≤ 0x0affffff ∨ 0xac100000 ≤ x ≤ 0xac1fffff ∨
                         0xc0a80000 ≤ x ≤ 0xc0a8ffff) ∧
  (is_link_local x = true ↔ 0xa9fe0000 ≤ x ≤ 0xa9feffff) ∧
  (is_shared x = true ↔ 0x64400000 ≤ x ≤ 0x647fffff) ∧
  (is_benchmarking x = true ↔ 0xc6120000 ≤ x ≤ 0xc613ffff) ∧
  (is_documentation x = true ↔ 0xc0000200 ≤ x ≤ 0xc00002ff ∨ 0xc6336400 ≤ x ≤ 0xc63364ff ∨
                               0xcb007100 ≤ x ≤ 0xcb0071ff) ∧
  (is_multicast x = true ↔ 0xe0000000 ≤ x ≤ 0xefffffff) ∧
  (is_reserved x = true ↔ 0xf0000000 ≤ x < 0xffffffff) ∧
  (is_broadcast x = true ↔ x = 0xffffffff).
Proof.
  intros Hx. unfold is_unspecified, is_loopback, is_private, is_link_local, is_shared, is_benchmarking,
    is_documentation, is_multicast, is_reserved.
  assert (Hbc : is_broadcast x = true ↔ x = 0xffffffff).
  { change (is_broadcast x) with (compare x 255 255 255 255 32).
    rewrite (compare_block x 255 255 255 255 0xffffffff 32) by (done || lia). lia. }
  rewrite !orb_true_iff, andb_true_iff, negb_true_iff, <- not_true_iff_false, Hbc.
  repeat match goal with |- context [compare x ?a ?b ?c ?d ?m = true] =>
    rewrite (compare_block x a b c d (new a b c d) m) by (done || lia);
    let v := eval vm_compute in (new a b c d) in change (new a b c d) with v end.
  unfold U32 in *. split_and!; lia.
Qed.

Lemma ipv4_round_trip_witness :
  octets (new 192 168 0 1) = [192; 168; 0; 1] ∧
  match octets 0x7f000001 with [a; b; c; d] => new a b c d = 0x7f000001 | _ => False end.
Proof.
  destruct (ipv4_round_trip 192 168 0 1 0x7f000001) as (H1 & _ & H2); [lia..|unfold U32; lia|].
  exact (conj H1 H2).
Defined.

Lemma ipv4_classes_witness : is_private (new 172 31 255 255) = true ∧ is_private (new 172 32 0 0) ≠ true.
Proof.
  destruct (ipv4_classes (new 172 31 255 255)) as (_ & _ & H1 & _).
  { rewrite new_value; unfold U32; lia. }
  destruct (ipv4_classes (new 172 32 0 0)) as (_ & _ & H2 & _).
  { rewrite new_value; unfold U32; lia. }
  rewrite new_value in H1, H2 by lia. rewrite !new_value by lia. split; [apply H1; lia|]. rewrite H2. lia.
Defined.
End Ipv4.
