(* ===== verification/NamedConcept.v ===== *)
(** * elkodon_cal: named_concept.rs

    Every concept that is shared between processes has a name; its resource is the
    file [path hint / name suffix]. [path_for] builds this path, the functions
    [extract_name_from_path] and [extract_name_from_file] take it apart again. *)

From S2P Require Import Prelude ByteString SemanticString SystemTypes.
From stdpp Require Import strings.
Open Scope Z_scope.

Import Bytes Semantic.

Module Naming.
(** A configuration holds a [FileName] and a [Path]. *)
Record Configuration := mkConfiguration {
  suffix : FixedSizeByteString;
  path_hint : FixedSizeByteString
}.

Inductive NamedConceptDoesExistError :=
| DoesExistInsufficientPermissions
| UnderlyingResourcesBeingSetUp
| UnderlyingResourcesCorrupted
| DoesExistInternalError.

Inductive NamedConceptRemoveError := RemoveInsufficientPermissions | RemoveInternalError.
Inductive NamedConceptListError := ListInsufficientPermissions | ListInternalError.

Section Naming.
Context `{P : Profile} {Env : Settings}.
Implicit Types (cfg : Configuration) (name file fp : FixedSizeByteString).

Definition path_for cfg name : outcome FixedSizeByteString :=
  let! '(r, path) := add_path_entry (path_hint cfg) name in
  match r with
  | Err _ => Panic
  | Ok _ =>
      let! suffix_bytes := as_bytes (suffix cfg) in
      let! '(r, path) := Semantic.push_bytes Path path suffix_bytes in
      match r with
      | Err _ => Panic
      | Ok _ => let! bytes := as_bytes path in new_unchecked FilePath bytes
      end
  end.

Definition extract_name_from_file cfg file : outcome (option FixedSizeByteString) :=
  let! suffix_bytes := as_bytes (suffix cfg) in
  let! '(r, file) := Semantic.strip_suffix FileName file suffix_bytes in
  match r with
  | Err _ => Panic
  | Ok false => Return None
  | Ok true => Return (Some file)
  end.

Definition extract_name_from_path cfg fp : outcome (option FixedSizeByteString) :=
  let! path := path_of fp in
  let! same := slice_eq (path_hint cfg) path in
  if negb same then Return None
  else
    let! name := file_name fp in
    let! file := new_unchecked FileName name in
    extract_name_from_file cfg file.

(** The names of the shared memory objects: the file part of the path. *)
Definition full_name cfg name : outcome FixedSizeByteString :=
  let! fp := path_for cfg name in
  let! bytes := file_name fp in
  new_unchecked FileName bytes.
End Naming.

(** ** Lemmas *)

(** A configuration made of a valid suffix and a valid path. *)
Definition config_ok {Env : Settings} (cfg : Configuration) (sb hb : list Z) : Prop :=
  inv FileName (suffix cfg) sb ∧ inv Path (path_hint cfg) hb.

Section Lemmas.
Context `{P : Profile} {Env : Settings} `{!SettingsLaws Env}.
Implicit Types (cfg : Configuration) (name file fp : FixedSizeByteString) (nb sb hb fb : list Z).

(** A name with a suffix is a file name again. *)
Lemma name_with_suffix_valid nb sb :
  valid FileName nb → valid FileName sb → valid FileName (nb ++ sb).
Proof.
  intros [Hn Hnc] [Hs Hsc]. cbn in *. split; cbn; [|by rewrite existsb_app, Hnc, Hsc].
  apply not_true_iff_false. rewrite dots_true. intros [H|[H|H]].
  - apply app_nil in H as [-> _]. done.
  - destruct nb as [|c [|]]; try done. destruct sb; [done|]. by injection H.
  - destruct nb as [|c [|c' [|]]]; try done.
    + injection H as -> H. done.
    + destruct sb; [done|]. by injection H.
Qed.

Lemma path_for_ok cfg name sb hb nb :
  config_ok cfg sb hb → inv FileName name nb →
  Z.of_nat (length (directory hb) + length nb + length sb) ≤ PATH_LENGTH →
  ∃ fp, path_for cfg name = Return fp ∧ inv FilePath fp (directory hb ++ nb ++ sb).
Proof.
  intros [Hs Hh] Hn Hl. pose proof lengths_ok as Hlen. unfold path_for.
  pose proof (add_path_entry_ok (path_hint cfg) name hb nb Hh Hn) as Ha. revert Ha. zbool.
  intros (p1 & -> & H1). cbn [obind]. rewrite (as_bytes_rep _ _ _ (proj1 Hs)). cbn [obind].
  destruct Hs as [Hsr [Hsc Hsv]]. destruct Hn as [Hnr Hnv]. cbn in Hsv.
  pose proof (rep_bound _ _ _ Hsr) as [Hsb Hsl]. cbn in Hsb.
  pose proof (path_push_ok p1 (directory hb ++ nb) sb H1 (file_name_characters_in_path _ Hsv)
                ltac:(by intros ->) ltac:(lia)) as Hp.
  rewrite length_app in Hp. revert Hp. zbool. intros (p2 & -> & H2). cbn [obind].
  rewrite (as_bytes_rep _ _ _ (proj1 H2)). cbn [obind].
  rewrite <- (assoc_L (++)). apply new_unchecked_inv.
  - apply _.
  - rewrite !length_app. cbn. lia.
  - apply join_valid; [apply Hh|]. by apply name_with_suffix_valid.
Qed.

Lemma path_for_panic cfg name sb hb nb :
  config_ok cfg sb hb → inv FileName name nb →
  PATH_LENGTH < Z.of_nat (length (directory hb) + length nb + length sb) →
  path_for cfg name = Panic.
Proof.
  intros [Hs Hh] Hn Hl. pose proof lengths_ok as Hlen. unfold path_for.
  pose proof (add_path_entry_ok (path_hint cfg) name hb nb Hh Hn) as Ha.
  destruct (PATH_LENGTH <? _); [by rewrite Ha|].
  destruct (PATH_LENGTH <? _); [destruct Ha as (? & -> & _); done|].
  destruct Ha as (p1 & -> & H1). cbn [obind]. rewrite (as_bytes_rep _ _ _ (proj1 Hs)). cbn [obind].
  destruct Hs as [Hsr [Hsc Hsv]]. cbn in Hsv. pose proof (rep_bound _ _ _ Hsr) as [Hsb Hsl]. cbn in Hsb.
  pose proof (path_push_ok p1 (directory hb ++ nb) sb H1 (file_name_characters_in_path _ Hsv)
                ltac:(by intros ->) ltac:(lia)) as Hp.
  rewrite length_app in Hp. revert Hp. zbool. by intros ->.
Qed.

(** What is extracted from a file name, on every branch. *)
Lemma extract_name_from_file_ok cfg file sb hb fb :
  config_ok cfg sb hb → inv FileName file fb →
  if decide (sb `suffix_of` fb) then
    if (Z.of_nat (length fb) =? FILENAME_LENGTH) || dots (take (length fb - length sb) fb)
    then ¬ safe (extract_name_from_file cfg file)
    else ∃ name, extract_name_from_file cfg file = Return (Some name) ∧
      inv FileName name (take (length fb - length sb) fb)
  else extract_name_from_file cfg file = Return None.
Proof.
  intros [Hs _] Hf. unfold extract_name_from_file. rewrite (as_bytes_rep _ _ _ (proj1 Hs)). cbn [obind].
  pose proof (ss_strip_suffix_spec FileName file fb sb Hf) as Hss. cbv zeta in Hss.
  cbn [FileName CAPACITY is_invalid_content] in Hss.
  pose proof (rep_bound _ _ _ (proj1 Hf)) as [_ Hl]. rewrite Hl in Hss.
  destruct (decide _); [|by rewrite Hss]. destruct (_ =? FILENAME_LENGTH); cbn [orb].
  { rewrite Hss. by intros [? ?]. }
  destruct (dots _).
  - destruct (_ <=? _); [rewrite Hss; by intros [? ?]|].
    intros [r Hr]. apply Hss. inv_outcome. by eexists.
  - destruct Hss as (s' & -> & Hi). by exists s'.
Qed.

Lemma full_name_ok cfg name sb hb nb :
  config_ok cfg sb hb → inv FileName name nb →
  Z.of_nat (length (directory hb) + length nb + length sb) ≤ PATH_LENGTH →
  Z.of_nat (length nb + length sb) ≤ FILENAME_LENGTH →
  ∃ fp file, path_for cfg name = Return fp ∧ inv FilePath fp (directory hb ++ nb ++ sb) ∧
    file_name fp = Return (nb ++ sb) ∧ path_of fp = Return (directory hb) ∧
    new_unchecked FileName (nb ++ sb) = Return file ∧
    full_name cfg name = Return file ∧ inv FileName file (nb ++ sb).
Proof.
  intros Hc Hn Hl Hf. pose proof lengths_ok as Hlen.
  destruct (path_for_ok cfg name sb hb nb Hc Hn Hl) as (fp & Hp & Hfp).
  assert (Hv : valid FileName (nb ++ sb)) by (apply name_with_suffix_valid; [apply Hn|apply Hc]).
  destruct (split_ok PATH_LENGTH fp hb (nb ++ sb)) as [Hfn Hpo]; [apply Hfp|lia| |].
  { apply separator_not_in_file_name, Hv. }
  destruct (new_unchecked_inv FileName (nb ++ sb)) as (file & Hfile & Hi); [rewrite length_app; cbn; lia|done|].
  exists fp, file. unfold full_name. rewrite Hp. cbn [obind]. rewrite Hfn. cbn [obind]. done.
Qed.

Lemma suffix_comparable (a b l : list Z) : a `suffix_of` l → b `suffix_of` l →
  a `suffix_of` b ∨ b `suffix_of` a.
Proof.
  intros [k ->] [k' He]. apply app_eq_inv in He as [(m & _ & ->)|(m & _ & ->)]; [left|right]; by exists m.
Qed.
End Lemmas.

(** ** Suffixes *)

Definition DEFAULT_SUFFIX_event := bytes_of_string ".event".
Definition DEFAULT_SUFFIX_dynamic_storage := bytes_of_string ".dynamic_storage".
Definition DEFAULT_SUFFIX_static_storage := bytes_of_string ".static_storage".
Definition DEFAULT_SUFFIX_shared_memory := bytes_of_string ".shared_memory".
Definition DEFAULT_SUFFIX_communication_channel := bytes_of_string ".communication_channel".
Definition DEFAULT_SUFFIX_zero_copy_connection := bytes_of_string ".zero_copy_connection".

(** The suffixes the code uses: the defaults of the concepts, those of the two segments
    of a shared memory directory, and the defaults of the global configuration. *)
Definition suffixes_in_use : list (list Z) :=
  [DEFAULT_SUFFIX_event; DEFAULT_SUFFIX_dynamic_storage; DEFAULT_SUFFIX_static_storage;
   DEFAULT_SUFFIX_shared_memory; DEFAULT_SUFFIX_communication_channel;
   DEFAULT_SUFFIX_zero_copy_connection; bytes_of_string ".dir_mgmt"; bytes_of_string ".dir_data";
   bytes_of_string ".publisher_data"; bytes_of_string ".service"; bytes_of_string ".dynamic";
   bytes_of_string ".connection"].

(** None of them ends with another one. *)
Lemma suffixes_in_use_ok a b : a ∈ suffixes_in_use → b ∈ suffixes_in_use → a `suffix_of` b → a = b.
Proof.
  assert (forallb (λ x, forallb (λ y, bool_decide (x = y) || negb (bool_decide (x `suffix_of` y))) suffixes_in_use) suffixes_in_use = true)
    as H by (vm_compute; reflexivity).
  rewrite !list_elem_of_In. intros Ha Hb Hs. rewrite forallb_forall in H. specialize (H _ Ha).
  rewrite forallb_forall in H. specialize (H _ Hb). rewrite (bool_decide_eq_true_2 _ Hs), orb_false_r in H.
  by apply bool_decide_eq_true in H.
Qed.

Lemma ends_with_one_of l a b :
  a ∈ suffixes_in_use → b ∈ suffixes_in_use → a `suffix_of` l → b `suffix_of` l → a = b.
Proof.
  intros Ha Hb H1 H2. destruct (suffix_comparable a b l H1 H2); [|symmetry]; by apply suffixes_in_use_ok.
Qed.

(** *** What a path tells *)

Section Paths.
Context `{P : Profile} {Env : Settings} `{!SettingsLaws Env}.

Lemma split_unique d1 d2 (f1 f2 : list Z) :
  (d1 = [] ∨ ∃ l, d1 = l ++ [PATH_SEPARATOR]) → (d2 = [] ∨ ∃ l, d2 = l ++ [PATH_SEPARATOR]) →
  PATH_SEPARATOR ∉ f1 → PATH_SEPARATOR ∉ f2 → d1 ++ f1 = d2 ++ f2 → d1 = d2 ∧ f1 = f2.
Proof.
  assert (∀ d k f : list Z, (d ++ k = [] ∨ ∃ l, d ++ k = l ++ [PATH_SEPARATOR]) → PATH_SEPARATOR ∉ k ++ f → k = []) as Hk.
  { intros d k f Hd Hn. destruct k as [|x k _] using rev_ind; [done|]. exfalso. rewrite app_assoc in Hd.
    destruct Hd as [Hd|[l Hl]]; [by apply app_nil in Hd as [_ ?]|]. apply app_inj_tail in Hl as [_ ->]. apply Hn. set_solver. }
  intros H1 H2 Hn1 Hn2 He. apply app_eq_inv in He as [(k & -> & ->)|(k & -> & ->)].
  - assert (k = []) as -> by (by eapply Hk). by rewrite app_nil_r.
  - assert (k = []) as -> by (by eapply Hk). by rewrite app_nil_r.
Qed.

Lemma path_for_bytes cfg name sb hb nb fp :
  config_ok cfg sb hb → inv FileName name nb → path_for cfg name = Return fp →
  Z.of_nat (length (directory hb) + length nb + length sb) ≤ PATH_LENGTH ∧
  as_bytes fp = Return (directory hb ++ nb ++ sb) ∧ PATH_SEPARATOR ∉ nb ++ sb.
Proof.
  intros Hc Hn Hp. destruct (decide (Z.of_nat (length (directory hb) + length nb + length sb) ≤ PATH_LENGTH)).
  - destruct (path_for_ok cfg name sb hb nb Hc Hn) as (fp' & Hp' & Hi); [done|].
    rewrite Hp' in Hp. injection Hp as ->. split; [done|]. split; [eapply as_bytes_rep, Hi|].
    apply separator_not_in_file_name. apply (name_with_suffix_valid nb sb); [apply Hn|apply Hc].
  - rewrite (path_for_panic cfg name sb hb nb) in Hp by (done || lia). done.
Qed.
End Paths.

(** ** Theorems *)

Section Theorems.
Context `{P : Profile} {Env : Settings} `{!SettingsLaws Env}.
Implicit Types (cfg : Configuration) (name file fp : FixedSizeByteString) (nb sb hb fb : list Z).

(** C17. The resource of a name is found again under this name: its path is a valid file
    path, the name is extracted from its file name, and from the path when the path
    hint is empty or ends with a separator; with any other path hint nothing is
    extracted from the path, although the name is in it. *)
Theorem naming_round_trip cfg name sb hb nb :
  config_ok cfg sb hb → inv FileName name nb →
  Z.of_nat (length (directory hb) + length nb + length sb) ≤ PATH_LENGTH →
  Z.of_nat (length nb + length sb) < FILENAME_LENGTH →
  ∃ fp file, path_for cfg name = Return fp ∧ inv FilePath fp (directory hb ++ nb ++ sb) ∧
    full_name cfg name = Return file ∧ inv FileName file (nb ++ sb) ∧
    (∃ name', extract_name_from_file cfg file = Return (Some name') ∧ inv FileName name' nb) ∧
    (if decide (directory hb = hb)
     then ∃ name', extract_name_from_path cfg fp = Return (Some name') ∧ inv FileName name' nb
     else extract_name_from_path cfg fp = Return None).
Proof.
  intros Hc Hn Hl Hf.
  destruct (full_name_ok cfg name sb hb nb Hc Hn Hl ltac:(lia))
    as (fp & file & Hp & Hfp & Hfn & Hpo & Hnu & Hfull & Hfile).
  exists fp, file. do 4 (split; [done|]).
  pose proof (extract_name_from_file_ok cfg file sb hb (nb ++ sb) Hc Hfile) as He.
  rewrite decide_True, length_app in He by (by exists nb).
  replace (length nb + length sb - length sb)%nat with (length nb) in He by lia.
  rewrite take_app_length in He. destruct Hn as [Hnr [Hnc Hnv]]. cbn in Hnc. rewrite Hnc in He.
  revert He. zbool. intros He. split; [done|].
  unfold extract_name_from_path. rewrite Hpo. cbn [obind]. unfold slice_eq.
  rewrite (as_bytes_rep _ _ _ (proj1 (proj2 Hc))). cbn [obind].
  destruct (decide _) as [Hd|Hd].
  - rewrite (bool_decide_eq_true_2 _ (eq_sym Hd)). cbn [negb]. rewrite Hfn. cbn [obind].
    rewrite Hnu. done.
  - by rewrite bool_decide_eq_false_2 by (intros Hx; by destruct Hd).
Qed.

(** C30. With two of the suffixes the code uses, in any directories, two resources have the
    same path only if they are the same: then the directories, the names and the suffixes
    are equal. Where only the file part of the path identifies a resource, as with shared
    memory, two different suffixes keep them apart, and listing one concept does not show
    the resources of the other. *)
Theorem concepts_do_not_collide cfg1 cfg2 sb1 sb2 hb1 hb2 name1 name2 nb1 nb2 fp1 fp2 :
  sb1 ∈ suffixes_in_use → sb2 ∈ suffixes_in_use →
  config_ok cfg1 sb1 hb1 → config_ok cfg2 sb2 hb2 →
  inv FileName name1 nb1 → inv FileName name2 nb2 →
  Z.of_nat (length nb1 + length sb1) ≤ FILENAME_LENGTH → Z.of_nat (length nb2 + length sb2) ≤ FILENAME_LENGTH →
  path_for cfg1 name1 = Return fp1 → path_for cfg2 name2 = Return fp2 →
  (as_bytes fp1 = as_bytes fp2 → directory hb1 = directory hb2 ∧ nb1 = nb2 ∧ sb1 = sb2) ∧
  ∃ file1 file2, full_name cfg1 name1 = Return file1 ∧ full_name cfg2 name2 = Return file2 ∧
    (as_bytes file1 = as_bytes file2 → nb1 = nb2 ∧ sb1 = sb2) ∧
    (sb1 ≠ sb2 → extract_name_from_file cfg2 file1 = Return None).
Proof.
  intros Hs1 Hs2 Hc1 Hc2 Hn1 Hn2 Hf1 Hf2 Hp1 Hp2.
  destruct (path_for_bytes _ _ _ _ _ _ Hc1 Hn1 Hp1) as (Hl1 & Hb1 & Hsep1).
  destruct (path_for_bytes _ _ _ _ _ _ Hc2 Hn2 Hp2) as (Hl2 & Hb2 & Hsep2).
  assert (nb1 ++ sb1 = nb2 ++ sb2 → nb1 = nb2 ∧ sb1 = sb2) as Hsame.
  { intros He. assert (sb1 = sb2) as -> by (apply (ends_with_one_of (nb1 ++ sb1)); [done..|by exists nb1|by exists nb2]).
    by simplify_list_eq. }
  destruct (full_name_ok cfg1 name1 sb1 hb1 nb1 Hc1 Hn1 Hl1 Hf1) as (_ & file1 & _ & _ & _ & _ & _ & Hfull1 & Hfile1).
  destruct (full_name_ok cfg2 name2 sb2 hb2 nb2 Hc2 Hn2 Hl2 Hf2) as (_ & file2 & _ & _ & _ & _ & _ & Hfull2 & Hfile2).
  split.
  - rewrite Hb1, Hb2. intros [= He]. apply split_unique in He as [Hd He]; [|apply directory_ends..|done|done]. split; [done|]. by apply Hsame.
  - exists file1, file2. split; [done|]. split; [done|].
    rewrite (as_bytes_rep _ _ _ (proj1 Hfile1)), (as_bytes_rep _ _ _ (proj1 Hfile2)). split; [intros [= He]; by apply Hsame|].
    intros Hne. pose proof (extract_name_from_file_ok cfg2 file1 sb2 hb2 _ Hc2 Hfile1) as He.
    rewrite decide_False in He; [done|]. intros Hs. apply Hne, (ends_with_one_of (nb1 ++ sb1)); [done..|by exists nb1|done].
Qed.

(** A file whose name is the suffix alone, or the suffix after one or two dots, or
    that ends with the suffix and has the maximal length, does not belong to any
    concept; looking at it stops the process. *)
Theorem foreign_file_panics cfg file sb hb fb :
  config_ok cfg sb hb → inv FileName file fb → sb `suffix_of` fb →
  fb = sb ∨ fb = [46] ++ sb ∨ fb = [46; 46] ++ sb ∨ Z.of_nat (length fb) = FILENAME_LENGTH →
  ¬ ∃ r, extract_name_from_file cfg file = Return r.
Proof.
  intros Hc Hf Hs Hx. pose proof (extract_name_from_file_ok cfg file sb hb fb Hc Hf) as He.
  rewrite decide_True in He by done.
  replace (_ || _) with true in He; [done|]. symmetry. apply orb_true_iff.
  rewrite Z.eqb_eq, dots_true. destruct Hx as [-> |[-> |[-> |Hx]]]; [right..|by left].
  - rewrite Nat.sub_diag. by left.
  - right. left. rewrite length_app. cbn. replace (S (length sb) - length sb)%nat with 1%nat by lia. done.
  - right. right. rewrite length_app. cbn. replace (S (S (length sb)) - length sb)%nat with 2%nat by lia. done.
Qed.
End Theorems.

(** ** Witnesses *)

#[local] Existing Instance settings_unix.

Lemma default_config_ok :
  ∃ cfg name, @Semantic.new true FileName (bytes_of_string "my_name") = Return (Ok name) ∧
    inv FileName name (bytes_of_string "my_name") ∧
    config_ok cfg DEFAULT_SUFFIX_static_storage (bytes_of_string "/tmp/").
Proof.
  destruct (@new_spec true FileName _ DEFAULT_SUFFIX_static_storage) as (s & _ & Hs).
  { vm_compute. discriminate. }
  destruct (@new_spec true Path _ (bytes_of_string "/tmp/")) as (p & _ & Hp).
  { vm_compute. discriminate. }
  destruct (@new_spec true FileName _ (bytes_of_string "my_name")) as (n & Hn & Hi).
  { vm_compute. discriminate. }
  exists (mkConfiguration s p), n. done.
Qed.

Lemma naming_round_trip_witness :
  ∃ cfg name fp name', @path_for true _ cfg name = Return fp ∧
    as_bytes fp = Return (bytes_of_string "/tmp/my_name.static_storage") ∧
    @extract_name_from_path true _ cfg fp = Return (Some name') ∧
    as_bytes name' = Return (bytes_of_string "my_name").
Proof.
  destruct default_config_ok as (cfg & name & _ & Hn & Hc).
  destruct (@naming_round_trip true _ _ cfg name _ _ _ Hc Hn) as (fp & file & Hp & Hfp & _ & _ & _ & Hx).
  - vm_compute. discriminate.
  - vm_compute. reflexivity.
  - rewrite decide_True in Hx by reflexivity. destruct Hx as (name' & Hx & Hi).
    exists cfg, name, fp, name'. split; [exact Hp|].
    split; [exact (as_bytes_rep _ _ _ (proj1 Hfp))|]. split; [exact Hx|].
    exact (as_bytes_rep _ _ _ (proj1 Hi)).
Defined.

Lemma foreign_file_panics_witness :
  ∃ cfg file, config_ok cfg DEFAULT_SUFFIX_static_storage (bytes_of_string "/tmp/") ∧
    inv FileName file DEFAULT_SUFFIX_static_storage ∧
    ¬ ∃ r, @extract_name_from_file true _ cfg file = Return r.
Proof.
  destruct default_config_ok as (cfg & _ & _ & _ & Hc).
  destruct (@new_spec true FileName _ DEFAULT_SUFFIX_static_storage) as (file & _ & Hf).
  { vm_compute. discriminate. }
  exists cfg, file. split; [exact Hc|]. split; [exact Hf|].
  apply (@foreign_file_panics true _ _ cfg file _ _ _ Hc Hf).
  - exists []. reflexivity.
  - left. reflexivity.
Defined.

Lemma concepts_do_not_collide_witness :
  ∃ cfg1 cfg2 name file,
    config_ok cfg1 DEFAULT_SUFFIX_static_storage (bytes_of_string "/tmp/") ∧
    config_ok cfg2 DEFAULT_SUFFIX_dynamic_storage (bytes_of_string "/tmp/") ∧
    @full_name true _ cfg1 name = Return file ∧ @extract_name_from_file true _ cfg2 file = Return None.
Proof.
  destruct default_config_ok as (cfg & name & _ & Hn & Hc).
  destruct (@new_spec true FileName _ DEFAULT_SUFFIX_dynamic_storage) as (s2 & _ & Hs2).
  { vm_compute. discriminate. }
  set (cfg2 := mkConfiguration s2 (path_hint cfg)).
  assert (Hc2 : config_ok cfg2 DEFAULT_SUFFIX_dynamic_storage (bytes_of_string "/tmp/")).
  { split; [exact Hs2|exact (proj2 Hc)]. }
  destruct (@path_for_ok true _ _ cfg name _ _ _ Hc Hn) as (fp1 & Hp1 & _).
  { vm_compute. discriminate. }
  destruct (@path_for_ok true _ _ cfg2 name _ _ _ Hc2 Hn) as (fp2 & Hp2 & _).
  { vm_compute. discriminate. }
  destruct (@concepts_do_not_collide true _ _ cfg cfg2 DEFAULT_SUFFIX_static_storage DEFAULT_SUFFIX_dynamic_storage
    (bytes_of_string "/tmp/") (bytes_of_string "/tmp/") name name (bytes_of_string "my_name") (bytes_of_string "my_name") fp1 fp2) as (_ & file & _ & Hf & _ & _ & He);
    [unfold suffixes_in_use; set_solver|unfold suffixes_in_use; set_solver|exact Hc|exact Hc2|exact Hn|exact Hn|vm_compute; discriminate|
     vm_compute; discriminate|exact Hp1|exact Hp2|].
  exists cfg, cfg2, name, file. split; [exact Hc|]. split; [exact Hc2|]. split; [exact Hf|]. apply He. vm_compute. discriminate.
Defined.
End Naming.
