(* ===== verification/PortIds.v ===== *)
(** * Ids of the ports and names made of them

    - elkodon_bb/posix/src/unique_system_id.rs: an id out of the process id and the
      time ([Module UniqueSystemId]); every access of [new] to the shared counter, the
      clock is read from the outside;
    - elkodon/src/service/mod.rs: [connection_name] and [event_concept_name], the
      names of the resources that two ports share.

    The ids of elkodon/src/port/port_identifiers.rs are such ids. *)

From S2P Require Import Prelude ByteString SemanticString SystemTypes.
From Stdlib Require Import Sorted.

Import Bytes(FixedSizeByteString).

Definition U128 : Z := 2 ^ 128.

Module UniqueSystemId.

Record Time := mkTime { seconds : Z; nanoseconds : Z }.

(** The [u64] and [u32] of a time. *)
Definition time_ok (t : Time) : Prop := 0 ≤ seconds t < USIZE ∧ 0 ≤ nanoseconds t < U32.
Definition time_le (a b : Time) : Prop :=
  seconds a < seconds b ∨ (seconds a = seconds b ∧ nanoseconds a ≤ nanoseconds b).

Definition shl128 (x n : Z) : Z := wrap U128 (Z.shiftl x n).

(** The [value] of [new], [pid] and [creation_time]. *)
Definition value (pid : Z) (now : Time) : Z :=
  Z.lor (Z.lor (shl128 pid 96) (shl128 (seconds now) 32)) (nanoseconds now).
(** [as posix::pid_t]: 32 bits with a sign. *)
Definition as_pid_t (z : Z) : Z := (z + 2 ^ 31) mod U32 - 2 ^ 31.
Definition pid (v : Z) : Z := as_pid_t (Z.shiftr v 96).
Definition creation_time (v : Z) : Time :=
  mkTime (wrap USIZE (Z.shiftr (shl128 v 32) 64)) (wrap U32 (Z.shiftr (shl128 v 96) 96)).

(** A thread in [new]. *)
Inductive pc :=
| Idle
| Load
| Clock (previous_nanoseconds : Z)
| Cas (previous_nanoseconds : Z) (now : Time)
| Ret (r : result Z unit).

(** One access to [LAST_NANOSECONDS] or to the clock, which answers [now]. *)
Definition step (pid last : Z) (now : result Time unit) (t : pc) : Z * pc :=
  match t with
  | Idle | Ret _ => (last, t)
  | Load => (last, Clock last)
  | Clock previous_nanoseconds =>
      match now with
      | Err _ => (last, Ret (Err tt))
      | Ok now =>
          if nanoseconds now =? previous_nanoseconds then (last, Clock previous_nanoseconds)
          else (last, Cas previous_nanoseconds now)
      end
  | Cas previous_nanoseconds now =>
      let '(last, r) := compare_exchange last previous_nanoseconds (nanoseconds now) in
      (last, match r with Ok _ => Ret (Ok (value pid now)) | Err v => Clock v end)
  end.

(** [new] while no other thread of the process is in it: the answers of the clock in
    their order; what is left of them. *)
Fixpoint new_loop (pid last : Z) (clock : list Time) (t : pc) : option (result Z unit * Z * list Time) :=
  match t with
  | Ret r => Some (r, last, clock)
  | _ =>
      match clock with
      | [] => None
      | now :: clock =>
          let '(last, t) := step pid last (Ok now) t in
          match t with
          | Cas _ _ =>
              let '(last, t) := step pid last (Ok now) t in
              match t with Ret r => Some (r, last, clock) | _ => new_loop pid last clock t end
          | _ => new_loop pid last clock t
          end
      end
  end.
Definition new (pid last : Z) (clock : list Time) : option (result Z unit * Z * list Time) :=
  let '(last, t) := step pid last (Err tt) Load in new_loop pid last clock t.

(** The ids of [n] calls one after the other. *)
Fixpoint ids (n : nat) (pid last : Z) (clock : list Time) : list Z :=
  match n with
  | O => []
  | S n =>
      match new pid last clock with
      | Some (Ok id, last, clock) => id :: ids n pid last clock
      | _ => []
      end
  end.
End UniqueSystemId.

(** [to_string] of an unsigned integer: its decimal digits. *)
Fixpoint to_string_loop (fuel : nat) (n : Z) (acc : list Z) : list Z :=
  if n <? 10 then (48 + n) :: acc
  else match fuel with
       | O => acc
       | S fuel => to_string_loop fuel (n / 10) ((48 + n mod 10) :: acc)
       end.
Definition to_string (n : Z) : list Z := to_string_loop 40 n [].
(** [to_string] of a signed one, a process id. *)
Definition signed_to_string (n : Z) : list Z := if n <? 0 then 45 :: to_string (- n) else to_string n.

Section Names.
Context `{P : Profile} {Env : Settings}.

(** [unwrap] of a string operation. *)
Definition expect {A B E} (o : outcome (result A E * B)) : outcome B :=
  let! '(r, s) := o in match r with Ok _ => Return s | Err _ => Panic end.
Definition new_name (bytes : list Z) : outcome FixedSizeByteString :=
  let! r := Semantic.new FileName bytes in match r with Ok s => Return s | Err _ => Panic end.

(** Two printed numbers with [_] between them. *)
Definition joined (a b : list Z) : outcome FixedSizeByteString :=
  let! file := new_name a in
  let! file := expect (Semantic.push FileName file 95) in
  expect (Semantic.push_bytes FileName file b).

Definition connection_name (publisher_id subscriber_id : Z) : outcome FixedSizeByteString :=
  joined (to_string publisher_id) (to_string subscriber_id).
Definition event_concept_name (listener_id : Z) : outcome FixedSizeByteString :=
  joined (signed_to_string (UniqueSystemId.pid listener_id)) (to_string listener_id).
End Names.

(** ** Ids *)

Section Ids.
Import UniqueSystemId.
Implicit Types (now : Time).

Lemma value_eq p now :
  0 ≤ p < 2 ^ 31 → time_ok now → value p now = p * 2 ^ 96 + seconds now * 2 ^ 32 + nanoseconds now.
Proof.
  intros Hp [Hs Hn]. unfold USIZE, U32 in *. unfold value, shl128, wrap, U128.
  rewrite !Z.shiftl_mul_pow2 by lia. rewrite (Z.mod_small (p * _)), (Z.mod_small (seconds now * _)) by lia.
  rewrite lor_disjoint_pow by lia.
  replace (p * 2 ^ 96 + seconds now * 2 ^ 32) with ((p * 2 ^ 64 + seconds now) * 2 ^ 32) by lia.
  by rewrite lor_disjoint_pow by lia.
Qed.

(** What an id is made of can be read from it: [pid] and [creation_time] give back
    the process and the time, so ids of different processes or different times
    differ. *)
Theorem unique_system_id_round_trip p now :
  0 ≤ p < 2 ^ 31 → time_ok now →
  0 ≤ value p now < U128 ∧ pid (value p now) = p ∧ creation_time (value p now) = now.
Proof.
  intros Hp Ht. rewrite value_eq by done. destruct Ht as [Hs Hn]. destruct now as [s n]. cbn in *.
  unfold USIZE, U32, U128 in *. split; [lia|]. split.
  - unfold pid, as_pid_t. rewrite Z.shiftr_div_pow2 by lia.
    rewrite <- (Z.div_unique (p * 2 ^ 96 + s * 2 ^ 32 + n) (2 ^ 96) p (s * 2 ^ 32 + n)) by lia.
    unfold U32. rewrite Z.mod_small; lia.
  - unfold creation_time, shl128, wrap, USIZE, U32, U128. rewrite !Z.shiftl_mul_pow2, !Z.shiftr_div_pow2 by lia. f_equal.
    + replace ((p * 2 ^ 96 + s * 2 ^ 32 + n) * 2 ^ 32) with ((s * 2 ^ 64 + n * 2 ^ 32) + p * 2 ^ 128) by lia.
      rewrite Z.mod_add, (Z.mod_small (s * 2 ^ 64 + n * 2 ^ 32)) by lia.
      rewrite <- (Z.div_unique _ (2 ^ 64) s (n * 2 ^ 32)) by lia. apply Z.mod_small. lia.
    + replace ((p * 2 ^ 96 + s * 2 ^ 32 + n) * 2 ^ 96) with (n * 2 ^ 96 + (p * 2 ^ 64 + s) * 2 ^ 128) by lia.
      rewrite Z.mod_add, (Z.mod_small (n * 2 ^ 96)) by lia. rewrite Z.div_mul by lia. apply Z.mod_small. lia.
Qed.

(** A call that runs alone takes the first time whose nanoseconds are new. *)
Lemma new_loop_spec p last clock r last' rest :
  new_loop p last clock (Clock last) = Some (r, last', rest) →
  ∃ skipped now, clock = skipped ++ now :: rest ∧ Forall (λ t, nanoseconds t = last) skipped ∧
    nanoseconds now ≠ last ∧ r = Ok (value p now) ∧ last' = nanoseconds now.
Proof.
  induction clock as [|now clock IH]; cbn [new_loop step]; [done|].
  destruct (Z.eqb_spec (nanoseconds now) last) as [He|He].
  - intros Hr. destruct (IH Hr) as (skipped & t & -> & Hs & Ht). exists (now :: skipped), t.
    split; [done|]. split; [by constructor|done].
  - unfold step, compare_exchange. rewrite Z.eqb_refl. intros [= <- <- <-]. exists [], now. by split_and!.
Qed.

Lemma ids_above n p last clock now :
  0 ≤ p < 2 ^ 31 → Forall time_ok clock → time_ok now → last = nanoseconds now →
  StronglySorted time_le (now :: clock) → Forall (λ id, value p now < id) (ids n p last clock) ∧
  StronglySorted Z.lt (ids n p last clock).
Proof.
  intros Hp. revert last clock now. induction n as [|n IH]; intros last clock now Hok Hnow Hlast Hsort.
  { split; constructor. }
  cbn [ids]. unfold new. cbn [step]. destruct (new_loop p last clock (Clock last)) as [[[r last'] rest]|] eqn:Hn;
    [|split; constructor].
  destruct (new_loop_spec _ _ _ _ _ _ Hn) as (skipped & t & -> & _ & Hne & -> & ->).
  apply Forall_app in Hok as [_ [Ht Hrest]%Forall_cons].
  apply StronglySorted_inv in Hsort as [Hsort Hle]. apply Forall_app in Hle as [_ [Hle _]%Forall_cons].
  assert (StronglySorted time_le (t :: rest)) as Hsort'.
  { clear -Hsort. induction skipped as [|x l IH]; [done|]. by apply StronglySorted_inv in Hsort as [? _]; apply IH. }
  destruct (IH (nanoseconds t) rest t Hrest Ht eq_refl Hsort') as [Habove Hs].
  assert (value p now < value p t) as Hlt.
  { rewrite !value_eq by done. destruct Hnow, Ht. unfold time_le, USIZE, U32 in *. lia. }
  split; constructor; try done. eapply Forall_impl; [exact Habove|]. cbn. lia.
Qed.

(** The ids that a process creates one after the other grow, as long as its clock
    does not go backwards: none is used twice. *)
Theorem sequential_ids_grow n p last clock :
  0 ≤ p < 2 ^ 31 → Forall time_ok clock → StronglySorted time_le clock →
  StronglySorted Z.lt (ids n p last clock).
Proof.
  intros Hp Hok Hsort. destruct n as [|n]; [constructor|]. cbn [ids]. unfold new. cbn [step].
  destruct (new_loop p last clock (Clock last)) as [[[r last'] rest]|] eqn:Hn; [|constructor].
  destruct (new_loop_spec _ _ _ _ _ _ Hn) as (skipped & t & -> & _ & Hne & -> & ->).
  apply Forall_app in Hok as [_ [Ht Hrest]%Forall_cons].
  assert (StronglySorted time_le (t :: rest)) as Hsort'.
  { clear -Hsort. induction skipped as [|x l IH]; [done|]. by apply StronglySorted_inv in Hsort as [? _]; apply IH. }
  destruct (ids_above n p (nanoseconds t) rest t Hp Hrest Ht eq_refl Hsort') as [Habove Hs]. by constructor.
Qed.

(** The threads of a process make accesses in the given order, each with the time at
    that moment. *)
Fixpoint accesses (p last : Z) (order : list (nat * Time)) (ts : list pc) : Z * list pc :=
  match order with
  | [] => (last, ts)
  | (i, now) :: order =>
      match ts !! i with
      | Some t => let '(last, t) := step p last (Ok now) t in accesses p last order (<[i := t]> ts)
      | None => accesses p last order ts
      end
  end.

(** A thread that is delayed for a second in the middle of [new] can repeat an id:
    what its compare-exchange expects is the value from before, which is back after
    another thread has got the same nanoseconds of a later second. The clock never
    goes backwards in this run. *)
Theorem delayed_thread_repeats_id p :
  ∃ order, StronglySorted time_le order.*2 ∧
    (accesses p 100 order [Load; Load; Load]).2 =
    [Ret (Ok (value p (mkTime 5 200))); Ret (Ok (value p (mkTime 5 200))); Ret (Ok (value p (mkTime 6 100)))].
Proof.
  exists [(0, mkTime 5 200); (1, mkTime 5 200); (0, mkTime 5 200); (1, mkTime 5 200); (1, mkTime 5 200);
          (2, mkTime 6 100); (2, mkTime 6 100); (2, mkTime 6 100); (0, mkTime 6 100)]%nat%Z.
  split; [|reflexivity]. cbn [fmap list_fmap snd].
  repeat first [apply SSorted_nil|apply SSorted_cons|apply Forall_nil_2|apply Forall_cons_2]; unfold time_le; cbn; lia.
Qed.
End Ids.

(** ** Names *)

Section Decimal.
Implicit Types (n : Z) (l : list Z).

(** The number that digits stand for. *)
Definition number l : Z := fold_left (λ a d, 10 * a + (d - 48)) l 0.

Lemma to_string_loop_spec fuel n acc :
  0 ≤ n < 10 ^ (Z.of_nat fuel + 1) → Forall (λ d, 48 ≤ d ≤ 57) acc →
  ∃ l, to_string_loop fuel n acc = l ++ acc ∧ Forall (λ d, 48 ≤ d ≤ 57) l ∧ l ≠ [] ∧ number l = n ∧
    (∀ k, 1 ≤ k → n < 10 ^ k → Z.of_nat (length l) ≤ k).
Proof.
  revert n acc. induction fuel as [|fuel IH]; intros n acc Hn Hacc; cbn [to_string_loop];
    (destruct (Z.ltb_spec n 10) as [Hlt|Hge];
       [exists [48 + n]; split_and!; [done|by repeat constructor; lia|done|unfold number; cbn; lia|cbn; intros; lia]|]).
  - cbn in Hn. lia.
  - pose proof (Z.div_mod n 10 ltac:(lia)) as Hdm. pose proof (Z.mod_pos_bound n 10 ltac:(lia)) as Hm.
    replace (Z.of_nat (S fuel) + 1) with (Z.succ (Z.of_nat fuel + 1)) in Hn by lia. rewrite Z.pow_succ_r in Hn by lia.
    destruct (IH (n / 10) ((48 + n mod 10) :: acc)) as (l & Hl & Hd & Hne & Hv & Hlen); [lia|by constructor; [lia|]|].
    exists (l ++ [48 + n mod 10]). rewrite Hl, <- app_assoc. split_and!; [done| |by destruct l| |].
    + apply Forall_app. split; [done|]. by repeat constructor; lia.
    + unfold number in *. rewrite fold_left_app. cbn. lia.
    + intros k Hk Hnk. rewrite length_app. cbn.
      destruct (decide (k = 1)) as [->|]; [lia|].
      specialize (Hlen (k - 1)). replace k with (Z.succ (k - 1)) in Hnk by lia. rewrite Z.pow_succ_r in Hnk by lia. lia.
Qed.

Lemma to_string_spec n :
  0 ≤ n < U128 →
  Forall (λ d, 48 ≤ d ≤ 57) (to_string n) ∧ to_string n ≠ [] ∧ number (to_string n) = n ∧
  Z.of_nat (length (to_string n)) ≤ 39.
Proof.
  intros Hn. unfold U128 in Hn. destruct (to_string_loop_spec 40 n []) as (l & Hl & Hd & Hne & Hv & Hlen); [|done|].
  { cbn. lia. }
  unfold to_string. rewrite Hl, app_nil_r. split_and!; try done. apply Hlen; lia.
Qed.

(** What a number is printed with: digits and a minus sign. *)
Definition printed l : Prop := Forall (λ d, 48 ≤ d ≤ 57 ∨ d = 45) l ∧ l ≠ [] ∧ Z.of_nat (length l) ≤ 39.

Lemma to_string_printed n : 0 ≤ n < U128 → printed (to_string n).
Proof. intros Hn. destruct (to_string_spec n Hn) as (Hd & ? & _ & ?). split; [|done]. eapply Forall_impl; [exact Hd|auto]. Qed.

Lemma to_string_inj a b : 0 ≤ a < U128 → 0 ≤ b < U128 → to_string a = to_string b → a = b.
Proof. intros Ha Hb He. destruct (to_string_spec a Ha) as (_ & _ & Va & _), (to_string_spec b Hb) as (_ & _ & Vb & _). congruence. Qed.

Lemma pid_printed v : printed (signed_to_string (UniqueSystemId.pid v)).
Proof.
  unfold UniqueSystemId.pid, UniqueSystemId.as_pid_t. set (m := _ mod _). pose proof (Z.mod_pos_bound (Z.shiftr v 96 + 2 ^ 31) U32 eq_refl) as Hm. fold m in Hm.
  unfold U32 in Hm. unfold signed_to_string. destruct (Z.ltb_spec (m - 2 ^ 31) 0).
  - destruct (to_string_loop_spec 40 (- (m - 2 ^ 31)) []) as (l & Hl & Hd & Hne & _ & Hlen); [|done|]; [cbn; lia|]. unfold to_string. rewrite Hl, app_nil_r.
    specialize (Hlen 10). split; [constructor; [auto|eapply Forall_impl; [exact Hd|auto]]|]. split; [done|]. cbn [length]. lia.
  - apply to_string_printed. unfold U128. lia.
Qed.

(** The separator is not printed: what is joined can be taken apart. *)
Lemma separator_inj a a' b b' : printed a → printed a' → a ++ 95 :: b = a' ++ 95 :: b' → a = a' ∧ b = b'.
Proof.
  intros [Ha _] [Ha' _]. revert a' Ha'. induction Ha as [|x a Hx _ IH]; intros [|y a'] Ha' He; cbn in He.
  - by injection He.
  - injection He as <- _. apply Forall_cons in Ha' as [? _]. lia.
  - injection He as -> _. lia.
  - injection He as -> He. apply Forall_cons in Ha' as [_ Ha']. by destruct (IH a' Ha' He) as [-> ->].
Qed.
End Decimal.

Section NameTheorems.
Context `{P : Profile} {Env : Settings} `{!SettingsLaws Env}.
Import Semantic.

(** Printed numbers and the separator in a file name. *)
Definition name_bytes (l : list Z) : Prop := Forall (λ d, (48 ≤ d ≤ 57 ∨ d = 45) ∨ d = 95) l ∧ l ≠ [].

Lemma name_bytes_valid l : name_bytes l → valid FileName l.
Proof.
  intros [Hd Hne]. split; cbn.
  - unfold dots. destruct l as [|x l]; [done|]. apply Forall_cons in Hd as [Hx _].
    rewrite !bool_decide_eq_false_2; [done|congruence..| | |].
    all: intros [=]; lia.
  - induction Hd as [|x l Hx _ IH]; [done|]. cbn. unfold file_name_invalid_character at 1.
    destruct l; [|rewrite IH by done]; zbool; done.
Qed.

Lemma push_name s bs bytes :
  inv FileName s bs → name_bytes (bs ++ bytes) → bytes ≠ [] → Z.of_nat (length bs + length bytes) ≤ FILENAME_LENGTH →
  ∃ s', push_bytes FileName s bytes = Return (Ok tt, s') ∧ inv FileName s' (bs ++ bytes).
Proof.
  intros [Hr _] Hb Hne Hl. pose proof lengths_ok as Hlen. pose proof (name_bytes_valid _ Hb) as [Hv1 Hv2].
  pose proof (Bytes.rep_bound _ _ _ Hr) as [_ Hs]. assert (0 < length bytes)%nat by (destruct bytes; [done|cbn; lia]).
  pose proof (ss_insert_bytes_spec FileName s bs bytes (Bytes.len s) Hr ltac:(lia) ltac:(lia)) as Hi.
  cbv zeta in Hi. rewrite invalid_characters_app in Hv2. apply orb_false_iff in Hv2 as [Hv0 Hv2].
  cbn [FileName does_contain_invalid_characters is_invalid_content CAPACITY] in Hi, Hv0, Hv1, Hv2.
  rewrite Hv2, Z.ltb_irrefl in Hi. revert Hi. zbool.
  rewrite Hs, Nat2Z.id, take_ge, drop_ge, app_nil_r, Hv1 by lia. intros (s' & Hi & Hr'). exists s'.
  split; [unfold push_bytes; by rewrite Hs|]. split; [done|]. by apply name_bytes_valid.
Qed.

Lemma joined_ok a b :
  printed a → printed b → 79 ≤ FILENAME_LENGTH →
  ∃ s, joined a b = Return s ∧ inv FileName s (a ++ 95 :: b).
Proof.
  intros (Da & Na & La) (Db & Nb & Lb) Hl. pose proof lengths_ok as Hlen.
  assert (∀ l, Forall (λ d, 48 ≤ d ≤ 57 ∨ d = 45) l → Forall (λ d, (48 ≤ d ≤ 57 ∨ d = 45) ∨ d = 95) l) as Hdig
    by (intros l H; eapply Forall_impl; [exact H|auto]).
  assert (name_bytes a) as Hna by (split; auto).
  assert (name_bytes (a ++ [95])) as Hna1.
  { split; [|by destruct a]. apply Forall_app. split; [auto|]. constructor; auto. }
  unfold joined, new_name. pose proof (new_spec FileName a ltac:(lia)) as Hnew.
  destruct (name_bytes_valid _ Hna) as [V1 V2]. rewrite V1, V2 in Hnew. revert Hnew.
  cbn [FileName CAPACITY]. zbool. intros (s0 & -> & I0). cbn [obind].
  destruct (push_name s0 _ [95] I0 Hna1) as (s1 & H1 & I1); [done|cbn [length]; lia|].
  unfold push, insert. unfold push_bytes in H1. rewrite H1. cbn [expect obind].
  destruct (push_name s1 _ b I1) as (s2 & H2 & I2); [|done|rewrite length_app; cbn [length]; lia|].
  { split; [|by destruct a]. apply Forall_app. split; [apply Hna1|auto]. }
  rewrite H2. cbn. exists s2. by rewrite <- app_assoc in I2.
Qed.

(** C24. The names of what two ports share: for all ids there is a connection name and
    an event name, both are valid file names, and different pairs of ports, or
    different listeners, have different names. *)
Theorem port_names_unique a b a' b' :
  0 ≤ a < U128 → 0 ≤ b < U128 → 0 ≤ a' < U128 → 0 ≤ b' < U128 → 79 ≤ FILENAME_LENGTH →
  ∃ s s' e e' bs bs' es es',
    connection_name a b = Return s ∧ inv FileName s bs ∧ connection_name a' b' = Return s' ∧ inv FileName s' bs' ∧
    event_concept_name a = Return e ∧ inv FileName e es ∧ event_concept_name a' = Return e' ∧ inv FileName e' es' ∧
    (bs = bs' → a = a' ∧ b = b') ∧ (es = es' → a = a').
Proof.
  intros Ha Hb Ha' Hb' Hl. pose proof to_string_printed as Hp. pose proof pid_printed as Hq.
  destruct (joined_ok _ _ (Hp a Ha) (Hp b Hb) Hl) as (s & H1 & I1). destruct (joined_ok _ _ (Hp a' Ha') (Hp b' Hb') Hl) as (s' & H2 & I2).
  destruct (joined_ok _ _ (Hq a) (Hp a Ha) Hl) as (e & H3 & I3). destruct (joined_ok _ _ (Hq a') (Hp a' Ha') Hl) as (e' & H4 & I4).
  exists s, s', e, e'. do 4 eexists. split_and!; [exact H1|exact I1|exact H2|exact I2|exact H3|exact I3|exact H4|exact I4| |].
  - intros [E1 E2]%separator_inj; auto. split; by apply to_string_inj.
  - intros [_ E]%separator_inj; auto. by apply to_string_inj.
Qed.
End NameTheorems.

(** ** Witnesses *)

Lemma unique_system_id_round_trip_witness :
  UniqueSystemId.pid (UniqueSystemId.value 4711 (UniqueSystemId.mkTime 17 999999999)) = 4711.
Proof.
  apply (unique_system_id_round_trip 4711 (UniqueSystemId.mkTime 17 999999999)); [lia|].
  split; cbn; unfold USIZE, U32; lia.
Defined.

Definition three_times : list UniqueSystemId.Time :=
  [UniqueSystemId.mkTime 1 5; UniqueSystemId.mkTime 1 5; UniqueSystemId.mkTime 2 5; UniqueSystemId.mkTime 2 6].

Lemma sequential_ids_grow_witness :
  UniqueSystemId.ids 2 7 0 three_times =
    [UniqueSystemId.value 7 (UniqueSystemId.mkTime 1 5); UniqueSystemId.value 7 (UniqueSystemId.mkTime 2 6)] ∧
  StronglySorted Z.lt (UniqueSystemId.ids 2 7 0 three_times).
Proof.
  split; [reflexivity|]. apply (sequential_ids_grow 2 7 0 three_times); [lia| |].
  - repeat apply Forall_cons_2; try apply Forall_nil_2; split; cbn; unfold USIZE, U32; lia.
  - repeat first [apply SSorted_nil|apply SSorted_cons|apply Forall_nil_2|apply Forall_cons_2];
      unfold UniqueSystemId.time_le; cbn; lia.
Defined.

Lemma port_names_unique_witness :
  ∃ s bs, connection_name (P := true) (Env := settings_unix) 12 345 = Return s ∧
    Semantic.inv (@FileName settings_unix) s bs.
Proof.
  destruct (port_names_unique (P := true) (Env := settings_unix) 12 345 12 345)
    as (s & s' & e & e' & bs & bs' & es & es' & H1 & H2 & _); [unfold U128; lia..|cbn; lia|].
  exists s, bs. exact (conj H1 H2).
Defined.
