(* ===== verification/LocalRegistry.v ===== *)
(** * The registry of a process-local concept

    Every process_local.rs of elkodon_cal keeps a [HashMap] from the full paths of the
    concept to its shared objects ([Arc]), behind a mutex that is taken for each
    operation. [Module Registry] is this map, with the functions of [NamedConceptMgmt]
    that all of them have. Objects are never freed here: what an [Arc] still refers to
    cannot be told apart from what it does not. *)

From S2P Require Import Prelude ByteString SemanticString SystemTypes NamedConcept.

Import Bytes(FixedSizeByteString, as_bytes) Semantic(inv, valid).

Module Registry.

Record Registry (V : Type) := mkRegistry { entries : gmap (list Z) nat; objects : list V }.
Arguments mkRegistry {V} _ _.
Arguments entries {V} _.
Arguments objects {V} _.

Section Operations.
Context `{P : Profile} {Env : Settings} {V : Type}.
(** Whether the lock can be acquired. *)
Context (lock : bool) (config : Naming.Configuration).
Implicit Types (s : Registry V) (name : FixedSizeByteString) (k : list Z) (a : nat) (v : V).

Definition empty_registry : Registry V := mkRegistry ∅ [].

(** [self.config.path_for(&self.name)] as a key of the map. *)
Definition key name : outcome (list Z) :=
  let! full_path := Naming.path_for config name in as_bytes full_path.

(** [guard.insert(full_path, Arc::new(v))] *)
Definition insert_new s k v : Registry V :=
  mkRegistry (<[k := length (objects s)]> (entries s)) (objects s ++ [v]).
Definition remove s k : Registry V := mkRegistry (delete k (entries s)) (objects s).
(** A change of an object behind its [Arc]. *)
Definition update s a v : Registry V := mkRegistry (entries s) (<[a := v]> (objects s)).

Definition lookup s k : option nat := entries s !! k.
Definition get s a : outcome V := match objects s !! a with Some v => Return v | None => Undefined end.

Definition does_exist_cfg s name : outcome bool :=
  if negb lock then Panic else let! k := key name in Return (bool_decide (is_Some (lookup s k))).

Definition remove_cfg s name : outcome (bool * Registry V) :=
  let! k := key name in
  if negb lock then Panic else Return (bool_decide (is_Some (lookup s k)), remove s k).

Fixpoint list_loop (keys : list (list Z)) : outcome (list FixedSizeByteString) :=
  match keys with
  | [] => Return []
  | k :: keys =>
      let! storage_name := Semantic.new_unchecked FilePath k in
      let! v := Naming.extract_name_from_path config storage_name in
      let! rest := list_loop keys in
      Return (match v with Some v => v :: rest | None => rest end)
  end.
Definition list_cfg s : outcome (list FixedSizeByteString) :=
  if negb lock then Panic else list_loop (map_to_list (entries s)).*1.

(** Every entry has its own object. *)
Record wf s : Prop := {
  wf_bound k a : lookup s k = Some a → (a < length (objects s))%nat;
  wf_distinct k k' a : lookup s k = Some a → lookup s k' = Some a → k = k'
}.

(** The object of a key. *)
Definition holds s k v : Prop := ∃ a, lookup s k = Some a ∧ objects s !! a = Some v.
End Operations.
Arguments empty_registry {V}.

Section Lemmas.
Context `{P : Profile} {Env : Settings} {V : Type}.
Implicit Types (s : Registry V) (k : list Z) (a : nat) (v : V).

Lemma wf_empty : wf (empty_registry (V := V)).
Proof. by constructor. Qed.

Lemma lookup_insert_new s k v : lookup (insert_new s k v) k = Some (length (objects s)).
Proof. apply lookup_insert_eq. Qed.
Lemma get_insert_new s k v : get (insert_new s k v) (length (objects s)) = Return v.
Proof. unfold get. cbn. by rewrite list_lookup_middle. Qed.
Lemma get_insert_new_old s k v a w : get s a = Return w → get (insert_new s k v) a = Return w.
Proof.
  unfold get. cbn. destruct (objects s !! a) as [x|] eqn:Ha; [|done]. intros [= ->]. by rewrite (lookup_app_l_Some _ _ _ _ Ha).
Qed.

Lemma wf_insert_new s k v : wf s → wf (insert_new s k v).
Proof.
  intros [H1 H2]. constructor; unfold lookup in *; cbn.
  - intros k' a. rewrite lookup_insert_Some, length_app. intros [[_ <-]|[_ Hk]]; [cbn; lia|]. apply H1 in Hk. lia.
  - intros k1 k2 a. rewrite !lookup_insert_Some. intros [[<- Ha]|[_ Hk]] [[<- Hb]|[_ Hk']]; [done| | |by eapply H2]; subst a.
    + by destruct (Nat.lt_irrefl _ (H1 _ _ Hk')).
    + by destruct (Nat.lt_irrefl _ (H1 _ _ Hk)).
Qed.
Lemma wf_remove s k : wf s → wf (remove s k).
Proof.
  intros [H1 H2]. constructor; unfold lookup in *; cbn.
  - intros k' a [_ Hk]%lookup_delete_Some. by eapply H1.
  - intros k1 k2 a [_ Hk]%lookup_delete_Some [_ Hk']%lookup_delete_Some. by eapply H2.
Qed.
Lemma wf_update s a v : wf s → wf (update s a v).
Proof. intros [H1 H2]. constructor; [|done]. intros k b Hk. cbn. rewrite length_insert. by eapply H1. Qed.

Lemma holds_insert_new s k v : holds (insert_new s k v) k v.
Proof. exists (length (objects s)). split; [apply lookup_insert_new|]. cbn. by rewrite list_lookup_middle. Qed.
Lemma holds_insert_new_ne s k v k' w : k ≠ k' → holds s k' w → holds (insert_new s k v) k' w.
Proof.
  intros Hne (a & Hk & Ha). exists a. unfold lookup in *. cbn. rewrite lookup_insert_ne by done. split; [done|].
  by apply lookup_app_l_Some.
Qed.
Lemma holds_update s k a v w : lookup s k = Some a → objects s !! a = Some w → holds (update s a v) k v.
Proof. intros Hk Ha. exists a. split; [done|]. cbn. by rewrite list_lookup_insert_eq by (by eapply lookup_lt_Some). Qed.
Lemma holds_update_ne s k a v k' w : wf s → lookup s k = Some a → k ≠ k' → holds s k' w → holds (update s a v) k' w.
Proof.
  intros [_ H2] Hk Hne (b & Hk' & Hb). exists b. split; [done|]. cbn. rewrite list_lookup_insert_ne; [done|]. intros ->.
  by apply Hne, (H2 _ _ b).
Qed.
Lemma holds_remove_ne s k k' w : k ≠ k' → holds s k' w → holds (remove s k) k' w.
Proof. intros Hne (a & Hk & Ha). exists a. unfold lookup in *. cbn. by rewrite lookup_delete_ne. Qed.

(** The key of a name that is not too long, and that names have different ones. *)
Lemma key_ok `{!SettingsLaws Env} config sb hb name nb :
  Naming.config_ok config sb hb → inv FileName name nb →
  Z.of_nat (length (directory hb) + length nb + length sb) ≤ PATH_LENGTH →
  key config name = Return (directory hb ++ nb ++ sb).
Proof.
  intros Hc Hn Hl. destruct (Naming.path_for_ok config name sb hb nb Hc Hn Hl) as (fp & Hp & Hi).
  unfold key. rewrite Hp. cbn [obind]. exact (Bytes.as_bytes_rep _ _ _ (proj1 Hi)).
Qed.
End Lemmas.
End Registry.
