(* ===== verification/EventConcept.v ===== *)
(** * The event concept and its process-local implementation

    - elkodon_cal/src/event/mod.rs: the traits of listeners, notifiers and their
      builders, as a class of operations ([EventConcept]) with the contract the ports
      rely on ([EventContract]);
    - elkodon_cal/src/event/process_local.rs: a registry with the shared state of each
      event ([Module LocalConcept]), whose calls are the threads of [LocalEvent], each
      run on its own. It fulfils the contract. *)

From S2P Require Import Prelude Ring BbContainers ByteString SemanticString SystemTypes NamedConcept LocalRegistry Events.
From stdpp Require Import strings.
Open Scope Z_scope.

Import Bytes(FixedSizeByteString, as_bytes) Semantic(inv, valid).

Inductive NotifierOpenError := OpenDoesNotExist | OpenInsufficientPermissions | OpenInternalFailure.
Inductive ListenerOpenError := CreateAlreadyExists | CreateInsufficientPermissions | CreateInternalFailure.

(** ** The traits

    [W] is everything the concept keeps outside of the caller; a handle is what
    [create] and [open] return. *)
Class EventConcept (W : Type) := {
  Handle : Type;
  ec_create : W → FixedSizeByteString → outcome (result Handle ListenerOpenError * W);
  ec_open : W → FixedSizeByteString → outcome (result Handle NotifierOpenError * W);
  ec_notify : W → Handle → Z → outcome (result unit LocalEvent.NotifierNotifyError * W);
  ec_try_wait : W → Handle → outcome (result (option Z) LocalEvent.ListenerWaitError * W);
  ec_timed_wait : W → Handle → outcome (result (option Z) LocalEvent.ListenerWaitError * W);
  ec_blocking_wait : W → Handle → outcome (result (option Z) LocalEvent.ListenerWaitError * W);
  ec_drop_listener : W → Handle → outcome W
}.

(** What a handle was made for. *)
Inductive role := Notifies | Listens.

(** What the ports rely on: named channels with pending ids, at most [cap] each. The
    number [n] bounds how many ids have been accepted so far. Nothing is promised to who
    creates a listener under a name that is taken, and a [blocking_wait] on an empty
    channel may not return; a listener that is dropped may take its channel with it. *)
Class EventContract {Env : Settings} (W : Type) `{EventConcept W} (cap : Z) := {
  ec_rep : Z → W → gmap (list Z) (list Z) → Prop;
  ec_linked : role → W → Handle → list Z → Prop;
  ec_name_ok : list Z → Prop;
  ec_linked_exists n w chans r h nb : ec_rep n w chans → ec_linked r w h nb → is_Some (chans !! nb);
  ec_create_ok n w chans name nb :
    ec_rep n w chans → inv FileName name nb → ec_name_ok nb → chans !! nb = None →
    ∃ h w', ec_create w name = Return (Ok h, w') ∧ ec_rep n w' (<[nb := []]> chans) ∧ ec_linked Listens w' h nb ∧
      ∀ r h' nb', ec_linked r w h' nb' → ec_linked r w' h' nb';
  ec_open_ok n w chans name nb :
    ec_rep n w chans → inv FileName name nb → ec_name_ok nb →
    ∃ w', ec_rep n w' chans ∧ (∀ r h' nb', ec_linked r w h' nb' → ec_linked r w' h' nb') ∧
      match chans !! nb with
      | Some _ => ∃ h, ec_open w name = Return (Ok h, w') ∧ ec_linked Notifies w' h nb
      | None => ∃ e, ec_open w name = Return (Err e, w')
      end;
  ec_notify_ok n w chans h nb ids id :
    ec_rep n w chans → ec_linked Notifies w h nb → chans !! nb = Some ids → n + 2 < USIZE → 0 ≤ id < USIZE →
    if Z.of_nat (length ids) <? cap then
      ∃ w', ec_notify w h id = Return (Ok tt, w') ∧ ec_rep (n + 1) w' (<[nb := ids ++ [id]]> chans) ∧
        ∀ r h' nb', ec_linked r w h' nb' → ec_linked r w' h' nb'
    else
      ∃ e w', ec_notify w h id = Return (Err e, w') ∧ ec_rep n w' chans ∧
        ∀ r h' nb', ec_linked r w h' nb' → ec_linked r w' h' nb';
  ec_wait_ok n w chans h nb ids wait :
    ec_rep n w chans → ec_linked Listens w h nb → chans !! nb = Some ids →
    wait = ec_try_wait ∨ wait = ec_timed_wait ∨ (wait = ec_blocking_wait ∧ ids ≠ []) →
    ∃ w', wait w h = Return (Ok (List.hd_error ids), w') ∧ ec_rep n w' (<[nb := List.tl ids]> chans) ∧
      ∀ r h' nb', ec_linked r w h' nb' → ec_linked r w' h' nb';
  ec_drop_ok n w chans h nb :
    ec_rep n w chans → ec_linked Listens w h nb →
    ∃ w', ec_drop_listener w h = Return w' ∧ (ec_rep n w' chans ∨ ec_rep n w' (delete nb chans)) ∧
      ∀ r h' nb', nb' ≠ nb → ec_linked r w h' nb' → ec_linked r w' h' nb'
}.

(** ** process_local.rs *)

Module LocalConcept.
Import LocalEvent.

Definition DEFAULT_CAPACITY : Z := 2048.

(** [PROCESS_LOCAL_STORAGE] *)
Definition Storage := Registry.Registry Management.
Definition empty_storage : Storage := Registry.empty_registry.

Section Operations.
Context `{P : Profile} {Env : Settings}.
(** Whether the lock of the storage can be acquired. *)
Context (lock : bool) (config : Naming.Configuration).
Implicit Types (s : Storage) (name : FixedSizeByteString).

Definition create s name : outcome (result nat ListenerOpenError * Storage) :=
  if negb lock then Return (Err CreateInternalFailure, s)
  else
    let! full_path := Registry.key config name in
    match Registry.lookup s full_path with
    | Some _ => Return (Err CreateAlreadyExists, s)
    | None => Return (Ok (length (Registry.objects s)), Registry.insert_new s full_path (new DEFAULT_CAPACITY))
    end.

Definition open s name : outcome (result nat NotifierOpenError * Storage) :=
  if negb lock then Return (Err OpenInternalFailure, s)
  else
    let! full_path := Registry.key config name in
    match Registry.lookup s full_path with
    | None => Return (Err OpenDoesNotExist, s)
    | Some a => Return (Ok a, s)
    end.

(** A call on its own: the operating system does not fail, and who waits with a
    timeout sleeps until it is over. Without a timeout a sleeper stays. *)
Definition alone_answer (t : pc) : answer := match t with Sleeping Timed => TimedOut | _ => Fine end.
Fixpoint alone (fuel : nat) (m : Management) (t : pc) : outcome (Management * pc) :=
  match t with
  | Idle | NotifyRet _ | WaitRet _ => Return (m, t)
  | _ =>
      match fuel with
      | O => Undefined
      | S fuel => let! '(m, t, _) := step m (alone_answer t) t in alone fuel m t
      end
  end.

Definition call s (a : nat) (t : pc) : outcome (Storage * pc) :=
  let! m := Registry.get s a in
  let! '(m, t) := alone 4 m t in Return (Registry.update s a m, t).

Definition notify s (a : nat) (id : Z) : outcome (result unit NotifierNotifyError * Storage) :=
  let! '(s, t) := call s a (NotifyLock id) in
  match t with NotifyRet r => Return (r, s) | _ => Undefined end.

Definition wait (k : kind) s (a : nat) : outcome (result (option Z) ListenerWaitError * Storage) :=
  let! '(s, t) := call s a (WaitLock k) in
  match t with WaitRet r => Return (r, s) | _ => Undefined end.
Definition try_wait := wait Timed.
Definition timed_wait := wait Timed.
Definition blocking_wait := wait Blocking.

(** Without the lock they panic. *)
Definition does_exist_cfg s name : outcome bool := Registry.does_exist_cfg lock config s name.
Definition list_cfg s : outcome (list FixedSizeByteString) := Registry.list_cfg lock config s.
Definition remove_cfg s name : outcome (bool * Storage) := Registry.remove_cfg lock config s name.
End Operations.

(** ** The process-local concept fulfils the contract *)

Section Contract.
Context `{P : Profile} {Env : Settings} `{!SettingsLaws Env}.
Context (config : Naming.Configuration) (sb hb : list Z) (Hcfg : Naming.config_ok config sb hb).
Implicit Types (s : Storage) (m : Management) (chans : gmap (list Z) (list Z)) (nb ids : list Z) (a : nat).

(** A management between two calls: at most [n] ids have been accepted. *)
Record management_rep (n : Z) m ids : Prop := {
  mr_queue : Queue.rep (queue m) ids;
  mr_capacity : Queue.capacity (queue m) = DEFAULT_CAPACITY;
  mr_locked : locked m = false;
  mr_start : Queue.start (queue m) ≤ n
}.

Definition local_name_ok nb : Prop := Z.of_nat (length (directory hb) + length nb + length sb) ≤ PATH_LENGTH.
Definition local_key nb : list Z := directory hb ++ nb ++ sb.

Record local_rep (n : Z) s chans : Prop := {
  lr_wf : Registry.wf s;
  lr_chan nb ids : chans !! nb = Some ids → ∃ m, Registry.holds s (local_key nb) m ∧ management_rep n m ids;
  lr_free nb : chans !! nb = None → Registry.lookup s (local_key nb) = None
}.
Definition local_linked s a nb : Prop := Registry.lookup s (local_key nb) = Some a.

Lemma local_key_inj nb nb' : local_key nb = local_key nb' → nb = nb'.
Proof. intros H%app_inv_head%app_inv_tail. done. Qed.

Lemma management_rep_weaken n n' m ids : n ≤ n' → management_rep n m ids → management_rep n' m ids.
Proof. intros Hn [? ? ? ?]. constructor; try done. lia. Qed.

Lemma alone_notify n m ids id :
  management_rep n m ids → n + 2 < USIZE →
  let ok := Z.of_nat (length ids) <? DEFAULT_CAPACITY in
  ∃ m', alone 4 m (NotifyLock id) = Return (m', notified ok) ∧
    if ok then management_rep (n + 1) m' (ids ++ [id]) else management_rep n m' ids.
Proof.
  intros [Hr Hc Hl Hs] Hn ok. cbn [alone step alone_answer]. rewrite Hl. cbn [obind alone step alone_answer queue set_locked].
  pose proof Hr as [Hini _ Hlen _ _ _ _]. unfold Queue.push, ok. rewrite Hlen, Hc.
  destruct (Z.ltb_spec (Z.of_nat (length ids)) DEFAULT_CAPACITY) as [Hlt|Hge].
  - rewrite (proj2 (Z.eqb_neq _ _)) by lia. unfold Queue.verify_init. rewrite Hini. cbn [obind].
    destruct (Queue.mq_unchecked_push (queue m) ids id Hr) as (q & -> & Hq & Hcq & Hrep); [lia|].
    cbn [obind alone step alone_answer notified]. eexists. split; [done|].
    constructor; cbn [queue locked]; [apply Hrep; lia|lia|done|lia].
  - pose proof (Queue.rep_bound _ _ Hr). rewrite (proj2 (Z.eqb_eq _ _)) by lia.
    cbn [obind alone step alone_answer notified]. eexists. split; [done|]. by constructor.
Qed.

Lemma alone_wait n m k ids :
  management_rep n m ids → k = Timed ∨ ids ≠ [] →
  ∃ m', alone 4 m (WaitLock k) = Return (m', WaitRet (Ok (List.hd_error ids))) ∧ management_rep n m' (List.tl ids).
Proof.
  intros [Hr Hc Hl Hs] Hk. cbn [alone step alone_answer]. rewrite Hl. cbn [obind alone step alone_answer queue set_locked].
  pose proof Hr as [_ _ Hlen _ _ _ _]. unfold Queue.is_empty. rewrite Hlen.
  pose proof (Queue.mq_pop _ _ Hr) as Hp. destruct ids as [|id ids].
  - destruct Hk as [-> |]; [|done]. cbn. eexists. split; [done|]. by constructor.
  - destruct Hp as (q & -> & Hrq & Hsq & Hcq). cbn. eexists. split; [done|]. constructor; cbn [queue locked]; [done|congruence|done|lia].
Qed.

(** A handle of a channel leads to its management. *)
Lemma local_linked_get n s chans a nb ids :
  local_rep n s chans → local_linked s a nb → chans !! nb = Some ids →
  ∃ m, Registry.objects s !! a = Some m ∧ Registry.get s a = Return m ∧ management_rep n m ids.
Proof.
  intros [_ H1 _] Hlk Hids. destruct (H1 _ _ Hids) as (m & (a' & Ha & Hm) & Hr). unfold local_linked in Hlk.
  assert (a' = a) as -> by congruence. exists m. unfold Registry.get. by rewrite Hm.
Qed.

(** A call changes the management of its channel. *)
Lemma call_rep n n' s chans a nb ids t m m' t' ids' :
  local_rep n s chans → local_linked s a nb → chans !! nb = Some ids → n ≤ n' →
  Registry.objects s !! a = Some m → alone 4 m t = Return (m', t') → management_rep n' m' ids' →
  ∃ s', call s a t = Return (s', t') ∧ local_rep n' s' (<[nb := ids']> chans) ∧
    ∀ h' nb', local_linked s h' nb' → local_linked s' h' nb'.
Proof.
  intros [H0 H1 H2] Hlk Hids Hn Hm Hal Hmr'. unfold call, Registry.get. rewrite Hm. cbn [obind]. rewrite Hal. cbn [obind].
  eexists. split; [done|]. split; [|done]. constructor.
  - by apply Registry.wf_update.
  - intros nb1 ids1. destruct (decide (nb = nb1)) as [<-|Hne].
    + rewrite lookup_insert_eq. intros [= <-]. exists m'. split; [by eapply Registry.holds_update|done].
    + rewrite lookup_insert_ne by done. intros Hc. destruct (H1 _ _ Hc) as (m1 & Hm1 & Hr1). exists m1.
      split; [|by eapply management_rep_weaken]. eapply Registry.holds_update_ne; try done. by intros ?%local_key_inj.
  - intros nb1. destruct (decide (nb = nb1)) as [<-|Hne]; [by rewrite lookup_insert_eq|].
    rewrite lookup_insert_ne by done. apply H2.
Qed.

Lemma local_create_rep n s chans nb :
  0 ≤ n → local_rep n s chans → chans !! nb = None →
  let s' := Registry.insert_new s (local_key nb) (new DEFAULT_CAPACITY) in
  local_rep n s' (<[nb := []]> chans) ∧ local_linked s' (length (Registry.objects s)) nb ∧
  ∀ h' nb', local_linked s h' nb' → local_linked s' h' nb'.
Proof.
  intros Hn [H0 H1 H2] Hnb s'. pose proof (H2 _ Hnb) as Hfree. split_and!.
  - constructor.
    + by apply Registry.wf_insert_new.
    + intros nb1 ids1. destruct (decide (nb = nb1)) as [<-|Hne].
      * rewrite lookup_insert_eq. intros [= <-]. eexists. split; [apply Registry.holds_insert_new|].
        constructor; [by apply Queue.mq_new_rep|done..].
      * rewrite lookup_insert_ne by done. intros Hc. destruct (H1 _ _ Hc) as (m1 & Hm1 & Hr1). exists m1.
        split; [|done]. apply Registry.holds_insert_new_ne; [by intros ?%local_key_inj|done].
    + intros nb1. destruct (decide (nb = nb1)) as [<-|Hne]; [by rewrite lookup_insert_eq|].
      rewrite lookup_insert_ne by done. intros Hc. unfold s', Registry.lookup. cbn.
      rewrite lookup_insert_ne; [by apply H2|by intros ?%local_key_inj].
  - apply lookup_insert_eq.
  - intros h' nb' Hlk. unfold local_linked, s', Registry.lookup in *. cbn. rewrite lookup_insert_ne; [done|]. congruence.
Qed.

#[export] Instance local_concept : EventConcept Storage := {|
  Handle := nat;
  ec_create := create true config;
  ec_open := open true config;
  ec_notify := notify;
  ec_try_wait := try_wait;
  ec_timed_wait := timed_wait;
  ec_blocking_wait := blocking_wait;
  ec_drop_listener s a := Return s |}.

#[export] Program Instance local_contract : EventContract Storage DEFAULT_CAPACITY := {|
  ec_rep n s chans := 0 ≤ n ∧ local_rep n s chans;
  ec_linked _ := local_linked;
  ec_name_ok := local_name_ok |}.
Next Obligation.
  intros n s chans r h nb [_ [H0 H1 H2]] Hlk. destruct (chans !! nb) eqn:Hc; [done|]. apply H2 in Hc.
  unfold local_linked in Hlk. congruence.
Qed.
Next Obligation.
  intros n s chans name nb [Hn Hrep] Hname Hok Hc. cbn. unfold create. rewrite (Registry.key_ok _ _ _ name nb Hcfg) by done. cbn [negb obind].
  fold (local_key nb). rewrite (lr_free _ _ _ Hrep _ Hc). destruct (local_create_rep n s chans nb Hn Hrep Hc) as (? & ? & ?).
  eexists _, _. split; [done|]. split_and!; auto.
Qed.
Next Obligation.
  intros n s chans name nb [Hn Hrep] Hname Hok. cbn. exists s. split; [done|]. split; [done|]. unfold open.
  rewrite (Registry.key_ok _ _ _ name nb Hcfg) by done. cbn [negb obind]. fold (local_key nb). destruct (chans !! nb) as [ids|] eqn:Hc.
  - destruct (lr_chan _ _ _ Hrep _ _ Hc) as (m & (a & Ha & _) & _). rewrite Ha. by exists a.
  - rewrite (lr_free _ _ _ Hrep _ Hc). by eexists.
Qed.
Next Obligation.
  intros n s chans h nb ids id [Hn Hrep] Hlk Hc Hb _. cbn. unfold notify.
  destruct (local_linked_get _ _ _ _ _ _ Hrep Hlk Hc) as (m & Hm & _ & Hmr).
  destruct (alone_notify n m ids id Hmr Hb) as (m' & Hal & Hmr').
  destruct (Z.of_nat (length ids) <? DEFAULT_CAPACITY).
  - destruct (call_rep n (n + 1) s chans h nb ids _ m m' _ (ids ++ [id]) Hrep Hlk Hc ltac:(lia) Hm Hal Hmr') as (s' & -> & Hrep' & Hl').
    cbn. exists s'. split_and!; [done|lia|done|auto].
  - destruct (call_rep n n s chans h nb ids _ m m' _ ids Hrep Hlk Hc ltac:(lia) Hm Hal Hmr') as (s' & -> & Hrep' & Hl').
    cbn. rewrite insert_id in Hrep' by done. exists FailedToDeliverSignal, s'. split_and!; auto.
Qed.
Next Obligation.
  intros n s chans h nb ids call [Hn Hrep] Hlk Hc Hcall. cbn in Hcall.
  assert (∃ k, call = wait k ∧ (k = Timed ∨ ids ≠ [])) as (k & -> & Hk) by (destruct Hcall as [->|[->|[-> ?]]]; [exists Timed|exists Timed|exists Blocking]; auto).
  unfold wait. destruct (local_linked_get _ _ _ _ _ _ Hrep Hlk Hc) as (m & Hm & _ & Hmr).
  destruct (alone_wait n m k ids Hmr Hk) as (m' & Hal & Hmr').
  destruct (call_rep n n s chans h nb ids _ m m' _ (List.tl ids) Hrep Hlk Hc ltac:(lia) Hm Hal Hmr') as (s' & -> & Hrep' & Hl').
  cbn. exists s'. split_and!; auto.
Qed.
Next Obligation.
  intros n s chans h nb Hrep _. exists s. split; [done|]. split; [by left|done].
Qed.
End Contract.
End LocalConcept.
