(* ===== verification/Processes.v ===== *)
(** * Programs that call the operating system

    The code of elkodon_cal and elkodon that creates, opens and removes services
    runs in several processes at once and meets only through files and shared
    memory objects. Such code is a tree of calls ([prog]); what the calls do is not
    part of the tree. The same tree is run alone ([run]) and interleaved with those
    of other processes, one call at a time (ServiceLifecycle).

    - [request], [response]: the calls of elkodon_bb/posix that are used (files,
      directories, shared memory, waiting) and the accesses to the reference counter
      in the shared memory;
    - [world], [documented]: the objects of the operating system and what is
      documented about the calls, their failures included. The operating system
      itself is a parameter: any relation that is sound with respect to
      [documented];
    - [exec]: a concrete operating system whose calls succeed whenever they can. *)

From S2P Require Import Prelude.

(** ** Calls *)

Inductive DirectoryError := DirectoryInsufficientPermissions | DirectoryOther.
Inductive FileCreationError := FileAlreadyExists | FileCreateInsufficientPermissions | FileCreateOther.
Inductive FileWriteError := WriteInsufficientPermissions | NoSpaceLeft | WriteOther.
Inductive FileSetPermissionError := SetPermissionInsufficientPermissions | SetPermissionOther.
Inductive FileRemoveError :=
  FileRemoveInsufficientPermissions | PartOfReadOnlyFileSystem | FileRemoveOther.
Inductive SharedMemoryCreationError :=
  AlreadyExist | DoesNotExist | InsufficientPermissions | ShmOther.
Inductive SharedMemoryRemoveError :=
  ShmRemoveDoesNotExist | ShmRemoveInsufficientPermissions | ShmRemoveOther.

(** Paths are byte strings, objects are numbered. A permission is reduced to
    whether it is the final one of its concept. *)
Record Metadata := mkMetadata { is_regular_file : bool; has_final_permission : bool; file_size : Z }.

Inductive request :=
| DirectoryDoesExist (path : list Z)
| DirectoryCreate (path : list Z)
| DirectoryOpen (path : list Z)
| DirectoryContents (path : list Z)
| FileDoesExist (path : list Z)
| FileCreate (path : list Z)
| FileOpen (path : list Z)
| FileMetadata (f : nat)
| FileWrite (f : nat) (contents : list Z)
| FileSetPermission (f : nat)
| FileRead (f : nat) (buffer : Z)
| FileRemove (path : list Z)
| ShmCreate (name : list Z) (size : Z)
| ShmOpen (name : list Z)
| ShmWrite (d : nat) (counter : Z)
| ShmSetPermission (d : nat) (final : bool)
| ShmPermission (d : nat)
| ShmRemove (name : list Z)
| ShmDoesExist (name : list Z)
| ShmList
| CounterLoad (d : nat)
| CounterCas (d : nat) (current new : Z)
| AdaptiveWaitCreate
| AdaptiveWait.

(** [AdaptiveWait] answers whether the timeout is exceeded, [ShmCreate] the object
    and the address it is mapped to, [ShmOpen] the object and its size, [CounterCas] what [compare_exchange] answers. *)
Definition response (q : request) : Type :=
  match q with
  | DirectoryDoesExist _ => result bool unit
  | DirectoryCreate _ => result unit unit
  | DirectoryOpen _ => result unit DirectoryError
  | DirectoryContents _ => result (list (list Z * Metadata)) DirectoryError
  | FileDoesExist _ => result bool unit
  | FileCreate _ => result nat FileCreationError
  | FileOpen _ => result nat unit
  | FileMetadata _ => result Metadata unit
  | FileWrite _ _ => result Z FileWriteError
  | FileSetPermission _ => result unit FileSetPermissionError
  | FileRead _ _ => result (list Z) unit
  | FileRemove _ => result bool FileRemoveError
  | ShmCreate _ _ => result (nat * Z) SharedMemoryCreationError
  | ShmOpen _ => result (nat * Z) SharedMemoryCreationError
  | ShmWrite _ _ => unit
  | ShmSetPermission _ _ => result unit unit
  | ShmPermission _ => result bool unit
  | ShmRemove _ => result unit SharedMemoryRemoveError
  | ShmDoesExist _ => bool
  | ShmList => list (list Z)
  | CounterLoad _ => Z
  | CounterCas _ _ _ => result Z Z
  | AdaptiveWaitCreate => result unit unit
  | AdaptiveWait => result bool unit
  end.

(** ** Programs *)

Inductive prog (A : Type) : Type :=
| Done (o : outcome A)
| Call (q : request) (k : response q → prog A).
Arguments Done {A} _.
Arguments Call {A} _ _.

Definition ret {A} (a : A) : prog A := Done (Return a).

Fixpoint pbind {A B} (p : prog A) (k : A → prog B) : prog B :=
  match p with
  | Done (Return a) => k a
  | Done Panic => Done Panic
  | Done Undefined => Done Undefined
  | Call q c => Call q (λ r, pbind (c r) k)
  end.

Definition call (q : request) : prog (response q) := Call q (λ r, Done (Return r)).

Notation "'let*' x := p 'in' k" := (pbind p (λ x, k))
  (at level 10, x name, p at level 100, k at level 200).
Notation "'let*' ' x := p 'in' k" := (pbind p (λ y, match y with x => k end))
  (at level 10, x pattern, p at level 100, k at level 200).

(** ** The objects of the operating system *)

Record file := mkFile { contents : list Z; file_final : bool }.
Record shm := mkShm { counter : Z; shm_final : bool; shm_size : Z }.

Record world := mkWorld {
  directories : list (list Z);
  file_names : gmap (list Z) nat;
  files : list file;
  shm_names : gmap (list Z) nat;
  shms : list shm
}.

Definition set_files w n f := mkWorld (directories w) n f (shm_names w) (shms w).
Definition set_shms w n s := mkWorld (directories w) (file_names w) (files w) n s.
Definition empty_world : world := mkWorld [] ∅ [] ∅ [].

Definition metadata_of (o : file) : Metadata :=
  mkMetadata true (file_final o) (Z.of_nat (length (contents o))).

(** A file of the directory [p] with the name [n]; the separator is a slash. *)
Definition entry (w : world) (p n : list Z) (m : Metadata) : Prop :=
  47 ∉ n ∧ ∃ f o, file_names w !! (p ++ 47 :: n) = Some f ∧ files w !! f = Some o ∧ m = metadata_of o.

(** What is documented about a call. A call that fails changes nothing, with one
    exception: a shared memory object can be left behind by a creation that fails
    after the object was made. *)
Definition documented (w : world) (q : request) (w' : world) : response q → Prop :=
  match q return response q → Prop with
  | DirectoryDoesExist _ => λ _, w' = w
  | DirectoryCreate p => λ r,
      w' = w ∨ r = Ok tt ∧
        w' = mkWorld (p :: directories w) (file_names w) (files w) (shm_names w) (shms w)
  | DirectoryOpen _ => λ _, w' = w
  | DirectoryContents p => λ r,
      w' = w ∧ match r with Ok l => ∀ n m, (n, m) ∈ l ↔ entry w p n m | Err _ => True end
  | FileDoesExist p => λ r,
      w' = w ∧ match r with Ok b => b = bool_decide (is_Some (file_names w !! p)) | Err _ => True end
  | FileCreate p => λ r,
      match r with
      | Ok f => file_names w !! p = None ∧ f = length (files w) ∧
          w' = set_files w (<[p := f]> (file_names w)) (files w ++ [mkFile [] false])
      | Err _ => w' = w
      end
  | FileOpen p => λ r, w' = w ∧ match r with Ok f => file_names w !! p = Some f | Err _ => True end
  | FileMetadata f => λ r,
      w' = w ∧ match r with
        | Ok m => ∃ o, files w !! f = Some o ∧ m = metadata_of o
        | Err _ => True
        end
  | FileWrite f c => λ r,
      match r with
      | Ok n => ∃ o, files w !! f = Some o ∧ 0 ≤ n ≤ Z.of_nat (length c) ∧
          w' = set_files w (file_names w) (<[f := mkFile (take (Z.to_nat n) c) (file_final o)]> (files w))
      | Err _ => w' = w
      end
  | FileSetPermission f => λ r,
      match r with
      | Ok _ => ∃ o, files w !! f = Some o ∧
          w' = set_files w (file_names w) (<[f := mkFile (contents o) true]> (files w))
      | Err _ => w' = w
      end
  | FileRead f n => λ r,
      w' = w ∧ match r with
        | Ok c => ∃ o, files w !! f = Some o ∧ c = take (Z.to_nat n) (contents o)
        | Err _ => True
        end
  | FileRemove p => λ r,
      match r with
      | Ok true => is_Some (file_names w !! p) ∧ w' = set_files w (delete p (file_names w)) (files w)
      | Ok false => file_names w !! p = None ∧ w' = w
      | Err _ => w' = w
      end
  | ShmCreate p n => λ r,
      match r with
      | Ok (d, base) => shm_names w !! p = None ∧ d = length (shms w) ∧
          0 ≤ base ∧ base + n < USIZE ∧
          w' = set_shms w (<[p := d]> (shm_names w)) (shms w ++ [mkShm 0 false n])
      | Err _ => w' = w ∨ shm_names w !! p = None ∧
          w' = set_shms w (<[p := length (shms w)]> (shm_names w)) (shms w ++ [mkShm 0 false n])
      end
  | ShmOpen p => λ r,
      w' = w ∧ match r with
        | Ok (d, n) => shm_names w !! p = Some d ∧ ∃ s, shms w !! d = Some s ∧ n = shm_size s
        | Err _ => True
        end
  | ShmWrite d c => λ _,
      ∃ s, shms w !! d = Some s ∧
        w' = set_shms w (shm_names w) (<[d := mkShm c (shm_final s) (shm_size s)]> (shms w))
  | ShmSetPermission d b => λ r,
      match r with
      | Ok _ => ∃ s, shms w !! d = Some s ∧
          w' = set_shms w (shm_names w) (<[d := mkShm (counter s) b (shm_size s)]> (shms w))
      | Err _ => w' = w
      end
  | ShmPermission d => λ r,
      w' = w ∧ match r with Ok b => ∃ s, shms w !! d = Some s ∧ b = shm_final s | Err _ => True end
  | ShmRemove p => λ r,
      match r with
      | Ok _ => is_Some (shm_names w !! p) ∧ w' = set_shms w (delete p (shm_names w)) (shms w)
      | Err _ => w' = w
      end
  | ShmDoesExist p => λ b, w' = w ∧ (b = true → is_Some (shm_names w !! p))
  | ShmList => λ l, w' = w ∧ ∀ p, p ∈ l → is_Some (shm_names w !! p)
  | CounterLoad d => λ v, w' = w ∧ ∃ s, shms w !! d = Some s ∧ v = counter s
  | CounterCas d cur new => λ r,
      ∃ s, shms w !! d = Some s ∧
        r = (compare_exchange (counter s) cur new).2 ∧
        w' = set_shms w (shm_names w)
               (<[d := mkShm (compare_exchange (counter s) cur new).1 (shm_final s) (shm_size s)]> (shms w))
  | AdaptiveWaitCreate => λ _, w' = w
  | AdaptiveWait => λ _, w' = w
  end.

(** An operating system that does not fail where a service is set up or removed. *)
Definition reliable (w : world) (q : request) (w' : world) : response q → Prop :=
  match q return response q → Prop with
  | FileWrite f c => λ r, is_Some (files w !! f) → r = Ok (Z.of_nat (length c))
  | FileSetPermission f => λ r, is_Some (files w !! f) → r = Ok tt
  | FileRemove _ => λ r, ∃ b, r = Ok b
  | ShmCreate p _ => λ r, match r with Ok _ => True | Err _ => w' = w ∧ is_Some (shm_names w !! p) end
  | ShmSetPermission d _ => λ r, is_Some (shms w !! d) → r = Ok tt
  | ShmRemove p => λ r, is_Some (shm_names w !! p) → r = Ok tt
  | _ => λ _, True
  end.

(** ** Running *)

Section Run.
Context {W : Type} (os : W → ∀ q : request, W * response q).

(** One process alone. *)
Fixpoint run {A} (p : prog A) (w : W) : outcome A * W :=
  match p with
  | Done o => (o, w)
  | Call q k => let '(w, r) := os w q in run (k r) w
  end.

Lemma run_bind {A B} (p : prog A) (k : A → prog B) w :
  run (pbind p k) w =
  match run p w with
  | (Return a, w) => run (k a) w
  | (Panic, w) => (Panic, w)
  | (Undefined, w) => (Undefined, w)
  end.
Proof.
  revert w. induction p as [[a| |]|q c IH]; intros w; cbn; try done.
  destruct (os w q) as [w' r]. apply IH.
Qed.
End Run.

(** ** A concrete operating system *)

Fixpoint strip (p q : list Z) : option (list Z) :=
  match p, q with
  | [], q => Some q
  | _, [] => None
  | a :: p, b :: q => if a =? b then strip p q else None
  end.

Definition entries (w : world) (p : list Z) : list (list Z * Metadata) :=
  omap (λ '(path, f),
    match strip (p ++ [47]) path, files w !! f with
    | Some n, Some o => if bool_decide (47 ∈ n) then None else Some (n, metadata_of o)
    | _, _ => None
    end) (map_to_list (file_names w)).

Lemma strip_spec p q n : strip p q = Some n ↔ q = p ++ n.
Proof.
  revert q. induction p as [|a p IH]; intros [|b q]; cbn; try (by split; intros [=->]); try done.
  destruct (Z.eqb_spec a b) as [->|Hn].
  - rewrite IH. split; [by intros ->|by intros [= ->]].
  - split; [done|]. by intros [= ->].
Qed.

Lemma entries_spec w p n m : (n, m) ∈ entries w p ↔ entry w p n m.
Proof.
  unfold entries, entry. rewrite list_elem_of_omap. split.
  - intros ([path f] & Hin & He). apply elem_of_map_to_list in Hin.
    destruct (strip (p ++ [47]) path) as [n'|] eqn:Es; [|done].
    destruct (files w !! f) as [o|] eqn:Ef; [|done].
    case_bool_decide as Hd; [done|]. injection He as -> <-. apply strip_spec in Es as ->.
    rewrite <- (assoc_L (++)) in Hin. eauto 6.
  - intros (Hd & f & o & Hf & Ho & ->). exists (p ++ 47 :: n, f).
    split; [by apply elem_of_map_to_list|].
    rewrite (proj2 (strip_spec _ _ n)), Ho, bool_decide_eq_false_2 by (done || by rewrite <- (assoc_L (++))).
    done.
Qed.

(** Calls succeed whenever they can; [AdaptiveWait] never runs out of time. *)
Definition exec (w : world) (q : request) : world * response q :=
  match q return world * response q with
  | DirectoryDoesExist p => (w, Ok (bool_decide (p ∈ directories w)))
  | DirectoryCreate p =>
      (mkWorld (p :: directories w) (file_names w) (files w) (shm_names w) (shms w), Ok tt)
  | DirectoryOpen p => (w, if bool_decide (p ∈ directories w) then Ok tt else Err DirectoryOther)
  | DirectoryContents p => (w, Ok (entries w p))
  | FileDoesExist p => (w, Ok (bool_decide (is_Some (file_names w !! p))))
  | FileCreate p =>
      match file_names w !! p with
      | Some _ => (w, Err FileAlreadyExists)
      | None =>
          (set_files w (<[p := length (files w)]> (file_names w)) (files w ++ [mkFile [] false]),
           Ok (length (files w)))
      end
  | FileOpen p => (w, match file_names w !! p with Some f => Ok f | None => Err tt end)
  | FileMetadata f =>
      (w, match files w !! f with
          | Some o => Ok (metadata_of o)
          | None => Err tt
          end)
  | FileWrite f c =>
      match files w !! f with
      | Some o => (set_files w (file_names w) (<[f := mkFile c (file_final o)]> (files w)),
                   Ok (Z.of_nat (length c)))
      | None => (w, Err WriteOther)
      end
  | FileSetPermission f =>
      match files w !! f with
      | Some o => (set_files w (file_names w) (<[f := mkFile (contents o) true]> (files w)), Ok tt)
      | None => (w, Err SetPermissionOther)
      end
  | FileRead f n =>
      (w, match files w !! f with Some o => Ok (take (Z.to_nat n) (contents o)) | None => Err tt end)
  | FileRemove p =>
      match file_names w !! p with
      | Some _ => (set_files w (delete p (file_names w)) (files w), Ok true)
      | None => (w, Ok false)
      end
  | ShmCreate p n =>
      match shm_names w !! p with
      | Some _ => (w, Err AlreadyExist)
      | None =>
          (set_shms w (<[p := length (shms w)]> (shm_names w)) (shms w ++ [mkShm 0 false n]),
           Ok (length (shms w), 0))
      end
  | ShmOpen p =>
      (w, match shm_names w !! p with
          | Some d => match shms w !! d with Some s => Ok (d, shm_size s) | None => Err ShmOther end
          | None => Err DoesNotExist
          end)
  | ShmWrite d c =>
      (match shms w !! d with
       | Some s => set_shms w (shm_names w) (<[d := mkShm c (shm_final s) (shm_size s)]> (shms w))
       | None => w
       end, tt)
  | ShmSetPermission d b =>
      match shms w !! d with
      | Some s => (set_shms w (shm_names w) (<[d := mkShm (counter s) b (shm_size s)]> (shms w)), Ok tt)
      | None => (w, Err tt)
      end
  | ShmPermission d => (w, match shms w !! d with Some s => Ok (shm_final s) | None => Err tt end)
  | ShmRemove p =>
      match shm_names w !! p with
      | Some _ => (set_shms w (delete p (shm_names w)) (shms w), Ok tt)
      | None => (w, Err ShmRemoveDoesNotExist)
      end
  | ShmDoesExist p => (w, bool_decide (is_Some (shm_names w !! p)))
  | ShmList => (w, (map_to_list (shm_names w)).*1)
  | CounterLoad d => (w, match shms w !! d with Some s => counter s | None => 0 end)
  | CounterCas d cur new =>
      match shms w !! d with
      | Some s =>
          let '(c, r) := compare_exchange (counter s) cur new in
          (set_shms w (shm_names w) (<[d := mkShm c (shm_final s) (shm_size s)]> (shms w)), r)
      | None => (w, Err 0)
      end
  | AdaptiveWaitCreate => (w, Ok tt)
  | AdaptiveWait => (w, Ok false)
  end.

(** Accesses to a shared memory object need the object to exist. *)
Definition mapped (w : world) (q : request) : Prop :=
  match q with
  | ShmCreate _ n => n < USIZE
  | ShmWrite d _ | CounterLoad d | CounterCas d _ _ => is_Some (shms w !! d)
  | _ => True
  end.

Lemma exec_documented w q : mapped w q → documented w q (exec w q).1 (exec w q).2.
Proof.
  destruct q; cbn; intros Hm; try done; try (by right); try (by split);
    repeat match goal with |- context [match ?x !! ?y with _ => _ end] => destruct (x !! y) eqn:? end;
    cbn in *; try done; try (destruct Hm as [? Hm]; rewrite ?Hm in *); eauto 6.
  - split; [done|]. intros n m. apply entries_spec.
  - eexists. split; [done|]. split; [lia|]. by rewrite Nat2Z.id, firstn_all.
  - split; [done|]. apply bool_decide_eq_true_1.
  - split; [done|]. intros p ([p' d] & -> & Hin)%list_elem_of_fmap. apply elem_of_map_to_list in Hin. by eexists.
  - eexists. split; [done|]. by destruct (compare_exchange _ _ _).
Qed.

Lemma exec_reliable w q : reliable w q (exec w q).1 (exec w q).2.
Proof.
  destruct q; cbn; try done;
    repeat match goal with |- context [match ?x !! ?y with _ => _ end] => destruct (x !! y) eqn:? end;
    cbn; eauto; by intros [? ?].
Qed.
