(* ===== verification/Storages.v ===== *)
(** * Static and dynamic storages between processes

    - Module [StaticFile]: elkodon_cal/src/static_storage/file.rs, a file that holds
      unmodifiable content. It is created locked, written once and unlocked by giving
      it its final permission.
    - Module [DynamicShm]: elkodon_cal/src/dynamic_storage/posix_shared_memory.rs, a
      value in a shared memory object that every process may modify. Of the value
      only the part the processes coordinate with is followed: a counter.

    The operations are programs over the calls of [Processes]; [drop] is what happens
    when a value goes out of scope, on error paths too. *)

From S2P Require Import Prelude BumpAllocator ByteString SemanticString SystemTypes NamedConcept Processes.

Import Naming.
Import Bytes(FixedSizeByteString).

(** ** Errors *)

Inductive StaticStorageCreateError :=
  StaticAlreadyExists | StaticCreation | StaticWrite | StaticCreateInsufficientPermissions | StaticCreateInternalError.
Inductive StaticStorageOpenError := StaticDoesNotExist | StaticRead | IsLocked | StaticOpenInternalError.
Inductive StaticStorageReadError := BufferTooSmall | ReadError | StaticStorageWasModified.
Inductive StaticStorageUnlockError :=
  UnlockInsufficientPermissions | UnlockNoSpaceLeft | UnlockInternalError.
Inductive DynamicStorageCreateError := AlreadyExists | Creation | InitializationFailed | DynamicCreateInternalError.
Inductive DynamicStorageOpenError := DynamicDoesNotExist | Open | InitializationNotYetFinalized | InternalError.

(** A computation that makes no calls. *)
Definition lift {A} (o : outcome A) : prog A := Done o.

Module StaticFile.
Section Storage.
Context `{P : Profile} {Env : Settings}.

Record Storage := mkStorage {
  s_name : FixedSizeByteString;
  s_config : Configuration;
  s_has_ownership : bool;
  s_file : nat;
  s_len : Z
}.

(** [Locked] holds a [Storage]. *)
Definition Locked := Storage.

Record Builder := mkBuilder {
  storage_name : FixedSizeByteString;
  has_ownership : bool;
  config : Configuration
}.

(** [path_for] as the bytes that are handed to the operating system. *)
Definition storage_path (cfg : Configuration) (name : FixedSizeByteString) : prog (list Z) :=
  let* fp := lift (path_for cfg name) in lift (Bytes.as_bytes fp).

Definition path_bytes (cfg : Configuration) : prog (list Z) := lift (Bytes.as_bytes (path_hint cfg)).

(** ** NamedConceptMgmt *)

Definition remove_cfg (name : FixedSizeByteString) (cfg : Configuration)
    : prog (result bool NamedConceptRemoveError) :=
  let* file_path := storage_path cfg name in
  let* r := call (FileRemove file_path) in
  match r with
  | Ok v => ret (Ok v)
  | Err FileRemoveInsufficientPermissions | Err PartOfReadOnlyFileSystem =>
      ret (Err RemoveInsufficientPermissions)
  | Err _ => ret (Err RemoveInternalError)
  end.

Definition drop (s : Storage) : prog unit :=
  if s_has_ownership s then
    let* _ := remove_cfg (s_name s) (s_config s) in ret tt
  else ret tt.

(** The loop over the entries of the directory; [FileName::from_c_str(..).unwrap()]
    of [Directory::contents] happens before it for every entry. *)
Fixpoint entry_names (entries : list (list Z * Metadata)) : outcome (list (FixedSizeByteString * Metadata)) :=
  match entries with
  | [] => Return []
  | (n, m) :: rest =>
      let! r := Semantic.from_c_str FileName (n ++ [0]) in
      match r with
      | Err _ => Panic
      | Ok name => let! l := entry_names rest in Return ((name, m) :: l)
      end
  end.

Fixpoint list_loop (cfg : Configuration) (entries : list (FixedSizeByteString * Metadata))
    : outcome (list FixedSizeByteString) :=
  match entries with
  | [] => Return []
  | (name, m) :: rest =>
      if is_regular_file m && has_final_permission m then
        let! o := extract_name_from_file cfg name in
        let! l := list_loop cfg rest in
        Return (match o with Some entry_name => entry_name :: l | None => l end)
      else list_loop cfg rest
  end.

Definition list_error (e : DirectoryError) : NamedConceptListError :=
  match e with
  | DirectoryInsufficientPermissions => ListInsufficientPermissions
  | DirectoryOther => ListInternalError
  end.

Definition list_cfg (cfg : Configuration) : prog (result (list FixedSizeByteString) NamedConceptListError) :=
  let* p := path_bytes cfg in
  let* r := call (DirectoryOpen p) in
  match r with
  | Err e => ret (Err (list_error e))
  | Ok _ =>
      let* r := call (DirectoryContents p) in
      match r with
      | Err e => ret (Err (list_error e))
      | Ok entries =>
          let* entries := lift (entry_names entries) in
          let* l := lift (list_loop cfg entries) in
          ret (Ok l)
      end
  end.

Definition does_exist_cfg (name : FixedSizeByteString) (cfg : Configuration)
    : prog (result bool NamedConceptDoesExistError) :=
  let* adjusted_path := storage_path cfg name in
  let* r := call (FileDoesExist adjusted_path) in
  match r with
  | Ok false => ret (Ok false)
  | Err _ => ret (Err UnderlyingResourcesCorrupted)
  | Ok true =>
      let* r := call (FileOpen adjusted_path) in
      match r with
      | Err _ => ret (Err UnderlyingResourcesCorrupted)
      | Ok file =>
          let* r := call (FileMetadata file) in
          match r with
          | Err _ => ret (Err UnderlyingResourcesCorrupted)
          | Ok m =>
              if is_regular_file m && has_final_permission m then ret (Ok true)
              else ret (Err UnderlyingResourcesBeingSetUp)
          end
      end
  end.

(** ** StaticStorage *)

Definition release_ownership (s : Storage) : Storage :=
  mkStorage (s_name s) (s_config s) false (s_file s) (s_len s).
Definition acquire_ownership (s : Storage) : Storage :=
  mkStorage (s_name s) (s_config s) true (s_file s) (s_len s).
Definition is_empty (s : Storage) : bool := s_len s =? 0.

(** [read] into a buffer; answers the content of the buffer afterwards. *)
Definition read (s : Storage) (content : list Z) : prog (result unit StaticStorageReadError * list Z) :=
  let n := Z.of_nat (length content) in
  if n <? s_len s then ret (Err BufferTooSmall, content)
  else
    let* r := call (FileRead (s_file s) n) in
    match r with
    | Err _ => ret (Err ReadError, content)
    | Ok bytes =>
        let content := bytes ++ skipn (length bytes) content in
        if negb (Z.of_nat (length bytes) =? s_len s) then ret (Err StaticStorageWasModified, content)
        else ret (Ok tt, content)
    end.

(** [unlock] consumes the locked storage: it is dropped when an error is returned. *)
Definition unlock (l : Locked) (contents : list Z) : prog (result Storage StaticStorageUnlockError) :=
  let* r := call (FileWrite (s_file l) contents) in
  match r with
  | Err e =>
      let* _ := drop l in
      ret (Err match e with
               | WriteInsufficientPermissions => UnlockInsufficientPermissions
               | NoSpaceLeft => UnlockNoSpaceLeft
               | WriteOther => UnlockInternalError
               end)
  | Ok bytes_written =>
      if negb (bytes_written =? Z.of_nat (length contents)) then
        let* _ := drop l in ret (Err UnlockNoSpaceLeft)
      else
        let* r := call (FileSetPermission (s_file l)) in
        match r with
        | Err e =>
            let* _ := drop l in
            ret (Err match e with
                     | SetPermissionInsufficientPermissions => UnlockInsufficientPermissions
                     | SetPermissionOther => UnlockInternalError
                     end)
        | Ok _ =>
            ret (Ok (mkStorage (s_name l) (s_config l) (s_has_ownership l) (s_file l)
                       (Z.of_nat (length contents))))
        end
  end.

(** ** Builder *)

(** [NamedConceptBuilder::new] with [config] and [has_ownership] set afterwards. *)
Definition new (name : FixedSizeByteString) (default : Configuration) : Builder := mkBuilder name true default.
Definition set_config (b : Builder) (cfg : Configuration) : Builder :=
  mkBuilder (storage_name b) (has_ownership b) cfg.
Definition set_has_ownership (b : Builder) (value : bool) : Builder :=
  mkBuilder (storage_name b) value (config b).

Definition create_locked (b : Builder) : prog (result Locked StaticStorageCreateError) :=
  let* p := path_bytes (config b) in
  let* r := call (DirectoryDoesExist p) in
  let* r :=
    match r with
    | Err _ => ret (Err tt)
    | Ok true => ret (Ok tt)
    | Ok false => call (DirectoryCreate p)
    end in
  match r with
  | Err _ => ret (Err StaticCreation)
  | Ok _ =>
      let* file_path := storage_path (config b) (storage_name b) in
      let* r := call (FileCreate file_path) in
      match r with
      | Err FileAlreadyExists => ret (Err StaticAlreadyExists)
      | Err FileCreateInsufficientPermissions => ret (Err StaticCreateInsufficientPermissions)
      | Err FileCreateOther => ret (Err StaticCreation)
      | Ok file => ret (Ok (mkStorage (storage_name b) (config b) (has_ownership b) file 0))
      end
  end.

Definition open (b : Builder) : prog (result Storage StaticStorageOpenError) :=
  let* file_path := storage_path (config b) (storage_name b) in
  let* r := call (FileOpen file_path) in
  match r with
  | Err _ => ret (Err StaticDoesNotExist)
  | Ok file =>
      let* r := call (FileMetadata file) in
      match r with
      | Err _ => ret (Err StaticRead)
      | Ok m =>
          if negb (has_final_permission m) then ret (Err IsLocked)
          else ret (Ok (mkStorage (storage_name b) (config b) (has_ownership b) file (file_size m)))
      end
  end.

(** [create]: locked and unlocked in one go (the default method of the trait). *)
Definition create (b : Builder) (contents : list Z)
    : prog (result Storage StaticStorageCreateError) :=
  let* r := create_locked b in
  match r with
  | Err e => ret (Err e)
  | Ok l =>
      let* r := unlock l contents in
      match r with Ok s => ret (Ok s) | Err _ => ret (Err StaticWrite) end
  end.
End Storage.
End StaticFile.

Module DynamicShm.
Section Storage.
Context `{P : Profile} {Env : Settings}.
(** [size_of::<T>()] *)
Context (size_of_T : Z).

Record SharedMemory := mkSharedMemory {
  shm_name : list Z;
  shm_object : nat;
  shm_len : Z;
  shm_has_ownership : bool
}.

Record Storage := mkStorage { d_shm : SharedMemory; d_name : FixedSizeByteString }.

Record Builder := mkBuilder {
  storage_name : FixedSizeByteString;
  supplementary_size : Z;
  has_ownership : bool;
  config : Configuration
}.

(** [Drop] of the shared memory of elkodon_bb/posix. *)
Definition shm_drop (s : SharedMemory) : prog unit :=
  if shm_has_ownership s then let* _ := call (ShmRemove (shm_name s)) in ret tt else ret tt.

Definition drop (s : Storage) : prog unit := shm_drop (d_shm s).

Definition storage_full_name (cfg : Configuration) (name : FixedSizeByteString) : prog (list Z) :=
  let* n := lift (full_name cfg name) in lift (Bytes.as_bytes n).

(** ** Builder *)

Definition new (name : FixedSizeByteString) (default : Configuration) : Builder :=
  mkBuilder name 0 true default.
Definition set_config (b : Builder) (cfg : Configuration) : Builder :=
  mkBuilder (storage_name b) (supplementary_size b) (has_ownership b) cfg.
Definition set_has_ownership (b : Builder) (value : bool) : Builder :=
  mkBuilder (storage_name b) (supplementary_size b) value (config b).
Definition set_supplementary_size (b : Builder) (value : Z) : Builder :=
  mkBuilder (storage_name b) value (has_ownership b) (config b).

(** [initial_counter] is the counter of [initial_value]; the initializer gets the
    memory behind the value. *)
Definition create_and_initialize (b : Builder) (initial_counter : Z)
    (initializer : BumpAllocator → outcome bool) : prog (result Storage DynamicStorageCreateError) :=
  let* name := storage_full_name (config b) (storage_name b) in
  let* n := lift (uadd size_of_T (supplementary_size b)) in
  let* r := call (ShmCreate name n) in
  match r with
  | Err AlreadyExist => ret (Err AlreadyExists)
  | Err _ => ret (Err Creation)
  | Ok (d, base) =>
      let shm := mkSharedMemory name d n (has_ownership b) in
      let* _ := call (ShmWrite d initial_counter) in
      let* supplementary_start := lift (uadd base size_of_T) in
      let* supplementary_len := lift (usub n size_of_T) in
      let* ok := lift (initializer (BumpAllocator.new supplementary_start supplementary_len)) in
      if negb ok then
        let* r := call (ShmSetPermission d false) in
        let* _ := shm_drop shm in
        match r with
        | Err _ => ret (Err Creation)
        | Ok _ => ret (Err InitializationFailed)
        end
      else
        let* r := call (ShmSetPermission d true) in
        match r with
        | Err _ => let* _ := shm_drop shm in ret (Err Creation)
        | Ok _ => ret (Ok (mkStorage shm (storage_name b)))
        end
  end.

Definition create (b : Builder) (initial_counter : Z) : prog (result Storage DynamicStorageCreateError) :=
  create_and_initialize b initial_counter (λ _, Return true).

Definition try_open (b : Builder) : prog (result Storage DynamicStorageOpenError) :=
  let* name := storage_full_name (config b) (storage_name b) in
  let* r := call (ShmOpen name) in
  match r with
  | Err DoesNotExist => ret (Err DynamicDoesNotExist)
  | Err InsufficientPermissions => ret (Err InitializationNotYetFinalized)
  | Err _ => ret (Err Open)
  | Ok (d, n) =>
      let shm := mkSharedMemory name d n false in
      let* r := call (ShmPermission d) in
      match r with
      | Err _ => let* _ := shm_drop shm in ret (Err InternalError)
      | Ok final =>
          if negb final then let* _ := shm_drop shm in ret (Err InitializationNotYetFinalized)
          else
            let* required_size := lift (uadd size_of_T (supplementary_size b)) in
            if n <? required_size then let* _ := shm_drop shm in ret (Err InternalError)
            else ret (Ok (mkStorage shm (storage_name b)))
      end
  end.

(** [open] differs from [try_open] in what it logs. *)
Definition open (b : Builder) : prog (result Storage DynamicStorageOpenError) :=
  let* r := try_open b in
  match r with
  | Err DynamicDoesNotExist => ret (Err DynamicDoesNotExist)
  | Err InitializationNotYetFinalized => ret (Err InitializationNotYetFinalized)
  | Err e => ret (Err e)
  | Ok s => ret (Ok s)
  end.

(** ** NamedConceptMgmt *)

Definition does_exist_cfg (name : FixedSizeByteString) (cfg : Configuration)
    : prog (result bool NamedConceptDoesExistError) :=
  let* n := storage_full_name cfg name in
  let* b := (call (ShmDoesExist n) : prog bool) in
  ret (Ok b).

(** The entries are those [SharedMemory::list] could make a file name of. *)
Fixpoint list_loop (cfg : Configuration) (entries : list (list Z)) : outcome (list FixedSizeByteString) :=
  match entries with
  | [] => Return []
  | bytes :: rest =>
      let! r := Semantic.from_c_str FileName (bytes ++ [0]) in
      match r with
      | Err _ => list_loop cfg rest
      | Ok entry =>
          let! o := extract_name_from_file cfg entry in
          let! l := list_loop cfg rest in
          Return (match o with Some entry_name => entry_name :: l | None => l end)
      end
  end.

Definition list_cfg (cfg : Configuration) : prog (result (list FixedSizeByteString) NamedConceptListError) :=
  let* entries := call ShmList in
  let* l := lift (list_loop cfg entries) in
  ret (Ok l).

Definition remove_cfg (name : FixedSizeByteString) (cfg : Configuration)
    : prog (result bool NamedConceptRemoveError) :=
  let* n := storage_full_name cfg name in
  let* r := call (ShmRemove n) in
  match r with
  | Ok _ => ret (Ok true)
  | Err ShmRemoveDoesNotExist => ret (Ok false)
  | Err ShmRemoveInsufficientPermissions => ret (Err RemoveInsufficientPermissions)
  | Err ShmRemoveOther => ret (Err RemoveInternalError)
  end.

(** ** DynamicStorage *)

Definition set_ownership (s : Storage) (value : bool) : Storage :=
  mkStorage (mkSharedMemory (shm_name (d_shm s)) (shm_object (d_shm s)) (shm_len (d_shm s)) value)
    (d_name s).
Definition acquire_ownership (s : Storage) : Storage := set_ownership s true.
Definition release_ownership (s : Storage) : Storage := set_ownership s false.
End Storage.
End DynamicShm.
