(* ===== verification/LocalStorages.v ===== *)
(** * Static and dynamic storages within a process

    - elkodon_cal/src/static_storage/process_local.rs ([Module LocalStatic]): content
      that is written once;
    - elkodon_cal/src/dynamic_storage/process_local.rs ([Module LocalDynamic]): a value
      on the heap that everybody may modify.

    Both keep their objects in a [Registry]. The counterparts between processes are in
    [Storages]; the errors are the same. *)

From S2P Require Import Prelude Elementary BumpAllocator ByteString SemanticString SystemTypes NamedConcept Storages LocalRegistry.

Import Bytes(FixedSizeByteString).
Import Naming.

(** ** static_storage/process_local.rs *)

Module LocalStatic.
Record StorageContent := mkContent { is_locked : bool; value : list Z }.
Definition Entries := Registry.Registry StorageContent.

(** [s_content] is the [Arc] of the storage. *)
Record Storage := mkStorage {
  s_name : FixedSizeByteString;
  s_has_ownership : bool;
  s_config : Configuration;
  s_content : nat
}.
Definition Locked := Storage.

Record Builder := mkBuilder { name : FixedSizeByteString; has_ownership : bool; config : Configuration }.
Definition builder_new (storage_name : FixedSizeByteString) (default : Configuration) : Builder :=
  mkBuilder storage_name true default.
Definition set_has_ownership (b : Builder) (v : bool) : Builder := mkBuilder (name b) v (config b).
Definition set_config (b : Builder) (c : Configuration) : Builder := mkBuilder (name b) (has_ownership b) c.

Section Operations.
Context `{P : Profile} {Env : Settings}.
(** Whether the lock can be acquired. *)
Context (lock : bool).
Implicit Types (s : Entries) (b : Builder) (st : Storage).

Definition remove_cfg s storage_name cfg : outcome (bool * Entries) := Registry.remove_cfg lock cfg s storage_name.
Definition list_cfg s cfg : outcome (list FixedSizeByteString) := Registry.list_cfg lock cfg s.

Definition does_exist_cfg s storage_name cfg : outcome (result bool NamedConceptDoesExistError) :=
  if negb lock then Panic
  else
    let! k := Registry.key cfg storage_name in
    match Registry.lookup s k with
    | None => Return (Ok false)
    | Some a =>
        let! v := Registry.get s a in
        if is_locked v then Return (Err UnderlyingResourcesBeingSetUp) else Return (Ok true)
    end.

Definition drop st s : outcome Entries :=
  if s_has_ownership st then let! '(_, s) := remove_cfg s (s_name st) (s_config st) in Return s else Return s.

Definition create_locked b s : outcome (result Locked StaticStorageCreateError * Entries) :=
  if negb lock then Return (Err StaticCreateInternalError, s)
  else
    let! k := Registry.key (config b) (name b) in
    match Registry.lookup s k with
    | Some _ => Return (Err StaticAlreadyExists, s)
    | None =>
        Return (Ok (mkStorage (name b) (has_ownership b) (config b) (length (Registry.objects s))),
                Registry.insert_new s k (mkContent true []))
    end.

(** On an error the locked storage is dropped. *)
Definition unlock (l : Locked) (contents : list Z) s : outcome (result Storage StaticStorageUnlockError * Entries) :=
  if negb lock then let! s := drop l s in Return (Err UnlockInternalError, s)
  else
    let! k := Registry.key (s_config l) (s_name l) in
    match Registry.lookup s k with
    | None => Panic
    | Some _ => Return (Ok l, Registry.insert_new s k (mkContent false contents))
    end.

Definition create b (contents : list Z) s : outcome (result Storage StaticStorageCreateError * Entries) :=
  let! '(r, s) := create_locked b s in
  match r with
  | Err e => Return (Err e, s)
  | Ok l =>
      let! '(r, s) := unlock l contents s in
      match r with Ok st => Return (Ok st, s) | Err _ => Return (Err StaticWrite, s) end
  end.

Definition open b s : outcome (result Storage StaticStorageOpenError * Entries) :=
  if negb lock then Return (Err StaticOpenInternalError, s)
  else
    let! k := Registry.key (config b) (name b) in
    match Registry.lookup s k with
    | None => Return (Err StaticDoesNotExist, s)
    | Some a =>
        let! v := Registry.get s a in
        if is_locked v then Return (Err IsLocked, s)
        else Return (Ok (mkStorage (name b) (has_ownership b) (config b) a), s)
    end.

Definition len st s : outcome Z := let! v := Registry.get s (s_content st) in Return (Z.of_nat (length (value v))).
Definition is_empty st s : outcome bool := let! v := Registry.get s (s_content st) in Return (bool_decide (value v = [])).

(** [clone_from_slice] panics if the lengths differ. *)
Definition read st (content : list Z) s : outcome (result unit StaticStorageReadError * list Z) :=
  let! v := Registry.get s (s_content st) in
  if (length content <? length (value v))%nat then Return (Err BufferTooSmall, content)
  else if (length content =? length (value v))%nat then Return (Ok tt, value v) else Panic.

Definition release_ownership st : Storage := mkStorage (s_name st) false (s_config st) (s_content st).
Definition acquire_ownership st : Storage := mkStorage (s_name st) true (s_config st) (s_content st).
End Operations.

Section Theorems.
Context `{P : Profile} {Env : Settings}.
Implicit Types (s : Entries) (b : Builder) (st : Storage).

#[local] Ltac step_registry :=
  repeat first [rewrite Registry.lookup_insert_new|rewrite Registry.get_insert_new|progress cbn [obind negb is_locked value]].

(** The life of a static storage in a process: created locked it is there, but cannot
    be opened or created again; unlocked it exists and can be opened, and whoever opens it
    reads exactly the contents, with a buffer of their length. A smaller buffer is
    refused; a larger one, which the trait allows, panics. *)
Theorem local_static_round_trip b k s contents buffer :
  Registry.key (config b) (name b) = Return k → Registry.lookup s k = None →
  ∃ l s1 st s2 r,
    create_locked true b s = Return (Ok l, s1) ∧
    create_locked true b s1 = Return (Err StaticAlreadyExists, s1) ∧ open true b s1 = Return (Err IsLocked, s1) ∧
    does_exist_cfg true s1 (name b) (config b) = Return (Err UnderlyingResourcesBeingSetUp) ∧
    unlock true l contents s1 = Return (Ok st, s2) ∧
    does_exist_cfg true s2 (name b) (config b) = Return (Ok true) ∧
    open true b s2 = Return (Ok r, s2) ∧ len r s2 = Return (Z.of_nat (length contents)) ∧
    read r buffer s2 =
      match (length buffer ?= length contents)%nat with
      | Lt => Return (Err BufferTooSmall, buffer)
      | Eq => Return (Ok tt, contents)
      | Gt => Panic
      end.
Proof.
  intros Hk Hs.
  set (l := mkStorage (name b) (has_ownership b) (config b) (length (Registry.objects s))).
  set (s1 := Registry.insert_new s k (mkContent true [])).
  exists l, s1, l, (Registry.insert_new s1 k (mkContent false contents)).
  exists (mkStorage (name b) (has_ownership b) (config b) (length (Registry.objects s1))).
  unfold create_locked, open, does_exist_cfg, unlock, len, read. cbn [negb s_content s_config s_name l].
  rewrite Hk. cbn [obind]. rewrite Hs. unfold s1. step_registry. split_and!; try done.
  destruct (Nat.compare_spec (length buffer) (length contents)) as [He|Hlt|Hgt].
  - by rewrite (proj2 (Nat.ltb_ge _ _)), (proj2 (Nat.eqb_eq _ _)) by lia.
  - by rewrite (proj2 (Nat.ltb_lt _ _)) by lia.
  - by rewrite (proj2 (Nat.ltb_ge _ _)), (proj2 (Nat.eqb_neq _ _)) by lia.
Qed.

(** The creator does not see what it has written: [unlock] puts new content into the
    registry and returns the storage with the old one, which stays empty; and a reader
    that is opened with the defaults owns the storage, so that it is gone when the
    reader is. *)
Theorem local_static_creator_sees_nothing b k s contents :
  Registry.key (config b) (name b) = Return k → Registry.lookup s k = None → has_ownership b = true → contents ≠ [] →
  ∃ st s1 r s2,
    create true b contents s = Return (Ok st, s1) ∧ is_empty st s1 = Return true ∧
    read st [] s1 = Return (Ok tt, []) ∧
    open true b s1 = Return (Ok r, s1) ∧ is_empty r s1 = Return false ∧
    drop true r s1 = Return s2 ∧ does_exist_cfg true s2 (name b) (config b) = Return (Ok false).
Proof.
  intros Hk Hs Ho Hc. set (l := mkStorage (name b) (has_ownership b) (config b) (length (Registry.objects s))).
  set (s1 := Registry.insert_new s k (mkContent true [])). set (s2 := Registry.insert_new s1 k (mkContent false contents)).
  exists l, s2, (mkStorage (name b) (has_ownership b) (config b) (length (Registry.objects s1))), (Registry.remove s2 k).
  unfold create, create_locked, unlock, open, is_empty, read, drop, remove_cfg, Registry.remove_cfg, does_exist_cfg.
  cbn [negb s_config s_name s_content s_has_ownership l]. rewrite ?Hk, ?Ho. cbn [obind]. rewrite Hs. unfold s2, s1.
  step_registry. cbn [s_config s_name s_content s_has_ownership l]. rewrite ?Hk, ?Ho. step_registry.
  rewrite (Registry.get_insert_new_old _ _ _ _ _ (Registry.get_insert_new s k (mkContent true []))). step_registry.
  split_and!; unfold l; rewrite ?Ho; try done.
  - by rewrite bool_decide_eq_false_2.
  - unfold Registry.lookup, Registry.remove. cbn. by rewrite lookup_delete_eq.
Qed.
End Theorems.
End LocalStatic.

(** ** dynamic_storage/process_local.rs *)

Module LocalDynamic.
Section Types.
Context {T : Type}.

(** [type_id] stands for the type that [downcast] compares. *)
Record StorageDetails := mkDetails { content : T; data_ptr : Z; layout : Layout; type_id : Z }.
Definition Entries := Registry.Registry StorageDetails.

(** [d_data] is the [Arc]. *)
Record Storage := mkStorage {
  d_name : FixedSizeByteString;
  d_data : nat;
  d_has_ownership : bool;
  d_config : Configuration
}.

Record Builder := mkBuilder {
  name : FixedSizeByteString;
  supplementary_size : Z;
  has_ownership : bool;
  config : Configuration
}.
End Types.
Arguments StorageDetails T : clear implicits.
Arguments Entries T : clear implicits.

Definition builder_new (storage_name : FixedSizeByteString) (default : Configuration) : Builder :=
  mkBuilder storage_name 0 true default.
Definition set_has_ownership (b : Builder) (v : bool) : Builder := mkBuilder (name b) (supplementary_size b) v (config b).
Definition set_supplementary_size (b : Builder) (v : Z) : Builder := mkBuilder (name b) v (has_ownership b) (config b).
Definition set_config (b : Builder) (c : Configuration) : Builder :=
  mkBuilder (name b) (supplementary_size b) (has_ownership b) c.

Section Operations.
Context `{P : Profile} {Env : Settings} {T : Type}.
(** Whether the lock can be acquired; the type [T]; what the heap answers. *)
Context (lock : bool) (layout_of_T : Layout) (type_of_T : Z) (heap : Layout → option Z).
Implicit Types (s : Entries T) (b : Builder) (st : Storage).

Definition details_new (v : T) (additional_size : Z) : outcome (StorageDetails T) :=
  let! size := uadd (l_size layout_of_T) additional_size in
  let layout := mkLayout size (l_align layout_of_T) in
  match heap layout with None => Panic | Some p => Return (mkDetails v p layout type_of_T) end.

Definition does_exist_cfg s storage_name cfg : outcome bool := Registry.does_exist_cfg lock cfg s storage_name.
Definition list_cfg s cfg : outcome (list FixedSizeByteString) := Registry.list_cfg lock cfg s.
Definition remove_cfg s storage_name cfg : outcome (bool * Entries T) := Registry.remove_cfg lock cfg s storage_name.

Definition acquire_ownership st : Storage := mkStorage (d_name st) (d_data st) true (d_config st).
Definition release_ownership st : Storage := mkStorage (d_name st) (d_data st) false (d_config st).

(** The reference of [get], to read the value and to change it. *)
Definition get st s : outcome T := let! d := Registry.get s (d_data st) in Return (content d).
Definition modify st (v : T) s : outcome (Entries T) :=
  let! d := Registry.get s (d_data st) in
  Return (Registry.update s (d_data st) (mkDetails v (data_ptr d) (layout d) (type_id d))).

Definition drop st s : outcome (Entries T) :=
  if d_has_ownership st then
    let! '(removed, s) := remove_cfg s (d_name st) (d_config st) in
    if removed : bool then Return s else Panic
  else Return s.

(** [downcast] to another type fails, and [unwrap] panics. *)
Definition try_open b s : outcome (result Storage DynamicStorageOpenError * Entries T) :=
  if negb lock then Return (Err InternalError, s)
  else
    let! full_path := Registry.key (config b) (name b) in
    match Registry.lookup s full_path with
    | None => Return (Err DynamicDoesNotExist, s)
    | Some a =>
        let! d := Registry.get s a in
        if type_id d =? type_of_T then Return (Ok (mkStorage (name b) a false (config b)), s) else Panic
    end.

Definition open b s : outcome (result Storage DynamicStorageOpenError * Entries T) :=
  let! '(r, s) := try_open b s in
  match r with
  | Err DynamicDoesNotExist => Return (Err DynamicDoesNotExist, s)
  | Err e => Return (Err e, s)
  | Ok st => Return (Ok st, s)
  end.

Definition create_and_initialize b (initial_value : T) (initializer : T → BumpAllocator → outcome (bool * T)) s
    : outcome (result Storage DynamicStorageCreateError * Entries T) :=
  if negb lock then Return (Err DynamicCreateInternalError, s)
  else
    let! full_path := Registry.key (config b) (name b) in
    match Registry.lookup s full_path with
    | Some _ => Return (Err AlreadyExists, s)
    | None =>
        let! d := details_new initial_value (supplementary_size b) in
        let! supplementary_start := uadd (data_ptr d) (l_size layout_of_T) in
        let! '(ok, v) := initializer (content d) (BumpAllocator.new supplementary_start (supplementary_size b)) in
        if negb ok then Return (Err InitializationFailed, s)
        else
          let a := length (Registry.objects s) in
          Return (Ok (mkStorage (name b) a (has_ownership b) (config b)),
                  Registry.insert_new s full_path (mkDetails v (data_ptr d) (layout d) (type_id d)))
    end.

Definition create b (initial_value : T) s :=
  create_and_initialize b initial_value (λ v _, Return (true, v)) s.
End Operations.

Section Theorems.
Context `{P : Profile} {Env : Settings} {T : Type} (layout_of_T : Layout) (type_of_T : Z) (heap : Layout → option Z).
Implicit Types (s : Entries T) (b : Builder) (st : Storage) (v : T).

#[local] Notation create_and_initialize := (create_and_initialize true layout_of_T type_of_T heap).
#[local] Notation try_open := (try_open true type_of_T).

Lemma create_ok b k s v initializer p v' :
  Registry.key (config b) (name b) = Return k → Registry.lookup s k = None →
  0 ≤ l_size layout_of_T → 0 ≤ supplementary_size b →
  heap (mkLayout (l_size layout_of_T + supplementary_size b) (l_align layout_of_T)) = Some p →
  0 ≤ p → p + l_size layout_of_T + supplementary_size b < USIZE →
  let d := mkDetails v' p (mkLayout (l_size layout_of_T + supplementary_size b) (l_align layout_of_T)) type_of_T in
  initializer v (BumpAllocator.new (p + l_size layout_of_T) (supplementary_size b)) = Return (true, v') →
  create_and_initialize b v initializer s =
    Return (Ok (mkStorage (name b) (length (Registry.objects s)) (has_ownership b) (config b)), Registry.insert_new s k d).
Proof.
  intros Hk Hs H0 H1 Hh Hp Hb d Hi. unfold LocalDynamic.create_and_initialize, details_new. cbn [negb]. rewrite Hk. cbn [obind].
  rewrite Hs, uadd_ok by lia. cbn [obind]. rewrite Hh. cbn [obind data_ptr content layout type_id].
  rewrite uadd_ok by lia. cbn [obind]. by rewrite Hi.
Qed.

(** The value of a dynamic storage is shared: everybody who opens it gets the value
    the initializer has left, sees what others write, and does not own it. When the owner
    is dropped the name is free at once, those who have it open keep the value, and a new
    storage under the name is another one. *)
Theorem local_dynamic_shared b k s v initializer p v' w x :
  Registry.key (config b) (name b) = Return k → Registry.lookup s k = None → has_ownership b = true →
  0 ≤ l_size layout_of_T → 0 ≤ supplementary_size b →
  heap (mkLayout (l_size layout_of_T + supplementary_size b) (l_align layout_of_T)) = Some p →
  0 ≤ p → p + l_size layout_of_T + supplementary_size b < USIZE →
  initializer v (BumpAllocator.new (p + l_size layout_of_T) (supplementary_size b)) = Return (true, v') →
  ∃ st r s1 s2 s3 st2 s4,
    create_and_initialize b v initializer s = Return (Ok st, s1) ∧
    create_and_initialize b v initializer s1 = Return (Err AlreadyExists, s1) ∧
    try_open b s1 = Return (Ok r, s1) ∧ get r s1 = Return v' ∧
    modify r w s1 = Return s2 ∧ get st s2 = Return w ∧ drop true r s2 = Return s2 ∧
    drop true st s2 = Return s3 ∧ does_exist_cfg true s3 (name b) (config b) = Return false ∧
    get r s3 = Return w ∧
    create true layout_of_T type_of_T heap b x s3 = Return (Ok st2, s4) ∧ get st2 s4 = Return x ∧ get r s4 = Return w.
Proof.
  intros Hk Hs Ho H0 H1 Hh Hp Hb Hi. pose proof (create_ok b k s v initializer p v' Hk Hs H0 H1 Hh Hp Hb Hi) as Hc.
  set (d := mkDetails v' p _ type_of_T) in Hc. set (s1 := Registry.insert_new s k d) in *.
  set (a := length (Registry.objects s)) in *. set (d2 := mkDetails w p (layout d) type_of_T).
  set (s2 := Registry.update s1 a d2). set (s3 := Registry.remove s2 k).
  assert (Registry.get s2 a = Return d2) as Hg2.
  { unfold Registry.get, s2, Registry.update, s1, Registry.insert_new. cbn.
    rewrite list_lookup_insert_eq; [done|]. rewrite length_app. cbn. unfold a. lia. }
  assert (Registry.lookup s3 k = None) as Hfree by (unfold Registry.lookup, s3, Registry.remove; cbn; apply lookup_delete_eq).
  pose proof (create_ok b k s3 x (λ v _, Return (true, v)) p x Hk Hfree H0 H1 Hh Hp Hb eq_refl) as Hc2.
  exists (mkStorage (name b) a (has_ownership b) (config b)), (mkStorage (name b) a false (config b)), s1, s2, s3.
  do 2 eexists. split; [exact Hc|].
  assert (Registry.lookup s1 k = Some a) as Hl1 by apply Registry.lookup_insert_new.
  assert (Registry.get s1 a = Return d) as Hg1 by apply Registry.get_insert_new.
  assert (Registry.lookup s2 k = Some a) as Hl2 by exact Hl1. assert (Registry.get s3 a = Return d2) as Hg3 by exact Hg2.
  split_and!; [..|exact Hc2| |]; unfold LocalDynamic.create_and_initialize, LocalDynamic.try_open, get, modify, drop,
    remove_cfg, Registry.remove_cfg, does_exist_cfg, Registry.does_exist_cfg;
    cbn [negb d_data d_has_ownership d_name d_config]; rewrite ?Hk, ?Ho; cbn [obind];
    rewrite ?Hl1, ?Hl2, ?Hfree, ?Hg1, ?Hg2, ?Hg3; cbn [obind type_id d content data_ptr]; rewrite ?Z.eqb_refl; try done.
  - by rewrite Registry.get_insert_new.
  - by rewrite (Registry.get_insert_new_old _ _ _ _ _ Hg3).
Qed.

(** An initializer gets the memory behind the value: its allocator starts right after
    it, has the supplementary size and ends with the allocation; if it fails, the creation
    fails and the name stays free. A storage with two owners panics when the second one
    is dropped. *)
Theorem local_dynamic_initializer b k s v initializer p v' :
  Registry.key (config b) (name b) = Return k → Registry.lookup s k = None →
  0 ≤ l_size layout_of_T → 0 ≤ supplementary_size b →
  heap (mkLayout (l_size layout_of_T + supplementary_size b) (l_align layout_of_T)) = Some p →
  0 ≤ p → p + l_size layout_of_T + supplementary_size b < USIZE →
  let allocator := BumpAllocator.new (p + l_size layout_of_T) (supplementary_size b) in
  (start allocator + size allocator = p + (l_size layout_of_T + supplementary_size b)) ∧
  (initializer v allocator = Return (false, v') →
     create_and_initialize b v initializer s = Return (Err InitializationFailed, s)) ∧
  (initializer v allocator = Return (true, v') → has_ownership b = true →
     ∃ st r s1 s2, create_and_initialize b v initializer s = Return (Ok st, s1) ∧ try_open b s1 = Return (Ok r, s1) ∧
       drop true st s1 = Return s2 ∧ drop true (acquire_ownership r) s2 = Panic).
Proof.
  intros Hk Hs H0 H1 Hh Hp Hb allocator. split_and!.
  - cbn. lia.
  - intros Hi. unfold LocalDynamic.create_and_initialize, details_new. cbn [negb]. rewrite Hk. cbn [obind].
    rewrite Hs, uadd_ok by lia. cbn [obind]. rewrite Hh. cbn [obind data_ptr content layout type_id].
    rewrite uadd_ok by lia. cbn [obind]. unfold allocator in Hi. by rewrite Hi.
  - intros Hi Ho. pose proof (create_ok b k s v initializer p v' Hk Hs H0 H1 Hh Hp Hb Hi) as Hc.
    eexists _, _, _, _. split; [exact Hc|]. unfold LocalDynamic.try_open, drop, remove_cfg, Registry.remove_cfg.
    cbn [negb d_data d_has_ownership d_name d_config acquire_ownership]. rewrite Hk, Ho. cbn [obind].
    rewrite Registry.lookup_insert_new, Registry.get_insert_new. cbn [obind type_id]. rewrite Z.eqb_refl.
    split; [done|]. cbn [d_name d_config acquire_ownership]. split; [done|]. rewrite Hk. cbn [obind].
    unfold Registry.lookup, Registry.remove. cbn. by rewrite lookup_delete_eq.
Qed.
End Theorems.
End LocalDynamic.

(** ** Witnesses *)

Section Witnesses.
#[local] Instance checked : Profile := true.
#[local] Existing Instance settings_unix.

Lemma some_name : ∃ cfg storage_name k, Registry.key cfg storage_name = Return k.
Proof.
  destruct default_config_ok as (cfg & storage_name & _ & Hn & Hc). do 3 eexists.
  apply (Registry.key_ok _ _ _ _ _ Hc Hn). vm_compute. discriminate.
Qed.

Lemma local_static_round_trip_witness :
  ∃ b l s1 st s2 r, LocalStatic.create_locked true b Registry.empty_registry = Return (Ok l, s1) ∧
    LocalStatic.unlock true l [1; 2; 3] s1 = Return (Ok st, s2) ∧ LocalStatic.open true b s2 = Return (Ok r, s2) ∧
    LocalStatic.read r [0; 0; 0] s2 = Return (Ok tt, [1; 2; 3]).
Proof.
  destruct some_name as (cfg & storage_name & k & Hk).
  destruct (LocalStatic.local_static_round_trip (LocalStatic.builder_new storage_name cfg) k Registry.empty_registry [1; 2; 3] [0; 0; 0] Hk eq_refl)
    as (l & s1 & st & s2 & r & H1 & _ & _ & _ & H2 & _ & H3 & _ & H4).
  do 6 eexists. exact (conj H1 (conj H2 (conj H3 H4))).
Defined.

Lemma local_static_creator_sees_nothing_witness :
  ∃ b st s1, LocalStatic.create true b [1; 2; 3] Registry.empty_registry = Return (Ok st, s1) ∧
    LocalStatic.is_empty st s1 = Return true.
Proof.
  destruct some_name as (cfg & storage_name & k & Hk).
  destruct (LocalStatic.local_static_creator_sees_nothing (LocalStatic.builder_new storage_name cfg) k Registry.empty_registry [1; 2; 3]
    Hk eq_refl eq_refl ltac:(discriminate)) as (st & s1 & r & s2 & H1 & H2 & _).
  do 3 eexists. exact (conj H1 H2).
Defined.

(** A number with 100 bytes behind it, at the address 4096. *)
Definition some_heap (l : Layout) : option Z := Some 4096.

Lemma local_dynamic_shared_witness :
  ∃ b st r s1 s2, LocalDynamic.create true (mkLayout 8 8) 1 some_heap b 5 Registry.empty_registry = Return (Ok st, s1) ∧
    LocalDynamic.try_open true 1 b s1 = Return (Ok r, s1) ∧ LocalDynamic.modify r 6 s1 = Return s2 ∧
    LocalDynamic.get st s2 = Return 6.
Proof.
  destruct some_name as (cfg & storage_name & k & Hk).
  destruct (LocalDynamic.local_dynamic_shared (mkLayout 8 8) 1 some_heap
    (LocalDynamic.set_supplementary_size (LocalDynamic.builder_new storage_name cfg) 100) k Registry.empty_registry 5
    (λ v _, Return (true, v)) 4096 5 6 7 Hk eq_refl eq_refl ltac:(cbn; lia) ltac:(cbn; lia) eq_refl ltac:(lia) ltac:(reflexivity) eq_refl)
    as (st & r & s1 & s2 & s3 & st2 & s4 & H1 & _ & H2 & _ & H3 & H4 & _).
  do 5 eexists. exact (conj H1 (conj H2 (conj H3 H4))).
Defined.

Lemma local_dynamic_initializer_witness :
  ∃ b, LocalDynamic.create_and_initialize true (mkLayout 8 8) 1 some_heap b 5 (λ v _, Return (false, v)) Registry.empty_registry =
    Return (Err InitializationFailed, Registry.empty_registry).
Proof.
  destruct some_name as (cfg & storage_name & k & Hk).
  destruct (LocalDynamic.local_dynamic_initializer (mkLayout 8 8) 1 some_heap
    (LocalDynamic.set_supplementary_size (LocalDynamic.builder_new storage_name cfg) 100) k Registry.empty_registry 5
    (λ v _, Return (false, v)) 4096 5 Hk eq_refl ltac:(cbn; lia) ltac:(cbn; lia) eq_refl ltac:(lia) ltac:(reflexivity)) as (_ & H & _).
  eexists. exact (H eq_refl).
Defined.
End Witnesses.
