(* ===== verification/LocalConnection.v ===== *)
(** * elkodon_cal/src/zero_copy_connection/process_local.rs

    The connection between a publisher and a subscriber of one process: the same two
    channels as in [ZeroCopyConnection], on the heap, found through a [Registry] and
    created by whoever comes first ([Module LocalConnection]).

    The theorems: there is never more than one sender and one receiver per connection,
    a connection exists as long as one of them does, and dropping one never panics; and
    the channels are used exactly as between processes, so that the results of
    [ZeroCopyConnection] hold here too. *)

From S2P Require Import Prelude Ring Elementary IndexQueue OverflowQueue ZeroCopyConnection ByteString SemanticString SystemTypes NamedConcept LocalRegistry.

Import Bytes(FixedSizeByteString).
Import Naming.

Module LocalConnection.

Record Management := mkManagement {
  name : FixedSizeByteString;
  receive_channel : OverflowQueue;
  retrieve_channel : IndexQueue;
  enable_safe_overflow : bool;
  max_borrowed_samples : Z;
  state : Z
}.
Definition set_receive m q :=
  mkManagement (name m) q (retrieve_channel m) (enable_safe_overflow m) (max_borrowed_samples m) (state m).
Definition set_retrieve m q :=
  mkManagement (name m) (receive_channel m) q (enable_safe_overflow m) (max_borrowed_samples m) (state m).
Definition set_state m st :=
  mkManagement (name m) (receive_channel m) (retrieve_channel m) (enable_safe_overflow m) (max_borrowed_samples m) st.

Definition Entries := Registry.Registry Management.

(** The builder: its name, what it shares with the builder between processes, and its
    configuration. *)
Record Builder := mkBuilder { b_name : FixedSizeByteString; options : ZeroCopyConnection.Builder; config : Configuration }.
Definition new (n : FixedSizeByteString) (default : Configuration) : Builder := mkBuilder n builder_new default.

(** [p_mgmt] is the [Arc]. *)
Record Port := mkPort { p_mgmt : nat; p_config : Configuration }.

Section Operations.
Context `{P : Profile} {Env : Settings}.
(** Whether the lock can be acquired; the addresses of the memory of the queues. *)
Context (lock : bool) (receive_ptr retrieve_ptr : Z).
Implicit Types (s : Entries) (b : Builder) (m : Management) (p : Port).

Definition check_compatibility b (entry : Management) : result unit ZeroCopyCreationError :=
  if negb (Bool.eqb (enable_safe_overflow entry) (b_enable_safe_overflow (options b))) then Err IncompatibleOverflowSetting
  else if negb (max_borrowed_samples entry =? b_max_borrowed_samples (options b)) then
    Err IncompatibleMaxBorrowedSampleSetting
  else if negb (OverflowQueue.capacity (receive_channel entry) =? buffer_size (options b)) then
    Err IncompatibleBufferSize
  else Ok tt.

Definition retrieve_channel_size b : outcome Z :=
  let! s := uadd (buffer_size (options b)) (b_max_borrowed_samples (options b)) in uadd s 1.

(** [create_sender] and [create_receiver] differ in the bit. *)
Definition create_port (bit : Z) b s : outcome (result Port ZeroCopyCreationError * Entries) :=
  if negb lock then Return (Err CreationInternalError, s)
  else
    let! full_path := Registry.key (config b) (b_name b) in
    match Registry.lookup s full_path with
    | Some a =>
        let! entry := Registry.get s a in
        if negb (Z.land (state entry) bit =? 0) then Return (Err AnotherInstanceIsAlreadyConnected, s)
        else
          match check_compatibility b entry with
          | Err e => Return (Err e, s)
          | Ok _ =>
              Return (Ok (mkPort a (config b)), Registry.update s a (set_state entry (Z.lor (state entry) bit)))
          end
    | None =>
        let! retrieve_size := retrieve_channel_size b in
        let m := mkManagement (b_name b) (OverflowQueue.new receive_ptr (buffer_size (options b)))
                   (IndexQueue.new retrieve_ptr retrieve_size) (b_enable_safe_overflow (options b))
                   (b_max_borrowed_samples (options b)) bit in
        Return (Ok (mkPort (length (Registry.objects s)) (config b)), Registry.insert_new s full_path m)
    end.
Definition create_sender := create_port State_Sender.
Definition create_receiver := create_port State_Receiver.

(** [!(state as u8)] *)
Definition complement (bit : Z) : Z := Z.lxor bit 255.

(** [Drop] of both ports; the macro that logs a failure of the lock unwraps its result. *)
Definition cleanup_connection p (bit : Z) s : outcome Entries :=
  if negb lock then Panic
  else
    let! m := Registry.get s (p_mgmt p) in
    let! full_path := Registry.key (p_config p) (name m) in
    match Registry.lookup s full_path with
    | None => Panic
    | Some a =>
        let! v := Registry.get s a in
        let current_state := state v in
        let s := Registry.update s a (set_state v (Z.land current_state (complement bit))) in
        Return (if current_state =? bit then Registry.remove s full_path else s)
    end.

(** ** The ports at work *)

Definition is_connected m : bool :=
  negb (Z.land (state m) State_Sender =? 0) && negb (Z.land (state m) State_Receiver =? 0).

Definition try_send m (ptr : Z) : outcome (result (option Z) ZeroCopySendError * Management) :=
  let! used := IndexQueue.len (retrieve_channel m) in
  let! space_in_retrieve_channel := usub (IndexQueue.capacity (retrieve_channel m)) used in
  let! n := OverflowQueue.len (receive_channel m) in
  let! needed := uadd (max_borrowed_samples m) n in
  if space_in_retrieve_channel <=? needed then Return (Err ClearRetrieveChannelBeforeSend, m)
  else
    let! full := (if negb (enable_safe_overflow m) then OverflowQueue.is_full (receive_channel m) else Return false) in
    if full : bool then Return (Err ReceiveBufferFull, m)
    else
      let! '(r, q) := OverflowQueue.push (receive_channel m) ptr in
      Return (Ok r, set_receive m q).

(** [rx]: what the receiver does while the sender waits, for [fuel] rounds. *)
Fixpoint blocking_send (fuel : nat) (rx : Management → Management) m (ptr : Z)
    : outcome (result (option Z) ZeroCopySendError * Management) :=
  if negb (enable_safe_overflow m) then
    let! full := OverflowQueue.is_full (receive_channel m) in
    if full : bool then
      match fuel with O => Undefined | S fuel => blocking_send fuel rx (rx m) ptr end
    else try_send m ptr
  else try_send m ptr.

Definition reclaim m : outcome (option Z * Management) :=
  let! '(r, q) := IndexQueue.pop (retrieve_channel m) in Return (r, set_retrieve m q).

Definition receive m (borrow_counter : Z) : outcome (result (option Z) ZeroCopyReceiveError * Management * Z) :=
  if max_borrowed_samples m <=? borrow_counter then Return (Err ReceiveWouldExceedMaxBorrowValue, m, borrow_counter)
  else
    let! '(r, q) := OverflowQueue.pop (receive_channel m) in
    match r with
    | None => Return (Ok None, set_receive m q, borrow_counter)
    | Some v => let! c := uadd borrow_counter 1 in Return (Ok (Some v), set_receive m q, c)
    end.

Definition release m (borrow_counter ptr : Z) : outcome (result unit ZeroCopyReleaseError * Management * Z) :=
  let! '(ok, q) := IndexQueue.push (retrieve_channel m) ptr in
  let m := set_retrieve m q in
  if ok : bool then let! c := usub borrow_counter 1 in Return (Ok tt, m, c)
  else Return (Err RetrieveBufferFull, m, borrow_counter).

(** ** NamedConceptMgmt *)

Definition does_exist_cfg s (n : FixedSizeByteString) cfg : outcome bool := Registry.does_exist_cfg lock cfg s n.
Definition list_cfg s cfg : outcome (list FixedSizeByteString) := Registry.list_cfg lock cfg s.
Definition remove_cfg s (n : FixedSizeByteString) cfg : outcome (bool * Entries) := Registry.remove_cfg lock cfg s n.

(** ** All ports of a process

    The ports that exist, with their bit, and the registry; one configuration. A call
    that does not change the state is no step. *)
Inductive sys_step (cfg : Configuration) : Entries * list (Z * Port) → option unit → Entries * list (Z * Port) → Prop :=
| sys_create s ports bit b r s' :
    bit = State_Sender ∨ bit = State_Receiver → config b = cfg →
    create_port bit b s = Return (r, s') →
    sys_step cfg (s, ports) None (s', match r with Ok p => (bit, p) :: ports | Err _ => ports end)
| sys_drop s l bit p r s' :
    cleanup_connection p bit s = Return s' → sys_step cfg (s, l ++ (bit, p) :: r) None (s', l ++ r)
| sys_use s ports bit p m m' :
    (bit, p) ∈ ports → Registry.get s (p_mgmt p) = Return m → name m' = name m → state m' = state m →
    sys_step cfg (s, ports) None (Registry.update s (p_mgmt p) m', ports).

(** The ports of an object. *)
Definition handles (ports : list (Z * Port)) : list (Z * nat) := (λ x, (x.1, p_mgmt x.2)) <$> ports.
Definition connected_bits (ports : list (Z * Port)) (a : nat) : Z :=
  (if bool_decide ((State_Sender, a) ∈ handles ports) then State_Sender else 0) +
  (if bool_decide ((State_Receiver, a) ∈ handles ports) then State_Receiver else 0).

Record sys_inv (cfg : Configuration) (x : Entries * list (Z * Port)) : Prop := {
  inv_wf : Registry.wf x.1;
  inv_ports bit p : (bit, p) ∈ x.2 →
    (bit = State_Sender ∨ bit = State_Receiver) ∧ p_config p = cfg ∧ ∃ k, Registry.lookup x.1 k = Some (p_mgmt p);
  inv_entry k a : Registry.lookup x.1 k = Some a →
    ∃ m, Registry.objects x.1 !! a = Some m ∧ Registry.key cfg (name m) = Return k ∧
      state m = connected_bits x.2 a ∧ connected_bits x.2 a ≠ 0;
  inv_nodup : NoDup (handles x.2)
}.
End Operations.

Section Theorems.
Context `{P : Profile} {Env : Settings} (receive_ptr retrieve_ptr : Z) (cfg : Configuration).
Implicit Types (s : Entries) (ports : list (Z * Port)) (a : nat) (bit : Z).

#[local] Notation sys_inv := (sys_inv cfg).

Lemma bits_other ports bit p a : a ≠ p_mgmt p → connected_bits ((bit, p) :: ports) a = connected_bits ports a.
Proof.
  intros Hne. unfold connected_bits. cbn. f_equal; erewrite bool_decide_ext; try done;
    rewrite elem_of_cons; (split; [intros [[= _ ?]|?]; done|tauto]).
Qed.

(** What a port adds to the state of its connection, and how it is taken away. *)
Lemma bits_own ports bit p :
  bit = State_Sender ∨ bit = State_Receiver → (bit, p_mgmt p) ∉ handles ports →
  let old := connected_bits ports (p_mgmt p) in let new := connected_bits ((bit, p) :: ports) (p_mgmt p) in
  Z.land old bit = 0 ∧ new = Z.lor old bit ∧ old = Z.land new (complement bit) ∧ new ≠ 0 ∧ (new = bit ↔ old = 0).
Proof.
  intros Hbit Hni. unfold connected_bits. cbn [handles fmap list_fmap fst snd]. fold (handles ports).
  destruct Hbit as [-> | ->].
  - rewrite (bool_decide_eq_false_2 ((State_Sender, _) ∈ handles ports)) by done.
    rewrite (bool_decide_eq_true_2 ((State_Sender, _) ∈ _)) by left.
    rewrite (bool_decide_ext ((State_Receiver, p_mgmt p) ∈ (State_Sender, p_mgmt p) :: handles ports) ((State_Receiver, p_mgmt p) ∈ handles ports))
      by (rewrite elem_of_cons; split; [by intros [[=]|?]|tauto]).
    case_bool_decide; vm_compute; repeat split; intros; first [reflexivity|discriminate].
  - rewrite (bool_decide_eq_false_2 ((State_Receiver, _) ∈ handles ports)) by done.
    rewrite (bool_decide_eq_true_2 ((State_Receiver, _) ∈ _)) by left.
    rewrite (bool_decide_ext ((State_Sender, p_mgmt p) ∈ (State_Receiver, p_mgmt p) :: handles ports) ((State_Sender, p_mgmt p) ∈ handles ports))
      by (rewrite elem_of_cons; split; [by intros [[=]|?]|tauto]).
    case_bool_decide; vm_compute; repeat split; intros; first [reflexivity|discriminate].
Qed.

Lemma bits_land ports bit a :
  bit = State_Sender ∨ bit = State_Receiver → Z.land (connected_bits ports a) bit = 0 → (bit, a) ∉ handles ports.
Proof.
  intros Hbit Hz Hin. revert Hz. unfold connected_bits.
  destruct Hbit as [-> | ->]; rewrite (bool_decide_eq_true_2 _ Hin); case_bool_decide; done.
Qed.

Lemma handles_perm ports ports' : ports ≡ₚ ports' → handles ports ≡ₚ handles ports'.
Proof. apply fmap_Permutation. Qed.
Lemma bits_perm ports ports' a : ports ≡ₚ ports' → connected_bits ports a = connected_bits ports' a.
Proof. intros Hp. unfold connected_bits. f_equal; erewrite bool_decide_ext; try done; by rewrite (handles_perm _ _ Hp). Qed.

Lemma sys_inv_perm s ports ports' : ports ≡ₚ ports' → sys_inv (s, ports) → sys_inv (s, ports').
Proof.
  intros Hp [H1 H2 H3 H4]. constructor; cbn [fst snd] in *.
  - done.
  - intros bit p Hin. apply H2. by rewrite Hp.
  - intros k a Hk. rewrite <- (bits_perm _ _ a Hp). by apply H3.
  - by rewrite <- (handles_perm _ _ Hp).
Qed.

(** An object is not in use before it is there. *)
Lemma fresh_object s ports bit :
  sys_inv (s, ports) → (bit, length (Registry.objects s)) ∉ handles ports.
Proof.
  intros [[H1 _] H2 _ _] Hin. apply list_elem_of_fmap in Hin as ([b p] & [= -> Hp] & Hin). cbn [fst snd] in *.
  destruct (H2 _ _ Hin) as (_ & _ & k & Hk). rewrite <- Hp in Hk. by destruct (Nat.lt_irrefl _ (H1 _ _ Hk)).
Qed.

(** A change of the state of one object together with its ports. *)
Lemma sys_inv_state s ports ports' k a m m' :
  sys_inv (s, ports) → Registry.lookup s k = Some a → Registry.objects s !! a = Some m → name m' = name m →
  state m' = connected_bits ports' a → connected_bits ports' a ≠ 0 →
  (∀ a', a' ≠ a → connected_bits ports' a' = connected_bits ports a') →
  (∀ bit p, (bit, p) ∈ ports' → (bit, p) ∈ ports ∨ ((bit = State_Sender ∨ bit = State_Receiver) ∧ p_config p = cfg ∧ p_mgmt p = a)) →
  NoDup (handles ports') → sys_inv (Registry.update s a m', ports').
Proof.
  intros [H1 H2 H3 H4] Hk Hm Hn Hst Hnz Hother Hin Hnd. constructor; cbn [fst snd] in *.
  - by apply Registry.wf_update.
  - intros bit p Hp. destruct (Hin _ _ Hp) as [Hp'|(? & ? & ->)]; [by apply H2|]. split_and!; try done. by exists k.
  - intros k' a' Hk'. change (Registry.lookup s k' = Some a') in Hk'. cbn. destruct (decide (a' = a)) as [->|Hne].
    + exists m'. rewrite list_lookup_insert_eq by (by eapply lookup_lt_Some). split; [done|].
      destruct (H3 _ _ Hk) as (m0 & Hm0 & Hkey & _). assert (m0 = m) as -> by congruence.
      rewrite Hn, (Registry.wf_distinct _ H1 _ _ _ Hk' Hk). done.
    + rewrite list_lookup_insert_ne by done. rewrite Hother by done. by apply H3.
  - done.
Qed.

Lemma create_port_inv s ports bit b r s' :
  sys_inv (s, ports) → bit = State_Sender ∨ bit = State_Receiver → config b = cfg →
  create_port true receive_ptr retrieve_ptr bit b s = Return (r, s') →
  sys_inv (s', match r with Ok p => (bit, p) :: ports | Err _ => ports end).
Proof.
  intros Hinv Hbit Hcfg. unfold create_port. cbn [negb]. rewrite Hcfg.
  destruct (Registry.key cfg (b_name b)) as [k| |] eqn:Hkey; [|done..]. cbn [obind].
  destruct (Registry.lookup s k) as [a|] eqn:Hk.
  - destruct (inv_entry _ _ Hinv _ _ Hk) as (m & Hm & Hkm & Hst & Hnz). cbn [fst snd] in *.
    unfold Registry.get. rewrite Hm. cbn [obind]. destruct (Z.eqb_spec (Z.land (state m) bit) 0) as [Hz|Hz]; cbn [negb]; [|by intros [= <- <-]].
    destruct (check_compatibility b m); [|by intros [= <- <-]]. intros [= <- <-]. rewrite Hst in Hz.
    pose proof (bits_land _ _ _ Hbit Hz) as Hni.
    destruct (bits_own ports bit (mkPort a cfg) Hbit Hni) as (_ & Hnew & _ & Hnn & _). cbn [p_mgmt] in *.
    eapply sys_inv_state; try done; cbn [state set_state].
    + by rewrite Hnew, Hst.
    + intros a' Ha'. by apply bits_other.
    + intros b' p [[= -> ->]|Hin]%elem_of_cons; [by right|by left].
    + constructor; [done|]. apply Hinv.
  - destruct (retrieve_channel_size b) as [rs| |]; [|done..]. cbn [obind]. intros [= <- <-].
    set (a := length (Registry.objects s)). pose proof (fresh_object s ports bit Hinv) as Hni. fold a in Hni.
    destruct (bits_own ports bit (mkPort a cfg) Hbit Hni) as (_ & Hnew & _ & Hnn & _). cbn [p_mgmt] in *.
    assert (connected_bits ports a = 0) as Hold.
    { unfold connected_bits. rewrite !bool_decide_eq_false_2; [done|apply (fresh_object _ _ _ Hinv)..]. }
    destruct Hinv as [H1 H2 H3 H4]. cbn [fst snd] in *. constructor; cbn [fst snd].
    + by apply Registry.wf_insert_new.
    + intros b' p [[= -> ->]|Hin]%elem_of_cons; [split_and!; [done|done|exists k; apply Registry.lookup_insert_new]|].
      destruct (H2 _ _ Hin) as (? & ? & k' & Hk'). split_and!; try done. exists k'. unfold Registry.lookup in *. cbn.
      rewrite lookup_insert_ne; [done|]. congruence.
    + intros k' a' Hk'. unfold Registry.lookup in Hk'. cbn in Hk'. apply lookup_insert_Some in Hk' as [[<- <-]|[Hne Hk']].
      * eexists. cbn. rewrite list_lookup_middle by done. split; [done|]. cbn [name state]. split; [done|].
        fold a. rewrite Hnew, Hold in *. done.
      * assert (a' ≠ a) as Hna by (intros ->; by destruct (Nat.lt_irrefl _ (Registry.wf_bound _ H1 _ _ Hk'))).
        rewrite bits_other by done. destruct (H3 _ _ Hk') as (m & Hm & Hrest). exists m. split; [|done]. cbn. by apply lookup_app_l_Some.
    + constructor; done.
Qed.

Lemma cleanup_inv s ports bit p :
  sys_inv (s, (bit, p) :: ports) → ∃ s', cleanup_connection true p bit s = Return s' ∧ sys_inv (s', ports).
Proof.
  intros Hinv. destruct (inv_ports _ _ Hinv bit p ltac:(left)) as (Hbit & Hcfg & k & Hk). cbn [fst snd] in *.
  destruct (inv_entry _ _ Hinv _ _ Hk) as (m & Hm & Hkm & Hst & Hnz). cbn [fst snd] in *.
  pose proof (inv_nodup _ _ Hinv) as Hnd. cbn in Hnd. apply NoDup_cons in Hnd as [Hni Hnd].
  destruct (bits_own ports bit p Hbit Hni) as (_ & Hnew & Hold & _ & Hiff).
  unfold cleanup_connection, Registry.get. cbn [negb]. rewrite Hm. cbn [obind]. rewrite Hcfg, Hkm. cbn [obind]. rewrite Hk, Hm. cbn [obind].
  set (m' := set_state m (Z.land (state m) (complement bit))).
  assert (state m' = connected_bits ports (p_mgmt p)) as Hst' by (cbn; by rewrite Hst, Hold).
  eexists. split; [done|]. destruct (Z.eqb_spec (state m) bit) as [He|He].
  - assert (connected_bits ports (p_mgmt p) = 0) as Hz by (apply Hiff; congruence).
    assert (∀ b' p', (b', p') ∈ ports → p_mgmt p' ≠ p_mgmt p) as Hgone.
    { intros b' p' Hin Heq. destruct (inv_ports _ _ Hinv b' p' ltac:(by right)) as (Hb' & _).
      assert ((b', p_mgmt p) ∈ handles ports) as Hin' by (apply list_elem_of_fmap; exists (b', p'); cbn; by rewrite Heq).
      revert Hz. unfold connected_bits. destruct Hb' as [-> | ->]; rewrite (bool_decide_eq_true_2 _ Hin'); case_bool_decide; done. }
    destruct Hinv as [H1 H2 H3 H4]. cbn [fst snd] in *. constructor; cbn [fst snd].
    + by apply Registry.wf_remove, Registry.wf_update.
    + intros b' p' Hin. destruct (H2 b' p' ltac:(by right)) as (? & ? & k' & Hk'). split_and!; try done. exists k'.
      unfold Registry.lookup in *. cbn. rewrite lookup_delete_ne; [done|]. intros <-. apply (Hgone _ _ Hin). congruence.
    + intros k' a' Hk'. unfold Registry.lookup in Hk'. cbn in Hk'. apply lookup_delete_Some in Hk' as [Hne Hk'].
      assert (a' ≠ p_mgmt p) as Hna by (intros ->; apply Hne; by eapply Registry.wf_distinct).
      destruct (H3 _ _ Hk') as (m0 & Hm0 & Hrest). rewrite bits_other in Hrest by done. exists m0. cbn.
      rewrite list_lookup_insert_ne by done. by split.
    + done.
  - eapply sys_inv_state; try done.
    + intros Hz. apply He. rewrite Hst. by apply Hiff.
    + intros a' Ha'. symmetry. by apply bits_other.
    + intros b' p' Hin. left. by right.
Qed.

Lemma local_step_inv x l x' : sys_step true receive_ptr retrieve_ptr cfg x l x' → sys_inv x → sys_inv x'.
Proof.
  intros [s ports bit b r s' Hbit Hcfg Hc|s l0 bit p r s' Hc|s ports bit p m m' Hin Hg Hn Hs] Hinv.
  - by eapply create_port_inv.
  - destruct (cleanup_inv s (l0 ++ r) bit p) as (s1 & Hc1 & Hi1); [by apply (sys_inv_perm _ (l0 ++ (bit, p) :: r)); [rewrite <- Permutation_middle|]|].
    rewrite Hc in Hc1. by injection Hc1 as <-.
  - destruct (inv_ports _ _ Hinv _ _ Hin) as (_ & _ & k & Hk). destruct (inv_entry _ _ Hinv _ _ Hk) as (m0 & Hm0 & _ & Hst0 & Hnz).
    cbn [fst snd] in *. unfold Registry.get in Hg. rewrite Hm0 in Hg. injection Hg as ->.
    eapply sys_inv_state; try done; [congruence|by left|apply Hinv].
Qed.

Lemma local_connection_reachable x tr :
  steps (sys_step true receive_ptr retrieve_ptr cfg) (Registry.empty_registry, []) tr x → sys_inv x.
Proof.
  revert x tr. apply (steps_invariant _ (λ x _, sys_inv x)).
  - constructor; [apply Registry.wf_empty|..|constructor]; cbn; intros; set_solver.
  - intros x tr x' _ Hinv Hst. by eapply local_step_inv.
  - intros x tr l x' _ Hinv Hst. by eapply local_step_inv.
Qed.

(** The ports of the connections of a process, for any sequence of calls by any number
    of users: a connection has at most one sender and one receiver; it is in the registry
    exactly as long as one of the two exists; dropping a port finds it there and never
    panics, and the other ports stay connected. *)
Theorem local_connection_ports_exclusive tr s ports :
  steps (sys_step true receive_ptr retrieve_ptr cfg) (Registry.empty_registry, []) tr (s, ports) →
  (∀ i j bit p q, ports !! i = Some (bit, p) → ports !! j = Some (bit, q) → p_mgmt p = p_mgmt q → i = j) ∧
  (∀ bit p, (bit, p) ∈ ports → ∃ s', cleanup_connection true p bit s = Return s') ∧
  (∀ k a, Registry.lookup s k = Some a → ∃ bit p, (bit, p) ∈ ports ∧ p_mgmt p = a) ∧
  (∀ bit p, (bit, p) ∈ ports → ∃ k, Registry.lookup s k = Some (p_mgmt p)).
Proof.
  intros Hst. pose proof (local_connection_reachable _ _ Hst) as Hinv. split_and!.
  - intros i j bit p q Hi Hj Hpq. pose proof (inv_nodup _ _ Hinv) as Hnd. cbn in Hnd.
    apply (NoDup_lookup (handles ports) i j (bit, p_mgmt p)); [done|..]; unfold handles; rewrite list_lookup_fmap.
    + by rewrite Hi.
    + rewrite Hj. cbn. by rewrite Hpq.
  - intros bit p Hin. apply list_elem_of_split in Hin as (l & r & ->).
    destruct (cleanup_inv s (l ++ r) bit p) as (s1 & Hc1 & _); [|by exists s1].
    by apply (sys_inv_perm _ (l ++ (bit, p) :: r)); [rewrite <- Permutation_middle|].
  - intros k a Hk. destruct (inv_entry _ _ Hinv _ _ Hk) as (m & _ & _ & _ & Hnz). cbn [fst snd] in *. revert Hnz.
    unfold connected_bits. case_bool_decide as H1; [intros _|case_bool_decide as H2; [intros _|done]].
    + apply list_elem_of_fmap in H1 as ([b p] & [= _ ->] & Hin). by exists b, p.
    + apply list_elem_of_fmap in H2 as ([b p] & [= _ ->] & Hin). by exists b, p.
  - intros bit p Hin. by destruct (inv_ports _ _ Hinv _ _ Hin) as (_ & _ & Hk).
Qed.

(** ** The channels as between processes *)

Definition as_shared (m : Management) : SharedManagementData :=
  mkMgmt (receive_channel m) (retrieve_channel m) (max_borrowed_samples m) (state m) (enable_safe_overflow m).
(** The object with what the shared data has become. *)
Definition with_shared (m : Management) (d : SharedManagementData) : Management :=
  mkManagement (name m) (ZeroCopyConnection.receive_channel d) (ZeroCopyConnection.retrieve_channel d)
    (ZeroCopyConnection.enable_safe_overflow d) (ZeroCopyConnection.max_borrowed_samples d) (ZeroCopyConnection.state d).

Lemma with_as_shared m : with_shared m (as_shared m) = m.
Proof. by destruct m. Qed.
Lemma as_with_shared m d : as_shared (with_shared m d) = d.
Proof. by destruct d. Qed.

Lemma try_send_equal m ptr :
  try_send m ptr = let! '(r, d) := ZeroCopyConnection.try_send (as_shared m) ptr in Return (r, with_shared m d).
Proof.
  unfold try_send, ZeroCopyConnection.try_send. cbn [as_shared ZeroCopyConnection.retrieve_channel ZeroCopyConnection.receive_channel
    ZeroCopyConnection.max_borrowed_samples ZeroCopyConnection.enable_safe_overflow].
  destruct (IndexQueue.len _); [|done..]. cbn [obind]. destruct (usub _ _); [|done..]. cbn [obind].
  destruct (OverflowQueue.len _); [|done..]. cbn [obind]. destruct (uadd _ _); [|done..]. cbn [obind].
  destruct (_ <=? _); [by destruct m|].
  destruct (if negb (enable_safe_overflow m) then _ else _) as [[|]| |]; [by destruct m| |done..]. cbn [obind].
  by destruct (OverflowQueue.push _ _) as [[? ?]| |].
Qed.

Lemma blocking_send_equal fuel rx rx' m ptr :
  (∀ m, as_shared (rx m) = rx' (as_shared m) ∧ name (rx m) = name m) →
  blocking_send fuel rx m ptr =
    let! '(r, d) := ZeroCopyConnection.blocking_send fuel rx' (as_shared m) ptr in Return (r, with_shared m d).
Proof.
  intros Hrx. revert m. induction fuel as [|fuel IH]; intros m; cbn [blocking_send ZeroCopyConnection.blocking_send];
    cbn [as_shared ZeroCopyConnection.enable_safe_overflow ZeroCopyConnection.receive_channel];
    (destruct (enable_safe_overflow m) eqn:He; cbn [negb obind]; [apply try_send_equal|]);
    (destruct (OverflowQueue.is_full _) as [[|]| |]; cbn [obind]; [|apply try_send_equal|done..]); [done|].
  rewrite IH. destruct (Hrx m) as [H1 H2]. rewrite H1. fold (as_shared m).
  destruct (ZeroCopyConnection.blocking_send _ _ _ _) as [[? ?]| |]; [|done..]. cbn. unfold with_shared. by rewrite H2.
Qed.

(** C38. A connection within a process behaves like one between processes: a new one is
    set up like there, with empty channels that have room for every sample; whether a
    second port fits is decided by the same comparison (only which of several differences
    is reported can differ); and sending, reclaiming, receiving and releasing do to the
    two channels, and answer, what they do there. *)
Theorem local_connection_equivalent b m fuel rx rx' ptr counter :
  (∀ m, as_shared (rx m) = rx' (as_shared m) ∧ name (rx m) = name m) →
  0 ≤ buffer_size (options b) → 0 ≤ b_max_borrowed_samples (options b) →
  buffer_size (options b) + b_max_borrowed_samples (options b) + 4 < USIZE →
  (∀ bit s k, Registry.key (config b) (b_name b) = Return k → Registry.lookup s k = None →
     ∃ p m, create_port true receive_ptr retrieve_ptr bit b s = Return (Ok p, Registry.insert_new s k m) ∧
       conn_inv (options b) 0 (fresh (as_shared m)) [] [] ∧ state m = bit ∧ check_compatibility b m = Ok tt) ∧
  (∀ other, 0 ≤ buffer_size (options other) → 0 ≤ b_max_borrowed_samples (options other) →
     buffer_size (options other) + b_max_borrowed_samples (options other) + 4 < USIZE →
     OverflowQueue.capacity (receive_channel m) = buffer_size (options other) →
     IndexQueue.capacity (retrieve_channel m) =
       buffer_size (options other) + b_max_borrowed_samples (options other) + 1 →
     max_borrowed_samples m = b_max_borrowed_samples (options other) →
     (check_compatibility b m = Ok tt ↔ check_existing (options b) (as_shared m) = Return (Ok tt))) ∧
  try_send m ptr = (let! '(r, d) := ZeroCopyConnection.try_send (as_shared m) ptr in Return (r, with_shared m d)) ∧
  blocking_send fuel rx m ptr =
    (let! '(r, d) := ZeroCopyConnection.blocking_send fuel rx' (as_shared m) ptr in Return (r, with_shared m d)) ∧
  reclaim m = (let! '(r, d) := ZeroCopyConnection.reclaim (as_shared m) in Return (r, with_shared m d)) ∧
  receive m counter = (let! '(r, d, c) := ZeroCopyConnection.receive (as_shared m) counter in Return (r, with_shared m d, c)) ∧
  release m counter ptr = (let! '(r, d, c) := ZeroCopyConnection.release (as_shared m) counter ptr in Return (r, with_shared m d, c)).
Proof.
  intros Hrx Hb Hm Hw. split_and!.
  - intros bit s k Hk Hs. unfold create_port, retrieve_channel_size. cbn [negb]. rewrite Hk. cbn [obind].
    rewrite Hs, !uadd_ok by lia. cbn [obind]. rewrite uadd_ok by lia. cbn [obind]. do 2 eexists. split; [done|]. split; [|split; [done|]].
    + constructor; try done; try (cbn; lia); [by apply oq_new_rep|apply iq_new_rep; lia].
    + unfold check_compatibility. cbn. rewrite !Z.eqb_refl. by destruct (b_enable_safe_overflow (options b)).
  - intros other Hb' Hm' Hw' Hc1 Hc2 Hc3. unfold check_compatibility, check_existing, ZeroCopyConnection.retrieve_channel_size, receive_channel_size.
    rewrite uadd_ok by lia. cbn [obind]. rewrite uadd_ok by lia. cbn. rewrite Hc1, Hc2, Hc3.
    destruct (Bool.eqb _ _), (Z.eqb_spec (b_max_borrowed_samples (options other)) (b_max_borrowed_samples (options b))),
      (Z.eqb_spec (buffer_size (options other)) (buffer_size (options b))); cbn; repeat case_match; cbn; split; intros ?; first [done|discriminate|lia].
  - apply try_send_equal.
  - by apply blocking_send_equal.
  - unfold reclaim, ZeroCopyConnection.reclaim. cbn. by destruct (IndexQueue.pop _) as [[? ?]| |].
  - unfold receive, ZeroCopyConnection.receive. cbn. destruct (_ <=? _); [by destruct m|].
    destruct (OverflowQueue.pop _) as [[[?|] ?]| |]; [cbn|done..]. by destruct (uadd _ _).
  - unfold release, ZeroCopyConnection.release. cbn. destruct (IndexQueue.push _ _) as [[[|] ?]| |]; [cbn|done..].
    by destruct (usub _ _).
Qed.
End Theorems.

(** ** Witnesses *)

Section Witnesses.
#[local] Instance checked : Profile := true.
#[local] Existing Instance settings_unix.

(** A sender and a receiver are created, and the sender is dropped. *)
Lemma local_connection_ports_exclusive_witness :
  ∃ cfg s p, steps (sys_step true 0 0 cfg) (Registry.empty_registry, []) [] (s, [(State_Receiver, p)]) ∧
    ∃ s', cleanup_connection true p State_Receiver s = Return s'.
Proof.
  destruct default_config_ok as (cfg & n & _ & Hn & Hc).
  pose proof (Registry.key_ok _ _ _ _ _ Hc Hn ltac:(vm_compute; discriminate)) as Hk.
  set (k := directory _ ++ _ ++ _) in Hk. set (b := new n cfg).
  assert (∃ p s1, create_port true 0 0 State_Sender b Registry.empty_registry = Return (Ok p, s1)) as (p & s1 & H1).
  { unfold create_port. cbn [negb config b b_name new]. rewrite Hk. cbn. by do 2 eexists. }
  assert (steps (sys_step true 0 0 cfg) (Registry.empty_registry, []) [] (s1, [(State_Sender, p)])) as R1.
  { eapply steps_silent; [apply steps_refl|]. eapply (sys_create true 0 0 cfg _ _ State_Sender b (Ok p)); [by left|done|exact H1]. }
  assert (∃ q s2, create_port true 0 0 State_Receiver b s1 = Return (Ok q, s2)) as (q & s2 & H2).
  { revert H1. unfold create_port. cbn [negb config b b_name new]. rewrite Hk. cbn [obind]. change (Registry.lookup Registry.empty_registry k) with (@None nat). cbn -[Registry.insert_new Registry.lookup Registry.get]. intros [= <- <-].
    rewrite Registry.lookup_insert_new, Registry.get_insert_new. cbn. by do 2 eexists. }
  assert (steps (sys_step true 0 0 cfg) (Registry.empty_registry, []) [] (s2, [(State_Receiver, q); (State_Sender, p)])) as R2.
  { eapply steps_silent; [exact R1|]. eapply (sys_create true 0 0 cfg _ _ State_Receiver b (Ok q)); [by right|done|exact H2]. }
  destruct (local_connection_ports_exclusive 0 0 cfg [] s2 _ R2) as (_ & Hdrop & _).
  destruct (Hdrop State_Sender p ltac:(right; left)) as (s3 & H3).
  assert (steps (sys_step true 0 0 cfg) (Registry.empty_registry, []) [] (s3, [(State_Receiver, q)])) as R3.
  { eapply steps_silent; [exact R2|]. exact (sys_drop true 0 0 cfg s2 [(State_Receiver, q)] State_Sender p [] s3 H3). }
  exists cfg, s3, q. split; [exact R3|].
  destruct (local_connection_ports_exclusive 0 0 cfg [] s3 _ R3) as (_ & Hdrop' & _). apply (Hdrop' State_Receiver q). left.
Defined.

Lemma local_connection_equivalent_witness :
  ∃ b m, conn_inv (options b) 0 (fresh (as_shared m)) [] [] ∧
    try_send m 64 = let! '(r, d) := ZeroCopyConnection.try_send (as_shared m) 64 in Return (r, with_shared m d).
Proof.
  destruct default_config_ok as (cfg & n & _ & Hn & Hc).
  pose proof (Registry.key_ok _ _ _ _ _ Hc Hn ltac:(vm_compute; discriminate)) as Hk.
  set (b := new n cfg).
  assert (∀ m, as_shared m = as_shared m ∧ name m = name m) as Hrx by done.
  pose proof (λ m, local_connection_equivalent 0 0 b m 0 (λ m, m) (λ m, m) 64 0 Hrx ltac:(discriminate) ltac:(discriminate) ltac:(reflexivity)) as Heq.
  destruct (proj1 (Heq (mkManagement n (OverflowQueue.new 0 1) (IndexQueue.new 0 1) false 0 0)) State_Sender Registry.empty_registry _ Hk eq_refl)
    as (p & m & _ & Hinv & _).
  exists b, m. split; [exact Hinv|]. apply (Heq m).
Defined.
End Witnesses.
End LocalConnection.
