(* ===== verification/LocalMemory.v ===== *)
(** * elkodon_cal/src/shared_memory/process_local.rs

    The shared memory of one process: a segment on the heap, found through a [Registry],
    with an allocator that all handles share ([Module LocalMemory]). The trait and its
    errors are those of [SharedMemory], the heap is [Heap].

    The theorems: with the pool allocator creation works, on every branch, and handles
    share their chunks; with the bump allocator it never does; and what a failed
    initialization or the wrong allocator lead to. *)

From S2P Require Import Prelude Elementary UniqueIndexSet HeapMemory BumpAllocator PoolAllocator ShmAllocator.
From S2P Require Import SharedMemory ByteString SemanticString SystemTypes NamedConcept LocalRegistry.

Import Bytes(FixedSizeByteString).
Import Naming.

Module LocalMemory.

(** [Box<dyn Any + Send + Sync>] with an allocator in it, and [downcast_ref]. *)
Inductive AnyAllocator := AnyPool (a : ShmPoolAllocator) | AnyBump (a : ShmBumpAllocator).
Class Any (A : Type) := {
  any_new : A → AnyAllocator;
  downcast_ref : AnyAllocator → option A;
  downcast_new a : downcast_ref (any_new a) = Some a
}.
#[export, program] Instance any_pool : Any ShmPoolAllocator := {
  any_new := AnyPool; downcast_ref x := match x with AnyPool a => Some a | _ => None end
}.
Solve Obligations with done.
#[export, program] Instance any_bump : Any ShmBumpAllocator := {
  any_new := AnyBump; downcast_ref x := match x with AnyBump a => Some a | _ => None end
}.
Solve Obligations with done.

(** The allocator is only taken out when the entry is dropped. *)
Record SharedMemoryEntry := mkEntry {
  memory : Z;
  mgmt_memory : Z;
  layout : Layout;
  e_size : Z;
  e_allocator : AnyAllocator
}.
Definition set_allocator (e : SharedMemoryEntry) (a : AnyAllocator) :=
  mkEntry (memory e) (mgmt_memory e) (layout e) (e_size e) a.

Definition Entries := Registry.Registry SharedMemoryEntry.

Record Builder := mkBuilder { name : FixedSizeByteString; b_size : Z; config : Configuration }.
Definition builder_new (n : FixedSizeByteString) (default : Configuration) : Builder := mkBuilder n 0 default.
Definition set_size (b : Builder) (v : Z) : Builder := mkBuilder (name b) v (config b).
Definition set_config (b : Builder) (c : Configuration) : Builder := mkBuilder (name b) (b_size b) c.

(** [shm] is the [Arc]. *)
Record Memory := mkMemory {
  m_name : FixedSizeByteString;
  shm : nat;
  has_ownership : bool;
  m_config : Configuration
}.

Definition ISIZE_MAX : Z := 2 ^ 63 - 1.

Section Operations.
Context `{P : Profile} {Env : Settings} {A Config : Type} `{ShmAllocator A Config, !Any A}.
(** Whether the lock can be acquired, [errno], the size of a page. *)
Context (lock enomem : bool) (page_size : Z).
Implicit Types (s : Entries) (h : Heap.Memory) (b : Builder) (m : Memory).

(** [Layout::from_size_align(..).unwrap()] for an alignment that is one. *)
Definition from_size_align (size align : Z) : outcome Layout :=
  if ISIZE_MAX - (align - 1) <? size then Panic else Return (mkLayout size align).

(** [addr] and [mgmt_addr]: the answers of [malloc]. *)
Definition create b (c : Config) (addr mgmt_addr : Z) s h
    : outcome (result Memory SharedMemoryCreateError * (Entries * Heap.Memory)) :=
  if b_size b =? 0 then Return (Err CreateSizeIsZero, (s, h))
  else if negb lock then Return (Err CreateInternalError, (s, h))
  else
    let! full_path := Registry.key (config b) (name b) in
    match Registry.lookup s full_path with
    | Some _ => Return (Err CreateAlreadyExists, (s, h))
    | None =>
        let! layout := from_size_align (b_size b) page_size in
        let! '(r, h) := Heap.heap_allocate enomem h layout addr in
        match r with
        | Err _ => Return (Err CreateInternalError, (s, h))
        | Ok memory =>
            let! mgmt_size := shm_management_size (b_size b) c in
            let mgmt_layout := mkLayout mgmt_size 1 in
            let! '(r, h) := Heap.heap_allocate enomem h mgmt_layout mgmt_addr in
            match r with
            | Err _ =>
                let! '(_, h) := Heap.heap_deallocate h (c_start memory) mgmt_layout in
                Return (Err CreateInternalError, (s, h))
            | Ok mgmt_memory =>
                let! a := shm_new_uninit page_size memory c in
                let entry := mkEntry (c_start memory) (c_start mgmt_memory) layout (b_size b) (any_new a) in
                let i := length (Registry.objects s) in
                let s := Registry.insert_new s full_path entry in
                let! '(r, a, _) := shm_init a (BumpAllocator.new (c_start mgmt_memory) mgmt_size) in
                let s := Registry.update s i (set_allocator entry (any_new a)) in
                match r with
                | Err _ => Return (Err CreateInternalError, (s, h))
                | Ok _ => Return (Ok (mkMemory (name b) i true (config b)), (s, h))
                end
            end
        end
    end.

Definition open b s : outcome (result Memory SharedMemoryOpenError) :=
  if negb lock then Return (Err OpenInternalError)
  else
    let! full_path := Registry.key (config b) (name b) in
    match Registry.lookup s full_path with
    | None => Return (Err OpenDoesNotExist)
    | Some i => Return (Ok (mkMemory (name b) i false (config b)))
    end.

Definition drop m s : outcome Entries :=
  if has_ownership m then
    if negb lock then Panic
    else
      let! full_path := Registry.key (m_config m) (m_name m) in
      match Registry.lookup s full_path with
      | None => Panic
      | Some _ => Return (Registry.remove s full_path)
      end
  else Return s.

(** When the last [Arc] of an entry is gone. *)
Definition entry_drop (e : SharedMemoryEntry) h : outcome Heap.Memory :=
  let! '(_, h) := Heap.heap_deallocate h (memory e) (layout e) in
  let! '(_, h) := Heap.heap_deallocate h (mgmt_memory e) (layout e) in Return h.

Definition list_cfg s cfg : outcome (list FixedSizeByteString) := Registry.list_cfg lock cfg s.
Definition remove_cfg s (n : FixedSizeByteString) cfg : outcome (bool * Entries) := Registry.remove_cfg lock cfg s n.
Definition does_exist_cfg s (n : FixedSizeByteString) cfg : outcome bool := Registry.does_exist_cfg lock cfg s n.

Definition allocator m s : outcome A :=
  let! e := Registry.get s (shm m) in
  match downcast_ref (e_allocator e) with Some a => Return a | None => Panic end.

Definition size m s : outcome Z := let! e := Registry.get s (shm m) in Return (e_size e).
Definition max_alignment m s : outcome Z := let! a := allocator m s in Return (shm_max_alignment a).
Definition allocator_data_start_address m s : outcome Z :=
  let! e := Registry.get s (shm m) in Return (memory e).

(** Allocators change behind their reference. *)
Definition update_allocator m s (a : A) : outcome Entries :=
  let! e := Registry.get s (shm m) in Return (Registry.update s (shm m) (set_allocator e (any_new a))).

Definition allocate m s (l : Layout) : outcome (result ShmPointer ShmAllocationError * Entries) :=
  let! a := allocator m s in
  let! '(r, a) := shm_allocate a l in
  let! s := update_allocator m s a in
  match r with
  | Err e => Return (Err e, s)
  | Ok offset =>
      let! start := allocator_data_start_address m s in
      let! p := uadd offset start in
      Return (Ok (mkShmPointer offset p), s)
  end.

Definition deallocate m s (offset : PointerOffset) (l : Layout) : outcome (result unit DeallocationError * Entries) :=
  let! a := allocator m s in
  let! '(r, a) := shm_deallocate a offset l in
  let! s := update_allocator m s a in Return (r, s).

Definition release_ownership m : Memory := mkMemory (m_name m) (shm m) false (m_config m).
End Operations.

(** ** A segment with the pool allocator *)

Section Theorems.
Context `{P : Profile} {Env : Settings}.
Implicit Types (s : Entries) (h : Heap.Memory) (b : Builder) (m : Memory) (e : SharedMemoryEntry) (bl : Layout).

Lemma lookup_update s i e k : Registry.lookup (Registry.update s i e) k = Registry.lookup s k.
Proof. done. Qed.
Lemma get_update s i e : (i < length (Registry.objects s))%nat → Registry.get (Registry.update s i e) i = Return e.
Proof. intros Hi. unfold Registry.get. cbn. by rewrite list_lookup_insert_eq. Qed.
Lemma get_new_update s k e e' :
  Registry.get (Registry.update (Registry.insert_new s k e) (length (Registry.objects s)) e') (length (Registry.objects s)) = Return e'.
Proof. apply get_update. cbn. rewrite length_app. cbn. lia. Qed.

Lemma pool_memory_size bl sz :
  0 < l_size bl → 0 ≤ sz → sz / l_size bl + 1 < U32 → memory_size bl sz = Return (4 * (sz / l_size bl + 1) + 3).
Proof.
  intros Hl Hs Hn. pose proof (Z.div_pos sz (l_size bl) Hs Hl). unfold memory_size. rewrite udiv_ok by lia. cbn [obind].
  unfold const_memory_size, U32 in *. rewrite uadd_ok by (unfold USIZE; lia). cbn [obind].
  rewrite umul_ok by (unfold USIZE; lia). cbn [obind]. rewrite uadd_ok by (unfold USIZE; lia). cbn [obind].
  rewrite usub_ok by (unfold USIZE; lia). f_equal. lia.
Qed.

(** What the user and the C library bring. *)
Record setup_ok (page_size sz : Z) bl (addr mgmt_addr : Z) h : Prop := {
  so_bucket : layout_wf bl;
  so_bucket_size : 0 < l_size bl;
  so_bucket_multiple : l_size bl mod l_align bl = 0;
  so_page : layout_wf (mkLayout sz page_size);
  so_size : l_align bl ≤ sz < 2 ^ 61;
  so_page_size : page_size < 2 ^ 61;
  so_number : sz / l_size bl + 1 < U32;
  so_blocks a k : Heap.blocks h !! a = Some k → 0 < k;
  so_addr : addr = 0 ∨ addr < 2 ^ 62 ∧ Heap.fresh h (sz + page_size + 7) addr;
  so_mgmt : mgmt_addr = 0 ∨ mgmt_addr < 2 ^ 62 ∧
    Heap.fresh (Heap.malloc h (sz + page_size + 7) addr) (4 * (sz / l_size bl + 1) + 11) mgmt_addr
}.

Lemma from_size_align_ok sz page : 0 ≤ sz < 2 ^ 61 → page < 2 ^ 61 → from_size_align sz page = Return (mkLayout sz page).
Proof. intros Hs Hp. unfold from_size_align, ISIZE_MAX. by rewrite (proj2 (Z.ltb_ge _ _)) by lia. Qed.

(** A new segment: on a page, with a pool that has no chunk handed out. *)
Definition new_segment (page_size sz : Z) bl s m : Prop :=
  ∃ e a, Registry.get s (shm m) = Return e ∧ e_allocator e = AnyPool a ∧ e_size e = sz ∧ memory e mod page_size = 0 ∧
    shm_pool_rep a (memory e) sz 0 [] ∧ sz - l_align bl < (number_of_buckets (pool_allocator a) + 1) * l_size bl.

(** The two blocks of an entry, one allocated after the other, are given back. *)
Lemma entry_drop_ok h n addr st n' mgmt_addr st' e :
  (∀ a k, Heap.blocks h !! a = Some k → 0 < k) →
  Heap.fresh h n addr → Heap.fresh (Heap.malloc h n addr) n' mgmt_addr →
  addr + 8 ≤ st < addr + n → mgmt_addr + 8 ≤ st' < mgmt_addr + n' → memory e = st → mgmt_memory e = st' →
  ∃ h', entry_drop e (Heap.mkMemory (<[st' - 8 := mgmt_addr]> (<[st - 8 := addr]> (Heap.cells h)))
                        (<[mgmt_addr := n']> (<[addr := n]> (Heap.blocks h)))) = Return h' ∧ Heap.blocks h' = Heap.blocks h.
Proof.
  intros Hpos (Ha & _ & Hfa) (Hm & _ & Hfm) Hst Hst' <- <-.
  unfold Heap.malloc in Hfm. rewrite (proj2 (Z.eqb_neq _ _)) in Hfm by lia. cbn in Hfm.
  pose proof (Hfm addr _ (lookup_insert_eq _ _ _)) as Hdis. assert (mgmt_addr ≠ addr) as Hne by lia.
  assert (Heap.blocks h !! addr = None) as Hna.
  { destruct (Heap.blocks h !! addr) as [k|] eqn:Hk; [|done]. pose proof (Hfa _ _ Hk). pose proof (Hpos _ _ Hk). lia. }
  assert (Heap.blocks h !! mgmt_addr = None) as Hnm.
  { destruct (Heap.blocks h !! mgmt_addr) as [k|] eqn:Hk; [|done]. pose proof (Hpos _ _ Hk).
    rewrite <- (lookup_insert_ne _ addr _ n) in Hk by done. pose proof (Hfm _ _ Hk). lia. }
  unfold entry_drop, Heap.heap_deallocate, Heap.deallocate, Heap.extract_address, Heap.free. cbn [Heap.cells Heap.blocks].
  rewrite lookup_insert_ne, lookup_insert_eq by lia. cbn [obind]. rewrite lookup_insert_ne, lookup_insert_eq by done.
  cbn [obind Heap.set_blocks Heap.cells Heap.blocks]. rewrite lookup_insert_eq. cbn [obind].
  rewrite lookup_delete_ne, lookup_insert_eq by done. cbn [obind]. eexists. split; [done|]. cbn [Heap.set_blocks Heap.blocks].
  apply map_eq. intros a. destruct (decide (a = mgmt_addr)) as [->|Ham]; [by rewrite lookup_delete_eq|].
  rewrite lookup_delete_ne by done. destruct (decide (a = addr)) as [->|Haa]; [by rewrite lookup_delete_eq|].
  by rewrite lookup_delete_ne, !lookup_insert_ne by done.
Qed.

(** [create] when the heap answers: all but the result of the initialization. *)
Lemma create_pool_runs b bl s h page addr mgmt_addr k enomem :
  Registry.key (config b) (name b) = Return k → Registry.lookup s k = None →
  setup_ok page (b_size b) bl addr mgmt_addr h → addr ≠ 0 → mgmt_addr ≠ 0 →
  let i := length (Registry.objects s) in
  ∃ st st' a0 a h' h'', let entry x := mkEntry st st' (mkLayout (b_size b) page) (b_size b) (AnyPool x) in
    let s' x := Registry.update (Registry.insert_new s k (entry a0)) i (entry x) in
    create true enomem page b (mkShmPoolConfig bl) addr mgmt_addr s h =
      Return (if page <? l_align bl then (Err CreateInternalError, (s' a0, h'))
              else (Ok (mkMemory (name b) i true (config b)), (s' a, h'))) ∧
    st mod page = 0 ∧ shm_pool_rep a st (b_size b) 0 [] ∧
    b_size b - l_align bl < (number_of_buckets (pool_allocator a) + 1) * l_size bl ∧
    (∀ x, entry_drop (entry x) h' = Return h'') ∧ Heap.blocks h'' = Heap.blocks h.
Proof.
  intros Hk Hs [Hbl Hbs Hmul Hpage Hsz Hpb Hn Hpos Ha Hm] Hna Hnm i.
  destruct Ha as [|[Ha Hfa]]; [done|]. destruct Hm as [|[Hm Hfm]]; [done|]. pose proof Hfa as (Ha0 & _). pose proof Hfm as (Hm0 & _).
  pose proof (layout_align_pos _ Hbl). pose proof (layout_align_pos _ Hpage) as Hpp. cbn in Hpp.
  pose proof (Z.div_pos (b_size b) (l_size bl)). set (ms := 4 * (b_size b / l_size bl + 1) + 3) in *.
  assert (memory_size bl (b_size b) = Return ms) as Hms by (apply pool_memory_size; lia). unfold U32 in *.
  destruct (Heap.allocate_ok enomem h (mkLayout (b_size b) page) addr) as (st & Est & H1 & H2 & H3); cbn [l_size l_align] in *; try done;
    try (unfold USIZE; lia).
  set (h1 := Heap.mkMemory _ _) in Est.
  destruct (Heap.allocate_ok enomem h1 (mkLayout ms 1) mgmt_addr) as (st' & Est' & H1' & H2' & _); cbn [l_size l_align] in *; try done;
    try (unfold USIZE, ms; lia); [split; [cbn; unfold ms; lia|by exists 0]|].
  destruct (pool_setup_ok bl st (b_size b) ms st') as (s0 & s' & a' & E0 & E1 & Hrep & Hsize & Halign & Hst & Hcap); try done;
    try (unfold USIZE, U32, ms in *; lia).
  destruct (entry_drop_ok h (b_size b + page + 7) addr st (ms + 1 + 7) mgmt_addr st'
    (mkEntry st st' (mkLayout (b_size b) page) (b_size b) (AnyPool (mkShmPoolAllocator s0 st page)))) as (h'' & Hd & Hb);
    try done; try lia; [by replace (ms + 1 + 7) with (4 * (b_size b / l_size bl + 1) + 11) by lia|].
  exists st, st', (mkShmPoolAllocator s0 st page), (mkShmPoolAllocator s' st page).
  eexists. exists h''. split; [|split_and!; [done|done|cbn; lia|intros x; exact Hd|done]].
  unfold create. cbn [negb]. rewrite (proj2 (Z.eqb_neq _ _)) by lia. rewrite Hk. cbn [obind]. rewrite Hs.
  rewrite from_size_align_ok by lia. cbn [obind]. rewrite Est. cbn [obind shm_management_size shm_pool].
  unfold shm_pool_management_size. cbn [bucket_layout]. rewrite Hms. cbn [obind]. rewrite Est'. cbn [obind c_start c_len].
  unfold shm_new_uninit, shm_pool, shm_pool_new_uninit, shm_init. cbn [bucket_layout c_start c_len]. rewrite E0. cbn [obind].
  unfold shm_pool_init, shm_pool_max_alignment, PoolAllocator.max_alignment. cbn [pool_max_supported_alignment_by_memory pool_allocator].
  rewrite (pool_new_uninit_align _ _ _ _ E0). destruct (page <? l_align bl); [done|]. by rewrite E1.
Qed.

Lemma local_create_pool_ok b bl s h page addr mgmt_addr k enomem :
  Registry.key (config b) (name b) = Return k → Registry.lookup s k = None →
  setup_ok page (b_size b) bl addr mgmt_addr h → l_align bl ≤ page → addr ≠ 0 → mgmt_addr ≠ 0 →
  let i := length (Registry.objects s) in
  ∃ e0 e h', let s' := Registry.update (Registry.insert_new s k e0) i e in
    create true enomem page b (mkShmPoolConfig bl) addr mgmt_addr s h =
      Return (Ok (mkMemory (name b) i true (config b)), (s', h')) ∧
    new_segment page (b_size b) bl s' (mkMemory (name b) i true (config b)) ∧
    Registry.get s' i = Return e ∧ ∃ h'', entry_drop e h' = Return h'' ∧ Heap.blocks h'' = Heap.blocks h.
Proof.
  intros Hk Hs Hok Hal Hna Hnm i.
  destruct (create_pool_runs b bl s h page addr mgmt_addr k enomem Hk Hs Hok Hna Hnm)
    as (st & st' & a0 & a & h' & h'' & Hc & Hst & Hrep & Hcap & Hd & Hb).
  rewrite (proj2 (Z.ltb_ge _ _)) in Hc by done. do 3 eexists. split; [exact Hc|].
  split; [|split; [apply get_new_update|by exists h'']]. do 2 eexists. by split; [apply get_new_update|].
Qed.

Lemma heap_refuses enomem h layout :
  layout_wf layout → 0 < l_size layout → l_size layout + l_align layout + 8 < USIZE →
  ∃ err, Heap.heap_allocate enomem h layout 0 = Return (Err err, h).
Proof.
  intros Hl Hs Hb. unfold Heap.heap_allocate, Heap.allocate, Heap.check_precondition. rewrite (proj2 (Z.eqb_neq _ _)) by lia.
  rewrite Heap.request_ok by done. cbn. by eexists.
Qed.

(** Without memory nothing changes. *)
Lemma create_pool_refused b bl s h page addr mgmt_addr k enomem :
  Registry.key (config b) (name b) = Return k → Registry.lookup s k = None →
  setup_ok page (b_size b) bl addr mgmt_addr h → addr = 0 ∨ mgmt_addr = 0 →
  ∃ h', create true enomem page b (mkShmPoolConfig bl) addr mgmt_addr s h = Return (Err CreateInternalError, (s, h')) ∧
    Heap.blocks h' = Heap.blocks h.
Proof.
  intros Hk Hs [Hbl Hbs Hmul Hpage Hsz Hpb Hn Hpos Ha Hm] H0.
  pose proof (layout_align_pos _ Hbl). pose proof (layout_align_pos _ Hpage) as Hpp. cbn in Hpp.
  pose proof (Z.div_pos (b_size b) (l_size bl)). unfold create. cbn [negb]. rewrite (proj2 (Z.eqb_neq _ _)) by lia.
  rewrite Hk. cbn [obind]. rewrite Hs, from_size_align_ok by lia. cbn [obind].
  destruct (Z.eq_dec addr 0) as [->|Hna].
  { destruct (heap_refuses enomem h (mkLayout (b_size b) page)) as (e & ->); cbn; [done|lia|unfold USIZE; lia|]. by exists h. }
  destruct Ha as [|[Ha Hfa]]; [done|]. destruct H0 as [| ->]; [done|]. pose proof Hfa as (Ha0 & _ & Hfree).
  destruct (Heap.allocate_ok enomem h (mkLayout (b_size b) page) addr) as (st & -> & Hst1 & Hst2 & _); cbn [l_size l_align] in *; try done;
    try (unfold USIZE; lia).
  cbn [obind shm_management_size shm_pool]. unfold shm_pool_management_size. cbn [bucket_layout].
  rewrite pool_memory_size by lia. cbn [obind]. unfold U32 in *.
  destruct (heap_refuses enomem (Heap.mkMemory (<[st - 8:=addr]> (Heap.cells h)) (<[addr:=b_size b + page + 7]> (Heap.blocks h)))
    (mkLayout (4 * (b_size b / l_size bl + 1) + 3) 1)) as (e & ->); cbn [l_size l_align];
    [split; [cbn; lia|by exists 0]|lia|unfold USIZE; lia|].
  cbn [obind c_start]. unfold Heap.heap_deallocate, Heap.deallocate, Heap.extract_address, Heap.free. cbn [Heap.cells Heap.blocks].
  rewrite lookup_insert_eq. cbn [obind Heap.blocks]. rewrite lookup_insert_eq. cbn [obind]. eexists. split; [done|].
  cbn [Heap.set_blocks Heap.blocks]. apply delete_insert_id.
  destruct (Heap.blocks h !! addr) as [j|] eqn:Hj; [|done]. pose proof (Hfree _ _ Hj). pose proof (Hpos _ _ Hj). lia.
Qed.

(** Creating a shared memory with the pool allocator within a process, on every branch:
    an existing name is refused, a lack of memory reported, both without any change; else
    the new segment starts on a page, has all its chunks free and room for the size that
    was asked for, exists, and is what everybody opens, whatever size they ask for. When
    its owner is dropped the name is free, and when the last handle is dropped both of its
    blocks are given back to the heap. *)
Theorem local_memory_create_correct b bl s h page addr mgmt_addr k enomem :
  Registry.key (config b) (name b) = Return k → setup_ok page (b_size b) bl addr mgmt_addr h → l_align bl ≤ page →
  ∃ r s' h', create true enomem page b (mkShmPoolConfig bl) addr mgmt_addr s h = Return (r, (s', h')) ∧
  match r with
  | Err err =>
      s' = s ∧ Heap.blocks h' = Heap.blocks h ∧
      (is_Some (Registry.lookup s k) ∧ err = CreateAlreadyExists ∨ (addr = 0 ∨ mgmt_addr = 0) ∧ err = CreateInternalError)
  | Ok m =>
      Registry.lookup s k = None ∧ new_segment page (b_size b) bl s' m ∧
      does_exist_cfg true s' (name b) (config b) = Return true ∧
      (∀ v, open true (set_size b v) s' = Return (Ok (mkMemory (name b) (shm m) false (config b)))) ∧
      (∃ s'', drop true m s' = Return s'' ∧ Registry.lookup s'' k = None) ∧
      ∃ e h'', Registry.get s' (shm m) = Return e ∧ entry_drop e h' = Return h'' ∧ Heap.blocks h'' = Heap.blocks h
  end.
Proof.
  intros Hk Hok Hal. destruct (Registry.lookup s k) as [i|] eqn:Hs.
  { exists (Err CreateAlreadyExists), s, h. destruct Hok as [Hbl _ _ _ ? _ _ _ _ _]. pose proof (layout_align_pos _ Hbl).
    unfold create. cbn [negb]. rewrite (proj2 (Z.eqb_neq _ _)) by lia. rewrite Hk. cbn [obind]. rewrite Hs.
    split; [done|]. split; [done|]. split; [done|]. by left. }
  destruct (decide (addr = 0 ∨ mgmt_addr = 0)) as [H0|H0].
  { destruct (create_pool_refused b bl s h page addr mgmt_addr k enomem Hk Hs Hok H0) as (h' & Hc & Hb).
    exists (Err CreateInternalError), s, h'. split; [done|]. split; [done|]. split; [done|]. by right. }
  destruct (local_create_pool_ok b bl s h page addr mgmt_addr k enomem) as (e0 & e & h' & Hc & Hseg & He & h'' & Hd & Hb); try tauto.
  do 3 eexists. split; [exact Hc|]. cbn beta iota. split; [done|]. split; [exact Hseg|].
  unfold does_exist_cfg, Registry.does_exist_cfg, open, drop. cbn [negb has_ownership m_config m_name config name set_size shm].
  rewrite Hk. cbn [obind]. rewrite !lookup_update, Registry.lookup_insert_new. split_and!; [done|done| |by exists e, h''].
  eexists. split; [done|]. apply lookup_delete_eq.
Qed.

(** The allocator of an entry, and the chunks that are in use. *)
Definition in_use s (i : nat) (start len aba : Z) (offs : list Chunk) : Prop :=
  ∃ e a, Registry.get s i = Return e ∧ e_allocator e = AnyPool a ∧ memory e = start ∧ shm_pool_rep a start len aba offs.

Lemma get_bound s i e : Registry.get s i = Return e → (i < length (Registry.objects s))%nat.
Proof. unfold Registry.get. destruct (Registry.objects s !! i) eqn:Hi; [|done]. intros _. by eapply lookup_lt_Some. Qed.

Lemma allocate_in_use m s start len aba offs l sz :
  in_use s (shm m) start len aba offs → size m s = Return sz → aba + 1 < U32 → layout_wf l → start + len + l_align l < USIZE →
  ∃ r s', allocate (A := ShmPoolAllocator) m s l = Return (r, s') ∧ size m s' = Return sz ∧
  match r with
  | Err _ => in_use s' (shm m) start len aba offs
  | Ok p =>
      data_ptr p = start + offset p ∧ 0 ≤ offset p ∧ offset p + l_size l ≤ len ∧ data_ptr p mod l_align l = 0 ∧
      pairwise_disjoint (mkChunk (offset p) (l_size l) :: offs) ∧
      in_use s' (shm m) start len (aba + 1) (mkChunk (offset p) (l_size l) :: offs)
  end.
Proof.
  intros (e & a & He & Ha & Hst & Hrep) Hsz Haba Hl Hb. pose proof (get_bound _ _ _ He) as Hi.
  destruct (shm_pool_offsets_correct a start len aba offs l Hrep) as [(r & a' & Hal & Hr) _]; [lia|done|done|].
  unfold size in *. rewrite He in Hsz. cbn [obind] in Hsz.
  unfold allocate, allocator, update_allocator, allocator_data_start_address. rewrite He.
  cbn [obind]. rewrite Ha. cbn [downcast_ref any_pool obind shm_allocate shm_pool]. rewrite Hal. cbn [obind any_new any_pool].
  destruct r as [off|err].
  - destruct Hr as (H1 & H2 & H3 & H4 & H5). pose proof Hrep as [_ [Hgeo _]]. pose proof (wf_lo _ _ _ Hgeo).
    pose proof Hl as [? _]. pose proof (layout_align_pos _ Hl).
    rewrite get_update by done. cbn [obind memory set_allocator]. rewrite Hst, uadd_ok by lia. cbn [obind].
    do 2 eexists. split; [done|]. rewrite get_update by done. split; [done|]. cbn [data_ptr offset]. rewrite (Z.add_comm off).
    split_and!; try done. do 2 eexists. by split; [by apply get_update|].
  - do 2 eexists. split; [done|]. rewrite get_update by done. split; [done|]. cbn beta iota.
    assert (a' = a) as -> by (by destruct err; destruct Hr). do 2 eexists. by split; [by apply get_update|].
Qed.

Lemma deallocate_in_use m s start len aba off offs l :
  in_use s (shm m) start len aba (mkChunk off (l_size l) :: offs) → aba + 1 < U32 → layout_wf l → start + len + l_align l < USIZE →
  ∃ s', deallocate (A := ShmPoolAllocator) m s off l = Return (Ok tt, s') ∧ in_use s' (shm m) start len (aba + 1) offs.
Proof.
  intros (e & a & He & Ha & Hst & Hrep) Haba Hl Hb. pose proof (get_bound _ _ _ He) as Hi.
  destruct (shm_pool_offsets_correct a start len aba _ l Hrep) as [_ Hde]; [lia|done|done|].
  destruct (Hde [] _ _ eq_refl) as (a' & Hd & Hrep'). cbn [c_start] in Hd.
  unfold deallocate, allocator, update_allocator. rewrite He. cbn [obind]. rewrite Ha.
  cbn [downcast_ref any_pool obind shm_deallocate shm_pool]. rewrite Hd. cbn [obind].
  eexists. split; [done|]. do 2 eexists. by split; [by apply get_update|].
Qed.

Lemma in_use_shared (m1 m2 : Memory) : shm m1 = shm m2 →
  (∀ s, allocator_data_start_address m1 s = allocator_data_start_address m2 s) ∧ (∀ s, size m1 s = size m2 s).
Proof. intros Hm. split; intros s; unfold allocator_data_start_address, size; by rewrite Hm. Qed.

(** All handles of a segment use one allocator and one address: what one of them
    allocates is aligned, inside of the segment and disjoint from all chunks in use, its
    pointer is the start of the segment plus the offset for everybody, and any other
    handle can give it back, which makes it available again. Errors change nothing. *)
Theorem local_memory_shared m1 m2 s start len aba offs l :
  shm m1 = shm m2 → in_use s (shm m1) start len aba offs → aba + 2 < U32 → layout_wf l → start + len + l_align l < USIZE →
  ∃ r s', allocate (A := ShmPoolAllocator) m1 s l = Return (r, s') ∧
  match r with
  | Err _ => in_use s' (shm m1) start len aba offs
  | Ok p =>
      data_ptr p = start + offset p ∧ allocator_data_start_address m2 s' = Return start ∧
      0 ≤ offset p ∧ offset p + l_size l ≤ len ∧ data_ptr p mod l_align l = 0 ∧
      pairwise_disjoint (mkChunk (offset p) (l_size l) :: offs) ∧
      in_use s' (shm m1) start len (aba + 1) (mkChunk (offset p) (l_size l) :: offs) ∧
      ∃ s'', deallocate (A := ShmPoolAllocator) m2 s' (offset p) l = Return (Ok tt, s'') ∧
        in_use s'' (shm m1) start len (aba + 2) offs
  end.
Proof.
  intros Hm Hu Haba Hl Hb. pose proof Hu as (e & a & He & _).
  assert (size m1 s = Return (e_size e)) as Hsz by (unfold size; by rewrite He).
  destruct (allocate_in_use m1 s start len aba offs l _ Hu Hsz) as (r & s' & Hal & _ & Hr); [lia|done|done|].
  exists r, s'. split; [done|]. destruct r as [p|err]; [|done]. destruct Hr as (H1 & H2 & H3 & H4 & H5 & H6).
  split; [done|]. split.
  { rewrite <- (proj1 (in_use_shared m1 m2 Hm)). destruct H6 as (e' & a' & He' & _ & Hst & _).
    unfold allocator_data_start_address. rewrite He'. cbn [obind]. by rewrite Hst. }
  rewrite Hm in H6 |- *. split_and!; try done.
  destruct (deallocate_in_use m2 s' start len (aba + 1) (offset p) offs l H6) as (s'' & Hd & Hu''); [lia|done|done|].
  exists s''. split; [done|]. by replace (aba + 2) with (aba + 1 + 1) by lia.
Qed.

(** ** What goes wrong *)

(** The bump allocator manages itself without memory, and the heap has no block of size
    zero: within a process a shared memory with this allocator cannot be created. *)
Theorem bump_segment_cannot_be_created lock enomem page b c addr mgmt_addr s h m x :
  create (A := ShmBumpAllocator) lock enomem page b c addr mgmt_addr s h ≠ Return (Ok m, x).
Proof.
  unfold create. destruct (b_size b =? 0); [done|]. destruct lock; [|done]. cbn [negb].
  destruct (Registry.key _ _); [|done..]. cbn [obind]. destruct (Registry.lookup _ _); [done|].
  destruct (from_size_align _ _); [|done..]. cbn [obind]. destruct (Heap.heap_allocate _ _ _ _) as [[[memory|] h']| |]; [|done..].
  cbn [obind]. unfold shm_management_size, shm_bump, shm_bump_management_size. cbn [obind].
  unfold Heap.heap_allocate, Heap.allocate, Heap.check_precondition. cbn.
  by destruct (Heap.heap_deallocate _ _ _) as [[]| |].
Qed.

(** An initialization of the allocator that fails leaves its segment behind: the name is
    taken, although nobody owns it. *)
Theorem failed_initialization_blocks_name b bl s h page addr mgmt_addr k enomem :
  Registry.key (config b) (name b) = Return k → Registry.lookup s k = None →
  setup_ok page (b_size b) bl addr mgmt_addr h → page < l_align bl → addr ≠ 0 → mgmt_addr ≠ 0 →
  ∃ s' h', create true enomem page b (mkShmPoolConfig bl) addr mgmt_addr s h = Return (Err CreateInternalError, (s', h')) ∧
    does_exist_cfg true s' (name b) (config b) = Return true ∧
    ∀ c h a1 a2, create (A := ShmPoolAllocator) true enomem page b c a1 a2 s' h = Return (Err CreateAlreadyExists, (s', h)).
Proof.
  intros Hk Hs Hok Hal Hna Hnm.
  destruct (create_pool_runs b bl s h page addr mgmt_addr k enomem Hk Hs Hok Hna Hnm)
    as (st & st' & a0 & a & h' & h'' & Hc & _). rewrite (proj2 (Z.ltb_lt _ _)) in Hc by done.
  destruct Hok as [Hbl _ _ _ ? _ _ _ _ _]. pose proof (layout_align_pos _ Hbl).
  do 2 eexists. split; [exact Hc|]. split.
  - unfold does_exist_cfg, Registry.does_exist_cfg. cbn [negb]. rewrite Hk. cbn [obind].
    by rewrite lookup_update, Registry.lookup_insert_new.
  - intros c h2 a1 a2. unfold create. cbn [negb]. rewrite (proj2 (Z.eqb_neq _ _)) by lia. rewrite Hk. cbn [obind].
    by rewrite lookup_update, Registry.lookup_insert_new.
Qed.

(** The allocator is not compared when a segment is opened: with the wrong one the first
    use panics. *)
Theorem wrong_allocator_panics m s e a l :
  Registry.get s (shm m) = Return e → e_allocator e = AnyPool a →
  (∀ b k, Registry.key (config b) (name b) = Return k → Registry.lookup s k = Some (shm m) →
     open true b s = Return (Ok (mkMemory (name b) (shm m) false (config b)))) ∧
  allocate (A := ShmBumpAllocator) m s l = Panic.
Proof.
  intros He Ha. split.
  - intros b k Hk Hl. unfold open. cbn [negb]. rewrite Hk. cbn [obind]. by rewrite Hl.
  - unfold allocate, allocator. rewrite He. cbn [obind]. by rewrite Ha.
Qed.
End Theorems.

Section Witnesses.
#[local] Instance checked : Profile := true.
#[local] Existing Instance settings_unix.

Lemma some_segment_name : ∃ cfg segment_name k, Registry.key cfg segment_name = Return k.
Proof.
  destruct default_config_ok as (cfg & segment_name & _ & Hn & Hc). do 3 eexists.
  apply (Registry.key_ok _ _ _ _ _ Hc Hn). vm_compute. discriminate.
Qed.

(** 1000 bytes in chunks of 40, with pages of [page] bytes. *)
Lemma some_setup bl :
  bl = mkLayout 40 8 ∨ bl = mkLayout 8192 8192 → setup_ok 4096 10000 bl 65536 1048576 (Heap.mkMemory ∅ ∅).
Proof.
  intros Hbl. constructor.
  - destruct Hbl as [-> | ->]; (split; [done|]); [by exists 3|by exists 13].
  - by destruct Hbl as [-> | ->].
  - by destruct Hbl as [-> | ->].
  - split; [done|]. by exists 12.
  - by destruct Hbl as [-> | ->].
  - done.
  - by destruct Hbl as [-> | ->].
  - done.
  - right. split; [done|]. split; [done|]. split; [done|]. intros a k Hk. done.
  - right. split; [done|]. split; [done|]. split; [by destruct Hbl as [-> | ->]|]. intros a k. unfold Heap.malloc. cbn.
    intros [[<- <-]|[_ Hk]]%lookup_insert_Some; [left; lia|done].
Qed.

Lemma local_memory_create_correct_witness :
  ∃ cfg n k, Registry.key cfg n = Return k ∧ ∃ m s' h',
    create true true 4096 (mkBuilder n 10000 cfg) (mkShmPoolConfig (mkLayout 40 8)) 65536 1048576
      Registry.empty_registry (Heap.mkMemory ∅ ∅) = Return (Ok m, (s', h')) ∧
    new_segment 4096 10000 (mkLayout 40 8) s' m.
Proof.
  destruct some_segment_name as (cfg & n & k & Hk). exists cfg, n, k. split; [exact Hk|].
  destruct (local_memory_create_correct (mkBuilder n 10000 cfg) (mkLayout 40 8) Registry.empty_registry (Heap.mkMemory ∅ ∅) 4096
    65536 1048576 k true Hk (some_setup _ (or_introl eq_refl)) ltac:(cbn; lia)) as ([m|e] & s' & h' & H1 & H2).
  - exists m, s', h'. exact (conj H1 (proj1 (proj2 H2))).
  - exfalso. destruct H2 as (_ & _ & [[[x Hx] _]|[[H0|H0] _]]); discriminate.
Defined.

Lemma local_memory_shared_witness :
  ∃ s cfg n p s', allocate (A := ShmPoolAllocator) (mkMemory n 0 true cfg) s (mkLayout 12 4) = Return (Ok p, s') ∧ data_ptr p = 4112.
Proof.
  destruct some_segment_name as (cfg & n & k & _).
  set (s := Registry.mkRegistry {[k := 0%nat]} [mkEntry 4096 0 (mkLayout 64 4096) 64 (AnyPool shm_pool_sample)]).
  assert (in_use s 0 4096 64 1 [mkChunk 0 10]) as Hs.
  { do 2 eexists. split; [reflexivity|]. split; [reflexivity|]. split; [reflexivity|]. split; [reflexivity|exact pool_sample_rep]. }
  destruct (local_memory_shared (mkMemory n 0 true cfg) (mkMemory n 0 false cfg) s 4096 64 1 [mkChunk 0 10] (mkLayout 12 4)
    eq_refl Hs ltac:(reflexivity) ltac:(split; [cbn; lia|by exists 2]) ltac:(reflexivity)) as (r & s' & H1 & H2).
  pose proof H1 as H3. vm_compute in H3. injection H3 as <- _. destruct H2 as [Hp _].
  do 5 eexists. split; [exact H1|]. reflexivity.
Defined.

Lemma failed_initialization_blocks_name_witness :
  ∃ cfg n k, Registry.key cfg n = Return k ∧ ∃ s' h',
    create true true 4096 (mkBuilder n 10000 cfg) (mkShmPoolConfig (mkLayout 8192 8192)) 65536 1048576
      Registry.empty_registry (Heap.mkMemory ∅ ∅) = Return (Err CreateInternalError, (s', h')) ∧
    does_exist_cfg true s' n cfg = Return true.
Proof.
  destruct some_segment_name as (cfg & n & k & Hk). exists cfg, n, k. split; [exact Hk|].
  destruct (failed_initialization_blocks_name (mkBuilder n 10000 cfg) (mkLayout 8192 8192) Registry.empty_registry
    (Heap.mkMemory ∅ ∅) 4096 65536 1048576 k true Hk eq_refl (some_setup _ (or_intror eq_refl)) ltac:(reflexivity)
    ltac:(discriminate) ltac:(discriminate)) as (s' & h' & H1 & H2 & _).
  exists s', h'. exact (conj H1 H2).
Defined.
End Witnesses.
End LocalMemory.
