(* ===== verification/Channels.v ===== *)
(** * elkodon_cal/src/communication_channel

    Channels that move one word at a time from a sender to a receiver.

    - mod.rs: the errors, and the sending and receiving half of the trait as a class
      ([CommunicationChannel]) with its contract ([ChannelContract]): a bounded queue that
      refuses or replaces when it is full;
    - posix_shared_memory.rs ([Module ShmChannel]): in a dynamic storage; how it is set up;
    - process_local.rs ([Module LocalChannel]): on the heap, found through a [Registry].

    The theorems: any sequence of operations on either of them does what the queue does;
    setting up a channel never fails for want of memory; and the life of a channel within a
    process. *)

From S2P Require Import Prelude Ring Elementary BumpAllocator OverflowQueue ByteString SemanticString SystemTypes.
From S2P Require Import NamedConcept Storages LocalRegistry.

Import Bytes(FixedSizeByteString).
Import Naming.

(** ** mod.rs *)

Inductive CommunicationChannelSendError := ConnectionBroken | MessageTooLarge | ReceiverCacheIsFull | SendInternalFailure.
Inductive CommunicationChannelReceiveError := ReceiveConnectionBroken | MessageCorrupt | ReceiveInternalFailure.
Inductive CommunicationChannelCreateError :=
| ChannelAlreadyExists | SafeOverflowNotSupported | CustomBufferSizeNotSupported | CreateInternalFailure.
Inductive CommunicationChannelOpenError :=
| OpenInternalFailure | AnotherInstanceIsAlreadyConnected | ChannelDoesNotExist.

Definition DEFAULT_RECEIVER_BUFFER_SIZE : Z := 8.

(** The two ends of a channel, whose shared part is an [M]. *)
Class CommunicationChannel `{P : Profile} (M : Type) := {
  try_send : M → Z → outcome (result (option Z) CommunicationChannelSendError * M);
  receive : M → outcome (result (option Z) CommunicationChannelReceiveError * M);
  buffer_size : M → Z;
  does_enable_safe_overflow : M → bool
}.

(** [send] only logs in addition. *)
Definition send `{CommunicationChannel M} (m : M) (v : Z) : outcome (result (option Z) CommunicationChannelSendError * M) :=
  let! '(r, m) := try_send m v in
  match r with
  | Err ReceiverCacheIsFull => Return (Err ReceiverCacheIsFull, m)
  | Err e => Return (Err e, m)
  | Ok s => Return (Ok s, m)
  end.

(** *** What a channel promises *)

Definition send_spec (cap : Z) (overflow : bool) (l : list Z) (v : Z)
    : result (option Z) CommunicationChannelSendError * list Z :=
  if Z.of_nat (length l) <? cap then (Ok None, l ++ [v])
  else if overflow then (Ok (List.hd_error (l ++ [v])), List.tl (l ++ [v]))
  else (Err ReceiverCacheIsFull, l).

Definition receive_spec (l : list Z) : result (option Z) CommunicationChannelReceiveError * list Z :=
  (Ok (List.hd_error l), List.tl l).

(** [ch_rep n m l]: [l] is on its way, and at most [n] values have been sent so far. *)
Class ChannelContract `{P : Profile} (M : Type) `{!CommunicationChannel M} := {
  ch_rep : Z → M → list Z → Prop;
  ch_bound n m l : ch_rep n m l → Z.of_nat (length l) ≤ buffer_size m;
  ch_send n m l v :
    ch_rep n m l → n + buffer_size m + 3 < USIZE →
    ∃ m', try_send m v = Return ((send_spec (buffer_size m) (does_enable_safe_overflow m) l v).1, m') ∧
      ch_rep (n + 1) m' (send_spec (buffer_size m) (does_enable_safe_overflow m) l v).2 ∧
      buffer_size m' = buffer_size m ∧ does_enable_safe_overflow m' = does_enable_safe_overflow m;
  ch_receive n m l :
    ch_rep n m l → n + buffer_size m + 3 < USIZE →
    ∃ m', receive m = Return ((receive_spec l).1, m') ∧ ch_rep n m' (receive_spec l).2 ∧
      buffer_size m' = buffer_size m ∧ does_enable_safe_overflow m' = does_enable_safe_overflow m
}.

(** A sequence of operations, and what each of them returns. *)
Inductive command := Send (v : Z) | Receive.
Inductive reply :=
| Sent (r : result (option Z) CommunicationChannelSendError)
| Received (r : result (option Z) CommunicationChannelReceiveError).

Fixpoint run `{CommunicationChannel M} (m : M) (cs : list command) : outcome (list reply * M) :=
  match cs with
  | [] => Return ([], m)
  | Send v :: cs => let! '(r, m) := send m v in let! '(rs, m) := run m cs in Return (Sent r :: rs, m)
  | Receive :: cs => let! '(r, m) := receive m in let! '(rs, m) := run m cs in Return (Received r :: rs, m)
  end.

Fixpoint run_spec (cap : Z) (overflow : bool) (l : list Z) (cs : list command) : list reply * list Z :=
  match cs with
  | [] => ([], l)
  | Send v :: cs =>
      let '(r, l) := send_spec cap overflow l v in let '(rs, l) := run_spec cap overflow l cs in (Sent r :: rs, l)
  | Receive :: cs =>
      let '(r, l) := receive_spec l in let '(rs, l) := run_spec cap overflow l cs in (Received r :: rs, l)
  end.

(** ** posix_shared_memory.rs *)

Module ShmChannel.
Record Management := mkManagement { index_queue : OverflowQueue; enable_safe_overflow : bool }.

Record Creator := mkCreator {
  channel_name : FixedSizeByteString;
  c_enable_safe_overflow : bool;
  c_buffer_size : Z;
  c_config : Configuration
}.
Definition new (name : FixedSizeByteString) (default : Configuration) : Creator :=
  mkCreator name false DEFAULT_RECEIVER_BUFFER_SIZE default.
Definition set_enable_safe_overflow (c : Creator) : Creator := mkCreator (channel_name c) true (c_buffer_size c) (c_config c).
Definition set_buffer_size (c : Creator) (v : Z) : Creator :=
  mkCreator (channel_name c) (c_enable_safe_overflow c) v (c_config c).

Section Operations.
Context `{P : Profile}.
(** [size_of::<Management>()] *)
Context (size_of_mgmt : Z).

(** [create_and_initialize] of the dynamic storage answers with an error or with the
    address of its memory, which has [supplementary_size] bytes behind the value. *)
Definition create_receiver (c : Creator) (storage : Z → result Z DynamicStorageCreateError)
    : outcome (result Management CommunicationChannelCreateError) :=
  let! supplementary_size := OverflowQueue.const_memory_size (c_buffer_size c) in
  match storage supplementary_size with
  | Err AlreadyExists => Return (Err ChannelAlreadyExists)
  | Err _ => Return (Err CreateInternalFailure)
  | Ok address =>
      let! start := uadd address size_of_mgmt in
      let mgmt := mkManagement (OverflowQueue.new_uninit (c_buffer_size c)) (c_enable_safe_overflow c) in
      let! '(r, q, _) := OverflowQueue.init (index_queue mgmt) (BumpAllocator.new start supplementary_size) in
      match r with
      | Ok _ => Return (Ok (mkManagement q (enable_safe_overflow mgmt)))
      | Err _ => Return (Err CreateInternalFailure)
      end
  end.

(** [try_open] of the storage answers with its value; so does [open_sender]. *)
Definition try_open_sender (storage : result Management DynamicStorageOpenError)
    : result Management CommunicationChannelOpenError :=
  match storage with
  | Ok m => Ok m
  | Err DynamicDoesNotExist | Err InitializationNotYetFinalized => Err ChannelDoesNotExist
  | Err _ => Err OpenInternalFailure
  end.
Definition open_sender (storage : result Management DynamicStorageOpenError) :=
  match try_open_sender storage with Ok s => Ok s | Err ChannelDoesNotExist => Err ChannelDoesNotExist | Err e => Err e end.

Definition try_send (m : Management) (v : Z) : outcome (result (option Z) CommunicationChannelSendError * Management) :=
  let! full := if negb (enable_safe_overflow m) then OverflowQueue.is_full (index_queue m) else Return false in
  if full : bool then Return (Err ReceiverCacheIsFull, m)
  else let! '(r, q) := OverflowQueue.push (index_queue m) v in Return (Ok r, mkManagement q (enable_safe_overflow m)).

Definition receive (m : Management) : outcome (result (option Z) CommunicationChannelReceiveError * Management) :=
  let! '(r, q) := OverflowQueue.pop (index_queue m) in Return (Ok r, mkManagement q (enable_safe_overflow m)).
End Operations.

#[export] Instance shm_channel `{P : Profile} : CommunicationChannel Management := {
  Channels.try_send := try_send;
  Channels.receive := receive;
  Channels.buffer_size m := OverflowQueue.capacity (index_queue m);
  Channels.does_enable_safe_overflow := enable_safe_overflow
}.
End ShmChannel.

(** ** process_local.rs *)

Module LocalChannel.
Record Management := mkManagement { queue : OverflowQueue; enable_safe_overflow : bool }.
Definition management_new (ptr : Z) (overflow : bool) (capacity : Z) : Management :=
  mkManagement (OverflowQueue.new ptr capacity) overflow.

Definition Entries := Registry.Registry Management.

Record Creator := mkCreator {
  name : FixedSizeByteString;
  c_enable_safe_overflow : bool;
  c_buffer_size : Z;
  config : Configuration
}.
Definition creator_new (n : FixedSizeByteString) (default : Configuration) : Creator :=
  mkCreator n false DEFAULT_RECEIVER_BUFFER_SIZE default.
Definition set_enable_safe_overflow (c : Creator) : Creator := mkCreator (name c) true (c_buffer_size c) (config c).
Definition set_buffer_size (c : Creator) (v : Z) : Creator := mkCreator (name c) (c_enable_safe_overflow c) v (config c).

(** Sender and receiver; [d_management] is the [Arc]. *)
Record Duplex := mkDuplex {
  d_name : FixedSizeByteString;
  d_management : nat;
  d_config : Configuration;
  d_has_ownership : bool
}.

Section Operations.
Context `{P : Profile} {Env : Settings}.
(** Whether the lock can be acquired; the address of the memory of the queue. *)
Context (lock : bool) (ptr : Z).
Implicit Types (s : Entries) (c : Creator) (d : Duplex) (m : Management).

Definition create_receiver c s : outcome (result Duplex CommunicationChannelCreateError * Entries) :=
  if negb lock then Return (Err CreateInternalFailure, s)
  else
    let! full_name := Registry.key (config c) (name c) in
    match Registry.lookup s full_name with
    | Some _ => Return (Err ChannelAlreadyExists, s)
    | None =>
        Return (Ok (mkDuplex (name c) (length (Registry.objects s)) (config c) true),
                Registry.insert_new s full_name (management_new ptr (c_enable_safe_overflow c) (c_buffer_size c)))
    end.

(** A [Connector] has a name and a configuration. *)
Definition try_open_sender (n : FixedSizeByteString) (cfg : Configuration) s
    : outcome (result Duplex CommunicationChannelOpenError) :=
  if negb lock then Return (Err OpenInternalFailure)
  else
    let! full_name := Registry.key cfg n in
    match Registry.lookup s full_name with
    | None => Return (Err ChannelDoesNotExist)
    | Some i => Return (Ok (mkDuplex n i cfg false))
    end.
Definition open_sender n cfg s : outcome (result Duplex CommunicationChannelOpenError) :=
  let! r := try_open_sender n cfg s in
  match r with
  | Err ChannelDoesNotExist => Return (Err ChannelDoesNotExist)
  | Ok v => Return (Ok v)
  | Err e => Return (Err e)
  end.

Definition drop d s : outcome Entries :=
  if d_has_ownership d then
    if negb lock then Panic
    else
      let! full_name := Registry.key (d_config d) (d_name d) in
      match Registry.lookup s full_name with
      | None => Panic
      | Some _ => Return (Registry.remove s full_name)
      end
  else Return s.

(** The producer and the consumer live for one operation. *)
Definition try_send m (v : Z) : outcome (result (option Z) CommunicationChannelSendError * Management) :=
  let! full := if negb (enable_safe_overflow m) then OverflowQueue.is_full (queue m) else Return false in
  if full : bool then Return (Err ReceiverCacheIsFull, m)
  else
    let! '(ok, q) := OverflowQueue.acquire_producer (queue m) in
    if ok : bool then
      let! '(r, q) := OverflowQueue.push q v in
      Return (Ok r, mkManagement (OverflowQueue.drop_producer q) (enable_safe_overflow m))
    else Panic.

Definition receive m : outcome (result (option Z) CommunicationChannelReceiveError * Management) :=
  let! '(ok, q) := OverflowQueue.acquire_consumer (queue m) in
  if ok : bool then
    let! '(r, q) := OverflowQueue.pop q in
    Return (Ok r, mkManagement (OverflowQueue.drop_consumer q) (enable_safe_overflow m))
  else Panic.

Definition does_exist_cfg s n cfg : outcome bool := Registry.does_exist_cfg lock cfg s n.
Definition list_cfg s cfg : outcome (list FixedSizeByteString) := Registry.list_cfg lock cfg s.
Definition remove_cfg s n cfg : outcome (bool * Entries) := Registry.remove_cfg lock cfg s n.
End Operations.

#[export] Instance local_channel `{P : Profile} : CommunicationChannel Management := {
  Channels.try_send := try_send;
  Channels.receive := receive;
  Channels.buffer_size m := OverflowQueue.capacity (queue m);
  Channels.does_enable_safe_overflow := enable_safe_overflow
}.

(** An operation of a sender or a receiver on its channel. *)
Definition on {P : Profile} {A} (f : Management → outcome (A * Management)) (d : Duplex) (s : Entries) : outcome (A * Entries) :=
  let! m := Registry.get s (d_management d) in
  let! '(r, m) := f m in Return (r, Registry.update s (d_management d) m).
End LocalChannel.

(** ** Both fulfil the contract *)

#[export] Existing Instance ShmChannel.shm_channel.
#[export] Existing Instance LocalChannel.local_channel.

Section Contract.
Context `{P : Profile}.
Implicit Types (q : OverflowQueue) (l : list Z).

(** The queue between two operations: [n] values at most have been pushed. *)
Record queue_inv (n : Z) q l : Prop := {
  qi_rep : queue_rep q l;
  qi_len : Z.of_nat (length l) ≤ capacity q;
  qi_count : write_position q ≤ n
}.

(** Nobody holds its ends. *)
Record at_rest q : Prop := {
  ar_producer : has_producer q = true;
  ar_consumer : has_consumer q = true;
  ar_init : is_memory_initialized q = true
}.

Lemma queue_inv_new ptr cap : 0 ≤ cap → queue_inv 0 (OverflowQueue.new ptr cap) [].
Proof. intros Hc. constructor; try done. by apply oq_new_rep. Qed.

Lemma queue_inv_producer n q l b : queue_inv n q l → queue_inv n (OverflowQueue.set_has_producer q b) l.
Proof. intros [[] ? ?]. by constructor. Qed.
Lemma queue_inv_consumer n q l b : queue_inv n q l → queue_inv n (OverflowQueue.set_has_consumer q b) l.
Proof. intros [[] ? ?]. by constructor. Qed.

Lemma queue_full n q l : queue_inv n q l → n + capacity q + 3 < USIZE → is_full q = Return (negb (Z.of_nat (length l) <? capacity q)).
Proof.
  intros [[Hd Hc Hr Hw Hb _] Hl Hn] Hb'. unfold is_full, acquire_read_and_write_position.
  rewrite uadd_ok by lia. cbn [obind]. f_equal.
  destruct (Z.ltb_spec (Z.of_nat (length l)) (capacity q)); destruct (Z.eqb_spec (write_position q) (read_position q + capacity q)); try done; lia.
Qed.

(** [push] counts and leaves the ends alone; so does [pop]. *)
Lemma push_frame q v r q' :
  write_position q + 1 < USIZE → 0 ≤ write_position q → push q v = Return (r, q') →
  write_position q' = write_position q + 1 ∧ has_producer q' = has_producer q ∧ has_consumer q' = has_consumer q ∧
  is_memory_initialized q' = is_memory_initialized q.
Proof.
  intros Hb Hw. unfold push. destruct (uadd _ (capacity q)); [|done..]. cbn [obind]. destruct (at_ q _); [|done..]. cbn [obind].
  destruct (raw_write _ _ _) as [d| |]; [|done..]. cbn [obind]. rewrite uadd_ok by lia. cbn [obind].
  destruct (write_position q =? _); [|by intros [= <- <-]].
  destruct (uadd _ 1); [|done..]. cbn [obind]. destruct (compare_exchange _ _ _) as [cell [x|x]].
  - destruct (at_ _ _); [|done..]. cbn [obind]. destruct (raw_read _ _); [|done..]. cbn [obind]. by intros [= <- <-].
  - by intros [= <- <-].
Qed.

Lemma queue_push n q l v :
  queue_inv n q l → n + capacity q + 3 < USIZE →
  let full := negb (Z.of_nat (length l) <? capacity q) in
  ∃ q', push q v = Return (if full then List.hd_error (l ++ [v]) else None, q') ∧
    queue_inv (n + 1) q' (if full then List.tl (l ++ [v]) else l ++ [v]) ∧ capacity q' = capacity q ∧
    has_producer q' = has_producer q ∧ has_consumer q' = has_consumer q ∧ is_memory_initialized q' = is_memory_initialized q.
Proof.
  intros [Hrep Hl Hn] Hb full. pose proof Hrep as [_ Hc0 Hr Hw _ _].
  destruct (oq_push_rep q l v Hrep) as (r & q' & l' & Hpush & Hrep' & Hl' & Hcap & Happ & Hnone); [unfold no_overflow; lia|lia|].
  destruct (push_frame q v r q') as (H1 & H2 & H3 & H4); [lia|lia|done|]. exists q'.
  assert (r = (if full then hd_error (l ++ [v]) else None) ∧ l' = if full then List.tl (l ++ [v]) else l ++ [v]) as [-> ->].
  { unfold full. destruct (Z.ltb_spec (Z.of_nat (length l)) (capacity q)) as [Hlt|Hge]; cbn [negb].
    - rewrite (proj2 Hnone Hlt) in *. by rewrite Happ.
    - destruct r as [x|]; [by rewrite Happ|]. pose proof (proj1 Hnone eq_refl). lia. }
  split; [done|]. split; [|done]. constructor; [done|by rewrite Hcap|lia].
Qed.

Lemma queue_pop n q l :
  queue_inv n q l → n + capacity q + 3 < USIZE →
  ∃ q', pop q = Return (List.hd_error l, q') ∧ queue_inv n q' (List.tl l) ∧ capacity q' = capacity q ∧
    has_producer q' = has_producer q ∧ has_consumer q' = has_consumer q ∧ is_memory_initialized q' = is_memory_initialized q.
Proof.
  intros [Hrep Hl Hn] Hb. pose proof Hrep as [_ ? ? ? _ _]. assert (no_overflow q) as Hov by (unfold no_overflow; lia).
  pose proof (oq_pop_rep q l Hrep Hov) as Hpop. destruct l as [|x l]; [by exists q|]. destruct Hpop as [Hpop Hrep']. eexists.
  split; [exact Hpop|]. split; [|done]. constructor; try done. cbn [List.tl] in *. cbn in Hl. cbn. lia.
Qed.

#[export] Instance shm_channel_contract : ChannelContract ShmChannel.Management.
Proof.
  refine {| ch_rep n m l := queue_inv n (ShmChannel.index_queue m) l |}.
  - intros n m l Hi. by destruct Hi.
  - intros n [q o] l v Hi Hb. cbn in *. unfold ShmChannel.try_send, send_spec. cbn [ShmChannel.enable_safe_overflow ShmChannel.index_queue].
    destruct (queue_push n q l v Hi Hb) as (q' & Hp & Hi' & Hc & _).
    destruct o; cbn [negb].
    + cbn [obind]. rewrite Hp. cbn [obind]. eexists. destruct (Z.of_nat (length l) <? capacity q); by split_and!.
    + rewrite (queue_full n q l Hi Hb). cbn [obind]. destruct (Z.ltb_spec (Z.of_nat (length l)) (capacity q)); cbn [negb] in *.
      * rewrite Hp. cbn [obind]. eexists. by split_and!.
      * eexists. split; [done|]. split; [|done]. destruct Hi. constructor; try done. cbn. lia.
  - intros n [q o] l Hi Hb. cbn in *. unfold ShmChannel.receive. cbn [ShmChannel.enable_safe_overflow ShmChannel.index_queue].
    destruct (queue_pop n q l Hi Hb) as (q' & -> & Hi' & Hc & _). cbn [obind]. eexists. by split_and!.
Defined.

#[export] Instance local_channel_contract : ChannelContract LocalChannel.Management.
Proof.
  refine {| ch_rep n m l := queue_inv n (LocalChannel.queue m) l ∧ at_rest (LocalChannel.queue m) |}.
  - intros n m l [Hi _]. by destruct Hi.
  - intros n [q o] l v [Hi [Hap Hac Hai]] Hb. cbn in *. unfold LocalChannel.try_send, send_spec.
    cbn [LocalChannel.enable_safe_overflow LocalChannel.queue].
    destruct (queue_push n _ l v (queue_inv_producer n q l false Hi) Hb) as (q' & Hp & Hi' & Hc & _ & H2 & H3).
    cbn in Hp, Hi', Hc, H2, H3.
    assert (acquire_producer q = Return (true, OverflowQueue.set_has_producer q false)) as Hacq.
    { unfold acquire_producer, verify_init. by rewrite Hai, Hap. }
    assert (at_rest (drop_producer q')) as Hrest by (constructor; cbn; congruence).
    destruct o; cbn [negb].
    + cbn [obind]. rewrite Hacq. cbn [obind]. rewrite Hp. cbn [obind]. eexists.
      destruct (Z.of_nat (length l) <? capacity q); (split; [done|]; split; [split; [by apply queue_inv_producer|done]|done]).
    + rewrite (queue_full n q l Hi Hb). cbn [obind]. destruct (Z.ltb_spec (Z.of_nat (length l)) (capacity q)); cbn [negb] in *.
      * rewrite Hacq. cbn [obind]. rewrite Hp. cbn [obind]. eexists.
        split; [done|]. split; [split; [by apply queue_inv_producer|done]|done].
      * eexists. split; [done|]. split; [|done]. destruct Hi. split; [|done]. constructor; try done. cbn. lia.
  - intros n [q o] l [Hi [Hap Hac Hai]] Hb. cbn in *. unfold LocalChannel.receive.
    cbn [LocalChannel.enable_safe_overflow LocalChannel.queue].
    assert (acquire_consumer q = Return (true, OverflowQueue.set_has_consumer q false)) as ->.
    { unfold acquire_consumer, verify_init. by rewrite Hai, Hac. }
    cbn [obind].
    destruct (queue_pop n _ l (queue_inv_consumer n q l false Hi) Hb) as (q' & -> & Hi' & Hc & H1 & _ & H3). cbn in Hc, H1, H3.
    cbn [obind]. eexists. split; [done|]. split; [|done]. split; [by apply queue_inv_consumer|]. constructor; cbn; congruence.
Defined.
End Contract.

(** ** The theorems *)

Section Theorems.
Context `{P : Profile}.

Lemma send_try `{!CommunicationChannel M} (m : M) v : send m v = try_send m v.
Proof. unfold send. by destruct (try_send m v) as [[[r|[]] m']| |]. Qed.

Lemma run_refines `{!CommunicationChannel M, !ChannelContract M} (n : Z) (m : M) l cs :
  ch_rep n m l → n + Z.of_nat (length cs) + buffer_size m + 3 < USIZE →
  ∃ m', run m cs = Return ((run_spec (buffer_size m) (does_enable_safe_overflow m) l cs).1, m') ∧
    (∃ n', n' ≤ n + Z.of_nat (length cs) ∧ ch_rep n' m' (run_spec (buffer_size m) (does_enable_safe_overflow m) l cs).2) ∧
    buffer_size m' = buffer_size m ∧ does_enable_safe_overflow m' = does_enable_safe_overflow m.
Proof.
  revert n m l. induction cs as [|c cs IH]; intros n m l Hm Hb; cbn [length] in *.
  - exists m. split; [done|]. split; [|done]. exists n. split; [lia|done].
  - destruct c as [v|]; cbn [run run_spec].
    + destruct (ch_send n m l v Hm) as (m1 & Hs & Hm1 & Hc1 & Ho1); [lia|].
      destruct (send_spec (buffer_size m) (does_enable_safe_overflow m) l v) as [r l1]. cbn [fst snd] in *.
      destruct (IH (n + 1) m1 l1 Hm1) as (m' & Hr & (n' & Hn' & Hm') & Hc' & Ho'); [rewrite Hc1; lia|].
      rewrite Hc1, Ho1 in *. rewrite send_try, Hs. cbn [obind]. rewrite Hr. cbn [obind].
      destruct (run_spec _ _ l1 cs) as [rs l2]. exists m'. split; [done|]. split; [|done]. exists n'. split; [lia|done].
    + destruct (ch_receive n m l Hm) as (m1 & Hs & Hm1 & Hc1 & Ho1); [lia|].
      destruct (receive_spec l) as [r l1]. cbn [fst snd] in *.
      destruct (IH n m1 l1 Hm1) as (m' & Hr & (n' & Hn' & Hm') & Hc' & Ho'); [rewrite Hc1; lia|].
      rewrite Hc1, Ho1 in *. rewrite Hs. cbn [obind]. rewrite Hr. cbn [obind].
      destruct (run_spec _ _ l1 cs) as [rs l2]. exists m'. split; [done|]. split; [|done]. exists n'. split; [lia|done].
Qed.

(** C22. A channel is a bounded queue, in shared memory and within a process alike: every
    sequence of sends and receives, as long as fewer values are sent than a position can
    count, returns exactly what the queue does. Values arrive once and in their order; on
    a full channel a value is refused, or, with safe overflow, it replaces the oldest
    one, which goes back to the sender; nothing panics, and the channel stays one. *)
Theorem channel_refines_queue n q overflow l cs :
  queue_inv n q l → n + Z.of_nat (length cs) + capacity q + 3 < USIZE →
  let expected := run_spec (capacity q) overflow l cs in
  (∃ m n', run (ShmChannel.mkManagement q overflow) cs = Return (expected.1, m) ∧ ch_rep n' m expected.2 ∧
     buffer_size m = capacity q ∧ does_enable_safe_overflow m = overflow) ∧
  (at_rest q →
   ∃ m n', run (LocalChannel.mkManagement q overflow) cs = Return (expected.1, m) ∧ ch_rep n' m expected.2 ∧
     buffer_size m = capacity q ∧ does_enable_safe_overflow m = overflow).
Proof.
  intros Hq Hb expected. split.
  - assert (ch_rep n (ShmChannel.mkManagement q overflow) l) as Hm by exact Hq.
    destruct (run_refines n _ l cs Hm Hb) as (m & Hr & (n' & _ & Hm') & H1 & H2). by exists m, n'.
  - intros Hrest. assert (ch_rep n (LocalChannel.mkManagement q overflow) l) as Hm by exact (conj Hq Hrest).
    destruct (run_refines n _ l cs Hm Hb) as (m & Hr & (n' & _ & Hm') & H1 & H2). by exists m, n'.
Qed.

(** Setting up a channel in shared memory works: the supplementary memory that is asked
    for holds the queue whatever address it is at, so that the initialization never fails;
    the new channel is empty and has the requested size. What the storage refuses is
    reported. *)
Theorem shm_channel_setup_correct size_of_mgmt (c : ShmChannel.Creator) storage :
  0 ≤ ShmChannel.c_buffer_size c → 0 ≤ size_of_mgmt →
  (∀ k a, storage k = Ok a → 0 ≤ a ∧ a + size_of_mgmt + 16 * (ShmChannel.c_buffer_size c + 4) < USIZE) →
  16 * (ShmChannel.c_buffer_size c + 4) < USIZE →
  ∃ r, ShmChannel.create_receiver size_of_mgmt c storage = Return r ∧
  match r with
  | Ok m =>
      ch_rep 0 m [] ∧ buffer_size m = ShmChannel.c_buffer_size c ∧
      does_enable_safe_overflow m = ShmChannel.c_enable_safe_overflow c ∧
      ShmChannel.open_sender (Ok m) = Ok m
  | Err e => ∃ k err, storage k = Err err ∧ (e = ChannelAlreadyExists ↔ err = AlreadyExists)
  end.
Proof.
  intros Hc Hs Hst Hb. set (cap := ShmChannel.c_buffer_size c) in *. unfold ShmChannel.create_receiver. fold cap.
  unfold OverflowQueue.const_memory_size. rewrite uadd_ok by lia. cbn [obind]. rewrite umul_ok by lia. cbn [obind].
  rewrite uadd_ok by lia. cbn [obind]. rewrite usub_ok by lia. cbn [obind].
  destruct (storage (8 * (cap + 1) + 8 - 1)) as [a|err] eqn:Ea.
  - destruct (Hst _ _ Ea) as [Ha Hab]. rewrite uadd_ok by lia. cbn [obind].
    set (a0 := BumpAllocator.new (a + size_of_mgmt) (8 * (cap + 1) + 8 - 1)).
    assert (bump_owns a0 (a + size_of_mgmt) (a + size_of_mgmt + (8 * (cap + 1) + 8 - 1)) []) as Hown
      by (constructor; cbn; try done; lia).
    unfold OverflowQueue.init, OverflowQueue.new_uninit. cbn [ShmChannel.index_queue is_memory_initialized capacity].
    rewrite uadd_ok by lia. cbn [obind]. rewrite umul_ok by lia. cbn [obind].
    destruct (bump_allocate_succeeds a0 _ _ [] (mkLayout (8 * (cap + 1)) 8) Hown) as (c1 & a1 & Ha1 & Hl1 & _);
      [split; cbn; [lia|by exists 3]|cbn; lia..|].
    cbn [allocate bump_BaseAllocator]. rewrite Ha1. cbn [obind]. cbn in Hl1. rewrite (proj2 (Z.leb_le _ _)) by lia. cbn [obind].
    eexists. split; [done|]. cbn beta iota. split; [|done]. cbn. constructor; cbn; try lia.
    constructor; cbn; rewrite ?length_replicate; try lia. apply ring_rep_nil.
  - exists (match err with AlreadyExists => Err ChannelAlreadyExists | _ => Err CreateInternalFailure end).
    split; [by destruct err|]. destruct err; by do 2 eexists.
Qed.

Section Local.
Import LocalChannel.
Context `{Env : Settings}.
Implicit Types (s : Entries) (c : Creator) (d : Duplex).

(** The life of a channel within a process: its name can be used once; who opens it
    sends on the channel of the receiver, and any sequence of operations through the two
    ends does what the queue does; when the receiver is dropped the name is free, while
    the sender still works on what is left. *)
Theorem local_channel_round_trip ptr c k s cs v :
  Registry.key (config c) (name c) = Return k → Registry.lookup s k = None → 0 ≤ c_buffer_size c →
  Z.of_nat (length cs) + c_buffer_size c + 4 < USIZE →
  ∃ d s1 d' s2 s3 r s4,
    create_receiver true ptr c s = Return (Ok d, s1) ∧
    create_receiver true ptr c s1 = Return (Err ChannelAlreadyExists, s1) ∧
    does_exist_cfg true s1 (name c) (config c) = Return true ∧
    open_sender true (name c) (config c) s1 = Return (Ok d') ∧ d_management d' = d_management d ∧
    on (λ m, run m cs) d' s1 = Return ((run_spec (c_buffer_size c) (c_enable_safe_overflow c) [] cs).1, s2) ∧
    drop true d' s2 = Return s2 ∧ drop true d s2 = Return s3 ∧
    does_exist_cfg true s3 (name c) (config c) = Return false ∧
    on (λ m, send m v) d' s3 = Return (r, s4) ∧
    r = (send_spec (c_buffer_size c) (c_enable_safe_overflow c) (run_spec (c_buffer_size c) (c_enable_safe_overflow c) [] cs).2 v).1.
Proof.
  intros Hk Hs Hc Hb. set (m := management_new ptr (c_enable_safe_overflow c) (c_buffer_size c)).
  assert (ch_rep 0 m []) as Hm by (split; [by apply queue_inv_new|done]).
  destruct (run_refines 0 m [] cs Hm) as (m' & Hr & (n' & Hn' & Hm') & Hc' & Ho'); [cbn; lia|].
  destruct (ch_send n' m' _ v Hm') as (m2 & Hs2 & _); [rewrite Hc'; cbn; lia|]. rewrite Hc', Ho' in Hs2.
  set (i := length (Registry.objects s)). set (s1 := Registry.insert_new s k m).
  assert (i < length (Registry.objects s1))%nat as Hi by (cbn; rewrite length_app; cbn; lia).
  exists (mkDuplex (name c) i (config c) true), s1, (mkDuplex (name c) i (config c) false), (Registry.update s1 i m').
  exists (Registry.remove (Registry.update s1 i m') k). eexists _, (Registry.update (Registry.remove (Registry.update s1 i m') k) i m2).
  unfold create_receiver, does_exist_cfg, Registry.does_exist_cfg, open_sender, try_open_sender, drop, on.
  cbn [negb d_has_ownership d_config d_name d_management]. rewrite Hk. cbn [obind]. rewrite Hs.
  assert (Registry.lookup s1 k = Some i) as Hl by apply Registry.lookup_insert_new.
  assert (Registry.lookup (Registry.update s1 i m') k = Some i) as -> by exact Hl. rewrite Hl. cbn [obind].
  assert (Registry.get s1 i = Return m) as -> by apply Registry.get_insert_new. cbn [obind]. rewrite Hr. cbn [obind].
  assert (Registry.get (Registry.remove (Registry.update s1 i m') k) i = Return m') as ->.
  { unfold Registry.get. cbn. by rewrite list_lookup_insert_eq by exact Hi. }
  cbn [obind]. rewrite send_try, Hs2. cbn [obind].
  assert (Registry.lookup (Registry.remove (Registry.update s1 i m') k) k = None) as -> by apply lookup_delete_eq.
  by split_and!.
Qed.

(** The channel is meant to have exactly one sender. Nobody counts them: a second one is
    accepted, and if it sends while the first one does, it panics. *)
Theorem second_sender_panics c d s n m v :
  Registry.key (config c) (name c) = Return n → Registry.lookup s n = Some (d_management d) →
  has_producer (queue m) = false → is_memory_initialized (queue m) = true →
  enable_safe_overflow m = true →
  open_sender true (name c) (config c) s = Return (Ok (mkDuplex (name c) (d_management d) (config c) false)) ∧
  send m v = Panic.
Proof.
  intros Hk Hl Hp Hi Ho. split.
  - unfold open_sender, try_open_sender. cbn [negb]. rewrite Hk. cbn [obind]. by rewrite Hl.
  - rewrite send_try. unfold Channels.try_send, local_channel, try_send. rewrite Ho. cbn [negb obind].
    unfold acquire_producer, verify_init. by rewrite Hi, Hp.
Qed.
End Local.
End Theorems.

Section Witnesses.
#[local] Instance checked : Profile := true.
#[local] Existing Instance settings_unix.

Lemma some_channel_name : ∃ cfg channel_name k, Registry.key cfg channel_name = Return k.
Proof.
  destruct default_config_ok as (cfg & channel_name & _ & Hn & Hc). do 3 eexists.
  apply (Registry.key_ok _ _ _ _ _ Hc Hn). vm_compute. discriminate.
Qed.

(** Two values into a channel for one, which overflows. *)
Lemma channel_refines_queue_witness :
  ∃ m, run (LocalChannel.management_new 4096 true 1) [Send 7; Send 8; Receive; Receive] =
    Return ([Sent (Ok None); Sent (Ok (Some 7)); Received (Ok (Some 8)); Received (Ok None)], m).
Proof.
  destruct (channel_refines_queue 0 (OverflowQueue.new 4096 1) true [] [Send 7; Send 8; Receive; Receive]) as [_ H];
    [by apply queue_inv_new|reflexivity|]. destruct H as (m & n' & Hr & _); [by constructor|]. exists m. exact Hr.
Defined.

Lemma shm_channel_setup_correct_witness :
  ∃ c m, ShmChannel.create_receiver 100 c (λ _, Ok 4096) = Return (Ok m) ∧ buffer_size m = 8.
Proof.
  destruct some_channel_name as (cfg & n & k & _).
  destruct (shm_channel_setup_correct 100 (ShmChannel.new n cfg) (λ _, Ok 4096)) as ([m|e] & H1 & H2);
    [done|done|intros _ a [= <-]; done|done| |].
  - exists (ShmChannel.new n cfg), m. exact (conj H1 (proj1 (proj2 H2))).
  - exfalso. destruct H2 as (x & err & Hx & _). discriminate.
Defined.

Lemma local_channel_round_trip_witness :
  ∃ c d s1 d' s2, LocalChannel.create_receiver true 4096 c Registry.empty_registry = Return (Ok d, s1) ∧
    LocalChannel.open_sender true (LocalChannel.name c) (LocalChannel.config c) s1 = Return (Ok d') ∧
    LocalChannel.on (λ m, run m [Send 7; Receive]) d' s1 = Return ([Sent (Ok None); Received (Ok (Some 7))], s2).
Proof.
  destruct some_channel_name as (cfg & n & k & Hk).
  destruct (local_channel_round_trip 4096 (LocalChannel.creator_new n cfg) k Registry.empty_registry [Send 7; Receive] 9 Hk eq_refl)
    as (d & s1 & d' & s2 & s3 & r & s4 & H1 & _ & _ & H2 & _ & H3 & _); [done|done|].
  do 5 eexists. exact (conj H1 (conj H2 H3)).
Defined.
End Witnesses.
