(* ===== verification/MqChannel.v ===== *)
(** * elkodon_cal/src/communication_channel/message_queue.rs

    The third implementation of the communication channel: a message queue of the operating
    system, and a piece of shared memory with its settings. Sender and receiver are handles
    of the queue ([MessageQueue]); the sender receives from it to make room.

    The theorems: it fulfils the contract of a channel, so that any sequence of operations
    does what the bounded queue does, and a channel that cannot be set up leaves no queue
    behind. The sender that makes room panics when the receiver was faster, and a channel
    with a small buffer is not found. *)

From S2P Require Import Prelude ByteString SemanticString SystemTypes NamedConcept Clock.
From S2P Require MessageQueue SharedMemory Channels.

Import Bytes(FixedSizeByteString).
Import Naming.
Import Channels(CommunicationChannel, ChannelContract, CommunicationChannelSendError, CommunicationChannelReceiveError,
  CommunicationChannelCreateError, CommunicationChannelOpenError, ReceiverCacheIsFull, SendInternalFailure, ReceiveInternalFailure,
  ChannelAlreadyExists, CreateInternalFailure, OpenInternalFailure, ChannelDoesNotExist, DEFAULT_RECEIVER_BUFFER_SIZE).
Import MessageQueue(MessageQueueOs, MessageQueueLaws, mqdes, is_non_blocking, value, mkMessage, set_non_blocking).

(** [elkodon_bb_posix::shared_memory::SharedMemoryRemoveError] *)
Inductive SharedMemoryRemoveError := ShmRemoveInsufficientPermissions | ShmRemoveDoesNotExist | ShmRemoveUnknownError (e : Z).

Record SharedConfiguration := mkSharedConfiguration { has_safe_overflow : bool; buffer_size : Z }.

Record Creator := mkCreator {
  channel_name : FixedSizeByteString;
  enable_safe_overflow : bool;
  c_buffer_size : Z;
  config : Configuration
}.
Definition creator_new (n : FixedSizeByteString) (default : Configuration) : Creator :=
  mkCreator n false DEFAULT_RECEIVER_BUFFER_SIZE default.
Definition set_config (c : Creator) (cfg : Configuration) : Creator := mkCreator (channel_name c) (enable_safe_overflow c) (c_buffer_size c) cfg.
Definition set_enable_safe_overflow (c : Creator) : Creator := mkCreator (channel_name c) true (c_buffer_size c) (config c).
Definition set_buffer_size (c : Creator) (v : Z) : Creator := mkCreator (channel_name c) (enable_safe_overflow c) v (config c).

Record Sender := mkSender { s_name : FixedSizeByteString; sender : MessageQueue.MessageQueue; s_config : SharedConfiguration }.
Record Receiver := mkReceiver { r_name : FixedSizeByteString; receiver : MessageQueue.MessageQueue; r_config : SharedConfiguration }.
Definition set_sender (s : Sender) (q : MessageQueue.MessageQueue) : Sender := mkSender (s_name s) q (s_config s).
Definition set_receiver (r : Receiver) (q : MessageQueue.MessageQueue) : Receiver := mkReceiver (r_name r) q (r_config r).

(** The answers of [elkodon_bb_posix::shared_memory]: creating and opening the piece that
    holds a [SharedConfiguration], [set_permission], [does_exist], [list] and [remove]. *)
Record SharedMemoryOs (W : Type) := mkSharedMemoryOs {
  shm_create : FixedSizeByteString → SharedConfiguration → W → result unit SharedMemory.SharedMemoryCreationError * W;
  shm_set_permission : FixedSizeByteString → W → bool * W;
  shm_open_existing : FixedSizeByteString → W → result SharedConfiguration SharedMemory.SharedMemoryCreationError * W;
  shm_does_exist : FixedSizeByteString → W → bool;
  shm_list : W → list FixedSizeByteString;
  shm_remove : FixedSizeByteString → W → result unit SharedMemoryRemoveError * W
}.
Arguments shm_create {W}. Arguments shm_set_permission {W}. Arguments shm_open_existing {W}.
Arguments shm_does_exist {W}. Arguments shm_list {W}. Arguments shm_remove {W}.

Section Operations.
Context `{P : Profile} {Env : Settings} {W : Type} `{!ClockOs W, !MessageQueueOs W}.
(** [size_of::<T>()]; the permissions and the clock a builder starts with. *)
Context (size_of owner_all : Z) (default_clock : ClockType) (shm : SharedMemoryOs W).
Implicit Types (w : W) (cfg : Configuration) (name : FixedSizeByteString).

(** The name of the queue, as the builder gets it. *)
Definition queue_builder (file : FixedSizeByteString) : outcome MessageQueue.MessageQueueBuilder :=
  let! bytes := Bytes.as_bytes file in Return (MessageQueue.builder_new bytes owner_all default_clock).
Definition queue_exists (file : FixedSizeByteString) w : outcome (result bool MessageQueue.MessageQueueOpenError * W) :=
  let! bytes := Bytes.as_bytes file in MessageQueue.does_message_queue_exist size_of bytes owner_all default_clock w.

(** ** The concept *)

Definition does_exist_cfg name cfg w : outcome (result bool NamedConceptDoesExistError * W) :=
  let! file := full_name cfg name in
  let! '(r, w) := queue_exists file w in
  match r with
  | Err MessageQueue.OpenPermissionDenied => Return (Err DoesExistInsufficientPermissions, w)
  | Err _ => Return (Err DoesExistInternalError, w)
  | Ok does_mq_exist =>
      let does_shm_exist := shm_does_exist shm file w in
      if negb (eqb does_shm_exist does_mq_exist) then Return (Err UnderlyingResourcesBeingSetUp, w)
      else Return (Ok does_shm_exist, w)
  end.

Fixpoint list_loop cfg (entries : list FixedSizeByteString) w : outcome (list FixedSizeByteString * W) :=
  match entries with
  | [] => Return ([], w)
  | entry :: entries =>
      let! v := extract_name_from_file cfg entry in
      match v with
      | None => list_loop cfg entries w
      | Some entry_name =>
          let! '(r, w) := queue_exists entry w in
          let! '(rest, w) := list_loop cfg entries w in
          Return (match r with Ok true => entry_name :: rest | _ => rest end, w)
      end
  end.
Definition list_cfg cfg w := list_loop cfg (shm_list shm w) w.

Definition remove_cfg name cfg w : outcome (result bool NamedConceptRemoveError * W) :=
  let! file := full_name cfg name in
  let! bytes := Bytes.as_bytes file in
  let '(r, w) := MessageQueue.remove_message_queue bytes w in
  match r with
  | Ok _ | Err MessageQueue.RemoveDoesNotExist =>
      let '(r, w) := shm_remove shm file w in
      Return (match r with
              | Ok _ => Ok true
              | Err ShmRemoveDoesNotExist => Ok false
              | Err ShmRemoveInsufficientPermissions => Err RemoveInsufficientPermissions
              | Err _ => Err RemoveInternalError
              end, w)
  | Err _ => Return (Err RemoveInternalError, w)
  end.

(** ** Setting up a channel *)

(** A queue without its shared memory is dropped, and removed. *)
Definition create_receiver (c : Creator) w : outcome (result Receiver CommunicationChannelCreateError * W) :=
  let! file := full_name (config c) (channel_name c) in
  let! b := queue_builder file in
  let! '(r, w) := MessageQueue.create_receiver size_of (MessageQueue.set_capacity b (c_buffer_size c)) MessageQueue.CreateExclusive w in
  match r with
  | Err MessageQueue.AlreadyExist => Return (Err ChannelAlreadyExists, w)
  | Err _ => Return (Err CreateInternalFailure, w)
  | Ok q =>
      let shared := mkSharedConfiguration (enable_safe_overflow c) (c_buffer_size c) in
      let '(r, w) := shm_create shm file shared w in
      match r with
      | Err e =>
          let! w := MessageQueue.drop q w in
          Return (Err (match e with SharedMemory.AlreadyExist => ChannelAlreadyExists | _ => CreateInternalFailure end), w)
      | Ok _ =>
          let '(ok, w) := shm_set_permission shm file w in
          if ok : bool then Return (Ok (mkReceiver (channel_name c) q shared), w) else Panic
      end
  end.

(** A [Connector] is a name and a configuration. *)
Definition try_open_sender name cfg w : outcome (result Sender CommunicationChannelOpenError * W) :=
  let! file := full_name cfg name in
  let '(r, w) := shm_open_existing shm file w in
  match r with
  | Err SharedMemory.DoesNotExist => Return (Err ChannelDoesNotExist, w)
  | Err _ => Return (Err OpenInternalFailure, w)
  | Ok shared =>
      let! b := queue_builder file in
      let! '(r, w) := MessageQueue.open_duplex size_of (MessageQueue.set_capacity b (buffer_size shared)) w in
      Return (match r with
              | Ok q => Ok (mkSender name q shared)
              | Err MessageQueue.OpenDoesNotExist => Err ChannelDoesNotExist
              | Err _ => Err OpenInternalFailure
              end, w)
  end.
Definition open_sender name cfg w : outcome (result Sender CommunicationChannelOpenError * W) :=
  let! '(r, w) := try_open_sender name cfg w in
  match r with Ok s => Return (Ok s, w) | Err ChannelDoesNotExist => Return (Err ChannelDoesNotExist, w) | Err v => Return (Err v, w) end.

(** ** Sending and receiving *)

(** [self.sender().try_receive().unwrap().unwrap().value] *)
Definition take_oldest (s : Sender) w : outcome (Z * Sender * W) :=
  let! '(r, q, w) := MessageQueue.try_receive size_of (sender s) w in
  match r with
  | Ok (Some m) => Return (value m, set_sender s q, w)
  | _ => Panic
  end.

(** The loop, with the [oldest_sample] of the rounds before. *)
Fixpoint try_send_loop (fuel : nat) (oldest_sample : option Z) (s : Sender) (data : Z) w
    : outcome (result (option Z) CommunicationChannelSendError * Sender * W) :=
  match fuel with
  | O => Undefined
  | S fuel =>
      let! '(r, q, w) := MessageQueue.try_send size_of (sender s) data w in
      let s := set_sender s q in
      match r with
      | Ok true => Return (Ok oldest_sample, s, w)
      | Ok false | Err MessageQueue.QueueIsFull =>
          if has_safe_overflow (s_config s) then
            let! '(v, s, w) := take_oldest s w in try_send_loop fuel (Some v) s data w
          else Return (Err ReceiverCacheIsFull, s, w)
      | Err _ => Return (Err SendInternalFailure, s, w)
      end
  end.
Definition try_send (fuel : nat) (s : Sender) (data : Z) w := try_send_loop fuel None s data w.

Definition receive (r : Receiver) w : outcome (result (option Z) CommunicationChannelReceiveError * Receiver * W) :=
  let! '(res, q, w) := MessageQueue.try_receive size_of (receiver r) w in
  Return (match res with
          | Ok (Some v) => Ok (Some (value v))
          | Ok None => Ok None
          | Err _ => Err ReceiveInternalFailure
          end, set_receiver r q, w).

Definition receiver_buffer_size (r : Receiver) : Z := MessageQueue.mq_capacity (receiver r).

(** A sender and a receiver, and the operating system they share. *)
Record Channel := mkChannel { ch_sender : Sender; ch_receiver : Receiver; ch_world : W }.

(** Two rounds: the sender and the receiver do not overtake each other. *)
#[export] Instance mq_channel : CommunicationChannel Channel := {
  Channels.try_send c v := let! '(r, s, w) := try_send 2 (ch_sender c) v (ch_world c) in Return (r, mkChannel s (ch_receiver c) w);
  Channels.receive c := let! '(v, r, w) := receive (ch_receiver c) (ch_world c) in Return (v, mkChannel (ch_sender c) r w);
  Channels.buffer_size c := receiver_buffer_size (ch_receiver c);
  Channels.does_enable_safe_overflow c := has_safe_overflow (s_config (ch_sender c))
}.
End Operations.

(** ** What the channel does *)

Section Theorems.
Context `{P : Profile} {Env : Settings} {W : Type} `{!ClockOs W, !ClockLaws W, !MessageQueueOs W, !MessageQueueLaws W}.
Context (size_of owner_all : Z) (default_clock : ClockType) (shm : SharedMemoryOs W).
Implicit Types (w : W) (s : Sender) (r : Receiver) (l : list Z).

Notation kernel := MessageQueue.kernel.
Notation mq_chan := (mq_channel size_of).
#[local] Existing Instance mq_channel.

(** The messages of a channel all have the same priority. *)
Definition messages (l : list Z) : list MessageQueue.Message := (λ v, mkMessage v 0) <$> l.
Definition modes : list MessageQueue.TransmissionMode := [MessageQueue.SendingAndReceiving; MessageQueue.Receiving].

(** The sender and the receiver have the queue [id], in which [l] is on its way. *)
Definition connected (id : Z) s r w l : Prop :=
  MessageQueue.attached size_of (kernel w) modes id (MessageQueue.mq_capacity (receiver r)) [sender s; receiver r] (messages l) ∧
  0 < MessageQueue.mq_capacity (receiver r).

Lemma enqueue_last v l : MessageQueue.enqueue MessageQueue.priority (mkMessage v 0) (messages l) = messages (l ++ [v]).
Proof. unfold messages. induction l as [|x l IH]; [done|]. cbn. f_equal. exact IH. Qed.

Lemma sender_step o id s r w l :
  connected id s r w l → o = MessageQueue.OpTryReceive 0 ∨ (∃ v, o = MessageQueue.OpTrySend 0 v 0) →
  let spec := MessageQueue.priority_queue_step (MessageQueue.mq_capacity (receiver r)) o (messages l) in
  ∃ q w', MessageQueue.mq_step size_of o [sender s; receiver r] w = Return (spec.1, [q; receiver r], w') ∧
    (∀ l', spec.2 = messages l' → connected id (set_sender s q) r w' l').
Proof.
  intros [Hat Hc] Ho spec.
  assert (MessageQueue.op_ok modes o) as Hok.
  { pose proof MessageQueue.mq_prio_max_law. destruct Ho as [->|(v & ->)]; cbn; [by eexists|]. split; [by eexists|lia]. }
  destruct (MessageQueue.mq_step_refines size_of modes id _ _ _ w o Hat Hok) as (qs' & w' & Hs & Hat').
  assert (∃ q, qs' = [q; receiver r]) as [q ->].
  { clear -Hs Ho. destruct Ho as [->|(v & ->)]; cbn [MessageQueue.mq_step lookup list_lookup] in Hs;
      match type of Hs with (let! _ := ?x in _) = _ => destruct x as [[[? q] ?]| |] end; try done; cbn [obind insert list_insert] in Hs; exists q; congruence. }
  exists q, w'. split; [done|]. intros l' Hl'. split; [|done]. subst spec. by rewrite <- Hl'.
Qed.

Lemma sender_try_send id s r w l v :
  connected id s r w l →
  let room := Z.of_nat (length l) <? MessageQueue.mq_capacity (receiver r) in
  ∃ q w', MessageQueue.try_send size_of (sender s) v w = Return (Ok room, q, w') ∧
    connected id (set_sender s q) r w' (if room then l ++ [v] else l).
Proof.
  intros Hcon room. destruct (sender_step (MessageQueue.OpTrySend 0 v 0) id s r w l Hcon) as (q & w' & Hs & Hcon'); [right; by eexists|].
  exists q, w'. cbn [MessageQueue.priority_queue_step] in *. unfold messages in Hs at 1 2. rewrite length_fmap in *. fold (messages l) in *.
  assert (MessageQueue.try_send size_of (sender s) v w = Return (Ok room, q, w')) as ->.
  { cbn [MessageQueue.mq_step lookup list_lookup] in Hs. unfold MessageQueue.try_send. destruct (MessageQueue.try_send_with_prio _ _ _ _ _) as [[[? ?] ?]| |]; try done.
    cbn [obind] in Hs. subst room. destruct (_ <? _); cbn in Hs; congruence. }
  split; [done|]. subst room. apply Hcon'. unfold messages at 1. rewrite length_fmap. destruct (_ <? _); [apply enqueue_last|done].
Qed.

Lemma sender_take_oldest id s r w v l :
  connected id s r w (v :: l) →
  ∃ s' w', take_oldest size_of s w = Return (v, s', w') ∧ s_config s' = s_config s ∧ connected id s' r w' l.
Proof.
  intros Hcon. destruct (sender_step (MessageQueue.OpTryReceive 0) id s r w _ Hcon) as (q & w' & Hs & Hcon'); [by left|].
  exists (set_sender s q), w'. unfold take_oldest. cbn [MessageQueue.mq_step lookup list_lookup] in Hs.
  destruct (MessageQueue.try_receive size_of (sender s) w) as [[[? ?] ?]| |]; try done. cbn in Hs. injection Hs as -> -> ->. cbn [obind].
  split; [done|]. split; [done|]. by apply Hcon'.
Qed.

Lemma sender_take_nothing id s r w : connected id s r w [] → take_oldest size_of s w = Panic.
Proof.
  intros Hcon. destruct (sender_step (MessageQueue.OpTryReceive 0) id s r w _ Hcon) as (q & w' & Hs & _); [by left|].
  unfold take_oldest. cbn [MessageQueue.mq_step lookup list_lookup] in Hs.
  destruct (MessageQueue.try_receive size_of (sender s) w) as [[[? ?] ?]| |]; try done. cbn in Hs. by injection Hs as -> -> ->.
Qed.

Lemma receiver_receive id s r w l :
  connected id s r w l →
  ∃ r' w', receive size_of r w = Return (Ok (head l), r', w') ∧ receiver_buffer_size r' = receiver_buffer_size r ∧ connected id s r' w' (tail l).
Proof.
  intros [Hat Hc].
  destruct (MessageQueue.mq_step_refines size_of modes id _ _ _ w (MessageQueue.OpTryReceive 1) Hat ltac:(by eexists)) as (qs' & w' & Hs & Hat').
  cbn [MessageQueue.mq_step lookup list_lookup] in Hs. unfold receive, MessageQueue.try_receive, MessageQueue.internal_receive in *.
  destruct (MessageQueue.mq_set_nonblock (receiver r) true w) as [[q1 w1]| |] eqn:Eq; try done. cbn [obind] in *.
  assert (MessageQueue.mq_capacity q1 = MessageQueue.mq_capacity (receiver r)) as Hq1.
  { unfold MessageQueue.mq_set_nonblock in Eq. repeat case_match; by simplify_eq. }
  destruct (MessageQueue.mq_receive (mqdes q1) size_of w1) as [x w2]. cbn [obind insert list_insert fst snd] in *.
  injection Hs as Hx <- <-. do 2 eexists. rewrite Hx. split; [destruct l; reflexivity|]. unfold receiver_buffer_size, connected. cbn. rewrite Hq1.
  split; [done|]. split; [|done]. replace (messages (tail l)) with (tail (messages l)) by by destruct l. exact Hat'.
Qed.

#[export] Instance mq_contract : @ChannelContract P (@Channel W) mq_chan.
Proof.
  refine {| Channels.ch_rep n c l := 0 ≤ n ∧ ∃ id, connected id (ch_sender c) (ch_receiver c) (ch_world c) l |}.
  - intros n c l (_ & id & [] & _). cbn. unfold receiver_buffer_size, messages in *. rewrite length_fmap in *. done.
  - intros n [s r w] l v (Hn & id & Hcon) _. cbn. unfold receiver_buffer_size, try_send, Channels.send_spec. cbn in Hcon |- *.
    destruct (sender_try_send id s r w l v Hcon) as (q & w1 & -> & Hcon1). cbn [obind].
    destruct (Z.ltb_spec (Z.of_nat (length l)) (MessageQueue.mq_capacity (receiver r))) as [Hr|Hr].
    { eexists. split; [done|]. split; [|done]. split; [lia|]. by exists id. }
    cbn [s_config set_sender]. destruct (has_safe_overflow (s_config s)) eqn:Eo.
    2:{ eexists. split; [done|]. split; [|done]. split; [lia|]. by exists id. }
    destruct l as [|x l]; [destruct Hcon as [_ Hc]; cbn in Hr; lia|].
    destruct (sender_take_oldest id _ r w1 x l Hcon1) as (s2 & w2 & -> & Hcfg & Hcon2). cbn [obind].
    destruct (sender_try_send id s2 r w2 l v Hcon2) as (q3 & w3 & -> & Hcon3). cbn [obind].
    rewrite (proj2 (Z.ltb_lt _ _)) in *; [|destruct Hcon as [Hat _]; pose proof (MessageQueue.at_bound _ _ _ _ _ _ _ Hat) as Hb;
      unfold messages in Hb; rewrite length_fmap in Hb; cbn in Hb; lia..].
    eexists. split; [done|]. cbn. rewrite Hcfg. cbn. rewrite Eo. split; [|done]. split; [lia|]. by exists id.
  - intros n [s r w] l (Hn & id & Hcon) _. cbn. destruct (receiver_receive id s r w l Hcon) as (r' & w' & -> & Hb & Hcon').
    cbn [obind]. eexists. split; [by destruct l|]. cbn. split; [|done]. split; [done|]. exists id. by destruct l.
Defined.

(** C40. A channel over a message queue does what the bounded queue does, for any sequence
    of sends and receives: values arrive once and in order; a full channel refuses, or with
    safe overflow gives the oldest value back and takes the new one, in at most two rounds
    and without panicking; and nobody ever waits. *)
Theorem mq_channel_is_a_bounded_queue id s r w l cs :
  connected id s r w l →
  Z.of_nat (length cs) + receiver_buffer_size r + 3 < USIZE →
  let spec := Channels.run_spec (receiver_buffer_size r) (has_safe_overflow (s_config s)) l cs in
  ∃ s' r' w', Channels.run (H := mq_chan) (mkChannel s r w) cs = Return (spec.1, mkChannel s' r' w') ∧ ∃ id', connected id' s' r' w' spec.2.
Proof.
  intros Hcon Hb spec.
  destruct (Channels.run_refines (CommunicationChannel0 := mq_chan) (ChannelContract0 := mq_contract) 0 (mkChannel s r w) l cs) as ([s' r' w'] & Hr & (n' & _ & _ & id' & Hcon') & _);
    [split; [lia|]; by exists id|done|].
  exists s', r', w'. split; [exact Hr|]. by exists id'.
Qed.

(** The queue is full and the sender is told so; before it makes room the receiver has
    taken the only value: the sender panics. *)
Theorem sender_panics_when_the_receiver_is_faster id s r w l v :
  connected id s r w l → Z.of_nat (length l) = receiver_buffer_size r → receiver_buffer_size r = 1 →
  ∃ q w1 r' w2 x,
    MessageQueue.try_send size_of (sender s) v w = Return (Ok false, q, w1) ∧
    receive size_of r w1 = Return (Ok (Some x), r', w2) ∧
    take_oldest size_of (set_sender s q) w2 = Panic.
Proof.
  intros Hcon Hl H1. destruct (sender_try_send id s r w l v Hcon) as (q & w1 & Hs & Hcon1). unfold receiver_buffer_size in *.
  rewrite (proj2 (Z.ltb_ge _ _)) in * by lia. destruct (receiver_receive id _ r w1 l Hcon1) as (r' & w2 & Hr & _ & Hcon2).
  destruct l as [|x [|y l]]; [cbn in Hl; lia| |cbn in Hl; lia]. exists q, w1, r', w2, x. split; [done|]. split; [done|].
  by eapply sender_take_nothing.
Qed.

(** *** Setting up a channel *)

Section Setup.
(** What is done to the shared memory does not touch the message queues. *)
Context (shm_create_kernel : ∀ f cfg w, kernel (shm_create shm f cfg w).2 = kernel w).
Context (shm_permission_ok : ∀ f w, ∃ w', shm_set_permission shm f w = (true, w') ∧ kernel w' = kernel w).
Context (shm_open_kernel : ∀ f w, kernel (shm_open_existing shm f w).2 = kernel w).

(** The receiver is the only handle of the new queue [id] of the name [file]. *)
Record waiting_for_sender (id : Z) (bytes : list Z) (c : Creator) r w : Prop := {
  ws_name : MessageQueue.k_names (kernel w) !! MessageQueue.add_slash bytes = Some id;
  ws_handle : MessageQueue.handle (kernel w) MessageQueue.Receiving id (receiver r);
  ws_queue : MessageQueue.k_queues (kernel w) !! id = Some (MessageQueue.mkQueue (c_buffer_size c) size_of []);
  ws_capacity : receiver_buffer_size r = c_buffer_size c;
  ws_config : r_config r = mkSharedConfiguration (enable_safe_overflow c) (c_buffer_size c)
}.

Lemma create_receiver_spec (c : Creator) file bytes w :
  full_name (config c) (channel_name c) = Return file → Bytes.as_bytes file = Return bytes →
  ∃ res w', create_receiver size_of owner_all default_clock shm c w = Return (res, w') ∧
  match res with
  | Ok r => ∃ id, waiting_for_sender id bytes c r w' ∧
      MessageQueue.k_names (kernel w) !! MessageQueue.add_slash bytes = None ∧
      MessageQueue.k_names (kernel w') = <[MessageQueue.add_slash bytes := id]> (MessageQueue.k_names (kernel w))
  | Err _ => MessageQueue.k_fds (kernel w') = MessageQueue.k_fds (kernel w) ∧
      (MessageQueue.k_names (kernel w') = MessageQueue.k_names (kernel w) ∨ ∃ e w0, (MessageQueue.mq_unlink bytes w0).1 = Err e)
  end.
Proof.
  intros Hfile Hbytes. unfold create_receiver. rewrite Hfile. cbn [obind]. unfold queue_builder. rewrite Hbytes. cbn [obind].
  unfold MessageQueue.create_receiver. set (b := MessageQueue.set_mode _ _).
  destruct (MessageQueue.create_exclusive_spec size_of b w) as (r & w1 & -> & Hr). cbn [obind]. destruct r as [q|e].
  2:{ destruct e; do 2 eexists; (split; [reflexivity|]); rewrite (proj1 Hr); by split; [|left]. }
  destruct Hr as (id & Hn & Hd & Hn1 & Hd1 & Hq1 & Hname & Hcap & Hnb & Hown).
  cbn in Hn, Hn1, Hd1, Hname, Hcap. pose proof (shm_create_kernel file (mkSharedConfiguration (enable_safe_overflow c) (c_buffer_size c)) w1) as Hk.
  destruct (shm_create _ _ _ w1) as [[[]|e] w2]; cbn [snd] in Hk.
  - destruct (shm_permission_ok file w2) as (w3 & -> & Hk3). do 2 eexists. split; [done|]. exists id. rewrite Hk3, Hk.
    split; [|done]. constructor; rewrite ?Hk3, ?Hk; cbn; [by rewrite Hn1, lookup_insert_eq| |exact Hq1|done|done].
    unfold MessageQueue.handle. by rewrite Hd1, lookup_insert_eq, Hnb.
  - destruct (MessageQueue.drop_spec MessageQueue.Receiving id q w2) as (w3 & -> & Hf & _ & Hnames).
    { unfold MessageQueue.handle. by rewrite Hk, Hd1, lookup_insert_eq, Hnb. }
    cbn [obind]. do 2 eexists. split; [done|]. rewrite Hf, Hk, Hd1, delete_insert_id by done. split; [done|].
    rewrite Hown, Hk, Hn1, Hname, delete_insert_id in Hnames by done. destruct Hnames as [->|(_ & e' & He)]; [by left|right]. by exists e', w2.
Qed.

(** The setup of a channel works, or leaves nothing behind: when the receiver cannot be
    created, no descriptor is left open and no queue is left, unless the operating system
    refused to remove it. A sender that is connected to a receiver which has just been created,
    with the settings it finds in the shared memory, has an empty channel of the requested
    size with it; when it could not be connected nothing has changed. *)
Theorem mq_channel_setup_correct (c : Creator) file bytes w :
  full_name (config c) (channel_name c) = Return file → Bytes.as_bytes file = Return bytes → 0 < c_buffer_size c →
  (∀ shared w, (shm_open_existing shm file w).1 = Ok shared → shared = mkSharedConfiguration (enable_safe_overflow c) (c_buffer_size c)) →
  ∃ res w1, create_receiver size_of owner_all default_clock shm c w = Return (res, w1) ∧
  match res with
  | Err _ => MessageQueue.k_fds (kernel w1) = MessageQueue.k_fds (kernel w) ∧
      (MessageQueue.k_names (kernel w1) = MessageQueue.k_names (kernel w) ∨ ∃ e w0, (MessageQueue.mq_unlink bytes w0).1 = Err e)
  | Ok r => ∃ res' w2, open_sender size_of owner_all default_clock shm (channel_name c) (config c) w1 = Return (res', w2) ∧
      match res' with
      | Ok s => ∃ id, connected id s r w2 [] ∧ receiver_buffer_size r = c_buffer_size c ∧
          has_safe_overflow (s_config s) = enable_safe_overflow c ∧ s_name s = channel_name c
      | Err _ => kernel w2 = kernel w1
      end
  end.
Proof.
  intros Hfile Hbytes Hc Hshared. destruct (create_receiver_spec c file bytes w Hfile Hbytes) as (r & w1 & Hr & Hspec).
  exists r, w1. split; [done|]. destruct r as [r|e]; [|done]. destruct Hspec as (id & [Hn Hh Hq Hcap Hcfg] & _ & _).
  unfold open_sender, try_open_sender. rewrite Hfile. cbn [obind]. pose proof (shm_open_kernel file w1) as Hk. pose proof (λ sh, Hshared sh w1) as Hsh. destruct (shm_open_existing shm file w1) as [[shared|e] w2]; cbn [fst snd] in *.
  2:{ destruct e; do 2 eexists; by split. }
  specialize (Hsh shared eq_refl) as ->. unfold queue_builder. rewrite Hbytes. cbn [obind]. unfold MessageQueue.open_duplex. set (b := MessageQueue.set_mode _ _).
  destruct (MessageQueue.open_spec size_of b id (MessageQueue.mkQueue (c_buffer_size c) size_of []) w2) as (res & w3 & -> & Hres);
    [by rewrite Hk|by rewrite Hk|done|done|]. cbn [obind].
  destruct res as [q|e]; [|destruct e; cbn; do 2 eexists; (split; [reflexivity|]); by rewrite Hres].
  destruct Hres as (Hd & Hk3 & _ & _ & Hnb & _). rewrite Hk in *. do 2 eexists. split; [done|]. exists id. split; [|done].
  unfold receiver_buffer_size in Hcap. split; [|by rewrite Hcap]. assert (mqdes (receiver r) ≠ mqdes q) as Hne.
  { intros Heq. unfold MessageQueue.handle in Hh. by rewrite Heq, Hd in Hh. }
  constructor; cbn; rewrite ?Hk3; cbn; [|apply NoDup_cons; split; [rewrite list_elem_of_singleton; congruence|apply NoDup_singleton]|by rewrite Hcap|lia|constructor].
  constructor; [unfold MessageQueue.handle; cbn; by rewrite lookup_insert_eq, Hnb|].
  constructor; [|constructor]. unfold MessageQueue.handle in *. cbn. by rewrite lookup_insert_ne.
Qed.
End Setup.

(** A channel with a buffer for fewer than eight values is there, and the question whether
    it exists is answered with an internal error, since the question is put with the
    default capacity of a queue. *)
Theorem small_channel_is_not_found cfg n file bytes d fd K w w1 :
  full_name cfg n = Return file → Bytes.as_bytes file = Return bytes →
  MessageQueue.mq_open2 (MessageQueue.add_slash bytes) MessageQueue.Sending w = (Ok d, w1) →
  MessageQueue.descriptor (kernel w1) d fd K → MessageQueue.kq_maxmsg K < DEFAULT_RECEIVER_BUFFER_SIZE →
  does_exist_cfg size_of owner_all default_clock shm n cfg w = Return (Err DoesExistInternalError, w1).
Proof.
  intros Hf Hb Ho Hd Hc. unfold does_exist_cfg, queue_exists. rewrite Hf. cbn [obind]. rewrite Hb. cbn [obind].
  by rewrite (MessageQueue.small_queue_is_not_found size_of bytes owner_all default_clock d fd K w w1 Ho Hd Hc).
Qed.
End Theorems.

(** ** A channel *)

Section Sample.
#[local] Instance channel_checked : Profile := true.
#[local] Existing Instance settings_unix.
#[local] Existing Instances MessageQueue.world_clock_os MessageQueue.world_clock_laws MessageQueue.world_os MessageQueue.world_laws.

(** The shared memory holds the settings of a channel for [n] values. *)
Definition sample_shm (n : Z) (overflow : bool) : SharedMemoryOs MessageQueue.World :=
  {| shm_create f cfg w := (Ok tt, w);
     shm_set_permission f w := (true, w);
     shm_open_existing f w := (Ok (mkSharedConfiguration overflow n), w);
     shm_does_exist f w := true;
     shm_list w := [];
     shm_remove f w := (Ok tt, w) |}.
Definition empty_world : MessageQueue.World := MessageQueue.mkWorld (from_secs 5) (MessageQueue.mkKernel ∅ ∅ ∅).

(** A channel for [n] values, whose name is [a]. *)
Definition sample_queue_world (n : Z) : MessageQueue.World :=
  MessageQueue.mkWorld (from_secs 5)
    (MessageQueue.mkKernel {[ [47; 97] := 0 ]} {[ 0 := MessageQueue.mkQueue n 8 [] ]}
       {[ 3 := MessageQueue.mkFd 0 MessageQueue.SendingAndReceiving false; 4 := MessageQueue.mkFd 0 MessageQueue.Receiving false ]}).
Definition sample_name : FixedSizeByteString := Bytes.mkString 1 [Some 97; Some 0].
Definition sample_sender (n : Z) (overflow : bool) : Sender :=
  mkSender sample_name (MessageQueue.mkMessageQueue 3 [97] n false false Monotonic) (mkSharedConfiguration overflow n).
Definition sample_receiver (n : Z) (overflow : bool) : Receiver :=
  mkReceiver sample_name (MessageQueue.mkMessageQueue 4 [97] n true false Monotonic) (mkSharedConfiguration overflow n).

Lemma sample_connected n overflow :
  0 < n → connected 8 0 (sample_sender n overflow) (sample_receiver n overflow) (sample_queue_world n) [].
Proof.
  intros Hn. split; [|done]. constructor; [|by apply (bool_decide_unpack _)|done|cbn; lia|constructor]. repeat constructor.
Qed.

Lemma mq_channel_is_a_bounded_queue_witness :
  ∃ s r w, Channels.run (H := mq_channel 8) (mkChannel (sample_sender 2 true) (sample_receiver 2 true) (sample_queue_world 2))
      [Channels.Send 1; Channels.Send 2; Channels.Send 3; Channels.Receive] =
    Return ([Channels.Sent (Ok None); Channels.Sent (Ok None); Channels.Sent (Ok (Some 1)); Channels.Received (Ok (Some 2))], mkChannel s r w).
Proof.
  destruct (mq_channel_is_a_bounded_queue 8 0 (sample_sender 2 true) (sample_receiver 2 true) (sample_queue_world 2) []
    [Channels.Send 1; Channels.Send 2; Channels.Send 3; Channels.Receive] (sample_connected 2 true ltac:(done)) ltac:(done)) as (s & r & w & H & _).
  exists s, r, w. exact H.
Defined.

Lemma mq_channel_setup_correct_witness :
  ∃ c r w1 s w2, create_receiver 8 448 Monotonic (sample_shm 2 true) c empty_world = Return (Ok r, w1) ∧
    open_sender 8 448 Monotonic (sample_shm 2 true) (channel_name c) (config c) w1 = Return (s, w2).
Proof.
  destruct default_config_ok as (cfg & n & _ & Hn & Hc).
  destruct (full_name_ok cfg n _ _ _ Hc Hn) as (_ & file & _ & _ & _ & _ & _ & Hfile & Hi); [by vm_compute|by vm_compute|].
  set (c := mkCreator n true 2 cfg). assert (∃ bytes, Bytes.as_bytes file = Return bytes) as [bytes Hbytes].
  { destruct Hi as [Hr _]. eexists. by eapply Bytes.as_bytes_rep. }
  assert (∃ r w1, create_receiver 8 448 Monotonic (sample_shm 2 true) c empty_world = Return (Ok r, w1)) as (r0 & w0 & Hcr).
  { unfold create_receiver. cbn [config channel_name c]. rewrite Hfile. cbn [obind]. unfold queue_builder. rewrite Hbytes.
    do 2 eexists. reflexivity. }
  destruct (mq_channel_setup_correct 8 448 Monotonic (sample_shm 2 true)) with (c := c) (file := file) (bytes := bytes) (w := empty_world)
    as (res & w1 & H1 & H2); [done| |done|exact Hfile|exact Hbytes|done|intros sh w [= <-]; reflexivity|].
  { intros f w. by exists w. }
  rewrite Hcr in H1. injection H1 as <- <-. destruct H2 as (s & w2 & H2 & _). by exists c, r0, w0, s, w2.
Defined.
End Sample.
