(* ===== verification/Directory.v ===== *)
(** * elkodon_cal/src/shared_memory_directory/mod.rs, file.rs

    Files in shared memory: a management segment with the table of [FileReferenceSet] and
    a data segment with the contents.

    - [SharedMemoryApi], [SharedMemoryLaws]: what the directory uses of the trait
      SharedMemory and what it relies on; the shared memory of POSIX, with the pool and
      the bump allocator, and the one of a process fulfil it;
    - the directory, how it is created and opened, and its files.

    The theorem: creator and openers agree where the table is, and creating never panics.
    [DirectorySystem] has the threads that work on a directory. *)

From S2P Require Import Prelude Elementary UniqueIndexSet ReferenceCounter FileReferenceSet HeapMemory BumpAllocator PoolAllocator ShmAllocator.
From S2P Require Import SharedMemory ByteString SemanticString SystemTypes NamedConcept LocalRegistry LocalMemory.
From stdpp Require Import strings.
Open Scope Z_scope.

(** ** The trait [SharedMemory] *)

Class SharedMemoryApi (M : Type) := {
  api_size : M → outcome Z;
  api_data_start_address : M → outcome Z;
  api_allocate : M → Layout → outcome (result ShmPointer ShmAllocationError * M);
  api_release_ownership : M → M
}.

(** [api_owns k m start size offs]: [m] is mapped at [start], has [size] bytes and has
    handed out [offs] in at most [k] calls. *)
Class SharedMemoryLaws (M : Type) `{SharedMemoryApi M} := {
  api_owns : nat → M → Z → Z → list Chunk → Prop;
  api_owns_size k m start size offs : api_owns k m start size offs → api_size m = Return size;
  api_owns_start k m start size offs : api_owns k m start size offs → api_data_start_address m = Return start;
  api_owns_inside k m start size offs :
    api_owns k m start size offs → Forall (λ c, 0 ≤ c_start c ∧ c_start c + c_len c ≤ size) offs;
  api_owns_disjoint k m start size offs : api_owns k m start size offs → pairwise_disjoint offs;
  api_owns_release k m start size offs :
    api_owns k m start size offs → api_owns k (api_release_ownership m) start size offs;
  api_owns_allocate k m start size offs l :
    api_owns k m start size offs → layout_wf l → start + size + l_size l + l_align l < USIZE → Z.of_nat k + 1 < U32 →
    ∃ r m', api_allocate m l = Return (r, m') ∧
      match r with
      | Ok p => data_ptr p = start + SharedMemory.offset p ∧ data_ptr p mod l_align l = 0 ∧
                api_owns (S k) m' start size (mkChunk (SharedMemory.offset p) (l_size l) :: offs)
      | Err _ => api_owns (S k) m' start size offs
      end
}.

(** *** shared_memory/posix.rs *)

Record PosixMemory (A : Type) := mkPosixMemory { memory : SharedMemory.Memory A; has_ownership : bool }.
Arguments mkPosixMemory {A}. Arguments memory {A}. Arguments has_ownership {A}.

#[export] Instance posix_api `{P : Profile} {A Config} `{ShmAllocator A Config} : SharedMemoryApi (PosixMemory A) := {
  api_size m := SharedMemory.size (memory m);
  api_data_start_address m := SharedMemory.allocator_data_start_address (memory m);
  api_allocate m l :=
    let! '(r, x) := SharedMemory.mem_allocate (memory m) l in Return (r, mkPosixMemory x (has_ownership m));
  api_release_ownership m := mkPosixMemory (memory m) false
}.

(** Where the segment of a mapping starts, and how large it is. *)
Definition mapped {A} (m : SharedMemory.Memory A) (start size : Z) : Prop :=
  0 ≤ base_address m ∧ 0 ≤ mgmt_size (details m) ∧ start = base_address m + mgmt_size (details m) ∧
  size = total_size m - mgmt_size (details m) ∧ 0 ≤ size ∧ base_address m + total_size m < USIZE.

Section PosixLaws.
Context `{P : Profile}.

Lemma mapped_ok {A} (m : SharedMemory.Memory A) start size :
  mapped m start size →
  SharedMemory.size m = Return size ∧ SharedMemory.allocator_data_start_address m = Return start ∧ 0 ≤ start ∧ start + size < USIZE.
Proof.
  intros (H1 & H2 & -> & -> & H3 & H4). unfold SharedMemory.size, SharedMemory.allocator_data_start_address.
  rewrite usub_ok, uadd_ok by lia. split_and!; try done; lia.
Qed.

(** The way from an offset of the allocator to a pointer. *)
Lemma posix_allocate `{ShmAllocator A Config} (m : SharedMemory.Memory A) start size l r a :
  mapped m start size → shm_allocate (allocator (details m)) l = Return (r, a) →
  (∀ o, r = Ok o → 0 ≤ o ≤ size) →
  ∃ r', SharedMemory.mem_allocate m l = Return (r', set_allocator m a) ∧ mapped (set_allocator m a) start size ∧
    match r with
    | Ok o => r' = Ok (mkShmPointer o (start + o))
    | Err e => r' = Err e
    end.
Proof.
  intros Hm Hal Hr. pose proof Hm as (H1 & H2 & -> & -> & H3 & H4). unfold mem_allocate. rewrite Hal. cbn [obind].
  destruct r as [o|e]; [|by eexists]. specialize (Hr o eq_refl).
  unfold SharedMemory.allocator_data_start_address. cbn [base_address details set_allocator mgmt_size].
  rewrite uadd_ok by lia. cbn [obind]. rewrite uadd_ok by lia. cbn [obind]. eexists. split; [done|]. split; [done|].
  do 2 f_equal. lia.
Qed.

#[export] Instance posix_pool_laws : SharedMemoryLaws (PosixMemory ShmPoolAllocator).
Proof.
  refine {| api_owns k m start size offs := mapped (memory m) start size ∧
    ∃ aba, aba ≤ Z.of_nat k ∧ shm_pool_rep (allocator (details (memory m))) start size aba offs |}.
  - intros k m start size offs [Hm _]. by destruct (mapped_ok _ _ _ Hm).
  - intros k m start size offs [Hm _]. by destruct (mapped_ok _ _ _ Hm) as (_ & ? & _).
  - intros k m start size offs [_ (aba & _ & Hr)]. by eapply (shm_owns_in_segment (A := ShmPoolAllocator)); exists aba.
  - intros k m start size offs [_ (aba & _ & Hr)]. by eapply (shm_owns_disjoint (A := ShmPoolAllocator)); exists aba.
  - done.
  - intros k m start size offs l [Hm (aba & Ha & Hr)] Hl Hb Hk. pose proof Hl as [Hls _].
    destruct (shm_pool_offsets_correct _ start size aba offs l Hr) as [(r & a & Hal & Hres) _]; [lia|done|lia|].
    assert (shm_allocate (A := ShmPoolAllocator) (allocator (details (memory m))) l = Return (r, a)) as Hal' by exact Hal.
    destruct (posix_allocate _ _ _ l r a Hm Hal') as (r' & Hr' & Hm' & Hrr).
    { intros o ->. lia. }
    cbn [api_allocate posix_api]. rewrite Hr'. cbn [obind]. do 2 eexists. split; [done|].
    destruct r as [o|e]; rewrite Hrr.
    + cbn [data_ptr SharedMemory.offset]. destruct Hres as (_ & _ & Hmod & _ & Hrep). split; [done|]. split; [done|].
      split; [done|]. exists (aba + 1). split; [lia|done].
    + assert (a = allocator (details (memory m))) as -> by (destruct e; by destruct Hres).
      split; [done|]. exists aba. split; [lia|done].
Defined.

Lemma shm_bump_allocate_returns a start size offs l :
  shm_bump_owns a start size offs → layout_wf l → start + size + l_size l + l_align l < USIZE →
  ∃ r a', shm_bump_allocate a l = Return (r, a').
Proof.
  intros [Hb Hown] Hl Hw. unfold shm_bump_allocate. destruct (_ <? _); [by do 2 eexists|].
  destruct (bump_allocate_returns _ _ _ _ l Hown Hl ltac:(lia)) as (r & bb & Hal).
  rewrite Hal. cbn [obind]. destruct r as [c|e]; [|by do 2 eexists].
  pose proof (bump_allocate_spec _ _ _ _ _ _ _ Hown Hl Hw Hal) as (Hlen & _ & Hown'). pose proof Hl as [Hl0 _].
  pose proof (layout_align_pos l Hl).
  pose proof (owns_in_region bb start (start + size) _ Hown') as [Hreg _]%Forall_cons. destruct Hown as [Hlo _ Hnn _ _ _].
  cbn [bump_base_address shm_bump_set]. rewrite Hb. cbn beta in Hreg. rewrite usub_ok by lia. cbn [obind]. by do 2 eexists.
Qed.

#[export] Instance posix_bump_laws : SharedMemoryLaws (PosixMemory ShmBumpAllocator).
Proof.
  refine {| api_owns k m start size offs := mapped (memory m) start size ∧
    shm_bump_owns (allocator (details (memory m))) start size offs |}.
  - intros k m start size offs [Hm _]. by destruct (mapped_ok _ _ _ Hm).
  - intros k m start size offs [Hm _]. by destruct (mapped_ok _ _ _ Hm) as (_ & ? & _).
  - intros k m start size offs [_ Hr]. by eapply (shm_owns_in_segment (A := ShmBumpAllocator)).
  - intros k m start size offs [_ Hr]. by eapply (shm_owns_disjoint (A := ShmBumpAllocator)).
  - done.
  - intros k m start size offs l [Hm Hr] Hl Hb Hk. pose proof Hl as [Hls _].
    destruct (shm_bump_allocate_returns _ _ _ _ l Hr Hl Hb) as (r & a & Hal).
    pose proof (shm_owns_allocate (A := ShmBumpAllocator) _ _ _ _ _ _ _ Hr Hl Hb Hal) as Hres.
    assert (shm_allocate (A := ShmBumpAllocator) (allocator (details (memory m))) l = Return (r, a)) as Hal' by exact Hal.
    destruct (posix_allocate _ _ _ l r a Hm Hal') as (r' & Hr' & Hm' & Hrr).
    { intros o ->. destruct Hres as (_ & _ & Hres).
      pose proof (shm_owns_in_segment (A := ShmBumpAllocator) _ _ _ _ Hres) as [Hin _]%Forall_cons. cbn in Hin. lia. }
    cbn [api_allocate posix_api]. rewrite Hr'. cbn [obind]. do 2 eexists. split; [done|].
    destruct r as [o|e]; rewrite Hrr.
    + cbn [data_ptr SharedMemory.offset]. destruct Hres as (Hmod & _ & Hrep). done.
    + by subst a.
Defined.
End PosixLaws.

(** *** shared_memory/process_local.rs

    A handle and the entries it works on. *)

Record LocalView (A : Type) := mkLocalView { handle : LocalMemory.Memory; local_entries : LocalMemory.Entries }.
Arguments mkLocalView {A}. Arguments handle {A}. Arguments local_entries {A}.

#[export] Instance local_api `{P : Profile} {A Config} `{ShmAllocator A Config, !LocalMemory.Any A} : SharedMemoryApi (LocalView A) := {
  api_size m := LocalMemory.size (handle m) (local_entries m);
  api_data_start_address m := LocalMemory.allocator_data_start_address (handle m) (local_entries m);
  api_allocate m l :=
    let! '(r, s) := LocalMemory.allocate (A := A) (handle m) (local_entries m) l in Return (r, mkLocalView (handle m) s);
  api_release_ownership m := mkLocalView (LocalMemory.release_ownership (handle m)) (local_entries m)
}.

#[export] Existing Instance LocalMemory.any_pool.
#[export] Existing Instance LocalMemory.any_bump.

Section LocalLaws.
Context `{P : Profile}.

#[export] Instance local_pool_laws : SharedMemoryLaws (LocalView ShmPoolAllocator).
Proof.
  refine {| api_owns k m start size offs := LocalMemory.size (handle m) (local_entries m) = Return size ∧
    ∃ aba, aba ≤ Z.of_nat k ∧ LocalMemory.in_use (local_entries m) (LocalMemory.shm (handle m)) start size aba offs |}.
  - intros k m start size offs [Hs _]. done.
  - intros k m start size offs [_ (aba & _ & e & a & He & _ & <- & _)]. cbn [api_data_start_address local_api].
    unfold LocalMemory.allocator_data_start_address. by rewrite He.
  - intros k m start size offs [_ (aba & _ & e & a & _ & _ & _ & Hr)].
    by eapply (shm_owns_in_segment (A := ShmPoolAllocator)); exists aba.
  - intros k m start size offs [_ (aba & _ & e & a & _ & _ & _ & Hr)].
    by eapply (shm_owns_disjoint (A := ShmPoolAllocator)); exists aba.
  - done.
  - intros k m start size offs l [Hs (aba & Ha & Hu)] Hl Hb Hk. pose proof Hl as [Hls _].
    destruct (LocalMemory.allocate_in_use _ _ start size aba offs l _ Hu Hs) as (r & s' & Hal & Hs' & Hr); [lia|done|lia|].
    cbn [api_allocate local_api]. rewrite Hal. cbn [obind]. do 2 eexists. split; [done|]. destruct r as [p|e].
    + destruct Hr as (H1 & _ & _ & H2 & _ & H3). split; [done|]. split; [done|]. split; [done|]. exists (aba + 1). split; [lia|done].
    + split; [done|]. exists aba. split; [lia|done].
Defined.
End LocalLaws.

(** ** The directory *)

Import Bytes(FixedSizeByteString, bytes_of_string).

Definition MGMT_SHM_SUFFIX : list Z := bytes_of_string ".dir_mgmt".
Definition DATA_SHM_SUFFIX : list Z := bytes_of_string ".dir_data".

Record SharedMemoryDirectoryCreator := mkCreator {
  c_name : FixedSizeByteString;
  c_size : Z;
  c_is_persistent : bool
}.
Definition creator_new (n : FixedSizeByteString) : SharedMemoryDirectoryCreator := mkCreator n 0 false.
Definition set_is_persistent (c : SharedMemoryDirectoryCreator) (v : bool) := mkCreator (c_name c) (c_size c) v.
Definition set_size (c : SharedMemoryDirectoryCreator) (v : Z) := mkCreator (c_name c) v (c_is_persistent c).

(** [files] points to the table. *)
Record SharedMemoryDirectory (MM DM : Type) := mkDirectory { mgmt_shm : MM; data_shm : DM; files : Z }.
Arguments mkDirectory {MM DM}. Arguments mgmt_shm {MM DM}. Arguments data_shm {MM DM}. Arguments files {MM DM}.

(** file.rs *)
Record FileCreator := mkFileCreator { f_layout : Layout; f_is_persistent : bool; f_memory : ShmPointer; f_base_address : Z }.
Definition file_creator_new (memory : ShmPointer) (layout : Layout) (base_address : Z) : FileCreator :=
  mkFileCreator layout false memory base_address.
Definition file_creator_set_is_persistent (f : FileCreator) (v : bool) : FileCreator :=
  mkFileCreator (f_layout f) v (f_memory f) (f_base_address f).

Record File := mkFile { id : Z; base_address : Z }.

Section Files.
Context `{P : Profile}.
Implicit Types (t : FileReferenceSet) (f : File).

(** [d] is the memory the process sees. *)
Definition file_create {D} (f : FileCreator) t (d : D) (n : FileReferenceSet.FileName) (initializer : Z → Z → D → outcome D)
    : outcome (result File CreateFileError * FileReferenceSet * D) :=
  let! '(r, t, d) := FileReferenceSet.create t d n (SharedMemory.offset (f_memory f)) (l_size (f_layout f)) (f_is_persistent f)
    (λ _ size, initializer (data_ptr (f_memory f)) size) in
  match r with
  | Ok id => Return (Ok (mkFile id (f_base_address f)), t, d)
  | Err e => Return (Err e, t, d)
  end.

Definition file_name f t : outcome FileReferenceSet.FileName := get_name t (id f).
Definition file_content f t : outcome Chunk := get_payload t (id f) (base_address f).
Definition is_persistent_file f t : outcome bool := file_is_persistent t (id f).
Definition file_drop f t : outcome FileReferenceSet := release t (id f).
End Files.

Section Operations.
Context `{P : Profile} {MM DM : Type} `{SharedMemoryApi MM, SharedMemoryApi DM}.
(** [Layout::new::<FileReferenceSet>()] *)
Context (table_layout : Layout).

(** [W]: where the segments of all processes are. The builders, with the name of the
    directory and the suffixes above, and what dropping the management segment does. *)
Context {W : Type}.
Context (mgmt_create : Z → W → outcome (result MM SharedMemoryCreateError * W)) (mgmt_drop : MM → W → outcome W).
Context (data_create : Z → W → outcome (result DM SharedMemoryCreateError * W)).
Context (mgmt_open : W → outcome (result MM SharedMemoryOpenError)) (data_open : W → outcome (result DM SharedMemoryOpenError)).

#[local] Notation Directory := (SharedMemoryDirectory MM DM).
Implicit Types (d : Directory) (t : FileReferenceSet) (w : W).

(** The table is written behind [files]. *)
Definition create (c : SharedMemoryDirectoryCreator) w
    : outcome (result (Directory * FileReferenceSet) SharedMemoryCreateError * W) :=
  let! size := uadd (l_size table_layout) (l_align table_layout) in
  let! size := usub size 1 in
  let! '(r, w) := mgmt_create size w in
  match r with
  | Err e => Return (Err e, w)
  | Ok mgmt =>
      let! '(r, mgmt) := api_allocate mgmt table_layout in
      match r with
      | Err _ => Panic
      | Ok shm_ptr =>
          let files := data_ptr shm_ptr in
          let t := FileReferenceSet.default MAX_NUMBER_OF_ENTRIES in
          let! '(r, w) := data_create (c_size c) w in
          match r with
          | Err e => let! w := mgmt_drop mgmt w in Return (Err e, w)
          | Ok data =>
              let '(mgmt, data) :=
                if c_is_persistent c then (api_release_ownership mgmt, api_release_ownership data) else (mgmt, data) in
              Return (Ok (mkDirectory mgmt data files, t), w)
          end
      end
  end.

Definition open w : outcome (result Directory SharedMemoryOpenError) :=
  let! r := data_open w in
  match r with
  | Err e => Return (Err e)
  | Ok data =>
      let! r := mgmt_open w in
      match r with
      | Err e => Return (Err e)
      | Ok mgmt =>
          let! start := api_data_start_address mgmt in
          let! files := Math.align start (l_align table_layout) in
          Return (Ok (mkDirectory mgmt data files))
      end
  end.

Definition new_file d (layout : Layout) : outcome (result FileCreator ShmAllocationError * Directory) :=
  let! '(r, data) := api_allocate (data_shm d) layout in
  let d := mkDirectory (mgmt_shm d) data (files d) in
  match r with
  | Err e => Return (Err e, d)
  | Ok memory =>
      let! start := api_data_start_address (data_shm d) in
      Return (Ok (file_creator_new memory layout start), d)
  end.

Definition open_file d t (n : FileReferenceSet.FileName) : outcome (option File * FileReferenceSet) :=
  let! start := api_data_start_address (data_shm d) in
  let! '(r, t) := borrow t n in
  Return ((λ id, mkFile id start) <$> r, t).

Definition list_files d t : outcome (list File * FileReferenceSet) :=
  let! start := api_data_start_address (data_shm d) in
  let! '(r, t) := list_ t in
  Return ((λ id, mkFile id start) <$> r, t).

Definition does_file_exist t (n : FileReferenceSet.FileName) : outcome (bool * FileReferenceSet) := FileReferenceSet.does_exist t n.
Definition remove_file t (n : FileReferenceSet.FileName) : outcome (bool * FileReferenceSet) := set_to_be_removed t n.
Definition file_capacity : Z := MAX_NUMBER_OF_ENTRIES.
Definition memory_capacity d : outcome Z := api_size (data_shm d).
Definition size d : outcome Z := api_size (data_shm d).

(** [does_exist] and [remove] of a directory: what both segments answer. *)
Definition does_exist {E} (data_exists mgmt_exists : W → outcome (result bool E)) w : outcome (result bool E) :=
  let! r := data_exists w in
  match r with
  | Err e => Return (Err e)
  | Ok false => Return (Ok false)
  | Ok true => mgmt_exists w
  end.

Definition remove {E} (data_remove mgmt_remove : W → outcome (result bool E * W)) w : outcome (result bool E * W) :=
  let! '(r, w) := data_remove w in
  match r with
  | Err e => Return (Err e, w)
  | Ok false => Return (Ok false, w)
  | Ok true => mgmt_remove w
  end.
End Operations.

(** ** Where the table is *)

(** A new management segment of POSIX: the bump allocator has handed out nothing. *)
Definition new_mgmt (m : PosixMemory ShmBumpAllocator) (start size : Z) : Prop :=
  mapped (memory m) start size ∧ 0 ≤ start ∧
  ∃ page, allocator (details (memory m)) = mkShmBumpAllocator (BumpAllocator.new start size) start page.

Section Setup.
Context `{P : Profile}.

Lemma create_mgmt_ok dl page size base os :
  layout_wf dl → 0 < size → 8 ≤ page → 0 ≤ base → base + size + l_size dl + l_align dl < USIZE →
  os_create os (size + (l_size dl + l_align dl - 1)) = Ok base → os_set_permission os = true →
  ∃ m start, SharedMemory.create (A := ShmBumpAllocator) dl page size mkShmBumpConfig os = Return (Ok m) ∧
    ∀ o, new_mgmt (mkPosixMemory m o) start size.
Proof.
  intros Hdl Hs Hp Hb Hw Hos Hperm. pose proof (layout_align_pos dl Hdl). pose proof Hdl as [? _].
  unfold SharedMemory.create, allocator_size, allocator_details_size. rewrite (proj2 (Z.eqb_neq _ _)) by lia.
  rewrite uadd_ok by lia. cbn [obind]. rewrite usub_ok by lia. cbn [obind shm_management_size shm_bump].
  unfold shm_bump_management_size. cbn [obind]. rewrite uadd_ok by lia. cbn [obind]. rewrite uadd_ok by lia. cbn [obind].
  replace (size + (l_size dl + l_align dl - 1 + 0)) with (size + (l_size dl + l_align dl - 1)) by lia. rewrite Hos.
  rewrite uadd_ok by lia. cbn [obind shm_new_uninit shm_bump]. unfold shm_bump_new_uninit, allocator_details_size. cbn [obind].
  rewrite uadd_ok by lia. cbn [obind shm_management_size shm_init shm_bump]. unfold shm_bump_management_size, shm_bump_init. cbn [obind bump_max_supported_alignment_by_memory].
  unfold shm_bump_max_alignment. rewrite (proj2 (Z.ltb_ge _ _)) by lia. cbn [obind]. rewrite Hperm.
  eexists _, (base + (l_size dl + l_align dl - 1 + 0)). split; [done|]. intros o. split; [|split; [lia|by exists page]].
  unfold mapped. cbn. lia.
Qed.

(** The first allocation of a segment with room for it. *)
Lemma new_mgmt_allocate m start tl :
  layout_wf tl → 0 < l_size tl → l_align tl ≤ 8 → start + l_size tl + 2 * l_align tl + l_size tl < USIZE →
  new_mgmt m start (l_size tl + l_align tl - 1) →
  ∃ o m', api_allocate m tl = Return (Ok (mkShmPointer o (start + o)), m') ∧
    Math.align start (l_align tl) = Return (start + o) ∧ 0 ≤ o ∧ o + l_size tl ≤ l_size tl + l_align tl - 1 ∧
    (start + o) mod l_align tl = 0.
Proof.
  intros Hl Hs Ha Hb (Hm & Hst & page & Hal). pose proof (layout_align_pos _ Hl). pose proof Hl as [Hs0 _].
  set (sz := l_size tl + l_align tl - 1) in *.
  destruct (Math.align_ok start (l_align tl)) as (v & Hv & Hr & Hmod); [lia..|].
  assert (bump_owns (BumpAllocator.new start sz) start (start + sz) []) as Hown.
  { constructor; cbn; try done. unfold sz. lia. }
  assert (bump_allocate (BumpAllocator.new start sz) tl =
    Return (Ok (mkChunk v (l_size tl)), BumpAllocator.set_current_position (BumpAllocator.new start sz) (v - start + l_size tl))) as Hba.
  { unfold bump_allocate. rewrite (proj2 (Z.eqb_neq _ _)) by lia. cbn [allocate_loop]. unfold fit.
    cbn [BumpAllocator.new BumpAllocator.start BumpAllocator.size current_position]. rewrite uadd_ok by lia. cbn [obind].
    rewrite Z.add_0_r, Hv. cbn [obind]. rewrite usub_ok by lia. cbn [obind]. rewrite uadd_ok by lia. cbn [obind].
    rewrite (proj2 (Z.ltb_ge _ _)) by (unfold sz; lia). cbn [obind]. unfold compare_exchange. rewrite Z.eqb_refl.
    cbn [BumpAllocator.set_current_position BumpAllocator.new BumpAllocator.start]. rewrite uadd_ok by lia. cbn [obind].
    by replace (start + (v - start)) with v by lia. }
  exists (v - start).
  assert (shm_allocate (A := ShmBumpAllocator) (allocator (details (memory m))) tl = Return (Ok (v - start),
    mkShmBumpAllocator (BumpAllocator.set_current_position (BumpAllocator.new start sz) (v - start + l_size tl)) start page)) as Hsa.
  { rewrite Hal. cbn [shm_allocate shm_bump]. unfold shm_bump_allocate, shm_bump_max_alignment.
    rewrite (proj2 (Z.ltb_ge _ _)) by lia. cbn [bump_allocator]. rewrite Hba. cbn [obind shm_bump_set bump_base_address c_start].
    rewrite usub_ok by lia. done. }
  destruct (posix_allocate _ _ _ _ _ _ Hm Hsa) as (r' & Hr' & _ & ->); [intros o [= <-]; unfold sz; lia|].
  cbn [api_allocate posix_api]. rewrite Hr'. cbn [obind]. eexists. split; [done|].
  replace (start + (v - start)) with v by lia. split_and!; try done; unfold sz; lia.
Qed.

Context {DM W : Type} `{!SharedMemoryApi DM, !SharedMemoryLaws DM}.
Context (tl : Layout) (Htl : layout_wf tl) (Hts : 0 < l_size tl) (Hta : l_align tl ≤ 8).
Context (mgmt_create : Z → W → outcome (result (PosixMemory ShmBumpAllocator) SharedMemoryCreateError * W)).
Context (mgmt_drop : PosixMemory ShmBumpAllocator → W → outcome W).
Context (data_create : Z → W → outcome (result DM SharedMemoryCreateError * W)).

(** What the segments of a new directory are created with. *)
Record builders_ok (start dstart size : Z) : Prop := {
  bo_mgmt w : ∃ r w', mgmt_create (l_size tl + l_align tl - 1) w = Return (r, w') ∧
    ∀ m, r = Ok m → new_mgmt m start (l_size tl + l_align tl - 1);
  bo_drop m w : ∃ w', mgmt_drop m w = Return w';
  bo_data w : ∃ r w', data_create size w = Return (r, w') ∧ ∀ m, r = Ok m → api_owns 0 m dstart size [];
  bo_bound : 0 ≤ start ∧ start + 2 * l_size tl + 2 * l_align tl < USIZE
}.

(** Creating a directory: the management segment that is asked for holds the table at
    whatever address it is mapped, so that creating never panics; the table is empty, lies
    inside of the segment and is aligned; and whoever opens the directory, with the segment
    mapped anywhere (but on a page), computes the same place in the segment for it. An
    error of either segment is reported. *)
Theorem directory_setup_correct c w start dstart :
  builders_ok start dstart (c_size c) →
  ∃ r w', create tl mgmt_create mgmt_drop data_create c w = Return (r, w') ∧
  match r with
  | Ok (d, t) =>
      t = FileReferenceSet.default MAX_NUMBER_OF_ENTRIES ∧
      start ≤ files d ∧ files d + l_size tl ≤ start + (l_size tl + l_align tl - 1) ∧ files d mod l_align tl = 0 ∧
      api_owns 0 (data_shm d) dstart (c_size c) [] ∧
      ∀ MM (api : SharedMemoryApi MM) mgmt_open data_open (m : MM) (dm : DM) start',
        mgmt_open w' = Return (Ok m) → data_open w' = Return (Ok dm) → api_data_start_address m = Return start' →
        0 ≤ start' → start' + l_align tl < USIZE → start' mod l_align tl = start mod l_align tl →
        ∃ d', open tl mgmt_open data_open w' = Return (Ok d') ∧ files d' - start' = files d - start
  | Err e => (∃ w1 w2, mgmt_create (l_size tl + l_align tl - 1) w1 = Return (Err e, w2)) ∨
             (∃ w1 w2, data_create (c_size c) w1 = Return (Err e, w2))
  end.
Proof using Htl Hts Hta.
  intros [Hmg Hdr Hda [Hb0 Hb1]]. pose proof (layout_align_pos _ Htl). pose proof Htl as [? _].
  unfold create. rewrite uadd_ok by lia. cbn [obind]. rewrite usub_ok by lia. cbn [obind].
  destruct (Hmg w) as (r & w1 & Hc & Hm). rewrite Hc. cbn [obind]. destruct r as [m|e].
  2: { do 2 eexists. split; [done|]. left. eauto. }
  destruct (new_mgmt_allocate m start tl Htl Hts Hta ltac:(lia) (Hm m eq_refl)) as (o & m' & -> & Hal & Ho & Hi & Hmod).
  cbn [obind data_ptr]. destruct (Hda w1) as (r & w2 & Hcd & Hd). rewrite Hcd. cbn [obind]. destruct r as [dm|e].
  2: { destruct (Hdr m' w2) as (w3 & ->). cbn [obind]. do 2 eexists. split; [done|]. right. eauto. }
  assert (∃ m2 dm2, (if c_is_persistent c then (api_release_ownership m', api_release_ownership dm) else (m', dm)) = (m2, dm2) ∧
    api_owns 0 dm2 dstart (c_size c) []) as (m2 & dm2 & -> & Hdm2).
  { destruct (c_is_persistent c); do 2 eexists; (split; [done|]); [apply api_owns_release|]; by apply Hd. }
  do 2 eexists. split; [done|]. cbn [files data_shm]. split_and!; try done; try lia.
  intros MM api mgmt_open data_open mm dmm start' Hmo Hdo Hs Hs0 Hs1 Hs2. unfold open. rewrite Hdo. cbn [obind].
  rewrite Hmo. cbn [obind]. rewrite Hs. cbn [obind].
  destruct (Math.align_ok start' (l_align tl)) as (v & Hv & Hr & Hvm); [lia..|]. rewrite Hv. cbn [obind].
  eexists. split; [done|]. cbn [files].
  assert (o < l_align tl) as Ho1 by lia.
  assert ((start' + o) mod l_align tl = 0) as Hso.
  { rewrite Z.add_mod, Hs2, <- Z.add_mod by lia. done. }
  apply Z.mod_divide in Hso as [x Hx]; [|lia]. apply Z.mod_divide in Hvm as [y Hy]; [|lia].
  assert (x = y) as -> by nia. lia.
Qed.
End Setup.

Section SetupWitness.
#[local] Instance directory_checked : Profile := true.

(** The table has 64 bytes, the details of an allocator 40, and the mappings are at fixed
    addresses. *)
Definition example_create (base size : Z) (w : unit) : outcome (result (PosixMemory ShmBumpAllocator) SharedMemoryCreateError * unit) :=
  let! r := SharedMemory.create (A := ShmBumpAllocator) (mkLayout 40 8) 4096 size mkShmBumpConfig (mkCreateOs (λ _, Ok base) true) in
  Return (match r with Ok m => Ok (mkPosixMemory m true) | Err e => Err e end, w).

Lemma example_builders_ok :
  builders_ok (DM := PosixMemory ShmBumpAllocator) (mkLayout 64 8) (example_create 8192) (λ _ w, Return w) (example_create 65536) 8239 65583 100.
Proof.
  constructor.
  - intros []. do 2 eexists. split; [vm_compute; reflexivity|]. intros m [= <-]. unfold new_mgmt, mapped, USIZE. cbn.
    split; [lia|]. split; [lia|by exists 4096].
  - by eexists.
  - intros []. do 2 eexists. split; [vm_compute; reflexivity|]. intros m [= <-]. cbn [api_owns posix_bump_laws]. split; [unfold mapped, USIZE; cbn; lia|].
    split; [done|]. constructor; cbn; try done; lia.
  - unfold USIZE. cbn. lia.
Qed.

Lemma directory_setup_correct_witness :
  ∃ d d', create (mkLayout 64 8) (example_create 8192) (λ _ w, Return w) (example_create 65536) (mkCreator (Bytes.mkString 0 []) 100 false) tt =
    Return (Ok (d, FileReferenceSet.default MAX_NUMBER_OF_ENTRIES), tt) ∧
    open (mkLayout 64 8) (λ _, Return (Ok (mgmt_shm d))) (λ _, Return (Ok (data_shm d))) tt = Return (Ok d') ∧ files d' = files d.
Proof.
  assert (layout_wf (mkLayout 64 8)) as Hl by (split; [cbn; lia|by exists 3]).
  assert (l_align (mkLayout 64 8) ≤ 8) as Ha by (cbn; lia). assert (0 < l_size (mkLayout 64 8)) as Hs by (cbn; lia).
  pose proof (directory_setup_correct (DM := PosixMemory ShmBumpAllocator) (mkLayout 64 8) Hl Hs Ha _ _ _
    (mkCreator (Bytes.mkString 0 []) 100 false) tt 8239 65583 example_builders_ok) as (r & w' & Hc & Hr).
  destruct w'.
  destruct r as [[d t]|e]; [|by vm_compute in Hc]. destruct Hr as (-> & _ & _ & _ & _ & Hop).
  assert (api_data_start_address (mgmt_shm d) = Return 8239) as Hst by (vm_compute in Hc; by injection Hc as <-).
  destruct (Hop _ posix_api (λ _, Return (Ok (mgmt_shm d))) (λ _, Return (Ok (data_shm d))) (mgmt_shm d) (data_shm d) 8239)
    as (d' & Hd' & Heq); try done.
  exists d, d'. split; [exact Hc|]. split; [exact Hd'|lia].
Defined.
End SetupWitness.
