(* ===== verification/DirectorySystem.v ===== *)
(** * The shared memory directory as a system

    Any number of threads, of any processes, that work on one directory
    (elkodon_cal/src/shared_memory_directory/mod.rs, file.rs): they ask for files, create
    them under a name, open, release, list and remove them, in any order, with every
    access to the table a step of its own ([FileReferenceSet.thread_step]). An allocation
    of the data segment is one step, justified by the contract [SharedMemoryLaws].

    The theorems: the contents of files never overlap, whatever the threads do to the
    table, and stay clear of the memory a thread holds for a file it has not created yet;
    the memory of all files ever made fits into the data segment, since none is given
    back; a file written by one process is read by the others as it was written. *)

From S2P Require Import Prelude Elementary UniqueIndexSet ReferenceCounter HeapMemory BumpAllocator PoolAllocator ShmAllocator.
From S2P Require Import SharedMemory ByteString SemanticString SystemTypes NamedConcept LocalRegistry LocalMemory Directory FileReferenceSet.
Open Scope Z_scope.

(** ** Disjoint chunks *)

#[export] Instance chunks_disjoint_symm : Symmetric chunks_disjoint.
Proof. intros c d [H|H]; [by right|by left]. Qed.

Lemma pairwise_disjoint_submseteq cs ds : cs ⊆+ ds → pairwise_disjoint ds → pairwise_disjoint cs.
Proof.
  induction 1 as [|c cs ds Hs IH|c d cs|c cs ds Hs IH|cs ds es _ IH1 _ IH2]; cbn; [done| | | |by auto].
  - intros [Hc Hds]. split; [|by auto]. rewrite Forall_forall in *. intros x Hx. apply Hc. by eapply elem_of_submseteq.
  - intros [[Hdc Hd]%Forall_cons [Hc Hcs]]. split_and!; try done. constructor; [by symmetry|done].
  - intros [_ Hds]. by auto.
Qed.

Lemma pairwise_disjoint_lookup cs i j c d :
  pairwise_disjoint cs → i ≠ j → cs !! i = Some c → cs !! j = Some d → chunks_disjoint c d.
Proof.
  revert i j. induction cs as [|e cs IH]; intros i j Hpd Hne Hi Hj; [done|]. destruct Hpd as [He Hcs].
  rewrite Forall_forall in He.
  destruct i as [|i], j as [|j]; cbn in Hi, Hj; [done| | |by eapply (IH i j); auto].
  - injection Hi as <-. apply He. by eapply list_elem_of_lookup_2.
  - injection Hj as <-. symmetry. apply He. by eapply list_elem_of_lookup_2.
Qed.

(** Empty chunks at the start of the segment are in nobody's way. *)
Lemma pairwise_disjoint_padded cs n :
  Forall (λ c, 0 ≤ c_start c) cs → pairwise_disjoint cs → pairwise_disjoint (cs ++ replicate n (mkChunk 0 0)).
Proof.
  induction cs as [|c cs IH]; cbn.
  - intros _ _. induction n as [|n IH]; cbn; [done|]. split; [|done]. apply Forall_replicate. left. cbn. lia.
  - intros [Hc Hcs]%Forall_cons [Hd Hds]. split; [|by auto]. apply Forall_app. split; [done|].
    apply Forall_replicate. right. cbn. lia.
Qed.

(** What disjoint chunks of a region need together. *)
Fixpoint bytes_of (cs : list Chunk) : list Z :=
  match cs with [] => [] | c :: cs => seqZ (c_start c) (c_len c) ++ bytes_of cs end.

Definition total_bytes (cs : list Chunk) : Z := foldr (λ c n, c_len c + n) 0 cs.

Lemma bytes_of_spec cs x : x ∈ bytes_of cs ↔ ∃ c, c ∈ cs ∧ c_start c ≤ x < c_start c + c_len c.
Proof.
  induction cs as [|c cs IH]; cbn.
  - split; [by intros ?%elem_of_nil|by intros (c & ?%elem_of_nil & _)].
  - rewrite elem_of_app, elem_of_seqZ, IH. split.
    + intros [H|(d & Hd & H)]; [exists c|exists d]; (split; [|lia]); by constructor.
    + intros (d & [->|Hd]%elem_of_cons & H); [left; lia|right; by exists d].
Qed.

Lemma disjoint_chunks_fit cs lo hi :
  lo ≤ hi → Forall (λ c, 0 ≤ c_len c ∧ lo ≤ c_start c ∧ c_start c + c_len c ≤ hi) cs → pairwise_disjoint cs →
  total_bytes cs ≤ hi - lo.
Proof.
  intros Hlh Hcs Hd. assert (NoDup (bytes_of cs)) as Hnd.
  { clear Hlh. induction cs as [|c cs IH]; cbn; [constructor|]. destruct Hd as [Hc Hd]. apply Forall_cons in Hcs as [Hc' Hcs].
    apply NoDup_app. split_and!; [apply NoDup_seqZ| |by auto].
    intros x Hx (d & Hin & Hxd)%bytes_of_spec. apply elem_of_seqZ in Hx. rewrite Forall_forall in Hc.
    specialize (Hc d Hin). destruct Hc as [Hc|Hc]; cbn in Hc; lia. }
  assert (bytes_of cs ⊆+ seqZ lo (hi - lo)) as Hsub%submseteq_length.
  { apply NoDup_submseteq; [done|]. intros x (c & Hin & Hx)%bytes_of_spec. rewrite Forall_forall in Hcs.
    specialize (Hcs c Hin). cbn in Hcs. apply elem_of_seqZ. lia. }
  assert (Z.of_nat (length (bytes_of cs)) = total_bytes cs) as <-.
  { clear -Hcs. induction cs as [|c cs IH]; [done|]. apply Forall_cons in Hcs as [Hc Hcs]. cbn.
    rewrite length_app, length_seqZ. unfold total_bytes in *. cbn. rewrite <- IH by done. lia. }
  rewrite length_seqZ in Hsub. lia.
Qed.

(** ** Threads *)

(** Between two calls; with a file it may create; in a call of the table; removing the
    file of a slot it found ([set_to_be_removed]); listing the files. *)
Inductive worker :=
| Idle
| Creator (f : FileCreator)
| Table (t : pc)
| Unpersist (id : Z)
| MarkRemoved (id : Z)
| Listing (todo : list Z).

Definition entry_chunk (e : Entry) : Chunk := mkChunk (FileReferenceSet.offset e) (len e).

(** The entry a file will get. *)
Definition creator_entry (f : FileCreator) (n : FileReferenceSet.FileName) : Entry :=
  mkEntry n (SharedMemory.offset (f_memory f)) (l_size (f_layout f)).
Definition creator_chunk (f : FileCreator) : Chunk := mkChunk (SharedMemory.offset (f_memory f)) (l_size (f_layout f)).

Section System.
Context `{P : Profile} {MM DM : Type} `{!SharedMemoryApi DM, !SharedMemoryLaws DM}.

Definition worker_step (s : FileReferenceSet) (w : worker) : outcome (FileReferenceSet * worker) :=
  match w with
  | Idle | Creator _ => Return (s, w)
  | Table t => if finished t then Return (s, Idle) else let! '(s, t) := thread_step s t in Return (s, Table t)
  | Unpersist id =>
      let! '(_, s) := on_counter (λ v, set_persistency_bit v false) s id in Return (s, MarkRemoved id)
  | MarkRemoved id => let! '(_, s) := on_counter to_be_removed s id in Return (s, Table (RDecrement id))
  | Listing [] => Return (s, Idle)
  | Listing (i :: todo) =>
      let! '(_, s) := on_counter increment_ref_counter_when_initialized s i in Return (s, Listing todo)
  end.

(** The calls, with any arguments. *)
Inductive calls (s : FileReferenceSet) : worker → worker → Prop :=
| call_find n : calls s Idle (Table (FScan n (slots s)))
| call_drop id : calls s Idle (Table (RDecrement id))
| call_finalize id : calls s Idle (Table (Finalize id))
| call_remove id : calls s Idle (Unpersist id)
| call_list : calls s Idle (Listing (slots s))
| call_set_persistent f b : calls s (Creator f) (Creator (file_creator_set_is_persistent f b))
| call_create f n : calls s (Creator f) (Table (IAcquire (creator_entry f n) (f_is_persistent f)))
| call_forget f : calls s (Creator f) Idle.

Record dsys := mkDsys { directory : SharedMemoryDirectory MM DM; table : FileReferenceSet; workers : list worker }.

Definition after_new_file {E} (r : result FileCreator E) : worker :=
  match r with Ok f => Creator f | Err _ => Idle end.
Definition is_ok {T E} (r : result T E) : bool := match r with Ok _ => true | Err _ => false end.

(** The label tells which layout was asked for, and whether it was granted. *)
Inductive dir_step (limit : Z) : dsys → option (Layout * bool) → dsys → Prop :=
| step_new_file d s ws1 ws2 l r d' :
    layout_wf l → l_size l + l_align l ≤ limit → new_file d l = Return (r, d') →
    dir_step limit (mkDsys d s (ws1 ++ Idle :: ws2)) (Some (l, is_ok r)) (mkDsys d' s (ws1 ++ after_new_file r :: ws2))
| step_call d s ws1 w w' ws2 :
    calls s w w' → dir_step limit (mkDsys d s (ws1 ++ w :: ws2)) None (mkDsys d s (ws1 ++ w' :: ws2))
| step_worker d s ws1 w ws2 s' w' :
    worker_step s w = Return (s', w') →
    dir_step limit (mkDsys d s (ws1 ++ w :: ws2)) None (mkDsys d s' (ws1 ++ w' :: ws2)).

(** ** Which memory is whose *)

(** The chunks a thread holds that are in no entry yet. *)
Definition held (w : worker) : list Chunk :=
  match w with
  | Creator f => [creator_chunk f]
  | Table (IAcquire e _) | Table (IWriteEntry e _ _) => [entry_chunk e]
  | _ => []
  end.

Definition in_table (s : FileReferenceSet) : list Chunk := entry_chunk <$> entries s.
Definition in_use (s : FileReferenceSet) (ws : list worker) : list Chunk := in_table s ++ (ws ≫= held).

(** The granted requests of a run, in bytes. *)
Definition granted (tr : list (Layout * bool)) : Z := foldr (λ '(l, b) n, (if b : bool then l_size l else 0) + n) 0 tr.

(** The chunks of entries and threads are different chunks that were handed out; the
    entries of the empty table add empty ones. *)
Record dir_inv (start size : Z) (n : nat) (y : dsys) (tr : list (Layout * bool)) : Prop := {
  dir_chunks : ∃ offs, api_owns (length tr) (data_shm (directory y)) start size offs ∧
    in_use (table y) (workers y) ⊆+ offs ++ replicate n (mkChunk 0 0) ∧
    Forall (λ c, 0 ≤ c_len c) offs ∧ total_bytes offs = granted tr
}.

Implicit Types (s : FileReferenceSet) (d : SharedMemoryDirectory MM DM).

(** A step taken apart: the accesses to counters and decisions leave the entries alone. *)
Ltac open_step H :=
  cbn [obind] in H;
  lazymatch type of H with
  | obind ?m _ = Return _ => let E := fresh "E" in destruct m as [?x| |] eqn:E; [open_step H|discriminate H..]
  | (let '(_, _) := ?x in _) = Return _ => destruct x; open_step H
  | (if ?b then _ else _) = Return _ => let E := fresh "E" in destruct b eqn:E; open_step H
  | (match ?l with [] => _ | _ :: _ => _ end) = Return _ => destruct l; open_step H
  | _ => idtac
  end.

Ltac same_entries :=
  repeat match goal with
  | H : on_counter _ _ _ = Return _ |- _ => apply on_counter_entries in H
  | H : on_decision _ _ _ = Return _ |- _ => apply on_decision_entries in H
  end; cbn; congruence.

Lemma remove_entry_entries s i s' : remove_entry s i = Return s' → entries s' = entries s.
Proof. unfold remove_entry. intros H. open_step H. injection H as <-. same_entries. Qed.

Lemma in_table_same s s' : entries s' = entries s → in_table s' = in_table s.
Proof. unfold in_table. by intros ->. Qed.

Lemma return_pair {A B} (a c : A) (b d : B) : Return (a, b) = Return (c, d) → c = a ∧ d = b.
Proof. by intros [= -> ->]. Qed.

(** Every step but the one that writes an entry. *)
Lemma thread_step_entries s t s' t' :
  (∀ e p id, t ≠ IWriteEntry e p id) → thread_step s t = Return (s', t') →
  entries s' = entries s ∧ held (Table t') ⊆+ held (Table t).
Proof.
  intros Ht H. destruct t; cbn [thread_step] in H; open_step H.
  all: try (apply return_pair in H as [-> ->]).
  all: try (split; [first [done|same_entries|by eapply remove_entry_entries]|]; cbn; repeat case_match; by try apply submseteq_nil_l).
  - split; [done|]. destruct o; [done|apply submseteq_nil_l].
  - by destruct (Ht e persistent id).
  - unfold finalize_initialization in E. open_step E. injection E as <-. split; [same_entries|done].
Qed.

(** Writing an entry is the only step that changes what the entries and the threads
    hold: the chunk passes from the thread to the table. *)
Lemma thread_step_chunks s t s' t' :
  thread_step s t = Return (s', t') → in_table s' ++ held (Table t') ⊆+ in_table s ++ held (Table t).
Proof.
  intros H. assert ((∃ e p id, t = IWriteEntry e p id) ∨ ∀ e p id, t ≠ IWriteEntry e p id) as [(e & p & id & ->)|Ht].
  { destruct t; eauto 10; by right. }
  - cbn [thread_step] in H. open_step H. apply return_pair in H as [-> ->]. cbn [held]. rewrite app_nil_r.
    unfold index_write in E. destruct (raw_write (entries s) id e) eqn:Ew; [|done..].
    apply raw_write_inv in Ew as [Hid ->]. injection E as <-. unfold in_table. cbn [set_entries entries].
    destruct (lookup_lt_is_Some_2 (entries s) (Z.to_nat id) ltac:(lia)) as [old Hold].
    rewrite list_fmap_insert, insert_take_drop by (rewrite length_fmap; lia).
    rewrite <- (take_drop_middle (entry_chunk <$> entries s) (Z.to_nat id) (entry_chunk old)) at 3 by (by rewrite list_lookup_fmap, Hold).
    rewrite <- app_assoc. apply submseteq_app; [done|]. cbn.
    apply submseteq_cons. by rewrite <- Permutation_cons_append.
  - destruct (thread_step_entries s t s' t' Ht H) as [He Hh]. rewrite (in_table_same _ _ He). by apply submseteq_app.
Qed.

Lemma worker_step_chunks s w s' w' :
  worker_step s w = Return (s', w') → in_table s' ++ held w' ⊆+ in_table s ++ held w.
Proof.
  intros H. destruct w; cbn [worker_step] in H.
  3: { destruct (finished t) eqn:Ef.
       - apply return_pair in H as [-> ->]. by destruct t.
       - open_step H. apply return_pair in H as [-> ->]. by apply thread_step_chunks. }
  5: destruct todo. all: open_step H; apply return_pair in H as [-> ->]; try done.
  all: rewrite (in_table_same s f) by same_entries; done.
Qed.

Lemma calls_held s w w' : calls s w w' → held w' ⊆+ held w.
Proof. destruct 1; cbn; try done. apply submseteq_nil_l. Qed.

Lemma in_use_step s s' ws1 w w' ws2 :
  in_table s' ++ held w' ⊆+ in_table s ++ held w → in_use s' (ws1 ++ w' :: ws2) ⊆+ in_use s (ws1 ++ w :: ws2).
Proof.
  intros H. unfold in_use. rewrite !bind_app. cbn. 
  assert (∀ a b c d : list Chunk, a ++ b ++ c ++ d ≡ₚ (a ++ c) ++ b ++ d) as Hp by (intros; solve_Permutation).
  rewrite !Hp. by apply submseteq_app.
Qed.

Lemma new_file_spec d l r d' k start size offs :
  api_owns k (data_shm d) start size offs → layout_wf l → start + size + l_size l + l_align l < USIZE → Z.of_nat k + 1 < U32 →
  new_file d l = Return (r, d') →
  match r with
  | Ok f => api_owns (S k) (data_shm d') start size (creator_chunk f :: offs) ∧ f_layout f = l ∧
            data_ptr (f_memory f) = start + SharedMemory.offset (f_memory f)
  | Err _ => api_owns (S k) (data_shm d') start size offs
  end.
Proof.
  intros Hown Hl Hb Hk H. unfold new_file in H.
  destruct (api_owns_allocate k (data_shm d) start size offs l Hown Hl Hb Hk) as (r0 & m' & Hal & Hr).
  rewrite Hal in H. cbn [obind] in H. destruct r0 as [p|e]; [|by apply return_pair in H as [-> ->]].
  destruct Hr as (Hp & _ & Hr). cbn [data_shm] in H. rewrite (api_owns_start _ _ _ _ _ Hr) in H. cbn [obind] in H.
  by apply return_pair in H as [-> ->].
Qed.

Lemma granted_snoc tr l b : granted (tr ++ [(l, b)]) = granted tr + (if b : bool then l_size l else 0).
Proof. unfold granted. induction tr as [|[l' b'] tr IH]; cbn; [lia|]. rewrite IH. lia. Qed.

Lemma dir_step_inv limit start size n y tr e y' :
  start + size + limit < USIZE → dir_inv start size n y tr → dir_step limit y e y' →
  Z.of_nat (length (tr ++ option_list e)) < U32 → dir_inv start size n y' (tr ++ option_list e).
Proof.
  intros Hb [(offs & Hown & Hsub & Hlen & Htot)] Hst Hk. destruct Hst as [d s ws1 ws2 l r d' Hl Hlim Hnf|d s ws1 w w' ws2 Hc|d s ws1 w ws2 s' w' Hw];
    cbn [directory table workers] in *; simpl option_list in *; rewrite ?app_nil_r.
  - rewrite length_app in Hk. cbn in Hk. pose proof (new_file_spec d l r d' _ start size offs Hown Hl ltac:(lia) ltac:(lia) Hnf) as Hr. pose proof Hl as [Hl0 _].
    constructor. cbn [directory table workers]. rewrite granted_snoc, length_app, Nat.add_1_r. destruct r as [f|e]; cbn [is_ok after_new_file].
    + destruct Hr as (Hown' & Hlf & _). assert (c_len (creator_chunk f) = l_size l) as Hcl by (by rewrite <- Hlf). exists (creator_chunk f :: offs). split; [done|].
      split; [|split; [constructor; [lia|done]|unfold total_bytes in *; cbn [foldr]; lia]].
      transitivity (creator_chunk f :: in_use s (ws1 ++ Idle :: ws2)); [|by apply submseteq_skip].
      unfold in_use. rewrite !bind_app. cbn [held mbind list_bind]. cbn. by rewrite !app_assoc, Permutation_middle.
    + exists offs. split_and!; try done. lia.
  - constructor. exists offs. cbn [directory table workers]. split_and!; try done. etrans; [|exact Hsub]. apply in_use_step.
    by apply submseteq_app, (calls_held s).
  - constructor. exists offs. cbn [directory table workers]. split_and!; try done. etrans; [|exact Hsub]. by apply in_use_step, worker_step_chunks.
Qed.

Lemma dir_reachable_inv limit start size n m d y tr :
  start + size + limit < USIZE → api_owns 0 (data_shm d) start size [] →
  steps (dir_step limit) (mkDsys d (default n) (replicate m Idle)) tr y → Z.of_nat (length tr) < U32 →
  dir_inv start size (Z.to_nat n) y tr.
Proof.
  intros Hb Hown Hst. revert y tr Hst.
  apply (steps_invariant (dir_step limit) (λ y tr, Z.of_nat (length tr) < U32 → dir_inv start size (Z.to_nat n) y tr)).
  - intros _. constructor. exists []. cbn [directory table workers length]. split_and!; try done.
    unfold in_use, in_table. cbn [default entries]. rewrite fmap_replicate.
    replace (replicate m Idle ≫= held) with (@nil Chunk) by (clear; induction m; by rewrite ?replicate_S). by rewrite app_nil_r.
  - intros s tr s' _ IH Hst Hk. rewrite <- (app_nil_r tr). apply (dir_step_inv limit start size _ s tr None s'); auto.
    by rewrite app_nil_r.
  - intros s tr l s' _ IH Hst Hk. apply (dir_step_inv limit start size _ s tr (Some l) s'); auto. apply IH.
    rewrite length_app in Hk. lia.
Qed.

(** What the invariant says about memory: everything in use is inside of the segment,
    and pairwise disjoint. *)
Lemma dir_inv_memory start size n y tr :
  0 ≤ size → dir_inv start size n y tr →
  pairwise_disjoint (in_use (table y) (workers y)) ∧
  Forall (λ c, 0 ≤ c_len c ∧ 0 ≤ c_start c ∧ c_start c + c_len c ≤ size) (in_use (table y) (workers y)) ∧ granted tr ≤ size.
Proof.
  intros Hs [(offs & Hown & Hsub & Hlen & Htot)]. pose proof (api_owns_inside _ _ _ _ _ Hown) as Hin.
  pose proof (api_owns_disjoint _ _ _ _ _ Hown) as Hd. split_and!.
  - eapply pairwise_disjoint_submseteq, pairwise_disjoint_padded; [done| |done].
    eapply Forall_impl; [exact Hin|]. by intros c [? _].
  - apply Forall_forall. intros c Hc. eapply elem_of_submseteq in Hc; [|done]. apply elem_of_app in Hc as [Hc|Hc].
    + rewrite Forall_forall in Hin, Hlen. split; auto.
    + apply elem_of_replicate in Hc as [-> _]. cbn. lia.
  - rewrite <- Htot. replace size with (size - 0) by lia. apply disjoint_chunks_fit; [done| |done].
    apply Forall_forall. intros c Hc. rewrite Forall_forall in Hlen, Hin. specialize (Hlen c Hc). specialize (Hin c Hc). cbn in *. lia.
Qed.

(** The contents of a file, in a process that has the data segment at [b]. *)
Lemma file_content_chunk s size i b c :
  Forall (λ c, 0 ≤ c_len c ∧ 0 ≤ c_start c ∧ c_start c + c_len c ≤ size) (in_table s) → 0 ≤ b → b + size < USIZE →
  file_content (mkFile i b) s = Return c →
  0 ≤ i ∧ ∃ e, in_table s !! Z.to_nat i = Some e ∧ c = mkChunk (c_start e + b) (c_len e) ∧
    b ≤ c_start c ∧ c_start c + c_len c ≤ b + size.
Proof.
  intros Hin Hb Hs H. unfold file_content, get_payload in H. cbn [id base_address] in H.
  destruct (index_read (entries s) i) as [e| |] eqn:E; [|done..]. cbn [obind] in H.
  unfold index_read in E. destruct (raw_read (entries s) i) eqn:Er; [|done..]. injection E as ->.
  apply raw_read_inv in Er as [Hi He]. assert (in_table s !! Z.to_nat i = Some (entry_chunk e)) as Hd
    by (unfold in_table; by rewrite list_lookup_fmap, He).
  rewrite Forall_lookup in Hin. pose proof (Hin _ _ Hd) as Hc. cbn in Hc. rewrite uadd_ok in H by lia. injection H as <-.
  split; [done|]. exists (entry_chunk e). cbn. split_and!; try done; lia.
Qed.

(** C8. Files never overlap: any number of threads ask for files, create, open, release,
    list and remove them, with any arguments and in any order of their accesses to the
    table. At every moment, the contents of different entries lie inside of the data
    segment and have no byte in common, wherever a process has mapped it; and no entry
    has a byte in common with the memory a thread was given for a file it has not created
    yet. *)
Theorem files_never_overlap limit start size n m d y tr b i c :
  0 ≤ size → start + size + limit < USIZE → api_owns 0 (data_shm d) start size [] →
  steps (dir_step limit) (mkDsys d (default n) (replicate m Idle)) tr y → Z.of_nat (length tr) < U32 →
  0 ≤ b → b + size < USIZE → file_content (mkFile i b) (table y) = Return c →
  b ≤ c_start c ∧ c_start c + c_len c ≤ b + size ∧
  (∀ j c', j ≠ i → file_content (mkFile j b) (table y) = Return c' → chunks_disjoint c c') ∧
  (∀ f, Creator f ∈ workers y → chunks_disjoint c (mkChunk (c_start (creator_chunk f) + b) (c_len (creator_chunk f)))).
Proof.
  intros Hs Hl Hown Hst Hk Hb Hbs Hc. pose proof (dir_reachable_inv limit start size n m d y tr Hl Hown Hst Hk) as Hinv.
  destruct (dir_inv_memory _ _ _ _ _ Hs Hinv) as (Hd & Hin & _). apply Forall_app in Hin as Hin'. destruct Hin' as [Hin' _].
  destruct (file_content_chunk _ size i b c Hin' Hb Hbs Hc) as (Hi & e & He & -> & H1 & H2). split; [done|]. split; [done|].
  assert (∀ k e', k ≠ Z.to_nat i → in_use (table y) (workers y) !! k = Some e' →
    chunks_disjoint (mkChunk (c_start e + b) (c_len e)) (mkChunk (c_start e' + b) (c_len e'))) as Hdis.
  { intros k e' Hne Hk'. assert (chunks_disjoint e e') as [?|?]; [|left; cbn; lia|right; cbn; lia].
    apply (pairwise_disjoint_lookup _ (Z.to_nat i) k e e' Hd); [done| |done]. by apply lookup_app_l_Some. }
  split.
  - intros j c' Hne Hc'. destruct (file_content_chunk _ size j b c' Hin' Hb Hbs Hc') as (Hj & e' & He' & -> & _).
    apply (Hdis (Z.to_nat j)); [lia|]. by apply lookup_app_l_Some.
  - intros f Hf. assert (creator_chunk f ∈ workers y ≫= held) as [k Hk']%list_elem_of_lookup_1.
    { apply list_elem_of_bind. exists (Creator f). split; [by left|done]. }
    apply (Hdis (length (in_table (table y)) + k)%nat).
    + apply lookup_lt_Some in He. lia.
    + unfold in_use. rewrite lookup_app_r by lia. by rewrite Nat.add_comm, Nat.add_sub.
Qed.

(** The memory of a file is never used again: whatever is created, released and
    removed, the sizes of all files that were ever granted do not exceed the size of the
    data segment together. *)
Theorem directory_memory_is_used_up limit start size n m d y tr :
  0 ≤ size → start + size + limit < USIZE → api_owns 0 (data_shm d) start size [] →
  steps (dir_step limit) (mkDsys d (default n) (replicate m Idle)) tr y → Z.of_nat (length tr) < U32 →
  granted tr ≤ size.
Proof.
  intros Hs Hl Hown Hst Hk. pose proof (dir_reachable_inv limit start size n m d y tr Hl Hown Hst Hk) as Hinv.
  by destruct (dir_inv_memory _ _ _ _ _ Hs Hinv) as (_ & _ & ?).
Qed.
End System.

(** ** From one process to another *)

(** The bytes of the data segment; where a process that has it at [b] reads and writes. *)
Definition view (b : Z) (seg : list Z) (c : Chunk) : list Z :=
  take (Z.to_nat (c_len c)) (skipn (Z.to_nat (c_start c - b)) seg).
Definition fill (b : Z) (content : list Z) (address size : Z) (seg : list Z) : outcome (list Z) :=
  let k := Z.to_nat (address - b) in Return (take k seg ++ content ++ skipn (k + length content)%nat seg).

Lemma view_fill b b' (content seg seg' : list Z) k :
  0 ≤ k → k + Z.of_nat (length content) ≤ Z.of_nat (length seg) → fill b content (b + k) (Z.of_nat (length content)) seg = Return seg' →
  view b' seg' (mkChunk (k + b') (Z.of_nat (length content))) = content ∧ length seg' = length seg ∧
  ∀ c, 0 ≤ c_start c - b' → chunks_disjoint c (mkChunk (k + b') (Z.of_nat (length content))) → view b' seg' c = view b' seg c.
Proof.
  intros Hk Hl [= <-]. unfold view. cbn [c_start c_len]. replace (b + k - b) with k by lia.
  replace (k + b' - b') with k by lia. rewrite Nat2Z.id. split_and!.
  - rewrite drop_app_ge by (rewrite length_take; lia). rewrite length_take, Nat.min_l by lia.
    by rewrite Nat.sub_diag, drop_0, take_app_length.
  - rewrite !length_app, length_take, length_drop. lia.
  - intros [s l] Hs [Hd|Hd]; cbn [c_start c_len] in *; apply list_eq; intros j.
    + destruct (decide (j < Z.to_nat l)%nat); [|by rewrite !lookup_take_ge by lia].
      rewrite !lookup_take_lt, !lookup_drop by lia. rewrite lookup_app_l by (rewrite length_take; lia). by rewrite lookup_take_lt by lia.
    + destruct (decide (j < Z.to_nat l)%nat); [|by rewrite !lookup_take_ge by lia].
      rewrite !lookup_take_lt, !lookup_drop by lia. rewrite lookup_app_r by (rewrite length_take; lia).
      rewrite lookup_app_r by (rewrite length_take; lia). rewrite lookup_drop, length_take. f_equal. lia.
Qed.

Section RoundTrip.
Context `{P : Profile} {MM DM : Type} `{!SharedMemoryApi DM, !SharedMemoryLaws DM}.
Implicit Types (s : FileReferenceSet) (d : SharedMemoryDirectory MM DM).

(** The only visible file of its name is the one just finished. *)
Lemma finished_file_is_found s n m aba fl f off ln persistent ids' id s'' :
  table_inv s'' n m aba fl → 0 ≤ id < n → length (counter s) = Z.to_nat n → length (entries s) = Z.to_nat n →
  (∀ i, 0 ≤ i < n → live s f i = false) →
  finalize_initialization (with_file s id f off ln persistent ids') id = Return s'' → visible s'' f id = true →
  List.find (visible s'' f) (indices n) = Some id ∧ entries s'' !! Z.to_nat id = Some (mkEntry f off ln).
Proof.
  intros Hinv Hid Hlc Hle Hlive Hfin Hvis. unfold finalize_initialization in Hfin.
  rewrite (on_counter_ok _ _ _ (word_of 1 false persistent false) tt (word_of 1 true persistent false)) in Hfin;
    [|lia|cbn; apply list_lookup_insert_eq; lia|by apply set_initialized_word].
  cbn [obind] in Hfin. injection Hfin as <-. split; [|cbn; apply list_lookup_insert_eq; lia].
  destruct (List.find _ (indices n)) as [j|] eqn:Ef.
  - apply List.find_some in Ef as [Hin Hv]. apply list_elem_of_In, indices_spec in Hin.
    destruct (decide (j = id)) as [->|Hne]; [done|]. apply visible_live in Hv. specialize (Hlive j Hin).
    exfalso. unfold live, holds in Hv, Hlive. cbn in Hv.
    rewrite !list_lookup_insert_ne in Hv by lia. by rewrite Hv in Hlive.
  - eapply List.find_none in Ef; [by rewrite Hvis in Ef|]. by apply list_elem_of_In, indices_spec.
Qed.

(** C25. From one process to another: a file that is created with some content under a
    name no other file has is found, by every process, under this name; wherever the
    process has mapped the data segment it reads the name and the bytes that were written.
    The bytes of all other files stay as they are. *)
Theorem file_round_trip s n m aba id fl name persistent d1 d1' d2 b1 b2 size k offs l f content seg :
  table_inv s n m aba (id :: fl) → 1 ≤ m → aba + 1 < U32 → 0 ≤ global_decision_counter s < UNDECIDED →
  (∀ i, 0 ≤ i < n → live s name i = false) →
  api_owns k (data_shm d1) b1 size offs → Z.of_nat k + 1 < U32 → layout_wf l → b1 + size + l_size l + l_align l < USIZE →
  new_file d1 l = Return (Ok f, d1') → Z.of_nat (length seg) = size → Z.of_nat (length content) = l_size l →
  api_data_start_address (data_shm d2) = Return b2 → 0 ≤ b2 → b2 + size < USIZE →
  ∃ file s' seg', file_create (file_creator_set_is_persistent f persistent) s seg name (fill b1 content) = Return (Ok file, s', seg') ∧
    does_file_exist s' name = Return (true, s') ∧
    ∃ file' s'' c, open_file d2 s' name = Return (Some file', s'') ∧ file_name file' s'' = Return name ∧
      file_content file' s'' = Return c ∧ view b2 seg' c = content ∧ length seg' = length seg ∧
      ∀ c', 0 ≤ c_start c' - b2 → chunks_disjoint c' c → view b2 seg' c' = view b2 seg c'.
Proof.
  intros Hinv Hm Haba Hg Hlive Hown Hk Hl Hb Hnf Hseg Hcon Hb2 Hb2p Hb2s.
  assert (0 ≤ id < n) as Hid.
  { pose proof (tab_ids _ _ _ _ _ Hinv) as [_ _ _ _ _ (Hr & _)]. by rewrite (tab_capacity _ _ _ _ _ Hinv) in Hr. }
  destruct (new_file_spec d1 l (Ok f) d1' k b1 size offs Hown Hl Hb Hk Hnf) as (Hown' & Hfl & Hptr).
  pose proof (api_owns_inside _ _ _ _ _ Hown') as [[Ho1 Ho2] _]%Forall_cons. cbn in Ho1, Ho2. rewrite Hfl in Ho2.
  set (o := SharedMemory.offset (f_memory f)) in *. clear Hown' Hnf Hown.
  destruct (insert_fresh_correct s n m aba (id :: fl) name o (l_size l) persistent Hinv Hm Haba ltac:(lia) Hg Hlive)
    as (ids' & s1 & -> & Hins & Hinv1 & _ & s2 & Hfin & Hinv2 & Hvis).
  destruct (finished_file_is_found _ _ _ _ _ _ _ _ _ _ _ _ Hinv2 Hid (tab_counter _ _ _ _ _ Hinv) (tab_entries _ _ _ _ _ Hinv) Hlive Hfin Hvis)
    as [Hfind Hen].
  destruct (file_lookup_correct s2 n m (aba + 1) fl name Hinv2) as [Hex Hbor]. rewrite Hfind in Hbor. destruct Hbor as [Hbor _].
  rewrite existsb_find, Hfind in Hex.
  destruct (fill b1 content (b1 + o) (l_size l) seg) as [seg'| |] eqn:Hfill; [|done..].
  pose proof Hfill as Hfill'. rewrite <- Hcon in Hfill'.
  destruct (view_fill b1 b2 content seg seg' o Ho1 ltac:(lia) Hfill') as (Hv & Hlen & Hoth). rewrite Hcon in Hv, Hoth.
  exists (mkFile id (f_base_address f)), s2, seg'. split_and!.
  - unfold file_create. cbn [f_memory f_layout f_is_persistent file_creator_set_is_persistent]. fold o. rewrite Hfl, Hptr.
    unfold create. rewrite Hins. cbn [obind]. rewrite Hfill. cbn [obind]. rewrite Hfin. done.
  - exact Hex.
  - exists (mkFile id b2), (add_ref s2 id 1), (mkChunk (o + b2) (l_size l)). unfold open_file. rewrite Hb2. cbn [obind].
    rewrite Hbor. split; [done|]. unfold file_name, file_content, get_name, get_payload. cbn [Directory.id Directory.base_address].
    change (entries (add_ref s2 id 1)) with (entries s2). rewrite (index_read_ok _ _ _ (proj1 Hid) Hen). cbn [obind FileReferenceSet.name FileReferenceSet.offset len].
    rewrite uadd_ok by lia. by split_and!.
Qed.
End RoundTrip.

(** ** A run: a file is asked for, created and opened *)

Section Runs.
#[local] Instance system_checked : Profile := true.

#[local] Notation Data := (PosixMemory ShmBumpAllocator).

(** 100 bytes at address 65583. *)
Definition sample_data : Data :=
  mkPosixMemory (mkMemory 65536 147 (mkAllocatorDetails 0 (mkShmBumpAllocator (BumpAllocator.new 65583 100) 65583 4096) 47)) true.
Definition sample_directory : SharedMemoryDirectory unit Data := mkDirectory tt sample_data 0.

Lemma sample_owns : api_owns 0 (data_shm sample_directory) 65583 100 [].
Proof. split; [unfold mapped, USIZE; cbn; lia|]. split; [done|]. by constructor; cbn; try lia. Qed.

(** A thread that goes on alone. *)
Fixpoint iterate (k : nat) (s : FileReferenceSet) (w : worker) : outcome (FileReferenceSet * worker) :=
  match k with O => Return (s, w) | S k => let! '(s, w) := worker_step s w in iterate k s w end.

Lemma iterate_steps limit y d k s w tr s' w' :
  iterate k s w = Return (s', w') → steps (dir_step limit) y tr (mkDsys (MM := unit) (DM := Data) d s [w]) →
  steps (dir_step limit) y tr (mkDsys d s' [w']).
Proof.
  revert s w. induction k as [|k IH]; intros s w H Hst; cbn [iterate] in H.
  - by apply return_pair in H as [-> ->].
  - destruct (worker_step s w) as [[s1 w1]| |] eqn:E; [|done..]. cbn [obind] in H. apply (IH s1 w1 H).
    eapply steps_silent; [exact Hst|]. by apply (step_worker _ d s [] w []).
Qed.

Definition sample_layout : Layout := mkLayout 16 8.
Definition sample_entry : Entry := mkEntry [97] 1 16.

Definition sample_creator : FileCreator := file_creator_new (mkShmPointer 1 65584) sample_layout 65583.

Lemma directory_sample_run :
  ∃ y, steps (dir_step 32) (mkDsys sample_directory (default 2) (replicate 1 Idle)) [(sample_layout, true)] y ∧
    file_content (mkFile 0 4096) (table y) = Return (mkChunk 4097 16).
Proof.
  assert (∃ d', new_file sample_directory sample_layout = Return (Ok sample_creator, d')) as [d' Hd']
    by (eexists; vm_compute; reflexivity).
  assert (∃ s' w', iterate 12 (default 2) (Table (IAcquire sample_entry false)) = Return (s', w') ∧
    file_content (mkFile 0 4096) s' = Return (mkChunk 4097 16)) as (s' & w' & Hi & Hc)
    by (do 2 eexists; split; [vm_compute; reflexivity|reflexivity]).
  exists (mkDsys d' s' [w']). split; [|exact Hc]. apply (iterate_steps 32 _ d' 12 _ _ _ s' w' Hi).
  eapply steps_silent; [|apply (step_call 32 d' (default 2) [] (Creator sample_creator) _ []), (call_create _ sample_creator [97])].
  apply (steps_label _ _ [] (mkDsys sample_directory (default 2) [Idle])); [apply steps_refl|].
  apply (step_new_file 32 sample_directory (default 2) [] [] sample_layout (Ok sample_creator) d'); [|cbn; lia|exact Hd'].
  split; [cbn; lia|by exists 3].
Qed.

Lemma files_never_overlap_witness : 4096 ≤ 4097 ∧ 4097 + 16 ≤ 4096 + 100.
Proof.
  destruct directory_sample_run as (y & Hst & Hc).
  destruct (files_never_overlap 32 65583 100 2 1 sample_directory y [(sample_layout, true)] 4096 0 (mkChunk 4097 16))
    as (H1 & H2 & _); [lia|unfold USIZE; lia|exact sample_owns|exact Hst|unfold U32; cbn; lia|lia|unfold USIZE; lia|exact Hc|].
  split; [exact H1|exact H2].
Defined.

Lemma directory_memory_is_used_up_witness : granted [(sample_layout, true)] ≤ 100.
Proof.
  destruct directory_sample_run as (y & Hst & Hc).
  apply (directory_memory_is_used_up 32 65583 100 2 1 sample_directory y); [lia|unfold USIZE; lia|exact sample_owns|exact Hst|unfold U32; cbn; lia].
Defined.

Lemma file_round_trip_witness :
  ∃ file s' seg', file_create (file_creator_set_is_persistent sample_creator false) (default 3) (replicate 100 0) [97] (fill 65583 (seqZ 1 16)) =
    Return (Ok file, s', seg') ∧ does_file_exist s' [97] = Return (true, s').
Proof.
  assert (∃ d', new_file sample_directory sample_layout = Return (Ok sample_creator, d')) as [d' Hd']
    by (eexists; vm_compute; reflexivity).
  destruct (file_round_trip (default 3) 3 1 0 0 [1; 2] [97] false sample_directory d' sample_directory 65583 65583 100 0 []
    sample_layout sample_creator (seqZ 1 16) (replicate 100 0)) as (file & s' & seg' & H1 & H2 & _).
  - apply (default_inv 3 1); unfold U32; lia.
  - lia.
  - unfold U32; lia.
  - split; reflexivity.
  - intros i Hi. assert (i = 0 ∨ i = 1 ∨ i = 2) as [->|[->| ->]] by lia; reflexivity.
  - exact sample_owns.
  - unfold U32; lia.
  - split; [cbn; lia|by exists 3].
  - unfold USIZE; cbn; lia.
  - exact Hd'.
  - reflexivity.
  - reflexivity.
  - reflexivity.
  - lia.
  - unfold USIZE; lia.
  - exists file, s', seg'. split; [exact H1|exact H2].
Defined.
End Runs.
