(* ===== verification/DynamicConfig.v ===== *)
(** * elkodon/src/service/dynamic_config

    The part of a service that changes: who uses it. It lies in shared memory.

    - mod.rs: the reference counter of the service. [increment_reference_counter]
      and [decrement_reference_counter] are programs over the counter of a shared
      memory object, since other processes change it in between.
    - publish_subscribe.rs, event.rs: the containers with the ids of the ports, how
      much memory they need and how they are set up in it.

    The theorem shows that the memory suffices, so that the set up never runs into
    its [fatal_panic!]. *)

From S2P Require Import Prelude Elementary UniqueIndexSet BumpAllocator Container Processes.

Definition MARKED_FOR_DESTRUCTION : Z := 2 ^ 64 - 2.

Inductive DecrementReferenceCounterResult := HasOwners | NoMoreOwners.

Section DynamicConfig.
Context `{P : Profile}.
(** Size and alignment of an id of a port. *)
Context (id_layout : Layout).

(** [fatal_panic!(when container.init(allocator))] *)
Definition init_or_panic (c : Container Z) (allocator : BumpAllocator) : outcome (Container Z * BumpAllocator) :=
  let! '(r, c, allocator) := c_init id_layout c allocator in
  match r with Ok _ => Return (c, allocator) | Err _ => Panic end.

(** ** publish_subscribe.rs *)

Record PubSubSettings := mkPubSubSettings { number_of_subscribers : Z; number_of_publishers : Z }.
Record PubSubDynamicConfig := mkPubSubDynamicConfig {
  subscribers : Container Z;
  publishers : Container Z
}.

Definition pub_sub_new (config : PubSubSettings) : PubSubDynamicConfig :=
  mkPubSubDynamicConfig (c_new_uninit (number_of_subscribers config))
    (c_new_uninit (number_of_publishers config)).

Definition pub_sub_init (v : PubSubDynamicConfig) (allocator : BumpAllocator)
    : outcome (PubSubDynamicConfig * BumpAllocator) :=
  let! '(s, allocator) := init_or_panic (subscribers v) allocator in
  let! '(p, allocator) := init_or_panic (publishers v) allocator in
  Return (mkPubSubDynamicConfig s p, allocator).

Definition pub_sub_memory_size (config : PubSubSettings) : outcome Z :=
  let! a := c_const_memory_size id_layout (number_of_subscribers config) in
  let! b := c_const_memory_size id_layout (number_of_publishers config) in
  uadd a b.

Definition number_of_supported_publishers (v : PubSubDynamicConfig) : Z := c_capacity (publishers v).
Definition number_of_supported_subscribers (v : PubSubDynamicConfig) : Z := c_capacity (subscribers v).

Definition add_subscriber_id (v : PubSubDynamicConfig) (id : Z)
    : outcome (option (UniqueIndex (Container Z)) * PubSubDynamicConfig) :=
  let! '(r, c) := add (subscribers v) id in Return (r, mkPubSubDynamicConfig c (publishers v)).
Definition add_publisher_id (v : PubSubDynamicConfig) (id : Z)
    : outcome (option (UniqueIndex (Container Z)) * PubSubDynamicConfig) :=
  let! '(r, c) := add (publishers v) id in Return (r, mkPubSubDynamicConfig (subscribers v) c).

(** ** event.rs *)

Record EventSettings := mkEventSettings { number_of_listeners : Z; number_of_notifiers : Z }.
Record EventDynamicConfig := mkEventDynamicConfig {
  listeners : Container Z;
  notifiers : Container Z
}.

Definition event_new (config : EventSettings) : EventDynamicConfig :=
  mkEventDynamicConfig (c_new_uninit (number_of_listeners config))
    (c_new_uninit (number_of_notifiers config)).

Definition event_init (v : EventDynamicConfig) (allocator : BumpAllocator)
    : outcome (EventDynamicConfig * BumpAllocator) :=
  let! '(l, allocator) := init_or_panic (listeners v) allocator in
  let! '(n, allocator) := init_or_panic (notifiers v) allocator in
  Return (mkEventDynamicConfig l n, allocator).

Definition event_memory_size (config : EventSettings) : outcome Z :=
  let! a := c_const_memory_size id_layout (number_of_listeners config) in
  let! b := c_const_memory_size id_layout (number_of_notifiers config) in
  uadd a b.

Definition number_of_supported_listeners (v : EventDynamicConfig) : Z := c_capacity (listeners v).
Definition number_of_supported_notifiers (v : EventDynamicConfig) : Z := c_capacity (notifiers v).

Definition add_listener_id (v : EventDynamicConfig) (id : Z)
    : outcome (option (UniqueIndex (Container Z)) * EventDynamicConfig) :=
  let! '(r, c) := add (listeners v) id in Return (r, mkEventDynamicConfig c (notifiers v)).
Definition add_notifier_id (v : EventDynamicConfig) (id : Z)
    : outcome (option (UniqueIndex (Container Z)) * EventDynamicConfig) :=
  let! '(r, c) := add (notifiers v) id in Return (r, mkEventDynamicConfig (listeners v) c).

(** ** mod.rs *)

Inductive DynamicMessagingPattern :=
| PublishSubscribeDynamic (v : PubSubDynamicConfig)
| EventDynamic (v : EventDynamicConfig).

Record DynamicConfig := mkDynamicConfig {
  messaging_pattern : DynamicMessagingPattern;
  reference_counter : Z
}.

Definition new_uninit (p : DynamicMessagingPattern) : DynamicConfig := mkDynamicConfig p 1.

Definition init (c : DynamicConfig) (allocator : BumpAllocator) : outcome DynamicConfig :=
  match messaging_pattern c with
  | PublishSubscribeDynamic v =>
      let! '(v, _) := pub_sub_init v allocator in
      Return (mkDynamicConfig (PublishSubscribeDynamic v) (reference_counter c))
  | EventDynamic v =>
      let! '(v, _) := event_init v allocator in
      Return (mkDynamicConfig (EventDynamic v) (reference_counter c))
  end.

Definition as_publish_subscribe (c : DynamicConfig) : outcome PubSubDynamicConfig :=
  match messaging_pattern c with PublishSubscribeDynamic v => Return v | EventDynamic _ => Panic end.
Definition as_event (c : DynamicConfig) : outcome EventDynamicConfig :=
  match messaging_pattern c with EventDynamic v => Return v | PublishSubscribeDynamic _ => Panic end.

(** The loops run until the compare-exchange succeeds. *)
Fixpoint increment_loop (fuel : nat) (d : nat) (current_value : Z) : prog (result unit unit) :=
  match fuel with
  | O => Done Undefined
  | S fuel =>
      if current_value =? MARKED_FOR_DESTRUCTION then ret (Err tt)
      else
        let* new := Done (uadd current_value 1) in
        let* r := call (CounterCas d current_value new) in
        match r with
        | Ok _ => ret (Ok tt)
        | Err v => increment_loop fuel d v
        end
  end.

Definition increment_reference_counter (fuel : nat) (d : nat) : prog (result unit unit) :=
  let* current_value := (call (CounterLoad d) : prog Z) in
  increment_loop fuel d current_value.

Fixpoint decrement_loop (fuel : nat) (d : nat) (current_value : Z) : prog DecrementReferenceCounterResult :=
  match fuel with
  | O => Done Undefined
  | S fuel =>
      let* '(new, result) :=
        (if current_value =? 1 then ret (MARKED_FOR_DESTRUCTION, NoMoreOwners)
         else let* v := Done (usub current_value 1) in ret (v, HasOwners)) in
      let* r := call (CounterCas d current_value new) in
      match r with
      | Ok _ => ret result
      | Err v => decrement_loop fuel d v
      end
  end.

Definition decrement_reference_counter (fuel : nat) (d : nat) : prog DecrementReferenceCounterResult :=
  let* current_value := (call (CounterLoad d) : prog Z) in
  decrement_loop fuel d current_value.
End DynamicConfig.

(** ** The memory suffices *)

Section Theorems.
Context `{P : Profile}.
Context (id_layout : Layout) (Hl : layout_wf id_layout) (Hs : 0 < l_size id_layout).

(** What [const_memory_size] computes. *)
Definition container_bytes (cap : Z) : Z :=
  4 * (cap + 1) + (1 + l_size id_layout) * cap + 4 - 1 + l_align id_layout - 1.

Lemma c_const_memory_size_ok cap :
  0 ≤ cap → container_bytes cap + 1 < USIZE → 1 + l_size id_layout < USIZE →
  c_const_memory_size id_layout cap = Return (container_bytes cap).
Proof using Hl Hs.
  intros H0 H1 H2. pose proof (layout_align_pos _ Hl). unfold c_const_memory_size, container_bytes in *.
  assert (0 ≤ (1 + l_size id_layout) * cap) by nia.
  rewrite uadd_ok by lia. cbn [obind]. rewrite umul_ok by lia. cbn [obind].
  rewrite uadd_ok by lia. cbn [obind]. rewrite umul_ok by lia. cbn [obind].
  do 2 (rewrite uadd_ok by lia; cbn [obind]). rewrite usub_ok by lia. cbn [obind].
  rewrite uadd_ok by lia. cbn [obind]. by rewrite usub_ok by lia.
Qed.

(** A container for at least one element is set up in any piece of memory of that
    size, at any address, and is empty afterwards. *)
Lemma init_or_panic_ok cap a lo hi cs :
  bump_owns a lo hi cs → 0 < cap → cap + 1 < U32 →
  current_position a + container_bytes cap ≤ size a →
  hi + container_bytes cap < USIZE →
  ∃ c a' cs', init_or_panic id_layout (c_new_uninit cap) a = Return (c, a') ∧
    container_rep c 0 (replicate (Z.to_nat cap) None) ∧ c_capacity c = cap ∧
    bump_owns a' lo hi cs' ∧ current_position a' ≤ current_position a + container_bytes cap.
Proof using Hl Hs.
  intros Hown Hc Hc32 Hfit Hhi. unfold container_bytes in *. pose proof (layout_align_pos _ Hl).
  assert (0 < l_size id_layout * cap) by nia.
  assert (size a = hi - lo ∧ 0 ≤ hi) as [? ?] by (destruct Hown; lia).
  unfold init_or_panic, c_init. cbn [c_is_memory_initialized c_new_uninit index_set].
  destruct (bump_allocate_succeeds a lo hi cs (mkLayout (4 * (cap + 1)) 4) Hown)
    as (c1 & a1 & Ha1 & Hl1 & _ & Hown1 & Hp1); [split; cbn; [lia|by exists 2]|cbn; lia..|].
  cbn in Hl1, Hp1. assert (size a1 = hi - lo) by (destruct Hown1; lia).
  destruct (init_rep cap a a1 c1) as (s & -> & Hset & Hcap); [lia|done|done|lia|]. cbn [obind].
  destruct (bump_allocate_succeeds a1 lo hi _ (mkLayout cap 1) Hown1)
    as (c2 & a2 & Ha2 & Hl2 & _ & Hown2 & Hp2); [split; cbn; [lia|by exists 0]|cbn; lia..|].
  cbn in Hl2, Hp2. assert (size a2 = hi - lo) by (destruct Hown2; lia).
  cbn [c_capacity set_index_set c_new_uninit allocate bump_BaseAllocator]. rewrite Ha2. cbn [obind].
  rewrite umul_ok by lia. cbn [obind].
  destruct (bump_allocate_succeeds a2 lo hi _ (mkLayout (l_size id_layout * cap) (l_align id_layout)) Hown2)
    as (c3 & a3 & Ha3 & Hl3 & _ & Hown3 & Hp3); [split; cbn; [lia|apply Hl]|cbn; lia..|].
  cbn in Hl3, Hp3. rewrite Ha3. cbn [obind]. zbool. cbn [andb obind].
  do 3 eexists. split; [done|]. split_and!; [|done|done|lia].
  constructor; cbn [c_is_memory_initialized c_capacity index_set active_index data];
    rewrite ?length_replicate, ?fmap_replicate; try done; try lia.
  - exists (indices cap). split_and!; [done|apply indices_NoDup|]. intros i Hi.
    rewrite indices_spec, lookup_replicate. split; [split; [done|lia]|lia].
  - intros _. by apply Forall_replicate.
Qed.

(** What the ports of a service may be, and what they need. *)
Definition ports_ok (a b : Z) : Prop :=
  0 < a ∧ 0 < b ∧ a + 1 < U32 ∧ b + 1 < U32 ∧ l_size id_layout + l_align id_layout < 2 ^ 16.

Lemma memory_size_value a b :
  ports_ok a b →
  pub_sub_memory_size id_layout (mkPubSubSettings a b) = Return (container_bytes a + container_bytes b) ∧
  0 < container_bytes a + container_bytes b < 2 ^ 51.
Proof using Hl Hs.
  intros (Ha & Hb & Ha32 & Hb32 & Hsz). pose proof (layout_align_pos _ Hl).
  assert (∀ x, 0 < x → x + 1 < U32 → 0 < container_bytes x ∧ container_bytes x + 1 < 2 ^ 50) as Hcb.
  { intros x Hx Hx32. unfold container_bytes, U32, USIZE in *.
    assert (0 < l_size id_layout * x) by nia.
    assert (l_size id_layout * x ≤ 2 ^ 16 * x) by (apply Z.mul_le_mono_nonneg_r; lia).
    split; lia. }
  pose proof (Hcb a Ha Ha32) as [? ?]. pose proof (Hcb b Hb Hb32) as [? ?]. split; [|lia].
  unfold pub_sub_memory_size. cbn [number_of_subscribers number_of_publishers].
  rewrite !c_const_memory_size_ok by (unfold U32, USIZE in *; lia). cbn [obind].
  by rewrite uadd_ok by (unfold USIZE in *; lia).
Qed.

(** Two containers one after the other, as both kinds of services have them. *)
Lemma two_containers_fit a b start n :
  ports_ok a b → 0 ≤ start → n = container_bytes a + container_bytes b → start + 2 * n < USIZE →
  ∃ c1 a1 c2 a2,
    init_or_panic id_layout (c_new_uninit a) (BumpAllocator.new start n) = Return (c1, a1) ∧
    init_or_panic id_layout (c_new_uninit b) a1 = Return (c2, a2) ∧
    container_rep c1 0 (replicate (Z.to_nat a) None) ∧ c_capacity c1 = a ∧
    container_rep c2 0 (replicate (Z.to_nat b) None) ∧ c_capacity c2 = b.
Proof using Hl Hs.
  intros Hports Hst -> Hbound. destruct (memory_size_value a b Hports) as [_ Hn].
  destruct Hports as (Ha & Hb & Ha32 & Hb32 & Hsz). pose proof (layout_align_pos _ Hl).
  assert (0 < container_bytes a ∧ 0 < container_bytes b) as [? ?].
  { unfold container_bytes. assert (0 < l_size id_layout * a ∧ 0 < l_size id_layout * b) by nia. lia. }
  set (n := container_bytes a + container_bytes b) in *.
  assert (bump_owns (BumpAllocator.new start n) start (start + n) []) as Hown by (constructor; cbn; done || lia).
  destruct (init_or_panic_ok a _ _ _ _ Hown Ha Ha32) as (c1 & a1 & cs1 & E1 & R1 & C1 & O1 & P1); [cbn; lia..|].
  cbn in P1. assert (size a1 = n) by (destruct O1; lia).
  destruct (init_or_panic_ok b _ _ _ _ O1 Hb Hb32) as (c2 & a2 & cs2 & E2 & R2 & C2 & _); [lia..|].
  by exists c1, a1, c2, a2.
Qed.

(** [init] returns. *)
Lemma init_safe a b start n :
  ports_ok a b → 0 ≤ start → n = container_bytes a + container_bytes b → start + 2 * n < USIZE →
  safe (init id_layout (new_uninit (PublishSubscribeDynamic (pub_sub_new (mkPubSubSettings a b))))
          (BumpAllocator.new start n)).
Proof using Hl Hs.
  intros Hports Hst Hn Hbound. destruct (two_containers_fit a b start n) as (c1 & a1 & c2 & a2 & E1 & E2 & _); try done.
  unfold safe, init. cbn [messaging_pattern new_uninit]. unfold pub_sub_init.
  cbn [subscribers publishers pub_sub_new number_of_subscribers number_of_publishers]. rewrite E1. cbn [obind].
  rewrite E2. by eexists.
Qed.

(** C27. The dynamic configuration of a service fits into the memory that
    [memory_size] asks for: for every number of ports from one on, and whatever
    address the memory has, [init] gets both containers without running into its
    [fatal_panic!], and both are empty and of the configured capacity afterwards. *)
Theorem dynamic_config_fits a b start n :
  ports_ok a b → 0 ≤ start → pub_sub_memory_size id_layout (mkPubSubSettings a b) = Return n →
  start + 2 * n < USIZE →
  event_memory_size id_layout (mkEventSettings a b) = Return n ∧
  (∃ v, init id_layout (new_uninit (PublishSubscribeDynamic (pub_sub_new (mkPubSubSettings a b))))
          (BumpAllocator.new start n) = Return (mkDynamicConfig (PublishSubscribeDynamic v) 1) ∧
     container_rep (subscribers v) 0 (replicate (Z.to_nat a) None) ∧ number_of_supported_subscribers v = a ∧
     container_rep (publishers v) 0 (replicate (Z.to_nat b) None) ∧ number_of_supported_publishers v = b) ∧
  (∃ v, init id_layout (new_uninit (EventDynamic (event_new (mkEventSettings a b))))
          (BumpAllocator.new start n) = Return (mkDynamicConfig (EventDynamic v) 1) ∧
     container_rep (listeners v) 0 (replicate (Z.to_nat a) None) ∧ number_of_supported_listeners v = a ∧
     container_rep (notifiers v) 0 (replicate (Z.to_nat b) None) ∧ number_of_supported_notifiers v = b).
Proof using Hl Hs.
  intros Hports Hst Hn Hbound. split; [exact Hn|].
  rewrite (proj1 (memory_size_value a b Hports)) in Hn. injection Hn as Hn.
  destruct (two_containers_fit a b start n) as (c1 & a1 & c2 & a2 & E1 & E2 & R1 & C1 & R2 & C2); try done.
  unfold init. cbn [messaging_pattern new_uninit]. unfold pub_sub_init, event_init.
  cbn [subscribers publishers listeners notifiers pub_sub_new event_new number_of_subscribers
       number_of_publishers number_of_listeners number_of_notifiers]. rewrite E1. cbn [obind].
  rewrite E2. cbn [obind]. split.
  - by exists (mkPubSubDynamicConfig c1 c2).
  - by exists (mkEventDynamicConfig c1 c2).
Qed.
End Theorems.

Lemma dynamic_config_fits_witness :
  ∃ v, init (P := true) (mkLayout 16 16)
         (new_uninit (PublishSubscribeDynamic (pub_sub_new (mkPubSubSettings 8 2))))
         (BumpAllocator.new 4097 254) = Return (mkDynamicConfig (PublishSubscribeDynamic v) 1) ∧
    number_of_supported_subscribers v = 8.
Proof.
  destruct (dynamic_config_fits (P := true) (mkLayout 16 16) ltac:(split; [cbn; lia|by exists 4]) ltac:(cbn; lia)
              8 2 4097 254) as (_ & (v & H1 & _ & H2 & _) & _);
    [split_and!; vm_compute; reflexivity|lia|vm_compute; reflexivity|vm_compute; reflexivity|].
  by exists v.
Defined.

(** ** The reference counter among other processes *)

Section Counting.
Context `{P : Profile}.

(** The program finds the counter with the value [c t] at its access number [t]:
    other processes change it in between. *)
Fixpoint observe {A} (p : prog A) (c : nat → Z) (t : nat) : outcome A * nat :=
  match p with
  | Done o => (o, t)
  | Call q k =>
      match q return (response q → outcome A * nat) → outcome A * nat with
      | CounterLoad _ => λ k, k (c t)
      | CounterCas _ current _ => λ k, k (if c t =? current then Ok (c t) else Err (c t))
      | _ => λ _, (Undefined, t)
      end (λ r, observe (k r) c (S t))
  end.

(** How often the counter is changed between two of [n] accesses from [t] on. *)
Fixpoint changes (c : nat → Z) (t n : nat) : nat :=
  match n with
  | O => O
  | S n => (if c t =? c (S t) then 0 else 1) + changes c (S t) n
  end.

Lemma observe_increment_loop d c fuel t :
  (∀ i, 0 ≤ c i ≤ MARKED_FOR_DESTRUCTION) → (changes c t fuel < fuel)%nat →
  ∃ i, (t ≤ i ≤ t + fuel)%nat ∧ (observe (increment_loop fuel d (c t)) c (S t)).1 =
    Return (if c i =? MARKED_FOR_DESTRUCTION then Err tt else Ok tt).
Proof.
  intros Hc. revert t. induction fuel as [|fuel IH]; intros t Hch; [lia|]. cbn [increment_loop].
  destruct (Z.eqb_spec (c t) MARKED_FOR_DESTRUCTION) as [Hm|Hm].
  { exists t. split; [lia|]. by rewrite Hm, Z.eqb_refl. }
  specialize (Hc t) as Hct. unfold MARKED_FOR_DESTRUCTION in Hct, Hm.
  rewrite uadd_ok by (unfold USIZE; lia). cbn [pbind call observe]. cbn [changes] in Hch.
  rewrite Z.eqb_sym. destruct (Z.eqb_spec (c t) (c (S t))) as [He|He].
  - exists t. split; [lia|]. cbn. destruct (Z.eqb_spec (c t) MARKED_FOR_DESTRUCTION); [done|done].
  - destruct (IH (S t)) as (i & Hi & Hr); [lia|]. exists i. split; [lia|exact Hr].
Qed.

Lemma observe_decrement_loop d c fuel t :
  (∀ i, 1 ≤ c i < MARKED_FOR_DESTRUCTION) → (changes c t fuel < fuel)%nat →
  ∃ i, (t ≤ i ≤ t + fuel)%nat ∧ (observe (decrement_loop fuel d (c t)) c (S t)).1 =
    Return (if c i =? 1 then NoMoreOwners else HasOwners).
Proof.
  intros Hc. revert t. induction fuel as [|fuel IH]; intros t Hch; [lia|]. cbn [decrement_loop].
  specialize (Hc t) as Hct. unfold MARKED_FOR_DESTRUCTION in Hct. cbn [changes] in Hch.
  assert (∀ new r, (observe (let* x := call (CounterCas d (c t) new) in
             match x with Ok _ => ret r | Err v => decrement_loop fuel d v end) c (S t)).1 =
           if c t =? c (S t) then Return r else (observe (decrement_loop fuel d (c (S t))) c (S (S t))).1) as Hcas.
  { intros new r. cbn [pbind call observe]. rewrite Z.eqb_sym. by case_bool. }
  destruct (c t =? 1) eqn:E1; [|rewrite usub_ok by (unfold USIZE; lia)]; cbn [pbind ret]; rewrite Hcas.
  all: destruct (Z.eqb_spec (c t) (c (S t))); [exists t; rewrite E1; split; [lia|done]|].
  all: destruct (IH (S t)) as (i & Hi & Hr); [lia|]; exists i; split; [lia|exact Hr].
Qed.

(** The reference counter is updated in a bounded number of accesses: if other
    processes change it fewer than [fuel] times meanwhile, [increment_reference_counter]
    and [decrement_reference_counter] return within [fuel] rounds, and their answers
    are right for a value the counter had during the call. *)
Theorem reference_counter_updates_terminate d c fuel :
  (changes c 0 fuel < fuel)%nat →
  ((∀ i, 0 ≤ c i ≤ MARKED_FOR_DESTRUCTION) →
    ∃ i, (i ≤ fuel)%nat ∧ (observe (increment_reference_counter fuel d) c 0).1 =
      Return (if c i =? MARKED_FOR_DESTRUCTION then Err tt else Ok tt)) ∧
  ((∀ i, 1 ≤ c i < MARKED_FOR_DESTRUCTION) →
    ∃ i, (i ≤ fuel)%nat ∧ (observe (decrement_reference_counter fuel d) c 0).1 =
      Return (if c i =? 1 then NoMoreOwners else HasOwners)).
Proof.
  intros Hch. split; intros Hc.
  - destruct (observe_increment_loop d c fuel 0 Hc Hch) as (i & Hi & Hr). exists i. split; [lia|exact Hr].
  - destruct (observe_decrement_loop d c fuel 0 Hc Hch) as (i & Hi & Hr). exists i. split; [lia|exact Hr].
Qed.
End Counting.

(** Two others leave while the process leaves. *)
Definition two_leave (t : nat) : Z := match t with O => 3 | 1%nat => 2 | _ => 1 end.

Lemma reference_counter_updates_terminate_witness :
  ∃ i, (i ≤ 3)%nat ∧ (observe (decrement_reference_counter (P := true) 3 0) two_leave 0).1 =
    Return (if two_leave i =? 1 then NoMoreOwners else HasOwners).
Proof.
  apply (reference_counter_updates_terminate (P := true) 0 two_leave 3); [vm_compute; lia|].
  intros [|[|i]]; cbn; unfold MARKED_FOR_DESTRUCTION; lia.
Defined.
