(* ===== verification/EventPorts.v ===== *)
(** * Notifiers and listeners

    elkodon/src/port/notifier.rs and elkodon/src/port/listener.rs: a listener owns an
    event of the concept, under the name made of its id; a notifier keeps a connection
    to every listener that is in the dynamic configuration of the service. Both are
    written against [EventConcept] and proved against [EventContract].

    The other ports of the service appear as what they have done to the container of
    listeners and to the channels between two calls. *)

From S2P Require Import Prelude UniqueIndexSet Container BbContainers ByteString SemanticString SystemTypes NamedConcept PortIds Events EventConcept DynamicConfig.
From stdpp Require Import strings.
Open Scope Z_scope.

Import Bytes(FixedSizeByteString, bytes_of_string) Semantic(inv, valid).

Inductive NotifierCreateError := ExceedsMaxSupportedNotifiers.
Inductive ListenerCreateError := ExceedsMaxSupportedListeners | ResourceCreationFailed.

Section Operations.
Context `{P : Profile} {Env : Settings} {W : Type} `{EventConcept W}.

(** ** notifier.rs *)

Definition ListenerConnections := list (option Handle).

Record Notifier := mkNotifier {
  listener_connections : ListenerConnections;
  listener_list_state : ContainerState Z;
  default_trigger_id : Z;
  notifier_guard : option (UniqueIndex (Container Z))
}.
Definition set_listener_connections (n : Notifier) cs :=
  mkNotifier cs (listener_list_state n) (default_trigger_id n) (notifier_guard n).
Definition set_listener_list_state (n : Notifier) st :=
  mkNotifier (listener_connections n) st (default_trigger_id n) (notifier_guard n).

(** [ListenerConnections::create] for an index whose connection is [c]. *)
Definition create_connection (w : W) (c : option Handle) (listener_id : Z)
    : outcome (result unit unit * option Handle * W) :=
  let! event_name := event_concept_name listener_id in
  match c with
  | None =>
      let! '(r, w) := ec_open w event_name in
      match r with
      | Err _ => Return (Err tt, None, w)
      | Ok notifier => Return (Ok tt, Some notifier, w)
      end
  | Some h => Return (Ok tt, Some h, w)
  end.

(** [visited_indices\[index\] = Some(id)] *)
Fixpoint visit_listeners (visited : list (option Z)) (es : list (Z * Z)) : outcome (list (option Z)) :=
  match es with
  | [] => Return visited
  | (index, id) :: es => let! visited := index_write visited index (Some id) in visit_listeners visited es
  end.

(** The loop over [visited_indices]: it ends with the first listener that cannot be
    reached. *)
Fixpoint populate_listeners_loop (visited : list (option Z)) (w : W) (cs : ListenerConnections)
    : outcome (result unit unit * ListenerConnections * W) :=
  match visited, cs with
  | [], cs => Return (Ok tt, cs, w)
  | _ :: _, [] => Panic
  | None :: visited, _ :: cs =>
      let! '(r, cs, w) := populate_listeners_loop visited w cs in Return (r, None :: cs, w)
  | Some id :: visited, c :: cs =>
      let! '(r, c, w) := create_connection w c id in
      match r with
      | Err e => Return (Err e, c :: cs, w)
      | Ok _ => let! '(r, cs, w) := populate_listeners_loop visited w cs in Return (r, c :: cs, w)
      end
  end.

Definition populate_listener_channels (w : W) (n : Notifier) : outcome (result unit unit * Notifier * W) :=
  let! es := for_each (listener_list_state n) in
  let! visited := visit_listeners (replicate (length (listener_connections n)) None) es in
  let! '(r, cs, w) := populate_listeners_loop visited w (listener_connections n) in
  Return (r, set_listener_connections n cs, w).

(** [listeners]: what is in the dynamic configuration now. *)
Definition notifier_update_connections (listeners : Container Z) (w : W) (n : Notifier)
    : outcome (result unit unit * Notifier * W) :=
  let! '(changed, st) := update_state listeners (listener_list_state n) in
  let n := set_listener_list_state n st in
  if changed : bool then populate_listener_channels w n else Return (Ok tt, n, w).

Fixpoint notify_loop (w : W) (cs : ListenerConnections) (value : Z) (number_of_triggered_listeners : Z)
    : outcome (Z * W) :=
  match cs with
  | [] => Return (number_of_triggered_listeners, w)
  | None :: cs => notify_loop w cs value number_of_triggered_listeners
  | Some connection :: cs =>
      let! '(r, w) := ec_notify w connection value in
      match r with
      | Err _ => notify_loop w cs value number_of_triggered_listeners
      | Ok _ => let! k := uadd number_of_triggered_listeners 1 in notify_loop w cs value k
      end
  end.

Definition notify_with_custom_trigger_id (listeners : Container Z) (w : W) (n : Notifier) (value : Z)
    : outcome (result Z unit * Notifier * W) :=
  let! '(r, n, w) := notifier_update_connections listeners w n in
  match r with
  | Err e => Return (Err e, n, w)
  | Ok _ => let! '(k, w) := notify_loop w (listener_connections n) value 0 in Return (Ok k, n, w)
  end.
Definition notify listeners w n := notify_with_custom_trigger_id listeners w n (default_trigger_id n).


(** [Notifier::new] for the id [port_id]; a failed connection is only logged. *)
Definition notifier_new (config : EventDynamicConfig) (w : W) (default_trigger_id port_id : Z)
    : outcome (result Notifier NotifierCreateError * EventDynamicConfig * W) :=
  let! st := get_state (listeners config) in
  let n := mkNotifier (replicate (Z.to_nat (c_capacity (listeners config))) None) st default_trigger_id None in
  let! '(guard, config) := add_notifier_id config port_id in
  match guard with
  | None => Return (Err ExceedsMaxSupportedNotifiers, config, w)
  | Some index =>
      let n := mkNotifier (listener_connections n) st default_trigger_id (Some index) in
      let! '(_, n, w) := populate_listener_channels w n in
      Return (Ok n, config, w)
  end.

(** The guard removes the port from the dynamic configuration. *)
Definition notifier_drop (config : EventDynamicConfig) (n : Notifier) : outcome EventDynamicConfig :=
  match notifier_guard n with
  | None => Return config
  | Some index => let! c := drop_index index (notifiers config) in Return (mkEventDynamicConfig (listeners config) c)
  end.

(** ** listener.rs *)

Record Listener := mkListener {
  listener_guard : option (UniqueIndex (Container Z));
  listener : Handle
}.

Definition listener_new (config : EventDynamicConfig) (w : W) (port_id : Z)
    : outcome (result Listener ListenerCreateError * EventDynamicConfig * W) :=
  let! event_name := event_concept_name port_id in
  let! '(r, w) := ec_create w event_name in
  match r with
  | Err _ => Return (Err ResourceCreationFailed, config, w)
  | Ok listener =>
      let! '(guard, config) := add_listener_id config port_id in
      match guard with
      | None => let! w := ec_drop_listener w listener in Return (Err ExceedsMaxSupportedListeners, config, w)
      | Some index => Return (Ok (mkListener (Some index) listener), config, w)
      end
  end.

(** The fields are dropped in their order. *)
Definition listener_drop (config : EventDynamicConfig) (w : W) (l : Listener) : outcome (EventDynamicConfig * W) :=
  match listener_guard l with
  | None => let! w := ec_drop_listener w (listener l) in Return (config, w)
  | Some index =>
      let! c := drop_index index (listeners config) in
      let! w := ec_drop_listener w (listener l) in Return (mkEventDynamicConfig c (notifiers config), w)
  end.

(** The callback of the user: its answer to the ids it has received, the last one
    included. *)
Context (callback : list Z → bool).

(** The loop of [try_wait]: [received] is what the callback has seen. *)
Fixpoint try_wait_loop (fuel : nat) (w : W) (l : Listener) (received : list Z) (number_of_events : Z)
    : outcome (result Z LocalEvent.ListenerWaitError * list Z * W) :=
  match fuel with
  | O => Undefined
  | S fuel =>
      let! '(r, w) := ec_try_wait w (listener l) in
      match r with
      | Err e => Return (Err e, received, w)
      | Ok None => Return (Ok number_of_events, received, w)
      | Ok (Some id) =>
          let! k := uadd number_of_events 1 in
          let received := received ++ [id] in
          if callback received then try_wait_loop fuel w l received k else Return (Ok k, received, w)
      end
  end.
Definition listener_try_wait fuel w l := try_wait_loop fuel w l [] 0.

(** [timed_wait] and [blocking_wait] after the first wait. *)
Definition after_wait (fuel : nat) (l : Listener) (r : result (option Z) LocalEvent.ListenerWaitError) (w : W)
    : outcome (result Z LocalEvent.ListenerWaitError * list Z * W) :=
  match r with
  | Err e => Return (Err e, [], w)
  | Ok None => Return (Ok 1, [], w)
  | Ok (Some id) =>
      if callback [id] then
        let! '(r, received, w) := try_wait_loop fuel w l [id] 0 in
        match r with
        | Err e => Return (Err e, received, w)
        | Ok k => let! k := uadd k 1 in Return (Ok k, received, w)
        end
      else Return (Ok 1, [id], w)
  end.
Definition listener_timed_wait fuel w l :=
  let! '(r, w) := ec_timed_wait w (listener l) in after_wait fuel l r w.
Definition listener_blocking_wait fuel w l :=
  let! '(r, w) := ec_blocking_wait w (listener l) in after_wait fuel l r w.
End Operations.

(** ** Lemmas *)

(** The bytes of [event_concept_name]. *)
Definition event_bytes (id : Z) : list Z := signed_to_string (UniqueSystemId.pid id) ++ 95 :: to_string id.

Section Lemmas.
Context `{P : Profile} {Env : Settings} `{!SettingsLaws Env} (HFN : 79 ≤ FILENAME_LENGTH).
Context {W : Type} `{EventConcept W} (cap : Z) `{!EventContract W cap}.
Implicit Types (w : W) (chans : gmap (list Z) (list Z)) (content : list (option Z)) (cs : ListenerConnections).

#[local] Notation rep := (ec_rep (cap := cap)).
#[local] Notation linked := (ec_linked (cap := cap)).
#[local] Notation name_ok := (ec_name_ok (cap := cap)).
#[local] Notation keeps w w' := (∀ r h nb, linked r w h nb → linked r w' h nb).

(** A listener in the dynamic configuration has its channel. *)
Definition listener_ok chans (id : Z) : Prop :=
  0 ≤ id < U128 ∧ name_ok (event_bytes id) ∧ is_Some (chans !! event_bytes id).

(** A connection against what is stored at its index: up to date; or not yet created,
    or not yet removed. *)
Definition connected w (c : option Handle) (o : option Z) : Prop :=
  match c, o with
  | Some h, Some id => linked Notifies w h (event_bytes id)
  | None, None => True
  | _, _ => False
  end.
Definition not_stale w (c : option Handle) (o : option Z) : Prop :=
  match c, o with Some h, Some id => linked Notifies w h (event_bytes id) | _, _ => True end.

Definition all_ok chans content : Prop := Forall (λ o, ∀ id, o = Some id → listener_ok chans id) content.

(** A notifier whose snapshot may be old; where it is not, neither are the
    connections. *)
Record notifier_rep w (n : Notifier) (aba : Z) content : Prop := {
  nr_state : state_rep (listener_list_state n) aba content;
  nr_not_stale : Forall2 (not_stale w) (listener_connections n) content;
  nr_current : state_shows (listener_list_state n) content → Forall2 (connected w) (listener_connections n) content
}.

Lemma event_concept_name_ok id :
  0 ≤ id < U128 → ∃ s, event_concept_name id = Return s ∧ inv FileName s (event_bytes id).
Proof.
  intros Hid. apply joined_ok; [apply pid_printed|by apply to_string_printed|done].
Qed.

Lemma event_bytes_inj id id' : 0 ≤ id < U128 → 0 ≤ id' < U128 → event_bytes id = event_bytes id' → id = id'.
Proof.
  intros Hi Hi' [_ E]%separator_inj; [|apply pid_printed..]. by apply to_string_inj.
Qed.

Lemma visit_listeners_from pre content :
  visit_listeners (pre ++ replicate (length content) None) (elements_from (length pre) content) = Return (pre ++ content).
Proof.
  revert pre. induction content as [|o content IH]; intros pre; [done|].
  assert (elements_from (length pre) (o :: content) =
    match o with Some v => [(Z.of_nat (length pre), v)] | None => [] end ++ elements_from (length (pre ++ [o])) content) as ->.
  { unfold elements_from. cbn [imap]. rewrite Nat.add_0_r. unfold compose.
    rewrite (imap_ext _ (λ j o0, ((length (pre ++ [o]) + j)%nat, o0))).
    2: { intros j x _. rewrite length_app. cbn. f_equal. lia. }
    by destruct o. }
  cbn [length replicate]. replace (pre ++ o :: content) with ((pre ++ [o]) ++ content) by by rewrite <- app_assoc.
  rewrite <- (IH (pre ++ [o])). destruct o as [v|]; cbn [app visit_listeners].
  - rewrite index_write_ok by (rewrite length_app; cbn; lia). cbn [obind]. rewrite Nat2Z.id.
    by rewrite <- app_assoc, insert_app_r_alt, Nat.sub_diag by lia.
  - by rewrite <- app_assoc.
Qed.

Lemma visit_listeners_all content :
  visit_listeners (replicate (length content) None) (Container.elements content) = Return content.
Proof. apply (visit_listeners_from []). Qed.

Lemma connected_keeps w w' cs content : keeps w w' → Forall2 (connected w) cs content → Forall2 (connected w') cs content.
Proof. intros Hk Hf. eapply Forall2_impl; [exact Hf|]. intros [h|] [id|]; cbn; auto. Qed.
Lemma not_stale_keeps w w' cs content : keeps w w' → Forall2 (not_stale w) cs content → Forall2 (not_stale w') cs content.
Proof. intros Hk Hf. eapply Forall2_impl; [exact Hf|]. intros [h|] [id|]; cbn; auto. Qed.

Lemma create_connection_ok n w chans c id :
  rep n w chans → listener_ok chans id → not_stale w c (Some id) →
  ∃ h w', create_connection w c id = Return (Ok tt, Some h, w') ∧ rep n w' chans ∧ keeps w w' ∧ linked Notifies w' h (event_bytes id).
Proof.
  intros Hr (Hid & Hn & [l Hl]) Hc. unfold create_connection.
  destruct (event_concept_name_ok id Hid) as (s & -> & Hs). cbn [obind]. destruct c as [h|]; [by exists h, w|].
  destruct (ec_open_ok _ _ _ _ _ Hr Hs Hn) as (w' & Hr' & Hk & Ho). rewrite Hl in Ho. destruct Ho as (h & -> & Hlk). by exists h, w'.
Qed.

Lemma populate_listeners_ok n w chans content cs :
  rep n w chans → all_ok chans content → Forall2 (not_stale w) cs content →
  ∃ cs' w', populate_listeners_loop content w cs = Return (Ok tt, cs', w') ∧ rep n w' chans ∧ keeps w w' ∧ Forall2 (connected w') cs' content.
Proof.
  intros Hr Hok Hst. revert w Hr Hst. revert cs. induction content as [|o content IH]; intros cs w Hr Hst.
  - apply Forall2_nil_inv_r in Hst as ->. by exists [], w.
  - apply Forall2_cons_inv_r in Hst as (c & cs0 & Hc & Hst & ->). apply Forall_cons in Hok as [Ho Hok].
    destruct o as [id|]; cbn [populate_listeners_loop].
    + destruct (create_connection_ok _ _ _ _ _ Hr (Ho id eq_refl) Hc) as (h & w1 & -> & Hr1 & Hk1 & Hh). cbn [obind].
      destruct (IH Hok cs0 w1 Hr1 (not_stale_keeps _ _ _ _ Hk1 Hst)) as (cs' & w2 & -> & Hr2 & Hk2 & Hcs'). cbn [obind].
      exists (Some h :: cs'), w2. split; [done|]. split; [done|]. split; [auto|]. constructor; [by apply Hk2|done].
    + destruct (IH Hok cs0 w Hr Hst) as (cs' & w2 & -> & Hr2 & Hk2 & Hcs'). cbn [obind].
      exists (None :: cs'), w2. split; [done|]. split; [done|]. split; [done|]. by constructor.
Qed.

Lemma connected_not_stale w cs content : Forall2 (connected w) cs content → Forall2 (not_stale w) cs content.
Proof. intros Hf. eapply Forall2_impl; [exact Hf|]. by intros [h|] [id|]. Qed.

Lemma notifier_update_ok num w chans c aba content n :
  rep num w chans → container_rep c aba content → c_capacity c < U32 → all_ok chans content →
  notifier_rep w n aba content →
  ∃ n' w', notifier_update_connections c w n = Return (Ok tt, n', w') ∧ rep num w' chans ∧ keeps w w' ∧ notifier_rep w' n' aba content ∧
    default_trigger_id n' = default_trigger_id n ∧ Forall2 (connected w') (listener_connections n') content.
Proof.
  intros Hr Hc Hcb Hok [Hs Hst Hcur]. unfold notifier_update_connections.
  destruct (update_state_rep c aba content _ Hc Hcb Hs) as (b & st' & -> & Hs' & Hsh & Hb). cbn [obind]. destruct b.
  - unfold populate_listener_channels. cbn [listener_list_state listener_connections set_listener_list_state].
    rewrite (for_each_shows _ _ Hsh). cbn [obind]. rewrite (Forall2_length _ _ _ Hst), visit_listeners_all. cbn [obind].
    destruct (populate_listeners_ok _ _ _ _ _ Hr Hok Hst) as (cs' & w' & -> & Hr' & Hk & Hcs'). cbn [obind].
    eexists _, w'. split; [done|]. split; [done|]. split; [done|]. split; [|done]. constructor; cbn; [done| |done]. by apply connected_not_stale.
  - rewrite (Hb eq_refl) in *. exists n, w. destruct n as [cs st d g]. cbn in *. split; [done|]. split; [done|]. split; [done|].
    split; [by constructor|]. auto.
Qed.

(** ** Delivery *)

Definition has_room chans (id : Z) : bool :=
  match chans !! event_bytes id with Some ids => Z.of_nat (length ids) <? cap | None => false end.
Definition ids_of content : list Z := omap id content.

(** What [chans] becomes when [v] is sent to the listeners [ids]. *)
Definition sent (ids : list Z) (v : Z) chans chans' : Prop :=
  ∀ nb, chans' !! nb =
    (λ l, if bool_decide (nb ∈ event_bytes <$> ids) && (Z.of_nat (length l) <? cap) then l ++ [v] else l) <$> chans !! nb.

Lemma other_names chans content i :
  0 ≤ i < U128 → all_ok chans content → i ∉ ids_of content →
  ∀ id, id ∈ ids_of content → event_bytes id ≠ event_bytes i.
Proof.
  intros Hid Hok Hi id Hin He. pose proof Hin as Hin'. unfold ids_of in Hin.
  apply list_elem_of_omap in Hin as (o & Ho' & Hoid). cbn in Hoid. subst o.
  unfold all_ok in Hok. rewrite Forall_forall in Hok. destruct (Hok _ Ho' id eq_refl) as (Hid' & _).
  apply event_bytes_inj in He; [|done..]. by subst id.
Qed.

Lemma all_ok_mono chans chans' content :
  (∀ nb, is_Some (chans !! nb) → is_Some (chans' !! nb)) → all_ok chans content → all_ok chans' content.
Proof.
  intros Hm Hok. eapply Forall_impl; [exact Hok|]. intros o Ho id Hid. destruct (Ho id Hid) as (? & ? & ?). split; [done|]. split; [done|].
  by apply Hm.
Qed.

Lemma filter_has_room chans chans' ids :
  (∀ id, id ∈ ids → chans !! event_bytes id = chans' !! event_bytes id) →
  List.filter (has_room chans) ids = List.filter (has_room chans') ids.
Proof.
  intros Heq. apply List.filter_ext_in. intros id Hin%list_elem_of_In. unfold has_room. by rewrite Heq.
Qed.

(** The head of a list of receivers, with room for the id and without. *)
Lemma sent_step (nb : list Z) names chans ids v nb' :
  chans !! nb = Some ids → (Z.of_nat (length ids) <? cap) = true → nb ∉ names →
  (λ l : list Z, if bool_decide (nb' ∈ names) && (Z.of_nat (length l) <? cap) then l ++ [v] else l) <$>
    <[nb := ids ++ [v]]> chans !! nb' =
  (λ l, if bool_decide (nb' ∈ nb :: names) && (Z.of_nat (length l) <? cap) then l ++ [v] else l) <$> chans !! nb'.
Proof.
  intros Hids Hlt Hnb. destruct (decide (nb' = nb)) as [->|Hne].
  - rewrite lookup_insert_eq, Hids. cbn. rewrite bool_decide_eq_false_2 by done.
    rewrite bool_decide_eq_true_2 by left. by rewrite Hlt.
  - rewrite lookup_insert_ne by done. destruct (chans !! nb') as [l|]; [|done]. cbn. f_equal.
    rewrite (bool_decide_ext (nb' ∈ nb :: names) (nb' ∈ names)); [done|]. rewrite elem_of_cons. tauto.
Qed.
Lemma sent_full (nb : list Z) names chans ids v nb' :
  chans !! nb = Some ids → (Z.of_nat (length ids) <? cap) = false →
  (λ l : list Z, if bool_decide (nb' ∈ names) && (Z.of_nat (length l) <? cap) then l ++ [v] else l) <$> chans !! nb' =
  (λ l, if bool_decide (nb' ∈ nb :: names) && (Z.of_nat (length l) <? cap) then l ++ [v] else l) <$> chans !! nb'.
Proof.
  intros Hids Hlt. destruct (decide (nb' = nb)) as [->|Hne].
  - rewrite Hids. cbn. by rewrite Hlt, !andb_false_r.
  - destruct (chans !! nb') as [l|]; [|done]. cbn. f_equal.
    rewrite (bool_decide_ext (nb' ∈ nb :: names) (nb' ∈ names)); [done|]. rewrite elem_of_cons. tauto.
Qed.

Lemma notify_loop_ok num w chans content cs v acc :
  rep num w chans → all_ok chans content → NoDup (ids_of content) → Forall2 (connected w) cs content →
  num + Z.of_nat (length cs) + 2 < USIZE → 0 ≤ v < USIZE → 0 ≤ acc → acc + Z.of_nat (length cs) < USIZE →
  let k := Z.of_nat (length (List.filter (has_room chans) (ids_of content))) in
  ∃ w' chans', notify_loop w cs v acc = Return (acc + k, w') ∧ rep (num + k) w' chans' ∧
    sent (ids_of content) v chans chans' ∧ keeps w w'.
Proof.
  intros Hr Hok Hnd Hcs. revert num w chans acc Hr Hok Hcs.
  revert cs. induction content as [|o content IH]; intros cs num w chans acc Hr Hok Hcs Hb Hv Ha Hab k.
  - apply Forall2_nil_inv_r in Hcs as ->. exists w, chans. cbn in *. rewrite !Z.add_0_r. split_and!; try done.
    intros nb. by destruct (chans !! nb).
  - apply Forall2_cons_inv_r in Hcs as (c & cs0 & Hc & Hcs & ->). apply Forall_cons in Hok as [Ho Hok]. cbn [length] in *.
    unfold k; clear k. destruct o as [i|].
    2: { change (ids_of (None :: content)) with (ids_of content) in *. destruct c as [h|]; [done|]. cbn [notify_loop].
         apply IH; try done; lia. }
    change (ids_of (Some i :: content)) with (i :: ids_of content) in *. apply NoDup_cons in Hnd as [Hi Hnd].
    destruct c as [h|]; [|done]. cbn [connected] in Hc. destruct (Ho i eq_refl) as (Hid & Hn & [ids Hids]).
    pose proof (ec_notify_ok _ _ _ _ _ _ v Hr Hc Hids ltac:(lia) Hv) as Hnot. cbn [notify_loop].
    pose proof (other_names chans content i Hid Hok Hi) as Hne.
    assert (has_room chans i = (Z.of_nat (length ids) <? cap)) as Hroom by (unfold has_room; by rewrite Hids).
    cbn [List.filter]. rewrite Hroom. set (nb := event_bytes i) in *.
    destruct (Z.of_nat (length ids) <? cap) eqn:Hlt.
    + destruct Hnot as (w1 & -> & Hr1 & Hl1). cbn [obind]. rewrite uadd_ok by lia. cbn [obind].
      set (chans1 := <[nb := ids ++ [v]]> chans) in *.
      destruct (IH Hnd cs0 (num + 1) w1 chans1 (acc + 1) Hr1) as (w' & chans' & Hloop & Hr' & Hsent & Hl'); try lia.
      { eapply all_ok_mono; [|exact Hok]. intros nb' Hs. unfold chans1. rewrite lookup_insert_is_Some. destruct (decide (nb = nb')); auto. }
      { by eapply connected_keeps. }
      rewrite (filter_has_room chans1 chans) in * by (intros id Hin; apply lookup_insert_ne; by apply not_eq_sym, Hne).
      exists w', chans'. rewrite Hloop. split_and!; [do 2 f_equal; cbn [length]; lia| | |auto].
      * by replace (num + Z.of_nat (length (i :: _)))
          with (num + 1 + Z.of_nat (length (List.filter (has_room chans) (ids_of content)))) by (cbn [length]; lia).
      * intros nb'. rewrite Hsent. apply (sent_step nb _ _ ids); [exact Hids|exact Hlt|]. intros (id & Heq & Hin)%list_elem_of_fmap. by apply (Hne id Hin).
    + destruct Hnot as (e & w1 & -> & Hr1 & Hl1). cbn [obind].
      destruct (IH Hnd cs0 num w1 chans acc Hr1 Hok) as (w' & chans' & Hloop & Hr' & Hsent & Hl'); try lia.
      { by eapply connected_keeps. }
      exists w', chans'. split_and!; [done|done| |auto]. intros nb'. rewrite Hsent. by apply (sent_full nb _ _ ids).
Qed.

Lemma notify_ok num w chans c aba content n v :
  rep num w chans → container_rep c aba content → c_capacity c < U32 →
  all_ok chans content → NoDup (ids_of content) → notifier_rep w n aba content →
  num + c_capacity c + 2 < USIZE → 0 ≤ v < USIZE →
  let k := Z.of_nat (length (List.filter (has_room chans) (ids_of content))) in
  ∃ n' w' chans', notify_with_custom_trigger_id c w n v = Return (Ok k, n', w') ∧
    rep (num + k) w' chans' ∧ sent (ids_of content) v chans chans' ∧ notifier_rep w' n' aba content ∧ keeps w w' ∧
    default_trigger_id n' = default_trigger_id n.
Proof.
  intros Hr Hc Hcb Hok Hnd Hn Hb Hv k.
  destruct (notifier_update_ok _ _ _ _ _ _ _ Hr Hc Hcb Hok Hn) as (n' & w1 & Hu & Hr1 & Hk1 & Hn' & Hd & Hcs).
  unfold notify_with_custom_trigger_id. rewrite Hu. cbn [obind]. pose proof (cr_len _ _ _ Hc) as Hlen.
  pose proof (Forall2_length _ _ _ Hcs) as Hl2.
  destruct (notify_loop_ok num w1 chans content _ v 0 Hr1 Hok Hnd Hcs) as (w' & chans' & Hloop & Hr' & Hs & Hl);
    [lia|done|lia|unfold U32, USIZE in *; lia|].
  rewrite Hloop. cbn [obind]. exists n', w', chans'. split; [done|]. split; [done|]. split; [done|]. split; [|split; [auto|done]].
  destruct Hn' as [H1 H2 H3]. constructor; [done|by eapply not_stale_keeps|]. intros _. by eapply connected_keeps.
Qed.






Lemma try_wait_loop_S callback fuel w l seen id w1 :
  ec_try_wait w (listener l) = Return (Ok (Some id), w1) →
  try_wait_loop callback (S fuel) w l seen 0 =
    if callback (seen ++ [id]) then try_wait_loop callback fuel w1 l (seen ++ [id]) 1
    else Return (Ok 1, seen ++ [id], w1).
Proof. intros Htry. cbn [try_wait_loop]. rewrite Htry. cbn [obind]. by rewrite uadd_ok. Qed.

Lemma try_wait_loop_ok callback num w chans l nb ids seen :
  rep num w chans → linked Listens w (listener l) nb → chans !! nb = Some ids →
  ∃ received rest w',
    (∀ fuel acc, (length ids < fuel)%nat → 0 ≤ acc → acc + Z.of_nat (length ids) < USIZE →
      try_wait_loop callback fuel w l seen acc =
        Return (Ok (acc + Z.of_nat (length received)), seen ++ received, w')) ∧
    ids = received ++ rest ∧ rep num w' (<[nb := rest]> chans) ∧
    (∀ j, (0 < j < length received)%nat → callback (seen ++ take j received) = true) ∧
    (rest ≠ [] → received ≠ [] ∧ callback (seen ++ received) = false).
Proof.
  revert w chans seen. induction ids as [|id ids IH]; intros w chans seen Hr Hlk Hids;
    destruct (ec_wait_ok _ _ _ _ _ _ _ Hr Hlk Hids (or_introl eq_refl)) as (w1 & Htry & Hr1 & Hl1); cbn [List.hd_error List.tl length] in *.
  - exists [], [], w1. split_and!; try done; [|intros j Hj; cbn in Hj; lia].
    intros [|fuel] acc Hf _ _; [lia|]. cbn [try_wait_loop]. rewrite Htry. cbn [obind]. by rewrite app_nil_r, Z.add_0_r.
  - destruct (callback (seen ++ [id])) eqn:Hcb.
    + destruct (IH w1 _ (seen ++ [id]) Hr1 (Hl1 _ _ _ Hlk)) as (received & rest & w' & Hrun & -> & Hr' & Hall & Hstop);
        [apply lookup_insert_eq|]. rewrite insert_insert_eq in Hr'.
      exists (id :: received), rest, w'. rewrite length_app in *. cbn [length] in *. split_and!; try done.
      * intros [|fuel] acc Hf Ha Hb; [lia|]. cbn [try_wait_loop]. rewrite Htry. cbn [obind].
        rewrite uadd_ok by lia. cbn [obind]. rewrite Hcb, Hrun by lia. rewrite <- app_assoc. cbn [app]. do 2 f_equal. f_equal. f_equal. lia.
      * intros [|[|j]] Hj; [lia|done|]. rewrite <- (Hall (S j)) by lia. by rewrite <- app_assoc.
      * intros Hne. destruct (Hstop Hne) as [_ Hs]. by rewrite <- app_assoc in Hs.
    + exists [id], ids, w1. cbn [length app]. split_and!; try done; [|intros j Hj; cbn in Hj; lia].
      intros [|fuel] acc Hf Ha Hb; [lia|]. cbn [try_wait_loop]. rewrite Htry. cbn [obind].
      rewrite uadd_ok by lia. cbn [obind]. by rewrite Hcb.
Qed.

(** ** Creating the ports *)

Lemma notifier_new_ok num w chans config aba aba' content others d port_id :
  rep num w chans → container_rep (listeners config) aba content → c_capacity (listeners config) < U32 →
  all_ok chans content → container_rep (notifiers config) aba' others → aba' + 1 < U32 →
  ∃ r c w', notifier_new config w d port_id = Return (r, mkEventDynamicConfig (listeners config) c, w') ∧ rep num w' chans ∧ keeps w w' ∧
    match r with
    | Err ExceedsMaxSupportedNotifiers => c = notifiers config ∧ Forall (λ o, o ≠ None) others
    | Ok n => default_trigger_id n = d ∧ notifier_rep w' n aba content ∧ state_shows (listener_list_state n) content ∧ Forall2 (connected w') (listener_connections n) content ∧
        ∃ i, others !! i = Some None ∧ container_rep c (aba' + 1) (<[i := Some port_id]> others)
    end.
Proof.
  intros Hr Hc Hcb Hok Hc' Haba. unfold notifier_new.
  destruct (get_state_rep _ _ _ Hc Hcb) as (st & -> & Hs & Hsh). cbn [obind]. unfold add_notifier_id.
  destruct (add_rep _ _ _ port_id Hc' Haba) as (g & c & -> & Hg). cbn [obind]. destruct g as [index|].
  - destruct Hg as (Hn & _ & _ & Hrep). unfold populate_listener_channels. cbn [listener_list_state listener_connections set_listener_connections].
    rewrite (for_each_shows _ _ Hsh). cbn [obind]. pose proof (cr_len _ _ _ Hc) as Hlen.
    rewrite length_replicate. rewrite <- Hlen, Nat2Z.id, visit_listeners_all. cbn [obind].
    destruct (populate_listeners_ok num w chans content (replicate (length content) None) Hr Hok) as (cs & w' & -> & Hr' & Hk & Hcs).
    { apply Forall2_same_length_lookup_2; [by rewrite length_replicate|]. intros i x y Hx _. apply lookup_replicate in Hx as [-> _]. done. }
    cbn [obind]. eexists _, _, w'. split; [done|]. split; [done|]. split; [done|]. cbn. split; [done|]. split; [|split; [done|split; [done|by eexists]]].
    constructor; cbn; [done|by apply connected_not_stale|done].
  - destruct Hg as [-> Hfull]. eexists _, _, w. done.
Qed.

Lemma listener_new_ok num w chans config aba content port_id :
  rep num w chans → container_rep (listeners config) aba content → aba + 1 < U32 →
  0 ≤ port_id < U128 → name_ok (event_bytes port_id) → chans !! event_bytes port_id = None →
  ∃ r c w', listener_new config w port_id = Return (r, mkEventDynamicConfig c (notifiers config), w') ∧
    match r with
    | Ok l => rep num w' (<[event_bytes port_id := []]> chans) ∧ linked Listens w' (listener l) (event_bytes port_id) ∧ keeps w w' ∧
        ∃ i, content !! i = Some None ∧ container_rep c (aba + 1) (<[i := Some port_id]> content)
    | Err ExceedsMaxSupportedListeners => c = listeners config ∧ Forall (λ o, o ≠ None) content
    | Err ResourceCreationFailed => False
    end.
Proof.
  intros Hr Hc Haba Hid Hn Hfree. unfold listener_new.
  destruct (event_concept_name_ok _ Hid) as (s & -> & Hs). cbn [obind].
  destruct (ec_create_ok _ _ _ _ _ Hr Hs Hn Hfree) as (h & w1 & -> & Hr1 & Hl1 & Hmono).
  cbn [obind]. unfold add_listener_id. destruct (add_rep _ _ _ port_id Hc Haba) as (g & c & -> & Hg). cbn [obind].
  destruct g as [index|].
  - destruct Hg as (Hi & _ & _ & Hrep). do 3 eexists. split; [done|]. cbn. split_and!; try done. by eexists.
  - destruct Hg as [-> Hfull]. destruct (ec_drop_ok _ _ _ _ _ Hr1 Hl1) as (w2 & -> & _). cbn [obind]. do 3 eexists. split; [by destruct config|]. done.
Qed.

Lemma filter_perm (f : Z → bool) l l' : l ≡ₚ l' → List.filter f l ≡ₚ List.filter f l'.
Proof.
  induction 1; cbn; repeat case_match; try done; eauto using Permutation_skip, Permutation_swap, Permutation_trans.
Qed.


Lemma all_ok_join chans content i id :
  all_ok chans content → listener_ok (<[event_bytes id := []]> chans) id → content !! i = Some None →
  all_ok (<[event_bytes id := []]> chans) (<[i := Some id]> content).
Proof.
  intros Hok Hid Hi. apply Forall_insert; [|by intros ? [= <-]].
  eapply all_ok_mono; [|exact Hok]. intros nb Hs. rewrite lookup_insert_is_Some. destruct (decide (event_bytes id = nb)); auto.
Qed.




(** ** Theorems *)

(** C23. A notification reaches every listener that can be reached: when every listener in
    the dynamic configuration has its channel, and the notifier has no connection left to
    another listener at the index of one of them, however old its snapshot is otherwise,
    [notify] connects to the new ones, delivers the id at the end of every channel that has
    room, touches no other channel, and returns how many it has reached. It fails never; a
    channel without room is only skipped. (What happens otherwise:
    [replaced_listener_hears_nothing], [unreachable_listener_cuts_off_others].) *)
Theorem notify_reaches_every_listener num w chans c aba content n v :
  rep num w chans → container_rep c aba content → c_capacity c < U32 →
  all_ok chans content → NoDup (ids_of content) → notifier_rep w n aba content →
  num + c_capacity c + 2 < USIZE → 0 ≤ v < USIZE →
  let k := Z.of_nat (length (List.filter (has_room chans) (ids_of content))) in
  ∃ n' w' chans', notify_with_custom_trigger_id c w n v = Return (Ok k, n', w') ∧
    rep (num + k) w' chans' ∧ sent (ids_of content) v chans chans' ∧ notifier_rep w' n' aba content ∧
    (∀ r h nb, linked r w h nb → linked r w' h nb).
Proof.
  intros Hr Hc Hcb Hok Hnd Hn Hb Hv k. destruct (notify_ok num w chans c aba content n v) as (n' & w' & chans' & H1 & H2 & H3 & H4 & H5 & _); [done..|].
  by exists n', w', chans'.
Qed.

(** What the callback gets: the pending ids in their order, until it says stop or none
    is left; the others stay pending. *)
Definition hands_out (callback : list Z → bool) num chans nb ids (o : outcome (result Z LocalEvent.ListenerWaitError * list Z * W)) : Prop :=
  ∃ received rest w', o = Return (Ok (Z.of_nat (length received)), received, w') ∧
    ids = received ++ rest ∧ rep num w' (<[nb := rest]> chans) ∧
    (∀ j, (0 < j < length received)%nat → callback (take j received) = true) ∧
    (rest ≠ [] → received ≠ [] ∧ callback received = false).

(** After a first wait that was successful. *)
Lemma after_wait_ok callback num w chans l nb id ids fuel :
  rep num w (<[nb := ids]> chans) → linked Listens w (listener l) nb → Z.of_nat (length (id :: ids)) < USIZE → (length ids < fuel)%nat →
  hands_out callback num chans nb (id :: ids) (after_wait callback fuel l (Ok (Some id)) w).
Proof.
  intros Hr Hlk Hb Hf. cbn [length after_wait] in *. destruct (callback [id]) eqn:Hcb.
  - destruct (try_wait_loop_ok callback _ _ _ l _ ids [id] Hr Hlk (lookup_insert_eq _ _ _)) as (rc & rest & w' & Hrun & -> & Hr' & Hall & Hstop).
    rewrite insert_insert_eq in Hr'. rewrite length_app in *. rewrite Hrun by lia. cbn [obind]. rewrite uadd_ok by lia. cbn [obind].
    exists (id :: rc), rest, w'. split; [cbn [length]; do 2 f_equal; f_equal; f_equal; lia|]. split; [done|]. split; [done|]. split.
    + intros [|[|j]] Hj; [lia|done|]. apply (Hall (S j)). cbn in Hj. lia.
    + intros Hne. by destruct (Hstop Hne).
  - exists [id], ids, w. split; [done|]. split; [done|]. split; [done|]. split; [intros j Hj; cbn in Hj; lia|done].
Qed.

(** What a listener receives: [try_wait] hands the pending ids to the callback, and
    returns how many it has handed out. With something pending, [timed_wait] and
    [blocking_wait] do the same. With nothing pending, a [timed_wait] whose time is over
    returns 1, although the callback was not called. *)
Theorem listener_waits_correct callback num w chans l nb ids fuel :
  rep num w chans → linked Listens w (listener l) nb → chans !! nb = Some ids →
  Z.of_nat (length ids) < USIZE → (length ids < fuel)%nat →
  hands_out callback num chans nb ids (listener_try_wait callback fuel w l) ∧
  (ids ≠ [] → hands_out callback num chans nb ids (listener_timed_wait callback fuel w l) ∧
     hands_out callback num chans nb ids (listener_blocking_wait callback fuel w l)) ∧
  (ids = [] → ∃ w', listener_timed_wait callback fuel w l = Return (Ok 1, [], w')).
Proof.
  intros Hr Hlk Hids Hb Hf. split_and!.
  - destruct (try_wait_loop_ok callback _ _ _ _ _ _ [] Hr Hlk Hids) as (received & rest & w' & Hrun & Hrest).
    exists received, rest, w'. split; [|done]. unfold listener_try_wait. by rewrite Hrun by lia.
  - intros Hne. unfold listener_timed_wait, listener_blocking_wait. destruct ids as [|id ids]; [done|]. cbn [length] in *.
    destruct (ec_wait_ok _ _ _ _ _ _ ec_timed_wait Hr Hlk Hids) as (w1 & -> & Hr1 & Hl1); [auto|].
    destruct (ec_wait_ok _ _ _ _ _ _ ec_blocking_wait Hr Hlk Hids) as (w2 & -> & Hr2 & Hl2); [auto|].
    split; apply after_wait_ok; auto; cbn [length]; lia.
  - intros ->. unfold listener_timed_wait. destruct (ec_wait_ok _ _ _ _ _ _ ec_timed_wait Hr Hlk Hids) as (w1 & -> & _); [auto|]. by exists w1.
Qed.

End Lemmas.

(** ** Concrete services *)

Section Witnesses.
#[local] Instance checked : Profile := true.
#[local] Existing Instance settings_unix.

Definition string_of (k : SemanticStringAccessor) (bytes : list Z) : FixedSizeByteString :=
  match Semantic.new k bytes with Return (Ok s) => s | _ => Bytes.mkString 0 [] end.
(** The default configuration of events. *)
Definition event_config : Naming.Configuration :=
  Naming.mkConfiguration (string_of FileName (bytes_of_string ".event")) (string_of Path (bytes_of_string "/tmp/")).

Lemma event_config_ok : Naming.config_ok event_config (bytes_of_string ".event") (bytes_of_string "/tmp/").
Proof.
  destruct (Semantic.new_spec FileName (bytes_of_string ".event")) as (s & Hs & Is); [vm_compute; discriminate|].
  destruct (Semantic.new_spec Path (bytes_of_string "/tmp/")) as (p & Hp & Ip); [vm_compute; discriminate|].
  split; unfold event_config, string_of; cbn [Naming.suffix Naming.path_hint]; [by rewrite Hs|by rewrite Hp].
Qed.

#[local] Instance my_concept : EventConcept LocalConcept.Storage := LocalConcept.local_concept event_config.
#[local] Instance my_contract : EventContract LocalConcept.Storage LocalConcept.DEFAULT_CAPACITY :=
  LocalConcept.local_contract event_config _ _ event_config_ok.

(** Room for two listeners and one notifier. *)
Definition my_service : EventDynamicConfig := mkEventDynamicConfig (fixed_size_container 2) (fixed_size_container 1).

(** The results of a call that is expected to succeed. *)
Definition success {A E B C} (o : outcome (result A E * B * C)) : outcome (A * B * C) :=
  let! '(r, b, c) := o in match r with Ok a => Return (a, b, c) | Err _ => Panic end.

(** A listener is replaced by another one, which gets its index, between two
    notifications. Returned: what the notifications return, what the new listener
    receives, and what it receives after a third one. *)
Definition replaced_listener : outcome (Z * Z * list Z * list Z) :=
  let! '(a, c, w) := success (listener_new my_service LocalConcept.empty_storage 1001) in
  let! '(n, c, w) := success (notifier_new c w 7 2001) in
  let! '(k1, n, w) := success (notify (listeners c) w n) in
  let! '(c, w) := listener_drop c w a in
  let! '(b, c, w) := success (listener_new c w 1002) in
  let! '(k2, n, w) := success (notify (listeners c) w n) in
  let! '(_, received, w) := listener_try_wait (λ _, true) 10 w b in
  let! '(_, n, w) := success (notify (listeners c) w n) in
  let! '(_, received', w) := listener_try_wait (λ _, true) 10 w b in
  Return (k1, k2, received, received').

(** A listener at the index of an earlier one is never connected: [create] keeps
    the connection that is stored at the index, whoever it leads to. The notifications
    go to the event of the listener that has left, are counted, and the new listener
    receives nothing. *)
Theorem replaced_listener_hears_nothing : replaced_listener = Return (1, 1, [], []).
Proof. vm_compute. reflexivity. Qed.

(** Two listeners; the event of the first one is gone, but it is still in the dynamic
    configuration. Returned: the first notification, the second one, and what the second
    listener has received. *)
Definition unreachable_listener : outcome (result Z unit * result Z unit * list Z) :=
  let! '(n, c, w) := success (notifier_new my_service LocalConcept.empty_storage 7 2001) in
  let! '(a, c, w) := success (listener_new c w 1001) in
  let! '(b, c, w) := success (listener_new c w 1002) in
  let! name := event_concept_name 1001 in
  let! '(_, w) := LocalConcept.remove_cfg true event_config w name in
  let! '(r1, n, w) := notify (listeners c) w n in
  let! '(r2, n, w) := notify (listeners c) w n in
  let! '(_, received, w) := listener_try_wait (λ _, true) 10 w b in
  Return (r1, r2, received).

(** One listener that cannot be reached cuts off the others: the connections are
    made up to the first failure and [notify] fails; the next [notify] finds the list of
    listeners unchanged, does not try again and succeeds with nobody reached. *)
Theorem unreachable_listener_cuts_off_others : unreachable_listener = Return (Err tt, Ok 0, []).
Proof. vm_compute. reflexivity. Qed.

(** The service with one listener and a notifier. *)
#[local] Notation my_rep := (ec_rep (EventContract := my_contract)).

Lemma my_start : my_rep 0 LocalConcept.empty_storage ∅.
Proof. split; [lia|]. by constructor. Qed.

Lemma my_containers :
  container_rep (listeners my_service) 0 [None; None] ∧ container_rep (notifiers my_service) 0 [None] ∧
  all_ok (EventContract0 := my_contract) LocalConcept.DEFAULT_CAPACITY ∅ [None; None].
Proof.
  split_and!; [apply (fixed_size_container_rep 2); [lia|reflexivity]|apply (fixed_size_container_rep 1); [lia|reflexivity]|].
  by repeat constructor.
Qed.

Lemma my_lengths : 79 ≤ @FILENAME_LENGTH settings_unix.
Proof. vm_compute. discriminate. Qed.

Lemma my_name_ok id : Z.of_nat (length (event_bytes id)) ≤ 4085 → ec_name_ok (EventContract := my_contract) (event_bytes id).
Proof.
  intros Hl. change (LocalConcept.local_name_ok (bytes_of_string ".event") (bytes_of_string "/tmp/") (event_bytes id)).
  unfold LocalConcept.local_name_ok. change PATH_LENGTH with 4096.
  change (length (directory (bytes_of_string "/tmp/"))) with 5%nat. change (length (bytes_of_string ".event")) with 6%nat. lia.
Qed.


(** After a listener, and then a notifier, have joined. *)
Lemma one_listener :
  ∃ (l : Listener) n c w i, my_rep 0 w {[ event_bytes 1001 := [] ]} ∧ container_rep c 1 (<[i := Some 1001]> [None; None]) ∧
    (i < 2)%nat ∧ ec_linked (EventContract := my_contract) Listens w (listener l) (event_bytes 1001) ∧
    notifier_rep (EventContract0 := my_contract) LocalConcept.DEFAULT_CAPACITY w n 1 (<[i := Some 1001]> [None; None]) ∧
    all_ok (EventContract0 := my_contract) LocalConcept.DEFAULT_CAPACITY {[ event_bytes 1001 := [] ]} (<[i := Some 1001]> [None; None]).
Proof.
  destruct my_containers as (H1 & H2 & H3).
  assert (0 ≤ 1001 < U128) as Hid by (split; [discriminate|reflexivity]).
  assert (ec_name_ok (EventContract := my_contract) (event_bytes 1001)) as Hname by (apply my_name_ok; vm_compute; discriminate).
  destruct (listener_new_ok my_lengths _ 0 LocalConcept.empty_storage ∅ my_service 0 [None; None] 1001 my_start H1)
    as (r & c & w & _ & Hres); [reflexivity|done..|].
  destruct r as [l|[]]; [|by destruct Hres as [_ Hf]; apply Forall_cons in Hf as [? _]|done].
  destruct Hres as (Hr & Hlk & _ & i & Hi & Hc). change (<[event_bytes 1001 := []]> ∅) with ({[event_bytes 1001 := []]} : gmap (list Z) (list Z)) in Hr.
  pose proof (all_ok_join _ ∅ [None; None] i 1001 H3) as Hok.
  assert (all_ok (EventContract0 := my_contract) LocalConcept.DEFAULT_CAPACITY {[ event_bytes 1001 := [] ]} (<[i := Some 1001]> [None; None])) as Hok'.
  { apply Hok; [|done]. split; [done|]. split; [done|]. rewrite lookup_insert_eq. by eexists. }
  pose proof (lookup_lt_Some _ _ _ Hi) as Hlt.
  destruct (notifier_new_ok my_lengths _ 0 w _ (mkEventDynamicConfig c (notifiers my_service)) 1 0 _ [None] 7 2001 Hr Hc)
    as (r & c' & w' & _ & Hr' & Hk' & Hres); [|done|done|done|].
  { pose proof (cr_len _ _ _ Hc) as Hl. rewrite length_insert in Hl. cbn in Hl |- *. rewrite <- Hl. reflexivity. }
  destruct r as [n|[]]; [|by destruct Hres as [_ Hf]; apply Forall_cons in Hf as [? _]].
  destruct Hres as (_ & Hn & _). exists l, n, c, w', i. split_and!; auto.
Qed.

Lemma notify_reaches_every_listener_witness :
  ∃ c w (n : Notifier) k n' w', notify_with_custom_trigger_id c w n 9 = Return (Ok k, n', w') ∧ k = 1.
Proof.
  destruct one_listener as (l & n & c & w & i & Hr & Hc & Hi & _ & Hn & Hok).
  assert (c_capacity c = 2) as Hcap by (pose proof (cr_len _ _ _ Hc) as Hl; rewrite length_insert in Hl; symmetry; exact Hl).
  destruct (notify_reaches_every_listener my_lengths _ 0 w _ c 1 _ n 9 Hr Hc) as (n' & w' & chans' & H & _).
  - rewrite Hcap. reflexivity.
  - exact Hok.
  - destruct i as [|[|i]]; [repeat constructor; set_solver..|lia].
  - exact Hn.
  - rewrite Hcap. reflexivity.
  - split; [discriminate|reflexivity].
  - do 6 eexists. split; [exact H|]. destruct i as [|[|i]]; [reflexivity..|lia].
Defined.

Lemma listener_waits_correct_witness :
  ∃ (l : Listener) w w', listener_try_wait (λ _, true) 10 w l = Return (Ok 1, [5], w').
Proof.
  destruct one_listener as (l & n & c & w & i & Hr & _ & _ & Hlk & _).
  pose proof (ec_notify_ok (EventContract := my_contract) _ _ _ _ _ [] 5 Hr Hlk (lookup_singleton_eq _ _) ltac:(reflexivity) ltac:(split; [discriminate|reflexivity])) as (w1 & _ & Hr1 & Hl1).
  destruct (listener_waits_correct LocalConcept.DEFAULT_CAPACITY (λ _, true) _ w1 _ l _ [5] 10 Hr1 (Hl1 _ _ _ Hlk)
    (lookup_insert_eq _ _ _) ltac:(reflexivity) ltac:(cbn; lia)) as ((received & rest & w' & H & Heq & _ & _ & Hstop) & _).
  destruct rest as [|x rest]; [|destruct Hstop as [_ ?]; discriminate].
  rewrite app_nil_r in Heq. subst received. exists l, w1, w'. exact H.
Defined.
End Witnesses.
