(* ===== verification/PubSubMembers.v ===== *)
(** * Subscribers that join and leave

    The system of [PubSub] with its list of subscribers: a subscriber adds itself to the
    container in the dynamic configuration and is connected by the publisher the next time
    that looks at the list, with the samples of its history; it leaves by dropping its
    index, after it has received and released everything.

    - [populated]: what an update of the connections does, as a relation on the lists;
    - [system_step]: all calls of publisher and subscribers, in any order;
    - the theorems: the accounting of [PubSub] survives every such run, and a subscriber
      that joins late receives the history. *)

From S2P Require Import Prelude Ring Elementary IndexQueue OverflowQueue UniqueIndexSet BumpAllocator PoolAllocator ShmAllocator SharedMemory.
From S2P Require Import ZeroCopyConnection Container BbContainers Publisher Subscriber PubSub EventPorts.

(** ** What an update does to the connections

    [visited]: the ids of the subscribers by index; connections and their contents before
    and after. The connection of a subscriber that is gone is dropped, an existing one is
    kept, a new one starts with the history. *)
Inductive populated (connect : Z → outcome (result SharedManagementData ZeroCopyCreationError)) (hist : list Z) :
    list (option Z) → Connections → list slot → Connections → list slot → Prop :=
| populated_end : populated connect hist [] [] [] [] []
| populated_gone visited c g cs gs cs' gs' :
    populated connect hist visited cs gs cs' gs' →
    populated connect hist (None :: visited) (c :: cs) (g :: gs) (None :: cs') (no_slot :: gs')
| populated_kept id visited m g cs gs cs' gs' :
    populated connect hist visited cs gs cs' gs' →
    populated connect hist (Some id :: visited) (Some m :: cs) (g :: gs) (Some m :: cs') (g :: gs')
| populated_new id m m' visited cs gs cs' gs' :
    connect id = Return (Ok m) → populated connect hist visited cs gs cs' gs' →
    populated connect hist (Some id :: visited) (None :: cs) (no_slot :: gs) (Some m' :: cs') (mkSlot hist [] [] :: gs')
| populated_failed id e visited cs gs cs' gs' :
    connect id = Return (Err e) → populated connect hist visited cs gs cs' gs' →
    populated connect hist (Some id :: visited) (None :: cs) (no_slot :: gs) (None :: cs') (no_slot :: gs').

(** A subscriber that is gone has received and released everything. *)
Definition nothing_left (g : slot) (o : option Z) : Prop := o = None → rx g = [] ∧ bo g = [].

(** Only subscribers have connections. *)
Definition known (c : option SharedManagementData) (o : option Z) : Prop := is_Some c → is_Some o.

Lemma populated_known connect hist visited cs gs cs' gs' : populated connect hist visited cs gs cs' gs' → Forall2 known cs' visited.
Proof. induction 1; constructor; try done; by intros []. Qed.

Lemma populated_nothing_left connect hist visited cs gs cs' gs' :
  populated connect hist visited cs gs cs' gs' → Forall2 nothing_left gs' visited.
Proof. induction 1; constructor; done. Qed.

Lemma populated_length connect hist visited cs gs cs' gs' :
  populated connect hist visited cs gs cs' gs' → length cs' = length visited ∧ length gs' = length gs.
Proof. induction 1; cbn; lia. Qed.

Lemma populated_borrowed connect hist visited cs gs cs' gs' :
  populated connect hist visited cs gs cs' gs' → Forall2 nothing_left gs visited → Forall2 (λ g g', bo g' = bo g) gs gs'.
Proof.
  induction 1; intros HF; [constructor|..]; apply Forall2_cons in HF as [Hg HF]; constructor; auto.
  by destruct (Hg eq_refl).
Qed.

(** A subscriber that was not connected yet. *)
Lemma populated_joined connect hist visited cs gs cs' gs' i id m :
  populated connect hist visited cs gs cs' gs' → visited !! i = Some (Some id) → cs !! i = Some None →
  connect id = Return (Ok m) → ∃ m', cs' !! i = Some (Some m') ∧ gs' !! i = Some (mkSlot hist [] []).
Proof.
  intros Hp. revert i. induction Hp as [| | |id' m0 m' visited cs gs cs' gs' Hc0 Hp IH|id' e visited cs gs cs' gs' Hc0 Hp IH];
    intros [|i]; cbn; try done; eauto.
  intros [= ->] _ Hc. congruence.
Qed.

Section Populate.
Context `{P : Profile} (header data : Layout) (n adj : Z) (b : Builder).
#[local] Notation msg := (Message header data).
Context (Hsize : 0 < l_size msg).
Implicit Types (g : slot) (gs : list slot) (s : Samples) (cs : Connections) (R : list Z).
#[local] Notation rep s loans R := (samples_rep header data n adj s loans R).

(** *** The history of a new connection *)

Lemma deliver_history_rep q hist loans : ∀ todo sent s m se R,
  Queue.rep q hist → hist = sent ++ todo →
  conn_inv b (length sent) (mkConn m 0 [] se []) sent [] → enable_safe_overflow m = b_enable_safe_overflow b →
  rep s loans (sent ++ R) → (∀ v, v ∈ hist → v ∈ R) → Z.of_nat (length hist) ≤ buffer_size b →
  room b (length hist) loans (length (hist ++ R)) →
  ∃ s' m' se', deliver_history_loop header data (seq (length sent) (length todo)) q s m = Return (s', m') ∧
    conn_inv b (length hist) (mkConn m' 0 [] se' []) hist [] ∧ enable_safe_overflow m' = b_enable_safe_overflow b ∧
    rep s' loans (hist ++ R).
Proof.
  induction todo as [|v todo IH]; intros sent s m se R Hq Hh Hc Hfl Hs HR Hcap Hrm; cbn [length seq deliver_history_loop].
  { rewrite app_nil_r in Hh. subst sent. by exists s, m, se. }
  pose proof Hrm as (Hk & Hl & Hn). assert (length hist = S (length sent + length todo)) as Hlen.
  { rewrite Hh, length_app. cbn. lia. }
  assert (hist !! length sent = Some v) as Hv by (rewrite Hh; by apply list_lookup_middle).
  destruct (Queue.mq_get q hist _ v Hq Hv) as [_ ->]. cbn [obind].
  destruct (try_send_inv b (length sent) m 0 [] se [] sent [] v Hc) as (r & m' & Hsend & Hr); [lia|].
  rewrite Hsend. cbn [obind]. pose proof (try_send_overflow_flag _ _ _ _ Hsend) as Hfl'. destruct r as [ev|[]].
  - destruct Hr as (rx' & Hrx & Hev & _ & Hc'). assert (ev = None) as -> by (apply Hev; lia). cbn in Hrx, Hc'. subst rx'.
    destruct (retain_rep header data n adj Hsize s loans _ v Hs) as (s1 & old & -> & Hs1).
    { apply elem_of_app. right. apply HR. by eapply list_elem_of_lookup_2. }
    { rewrite !length_app in *. lia. }
    cbn [obind]. replace (S (length sent)) with (length (sent ++ [v])) in * by (rewrite length_app; cbn; lia).
    apply (IH (sent ++ [v]) s1 m' (v :: se) R); try done.
    + by rewrite <- app_assoc.
    + by rewrite Hfl'.
    + eapply samples_rep_perm; [|exact Hs1]. solve_Permutation.
  - destruct Hr as (_ & _ & Hr). lia.
  - destruct Hr as (_ & Hr). cbn in Hr. lia.
Qed.

(** [connect] hands out new connections. *)
Definition connects (connect : Z → outcome (result SharedManagementData ZeroCopyCreationError)) : Prop :=
  ∀ id, ∃ r, connect id = Return r ∧ ∀ m, r = Ok m → fresh_connection b (Some m).

Context (connect : Z → outcome (result SharedManagementData ZeroCopyCreationError)) (Hconnect : connects connect).
Context (cap : Z) (k : nat) (h : option (Queue.Queue Z)) (hist : list Z).
Context (Hh : hist_rep cap k h hist) (Hk : (length hist ≤ k)%nat) (Hcap : cap ≤ buffer_size b).
Context (Hok : Forall (chunk_ok header data adj) hist).

Lemma conn_inv_le j j' c rxs rts : (j ≤ j')%nat → conn_inv b j c rxs rts → conn_inv b j' c rxs rts.
Proof. intros Hj. induction Hj; [done|]. intros. by apply conn_inv_weaken, IHHj. Qed.

Lemma new_connection_rep loans s m R :
  fresh_connection b (Some m) → rep s loans R → (∀ v, v ∈ hist → v ∈ R) → room b k loans (length (hist ++ R)) →
  ∃ s' m', deliver_history header data h s m = Return (s', m') ∧
    slot_rep header data adj b k (Some m') (mkSlot hist [] []) ∧ rep s' loans (hist ++ R).
Proof using Hh Hk Hcap Hok Hsize.
  intros [Hc Hfl] Hs HR Hrm. pose proof (hist_length _ _ _ _ Hh) as Hlen.
  assert (∃ s' m' se', deliver_history header data h s m = Return (s', m') ∧
    conn_inv b (length hist) (mkConn m' 0 [] se' []) hist [] ∧ enable_safe_overflow m' = b_enable_safe_overflow b ∧
    rep s' loans (hist ++ R)) as (s' & m' & se' & H1 & H2 & H3 & H4).
  { destruct h as [q|]; cbn [deliver_history hist_rep] in *.
    - destruct Hh as (Hq & _). pose proof (Queue.rep_len _ _ Hq) as Hql. rewrite Hql, Nat2Z.id.
      apply (deliver_history_rep q hist loans hist [] s m []); try done; [lia|].
      unfold room in *. lia.
    - destruct Hh as [Hnil _]. rewrite Hnil. by exists s, m, []. }
  exists s', m'. split; [done|]. split; [|done]. split; [exists se', []; cbn; by apply (conn_inv_le (length hist))|].
  split; [done|]. cbn. by rewrite app_nil_r.
Qed.

Lemma populate_loop_rep loans visited : ∀ cs gs s R,
  Forall2 (slot_rep header data adj b k) cs gs → Forall2 nothing_left gs visited → Forall (λ g, rt g = []) gs →
  rep s loans (all_refs gs ++ R) → (∀ v, v ∈ hist → v ∈ R) →
  room b k loans (length (all_refs gs ++ R) + length gs * length hist) →
  ∃ s' cs' gs', Publisher.populate_loop header data connect None h visited s cs = Return (Ok tt, s', cs') ∧
    populated connect hist visited cs gs cs' gs' ∧ Forall2 (slot_rep header data adj b k) cs' gs' ∧
    rep s' loans (all_refs gs' ++ R).
Proof using Hh Hk Hcap Hok Hsize Hconnect.
  induction visited as [|o visited IH]; intros cs gs s R HF Hn Hrt Hs HR Hrm.
  { apply Forall2_nil_inv_r in Hn as ->. apply Forall2_nil_inv_r in HF as ->.
    exists s, [], []. split; [done|]. split; [constructor|]. split; [constructor|done]. }
  apply Forall2_cons_inv_r in Hn as (g & gs0 & Hg & Hn & ->).
  apply Forall2_cons_inv_r in HF as (c & cs0 & Hc & HF & ->). apply Forall_cons in Hrt as [Hrg Hrt].
  cbn [length] in Hrm.
  destruct o as [id|]; [destruct c as [m|]|]; cbn [Publisher.populate_loop].
  - destruct (IH cs0 gs0 s (slot_refs g ++ R)) as (s' & cs' & gs' & -> & Hp & HF' & Hs'); try done.
    { eapply samples_rep_perm; [|exact Hs]. refs_perm. } { set_solver. } { refs_room. }
    cbn [obind]. do 3 eexists. split; [done|]. split; [by apply populated_kept|]. split; [by constructor|].
    eapply samples_rep_perm; [|exact Hs']. refs_perm.
  - cbn in Hc. subst g. destruct (Hconnect id) as (r & Er & Hr). rewrite Er. cbn [obind]. destruct r as [m|e].
    + destruct (new_connection_rep loans s m (all_refs gs0 ++ R) (Hr m eq_refl)) as (s1 & m1 & -> & Hsl & Hs1).
      { done. } { set_solver. } { refs_room. }
      cbn [obind]. destruct (IH cs0 gs0 s1 (hist ++ R)) as (s' & cs' & gs' & -> & Hp & HF' & Hs'); try done.
      { eapply samples_rep_perm; [|exact Hs1]. solve_Permutation. } { set_solver. } { refs_room. }
      cbn [obind]. do 3 eexists. split; [done|]. split; [by eapply populated_new|]. split; [by constructor|].
      eapply samples_rep_perm; [|exact Hs']. refs_perm.
    + destruct (IH cs0 gs0 s R) as (s' & cs' & gs' & -> & Hp & HF' & Hs'); try done. { refs_room. }
      cbn [obind]. do 3 eexists. split; [done|]. split; [by eapply populated_failed|]. split; [by constructor|done].
  - assert (slot_refs g = []) as Hnil.
    { destruct (Hg eq_refl) as [H1 H2]. unfold slot_refs. by rewrite H1, H2, Hrg. }
    destruct (IH cs0 gs0 s R) as (s' & cs' & gs' & E & Hp & HF' & Hs'); try done.
    { by rewrite all_refs_cons, Hnil in Hs. } { refs_room. }
    assert (Publisher.populate_loop header data connect None h (None :: visited) s (c :: cs0) = Return (Ok tt, s', None :: cs')) as E'.
    { cbn [Publisher.populate_loop]. by rewrite E. }
    exists s', (None :: cs'), (no_slot :: gs'). split; [exact E'|]. split; [by apply populated_gone|]. split; [by constructor|done].
Qed.
End Populate.

(** ** The publisher *)

#[export] Instance quiet_dec (subs : Container Z) p : Decision (quiet subs p).
Proof. unfold quiet. apply _. Defined.

(** What most calls leave alone: the snapshot of the list, which connections there are. *)
Definition same_connections (cs cs' : Connections) : Prop := Forall2 (λ c c', is_Some c ↔ is_Some c') cs cs'.
Record same_members (p p' : Publisher) : Prop := {
  sm_list : subscriber_list_state p' = subscriber_list_state p;
  sm_connections : same_connections (subscriber_connections p) (subscriber_connections p');
  sm_callback : degration_callback p' = degration_callback p
}.

#[export] Instance same_connections_preorder : PreOrder same_connections.
Proof.
  assert (PreOrder (λ c c' : option SharedManagementData, is_Some c ↔ is_Some c')) as Ho.
  { split; [done|]. intros x y z. tauto. }
  unfold same_connections. split; [intros cs; reflexivity|]. intros x y z Hx Hy. by transitivity y.
Qed.
#[export] Instance same_members_preorder : PreOrder same_members.
Proof.
  split; [by constructor|]. intros p q r [H1 H2 H3] [H4 H5 H6]. constructor; [congruence| |congruence].
  by transitivity (subscriber_connections q).
Qed.

Lemma same_connections_insert (cs : Connections) i m m' :
  cs !! i = Some (Some m) → same_connections cs (<[i := Some m']> cs).
Proof.
  intros Hi. rewrite <- (list_insert_id cs i (Some m) Hi) at 1. apply Forall2_insert; [done|]. split; by eexists.
Qed.

Lemma known_same cs cs' content : same_connections cs cs' → Forall2 known cs content → Forall2 known cs' content.
Proof.
  intros Hs. revert content. induction Hs as [|c c' cs cs' Hc Hs IH]; intros content HF.
  - done.
  - apply Forall2_cons_inv_l in HF as (o & content' & Ho & HF & ->). constructor; [|auto]. intros H. by apply Ho, Hc.
Qed.

Section Frames.
Context `{P : Profile} (header data : Layout).

Lemma retrieve_same cs : ∀ s s' cs',
  retrieve_returned_samples header data s cs = Return (s', cs') → same_connections cs cs'.
Proof.
  induction cs as [|[m|] cs IH]; intros s s' cs'; cbn [retrieve_returned_samples]; [by intros [= _ <-]|..].
  - destruct (reclaim_loop _ _ _ s m) as [[s1 m1]| |]; [|done..]. cbn [obind].
    destruct (retrieve_returned_samples _ _ s1 cs) as [[s2 cs2]| |] eqn:E; [|done..]. intros [= _ <-].
    constructor; [by split; eexists|]. by eapply IH.
  - destruct (retrieve_returned_samples _ _ s cs) as [[s2 cs2]| |] eqn:E; [|done..]. intros [= _ <-].
    constructor; [done|]. by eapply IH.
Qed.

Lemma deliver_same rounds rcv strategy cs : ∀ s v c s' cs',
  deliver_sample header data rounds rcv strategy s cs v = Return (c, s', cs') → same_connections cs cs'.
Proof.
  induction cs as [|[m|] cs IH]; intros s v c s' cs'; cbn [deliver_sample]; [by intros [= _ _ <-]|..].
  - destruct (deliver_call _ _ _ _ _) as [[r m1]| |]; [|done..]. cbn [obind].
    assert (∀ s2 x, (let! '(n, s, cs) := deliver_sample header data rounds rcv strategy s2 cs v in x n s cs) = Return (c, s', cs') →
      (∀ n s cs0, x n s cs0 = Return (c, s', cs') → cs' = Some m1 :: cs0) → same_connections (Some m :: cs) cs') as Hrest.
    { intros s2 x. destruct (deliver_sample _ _ _ _ _ s2 cs v) as [[[n s3] cs3]| |] eqn:E; [|done..]. cbn [obind].
      intros Hx H. rewrite (H _ _ _ Hx). constructor; [by split; eexists|]. by eapply IH. }
    destruct r as [ev|[]].
    + destruct (retain _ _ s v) as [[old s1]| |]; [|done..]. cbn [obind].
      destruct (release_overflow _ _ s1 ev) as [s2| |]; [|done..]. cbn [obind]. intros H. apply (Hrest _ _ H).
      intros n s0 cs0. destruct (uadd n 1); [|done..]. cbn [obind]. by intros [= _ _ <-].
    + intros H. apply (Hrest _ _ H). by intros n s0 cs0 [= _ _ <-].
    + intros H. apply (Hrest _ _ H). by intros n s0 cs0 [= _ _ <-].
  - destruct (deliver_sample _ _ _ _ _ s cs v) as [[[n s2] cs2]| |] eqn:E; [|done..]. intros [= _ _ <-].
    constructor; [done|]. by eapply IH.
Qed.

Lemma loan_same p r p' : loan header data p = Return (r, p') → same_members p p'.
Proof.
  unfold loan. destruct (retrieve_returned_samples _ _ _ _) as [[s cs]| |] eqn:E; [|done..]. apply retrieve_same in E.
  cbn [obind]. assert (∀ q, subscriber_connections q = cs → subscriber_list_state q = subscriber_list_state p →
    degration_callback q = degration_callback p → same_members p q) as Hq.
  { intros q Hc Hl Hd. constructor; [done|by rewrite Hc|done]. }
  destruct (_ <=? _); [intros [= _ <-]; by apply Hq|].
  destruct (mem_allocate _ _) as [[a m]| |]; [|done..]. cbn [obind].
  destruct a as [chunk|[]]; try by (intros [= _ <-]; apply Hq).
  - destruct (retain _ _ _ _) as [[old s2]| |]; [|done..]. cbn [obind]. destruct (negb _); [done|].
    intros [= _ <-]. by apply Hq.
  - destruct e; try done; intros [= _ <-]; by apply Hq.
Qed.

Lemma sample_drop_same p v p' : sample_mut_drop header data p v = Return p' → same_members p p'.
Proof.
  unfold sample_mut_drop. destruct (Publisher.release_sample _ _ _ _); [|done..]. cbn [obind]. intros [= <-]. by constructor.
Qed.

Lemma send_same rounds rcv connect subs p v r p' :
  quiet subs p → send header data rounds rcv connect subs p v = Return (r, p') → same_members p p'.
Proof.
  intros Hq. unfold send, send_impl. rewrite update_quiet by done. cbn [obind].
  destruct (add_to_history _ _ _ _ _) as [[s h]| |]; [|done..]. cbn [obind].
  destruct (deliver_sample _ _ _ _ _ _ _ _) as [[[n s2] cs]| |] eqn:E; [|done..]. cbn [obind].
  apply deliver_same in E. destruct (sample_mut_drop _ _ _ _) as [p2| |] eqn:E2; [|done..]. cbn [obind].
  intros [= _ <-]. apply sample_drop_same in E2. by transitivity (set_connections (set_samples (set_history p h) s2) cs).
Qed.
End Frames.

Section Members.
Context `{P : Profile} (header data : Layout) (adj : Z) (b : Builder).
#[local] Notation msg := (Message header data).
Context (Hh : type_layout header) (Hd : type_layout data) (Hpos : 0 < l_size header).
Context (Hadj : 0 ≤ adj < l_align msg).
Context (N : nat) (cap maxl : Z) (Hcap : cap ≤ buffer_size b).
Context (rounds : nat) (rcv : SharedManagementData → SharedManagementData).
Implicit Types (p : Publisher) (subs : Container Z) (content : list (option Z)).

#[local] Notation pinv := (pub_inv header data adj b N cap maxl).

Lemma nothing_left_emptied gs content : Forall2 nothing_left gs content → Forall2 nothing_left (emptied <$> gs) content.
Proof. intros HF. by apply Forall2_fmap_l. Qed.

Lemma visit_all content : Publisher.visit (replicate (length content) None) (elements content) = Return content.
Proof. exact (visit_listeners_all content). Qed.

Lemma pub_populate k p loaned hist gs content connect :
  bounds b N cap maxl k → pinv k p loaned hist gs → (length hist ≤ k)%nat → connects b connect →
  state_shows (subscriber_list_state p) content → Forall2 nothing_left gs content → degration_callback p = None →
  ∃ p' gs' cs, populate_subscriber_channels header data connect p = Return (Ok tt, p') ∧
    pinv k p' loaned hist gs' ∧ subscriber_list_state p' = subscriber_list_state p ∧
    degration_callback p' = None ∧ history p' = history p ∧ same_connections (subscriber_connections p) cs ∧
    populated connect hist content cs (emptied <$> gs) (subscriber_connections p') gs'.
Proof using Hh Hd Hpos Hadj Hcap.
  intros Hb Hp Hk Hcon Hsh Hn Hcb. pose proof (Forall2_length _ _ _ Hn) as Hlen.
  destruct (pub_retrieve header data adj b Hh Hd Hpos Hadj N cap maxl k p loaned hist gs Hb Hp) as (s & cs & Hr & Hp1).
  unfold populate_subscriber_channels. rewrite (for_each_shows _ _ Hsh). cbn [obind].
  rewrite (Forall2_length _ _ _ (pi_conns _ _ _ _ _ _ _ _ _ _ _ _ Hp)), Hlen, visit_all. cbn [obind].
  rewrite Hr. cbn [obind]. rewrite Hcb. pose proof Hp1 as [HN (loans & Hlo & Hs) HF Hhi Hmx Hl Hch].
  apply Forall_app in Hch as [Hcl Hchi].
  destruct (populate_loop_rep header data (samples_required b N cap maxl) adj b (proj1 (pub_msize header data adj Hh Hd Hpos Hadj))
    connect Hcon cap k (history p) hist Hhi Hk Hcap Hchi loans content cs (emptied <$> gs) s (loaned ++ hist)) as (s' & cs' & gs' & -> & Hpop & HF' & Hs').
  - done.
  - by apply nothing_left_emptied.
  - by apply Forall_fmap, Forall_true.
  - eapply samples_rep_perm; [|exact Hs]. solve_Permutation.
  - set_solver.
  - destruct (pub_room header data adj b N cap maxl _ _ _ _ _ Hb Hp1 loans Hlo) as ((H1 & H2 & _) & _).
    destruct Hb as [(? & ? & ? & ?) _ Hsz].
    destruct (all_refs_length header data adj b _ _ _ HF) as [Hrefs _]; [done..|].
    pose proof (hist_length _ _ _ _ Hhi). destruct Hl as [Hl1 Hl2].
    cbn in Hl1, Hl2. split; [done|]. split; [done|]. rewrite !length_app, !HN in *. unfold U32, USIZE in *.
    assert (Z.of_nat N * Z.of_nat (length hist) ≤ Z.of_nat N * buffer_size b) by (apply Z.mul_le_mono_nonneg_l; lia).
    assert (0 ≤ Z.of_nat N * b_max_borrowed_samples b) by lia. lia.
  - cbn [obind]. eexists. exists gs', cs. split; [done|].
    split; [|split_and!; [done|done|done|by eapply retrieve_same|exact Hpop]].
    constructor; cbn; try done.
    + rewrite (proj2 (populated_length _ _ _ _ _ _ _ Hpop)). done.
    + exists loans. split; [done|]. eapply samples_rep_perm; [|exact Hs']. solve_Permutation.
    + by apply Forall_app.
Qed.

(** The publisher and the list of its service. *)
Record members_inv (p : Publisher) subs (gs : list slot) (aba : Z) content : Prop := {
  me_container : container_rep subs aba content;
  me_capacity : c_capacity subs = Z.of_nat N;
  me_state : state_rep (subscriber_list_state p) aba content;
  me_known : quiet subs p → Forall2 known (subscriber_connections p) content;
  me_left : Forall2 nothing_left gs content;
  me_callback : degration_callback p = None
}.

(** Bringing the connections up to date, whatever has happened to the list. *)
Lemma members_update k p loaned hist gs subs aba content connect :
  bounds b N cap maxl k → pinv k p loaned hist gs → (length hist ≤ k)%nat → connects b connect →
  members_inv p subs gs aba content →
  ∃ p' gs', Publisher.update_connections header data connect subs p = Return (Ok tt, p') ∧
    pinv k p' loaned hist gs' ∧ members_inv p' subs gs' aba content ∧ quiet subs p' ∧
    Forall2 (λ g g', bo g' = bo g) gs gs' ∧ history p' = history p ∧
    (quiet subs p → p' = p ∧ gs' = gs) ∧
    (¬ quiet subs p → ∃ cs, same_connections (subscriber_connections p) cs ∧
       populated connect hist content cs (emptied <$> gs) (subscriber_connections p') gs').
Proof using Hh Hd Hpos Hadj Hcap.
  intros Hb Hp Hk Hcon Hm. pose proof Hm as [Hc Hcc Hst Hkn Hle Hcb].
  destruct (decide (quiet subs p)) as [Hq|Hq].
  { exists p, gs. split; [by apply update_quiet|]. split_and!; try done. by apply Forall_Forall2_diag, Forall_true. }
  destruct (update_state_rep subs aba content (subscriber_list_state p) Hc) as (r & st & Hup & Hst' & Hsh & _); [|done|].
  { pose proof (bounds_max b N cap maxl k Hb). rewrite Hcc. destruct Hb as [(? & ? & ? & ?) _ ?]. nia. }
  pose proof (update_state_head _ _ _ _ Hup) as Hhead. unfold Publisher.update_connections. rewrite Hup. cbn [obind].
  assert (r = true) as ->.
  { unfold update_state in Hup. destruct (Z.eqb_spec (current_index_set_head (subscriber_list_state p)) (head (index_set subs))) as [He|_].
    - by unfold quiet in Hq.
    - destruct (update_loop _ _ _ _); [|done..]. by injection Hup. }
  destruct (pub_populate k (set_list_state p st) loaned hist gs content connect) as (p' & gs' & cs & H1 & H2 & H3 & H4 & H5 & H6 & H7);
    try done; [by destruct Hp|].
  exists p', gs'. split; [exact H1|]. split; [done|]. split; [|split_and!].
  - constructor; try done; [by rewrite H3|intros _; by eapply populated_known|by eapply populated_nothing_left].
  - unfold quiet. by rewrite H3.
  - pose proof (populated_borrowed _ _ _ _ _ _ _ H7 (nothing_left_emptied _ _ Hle)) as HF. by apply Forall2_fmap_l in HF.
  - done.
  - intros ?. done.
  - intros _. by exists cs.
Qed.

(** Calls that leave the list alone. *)
Lemma members_same p p' subs gs gs' aba content :
  members_inv p subs gs aba content → same_members p p' → Forall2 nothing_left gs' content →
  members_inv p' subs gs' aba content.
Proof.
  intros [Hc Hcc Hst Hkn Hle Hcb] [H1 H2 H3] Hle'. constructor; try done.
  - by rewrite H1.
  - unfold quiet. rewrite H1. intros Hq. eapply known_same; [exact H2|]. by apply Hkn.
  - by rewrite H3.
Qed.
End Members.

(** ** The system *)

(** [parties]: the publisher and the receiving ends by index; [subscribers]: the container
    in the dynamic configuration; [members]: the indices its subscribers hold. *)
Record system := mkSystem {
  parties : sys;
  subscribers : Container Z;
  members : list (option (UniqueIndex (Container Z)))
}.

Section System.
Context `{P : Profile} (header data : Layout) (b : Builder).
Context (rounds : nat) (rcv : SharedManagementData → SharedManagementData).
(** How many bytes a subscriber maps. *)
Context (size : Z).
#[local] Notation msg := (Message header data).

(** Every call of publisher and subscribers. Connecting may fail, differently every time.
    An index is given to a new subscriber after the publisher has dropped the connection
    of the one before; a subscriber leaves when it holds no sample and there is none left
    to receive. *)
Inductive system_step : system → system → Prop :=
| step_loan p l es c ms r p' :
    loan header data p = Return (r, p') →
    system_step (mkSystem (mkSys p l es) c ms)
      (mkSystem (mkSys p' (match r with Ok chunk => offset chunk :: l | Err _ => l end) es) c ms)
| step_send connect p l1 v l2 es c ms r p' :
    connects b connect → send header data rounds rcv connect c p v = Return (r, p') →
    system_step (mkSystem (mkSys p (l1 ++ v :: l2) es) c ms) (mkSystem (mkSys p' (l1 ++ l2) es) c ms)
| step_drop p l1 v l2 es c ms p' :
    sample_mut_drop header data p v = Return p' →
    system_step (mkSystem (mkSys p (l1 ++ v :: l2) es) c ms) (mkSystem (mkSys p' (l1 ++ l2) es) c ms)
| step_update connect p l es c ms r p' :
    connects b connect → Publisher.update_connections header data connect c p = Return (r, p') →
    system_step (mkSystem (mkSys p l es) c ms) (mkSystem (mkSys p' l es) c ms)
| step_receive p l es c ms i h m e r c' :
    ms !! i = Some (Some h) → subscriber_connections p !! i = Some (Some m) → es !! i = Some e →
    receive_from_connection (Z.of_nat i) (mkConnection m (p_counter e) (p_start e)) = Return (r, c') →
    system_step (mkSystem (mkSys p l es) c ms)
      (mkSystem (mkSys (set_connection p i (receiver c')) l
         (<[i := mkPeer (r_borrow_counter c') (p_start e)
                   (match r with Ok (Some x) => x :: p_samples e | _ => p_samples e end)]> es)) c ms)
| step_release p l es c ms i h m e x1 x x2 c' :
    ms !! i = Some (Some h) → subscriber_connections p !! i = Some (Some m) → es !! i = Some e →
    p_samples e = x1 ++ x :: x2 →
    release_to_connection (mkConnection m (p_counter e) (p_start e)) (sample_as_ptr header data x) = Return c' →
    system_step (mkSystem (mkSys p l es) c ms)
      (mkSystem (mkSys (set_connection p i (receiver c')) l
         (<[i := mkPeer (r_borrow_counter c') (p_start e) (x1 ++ x2)]> es)) c ms)
| step_join p l es c ms id h c' start :
    add c id = Return (Some h, c') → subscriber_connections p !! Z.to_nat (value h) = Some None →
    0 ≤ start → start + size < USIZE →
    system_step (mkSystem (mkSys p l es) c ms)
      (mkSystem (mkSys p l (<[Z.to_nat (value h) := mkPeer 0 start []]> es)) c' (<[Z.to_nat (value h) := Some h]> ms))
| step_leave p l es c ms i h m e k c' :
    ms !! i = Some (Some h) → subscriber_connections p !! i = Some (Some m) → es !! i = Some e → p_samples e = [] →
    receive_from_connection (Z.of_nat i) (mkConnection m (p_counter e) (p_start e)) = Return (Ok None, k) →
    drop_index h c = Return c' →
    system_step (mkSystem (mkSys p l es) c ms) (mkSystem (mkSys p l es) c' (<[i := None]> ms))
| step_leave_unconnected p l es c ms i h c' :
    ms !! i = Some (Some h) → subscriber_connections p !! i = Some None → drop_index h c = Return c' →
    system_step (mkSystem (mkSys p l es) c ms) (mkSystem (mkSys p l es) c' (<[i := None]> ms)).

Inductive system_run : system → nat → system → Prop :=
| run_here s : system_run s 0 s
| run_on s k s' s'' : system_run s k s' → system_step s' s'' → system_run s (S k) s''.

Context (N : nat) (cap maxl adj : Z) (Hcap : cap ≤ buffer_size b).
#[local] Notation n := (samples_required b N cap maxl).
Context (Hsize : size = n * l_size msg).
Context (Hh : type_layout header) (Hd : type_layout data) (Hpos : 0 < l_size header).
Context (Hdata : 0 < l_size data) (Hadj : 0 ≤ adj < l_align msg).

(** Who holds an index is in the list. *)
Definition handles_ok (ms : list (option (UniqueIndex (Container Z)))) (content : list (option Z)) : Prop :=
  length ms = length content ∧
  ∀ i h, ms !! i = Some (Some h) → h = mkUniqueIndex _ (Z.of_nat i) (Some deactivate) ∧ ∃ id, content !! i = Some (Some id).

Record system_inv (aba0 : Z) (k : nat) (s : system) (hist : list Z) (gs : list slot) (aba : Z) (content : list (option Z)) : Prop := {
  iv_sys : sys_inv header data b N cap maxl adj k (parties s) hist gs;
  iv_hist : (length hist ≤ k)%nat;
  iv_members : members_inv N (pub (parties s)) (subscribers s) gs aba content;
  iv_aba : 0 ≤ aba ≤ aba0 + Z.of_nat k;
  iv_handles : handles_ok (members s) content
}.

Lemma send_after_update connect c p p1 v :
  Publisher.update_connections header data connect c p = Return (Ok tt, p1) → quiet c p1 →
  send header data rounds rcv connect c p v = send header data rounds rcv connect c p1 v.
Proof. intros Hu Hq. unfold send, send_impl. by rewrite Hu, update_quiet. Qed.

(** Without a connection nothing is left to receive. *)
Lemma unknown_nothing_left k cs gs content :
  Forall2 (slot_rep header data adj b k) cs gs → Forall2 known cs content → Forall2 nothing_left gs content.
Proof.
  intros HF. revert content. induction HF as [|c g cs gs Hc HF IH]; intros content HK.
  - apply Forall2_nil_inv_l in HK as ->. constructor.
  - apply Forall2_cons_inv_l in HK as (o & content' & Ho & HK & ->). constructor; [|auto]. intros ->.
    destruct c as [m|]; [|by rewrite Hc]. by destruct (Ho (mk_is_Some _ _ eq_refl)).
Qed.

Lemma nothing_left_insert gs content i g g' o :
  Forall2 nothing_left gs content → content !! i = Some (Some o) → gs !! i = Some g →
  Forall2 nothing_left (<[i := g']> gs) content.
Proof.
  intros HF Ho Hg. rewrite <- (list_insert_id content i (Some o)) by done. apply Forall2_insert; [done|]. done.
Qed.

Lemma peers_after gs gs' es :
  Forall2 (λ g g', bo g' = bo g) gs gs' → Forall2 (peer_rep header data b N cap maxl) es gs →
  Forall2 (peer_rep header data b N cap maxl) es gs'.
Proof. apply peers_same_borrowed. Qed.

Lemma borrowed_emptied gs : Forall2 (λ g g', bo g' = bo g) gs (emptied <$> gs).
Proof. by apply Forall2_fmap_r, Forall_Forall2_diag, Forall_true. Qed.

(** A call of the publisher: what has to be shown about it. *)
Lemma publisher_call aba0 k p l es c ms hist gs aba content p' l' hist' gs' :
  system_inv aba0 k (mkSystem (mkSys p l es) c ms) hist gs aba content →
  pub_inv header data adj b N cap maxl (S k) p' l' hist' gs' → (length hist' ≤ S k)%nat →
  members_inv N p' c gs' aba content → Forall2 (λ g g', bo g' = bo g) gs gs' →
  system_inv aba0 (S k) (mkSystem (mkSys p' l' es) c ms) hist' gs' aba content.
Proof.
  intros [[Hp HE] Hk Hm Haba Hhn] Hp' Hk' Hm' Hbo. cbn [parties pub peers] in *. constructor; cbn [parties pub]; try done; [|lia].
  constructor; [done|]. by apply (peers_after gs).
Qed.

Notation inv := system_inv.
Implicit Types (p : Publisher) (l hist : list Z) (es : list peer) (ms : list (option (UniqueIndex (Container Z))))
  (gs : list slot) (content : list (option Z)).
#[local] Notation bd := (bounds b N cap maxl).

Lemma loan_member aba0 k p l es c ms hist gs aba content :
  bd k → inv aba0 k (mkSystem (mkSys p l es) c ms) hist gs aba content →
  ∃ r p', loan header data p = Return (r, p') ∧
    match r with
    | Ok chunk => Z.of_nat (length l) < maxl ∧
        refs header data (l ++ hist ++ all_refs (emptied <$> gs)) (offset chunk / l_size msg) = 0
    | Err e => e = ExceedsMaxLoanedChunks ∧ Z.of_nat (length l) = maxl
    end ∧
    inv aba0 (S k) (mkSystem (mkSys p' (match r with Ok chunk => offset chunk :: l | Err _ => l end) es) c ms)
      hist (emptied <$> gs) aba content.
Proof using Hh Hd Hpos Hadj.
  intros Hb Hi. pose proof Hi as [[Hp _] Hk Hm _ _]. cbn [parties pub loaned] in *.
  destruct (loan_inv header data adj b Hh Hd Hpos Hadj N cap maxl k p l hist gs Hb Hp) as (r & p' & Hr & Hres).
  exists r, p'. split; [done|]. pose proof (loan_same _ _ _ _ _ Hr) as Hsame.
  assert (members_inv N p' c (emptied <$> gs) aba content) as Hm'.
  { eapply members_same; [exact Hm|done|]. apply nothing_left_emptied, Hm. }
  destruct r as [chunk|e]; (split; [by destruct Hres as (? & ? & _)|]); destruct Hres as (_ & _ & Hp');
    (eapply publisher_call; [exact Hi| |lia|done|apply borrowed_emptied]); [done|by apply pub_inv_weaken].
Qed.

Lemma send_member aba0 k connect p l1 v l2 es c ms hist gs aba content :
  bd (S k) → connects b connect → inv aba0 k (mkSystem (mkSys p (l1 ++ v :: l2) es) c ms) hist gs aba content →
  ∃ num p' hist' gs', send header data rounds rcv connect c p v = Return (Ok num, p') ∧
    inv aba0 (S k) (mkSystem (mkSys p' (l1 ++ l2) es) c ms) hist' gs' aba content.
Proof using Hh Hd Hpos Hadj Hcap.
  intros Hb Hcon Hi. pose proof Hi as [[Hp _] Hk Hm _ _]. cbn [parties pub loaned subscribers] in *.
  pose proof (bounds_le b N cap maxl _ k (Nat.le_succ_diag_r k) Hb) as Hbk.
  destruct (members_update header data adj b Hh Hd Hpos Hadj N cap maxl Hcap k p _ hist gs c aba content connect Hbk Hp Hk Hcon Hm)
    as (p1 & gs1 & Hu & Hp1 & Hm1 & Hq1 & Hbo1 & _).
  destruct (send_inv header data adj b Hh Hd Hpos Hadj N cap maxl c rounds rcv connect k p1 l1 v l2 hist gs1 Hb Hp1 Hq1)
    as (num & p2 & hist' & gs2 & Hs & Hp2 & Hdl & _ & old & Hold).
  exists num, p2, hist', gs2. split; [by rewrite (send_after_update connect c p p1)|].
  pose proof (send_same _ _ _ _ _ _ _ _ _ _ Hq1 Hs) as Hsame. eapply publisher_call; [exact Hi|done| | |].
  - destruct (cap =? 0); [rewrite Hold; cbn; lia|]. apply (f_equal length) in Hold. rewrite !length_app in Hold. cbn in Hold. lia.
  - eapply members_same; [exact Hm1|done|]. eapply unknown_nothing_left; [apply Hp2|].
    eapply known_same; [apply Hsame|]. by apply Hm1.
  - eapply Forall2_trans; [|exact Hbo1|exact Hdl]. intros g g1 g2 Hg [Hg' _]. by rewrite Hg'.
Qed.

Lemma drop_member aba0 k p l1 v l2 es c ms hist gs aba content :
  bd k → inv aba0 k (mkSystem (mkSys p (l1 ++ v :: l2) es) c ms) hist gs aba content →
  ∃ p', sample_mut_drop header data p v = Return p' ∧
    inv aba0 (S k) (mkSystem (mkSys p' (l1 ++ l2) es) c ms) hist gs aba content.
Proof using Hh Hd Hpos Hadj.
  intros Hb Hi. pose proof Hi as [[Hp _] Hk Hm _ _]. cbn [parties pub loaned subscribers] in *.
  destruct (drop_inv header data adj b Hh Hd Hpos Hadj N cap maxl k p l1 v l2 hist gs Hb Hp) as (p' & Hr & Hp').
  exists p'. split; [done|]. pose proof (sample_drop_same _ _ _ _ _ Hr) as Hsame.
  eapply publisher_call; [exact Hi|by apply pub_inv_weaken|lia| |by apply Forall_Forall2_diag, Forall_true].
  eapply members_same; [exact Hm|done|apply Hm].
Qed.

Lemma update_member aba0 k connect p l es c ms hist gs aba content :
  bd k → connects b connect → inv aba0 k (mkSystem (mkSys p l es) c ms) hist gs aba content →
  ∃ p' gs', Publisher.update_connections header data connect c p = Return (Ok tt, p') ∧
    inv aba0 (S k) (mkSystem (mkSys p' l es) c ms) hist gs' aba content.
Proof using Hh Hd Hpos Hadj Hcap.
  intros Hb Hcon Hi. pose proof Hi as [[Hp _] Hk Hm _ _]. cbn [parties pub loaned subscribers] in *.
  destruct (members_update header data adj b Hh Hd Hpos Hadj N cap maxl Hcap k p l hist gs c aba content connect Hb Hp Hk Hcon Hm)
    as (p1 & gs1 & Hu & Hp1 & Hm1 & _ & Hbo1 & _).
  exists p1, gs1. split; [done|]. eapply publisher_call; [exact Hi|by apply pub_inv_weaken|lia|done|done].
Qed.

(** A call of a subscriber on its connection. *)
Lemma peer_call aba0 k p l es c ms hist gs aba content i h m m' es' g g' :
  inv aba0 k (mkSystem (mkSys p l es) c ms) hist gs aba content → ms !! i = Some (Some h) →
  subscriber_connections p !! i = Some (Some m) → gs !! i = Some g →
  sys_inv header data b N cap maxl adj (S k) (mkSys (set_connection p i m') l es') hist (<[i := g']> gs) →
  inv aba0 (S k) (mkSystem (mkSys (set_connection p i m') l es') c ms) hist (<[i := g']> gs) aba content.
Proof.
  intros [_ Hk Hm Haba Hhn] Hmi Hci Hg Hs. constructor; cbn [parties pub subscribers members] in *; try done; try lia.
  destruct (proj2 Hhn _ _ Hmi) as (_ & id & Hid). eapply members_same; [exact Hm| |].
  - constructor; try done. by eapply same_connections_insert.
  - eapply nothing_left_insert; [apply Hm|exact Hid|exact Hg].
Qed.

Lemma receive_member aba0 k p l es c ms hist gs aba content i h m e :
  bd k → inv aba0 k (mkSystem (mkSys p l es) c ms) hist gs aba content → ms !! i = Some (Some h) →
  subscriber_connections p !! i = Some (Some m) → es !! i = Some e →
  ∃ r c' g g', receive_from_connection (Z.of_nat i) (mkConnection m (p_counter e) (p_start e)) = Return (r, c') ∧
    gs !! i = Some g ∧ (r = Ok None → rx g = []) ∧
    inv aba0 (S k) (mkSystem (mkSys (set_connection p i (receiver c')) l
       (<[i := mkPeer (r_borrow_counter c') (p_start e)
                 (match r with Ok (Some x) => x :: p_samples e | _ => p_samples e end)]> es)) c ms)
      hist (<[i := g']> gs) aba content.
Proof using Hh Hd Hpos Hadj.
  intros Hb Hi Hmi Hci He.
  destruct (receive_step_inv header data b N cap maxl adj Hh Hd Hpos Hadj k p l es hist gs i m e Hb (iv_sys _ _ _ _ _ _ _ Hi) Hci He)
    as (r & c' & g & g' & Hr & Hg & Hrx & Hs).
  exists r, c', g, g'. split_and!; try done. by eapply peer_call.
Qed.

Lemma release_member aba0 k p l es c ms hist gs aba content i h m e x1 x x2 :
  bd k → inv aba0 k (mkSystem (mkSys p l es) c ms) hist gs aba content → ms !! i = Some (Some h) →
  subscriber_connections p !! i = Some (Some m) → es !! i = Some e → p_samples e = x1 ++ x :: x2 →
  ∃ c' g', release_to_connection (mkConnection m (p_counter e) (p_start e)) (sample_as_ptr header data x) = Return c' ∧
    inv aba0 (S k) (mkSystem (mkSys (set_connection p i (receiver c')) l
       (<[i := mkPeer (r_borrow_counter c') (p_start e) (x1 ++ x2)]> es)) c ms)
      hist (<[i := g']> gs) aba content.
Proof using Hh Hd Hpos Hadj Hdata.
  intros Hb Hi Hmi Hci He Hx. pose proof (iv_sys _ _ _ _ _ _ _ Hi) as Hsys.
  destruct (release_step_inv header data b N cap maxl adj Hh Hd Hpos Hdata Hadj k p l es hist gs i m e x1 x x2 Hb Hsys Hci He Hx)
    as (c' & g' & Hr & Hs).
  exists c', g'. split; [done|].
  destruct (Forall2_lookup_l _ _ _ _ _ (si_peers _ _ _ _ _ _ _ _ _ _ _ Hsys) He) as (g & Hg & _). by eapply peer_call.
Qed.

(** *** Joining and leaving *)

Lemma changed_not_quiet c aba content aba' content' p :
  container_rep c aba' content' → aba' < U32 → state_rep (subscriber_list_state p) aba content → aba < aba' → ¬ quiet c p.
Proof.
  intros [_ _ _ _ _ _ (fl & [_ Hc0 _ Har Hhead Hch] & _) _] Hlt (a0 & h & Hst & Hhr & Ha & _) Hab Hq.
  unfold quiet in Hq. rewrite Hhead, Hst in Hq.
  pose proof (hd_range (capacity (index_set c)) fl (λ x, chain_bounds _ _ _ x Hch)).
  apply (f_equal extract_head_and_aba) in Hq. rewrite !extract_pack in Hq by (done || lia). injection Hq. lia.
Qed.

Lemma members_changed p c c' gs aba content i o :
  members_inv N p c gs aba content → container_rep c' (aba + 1) (<[i := o]> content) → aba + 1 < U32 →
  (o = None → ∀ g, gs !! i = Some g → rx g = [] ∧ bo g = []) → members_inv N p c' gs (aba + 1) (<[i := o]> content).
Proof.
  intros [Hc Hcc Hst Hkn Hle Hcb] Hc' Hlt Ho. constructor; try done.
  - pose proof (cr_len _ _ _ Hc). pose proof (cr_len _ _ _ Hc') as Hl. rewrite length_insert in Hl. lia.
  - eapply state_rep_later; [done|lia|by rewrite length_insert].
  - intros Hq. exfalso. eapply changed_not_quiet; [exact Hc'|done|exact Hst|lia|exact Hq].
  - destruct (gs !! i) as [g|] eqn:Hg.
    + rewrite <- (list_insert_id gs i g) by done. apply Forall2_insert; [done|]. intros ->. by apply Ho.
    + rewrite list_insert_ge; [done|]. rewrite <- (Forall2_length _ _ _ Hle). by apply lookup_ge_None.
Qed.

Lemma join_member aba0 k p l es c ms hist gs aba content id h c' start :
  bd k → aba0 + Z.of_nat k + 1 < U32 → inv aba0 k (mkSystem (mkSys p l es) c ms) hist gs aba content →
  add c id = Return (Some h, c') → subscriber_connections p !! Z.to_nat (value h) = Some None →
  0 ≤ start → start + size < USIZE →
  content !! Z.to_nat (value h) = Some None ∧
  inv aba0 (S k) (mkSystem (mkSys p l (<[Z.to_nat (value h) := mkPeer 0 start []]> es)) c' (<[Z.to_nat (value h) := Some h]> ms))
    hist gs (aba + 1) (<[Z.to_nat (value h) := Some id]> content).
Proof using Hsize.
  intros Hb Hlt [[Hp HE] Hk Hm Haba [Hhl Hhn]] Hadd Hci Hst0 Hst1. cbn [parties pub loaned peers subscribers members] in *.
  destruct (add_rep c aba content id (me_container _ _ _ _ _ _ Hm)) as (r & c1 & Ha & Hr); [lia|].
  rewrite Hadd in Ha. injection Ha as <- <-. destruct Hr as (Hnone & Hv & Hcl & Hrep). split; [done|].
  set (i := Z.to_nat (value h)) in *.
  destruct (Forall2_lookup_l _ _ _ _ _ (pi_conns _ _ _ _ _ _ _ _ _ _ _ _ Hp) Hci) as (g & Hg & Hgn). cbn in Hgn. subst g.
  constructor; cbn [parties pub subscribers members]; [|lia| |lia|].
  - constructor; cbn [pub loaned peers]; [by apply pub_inv_weaken|].
    rewrite <- (list_insert_id gs i no_slot) by done. apply Forall2_insert; [done|].
    split_and!; try done. cbn [p_start]. by rewrite <- Hsize.
  - eapply members_changed; [exact Hm|exact Hrep|lia|done].
  - split; [by rewrite !length_insert|]. intros j h' Hj. destruct (decide (j = i)) as [->|Hne].
    + pose proof (lookup_lt_Some _ _ _ Hnone). rewrite list_lookup_insert_eq in Hj by lia. injection Hj as <-.
      split; [|exists id; by rewrite list_lookup_insert_eq]. unfold i. rewrite Z2Nat.id by lia. destruct h. cbn in *. by rewrite Hcl.
    + rewrite list_lookup_insert_ne in Hj by done. rewrite list_lookup_insert_ne by done. by apply Hhn.
Qed.

Lemma leave_member aba0 k p l es c ms hist gs aba content i h :
  bd k → aba0 + Z.of_nat k + 1 < U32 → inv aba0 k (mkSystem (mkSys p l es) c ms) hist gs aba content →
  ms !! i = Some (Some h) → (∀ g, gs !! i = Some g → rx g = [] ∧ bo g = []) →
  ∃ c', drop_index h c = Return c' ∧
    inv aba0 (S k) (mkSystem (mkSys p l es) c' (<[i := None]> ms)) hist gs (aba + 1) (<[i := None]> content).
Proof.
  intros Hb Hlt [[Hp HE] Hk Hm Haba [Hhl Hhn]] Hmi Hg. cbn [parties pub loaned peers subscribers members] in *.
  destruct (Hhn _ _ Hmi) as (-> & id & Hid).
  destruct (remove_rep c aba content (Z.of_nat i) id (me_container _ _ _ _ _ _ Hm)) as (c' & _ & Hdr & Hrep); [lia|lia|by rewrite Nat2Z.id|].
  rewrite Nat2Z.id in Hrep. exists c'. split; [done|]. constructor; cbn [parties pub subscribers members]; [|lia| |lia|].
  - constructor; cbn [pub loaned peers]; [by apply pub_inv_weaken|done].
  - eapply members_changed; [exact Hm|exact Hrep|lia|done].
  - split; [by rewrite !length_insert|]. intros j h' Hj. destruct (decide (j = i)) as [->|Hne].
    + pose proof (lookup_lt_Some _ _ _ Hmi). rewrite list_lookup_insert_eq in Hj by lia. done.
    + rewrite list_lookup_insert_ne in Hj by done. rewrite list_lookup_insert_ne by done. by apply Hhn.
Qed.

Lemma members_step_inv aba0 k s s' hist gs aba content :
  bd (S k) → aba0 + Z.of_nat k + 1 < U32 → inv aba0 k s hist gs aba content → system_step s s' →
  ∃ hist' gs' aba' content', inv aba0 (S k) s' hist' gs' aba' content'.
Proof using Hsize Hh Hd Hpos Hdata Hadj Hcap.
  intros Hb Hlt Hi Hst. pose proof (bounds_le b N cap maxl _ k (Nat.le_succ_diag_r k) Hb) as Hbk.
  destruct Hst as [p l es c ms r p' Hr|connect p l1 v l2 es c ms r p' Hcon Hr|p l1 v l2 es c ms p' Hr|connect p l es c ms r p' Hcon Hr
    |p l es c ms i h m e r c' Hmi Hci He Hr|p l es c ms i h m e x1 x x2 c' Hmi Hci He Hx Hr|p l es c ms id h c' start Hadd Hci Hs0 Hs1
    |p l es c ms i h m e kc c' Hmi Hci He Hx Hr Hdr|p l es c ms i h c' Hmi Hci Hdr].
  - destruct (loan_member _ _ _ _ _ _ _ _ _ _ _ Hbk Hi) as (r2 & p2 & Hr2 & _ & Hi2). rewrite Hr in Hr2. injection Hr2 as <- <-. eauto.
  - destruct (send_member _ _ _ _ _ _ _ _ _ _ _ _ _ _ Hb Hcon Hi) as (num & p2 & hist2 & gs2 & Hr2 & Hi2).
    rewrite Hr in Hr2. injection Hr2 as -> <-. eauto.
  - destruct (drop_member _ _ _ _ _ _ _ _ _ _ _ _ _ Hbk Hi) as (p2 & Hr2 & Hi2). rewrite Hr in Hr2. injection Hr2 as <-. eauto.
  - destruct (update_member _ _ _ _ _ _ _ _ _ _ _ _ Hbk Hcon Hi) as (p2 & gs2 & Hr2 & Hi2). rewrite Hr in Hr2. injection Hr2 as -> <-. eauto.
  - destruct (receive_member _ _ _ _ _ _ _ _ _ _ _ _ _ _ _ Hbk Hi Hmi Hci He) as (r2 & c2 & g & g2 & Hr2 & _ & _ & Hi2).
    rewrite Hr in Hr2. injection Hr2 as <- <-. eauto.
  - destruct (release_member _ _ _ _ _ _ _ _ _ _ _ _ _ _ _ _ _ _ Hbk Hi Hmi Hci He Hx) as (c2 & g2 & Hr2 & Hi2).
    rewrite Hr in Hr2. injection Hr2 as <-. eauto.
  - destruct (join_member _ _ _ _ _ _ _ _ _ _ _ _ _ _ _ Hbk Hlt Hi Hadd Hci Hs0 Hs1) as [_ Hi2]. eauto.
  - destruct (receive_member _ _ _ _ _ _ _ _ _ _ _ _ _ _ _ Hbk Hi Hmi Hci He) as (r2 & c2 & g & g2 & Hr2 & Hg & Hrx & _).
    rewrite Hr in Hr2. injection Hr2 as <- <-.
    destruct (leave_member _ _ _ _ _ _ _ _ _ _ _ _ _ Hbk Hlt Hi Hmi) as (c2 & Hd2 & Hi2).
    { intros g0 Hg0. rewrite Hg in Hg0. injection Hg0 as <-. split; [auto|].
      destruct (Forall2_lookup_lr _ _ _ _ _ _ (si_peers _ _ _ _ _ _ _ _ _ _ _ (iv_sys _ _ _ _ _ _ _ Hi)) He Hg) as (_ & -> & _).
      unfold peer_offsets. by rewrite Hx. }
    rewrite Hdr in Hd2. injection Hd2 as <-. eauto.
  - destruct (leave_member _ _ _ _ _ _ _ _ _ _ _ _ _ Hbk Hlt Hi Hmi) as (c2 & Hd2 & Hi2).
    { intros g Hg. pose proof (si_pub _ _ _ _ _ _ _ _ _ _ _ (iv_sys _ _ _ _ _ _ _ Hi)) as Hp.
      pose proof (Forall2_lookup_lr _ _ _ _ _ _ (pi_conns _ _ _ _ _ _ _ _ _ _ _ _ Hp) Hci Hg) as Hgn. cbn in Hgn. by subst g. }
    rewrite Hdr in Hd2. injection Hd2 as <-. eauto.
Qed.

Lemma system_run_inv aba0 s k s' :
  bd k → aba0 + Z.of_nat k < U32 → (∃ hist gs aba content, inv aba0 0 s hist gs aba content) → system_run s k s' →
  ∃ hist gs aba content, inv aba0 k s' hist gs aba content.
Proof using Hsize Hh Hd Hpos Hdata Hadj Hcap.
  intros Hb Hlt H0 Hrun. induction Hrun as [|s k s' s'' Hrun IH Hst]; [done|].
  destruct IH as (hist & gs & aba & content & Hs); [by apply (bounds_le _ _ _ _ (S k)); [lia|]|lia|done|].
  eapply members_step_inv; [done| |done|done]. lia.
Qed.
End System.

(** A subscriber that receives samples and gives each back at once, [n] times at most. *)
Fixpoint read `{P : Profile} (n : nat) (m : SharedManagementData) : outcome (list Z * SharedManagementData) :=
  match n with
  | O => Return ([], m)
  | S n =>
      let! '(r, m, borrow_counter) := ZeroCopyConnection.receive m 0 in
      match r with
      | Ok (Some v) =>
          let! '(r, m, _) := ZeroCopyConnection.release m borrow_counter v in
          match r with
          | Ok _ => let! '(vs, m) := read n m in Return (v :: vs, m)
          | Err _ => Panic
          end
      | _ => Return ([], m)
      end
  end.

Lemma read_inv `{P : Profile} b rxs : ∀ k n m se re rts,
  conn_inv b k (mkConn m 0 [] se re) rxs rts → (length rxs < n)%nat → 0 < b_max_borrowed_samples b →
  Z.of_nat k + 2 * Z.of_nat (length rxs) + buffer_size b + b_max_borrowed_samples b + 4 < USIZE →
  ∃ m', read n m = Return (rxs, m').
Proof.
  induction rxs as [|v rxs IH]; intros k [|n] m se re rts Hc Hn Hm Hk; cbn [length] in *; try lia; cbn [read];
    destruct (receive_inv _ _ _ _ _ _ _ _ _ Hc) as (r & m1 & bc & -> & Hr); try lia; cbn [obind].
  - destruct r as [[w|]|e]; [|by eexists|by eexists]. by destruct Hr as (? & ? & _).
  - destruct r as [[w|]|e]; [|by destruct Hr as (_ & _ & ?)|destruct Hr as (_ & _ & Hr); cbn in Hr; lia].
    destruct Hr as (rx' & [= <- <-] & Hc1).
    destruct (release_inv b (S k) m1 bc [] v [] se re rxs rts Hc1) as (m2 & bc2 & -> & Hc2); [lia|]. cbn [obind].
    pose proof (ci_counter _ _ _ _ _ Hc2) as Hb2. cbn in Hb2. subst bc2.
    destruct (IH (S (S k)) n m2 se re _ Hc2) as (m' & ->); [lia|done|lia|]. cbn [obind]. by exists m'.
Qed.

(** ** From the start *)

Section Main.
Context `{P : Profile} (header data : Layout) (b : Builder) (N : nat) (cap : Z) (cfg : LocalPublisherConfig).
Context (rounds : nat) (rcv : SharedManagementData → SharedManagementData).
Context (segment : Z → outcome (result (Memory ShmPoolAllocator) SharedMemoryCreateError)).
Context (connect : Z → outcome (result SharedManagementData ZeroCopyCreationError)).
Context (port_id mp : Z) (subs pubs pubs' : Container Z) (guard : UniqueIndex (Container Z)) (m : Memory ShmPoolAllocator).
Context (es : list peer) (ms : list (option (UniqueIndex (Container Z)))) (aba : Z) (content : list (option Z)).
#[local] Notation msg := (Message header data).
#[local] Notation maxl := (max_loaned_samples cfg).
#[local] Notation n := (samples_required b N cap maxl).
#[local] Notation size := (n * l_size msg).

(** The settings of the service, and what the publisher is created in: a list of
    subscribers, a segment, a free place in the list of publishers. *)
Definition service : StaticConfig :=
  mkStaticConfig (Z.of_nat N) mp cap (buffer_size b) (b_max_borrowed_samples b) (b_enable_safe_overflow b).
Record environment : Prop := {
  en_header : type_layout header ∧ 0 < l_size header;
  en_data : type_layout data ∧ 0 < l_size data;
  en_strategy : no_wait b (unable_to_deliver_strategy cfg);
  en_history : cap ≤ buffer_size b;
  en_connect : connects b connect;
  en_subscribers : container_rep subs aba content ∧ c_capacity subs = Z.of_nat N;
  en_members : handles_ok ms content;
  en_peers : length es = N ∧ Forall (fresh_peer size) es;
  en_segment : create_data_segment header data segment n = Return (Ok m) ∧ pool_segment m msg n 0 [];
  en_publishers : add pubs port_id = Return (Some guard, pubs')
}.

Notation run := (system_run header data b rounds rcv size).

Lemma start_inv_members :
  environment → bounds b N cap maxl 0 →
  ∃ p adj gs, publisher_new header data connect segment port_id service cfg subs pubs = Return (Ok p, pubs') ∧
    0 ≤ adj < l_align msg ∧ system_inv header data b N cap maxl adj aba 0 (mkSystem (mkSys p [] es) subs ms) [] gs aba content.
Proof.
  intros [[Hh Hpos] [Hd Hdata] Hw Hcap Hcon [Hsub Hsc] Hms [Hel Hes] [Hseg Hpool] Hpub] Hb.
  unfold publisher_new. unfold service at 1. rewrite (required_amount_ok b N cap maxl 0 mp Hb). cbn [obind]. rewrite Hseg. cbn [obind].
  rewrite Hpub. cbn [obind].
  assert (c_capacity subs < U32) as Hsm by (rewrite Hsc; destruct Hb as [(? & ? & ? & ?) _ ?]; nia).
  destruct (get_state_rep subs aba content Hsub Hsm) as (st & Hst & Hstr & Hshow). rewrite Hst. cbn [obind].
  assert (current_index_set_head st = head (index_set subs)) as Hq.
  { unfold get_state in Hst. destruct (verify_memory_initialization subs); [|done..]. cbn [obind] in Hst.
    destruct (update_state subs _) as [[r st1]| |] eqn:E; [|done..]. injection Hst as <-. by apply update_state_head in E. }
  destruct (sys_init header data b N cap cfg m (replicate N None) st es) as (adj & hist & gs & Hadj & [Hp HE]);
    try done; [by rewrite length_replicate|by apply Forall_replicate|].
  cbn [pub loaned peers] in *. rewrite Hsc, Nat2Z.id. cbn [history_size service].
  change (mkPublisher _ cfg (replicate N None) st _ None 0) with (initial_publisher m cfg (replicate N None) st n cap).
  set (p0 := initial_publisher _ _ _ _ _ _) in *.
  assert (hist = []) as ->.
  { pose proof (pi_hist _ _ _ _ _ _ _ _ _ _ _ _ Hp) as Hhi. unfold p0, initial_publisher in Hhi. cbn [history] in Hhi.
    destruct (cap =? 0); [apply Hhi|]. destruct Hhi as (Hhi & _). pose proof (Queue.rep_len _ _ Hhi) as Hl. cbn in Hl.
    apply length_zero_iff_nil. lia. }
  assert (length content = N) as Hlc by (pose proof (cr_len _ _ _ Hsub); lia).
  assert (Forall2 known (replicate N None) content) as Hkn.
  { rewrite <- Hlc. clear. induction content; constructor; [by intros []|done]. }
  destruct (pub_populate header data adj b Hh Hd Hpos Hadj N cap maxl Hcap 0 p0 [] [] gs content connect)
    as (p' & gs' & cs & Hpo & Hp' & Hl & Hcb & Hhi & Hsame & Hpop); try done.
  { eapply unknown_nothing_left; [apply Hp|exact Hkn]. }
  rewrite Hpo. cbn [obind]. exists p', adj, gs'. split; [done|]. split; [done|].
  constructor; cbn [parties pub subscribers members]; try done; [| |].
  - constructor; cbn [pub loaned peers]; [done|]. apply (peers_after _ _ _ _ _ _ gs); [|done].
    pose proof (populated_borrowed _ _ _ _ _ _ _ Hpop) as HF.
    assert (Forall2 nothing_left gs content) as Hn by (eapply unknown_nothing_left; [apply Hp|exact Hkn]).
    specialize (HF (nothing_left_emptied _ _ Hn)). by apply Forall2_fmap_l in HF.
  - constructor; try done; [by rewrite Hl|intros _; by eapply populated_known|by eapply populated_nothing_left].
  - pose proof (cr_set _ _ _ Hsub) as (? & [_ _ _ ? _ _] & _). lia.
Qed.

Lemma member_run_inv p k s :
  environment → bounds b N cap maxl k → aba + Z.of_nat k < U32 →
  publisher_new header data connect segment port_id service cfg subs pubs = Return (Ok p, pubs') →
  run (mkSystem (mkSys p [] es) subs ms) k s →
  ∃ adj hist gs aba' content', 0 ≤ adj < l_align msg ∧
    system_inv header data b N cap maxl adj aba k s hist gs aba' content'.
Proof.
  intros Hen Hb Hlt Hnew Hrun. destruct (start_inv_members Hen) as (p' & adj & gs & Hp' & Hadj & Hi).
  { apply (bounds_le b N cap maxl k); [lia|done]. }
  rewrite Hnew in Hp'. injection Hp' as <-. destruct Hen as [[Hh Hpos] [Hd Hdata] _ Hcap _ _ _ _ _ _].
  destruct (system_run_inv header data b rounds rcv size N cap maxl adj Hcap eq_refl Hh Hd Hpos Hdata Hadj aba _ k s Hb Hlt
    ltac:(eauto) Hrun) as (hist & gs' & aba' & content' & Hi').
  by exists adj, hist, gs', aba', content'.
Qed.


(** C9. A subscriber that joins while the publisher is running gets the history, when the
    history is not longer than its buffer, and the publisher has no connection any more to
    another subscriber that had its index before: when the publisher has connected to it, what
    it receives is exactly the content of the history queue, oldest first, and then nothing.
    (Without the two conditions it does not:
    [PubSubScenarios.history_overflow_leaks_sample], [reused_index_never_connects].) *)
Theorem late_joiner_receives_history p k s connect' id h c' mg q :
  environment → bounds b N cap maxl (S k) → aba + Z.of_nat k + 1 < U32 → 0 < b_max_borrowed_samples b →
  publisher_new header data connect segment port_id service cfg subs pubs = Return (Ok p, pubs') →
  run (mkSystem (mkSys p [] es) subs ms) k s →
  add (subscribers s) id = Return (Some h, c') → subscriber_connections (pub (parties s)) !! Z.to_nat (value h) = Some None →
  connects b connect' → connect' id = Return (Ok mg) → history (pub (parties s)) = Some q →
  ∃ p' mg' hist, Publisher.update_connections header data connect' c' (pub (parties s)) = Return (Ok tt, p') ∧
    subscriber_connections p' !! Z.to_nat (value h) = Some (Some mg') ∧
    Queue.rep q hist ∧ ∃ mg'', read (S (length hist)) mg' = Return (hist, mg'').
Proof.
  intros Hen Hb Hlt Hmb Hnew Hrun Hadd Hci Hcon Hid Hq.
  pose proof (bounds_le b N cap maxl _ k (Nat.le_succ_diag_r k) Hb) as Hbk.
  destruct (member_run_inv p k s Hen Hbk ltac:(lia) Hnew Hrun) as (adj & hist & gs & aba' & content' & Hadj & Hi).
  destruct Hen as [[Hh Hpos] [Hd Hdata] _ Hcap _ _ _ _ _ _].
  destruct s as [[p1 l es1] c ms1]. cbn [parties pub loaned peers subscribers members] in *.
  assert (0 ≤ n * l_size msg) as Hsz.
  { pose proof (pub_msize header data adj Hh Hd Hpos Hadj). destruct Hb as [(? & ? & ? & ?) _ _].
    apply Z.mul_nonneg_nonneg; [unfold samples_required; nia|lia]. }
  pose proof Hi as [[Hp0 _] Hk0 Hm0 Haba _]. cbn [parties pub loaned subscribers] in *.
  destruct (add_rep c aba' content' id (me_container _ _ _ _ _ _ Hm0)) as (r & c1 & Ha & Hr); [lia|].
  rewrite Hadd in Ha. injection Ha as <- <-. destruct Hr as (Hnone & _ & _ & Hrep).
  pose proof (members_changed N p1 c c' gs aba' content' _ _ Hm0 Hrep ltac:(lia) ltac:(done)) as Hm.
  destruct (members_update header data adj b Hh Hd Hpos Hadj N cap maxl Hcap k p1 l hist gs c' _ _ connect' Hbk Hp0 Hk0 Hcon Hm)
    as (p' & gs' & Hu & Hp' & _ & _ & _ & _ & _ & Hpop).
  destruct Hpop as (cs & Hsame & Hpop).
  { eapply changed_not_quiet; [exact Hrep|lia|apply Hm0|lia]. }
  destruct (Forall2_lookup_l _ _ _ _ _ Hsame Hci) as (o & Ho & Hiff).
  assert (o = None) as -> by (destruct o; [by destruct (proj2 Hiff (mk_is_Some _ _ eq_refl))|done]).
  destruct (populated_joined _ _ _ _ _ _ _ (Z.to_nat (value h)) id mg Hpop) as (mg' & Hmg & Hg); try done.
  { rewrite list_lookup_insert_eq; [done|]. by eapply lookup_lt_Some. }
  exists p', mg', hist. split; [done|]. split; [done|]. split.
  { pose proof (pi_hist _ _ _ _ _ _ _ _ _ _ _ _ Hp0) as Hhi. rewrite Hq in Hhi. apply Hhi. }
  destruct (Forall2_lookup_lr _ _ _ _ _ _ (pi_conns _ _ _ _ _ _ _ _ _ _ _ _ Hp') Hmg Hg) as ((se & re & Hc) & _).
  cbn [rx bo rt length] in Hc. eapply read_inv; [exact Hc|lia|done|].
  pose proof (ci_rx_len _ _ _ _ _ Hc) as Hlen. destruct Hbk as [(? & ? & ? & ?) ? Hsum].
  pose proof (Z.mul_nonneg_nonneg (Z.of_nat N) (buffer_size b + b_max_borrowed_samples b + 4)).
  unfold U32, USIZE in *. lia.
Qed.
End Main.

Section Witnesses.
#[local] Instance members_checked : Profile := true.

(** One subscriber at most, a history of one, two loans. *)
Definition m_segment (sz : Z) : outcome (result (Memory ShmPoolAllocator) SharedMemoryCreateError) :=
  SharedMemory.create (mkLayout 128 8) 4096 sz (mkShmPoolConfig (Message w_header w_data)) (mkCreateOs (λ _, Ok 65536) true).
Definition m_connect (_ : Z) : outcome (result SharedManagementData ZeroCopyCreationError) :=
  let! m := setup_new_connection 256 w_builder 131072 in Return (Ok m).
Definition m_list : Container Z := fixed_size_container 1.

Lemma m_connects : connects w_builder m_connect.
Proof.
  intros id. destruct (setup_ok 256 w_builder 131072) as (m & Hs & Hc & _ & Ho & _); try done.
  unfold m_connect. rewrite Hs. cbn [obind]. eexists. split; [done|]. by intros m' [= <-].
Qed.

Lemma m_environment :
  ∃ guard pubs' m, environment w_header w_data w_builder 1 1 w_config m_segment m_connect 7 m_list m_list pubs' guard m
    [mkPeer 0 4096 []] [None] 0 [None].
Proof.
  assert (∃ m, create_data_segment w_header w_data m_segment 7 = Return (Ok m) ∧ pool_segment m (Message w_header w_data) 7 0 [])
    as (m & Hcr & Hm).
  { destruct (create_pool_ok (mkLayout 128 8) 4096 (Message w_header w_data) 7 65536
      (mkCreateOs (λ _, Ok 65536) true)) as (m & Hcr & _ & _ & Hm & _); try done.
    { split; [done|]. by exists 3. } { split; [done|]. by exists 3. } by exists m. }
  assert (type_layout w_header ∧ 0 < l_size w_header) as Hh.
  { clear. split; [|done]. split; [split; [done|]; by exists 3|done]. }
  eexists _, _, m. constructor.
  - exact Hh.
  - clear. split; [|done]. split; [split; [done|]; by exists 3|done].
  - by left.
  - cbn. lia.
  - exact m_connects.
  - split; [exact (fixed_size_container_rep 1 ltac:(done) ltac:(done))|done].
  - clear. split; [done|]. intros [|[]] h Hl; discriminate Hl.
  - clear. split; [done|]. by constructor.
  - split; [exact Hcr|exact Hm].
  - reflexivity.
Qed.


Lemma late_joiner_receives_history_witness :
  ∃ p hist mg mg', Publisher.update_connections w_header w_data m_connect m_list p = Return (Ok tt, p) ∧
    read (S (length hist)) mg = Return (hist, mg') ∧ hist ≠ [].
Proof.
  destruct m_environment as (guard & pubs' & m & Hen).
  assert (∃ p0 ps ch p1 r p2 q, publisher_new w_header w_data m_connect m_segment 7 (service w_builder 1 1 1) w_config m_list m_list =
      Return (Ok p0, ps) ∧ loan w_header w_data p0 = Return (Ok ch, p1) ∧
    send w_header w_data 0 (λ m, m) m_connect m_list p1 (offset ch) = Return (r, p2) ∧ history p2 = Some q ∧
    subscriber_connections p2 = [None] ∧ Queue.len q = 1 ∧
    Publisher.update_connections w_header w_data m_connect m_list p2 = Return (Ok tt, p2))
    as (p0 & ps & ch & p1 & r & p2 & q & Hnew & Hloan & Hsend & Hq & Hcs & Hlen & Hup).
  { do 7 eexists. split; [vm_compute; reflexivity|]. split; [vm_compute; reflexivity|]. split; [vm_compute; reflexivity|].
    split; [vm_compute; reflexivity|]. split; [vm_compute; reflexivity|]. split; vm_compute; reflexivity. }
  assert (ps = pubs') as ->.
  { pose proof Hen as [_ _ _ _ _ _ _ _ [Hs _] Ha]. unfold publisher_new in Hnew. unfold m_list at 1 in Ha.
    vm_compute in Ha. vm_compute in Hnew. injection Hnew as _ <-. by injection Ha. }
  destruct (add m_list 3) as [[[h|] c']| |] eqn:Hadd; try (vm_compute in Hadd; discriminate Hadd).
  assert (value h = 0) as Hv by (vm_compute in Hadd; by injection Hadd as <- _).
  destruct (m_connects 3) as (x & Hx & _).
  assert (∃ mg, m_connect 3 = Return (Ok mg)) as (mg & Hmg) by (eexists; vm_compute; reflexivity).
  destruct (late_joiner_receives_history w_header w_data w_builder 1 1 w_config 0 (λ m, m) m_segment m_connect 7 1 m_list m_list pubs'
    guard m [mkPeer 0 4096 []] [None] 0 [None] p0 2 (mkSystem (mkSys p2 [] [mkPeer 0 4096 []]) m_list [None]) m_connect 3 h c' mg q Hen)
    as (p' & mg' & hist & Hu & _ & Hrep & mg'' & Hread);
    [constructor; cbn; [lia|unfold U32; lia..]|unfold U32; lia|cbn; lia|exact Hnew| |exact Hadd| |exact m_connects|exact Hmg|exact Hq|].
  - eapply run_on; [eapply run_on; [apply run_here|]|].
    + exact (step_loan _ _ _ _ _ _ p0 [] _ m_list [None] (Ok ch) p1 Hloan).
    + exact (step_send _ _ _ _ _ _ m_connect p1 [] (offset ch) [] _ m_list [None] r p2 m_connects Hsend).
  - rewrite Hv. cbn [parties pub]. by rewrite Hcs.
  - exists p2, hist, mg', mg''. split; [exact Hup|]. split; [exact Hread|]. intros ->. pose proof (Queue.rep_len _ _ Hrep) as Hl.
    rewrite Hlen in Hl. discriminate Hl.
Defined.
End Witnesses.
