(* ===== verification/ServiceConfig.v ===== *)
(** * The configuration of a service and the names of its resources

    - elkodon/src/service/service_name.rs, static_config/*: what a service is;
    - elkodon/src/global_config.rs: the settings of the installation;
    - elkodon/src/service/mod.rs: how the resources of a service are named and
      where they are.

    The hash that makes the uuid of a service out of its name and the serializer of
    its configuration are libraries: [ServiceNameHasher] and [Serializer] with what
    is documented about them. *)

From S2P Require Import Prelude ByteString SemanticString SystemTypes NamedConcept.
From stdpp Require Import strings.
Open Scope Z_scope.

Import Bytes(FixedSizeByteString, bytes_of_string).
Import Naming.

(** ** service_name.rs *)

Definition SERVICE_NAME_LENGTH : Z := 255.
Definition ServiceName : SemanticStringAccessor := {|
  CAPACITY := SERVICE_NAME_LENGTH;
  is_invalid_content := λ value, match value with [] => true | _ => false end;
  does_contain_invalid_characters := λ _, false |}.

#[global] Instance ServiceName_laws : SemanticStringLaws ServiceName.
Proof. split; cbn; [unfold SERVICE_NAME_LENGTH, Bytes.ISIZE_MAX; lia|done|done]. Qed.

(** ** global_config.rs *)

Record Entries := mkEntries {
  root_path : list Z;
  service_directory : list Z;
  publisher_data_segment_suffix : list Z;
  static_config_storage_suffix : list Z;
  dynamic_config_storage_suffix : list Z;
  connection_suffix : list Z;
  default_max_subscribers : Z;
  default_max_publishers : Z;
  default_subscriber_buffer_size : Z;
  default_subscriber_max_borrowed_samples : Z;
  default_publisher_history_size : Z;
  default_enable_safe_overflow : bool;
  default_max_listeners : Z;
  default_max_notifiers : Z
}.

Definition default_entries : Entries := {|
  root_path := bytes_of_string "/tmp/";
  service_directory := bytes_of_string "services";
  publisher_data_segment_suffix := bytes_of_string ".publisher_data";
  static_config_storage_suffix := bytes_of_string ".service";
  dynamic_config_storage_suffix := bytes_of_string ".dynamic";
  connection_suffix := bytes_of_string ".connection";
  default_max_subscribers := 8;
  default_max_publishers := 2;
  default_publisher_history_size := 1;
  default_subscriber_buffer_size := 2;
  default_subscriber_max_borrowed_samples := 2;
  default_enable_safe_overflow := true;
  default_max_listeners := 1;
  default_max_notifiers := 16 |}.

(** ** static_config *)

Record PubSubStaticConfig := mkPubSubStaticConfig {
  max_subscribers : Z;
  max_publishers : Z;
  history_size : Z;
  subscriber_buffer_size : Z;
  subscriber_max_borrowed_samples : Z;
  enable_safe_overflow : bool;
  type_name : list Z
}.

Definition pub_sub_static_new (config : Entries) : PubSubStaticConfig := {|
  max_subscribers := default_max_subscribers config;
  max_publishers := default_max_publishers config;
  history_size := default_publisher_history_size config;
  subscriber_buffer_size := default_subscriber_buffer_size config;
  subscriber_max_borrowed_samples := default_subscriber_max_borrowed_samples config;
  enable_safe_overflow := default_enable_safe_overflow config;
  type_name := [] |}.

Record EventStaticConfig := mkEventStaticConfig { max_notifiers : Z; max_listeners : Z }.

Definition event_static_new (config : Entries) : EventStaticConfig :=
  mkEventStaticConfig (default_max_notifiers config) (default_max_listeners config).

Inductive MessagingPattern :=
| PublishSubscribe (v : PubSubStaticConfig)
| Event (v : EventStaticConfig).

Definition is_same_pattern (a b : MessagingPattern) : bool :=
  match a, b with
  | PublishSubscribe _, PublishSubscribe _ | Event _, Event _ => true
  | _, _ => false
  end.

Record StaticConfig := mkStaticConfig {
  uuid : list Z;
  service_name : FixedSizeByteString;
  messaging_pattern : MessagingPattern
}.

Definition has_same_messaging_pattern (a b : StaticConfig) : bool :=
  is_same_pattern (messaging_pattern a) (messaging_pattern b).
Definition set_messaging_pattern (c : StaticConfig) (p : MessagingPattern) : StaticConfig :=
  mkStaticConfig (uuid c) (service_name c) p.

Definition event (c : StaticConfig) : outcome EventStaticConfig :=
  match messaging_pattern c with Event v => Return v | _ => Panic end.
Definition publish_subscribe (c : StaticConfig) : outcome PubSubStaticConfig :=
  match messaging_pattern c with PublishSubscribe v => Return v | _ => Panic end.

(** ** The libraries *)

Class ServiceNameHasher := { hash_hex : list Z → list Z }.

(** The hexadecimal digits of a SHA-1. *)
Class ServiceNameHasherLaws (H : ServiceNameHasher) := {
  hash_length bs : length (hash_hex bs) = 40%nat;
  hash_digits bs : Forall (λ c, 48 ≤ c ≤ 57 ∨ 97 ≤ c ≤ 102) (hash_hex bs)
}.

(** [serialize] panics if the name of the service is not UTF-8. *)
Class Serializer := {
  serialize : StaticConfig → outcome (result (list Z) unit);
  deserialize : list Z → result StaticConfig unit
}.

Class SerializerLaws (S : Serializer) := {
  deserialize_serialize c bytes : serialize c = Return (Ok bytes) → deserialize bytes = Ok c
}.

Section Names.
Context `{P : Profile} {Env : Settings} {H : ServiceNameHasher}.

Definition new_event (name : FixedSizeByteString) (config : Entries) : outcome StaticConfig :=
  let! bytes := Bytes.as_bytes name in
  Return (mkStaticConfig (hash_hex bytes) name (Event (event_static_new config))).
Definition new_publish_subscribe (name : FixedSizeByteString) (config : Entries) : outcome StaticConfig :=
  let! bytes := Bytes.as_bytes name in
  Return (mkStaticConfig (hash_hex bytes) name (PublishSubscribe (pub_sub_static_new config))).

(** ** mod.rs *)

(** [unwrap] and [fatal_panic!] of a result. *)
Definition unwrap {A E} (o : outcome (result A E)) : outcome A :=
  let! r := o in match r with Ok a => Return a | Err _ => Panic end.

(** [DEFAULT_PATH_HINT] of every concept. *)
Definition default_path_hint : outcome FixedSizeByteString := Semantic.new_unchecked Path TEMP_DIRECTORY.

Definition dynamic_config_storage_name (c : StaticConfig) : outcome FixedSizeByteString :=
  unwrap (Semantic.new FileName (uuid c)).

Definition dynamic_config_storage_config (g : Entries) : outcome Configuration :=
  let! f := unwrap (Semantic.new FileName (dynamic_config_storage_suffix g)) in
  let! p := default_path_hint in
  Return (mkConfiguration f p).

Definition static_config_storage_name (id : list Z) : outcome FixedSizeByteString :=
  unwrap (Semantic.new FileName id).

Definition static_config_storage_config (g : Entries) : outcome Configuration :=
  let! f := unwrap (Semantic.new FileName (static_config_storage_suffix g)) in
  let! path := unwrap (Semantic.new Path (root_path g)) in
  let! '(r, path) := Semantic.push_bytes Path path (service_directory g) in
  match r with
  | Err _ => Panic
  | Ok _ => Return (mkConfiguration f path)
  end.

Definition connection_config (g : Entries) : outcome Configuration :=
  let! f := unwrap (Semantic.new FileName (connection_suffix g)) in
  let! p := default_path_hint in
  Return (mkConfiguration f p).
End Names.
