(* ===== verification/ServiceBuilder.v ===== *)
(** * elkodon/src/service/builder and elkodon/src/service/mod.rs

    How a service is created, opened and left.

    - [is_service_available], [create_static_config_storage],
      [create_dynamic_config_storage], [open_dynamic_config_storage]: builder/mod.rs,
      shared by all kinds of services;
    - Module [PublishSubscribeBuilder]: builder/publish_subscribe.rs;
    - Module [EventBuilder]: builder/event.rs;
    - [service_state_drop], [list_from_config], [does_exist_from_config]:
      service/mod.rs.

    A service consists of a static storage, which says that it exists, and a dynamic
    storage with a reference counter. All operations are programs over the calls of
    [Processes]. The loop of [open] and the compare-exchange loops have fuel: a
    process whose fuel is used up does not make any further call. *)

From S2P Require Import Prelude Elementary BumpAllocator ByteString SemanticString SystemTypes NamedConcept.
From S2P Require Import Processes Storages DynamicConfig ServiceConfig.

Import Bytes(FixedSizeByteString).
Import Naming.

Inductive BuilderServiceState :=
| IsBeingCreatedByAnotherInstance
| IncompatibleMessagingPattern
| PermissionDenied
| Corrupted.

Inductive OpenDynamicStorageFailure := IsMarkedForDestruction | OpenFailure (e : DynamicStorageOpenError).

Record BuilderWithServiceType := mkBase { service_config : StaticConfig; global_config : Entries }.
Definition set_service_config (b : BuilderWithServiceType) (c : StaticConfig) : BuilderWithServiceType :=
  mkBase c (global_config b).

(** What a process holds of a service. *)
Record ServiceState := mkServiceState {
  static_config : StaticConfig;
  dynamic_storage : DynamicShm.Storage;
  static_storage : StaticFile.Storage
}.

Definition bytes_eqb (a b : list Z) : bool := bool_decide (a = b).

Section Builder.
Context `{P : Profile} {Env : Settings} {S : Serializer}.
(** The layout of the ids of ports, the size of [DynamicConfig], and the rounds of
    the loops. *)
Context (id_layout : Layout) (size_of_DynamicConfig : Z) (fuel : nat).

(** ** builder/mod.rs *)

Definition is_service_available (b : BuilderWithServiceType)
    : prog (result (option (StaticConfig * StaticFile.Storage)) BuilderServiceState) :=
  let* cfg := lift (static_config_storage_config (global_config b)) in
  let* name := lift (unwrap (Semantic.new FileName (uuid (service_config b)))) in
  let* r := StaticFile.does_exist_cfg name cfg in
  match r with
  | Ok false => ret (Ok None)
  | Err UnderlyingResourcesBeingSetUp => ret (Err IsBeingCreatedByAnotherInstance)
  | Ok true =>
      let* r := StaticFile.open
                  (StaticFile.set_config (StaticFile.set_has_ownership (StaticFile.new name cfg) false) cfg) in
      match r with
      | Err _ => ret (Err PermissionDenied)
      | Ok storage =>
          let* '(r, read_content) := StaticFile.read storage (replicate (Z.to_nat (StaticFile.s_len storage)) 32) in
          match r with
          | Err _ => let* _ := StaticFile.drop storage in ret (Err PermissionDenied)
          | Ok _ =>
              match deserialize read_content with
              | Err _ => let* _ := StaticFile.drop storage in ret (Err Corrupted)
              | Ok existing =>
                  if negb (bytes_eqb (uuid existing) (uuid (service_config b))) then
                    let* _ := StaticFile.drop storage in ret (Err Corrupted)
                  else if negb (has_same_messaging_pattern existing (service_config b)) then
                    let* _ := StaticFile.drop storage in ret (Err IncompatibleMessagingPattern)
                  else ret (Ok (Some (existing, storage)))
              end
          end
      end
  | Err _ => ret (Err Corrupted)
  end.

Definition create_dynamic_config_storage (b : BuilderWithServiceType) (pattern : DynamicMessagingPattern)
    (additional_size : Z) : prog (result DynamicShm.Storage DynamicStorageCreateError) :=
  let* name := lift (dynamic_config_storage_name (service_config b)) in
  let* cfg := lift (dynamic_config_storage_config (global_config b)) in
  DynamicShm.create_and_initialize size_of_DynamicConfig
    (DynamicShm.set_has_ownership
       (DynamicShm.set_supplementary_size (DynamicShm.set_config (DynamicShm.new name cfg) cfg) additional_size)
       false)
    (reference_counter (new_uninit pattern))
    (λ allocator, let! _ := init id_layout (new_uninit pattern) allocator in Return true).

Definition open_dynamic_config_storage (b : BuilderWithServiceType)
    : prog (result DynamicShm.Storage OpenDynamicStorageFailure) :=
  let* name := lift (dynamic_config_storage_name (service_config b)) in
  let* cfg := lift (dynamic_config_storage_config (global_config b)) in
  let* r := DynamicShm.open size_of_DynamicConfig
              (DynamicShm.set_has_ownership (DynamicShm.set_config (DynamicShm.new name cfg) cfg) false) in
  match r with
  | Err e => ret (Err (OpenFailure e))
  | Ok storage =>
      let* r := increment_reference_counter fuel (DynamicShm.shm_object (DynamicShm.d_shm storage)) in
      match r with
      | Err _ => let* _ := DynamicShm.drop storage in ret (Err IsMarkedForDestruction)
      | Ok _ => ret (Ok storage)
      end
  end.

Definition create_static_config_storage (b : BuilderWithServiceType)
    : prog (result StaticFile.Locked StaticStorageCreateError) :=
  let* name := lift (static_config_storage_name (uuid (service_config b))) in
  let* cfg := lift (static_config_storage_config (global_config b)) in
  StaticFile.create_locked
    (StaticFile.set_has_ownership (StaticFile.set_config (StaticFile.new name cfg) cfg) false).

(** Leaving the scope with the storages of an unfinished service. *)
Definition drop_storages (d : DynamicShm.Storage) (s : StaticFile.Storage) : prog unit :=
  let* _ := DynamicShm.drop d in StaticFile.drop s.

(** From the reserved static storage to the finished service: the steps [create] has
    in both kinds of services. *)
Definition finish_creation {E} (b : BuilderWithServiceType) (locked : StaticFile.Locked)
    (pattern : DynamicMessagingPattern) (additional_size : Z) (internal_failure corrupted : E)
    : prog (result ServiceState E) :=
  let* r := create_dynamic_config_storage b pattern additional_size in
  match r with
  | Err _ => let* _ := StaticFile.drop locked in ret (Err internal_failure)
  | Ok dynamic =>
      let* r := lift (serialize (service_config b)) in
      match r with
      | Err _ => let* _ := drop_storages dynamic locked in ret (Err corrupted)
      | Ok bytes =>
          let* r := StaticFile.unlock locked bytes in
          match r with
          | Err _ => let* _ := DynamicShm.drop dynamic in ret (Err corrupted)
          | Ok unlocked => ret (Ok (mkServiceState (service_config b) dynamic unlocked))
          end
      end
  end.

(** ** service/mod.rs *)

(** [Drop] of [ServiceState], then of its fields in the order of their
    declaration: the dynamic storage before the static storage. *)
Definition service_state_drop (s : ServiceState) : prog unit :=
  let* r := decrement_reference_counter fuel (DynamicShm.shm_object (DynamicShm.d_shm (dynamic_storage s))) in
  match r with
  | HasOwners => drop_storages (dynamic_storage s) (static_storage s)
  | NoMoreOwners =>
      drop_storages (DynamicShm.acquire_ownership (dynamic_storage s))
        (StaticFile.acquire_ownership (static_storage s))
  end.

(** The body of the loops of [list_from_config] and [does_exist_from_config]: open
    the storage, read it and check it; the reader goes out of scope at the end of
    the round. [on_read_error] says whether a failed read ends the round. *)
Definition inspect (cfg : Configuration) (storage_name : FixedSizeByteString) (on_read_error : bool)
    : prog (option StaticConfig) :=
  let* r := StaticFile.open (StaticFile.set_config (StaticFile.new storage_name cfg) cfg) in
  match r with
  | Err _ => ret None
  | Ok reader =>
      let* '(r, content) := StaticFile.read reader (replicate (Z.to_nat (StaticFile.s_len reader)) 32) in
      match r, on_read_error with
      | Err _, true => let* _ := StaticFile.drop reader in ret None
      | _, _ =>
          match deserialize content with
          | Err _ => let* _ := StaticFile.drop reader in ret None
          | Ok config =>
              let* name := lift (Bytes.as_bytes storage_name) in
              let* _ := StaticFile.drop reader in
              if bytes_eqb name (uuid config) then ret (Some config) else ret None
          end
      end
  end.

Fixpoint list_services (cfg : Configuration) (services : list FixedSizeByteString)
    : prog (list StaticConfig) :=
  match services with
  | [] => ret []
  | storage_name :: services =>
      let* o := inspect cfg storage_name true in
      let* rest := list_services cfg services in
      ret (match o with Some c => c :: rest | None => rest end)
  end.

Definition list_from_config (g : Entries) : prog (result (list StaticConfig) NamedConceptListError) :=
  let* cfg := lift (static_config_storage_config g) in
  let* r := StaticFile.list_cfg cfg in
  match r with
  | Err e => ret (Err e)
  | Ok services => let* l := list_services cfg services in ret (Ok l)
  end.

Fixpoint find_service (cfg : Configuration) (name : FixedSizeByteString) (services : list FixedSizeByteString)
    : prog bool :=
  match services with
  | [] => ret false
  | storage_name :: services =>
      let* o := inspect cfg storage_name false in
      match o with
      | Some c =>
          let* same := lift (Bytes.string_eq (service_name c) name) in
          if same then ret true else find_service cfg name services
      | None => find_service cfg name services
      end
  end.

Definition does_exist_from_config (name : FixedSizeByteString) (g : Entries)
    : prog (result bool NamedConceptListError) :=
  let* cfg := lift (static_config_storage_config g) in
  let* r := StaticFile.list_cfg cfg in
  match r with
  | Err e => ret (Err e)
  | Ok services => let* b := find_service cfg name services in ret (Ok b)
  end.
End Builder.

(** ** builder/publish_subscribe.rs *)

Module PublishSubscribeBuilder.

Inductive PublishSubscribeOpenError :=
| OpenDoesNotExist
| OpenInternalFailure
| OpenIncompatibleTypes
| OpenIncompatibleMessagingPattern
| DoesNotSupportRequestedMinBufferSize
| DoesNotSupportRequestedMinHistorySize
| DoesNotSupportRequestedMinSubscriberBorrowedSamples
| DoesNotSupportRequestedAmountOfPublishers
| DoesNotSupportRequestedAmountOfSubscribers
| IncompatibleOverflowBehavior
| Inaccessible
| OpenPermissionDenied
| ServiceInCorruptedState
| HangsInCreation
| UnableToOpenDynamicServiceInformation.

Inductive PublishSubscribeCreateError :=
| CreateCorrupted
| SubscriberBufferMustBeLargerThanHistorySize
| CreateAlreadyExists
| CreatePermissionDenied
| CreateInternalFailure
| CreateIsBeingCreatedByAnotherInstance
| UnableToCreateStaticServiceInformation.

Inductive ServiceAvailabilityState := State (s : BuilderServiceState) | IncompatibleTypes.

Inductive PublishSubscribeOpenOrCreateError :=
| PublishSubscribeOpen (e : PublishSubscribeOpenError)
| PublishSubscribeCreate (e : PublishSubscribeCreateError).

Record Builder := mkBuilder {
  base : BuilderWithServiceType;
  verify_number_of_subscribers : bool;
  verify_number_of_publishers : bool;
  verify_subscriber_buffer_size : bool;
  verify_subscriber_max_borrowed_samples : bool;
  verify_publisher_history_size : bool;
  verify_enable_safe_overflow : bool
}.

Definition set_base (b : Builder) (x : BuilderWithServiceType) : Builder :=
  mkBuilder x (verify_number_of_subscribers b) (verify_number_of_publishers b)
    (verify_subscriber_buffer_size b) (verify_subscriber_max_borrowed_samples b)
    (verify_publisher_history_size b) (verify_enable_safe_overflow b).

Definition new (x : BuilderWithServiceType) : Builder :=
  mkBuilder
    (set_service_config x
       (set_messaging_pattern (service_config x) (PublishSubscribe (pub_sub_static_new (global_config x)))))
    false false false false false false.

Definition config_details (b : Builder) : outcome PubSubStaticConfig :=
  publish_subscribe (service_config (base b)).

(** [config_details_mut] and a new value. *)
Definition set_details (b : Builder) (v : PubSubStaticConfig) : Builder :=
  set_base b (set_service_config (base b)
                (set_messaging_pattern (service_config (base b)) (PublishSubscribe v))).

Definition update_details (b : Builder) (f : PubSubStaticConfig → PubSubStaticConfig) : outcome Builder :=
  let! v := config_details b in Return (set_details b (f v)).

(** ** The settings of the builder *)

Definition with_enable_safe_overflow (b : Builder) (value : bool) : outcome Builder :=
  let! b := update_details b (λ v,
    mkPubSubStaticConfig (max_subscribers v) (max_publishers v) (history_size v) (subscriber_buffer_size v)
      (subscriber_max_borrowed_samples v) value (type_name v)) in
  Return (mkBuilder (base b) (verify_number_of_subscribers b) (verify_number_of_publishers b)
            (verify_subscriber_buffer_size b) (verify_subscriber_max_borrowed_samples b)
            (verify_publisher_history_size b) true).

Definition with_subscriber_max_borrowed_samples (b : Builder) (value : Z) : outcome Builder :=
  let! b := update_details b (λ v,
    mkPubSubStaticConfig (max_subscribers v) (max_publishers v) (history_size v) (subscriber_buffer_size v)
      (Z.max value 1) (enable_safe_overflow v) (type_name v)) in
  Return (mkBuilder (base b) (verify_number_of_subscribers b) (verify_number_of_publishers b)
            (verify_subscriber_buffer_size b) true
            (verify_publisher_history_size b) (verify_enable_safe_overflow b)).

Definition with_history_size (b : Builder) (value : Z) : outcome Builder :=
  let! b := update_details b (λ v,
    mkPubSubStaticConfig (max_subscribers v) (max_publishers v) value (subscriber_buffer_size v)
      (subscriber_max_borrowed_samples v) (enable_safe_overflow v) (type_name v)) in
  Return (mkBuilder (base b) (verify_number_of_subscribers b) (verify_number_of_publishers b)
            (verify_subscriber_buffer_size b) (verify_subscriber_max_borrowed_samples b)
            true (verify_enable_safe_overflow b)).

Definition with_subscriber_buffer_size (b : Builder) (value : Z) : outcome Builder :=
  let! b := update_details b (λ v,
    mkPubSubStaticConfig (max_subscribers v) (max_publishers v) (history_size v) value
      (subscriber_max_borrowed_samples v) (enable_safe_overflow v) (type_name v)) in
  Return (mkBuilder (base b) (verify_number_of_subscribers b) (verify_number_of_publishers b)
            true (verify_subscriber_max_borrowed_samples b)
            (verify_publisher_history_size b) (verify_enable_safe_overflow b)).

Definition with_max_subscribers (b : Builder) (value : Z) : outcome Builder :=
  let! b := update_details b (λ v,
    mkPubSubStaticConfig value (max_publishers v) (history_size v) (subscriber_buffer_size v)
      (subscriber_max_borrowed_samples v) (enable_safe_overflow v) (type_name v)) in
  Return (mkBuilder (base b) true (verify_number_of_publishers b)
            (verify_subscriber_buffer_size b) (verify_subscriber_max_borrowed_samples b)
            (verify_publisher_history_size b) (verify_enable_safe_overflow b)).

Definition with_max_publishers (b : Builder) (value : Z) : outcome Builder :=
  let! b := update_details b (λ v,
    mkPubSubStaticConfig (max_subscribers v) value (history_size v) (subscriber_buffer_size v)
      (subscriber_max_borrowed_samples v) (enable_safe_overflow v) (type_name v)) in
  Return (mkBuilder (base b) (verify_number_of_subscribers b) true
            (verify_subscriber_buffer_size b) (verify_subscriber_max_borrowed_samples b)
            (verify_publisher_history_size b) (verify_enable_safe_overflow b)).

Definition set_type_name (name : list Z) (v : PubSubStaticConfig) : PubSubStaticConfig :=
  mkPubSubStaticConfig (max_subscribers v) (max_publishers v) (history_size v) (subscriber_buffer_size v)
    (subscriber_max_borrowed_samples v) (enable_safe_overflow v) name.

Definition at_least_one (x : Z) : Z := if x =? 0 then 1 else x.

Definition meaningful (v : PubSubStaticConfig) : PubSubStaticConfig :=
  mkPubSubStaticConfig (at_least_one (max_subscribers v)) (at_least_one (max_publishers v)) (history_size v)
    (at_least_one (subscriber_buffer_size v)) (at_least_one (subscriber_max_borrowed_samples v))
    (enable_safe_overflow v) (type_name v).

Definition adjust_properties_to_meaningful_values (b : Builder) : outcome Builder :=
  update_details b meaningful.

Definition verify_service_properties (b : Builder) (existing : StaticConfig)
    : outcome (result PubSubStaticConfig PublishSubscribeOpenError) :=
  let! required := publish_subscribe (service_config (base b)) in
  match ServiceConfig.messaging_pattern existing with
  | Event _ => Return (Err OpenIncompatibleMessagingPattern)
  | PublishSubscribe existing =>
      Return (
        if verify_number_of_publishers b && (max_publishers existing <? max_publishers required) then
          Err DoesNotSupportRequestedAmountOfPublishers
        else if verify_number_of_subscribers b && (max_subscribers existing <? max_subscribers required) then
          Err DoesNotSupportRequestedAmountOfSubscribers
        else if verify_subscriber_buffer_size b
                && (subscriber_buffer_size existing <? subscriber_buffer_size required) then
          Err DoesNotSupportRequestedMinBufferSize
        else if verify_publisher_history_size b && (history_size existing <? history_size required) then
          Err DoesNotSupportRequestedMinHistorySize
        else if verify_subscriber_max_borrowed_samples b
                && (subscriber_max_borrowed_samples existing <? subscriber_max_borrowed_samples required) then
          Err DoesNotSupportRequestedMinSubscriberBorrowedSamples
        else if verify_enable_safe_overflow b
                && Bool.eqb (enable_safe_overflow existing) (enable_safe_overflow required) then
          Err IncompatibleOverflowBehavior
        else Ok existing)
  end.

(** ** Opening and creating *)

Section Operations.
Context `{P : Profile} {Env : Settings} {S : Serializer}.
Context (id_layout : Layout) (size_of_DynamicConfig : Z) (fuel : nat).

Definition is_service_available (b : Builder)
    : prog (result (option (StaticConfig * StaticFile.Storage)) ServiceAvailabilityState) :=
  let* r := ServiceBuilder.is_service_available (base b) in
  match r with
  | Ok (Some (config, storage)) =>
      let* theirs := lift (publish_subscribe config) in
      let* ours := lift (config_details b) in
      if negb (bytes_eqb (type_name theirs) (type_name ours)) then
        let* _ := StaticFile.drop storage in ret (Err IncompatibleTypes)
      else ret (Ok (Some (config, storage)))
  | Ok None => ret (Ok None)
  | Err e => ret (Err (State e))
  end.

Definition open_error (s : ServiceAvailabilityState) : PublishSubscribeOpenError :=
  match s with
  | IncompatibleTypes => OpenIncompatibleTypes
  | State IncompatibleMessagingPattern => OpenIncompatibleMessagingPattern
  | State Corrupted => ServiceInCorruptedState
  | State PermissionDenied => OpenPermissionDenied
  | State IsBeingCreatedByAnotherInstance => HangsInCreation
  end.

Fixpoint open_loop (rounds : nat) (b : Builder) : prog (result ServiceState PublishSubscribeOpenError) :=
  match rounds with
  | O => Done Undefined
  | Datatypes.S rounds =>
      let* r := is_service_available b in
      match r with
      | Ok None => ret (Err OpenDoesNotExist)
      | Ok (Some (config, storage)) =>
          let* r := open_dynamic_config_storage size_of_DynamicConfig fuel (base b) in
          match r with
          | Err _ => let* _ := StaticFile.drop storage in ret (Err UnableToOpenDynamicServiceInformation)
          | Ok dynamic =>
              let* r := lift (verify_service_properties b config) in
              match r with
              | Err e => let* _ := drop_storages dynamic storage in ret (Err e)
              | Ok existing =>
                  ret (Ok (mkServiceState (service_config (base (set_details b existing))) dynamic storage))
              end
          end
      | Err (State IsBeingCreatedByAnotherInstance) =>
          let* r := call AdaptiveWait in
          match r with
          | Err _ => ret (Err OpenInternalFailure)
          | Ok true => ret (Err HangsInCreation)
          | Ok false => open_loop rounds b
          end
      | Err e => ret (Err (open_error e))
      end
  end.

(** [message_type] is [type_name::<MessageType>()]. *)
Definition open (b : Builder) (message_type : list Z) : prog (result ServiceState PublishSubscribeOpenError) :=
  let* b := lift (update_details b (set_type_name message_type)) in
  let* r := call AdaptiveWaitCreate in
  match r with
  | Err _ => ret (Err OpenInternalFailure)
  | Ok _ => open_loop fuel b
  end.

Definition create (b : Builder) (message_type : list Z) : prog (result ServiceState PublishSubscribeCreateError) :=
  let* b := lift (adjust_properties_to_meaningful_values b) in
  let* b := lift (update_details b (set_type_name message_type)) in
  let* details := lift (config_details b) in
  if negb (enable_safe_overflow details) && (subscriber_buffer_size details <? history_size details) then
    ret (Err SubscriberBufferMustBeLargerThanHistorySize)
  else
    let* r := is_service_available b in
    match r with
    | Ok None =>
        let* r := create_static_config_storage (base b) in
        match r with
        | Err _ => ret (Err UnableToCreateStaticServiceInformation)
        | Ok locked =>
            let* pubsub_config := lift (publish_subscribe (service_config (base b))) in
            let settings := mkPubSubSettings (max_subscribers pubsub_config) (max_publishers pubsub_config) in
            let* n := lift (pub_sub_memory_size id_layout settings) in
            finish_creation id_layout size_of_DynamicConfig (base b) locked
              (PublishSubscribeDynamic (pub_sub_new settings)) n CreateInternalFailure CreateCorrupted
        end
    | Ok (Some (_, storage)) => let* _ := StaticFile.drop storage in ret (Err CreateAlreadyExists)
    | Err IncompatibleTypes | Err (State IncompatibleMessagingPattern) => ret (Err CreateAlreadyExists)
    | Err (State PermissionDenied) => ret (Err CreatePermissionDenied)
    | Err (State Corrupted) => ret (Err CreateCorrupted)
    | Err (State IsBeingCreatedByAnotherInstance) => ret (Err CreateIsBeingCreatedByAnotherInstance)
    end.

(** The [?] of [open_or_create]. *)
Definition or_open {A} (r : result A PublishSubscribeOpenError) : result A PublishSubscribeOpenOrCreateError :=
  match r with Ok a => Ok a | Err e => Err (PublishSubscribeOpen e) end.
Definition or_create {A} (r : result A PublishSubscribeCreateError) : result A PublishSubscribeOpenOrCreateError :=
  match r with Ok a => Ok a | Err e => Err (PublishSubscribeCreate e) end.

(** What [is_service_available] answered lives until the end of the [match]. *)
Definition open_or_create (b : Builder) (message_type : list Z)
    : prog (result ServiceState PublishSubscribeOpenOrCreateError) :=
  let* b := lift (update_details b (set_type_name message_type)) in
  let* r := is_service_available b in
  match r with
  | Ok (Some (_, storage)) =>
      let* r := open b message_type in
      let* _ := StaticFile.drop storage in
      ret (or_open r)
  | Ok None => let* r := create b message_type in ret (or_create r)
  | Err (State IsBeingCreatedByAnotherInstance) => let* r := open b message_type in ret (or_open r)
  | Err e => ret (Err (PublishSubscribeOpen (open_error e)))
  end.
End Operations.
End PublishSubscribeBuilder.

(** ** builder/event.rs *)

Module EventBuilder.

Inductive EventOpenError :=
| OpenDoesNotExist
| OpenPermissionDenied
| EventInCorruptedState
| OpenIncompatibleMessagingPattern
| OpenInternalFailure
| HangsInCreation
| DoesNotSupportRequestedAmountOfNotifiers
| DoesNotSupportRequestedAmountOfListeners
| UnableToOpenDynamicServiceInformation.

Inductive EventCreateError :=
| CreateCorrupted
| CreateInternalFailure
| CreateIsBeingCreatedByAnotherInstance
| CreateAlreadyExists
| CreatePermissionDenied
| UnableToCreateStaticServiceInformation.

Inductive EventOpenOrCreateError := EventOpen (e : EventOpenError) | EventCreate (e : EventCreateError).

Record Builder := mkBuilder {
  base : BuilderWithServiceType;
  verify_max_notifiers : bool;
  verify_max_listeners : bool
}.

Definition new (x : BuilderWithServiceType) : Builder :=
  mkBuilder
    (set_service_config x
       (set_messaging_pattern (service_config x) (Event (event_static_new (global_config x))))) false false.

Definition config_details (b : Builder) : outcome EventStaticConfig := event (service_config (base b)).

Definition set_details (b : Builder) (v : EventStaticConfig) : Builder :=
  mkBuilder
    (set_service_config (base b) (set_messaging_pattern (service_config (base b)) (Event v)))
    (verify_max_notifiers b) (verify_max_listeners b).

Definition update_details (b : Builder) (f : EventStaticConfig → EventStaticConfig) : outcome Builder :=
  let! v := config_details b in Return (set_details b (f v)).

Definition with_max_notifiers (b : Builder) (value : Z) : outcome Builder :=
  let! b := update_details b (λ v, mkEventStaticConfig value (max_listeners v)) in
  Return (mkBuilder (base b) true (verify_max_listeners b)).
Definition with_max_listeners (b : Builder) (value : Z) : outcome Builder :=
  let! b := update_details b (λ v, mkEventStaticConfig (max_notifiers v) value) in
  Return (mkBuilder (base b) (verify_max_notifiers b) true).

Definition meaningful (v : EventStaticConfig) : EventStaticConfig :=
  mkEventStaticConfig (PublishSubscribeBuilder.at_least_one (max_notifiers v))
    (PublishSubscribeBuilder.at_least_one (max_listeners v)).
Definition adjust_properties_to_meaningful_values (b : Builder) : outcome Builder :=
  update_details b meaningful.

Definition verify_service_properties (b : Builder) (existing : StaticConfig)
    : outcome (result EventStaticConfig EventOpenError) :=
  let! required := event (service_config (base b)) in
  match ServiceConfig.messaging_pattern existing with
  | PublishSubscribe _ => Return (Err OpenIncompatibleMessagingPattern)
  | Event existing =>
      Return (
        if verify_max_notifiers b && (max_notifiers existing <? max_notifiers required) then
          Err DoesNotSupportRequestedAmountOfNotifiers
        else if verify_max_listeners b && (max_listeners existing <? max_listeners required) then
          Err DoesNotSupportRequestedAmountOfListeners
        else Ok existing)
  end.

(** ** Opening and creating *)

Section Operations.
Context `{P : Profile} {Env : Settings} {S : Serializer}.
Context (id_layout : Layout) (size_of_DynamicConfig : Z) (fuel : nat).

Fixpoint open_loop (rounds : nat) (b : Builder) : prog (result ServiceState EventOpenError) :=
  match rounds with
  | O => Done Undefined
  | Datatypes.S rounds =>
      let* r := is_service_available (base b) in
      match r with
      | Ok None => ret (Err OpenDoesNotExist)
      | Ok (Some (config, storage)) =>
          let* r := open_dynamic_config_storage size_of_DynamicConfig fuel (base b) in
          match r with
          | Err _ => let* _ := StaticFile.drop storage in ret (Err UnableToOpenDynamicServiceInformation)
          | Ok dynamic =>
              let* r := lift (verify_service_properties b config) in
              match r with
              | Err e => let* _ := drop_storages dynamic storage in ret (Err e)
              | Ok existing =>
                  ret (Ok (mkServiceState (service_config (base (set_details b existing))) dynamic storage))
              end
          end
      | Err IsBeingCreatedByAnotherInstance =>
          let* r := call AdaptiveWait in
          match r with
          | Err _ => ret (Err OpenInternalFailure)
          | Ok true => ret (Err HangsInCreation)
          | Ok false => open_loop rounds b
          end
      | Err PermissionDenied => ret (Err OpenPermissionDenied)
      | Err IncompatibleMessagingPattern => ret (Err OpenPermissionDenied)
      | Err Corrupted => ret (Err EventInCorruptedState)
      end
  end.

Definition open (b : Builder) : prog (result ServiceState EventOpenError) :=
  let* r := call AdaptiveWaitCreate in
  match r with
  | Err _ => ret (Err OpenInternalFailure)
  | Ok _ => open_loop fuel b
  end.

Definition create (b : Builder) : prog (result ServiceState EventCreateError) :=
  let* b := lift (adjust_properties_to_meaningful_values b) in
  let* r := is_service_available (base b) in
  match r with
  | Ok None =>
      let* r := create_static_config_storage (base b) in
      match r with
      | Err _ => ret (Err UnableToCreateStaticServiceInformation)
      | Ok locked =>
          let* event_config := lift (event (service_config (base b))) in
          let settings := mkEventSettings (max_listeners event_config) (max_notifiers event_config) in
          let* n := lift (event_memory_size id_layout settings) in
          finish_creation id_layout size_of_DynamicConfig (base b) locked
            (EventDynamic (event_new settings)) n CreateInternalFailure CreateCorrupted
      end
  | Ok (Some (_, storage)) => let* _ := StaticFile.drop storage in ret (Err CreateAlreadyExists)
  | Err IncompatibleMessagingPattern => ret (Err CreateAlreadyExists)
  | Err PermissionDenied => ret (Err CreatePermissionDenied)
  | Err Corrupted => ret (Err CreateCorrupted)
  | Err IsBeingCreatedByAnotherInstance => ret (Err CreateIsBeingCreatedByAnotherInstance)
  end.

Definition or_open {A} (r : result A EventOpenError) : result A EventOpenOrCreateError :=
  match r with Ok a => Ok a | Err e => Err (EventOpen e) end.
Definition or_create {A} (r : result A EventCreateError) : result A EventOpenOrCreateError :=
  match r with Ok a => Ok a | Err e => Err (EventCreate e) end.

Definition open_or_create (b : Builder) : prog (result ServiceState EventOpenOrCreateError) :=
  let* r := is_service_available (base b) in
  match r with
  | Ok (Some (_, storage)) =>
      let* r := open b in
      let* _ := StaticFile.drop storage in
      ret (or_open r)
  | Ok None => let* r := create b in ret (or_create r)
  | Err IsBeingCreatedByAnotherInstance => let* r := open b in ret (or_open r)
  | Err Corrupted => ret (Err (EventOpen EventInCorruptedState))
  | Err IncompatibleMessagingPattern => ret (Err (EventOpen OpenIncompatibleMessagingPattern))
  | Err PermissionDenied => ret (Err (EventOpen OpenPermissionDenied))
  end.
End Operations.
End EventBuilder.
