(* ===== verification/ServiceLifecycle.v ===== *)
(** * Several processes create, open and leave one service

    Every process runs the programs of [ServiceBuilder] for the same service; a step
    is one call of one process, in any order and with any answer the documentation
    allows, failures included.

    - [role]: what a process has achieved so far, as far as other processes rely on
      it; [allowed] and [next] say which calls a role may make and where they lead;
    - [wp]: a program follows the roles, whatever the answers are;
    - [Inv]: the invariant of all processes together;
    - [actor], [system_step]: processes that build, hold and leave the service.

    The theorems: a service that somebody holds has both of its resources, with a
    reference counter that counts at least the holders, and its configuration was
    written completely by the one who created it. *)

From S2P Require Import Prelude Elementary BumpAllocator ByteString SemanticString SystemTypes NamedConcept.
From S2P Require Import Processes Storages DynamicConfig ServiceConfig ServiceBuilder.

Import Naming.

(** ** Roles *)

Inductive role :=
| Idle
| Looking (f : nat)                       (* has opened the file [f] *)
| Found (f : nat) (n : Z)                 (* [f] is unlocked and has [n] bytes *)
| Opened (d : nat)                        (* has opened the object [d] *)
| OpenedFinal (d : nat)                   (* [d] is completely set up *)
| Setup (f : nat)                         (* has created the locked file [f] *)
| SetupShm (f d : nat)                    (* ... and the object [d] *)
| SetupInit (f d : nat)                   (* ... and has written [d] *)
| SetupReady (f d : nat)                  (* [d] is completely set up *)
| Written (f d : nat) (c : list Z)        (* [f] has its content [c] *)
| Holder (d : nat)                        (* holds a reference to [d] *)
| Last (d : nat)                          (* has given back the last reference *)
| LastFile.                               (* ... and has removed the object *)

(** Other processes do not rely on these. *)
Definition no_claim (ρ : role) : bool :=
  match ρ with Idle | Looking _ | Found _ _ | Opened _ | OpenedFinal _ => true | _ => false end.

(** The object a role counts for. *)
Definition refers (ρ : role) : option nat :=
  match ρ with SetupReady _ d | Written _ d _ | Holder d => Some d | _ => None end.

Definition late (ρ : role) : bool :=
  match ρ with SetupReady _ _ | Written _ _ _ => true | _ => false end.

(** Roles two processes may have at the same time. *)
Definition compatible (ρ ρ' : role) : Prop :=
  no_claim ρ = true ∨ no_claim ρ' = true ∨
  (refers ρ = refers ρ' ∧ is_Some (refers ρ) ∧ (late ρ = false ∨ late ρ' = false)).

Definition counts (d : nat) (ρ : role) : nat := if bool_decide (refers ρ = Some d) then 1 else 0.
Definition references (d : nat) (ρs : list role) : nat := sum_list_with (counts d) ρs.

Section Protocol.
(** The path of the static storage and the name of the dynamic storage, the complete
    contents of static storages, the objects that were there before, and whether the
    operating system is [reliable]. *)
Context (path name : list Z) (complete : list Z → Prop) (f0 d0 : nat) (strict : Prop).

Definition allowed (ρ : role) (q : request) : Prop :=
  match q with
  | FileOpen p => p = path ∧ no_claim ρ = true
  | FileCreate p => p = path ∧ no_claim ρ = true
  | FileWrite f c => complete c ∧ ∃ d, ρ = SetupReady f d
  | FileSetPermission f => ∃ d c, ρ = Written f d c
  | FileRemove p => p = path ∧ ρ = LastFile
  | ShmCreate n _ => n = name ∧ ∃ f, ρ = Setup f
  | ShmOpen n => n = name ∧ no_claim ρ = true
  | ShmWrite d c => c = 1 ∧ ∃ f, ρ = SetupShm f d
  | ShmSetPermission d final => final = true ∧ ∃ f, ρ = SetupInit f d
  | ShmRemove n => n = name ∧ ∃ d, ρ = Last d
  | CounterLoad d => ρ = OpenedFinal d ∨ ρ = Holder d
  | CounterCas d cur new =>
      ρ = OpenedFinal d ∧ cur ≠ MARKED_FOR_DESTRUCTION ∧ new = cur + 1 ∨
      ρ = Holder d ∧ new = (if cur =? 1 then MARKED_FOR_DESTRUCTION else cur - 1)
  | _ => True
  end.

Definition next (ρ : role) (q : request) : response q → role :=
  match q return response q → role with
  | FileOpen _ => λ r, match r with Ok f => Looking f | Err _ => ρ end
  | FileMetadata f => λ r,
      match ρ, r with
      | Looking f', Ok m => if bool_decide (f' = f) && has_final_permission m then Found f (file_size m) else ρ
      | _, _ => ρ
      end
  | FileCreate _ => λ r, match r with Ok f => Setup f | Err _ => ρ end
  | FileWrite _ c => λ r,
      match ρ, r with
      | SetupReady f d, Ok n => if n =? Z.of_nat (length c) then Written f d c else ρ
      | _, _ => ρ
      end
  | FileSetPermission _ => λ r, match ρ, r with Written _ d _, Ok _ => Holder d | _, _ => ρ end
  | FileRemove _ => λ _, Idle
  | ShmCreate _ _ => λ r, match ρ, r with Setup f, Ok (d, _) => SetupShm f d | _, _ => ρ end
  | ShmOpen _ => λ r, match r with Ok (d, _) => Opened d | Err _ => ρ end
  | ShmWrite _ _ => λ _, match ρ with SetupShm f d => SetupInit f d | _ => ρ end
  | ShmSetPermission _ _ => λ r,
      match ρ, r with SetupInit f d, Ok _ => SetupReady f d | _, _ => ρ end
  | ShmPermission d => λ r,
      match ρ, r with
      | Opened d', Ok true => if bool_decide (d' = d) then OpenedFinal d else ρ
      | _, _ => ρ
      end
  | ShmRemove _ => λ _, LastFile
  | CounterCas _ cur _ => λ r,
      match ρ, r with
      | OpenedFinal d, Ok _ => Holder d
      | Holder d, Ok _ => if cur =? 1 then Last d else Idle
      | _, _ => ρ
      end
  | _ => λ _, ρ
  end.

(** What a process may rely on when it gets an answer. *)
Definition answers (ρ : role) (q : request) : response q → Prop :=
  match q return response q → Prop with
  | CounterLoad d => λ v, 0 ≤ v ≤ MARKED_FOR_DESTRUCTION ∧ (ρ = Holder d → 1 ≤ v)
  | CounterCas d _ _ => λ r,
      match r with
      | Err v => 0 ≤ v ≤ MARKED_FOR_DESTRUCTION ∧ (ρ = Holder d → 1 ≤ v)
      | Ok _ => True
      end
  | FileRead f n => λ r,
      match r with
      | Ok c => ρ = Found f n → complete c
      | Err _ => True
      end
  | FileWrite _ c => λ r, strict → r = Ok (Z.of_nat (length c))
  | FileSetPermission _ => λ r, strict → r = Ok tt
  | ShmCreate _ _ => λ r, strict → ∃ x, r = Ok x
  | ShmSetPermission _ _ => λ r, strict → r = Ok tt
  | _ => λ _, True
  end.

(** ** Programs that follow the roles *)

Fixpoint wp {A} (ρ : role) (p : prog A) (Q : role → A → Prop) : Prop :=
  match p with
  | Done (Return a) => Q ρ a
  | Done _ => True
  | Call q k => allowed ρ q ∧ ∀ r, answers ρ q r → wp (next ρ q r) (k r) Q
  end.

Lemma wp_mono {A} (p : prog A) (Q Q' : role → A → Prop) ρ :
  (∀ ρ a, Q ρ a → Q' ρ a) → wp ρ p Q → wp ρ p Q'.
Proof.
  intros HQ. revert ρ. induction p as [[a| |]|q k IH]; intros ρ; cbn; [apply HQ|done..|].
  intros [Ha Hk]. split; [done|]. intros r Hr. by apply IH, Hk.
Qed.

Lemma wp_bind {A B} (p : prog A) (k : A → prog B) (Q : role → B → Prop) ρ :
  wp ρ p (λ ρ a, wp ρ (k a) Q) → wp ρ (pbind p k) Q.
Proof.
  revert ρ. induction p as [[a| |]|q c IH]; intros ρ; cbn; [done..|].
  intros [Ha Hk]. split; [done|]. intros r Hr. by apply IH, Hk.
Qed.

Lemma wp_call {B} q (k : response q → prog B) (Q : role → B → Prop) ρ :
  allowed ρ q → (∀ r, answers ρ q r → wp (next ρ q r) (k r) Q) → wp ρ (pbind (call q) k) Q.
Proof. by split. Qed.

Lemma wp_lift {A} (o : outcome A) (Q : role → A → Prop) ρ :
  (∀ a, o = Return a → Q ρ a) → wp ρ (lift o) Q.
Proof. destruct o; cbn; eauto. Qed.

(** ** The invariant *)

Implicit Types (w : world) (ρ : role) (ρs : list role).

Definition locked_file w (f : nat) : Prop :=
  file_names w !! path = Some f ∧ ∃ o, files w !! f = Some o ∧ file_final o = false.
Definition final_shm w (d : nat) : Prop :=
  (d0 ≤ d)%nat ∧ ∃ o, shms w !! d = Some o ∧ shm_final o = true.
Definition unfinished_shm w (d : nat) (P : Z → Prop) : Prop :=
  shm_names w !! name = Some d ∧ ∃ o, shms w !! d = Some o ∧ shm_final o = false ∧ P (counter o).

(** What a role says about the world. *)
Definition fact w ρ : Prop :=
  match ρ with
  | Idle => True
  | Looking f => (f0 ≤ f)%nat
  | Found f n => (f0 ≤ f)%nat ∧
      ∃ o, files w !! f = Some o ∧ file_final o = true ∧ n = Z.of_nat (length (contents o))
  | Opened d => (d0 ≤ d)%nat
  | OpenedFinal d => final_shm w d
  | Setup f => locked_file w f
  | SetupShm f d => locked_file w f ∧ unfinished_shm w d (λ _, True)
  | SetupInit f d => locked_file w f ∧ unfinished_shm w d (λ c, c = 1)
  | SetupReady f d => locked_file w f ∧ final_shm w d
  | Written f d c => file_names w !! path = Some f ∧ files w !! f = Some (mkFile c false) ∧
      complete c ∧ final_shm w d
  | Holder d => final_shm w d
  | Last d => shm_names w !! name = Some d
  | LastFile => True
  end.

Record Inv w ρs : Prop := {
  inv_few : Z.of_nat (length ρs) < MARKED_FOR_DESTRUCTION;
  inv_file : ∀ f, file_names w !! path = Some f → (f0 ≤ f)%nat;
  inv_files : (f0 ≤ length (files w))%nat;
  inv_shm : ∀ d, shm_names w !! name = Some d → (d0 ≤ d)%nat;
  inv_shms : (d0 ≤ length (shms w))%nat;
  inv_complete : ∀ f o, (f0 ≤ f)%nat → files w !! f = Some o → file_final o = true → complete (contents o);
  inv_facts : ∀ i ρ, ρs !! i = Some ρ → fact w ρ;
  inv_claims : ∀ i ρ, ρs !! i = Some ρ → no_claim ρ = false → is_Some (file_names w !! path);
  inv_compatible : ∀ i j ρ ρ', i ≠ j → ρs !! i = Some ρ → ρs !! j = Some ρ' → compatible ρ ρ';
  inv_counters : ∀ d o, (d0 ≤ d)%nat → shms w !! d = Some o → shm_final o = true →
    counter o = MARKED_FOR_DESTRUCTION ∧ references d ρs = 0%nat ∨
    counter o = Z.of_nat (references d ρs) ∧ (0 < references d ρs)%nat ∧ shm_names w !! name = Some d
}.

(** Nothing is left behind: a resource belongs to somebody who will remove it. *)
Definition claims_shm (ρ : role) (d : nat) : Prop :=
  match ρ with
  | SetupShm _ d' | SetupInit _ d' | SetupReady _ d' | Written _ d' _ | Holder d' | Last d' => d' = d
  | _ => False
  end.

Record Clean w ρs : Prop := {
  clean_file : is_Some (file_names w !! path) → ∃ i ρ, ρs !! i = Some ρ ∧ no_claim ρ = false;
  clean_shm : ∀ d, shm_names w !! name = Some d → ∃ i ρ, ρs !! i = Some ρ ∧ claims_shm ρ d
}.

(** ** References *)

Lemma counts_one d ρ : counts d ρ = 1%nat ↔ refers ρ = Some d.
Proof. unfold counts. case_bool_decide; split; (done || lia). Qed.
Lemma counts_no_claim d ρ : no_claim ρ = true → counts d ρ = 0%nat.
Proof. unfold counts. by destruct ρ. Qed.

Lemma references_insert d ρs i ρ ρ' :
  ρs !! i = Some ρ →
  (references d (<[i := ρ']> ρs) + counts d ρ = references d ρs + counts d ρ')%nat.
Proof.
  intros Hi. unfold references. destruct (list_elem_of_split_length _ _ _ Hi) as (l1 & l2 & -> & ->).
  rewrite insert_app_r_alt by done. rewrite Nat.sub_diag, !sum_list_with_app. cbn. lia.
Qed.

Lemma references_same d ρs i ρ ρ' :
  ρs !! i = Some ρ → refers ρ = refers ρ' → references d (<[i := ρ']> ρs) = references d ρs.
Proof.
  intros Hi Hr. pose proof (references_insert d ρs i ρ ρ' Hi) as H.
  assert (counts d ρ = counts d ρ') as Hc by (unfold counts; by rewrite Hr). lia.
Qed.

Lemma references_le d ρs : (references d ρs ≤ length ρs)%nat.
Proof.
  unfold references, counts. induction ρs as [|ρ ρs IH]; cbn; [lia|]. case_bool_decide; lia.
Qed.

Lemma references_pos d ρs : (0 < references d ρs)%nat ↔ ∃ i ρ, ρs !! i = Some ρ ∧ refers ρ = Some d.
Proof.
  split.
  - induction ρs as [|ρ ρs IH]; cbn; [lia|]. intros Hp. destruct (decide (refers ρ = Some d)) as [Hr|Hr].
    + by exists 0%nat, ρ.
    + unfold counts in Hp at 1. rewrite bool_decide_eq_false_2 in Hp by done.
      destruct (IH Hp) as (i & ρ' & ? & ?). by exists (S i), ρ'.
  - intros (i & ρ & Hi & Hr). pose proof (references_insert d ρs i ρ Idle Hi) as H.
    apply counts_one in Hr. change (counts d Idle) with 0%nat in H. lia.
Qed.

(** One reference only: nobody else has one. *)
Lemma references_one d ρs i j ρ ρ' :
  references d ρs = 1%nat → ρs !! i = Some ρ → refers ρ = Some d →
  i ≠ j → ρs !! j = Some ρ' → refers ρ' ≠ Some d.
Proof.
  intros H1 Hi Hr Hij Hj Hr'. pose proof (references_insert d ρs i ρ Idle Hi) as H.
  apply counts_one in Hr. change (counts d Idle) with 0%nat in H.
  enough (0 < references d (<[i := Idle]> ρs))%nat by lia.
  apply references_pos. exists j, ρ'. by rewrite list_lookup_insert_ne.
Qed.

(** ** Steps *)

(** The invariant after a step of process [i]: what has to be shown about the others
    and about it. *)
Lemma Inv_insert w ρs i ρ' :
  Z.of_nat (length ρs) < MARKED_FOR_DESTRUCTION →
  (∀ f, file_names w !! path = Some f → (f0 ≤ f)%nat) → (f0 ≤ length (files w))%nat →
  (∀ d, shm_names w !! name = Some d → (d0 ≤ d)%nat) → (d0 ≤ length (shms w))%nat →
  (∀ f o, (f0 ≤ f)%nat → files w !! f = Some o → file_final o = true → complete (contents o)) →
  fact w ρ' → (no_claim ρ' = false → is_Some (file_names w !! path)) →
  (∀ j ρ, i ≠ j → ρs !! j = Some ρ →
     fact w ρ ∧ (no_claim ρ = false → is_Some (file_names w !! path)) ∧ compatible ρ' ρ) →
  (∀ j k ρ ρ', j ≠ k → i ≠ j → i ≠ k → ρs !! j = Some ρ → ρs !! k = Some ρ' → compatible ρ ρ') →
  (∀ d o, (d0 ≤ d)%nat → shms w !! d = Some o → shm_final o = true →
    counter o = MARKED_FOR_DESTRUCTION ∧ references d (<[i := ρ']> ρs) = 0%nat ∨
    counter o = Z.of_nat (references d (<[i := ρ']> ρs)) ∧ (0 < references d (<[i := ρ']> ρs))%nat ∧
    shm_names w !! name = Some d) →
  Inv w (<[i := ρ']> ρs).
Proof.
  intros Hfew Hf Hfs Hd Hds Hc Hi Hic Ho Hoo Hcnt.
  assert (∀ j ρ, <[i := ρ']> ρs !! j = Some ρ → i = j ∧ ρ = ρ' ∨ i ≠ j ∧ ρs !! j = Some ρ) as Hl.
  { intros j ρ. destruct (decide (i = j)) as [<-|Hn]; [|by rewrite list_lookup_insert_ne; eauto].
    intros Hj. assert (i < length ρs)%nat by (apply lookup_lt_Some in Hj; by rewrite length_insert in Hj).
    rewrite list_lookup_insert_eq in Hj by done. left. by simplify_eq. }
  constructor; try done; rewrite ?length_insert; try done.
  - intros j ρ [[_ ->]|[Hn Hj]]%Hl; [done|by apply (Ho j)].
  - intros j ρ [[_ ->]|[Hn Hj]]%Hl; [done|by apply (Ho j)].
  - intros j k ρ1 ρ2 Hjk [[<- ->]|[Hn1 H1]]%Hl [[<- ->]|[Hn2 H2]]%Hl; try done.
    + by apply (Ho k).
    + destruct (Ho j ρ1) as (_ & _ & Hcomp); [done..|].
      destruct Hcomp as [?|[?|(? & [x Hx] & Hor)]]; [by right; left|by left|].
      right; right. split; [done|]. split; [exists x; congruence|]. tauto.
    + by apply (Hoo j k).
Qed.

Section Steps.
Context (w : world) (ρs : list role) (i : nat) (ρ : role) (HI : Inv w ρs) (Hi : ρs !! i = Some ρ).

Lemma others_no_claim j ρ' :
  no_claim ρ = false → refers ρ = None → i ≠ j → ρs !! j = Some ρ' → no_claim ρ' = true.
Proof using HI Hi.
  intros Hn Hr Hij Hj. destruct (inv_compatible _ _ HI i j ρ ρ') as [?|[?|(_ & [? ?] & _)]]; congruence.
Qed.

#[local] Ltac only_claim Hρ :=
  assert (no_claim ρ = false ∧ refers ρ = None) as [Hn0 Hr0] by (by rewrite Hρ);
  assert (∀ j ρj, i ≠ j → ρs !! j = Some ρj → no_claim ρj = true) as Ho
    by (intros j ρj; by apply others_no_claim).

Lemma others_refer d j ρ' :
  refers ρ = Some d → i ≠ j → ρs !! j = Some ρ' →
  no_claim ρ' = true ∨ refers ρ' = Some d ∧ (late ρ = true → late ρ' = false).
Proof using HI Hi.
  intros Hr Hij Hj. destruct (inv_compatible _ _ HI i j ρ ρ') as [Hn|[?|(? & _ & Hl)]]; try done.
  - by destruct ρ.
  - by left.
  - right. split; [congruence|]. intros Hl'. destruct Hl; congruence.
Qed.

Lemma nobody_claims j ρ' : file_names w !! path = None → ρs !! j = Some ρ' → no_claim ρ' = true.
Proof using HI.
  intros Hp Hj. destruct (no_claim ρ') eqn:E; [done|].
  destruct (inv_claims _ _ HI j ρ' Hj E) as [? ?]. congruence.
Qed.

(** Objects other processes know about keep what they know. *)
Definition extends (w' : world) : Prop :=
  (∀ f o, files w !! f = Some o → file_final o = true → files w' !! f = Some o) ∧
  (∀ d o, shms w !! d = Some o → shm_final o = true →
     ∃ o', shms w' !! d = Some o' ∧ shm_final o' = true).

Lemma final_shm_extends w' d : extends w' → final_shm w d → final_shm w' d.
Proof. intros [_ He] (Hd & o & Ho & Hf). split; [done|]. destruct (He d o Ho Hf) as (o' & ? & ?). eauto. Qed.

Lemma no_claim_fact w' ρ' : extends w' → no_claim ρ' = true → fact w ρ' → fact w' ρ'.
Proof.
  intros He. destruct ρ'; try done; cbn; intros _.
  - intros (? & o & Ho & Hf & ->). split; [done|]. exists o. split; [by apply He|done].
  - by apply final_shm_extends.
Qed.

(** A process without claims learns something. *)
Lemma learn ρ' : no_claim ρ = true → no_claim ρ' = true → fact w ρ' → Inv w (<[i := ρ']> ρs).
Proof using HI Hi.
  intros Hn Hn' Hf. pose proof HI as [? ? ? ? ? ? HF HC Hco Hcn].
  assert (∀ d, references d (<[i := ρ']> ρs) = references d ρs) as Hrf.
  { intros d. apply (references_same d ρs i ρ); [done|]. by destruct ρ, ρ'. }
  apply Inv_insert; try done.
  - congruence.
  - intros j ρj Hij Hj. split; [by apply (HF j)|]. split; [by apply (HC j)|by left].
  - intros j k ρ1 ρ2 Hjk _ _. by apply Hco.
  - intros d o Hd Ho Hfin. rewrite Hrf. by apply Hcn.
Qed.

Lemma same_role : Inv w (<[i := ρ]> ρs).
Proof using HI Hi. by rewrite list_insert_id. Qed.

(** A process that is the only one with a claim, before and after its step. *)
Lemma references_alone d ρ' :
  (∀ j ρj, i ≠ j → ρs !! j = Some ρj → no_claim ρj = true) →
  references d (<[i := ρ']> ρs) = counts d ρ'.
Proof using Hi.
  intros Ho. pose proof (references_insert d ρs i ρ ρ' Hi) as H.
  pose proof (references_insert d ρs i ρ Idle Hi) as H0. change (counts d Idle) with 0%nat in H0.
  enough (references d (<[i := Idle]> ρs) = 0)%nat by lia.
  destruct (decide (0 < references d (<[i := Idle]> ρs))%nat) as [Hp|]; [|lia].
  apply references_pos in Hp as (j & ρj & Hj & Hr). destruct (decide (i = j)) as [<-|Hn].
  - rewrite list_lookup_insert_eq in Hj by (by eapply lookup_lt_Some). by simplify_eq.
  - rewrite list_lookup_insert_ne in Hj by done. specialize (Ho j ρj Hn Hj). by destruct ρj.
Qed.

Lemma alone w' ρ' :
  (∀ j ρj, i ≠ j → ρs !! j = Some ρj → no_claim ρj = true) → extends w' →
  (∀ f, file_names w' !! path = Some f → (f0 ≤ f)%nat) → (f0 ≤ length (files w'))%nat →
  (∀ d, shm_names w' !! name = Some d → (d0 ≤ d)%nat) → (d0 ≤ length (shms w'))%nat →
  (∀ f o, (f0 ≤ f)%nat → files w' !! f = Some o → file_final o = true → complete (contents o)) →
  fact w' ρ' → (no_claim ρ' = false → is_Some (file_names w' !! path)) →
  (∀ d o, (d0 ≤ d)%nat → shms w' !! d = Some o → shm_final o = true →
    counter o = MARKED_FOR_DESTRUCTION ∧ refers ρ' ≠ Some d ∨
    counter o = 1 ∧ refers ρ' = Some d ∧ shm_names w' !! name = Some d) →
  Inv w' (<[i := ρ']> ρs).
Proof using HI Hi.
  intros Ho He Hf Hfs Hd Hds Hc Hfa Hcl Hcn. apply Inv_insert; try done; [apply HI|..].
  - intros j ρj Hij Hj. pose proof (Ho j ρj Hij Hj) as Hn.
    split; [apply no_claim_fact; [done..|by apply (inv_facts _ _ HI j)]|].
    split; [congruence|by right; left].
  - intros j k ρ1 ρ2 _ Hij _ Hj _. left. by apply (Ho j).
  - intros d o Hd' Hos Hfin. rewrite references_alone by done.
    destruct (Hcn d o Hd' Hos Hfin) as [[? Hr]|(? & Hr & ?)].
    + left. split; [done|]. unfold counts. by rewrite bool_decide_eq_false_2.
    + right. apply counts_one in Hr as ->. split; [done|]. split; [lia|done].
Qed.

(** Everything that is set up is given up while a single process works on the
    service. *)
Lemma alone_counters :
  (∀ j ρj, i ≠ j → ρs !! j = Some ρj → no_claim ρj = true) → refers ρ = None →
  ∀ d o, (d0 ≤ d)%nat → shms w !! d = Some o → shm_final o = true → counter o = MARKED_FOR_DESTRUCTION.
Proof using HI Hi.
  intros Ho Hr d o Hd Hos Hfin. destruct (inv_counters _ _ HI d o Hd Hos Hfin) as [[? _]|(_ & Hp & _)]; [done|].
  rewrite <- (list_insert_id _ _ _ Hi), references_alone in Hp by done.
  unfold counts in Hp. rewrite Hr in Hp. case_bool_decide; [done|lia].
Qed.

Lemma step_file_create f w' :
  no_claim ρ = true → documented w (FileCreate path) w' (Ok f) → Inv w' (<[i := Setup f]> ρs).
Proof using HI Hi.
  intros Hn (Hp & -> & ->). pose proof HI as [? ? Hfs Hsh Hss Hco ? ? ? ?].
  assert (∀ j ρj, i ≠ j → ρs !! j = Some ρj → no_claim ρj = true) as Ho.
  { intros j ρj _. by apply nobody_claims. }
  apply alone; cbn; try done.
  - split; cbn; [|by intros d o; exists o]. intros f o Hf _. by apply lookup_app_l_Some.
  - intros f. rewrite lookup_insert_eq. by intros [= <-].
  - rewrite length_app. cbn. lia.
  - intros f o Hf. rewrite lookup_app_Some. intros [Hfo|[_ Hfo]]; [by apply (Hco f)|].
    apply list_lookup_singleton_Some in Hfo as [_ <-]. done.
  - split; cbn; [by rewrite lookup_insert_eq|].
    rewrite lookup_app_r, Nat.sub_diag by lia. eexists. done.
  - intros _. rewrite lookup_insert_eq. done.
  - intros d o Hd Hos Hfin. left. split; [|done].
    eapply alone_counters; try done. by destruct ρ.
Qed.

Lemma step_file_remove r w' :
  ρ = LastFile → documented w (FileRemove path) w' r → Inv w' (<[i := Idle]> ρs).
Proof using HI Hi.
  intros Hρ Hdoc. pose proof HI as [? Hfi Hfs Hsh Hss Hco ? ? ? ?].
  only_claim Hρ.
  assert (∃ n, w' = set_files w n (files w) ∧ ∀ f, n !! path = Some f → (f0 ≤ f)%nat) as (n & -> & Hn).
  { destruct r as [[|]|]; cbn in Hdoc.
    - destruct Hdoc as [_ ->]. eexists. split; [done|]. intros f. by rewrite lookup_delete_eq.
    - destruct Hdoc as [_ ->]. exists (file_names w). by destruct w.
    - subst. exists (file_names w). by destruct w. }
  apply alone; cbn; try done.
  - split; cbn; [done|]. by intros d o; exists o.
  - intros d o Hd Hos Hfin. left. split; [|done]. by eapply alone_counters.
Qed.

Lemma step_shm_create f n r w' :
  ρ = Setup f → documented w (ShmCreate name n) w' r → Inv w' (<[i := next ρ (ShmCreate name n) r]> ρs).
Proof using HI Hi.
  intros Hρ Hdoc. pose proof HI as [? Hfi Hfs Hsh Hss Hco HF ? ? ?].
  only_claim Hρ.
  pose proof (HF i ρ Hi) as Hf. rewrite Hρ in Hf. cbn in Hf.
  assert (∀ ρ', (ρ' = Setup f ∨ ρ' = SetupShm f (length (shms w))) →
    Inv (set_shms w (<[name := length (shms w)]> (shm_names w)) (shms w ++ [mkShm 0 false n]))
      (<[i := ρ']> ρs)) as Hnew.
  { intros ρ' Hρ'. apply alone; cbn; try done.
    - split; cbn; [done|]. intros d o Hd Hfin. exists o. split; [by apply lookup_app_l_Some|done].
    - intros d. rewrite lookup_insert_eq. by intros [= <-].
    - rewrite length_app. lia.
    - destruct Hρ' as [-> | ->]; cbn; [done|]. split; [done|]. split; cbn; [by rewrite lookup_insert_eq|].
      rewrite lookup_app_r, Nat.sub_diag by lia. by eexists.
    - intros _. destruct Hf as [-> _]. done.
    - intros d o Hd. rewrite lookup_app_Some. intros [Hos|[_ Hos]] Hfin.
      + left. split; [by eapply alone_counters|]. by destruct Hρ' as [-> | ->].
      + apply list_lookup_singleton_Some in Hos as [_ <-]. done. }
  rewrite Hρ. cbn. destruct r as [[d base]|e]; cbn in Hdoc.
  - destruct Hdoc as (_ & -> & _ & _ & ->). apply Hnew. by right.
  - destruct Hdoc as [-> |[_ ->]]; [|apply Hnew; by left].
    rewrite <- Hρ. by apply same_role.
Qed.

Lemma step_shm_write f d w' :
  ρ = SetupShm f d → documented w (ShmWrite d 1) w' tt → Inv w' (<[i := SetupInit f d]> ρs).
Proof using HI Hi.
  intros Hρ (o & Hos & ->). pose proof HI as [? Hfi Hfs Hsh Hss Hco HF ? ? ?].
  only_claim Hρ.
  pose proof (HF i ρ Hi) as Hf. rewrite Hρ in Hf. destruct Hf as [Hlf (Hb & o' & Hos' & Hnf & _)].
  assert (o' = o) as -> by congruence. pose proof (lookup_lt_Some _ _ _ Hos) as Hlt.
  apply alone; cbn; try done.
  - split; cbn; [done|]. intros d' o' Hd' Hfin. destruct (decide (d = d')) as [<-|Hn]; [congruence|].
    rewrite list_lookup_insert_ne by done. by exists o'.
  - rewrite length_insert. done.
  - split; [done|]. split; [done|]. cbn. rewrite list_lookup_insert_eq by done. by eexists.
  - intros _. by destruct Hlf as [-> _].
  - intros d' o' Hd'. rewrite list_lookup_insert_Some. intros [(<- & <- & _)|[Hn Hos2]] Hfin.
    + cbn in Hfin. congruence.
    + left. split; [by eapply alone_counters|done].
Qed.

Lemma step_shm_set_permission f d r w' :
  ρ = SetupInit f d → documented w (ShmSetPermission d true) w' r →
  Inv w' (<[i := next ρ (ShmSetPermission d true) r]> ρs).
Proof using HI Hi.
  intros Hρ Hdoc. pose proof HI as [? Hfi Hfs Hsh Hss Hco HF ? ? ?].
  only_claim Hρ.
  pose proof (HF i ρ Hi) as Hf. rewrite Hρ in Hf. destruct Hf as [Hlf (Hb & o' & Hos' & Hnf & Hc1)].
  destruct r as [u|e]; cbn in Hdoc; [|subst w'; rewrite Hρ; cbn; rewrite <- Hρ; by apply same_role].
  destruct Hdoc as (o & Hos & ->). assert (o' = o) as -> by congruence.
  pose proof (lookup_lt_Some _ _ _ Hos) as Hlt. rewrite Hρ. cbn [next].
  apply alone; cbn; try done.
  - split; cbn; [done|]. intros d' o' Hd' Hfin. destruct (decide (d = d')) as [<-|Hn]; [congruence|].
    rewrite list_lookup_insert_ne by done. by exists o'.
  - rewrite length_insert. done.
  - split; [done|]. split; [by apply Hsh|]. cbn. rewrite list_lookup_insert_eq by done. by eexists.
  - intros _. by destruct Hlf as [-> _].
  - intros d' o' Hd'. rewrite list_lookup_insert_Some. intros [(<- & <- & _)|[Hn Hos2]] Hfin.
    + by right.
    + left. split; [by eapply alone_counters|congruence].
Qed.

Lemma step_shm_remove d r w' :
  ρ = Last d → documented w (ShmRemove name) w' r → Inv w' (<[i := LastFile]> ρs).
Proof using HI Hi.
  intros Hρ Hdoc. pose proof HI as [? Hfi Hfs Hsh Hss Hco HF HC ? ?].
  only_claim Hρ.
  assert (∃ n, w' = set_shms w n (shms w) ∧ ∀ d, n !! name = Some d → (d0 ≤ d)%nat) as (n & -> & Hn).
  { destruct r; cbn in Hdoc.
    - destruct Hdoc as [_ ->]. eexists. split; [done|]. intros d'. by rewrite lookup_delete_eq.
    - subst. exists (shm_names w). by destruct w. }
  apply alone; cbn; try done.
  - split; cbn; [done|]. by intros d' o; exists o.
  - intros _. by apply (HC i ρ).
  - intros d' o Hd Hos Hfin. left. split; [|done]. by eapply alone_counters.
Qed.

(** The creator works on its file while others may hold the service already. *)
Lemma files_step d fs ρ' :
  late ρ = true → refers ρ = Some d → refers ρ' = Some d → extends (set_files w (file_names w) fs) →
  (f0 ≤ length fs)%nat →
  (∀ f o, (f0 ≤ f)%nat → fs !! f = Some o → file_final o = true → complete (contents o)) →
  fact (set_files w (file_names w) fs) ρ' → Inv (set_files w (file_names w) fs) (<[i := ρ']> ρs).
Proof using HI Hi.
  intros Hl Hr Hr' He Hfs Hc Hf. pose proof HI as [? ? ? ? ? ? HF HC Hco Hcn].
  assert (no_claim ρ = false) as Hn by (by destruct ρ).
  apply Inv_insert; cbn; try done.
  - intros _. by apply (HC i ρ).
  - intros j ρj Hij Hj. split; [|split; [by apply (HC j)|]].
    + destruct (others_refer d j ρj) as [Hn'|[Hr2 Hl2]]; [done..|by apply no_claim_fact, (HF j)|].
      specialize (Hl2 Hl). pose proof (HF j ρj Hj) as Hfj. by destruct ρj.
    + destruct (others_refer d j ρj) as [Hn'|[Hr2 Hl2]]; [done..|by right; left|].
      right; right. rewrite Hr', Hr2. split; [done|]. split; [by exists d|]. right. by apply Hl2.
  - intros j k ρ1 ρ2 Hjk _ _. by apply Hco.
  - intros d' o Hd Hos Hfin. rewrite (references_same d' ρs i ρ ρ') by congruence. by apply Hcn.
Qed.

Lemma step_file_write f d c r w' :
  ρ = SetupReady f d → complete c → documented w (FileWrite f c) w' r →
  Inv w' (<[i := next ρ (FileWrite f c) r]> ρs).
Proof using HI Hi.
  intros Hρ Hc Hdoc. pose proof HI as [? Hfi Hfs Hsh Hss Hco HF HC ? ?].
  destruct r as [n|e]; cbn in Hdoc; [|subst w'; rewrite Hρ; cbn; rewrite <- Hρ; by apply same_role].
  destruct Hdoc as (o & Hos & Hn & ->).
  pose proof (HF i ρ Hi) as Hf. rewrite Hρ in Hf. destruct Hf as [(Hb & o' & Hos' & Hnf) Hd].
  assert (o' = o) as -> by congruence. pose proof (lookup_lt_Some _ _ _ Hos) as Hlt.
  apply (files_step d); cbn.
  - by rewrite Hρ.
  - by rewrite Hρ.
  - rewrite Hρ. cbn. by case_bool.
  - split; cbn; [|by intros d' o'; exists o']. intros f' o' Hf' Hfin.
    rewrite list_lookup_insert_ne by congruence. done.
  - by rewrite length_insert.
  - intros f' o' Hf'. rewrite list_lookup_insert_Some. intros [(<- & <- & _)|[_ ?]] Hfin; [|by eapply Hco].
    cbn in Hfin. congruence.
  - rewrite Hρ. cbn [next]. destruct (Z.eqb_spec n (Z.of_nat (length c))) as [->|_]; cbn.
    + rewrite list_lookup_insert_eq, Nat2Z.id, firstn_all, Hnf by done. done.
    + split; [|done]. split; [done|]. cbn. rewrite list_lookup_insert_eq by done. by eexists.
Qed.

Lemma step_file_set_permission f d c r w' :
  ρ = Written f d c → documented w (FileSetPermission f) w' r →
  Inv w' (<[i := next ρ (FileSetPermission f) r]> ρs).
Proof using HI Hi.
  intros Hρ Hdoc. pose proof HI as [? Hfi Hfs Hsh Hss Hco HF HC ? ?].
  destruct r as [u|e]; cbn in Hdoc; [|subst w'; rewrite Hρ; cbn; rewrite <- Hρ; by apply same_role].
  destruct Hdoc as (o & Hos & ->).
  pose proof (HF i ρ Hi) as Hf. rewrite Hρ in Hf. destruct Hf as (Hb & Hos' & Hc & Hd).
  assert (o = mkFile c false) as -> by congruence. pose proof (lookup_lt_Some _ _ _ Hos) as Hlt.
  apply (files_step d); cbn.
  - by rewrite Hρ.
  - by rewrite Hρ.
  - by rewrite Hρ.
  - split; cbn; [|by intros d' o'; exists o']. intros f' o' Hf' Hfin.
    rewrite list_lookup_insert_ne by (intros <-; rewrite Hos in Hf'; by injection Hf' as <-). done.
  - by rewrite length_insert.
  - intros f' o' Hf'. rewrite list_lookup_insert_Some. intros [(<- & <- & _)|[_ ?]] Hfin; [done|by eapply Hco].
  - by rewrite Hρ.
Qed.

(** The counter of a finished object. *)
Lemma counter_bounds d o :
  (d0 ≤ d)%nat → shms w !! d = Some o → shm_final o = true →
  0 ≤ counter o ≤ MARKED_FOR_DESTRUCTION ∧ (refers ρ = Some d → 1 ≤ counter o).
Proof using HI Hi.
  intros Hd Hos Hfin. pose proof (inv_few _ _ HI) as Hfew. pose proof (references_le d ρs) as Hle.
  destruct (inv_counters _ _ HI d o Hd Hos Hfin) as [[-> Hz]|(-> & Hp & _)].
  - split; [unfold MARKED_FOR_DESTRUCTION; lia|]. intros Hr.
    assert (0 < references d ρs)%nat by (apply references_pos; eauto). lia.
  - split; [lia|]. lia.
Qed.

(** [d] is in use: every claim is a reference to it. *)
Lemma in_use d o j ρj :
  (d0 ≤ d)%nat → shms w !! d = Some o → shm_final o = true → counter o ≠ MARKED_FOR_DESTRUCTION →
  ρs !! j = Some ρj → no_claim ρj = true ∨ refers ρj = Some d.
Proof using HI.
  intros Hd Hos Hfin Hm Hj. destruct (inv_counters _ _ HI d o Hd Hos Hfin) as [[? _]|(_ & Hp & _)]; [done|].
  apply references_pos in Hp as (k & ρk & Hk & Hr). destruct (decide (j = k)) as [->|Hjk].
  - right. congruence.
  - destruct (inv_compatible _ _ HI j k ρj ρk Hjk Hj Hk) as [?|[Hn|(? & _)]]; [by left| |right; congruence].
    by destruct ρk.
Qed.

Definition set_counter (d : nat) (o : shm) (c : Z) : world :=
  set_shms w (shm_names w) (<[d := mkShm c (shm_final o) (shm_size o)]> (shms w)).

Lemma set_counter_extends d o c : shms w !! d = Some o → extends (set_counter d o c).
Proof.
  intros Hos. pose proof (lookup_lt_Some _ _ _ Hos). split; cbn; [done|]. intros d' o' Ho' Hf.
  destruct (decide (d = d')) as [<-|Hn].
  - rewrite list_lookup_insert_eq by done. eexists. split; [done|]. cbn. congruence.
  - rewrite list_lookup_insert_ne by done. by exists o'.
Qed.

(** Taking or giving back a reference that is not the last one. *)
Lemma counter_step d o c ρ' :
  (d0 ≤ d)%nat → shms w !! d = Some o → shm_final o = true → counter o ≠ MARKED_FOR_DESTRUCTION →
  (ρ' = Holder d ∨ ρ' = Idle) →
  c = Z.of_nat (references d (<[i := ρ']> ρs)) → (0 < c) → refers ρ = Some d ∨ no_claim ρ = true →
  Inv (set_counter d o c) (<[i := ρ']> ρs).
Proof using HI Hi.
  intros Hd Hos Hfin Hm Hρ' -> Hpos Hρ. pose proof HI as [? ? ? ? ? ? HF HC Hco Hcn].
  pose proof (lookup_lt_Some _ _ _ Hos) as Hlt.
  pose proof (set_counter_extends d o (Z.of_nat (references d (<[i := ρ']> ρs))) Hos) as He.
  assert (∃ j ρj, ρs !! j = Some ρj ∧ refers ρj = Some d) as (k & ρk & Hk & Hrk).
  { apply references_pos. destruct (Hcn d o Hd Hos Hfin) as [[? _]|(_ & ? & _)]; done. }
  apply Inv_insert; cbn; try done.
  - by rewrite length_insert.
  - assert (final_shm (set_counter d o (Z.of_nat (references d (<[i := ρ']> ρs)))) d).
    { apply (final_shm_extends _ _ He). split; [done|]. by exists o. }
    by destruct Hρ' as [-> | ->].
  - intros _. apply (HC k ρk Hk). by destruct ρk.
  - intros j ρj Hij Hj. pose proof (HF j ρj Hj) as Hfj.
    destruct (in_use d o j ρj) as [Hn|Hr]; try done.
    + split; [by apply no_claim_fact|]. split; [congruence|by right; left].
    + split; [destruct ρj; try done; cbn in *|split; [by apply (HC j)|]].
      * split; [apply Hfj|]. apply (final_shm_extends _ _ He), Hfj.
      * destruct Hfj as (? & ? & ? & Hfj). split_and!; try done. by apply (final_shm_extends _ _ He).
      * by apply (final_shm_extends _ _ He).
      * destruct Hρ' as [-> | ->]; [|by left]. right; right. rewrite Hr. split; [done|].
        split; [by exists d|by left].
  - intros j k' ρ1 ρ2 Hjk _ _. by apply Hco.
  - intros d' o' Hd'. rewrite list_lookup_insert_Some. intros [(<- & <- & _)|[Hn Hos']] Hf'.
    + right. cbn. split; [done|]. split; [lia|].
      destruct (Hcn d o Hd Hos Hfin) as [[? _]|(_ & _ & ?)]; done.
    + assert (references d' (<[i := ρ']> ρs) = references d' ρs) as ->; [|by apply Hcn].
      pose proof (references_insert d' ρs i ρ ρ' Hi) as Href.
      assert (counts d' ρ' = 0 ∧ counts d' ρ = 0)%nat as [? ?]; [|lia].
      unfold counts. rewrite !bool_decide_eq_false_2; [done| |].
      * destruct Hρ as [-> |Hnc]; [congruence|]. by destruct ρ.
      * destruct Hρ' as [-> | ->]; cbn; congruence.
Qed.

Lemma step_last d o :
  ρ = Holder d → (d0 ≤ d)%nat → shms w !! d = Some o → shm_final o = true → counter o = 1 →
  Inv (set_counter d o MARKED_FOR_DESTRUCTION) (<[i := Last d]> ρs).
Proof using HI Hi.
  intros Hρ Hd Hos Hfin H1. pose proof HI as [? ? ? ? ? Hc HF HC ? Hcn].
  assert (refers ρ = Some d) as Hr by (by rewrite Hρ).
  assert (references d ρs = 1%nat ∧ shm_names w !! name = Some d) as [Hone Hb].
  { destruct (Hcn d o Hd Hos Hfin) as [[Hm _]|(? & _ & ?)].
    - rewrite H1 in Hm. by vm_compute in Hm.
    - split; [lia|done]. }
  apply alone; cbn; try done.
  - intros j ρj Hij Hj. destruct (others_refer d j ρj) as [?|[Hr' _]]; [done..|].
    by destruct (references_one d ρs i j ρ ρj).
  - by apply set_counter_extends.
  - by rewrite length_insert.
  - intros _. apply (HC i ρ Hi). by rewrite Hρ.
  - intros d' o' Hd'. rewrite list_lookup_insert_Some. intros [(<- & <- & _)|[Hn Hos']] Hf'; [by left|].
    left. split; [|done]. destruct (Hcn d' o' Hd' Hos' Hf') as [[? _]|(_ & _ & ?)]; [done|congruence].
Qed.

Lemma step_cas d cur new r w' :
  allowed ρ (CounterCas d cur new) → documented w (CounterCas d cur new) w' r →
  answers ρ (CounterCas d cur new) r ∧ Inv w' (<[i := next ρ (CounterCas d cur new) r]> ρs).
Proof using HI Hi.
  intros Ha (o & Hos & -> & ->). pose proof (inv_facts _ _ HI i ρ Hi) as Hf.
  assert (final_shm w d) as (Hd & o' & Hos' & Hfin).
  { destruct Ha as [[Hρ _]|[Hρ _]]; rewrite Hρ in Hf; exact Hf. }
  assert (o' = o) as -> by congruence. pose proof (counter_bounds d o Hd Hos Hfin) as [Hb Hb1].
  pose proof (inv_few _ _ HI) as Hfew. pose proof (references_le d (<[i := Holder d]> ρs)) as Hle.
  rewrite length_insert in Hle. unfold compare_exchange.
  destruct (Z.eqb_spec (counter o) cur) as [<-|Hne].
  - cbn [fst snd]. split; [done|]. fold (set_counter d o new).
    pose proof (inv_counters _ _ HI d o Hd Hos Hfin) as Hcn.
    destruct Ha as [(Hρ & Hm & ->)|(Hρ & ->)].
    + destruct Hcn as [[? _]|(Hc & _ & _)]; [done|]. rewrite Hρ. cbn.
      pose proof (references_insert d ρs i ρ (Holder d) Hi) as Href.
      rewrite (counts_no_claim d ρ) in Href by (by rewrite Hρ).
      assert (counts d (Holder d) = 1%nat) as Hc1 by (by apply counts_one).
      apply counter_step; try done; [by left|lia..|right; by rewrite Hρ].
    + assert (refers ρ = Some d) as Hr by (by rewrite Hρ).
      rewrite Hρ. cbn. destruct (Z.eqb_spec (counter o) 1) as [H1|H1]; [by apply step_last|].
      pose proof (references_insert d ρs i ρ Idle Hi) as Href. change (counts d Idle) with 0%nat in Href.
      apply counts_one in Hr as Hcr. destruct Hcn as [[Hm Hz]|(Hc & _ & _)].
      * assert (0 < references d ρs)%nat by (apply references_pos; eauto). lia.
      * pose proof (references_le d ρs). apply counter_step; try done; [lia|by right|lia..|by left].
  - cbn [fst snd]. split; [split; [done|]; intros ->; by apply Hb1|].
    replace (set_shms w (shm_names w) (<[d := mkShm (counter o) (shm_final o) (shm_size o)]> (shms w))) with w.
    + assert (next ρ (CounterCas d cur new) (Err (counter o)) = ρ) as -> by (by destruct ρ).
      by apply same_role.
    + destruct o. cbn. rewrite list_insert_id by done. by destruct w.
Qed.
End Steps.

(** Directories do not matter. *)
Lemma Inv_directories w dirs ρs :
  Inv w ρs → Inv (mkWorld dirs (file_names w) (files w) (shm_names w) (shms w)) ρs.
Proof. destruct w. intros []. by constructor. Qed.

(** Every step keeps the invariant. *)
Lemma protocol_inv w w' ρs i ρ q r :
  Inv w ρs → ρs !! i = Some ρ → allowed ρ q → documented w q w' r → Inv w' (<[i := next ρ q r]> ρs).
Proof.
  intros HI Hi Ha Hdoc.
  assert (w' = w → next ρ q r = ρ → Inv w' (<[i := next ρ q r]> ρs)) as Hsame.
  { intros -> ->. by apply same_role. }
  pose proof (inv_facts _ _ HI i ρ Hi) as Hf.
  destruct q; try (by apply Hsame); try (destruct Hdoc as [? _]; by apply Hsame).
  - destruct Hdoc as [?|[_ ->]]; [by apply Hsame|]. apply Inv_directories. by apply same_role.
  - destruct Ha as [-> Hn]. destruct r as [f|]; [|by apply Hsame].
    cbn in Hdoc |- *. destruct Hdoc as [? ?]. by eapply step_file_create.
  - destruct Ha as [-> Hn]. destruct Hdoc as [-> Hr]. destruct r as [f|]; [|by apply Hsame].
    eapply learn; try done. cbn. by apply (inv_file _ _ HI).
  - destruct Hdoc as [-> Hr]. destruct ρ; try by apply Hsame. cbn.
    destruct r as [m|]; [|by apply Hsame]. destruct Hr as (o & Ho & ->).
    destruct (bool_decide _ && _) eqn:E; [|by apply same_role].
    apply andb_prop in E as [E1 E2]. apply bool_decide_eq_true in E1 as ->.
    eapply learn; try done. split; [done|]. by exists o.
  - destruct Ha as [Hc [d ->]]. by eapply step_file_write.
  - destruct Ha as (d & c & ->). by eapply step_file_set_permission.
  - destruct Ha as [-> ->]. by eapply step_file_remove.
  - destruct Ha as [-> [f ->]]. by eapply step_shm_create.
  - destruct Ha as [-> Hn]. destruct Hdoc as [-> Hr]. destruct r as [[d n]|]; [|by apply Hsame].
    eapply learn; try done. cbn. by apply (inv_shm _ _ HI), Hr.
  - destruct Ha as [-> [f ->]]. destruct r. by eapply step_shm_write.
  - destruct Ha as [-> [f ->]]. by eapply step_shm_set_permission.
  - destruct Hdoc as [-> Hr]. destruct ρ; try by apply Hsame. cbn.
    destruct r as [[|]|]; [|by apply Hsame..]. destruct Hr as (o & Ho & Hfin).
    case_bool_decide as E; [subst|by apply same_role].
    eapply learn; try done. split; [done|]. by exists o.
  - destruct Ha as [-> [d ->]]. by eapply step_shm_remove.
  - by eapply step_cas.
Qed.

(** While somebody sets up the service, its dynamic storage does not exist. *)
Lemma setup_no_shm w ρs i ρ :
  Inv w ρs → Clean w ρs → ρs !! i = Some ρ → no_claim ρ = false → refers ρ = None →
  (∀ d, ¬ claims_shm ρ d) → shm_names w !! name = None.
Proof.
  intros HI HC Hi Hn Hr Hcl. destruct (shm_names w !! name) as [d|] eqn:E; [|done].
  destruct (clean_shm _ _ HC d E) as (j & ρj & Hj & Hcj). destruct (decide (i = j)) as [<-|Hij].
  - assert (ρj = ρ) as -> by congruence. by destruct (Hcl d).
  - pose proof (others_no_claim w ρs i ρ HI Hi j ρj Hn Hr Hij Hj). by destruct ρj.
Qed.

(** The process that makes a step may rely on the answer. *)
Lemma protocol_answers w w' ρs i ρ q r :
  Inv w ρs → (strict → Clean w ρs ∧ reliable w q w' r) → ρs !! i = Some ρ → allowed ρ q →
  documented w q w' r → answers ρ q r.
Proof.
  intros HI HC Hi Ha Hdoc. pose proof (inv_facts _ _ HI i ρ Hi) as Hf.
  destruct q; try done.
  - intros Hs. destruct (HC Hs) as [_ Hrel]. destruct Ha as [_ [d ->]]. destruct Hf as [(_ & o & Ho & _) _].
    by apply Hrel.
  - intros Hs. destruct (HC Hs) as [_ Hrel]. destruct Ha as (d & c & ->). destruct Hf as (_ & Ho & _).
    by apply Hrel.
  - destruct Hdoc as [-> Hr]. cbn. destruct r as [c|]; [|done].
    intros ->. destruct Hf as (Hf0 & o & Ho & Hfin & ->). destruct Hr as (o' & Ho' & ->).
    assert (o' = o) as -> by congruence. rewrite Nat2Z.id, firstn_all. by eapply (inv_complete _ _ HI).
  - intros Hs. destruct (HC Hs) as [Hcl Hrel]. destruct Ha as [-> [f ->]].
    destruct r as [x|]; [by exists x|]. destruct Hrel as [_ [d Hd]].
    rewrite (setup_no_shm w ρs i (Setup f)) in Hd; try done. by intros d' [].
  - intros Hs. destruct (HC Hs) as [_ Hrel]. destruct Ha as [_ [f ->]]. destruct Hf as (_ & _ & o & Ho & _).
    by apply Hrel.
  - destruct Hdoc as [-> (o & Ho & ->)].
    assert (final_shm w d) as (Hd & o' & Hos' & Hfin).
    { destruct Ha as [Hρ|Hρ]; rewrite Hρ in Hf; exact Hf. }
    assert (o' = o) as -> by congruence.
    destruct (counter_bounds w ρs i ρ HI Hi d o Hd Ho Hfin) as [Hb Hb1]. split; [done|].
    intros ->. by apply Hb1.
  - by eapply step_cas.
Qed.

(** ** Nothing is left behind *)

(** The process keeps its claims and the names stay. *)
Lemma clean_keep w w' ρs i ρ ρ' :
  Clean w ρs → ρs !! i = Some ρ →
  file_names w' !! path = file_names w !! path → shm_names w' !! name = shm_names w !! name →
  (no_claim ρ = false → no_claim ρ' = false) → (∀ d, claims_shm ρ d → claims_shm ρ' d) →
  Clean w' (<[i := ρ']> ρs).
Proof.
  intros [HCf HCs] Hi Hf Hs Hn Hc. pose proof (lookup_lt_Some _ _ _ Hi) as Hlt.
  assert (∀ Pr : role → Prop, (Pr ρ → Pr ρ') → (∃ j ρj, ρs !! j = Some ρj ∧ Pr ρj) →
            ∃ j ρj, <[i := ρ']> ρs !! j = Some ρj ∧ Pr ρj) as Hex.
  { intros Pr HP (j & ρj & Hj & Hpr). destruct (decide (i = j)) as [<-|Hij].
    - exists i, ρ'. rewrite list_lookup_insert_eq by done. split; [done|]. apply HP. congruence.
    - exists j, ρj. by rewrite list_lookup_insert_ne. }
  split.
  - rewrite Hf. intros Hsome. apply (Hex (λ ρ, no_claim ρ = false)); [done|]. by apply HCf.
  - intros d. rewrite Hs. intros Hd. apply (Hex (λ ρ, claims_shm ρ d)); [apply Hc|]. by apply HCs.
Qed.

Lemma clean_names w w' ρs :
  Clean w ρs → file_names w' !! path = file_names w !! path → shm_names w' !! name = shm_names w !! name →
  Clean w' ρs.
Proof. intros [HCf HCs] Hf Hs. split; [by rewrite Hf|]. intros d. rewrite Hs. apply HCs. Qed.

(** The process has the claims that are needed. *)
Lemma clean_own w' ρs i ρ' :
  (i < length ρs)%nat → no_claim ρ' = false → (∀ d, shm_names w' !! name = Some d → claims_shm ρ' d) →
  Clean w' (<[i := ρ']> ρs).
Proof.
  intros Hlt Hn Hc. split.
  - intros _. exists i, ρ'. by rewrite list_lookup_insert_eq.
  - intros d Hd. exists i, ρ'. rewrite list_lookup_insert_eq by done. auto.
Qed.

(** Giving back a reference that is not the last one. *)
Lemma clean_release w ρs i d o :
  Inv w ρs → Clean w ρs → ρs !! i = Some (Holder d) → (d0 ≤ d)%nat → shms w !! d = Some o →
  shm_final o = true → counter o ≠ 1 → Clean w (<[i := Idle]> ρs).
Proof.
  intros HI HC Hi Hd Ho Hfin H1.
  pose proof (references_insert d ρs i _ Idle Hi) as Href. change (counts d Idle) with 0%nat in Href.
  rewrite (proj2 (counts_one d (Holder d))) in Href by done.
  assert (0 < references d (<[i := Idle]> ρs))%nat as Hpos.
  { destruct (inv_counters _ _ HI d o Hd Ho Hfin) as [[_ Hz]|(Hc & _)]; lia. }
  assert (shm_names w !! name = Some d) as Hb.
  { destruct (inv_counters _ _ HI d o Hd Ho Hfin) as [[_ Hz]|(_ & _ & Hb)]; [lia|done]. }
  apply references_pos in Hpos as (j & ρj & Hj & Hr). split.
  - intros _. exists j, ρj. split; [done|]. by destruct ρj.
  - intros d' Hd'. exists j, ρj. split; [done|]. destruct ρj; cbn in *; congruence.
Qed.

Lemma protocol_clean w w' ρs i ρ q r :
  Inv w ρs → Clean w ρs → reliable w q w' r → ρs !! i = Some ρ → allowed ρ q → documented w q w' r →
  Clean w' (<[i := next ρ q r]> ρs).
Proof.
  intros HI HC Hrel Hi Ha Hdoc. pose proof (lookup_lt_Some _ _ _ Hi) as Hlt.
  pose proof (inv_facts _ _ HI i ρ Hi) as Hf.
  assert (w' = w → (no_claim ρ = false → next ρ q r = ρ) → Clean w' (<[i := next ρ q r]> ρs)) as Hsame.
  { intros -> Hk. apply (clean_keep w _ ρs i ρ); try done.
    - intros Hn. by rewrite (Hk Hn).
    - intros d Hc. rewrite Hk; [done|]. by destruct ρ. }
  destruct q; try (by apply Hsame); try (destruct Hdoc as [? _]; by apply Hsame).
  - destruct Hdoc as [?|[_ ->]]; [by apply Hsame|]. by eapply clean_keep.
  - destruct Ha as [-> Hn]. destruct r as [f|]; [|by apply Hsame]. destruct Hdoc as (Hp & -> & ->).
    apply clean_own; [done..|]. cbn. intros d Hd. destruct (clean_shm _ _ HC d Hd) as (j & ρj & Hj & Hcj).
    pose proof (nobody_claims w ρs HI j ρj Hp Hj). by destruct ρj.
  - destruct Ha as [-> Hn]. destruct Hdoc as [-> _]. apply Hsame; [done|]. congruence.
  - destruct Hdoc as [-> _]. apply Hsame; [done|]. by destruct ρ.
  - destruct Ha as [Hc [d ->]]. destruct r as [n|]; [|by apply Hsame].
    destruct Hdoc as (o & Ho & Hn & ->). eapply clean_keep; try done; cbn; by case_bool.
  - destruct Ha as (d & c & ->). destruct r as [u|]; [|by apply Hsame]. destruct Hdoc as (o & Ho & ->).
    by eapply clean_keep.
  - destruct Ha as [-> ->]. destruct Hrel as [b ->].
    assert (file_names w' !! path = None ∧ shm_names w' = shm_names w) as [Hnf Hns].
    { destruct b; cbn in Hdoc; destruct Hdoc as [Hd ->]; cbn; [by rewrite lookup_delete_eq|done]. }
    split; cbn [next].
    + rewrite Hnf. by intros [].
    + intros d. rewrite Hns, (setup_no_shm w ρs i LastFile); try done. by intros d' [].
  - destruct Ha as [-> [f ->]]. destruct r as [[d base]|]; [|by apply Hsame; [apply Hrel|]].
    destruct Hdoc as (_ & -> & _ & _ & ->). cbn. apply clean_own; [done..|]. cbn. intros d.
    rewrite lookup_insert_eq. by intros [= <-].
  - destruct Ha as [-> Hn]. destruct Hdoc as [-> _]. apply Hsame; [done|]. congruence.
  - destruct Ha as [-> [f ->]]. destruct Hdoc as (o & Ho & ->). by eapply clean_keep.
  - destruct Ha as [-> [f ->]]. destruct r as [u|]; [|by apply Hsame]. destruct Hdoc as (o & Ho & ->).
    by eapply clean_keep.
  - destruct Hdoc as [-> _]. apply Hsame; [done|]. by destruct ρ.
  - destruct Ha as [-> [d ->]]. rewrite Hrel in Hdoc by (by exists d). destruct Hdoc as [_ ->].
    cbn. apply clean_own; [done..|]. cbn. intros d'. by rewrite lookup_delete_eq.
  - destruct Hdoc as (o & Ho & -> & ->). cbn [next].
    assert (final_shm w d) as (Hd & o' & Hos' & Hfin).
    { destruct Ha as [[Hρ _]|[Hρ _]]; rewrite Hρ in Hf; exact Hf. }
    assert (o' = o) as -> by congruence.
    unfold compare_exchange. destruct (Z.eqb_spec (counter o) current) as [<-|Hne]; cbn.
    + destruct Ha as [(-> & Hm & ->)|(-> & ->)]; [by eapply clean_keep|].
      destruct (Z.eqb_spec (counter o) 1) as [H1|H1]; [by eapply clean_keep|].
      apply (clean_names w); [by eapply clean_release|done..].
    + eapply clean_keep; try done; by destruct ρ.
Qed.
End Protocol.
