(* ===== verification/ServiceSessions.v ===== *)
(** * The programs of [ServiceBuilder] follow the roles of [ServiceLifecycle]

    One lemma per operation of the storages and the builders: started in a role that
    may call it, it makes only calls its role allows, and ends in the role its result
    says. *)

From S2P Require Import Prelude Elementary BumpAllocator ByteString SemanticString SystemTypes NamedConcept.
From S2P Require Import Processes Storages DynamicConfig ServiceConfig ServiceBuilder ServiceLifecycle.

Import Naming.
Import Bytes(FixedSizeByteString).

Section Sessions.
Context `{P : Profile} {Env : Settings} {S : Serializer} {SL : SerializerLaws S}.
Context (id_layout : Layout) (size_of_DynamicConfig : Z) (fuel : nat).

(** ** The resources of a service *)

(** The path of its static storage and the name of its dynamic storage. *)
Definition static_path (b : BuilderWithServiceType) : outcome (list Z) :=
  let! cfg := static_config_storage_config (global_config b) in
  let! n := unwrap (Semantic.new FileName (uuid (service_config b))) in
  let! fp := path_for cfg n in
  Bytes.as_bytes fp.

Definition dynamic_name (b : BuilderWithServiceType) : outcome (list Z) :=
  let! n := dynamic_config_storage_name (service_config b) in
  let! cfg := dynamic_config_storage_config (global_config b) in
  let! fn := full_name cfg n in
  Bytes.as_bytes fn.

Context (path name : list Z) (offered : StaticConfig → Prop) (strict : Prop).

(** On a [reliable] operating system nothing else fails either. *)
Context (serializes : strict → ∀ c, offered c → serialize c ≠ Return (Err tt)).

Definition resources (b : BuilderWithServiceType) : Prop :=
  static_path b = Return path ∧ dynamic_name b = Return name.

(** The complete contents of a static storage: configurations that were offered. *)
Definition complete (bytes : list Z) : Prop := ∃ c, offered c ∧ serialize c = Return (Ok bytes).

#[local] Notation wp := (wp path name complete strict).

(** The storage with this name and configuration is the static storage. *)
Definition at_path (cfg : Configuration) (n : FixedSizeByteString) : Prop :=
  ∃ fp, path_for cfg n = Return fp ∧ Bytes.as_bytes fp = Return path.
Definition at_name (cfg : Configuration) (n : FixedSizeByteString) : Prop :=
  ∃ fn, full_name cfg n = Return fn ∧ Bytes.as_bytes fn = Return name.

Lemma static_path_at b cfg n :
  resources b → static_config_storage_config (global_config b) = Return cfg →
  unwrap (Semantic.new FileName (uuid (service_config b))) = Return n → at_path cfg n.
Proof.
  intros [Hp _] Hc Hn. unfold static_path in Hp. rewrite Hc in Hp. cbn [obind] in Hp. rewrite Hn in Hp.
  cbn [obind] in Hp. destruct (path_for cfg n) as [fp| |] eqn:E; try done. by exists fp.
Qed.

Lemma dynamic_name_at b cfg n :
  resources b → dynamic_config_storage_name (service_config b) = Return n →
  dynamic_config_storage_config (global_config b) = Return cfg → at_name cfg n.
Proof.
  intros [_ Hp] Hn Hc. unfold dynamic_name in Hp. rewrite Hn in Hp. cbn [obind] in Hp. rewrite Hc in Hp.
  cbn [obind] in Hp. destruct (full_name cfg n) as [fp| |] eqn:E; try done. by exists fp.
Qed.

#[local] Ltac wp_call r :=
  let Hr := fresh "Hr" in apply wp_call; [|intros r Hr; cbn [next]; cbn beta iota].
#[local] Ltac failed := first [done | by intros ? ? ? ? | by intros ? ? ? | by intros ? ? | by intros ?].
#[local] Ltac wp_pure x Hx := apply wp_bind, wp_lift; intros x Hx.

Implicit Types (ρ : role) (st : StaticFile.Storage) (ds : DynamicShm.Storage).

(** ** Static storage *)

Lemma wp_storage_path ρ cfg n (Q : role → list Z → Prop) :
  at_path cfg n → Q ρ path → wp ρ (StaticFile.storage_path cfg n) Q.
Proof. intros (fp & Hp & Hb) HQ. unfold StaticFile.storage_path. rewrite Hp. cbn. by rewrite Hb. Qed.

Lemma wp_static_drop_released ρ st (Q : role → unit → Prop) :
  StaticFile.s_has_ownership st = false → Q ρ tt → wp ρ (StaticFile.drop st) Q.
Proof. intros Ho HQ. unfold StaticFile.drop. by rewrite Ho. Qed.

Lemma wp_does_exist ρ cfg n (Q : role → _ → Prop) :
  at_path cfg n → no_claim ρ = true → (∀ ρ' r, no_claim ρ' = true → Q ρ' r) →
  wp ρ (StaticFile.does_exist_cfg n cfg) Q.
Proof.
  intros Hp Hn HQ. unfold StaticFile.does_exist_cfg. apply wp_bind, wp_storage_path; [done|].
  wp_call r; [done|]. destruct r as [[|]|]; try by apply HQ.
  wp_call r; [done|]. destruct r as [f|]; [|by apply HQ].
  wp_call r; [done|]. destruct r as [m|]; [|by apply HQ].
  assert (no_claim (if bool_decide (f = f) && has_final_permission m then Found f (file_size m) else Looking f)
          = true) by (by destruct (bool_decide _ && _)).
  destruct (is_regular_file m && _); by apply HQ.
Qed.

Lemma wp_static_open ρ b (Q : role → _ → Prop) :
  at_path (StaticFile.config b) (StaticFile.storage_name b) → no_claim ρ = true →
  (∀ ρ' e, no_claim ρ' = true → Q ρ' (Err e)) →
  (∀ f n, Q (Found f n) (Ok (StaticFile.mkStorage (StaticFile.storage_name b) (StaticFile.config b)
                               (StaticFile.has_ownership b) f n))) →
  wp ρ (StaticFile.open b) Q.
Proof.
  intros Hp Hn HE HO. unfold StaticFile.open. apply wp_bind, wp_storage_path; [done|].
  wp_call r; [done|]. destruct r as [f|]; [|by apply HE].
  wp_call r; [done|]. destruct r as [m|]; [|by apply HE].
  rewrite bool_decide_eq_true_2 by done. cbn. destruct (has_final_permission m); cbn; [apply HO|by apply HE].
Qed.

(** Reading an unlocked storage into a buffer of its length gives a complete
    content. *)
Lemma wp_static_read st (Q : role → _ → Prop) ρ :
  ρ = Found (StaticFile.s_file st) (StaticFile.s_len st) →
  (∀ e c, Q ρ (Err e, c)) → (∀ c, complete c → Q ρ (Ok tt, c)) →
  wp ρ (StaticFile.read st (replicate (Z.to_nat (StaticFile.s_len st)) 32)) Q.
Proof.
  intros Hρ HE HO. unfold StaticFile.read. rewrite length_replicate. case_bool; [apply HE|].
  wp_call r; [done|]. destruct r as [bytes|]; [|apply HE].
  lazymatch goal with |- context [negb ?x] => destruct x eqn:Hl end; [apply Z.eqb_eq in Hl|apply HE].
  cbn.
  rewrite skipn_all2 by (rewrite length_replicate; lia). rewrite app_nil_r. apply HO.
  cbn in Hr. apply Hr. rewrite Hρ. f_equal. lia.
Qed.

Lemma wp_create_locked ρ b (Q : role → _ → Prop) :
  at_path (StaticFile.config b) (StaticFile.storage_name b) → no_claim ρ = true →
  (∀ e, Q ρ (Err e)) →
  (∀ f, Q (Setup f) (Ok (StaticFile.mkStorage (StaticFile.storage_name b) (StaticFile.config b)
                           (StaticFile.has_ownership b) f 0))) →
  wp ρ (StaticFile.create_locked b) Q.
Proof.
  intros Hp Hn HE HO. unfold StaticFile.create_locked, StaticFile.path_bytes. wp_pure dir Hdir.
  wp_call r; [done|].
  assert (∀ r : result unit unit, wp ρ
    (match r with
     | Err _ => ret (Err StaticCreation)
     | Ok _ =>
         let* file_path := StaticFile.storage_path (StaticFile.config b) (StaticFile.storage_name b) in
         let* r := call (FileCreate file_path) in
         match r with
         | Err FileAlreadyExists => ret (Err StaticAlreadyExists)
         | Err FileCreateInsufficientPermissions => ret (Err StaticCreateInsufficientPermissions)
         | Err FileCreateOther => ret (Err StaticCreation)
         | Ok file => ret (Ok (StaticFile.mkStorage (StaticFile.storage_name b) (StaticFile.config b)
                                 (StaticFile.has_ownership b) file 0))
         end
     end) Q) as Hrest.
  { intros [u|]; [|by apply HE]. apply wp_bind, wp_storage_path; [done|].
    wp_call r2; [done|]. destruct r2 as [f|[| |]]; [apply HO|by apply HE..]. }
  destruct r as [[|]|]; cbn [pbind ret]; [apply (Hrest (Ok tt))| |apply (Hrest (Err tt))].
  wp_call r'; [done|]. apply Hrest.
Qed.

(** Unlocking: success makes the creator a holder. *)
Lemma wp_unlock st c f d (Q : role → _ → Prop) :
  StaticFile.s_has_ownership st = false → StaticFile.s_file st = f → complete c →
  (∀ ρ e, ¬ strict → Q ρ (Err e)) →
  (Q (Holder d) (Ok (StaticFile.mkStorage (StaticFile.s_name st) (StaticFile.s_config st) false f
                       (Z.of_nat (length c))))) →
  wp (SetupReady f d) (StaticFile.unlock st c) Q.
Proof.
  intros Ho Hfile Hc HE HO. unfold StaticFile.unlock. rewrite Hfile.
  wp_call r; [split; [done|by exists d]|]. destruct r as [n|e].
  - destruct (Z.eqb_spec n (Z.of_nat (length c))) as [->|Hn]; cbn [negb].
    + wp_call r; [by exists d, c|]. destruct r as [u|e].
      * rewrite Ho. apply HO.
      * apply wp_bind, wp_static_drop_released; [done|]. apply HE. by intros ?%Hr0.
    + apply wp_bind, wp_static_drop_released; [done|]. apply HE. by intros [= ->]%Hr.
  - apply wp_bind, wp_static_drop_released; [done|]. apply HE. by intros ?%Hr.
Qed.

(** ** Dynamic storage *)

Lemma wp_storage_full_name ρ cfg n (Q : role → list Z → Prop) :
  at_name cfg n → Q ρ name → wp ρ (DynamicShm.storage_full_name cfg n) Q.
Proof. intros (fp & Hp & Hb) HQ. unfold DynamicShm.storage_full_name. rewrite Hp. cbn. by rewrite Hb. Qed.

Lemma wp_dynamic_drop_released ρ ds (Q : role → unit → Prop) :
  DynamicShm.shm_has_ownership (DynamicShm.d_shm ds) = false → Q ρ tt → wp ρ (DynamicShm.drop ds) Q.
Proof. intros Ho HQ. unfold DynamicShm.drop, DynamicShm.shm_drop. by rewrite Ho. Qed.

(** A handle to the object [d] that does not own it. *)
Definition borrows ds (d : nat) : Prop :=
  DynamicShm.shm_object (DynamicShm.d_shm ds) = d ∧ DynamicShm.shm_name (DynamicShm.d_shm ds) = name ∧
  DynamicShm.shm_has_ownership (DynamicShm.d_shm ds) = false.

Lemma wp_create_and_initialize b f (initializer : BumpAllocator → outcome bool) (Q : role → _ → Prop) :
  at_name (DynamicShm.config b) (DynamicShm.storage_name b) → DynamicShm.has_ownership b = false →
  (∀ a ok, initializer a = Return ok → ok = true) →
  (∀ ρ e, ¬ strict → Q ρ (Err e)) → (∀ d ds, borrows ds d → Q (SetupReady f d) (Ok ds)) →
  wp (Setup f) (DynamicShm.create_and_initialize size_of_DynamicConfig b 1 initializer) Q.
Proof.
  intros Hp Ho Hinit HE HO. unfold DynamicShm.create_and_initialize.
  apply wp_bind, wp_storage_full_name; [done|]. wp_pure n Hn.
  wp_call r; [split; [done|by exists f]|].
  destruct r as [[d base]|e]; [|destruct e; apply HE; by intros [? ?]%Hr].
  wp_call u1; [split; [done|by exists f]|]. wp_pure x1 Hx1. wp_pure x2 Hx2. wp_pure ok Hok.
  apply Hinit in Hok as ->. cbn [negb].
  wp_call r; [split; [done|by exists f]|]. destruct r as [u|e].
  - apply HO. split_and!; try done.
  - apply wp_bind. unfold DynamicShm.shm_drop. cbn. rewrite Ho. apply HE. by intros ?%Hr1.
Qed.

Lemma wp_try_open ρ b (Q : role → _ → Prop) :
  at_name (DynamicShm.config b) (DynamicShm.storage_name b) → no_claim ρ = true →
  (∀ ρ' e, no_claim ρ' = true → Q ρ' (Err e)) → (∀ d ds, borrows ds d → Q (OpenedFinal d) (Ok ds)) →
  wp ρ (DynamicShm.try_open size_of_DynamicConfig b) Q.
Proof.
  intros Hp Hn HE HO. unfold DynamicShm.try_open. apply wp_bind, wp_storage_full_name; [done|].
  wp_call r; [done|]. destruct r as [[d n]|[]]; try by apply HE.
  wp_call r; [done|]. rewrite bool_decide_eq_true_2 by done. destruct r as [[|]|]; try by apply HE.
  wp_pure required Hreq. destruct (n <? required); [by apply HE|]. by apply HO.
Qed.

Lemma wp_dynamic_open ρ b (Q : role → _ → Prop) :
  at_name (DynamicShm.config b) (DynamicShm.storage_name b) → no_claim ρ = true →
  (∀ ρ' e, no_claim ρ' = true → Q ρ' (Err e)) → (∀ d ds, borrows ds d → Q (OpenedFinal d) (Ok ds)) →
  wp ρ (DynamicShm.open size_of_DynamicConfig b) Q.
Proof.
  intros Hp Hn HE HO. unfold DynamicShm.open. apply wp_bind, wp_try_open; try done.
  intros ρ' [] Hn'; by apply HE.
Qed.

(** ** The reference counter *)

Lemma wp_increment_loop d n cur (Q : role → _ → Prop) :
  0 ≤ cur ≤ MARKED_FOR_DESTRUCTION → Q (OpenedFinal d) (Err tt) → Q (Holder d) (Ok tt) →
  wp (OpenedFinal d) (increment_loop n d cur) Q.
Proof.
  intros Hc HE HO. revert cur Hc. induction n as [|n IH]; intros cur Hc; cbn [increment_loop]; [done|].
  destruct (Z.eqb_spec cur MARKED_FOR_DESTRUCTION) as [->|Hm]; [exact HE|].
  rewrite uadd_ok by (unfold MARKED_FOR_DESTRUCTION, USIZE in *; lia). cbn [pbind].
  wp_call r; [by left|]. destruct r as [v|v]; [exact HO|]. apply IH, Hr.
Qed.

Lemma wp_increment d (Q : role → _ → Prop) :
  Q (OpenedFinal d) (Err tt) → Q (Holder d) (Ok tt) →
  wp (OpenedFinal d) (increment_reference_counter fuel d) Q.
Proof.
  intros HE HO. unfold increment_reference_counter. wp_call v; [by left|].
  by apply wp_increment_loop; [apply Hr|..].
Qed.

Lemma wp_decrement_loop d n cur (Q : role → _ → Prop) :
  1 ≤ cur ≤ MARKED_FOR_DESTRUCTION → Q Idle HasOwners → Q (Last d) NoMoreOwners →
  wp (Holder d) (decrement_loop n d cur) Q.
Proof.
  intros Hc HE HO. revert cur Hc. induction n as [|n IH]; intros cur Hc; cbn [decrement_loop]; [done|].
  rewrite usub_ok by (unfold MARKED_FOR_DESTRUCTION, USIZE in *; lia).
  destruct (Z.eqb_spec cur 1) as [->|H1]; cbn [pbind ret].
  - wp_call r; [by right|]. destruct r as [v|v]; [exact HO|]. apply IH. cbn in Hr.
    split; [by apply Hr|apply Hr].
  - wp_call r; [right; by rewrite (proj2 (Z.eqb_neq _ _) H1)|].
    rewrite (proj2 (Z.eqb_neq _ _) H1). destruct r as [v|v]; [exact HE|]. apply IH. cbn in Hr.
    split; [by apply Hr|apply Hr].
Qed.

Lemma wp_decrement d (Q : role → _ → Prop) :
  Q Idle HasOwners → Q (Last d) NoMoreOwners → wp (Holder d) (decrement_reference_counter fuel d) Q.
Proof.
  intros HE HO. unfold decrement_reference_counter. wp_call v; [by right|].
  apply wp_decrement_loop; [|done..]. cbn in Hr. split; [by apply Hr|apply Hr].
Qed.

(** ** builder/mod.rs *)

Lemma wp_is_service_available ρ b (Q : role → _ → Prop) :
  resources b → no_claim ρ = true →
  (∀ ρ' e, no_claim ρ' = true → Q ρ' (Err e)) → (∀ ρ', no_claim ρ' = true → Q ρ' (Ok None)) →
  (∀ ρ' c st, no_claim ρ' = true → offered c → has_same_messaging_pattern c (service_config b) = true →
     at_path (StaticFile.s_config st) (StaticFile.s_name st) →
     StaticFile.s_has_ownership st = false → Q ρ' (Ok (Some (c, st)))) →
  wp ρ (is_service_available b) Q.
Proof using SL.
  intros Hb Hn HE HN HO. unfold is_service_available. wp_pure cfg Hcfg. wp_pure n Hname.
  pose proof (static_path_at b cfg n Hb Hcfg Hname) as Hp.
  apply wp_bind, wp_does_exist; [done..|]. intros ρ1 r1 H1.
  destruct r1 as [[|]|[]]; try (by apply HE); try (by apply HN).
  apply wp_bind, wp_static_open; [done|done|intros ρ2 e H2; by apply HE|]. intros f len. cbn.
  apply wp_bind. eapply wp_static_read; [done|..].
  { intros e c. by apply HE. }
  intros c (cfg' & Hoff & Hser). cbn beta iota. rewrite (deserialize_serialize _ _ Hser).
  destruct (negb (bytes_eqb _ _)); [by apply HE|].
  destruct (has_same_messaging_pattern _ _) eqn:E; cbn [negb]; [by apply HO|by apply HE].
Qed.

(** What the holder of a service has. *)
Definition held (svc : ServiceState) (d : nat) : Prop :=
  borrows (dynamic_storage svc) d ∧ StaticFile.s_has_ownership (static_storage svc) = false ∧
  at_path (StaticFile.s_config (static_storage svc)) (StaticFile.s_name (static_storage svc)) ∧
  ∃ c, offered c ∧ ServiceConfig.messaging_pattern (static_config svc) = ServiceConfig.messaging_pattern c.

Lemma wp_drop_storages ρ ds st d (Q : role → unit → Prop) :
  borrows ds d → StaticFile.s_has_ownership st = false → Q ρ tt → wp ρ (drop_storages ds st) Q.
Proof.
  intros (_ & _ & Ho) Hs HQ. unfold drop_storages. apply wp_bind, wp_dynamic_drop_released; [done|].
  by apply wp_static_drop_released.
Qed.

Lemma wp_open_dynamic_config_storage ρ b (Q : role → _ → Prop) :
  resources b → no_claim ρ = true → (∀ ρ' e, no_claim ρ' = true → Q ρ' (Err e)) →
  (∀ d ds, borrows ds d → Q (Holder d) (Ok ds)) →
  wp ρ (open_dynamic_config_storage size_of_DynamicConfig fuel b) Q.
Proof.
  intros Hb Hn HE HO. unfold open_dynamic_config_storage. wp_pure n Hname. wp_pure cfg Hcfg.
  pose proof (dynamic_name_at b cfg n Hb Hname Hcfg) as Hp.
  apply wp_bind, wp_dynamic_open; [done..|intros ρ1 e H1; by apply HE|].
  intros d ds Hds. pose proof Hds as (Hd & _ & Hown). rewrite Hd. apply wp_bind, wp_increment.
  - apply wp_bind, wp_dynamic_drop_released; [done|]. by apply HE.
  - by apply HO.
Qed.

Lemma wp_create_static_config_storage ρ b (Q : role → _ → Prop) :
  resources b → no_claim ρ = true → (∀ e, Q ρ (Err e)) →
  (∀ f st, at_path (StaticFile.s_config st) (StaticFile.s_name st) → StaticFile.s_has_ownership st = false →
     StaticFile.s_file st = f → Q (Setup f) (Ok st)) →
  wp ρ (create_static_config_storage b) Q.
Proof.
  intros Hb Hn HE HO. unfold create_static_config_storage. wp_pure n Hname. wp_pure cfg Hcfg.
  apply wp_create_locked; cbn; [by eapply static_path_at|done..|]. intros f.
  apply HO; try done. by eapply static_path_at.
Qed.

Lemma wp_finish_creation {E} b locked pattern n f (e1 e2 : E) (Q : role → _ → Prop) :
  resources b → offered (service_config b) →
  at_path (StaticFile.s_config locked) (StaticFile.s_name locked) →
  StaticFile.s_has_ownership locked = false → StaticFile.s_file locked = f →
  (∀ ρ e, ¬ strict → Q ρ (Err e)) → (∀ d svc, held svc d → Q (Holder d) (Ok svc)) →
  wp (Setup f) (finish_creation id_layout size_of_DynamicConfig b locked pattern n e1 e2) Q.
Proof using serializes.
  intros Hb Hoff Hp Ho Hf HE HO. unfold finish_creation, create_dynamic_config_storage. apply wp_bind.
  wp_pure dn Hdn. wp_pure cfg Hcfg. apply wp_create_and_initialize; [by eapply dynamic_name_at|done|..].
  - intros a ok Hok. destruct (init _ _ _); by inv_outcome.
  - intros ρ e Hs. apply wp_bind, wp_static_drop_released; [done|]. by apply HE.
  - intros d ds Hds. wp_pure r Hser. destruct r as [bytes|[]].
    + apply wp_bind, wp_unlock; try done; [by exists (service_config b)|..].
      * intros ρ e Hs. apply wp_bind, wp_dynamic_drop_released; [apply Hds|]. by apply HE.
      * apply HO. split_and!; try done. by exists (service_config b).
    + apply wp_bind. eapply wp_drop_storages; try done. apply HE. intros Hs. by apply (serializes Hs (service_config b)).
Qed.

(** Leaving the service. *)
Lemma wp_service_state_drop svc d :
  held svc d → wp (Holder d) (service_state_drop fuel svc) (λ ρ _, no_claim ρ = true).
Proof.
  intros (Hds & Hs & Hp & _). pose proof Hds as (Hd & Hn & Ho). unfold service_state_drop. rewrite Hd.
  apply wp_bind, wp_decrement.
  - by eapply wp_drop_storages.
  - unfold drop_storages, DynamicShm.drop, DynamicShm.shm_drop, StaticFile.drop. cbn. rewrite Hn.
    split; [by eauto|]. intros r _.
    apply wp_bind. unfold StaticFile.remove_cfg. apply wp_bind, wp_storage_path; [done|].
    wp_call r2; [done|]. by destruct r2 as [?|[]].
Qed.

(** ** The builders *)

(** A builder ends as a holder, or has failed. *)
Definition built {E} (ρ : role) (r : result ServiceState E) : Prop :=
  match r with Ok svc => ∃ d, ρ = Holder d ∧ held svc d | Err _ => strict → no_claim ρ = true end.

Section PublishSubscribe.
Import PublishSubscribeBuilder.
Implicit Types (b : PublishSubscribeBuilder.Builder).

(** The builder does not require anything of an existing service. *)
Definition ps_undemanding b : Prop :=
  verify_number_of_subscribers b = false ∧ verify_number_of_publishers b = false ∧
  verify_subscriber_buffer_size b = false ∧ verify_subscriber_max_borrowed_samples b = false ∧
  verify_publisher_history_size b = false ∧ verify_enable_safe_overflow b = false.

Lemma ps_undemanding_ok b c r :
  ps_undemanding b → has_same_messaging_pattern c (service_config (base b)) = true →
  verify_service_properties b c = Return r → ∃ v, r = Ok v.
Proof.
  intros (H1 & H2 & H3 & H4 & H5 & H6). unfold verify_service_properties, has_same_messaging_pattern, is_same_pattern.
  unfold publish_subscribe. rewrite H1, H2, H3, H4, H5, H6.
  destruct (ServiceConfig.messaging_pattern c), (ServiceConfig.messaging_pattern (service_config (base b)));
    try done. cbn. intros _ [= <-]. by eexists.
Qed.

(** What a verified configuration is. *)
Lemma ps_verified b c v :
  verify_service_properties b c = Return (Ok v) → ServiceConfig.messaging_pattern c = PublishSubscribe v.
Proof.
  unfold verify_service_properties. destruct (publish_subscribe (service_config (base b))); try done.
  cbn [obind]. destruct (ServiceConfig.messaging_pattern c) as [v'|]; [|by intros [= ]].
  intros [= Hr]. case_bool; try done; by injection Hr as ->.
Qed.

Lemma update_details_base b b' g :
  update_details b g = Return b' →
  ∃ v, base b' = set_service_config (base b) (set_messaging_pattern (service_config (base b)) (PublishSubscribe v)).
Proof. unfold update_details. destruct (config_details b); cbn; try done. intros [= <-]. by eexists. Qed.

Lemma update_details_resources b b' g : update_details b g = Return b' → resources (base b) → resources (base b').
Proof. intros (v & Hv)%update_details_base Hb. rewrite Hv. exact Hb. Qed.

Lemma update_details_undemanding b b' g :
  update_details b g = Return b' → (strict → ps_undemanding b) → strict → ps_undemanding b'.
Proof. unfold update_details. destruct (config_details b); cbn; try done. by intros [= <-]. Qed.

Lemma wp_ps_available ρ b (Q : role → _ → Prop) :
  resources (base b) → no_claim ρ = true →
  (∀ ρ' e, no_claim ρ' = true → Q ρ' (Err e)) → (∀ ρ', no_claim ρ' = true → Q ρ' (Ok None)) →
  (∀ ρ' c st, no_claim ρ' = true → offered c → has_same_messaging_pattern c (service_config (base b)) = true →
     at_path (StaticFile.s_config st) (StaticFile.s_name st) →
     StaticFile.s_has_ownership st = false → Q ρ' (Ok (Some (c, st)))) →
  wp ρ (PublishSubscribeBuilder.is_service_available b) Q.
Proof using SL.
  intros Hb Hn HE HN HO. unfold PublishSubscribeBuilder.is_service_available.
  apply wp_bind, wp_is_service_available; try done.
  - intros ρ' e H'. by apply HE.
  - intros ρ' c st H' Hoff Hpat Hp Ho. wp_pure v1 Hv1. wp_pure v2 Hv2. destruct (negb _); [|by apply HO].
    apply wp_bind, wp_static_drop_released; [done|]. by apply HE.
Qed.

Lemma wp_ps_open_loop ρ b n :
  resources (base b) → (strict → ps_undemanding b) → no_claim ρ = true →
  wp ρ (PublishSubscribeBuilder.open_loop size_of_DynamicConfig fuel n b) built.
Proof using SL.
  intros Hb Hu. revert ρ. induction n as [|n IH]; intros ρ Hn; cbn [PublishSubscribeBuilder.open_loop]; [done|].
  apply wp_bind, wp_ps_available; try failed.
  - intros ρ' e H'. destruct e as [[]|]; try failed. wp_call r; [done|]. destruct r as [[|]|]; try failed.
    by apply IH.
  - intros ρ' c st H' Hoff Hpat Hp Ho. apply wp_bind, wp_open_dynamic_config_storage; try done.
    + intros ρ2 e H2. apply wp_bind, wp_static_drop_released; [done|]. failed.
    + intros d ds Hds. wp_pure r Hr. destruct r as [v|].
      * exists d. do 4 (split; [done|]). exists c. split; [done|].
        by rewrite (ps_verified b c v Hr).
      * apply wp_bind. eapply wp_drop_storages; try done. intros Hs.
        by destruct (ps_undemanding_ok b c _ (Hu Hs) Hpat Hr).
Qed.

Lemma wp_ps_open ρ b ty :
  resources (base b) → (strict → ps_undemanding b) → no_claim ρ = true →
  wp ρ (PublishSubscribeBuilder.open size_of_DynamicConfig fuel b ty) built.
Proof using SL.
  intros Hb Hu Hn. unfold PublishSubscribeBuilder.open. wp_pure b' Hb'. wp_call r; [done|].
  destruct r; [|failed].
  apply wp_ps_open_loop; [by eapply update_details_resources|by eapply update_details_undemanding|done].
Qed.

(** The configuration [create] writes. *)
Definition ps_created b (ty : list Z) : outcome PublishSubscribeBuilder.Builder :=
  let! b := adjust_properties_to_meaningful_values b in update_details b (set_type_name ty).

Lemma wp_ps_create ρ b ty :
  resources (base b) → no_claim ρ = true →
  (∀ b', ps_created b ty = Return b' → offered (service_config (base b'))) →
  wp ρ (PublishSubscribeBuilder.create id_layout size_of_DynamicConfig b ty) built.
Proof using SL serializes.
  intros Hb Hn Hoff. unfold PublishSubscribeBuilder.create. wp_pure b1 Hb1. wp_pure b2 Hb2.
  assert (resources (base b2)) as Hres by (do 2 (eapply update_details_resources; [done|]); done).
  assert (offered (service_config (base b2))) as Hoff2.
  { apply Hoff. unfold ps_created. rewrite Hb1. exact Hb2. }
  wp_pure v Hv. destruct (_ && _); [failed|]. apply wp_bind, wp_ps_available; try failed.
  - intros ρ' e H'. destruct e as [[]|]; failed.
  - intros ρ' H'. apply wp_bind, wp_create_static_config_storage; try failed.
    intros f st Hp Ho Hf. wp_pure v2 Hv2. wp_pure n Hsz. apply wp_finish_creation; try failed.
    intros d svc Hh. by exists d.
  - intros ρ' c st H' Hc Hpat Hp Ho. apply wp_bind, wp_static_drop_released; [done|]. failed.
Qed.

Lemma wp_ps_open_or_create ρ b ty :
  resources (base b) → (strict → ps_undemanding b) → no_claim ρ = true →
  (∀ b' b'', update_details b (set_type_name ty) = Return b' → ps_created b' ty = Return b'' →
     offered (service_config (base b''))) →
  wp ρ (PublishSubscribeBuilder.open_or_create id_layout size_of_DynamicConfig fuel b ty) built.
Proof using SL serializes.
  intros Hb Hu Hn Hoff. unfold PublishSubscribeBuilder.open_or_create. wp_pure b1 Hb1.
  assert (resources (base b1)) as Hres by (by eapply update_details_resources).
  assert (strict → ps_undemanding b1) as Hu1 by (by eapply update_details_undemanding).
  apply wp_bind, wp_ps_available; try failed.
  - intros ρ' e H'. destruct e as [[]|]; try failed. apply wp_bind.
    eapply wp_mono; [|by apply wp_ps_open]. intros ρ2 r Hr. by destruct r.
  - intros ρ' H'. apply wp_bind. eapply wp_mono; [|apply wp_ps_create; try done; intros b'; by apply Hoff].
    intros ρ2 r Hr. by destruct r.
  - intros ρ' c st H' Hc Hpat Hp Ho. apply wp_bind. eapply wp_mono; [|by apply wp_ps_open].
    intros ρ2 r Hr. apply wp_bind, wp_static_drop_released; [done|]. by destruct r.
Qed.
End PublishSubscribe.

Section Event.
Import EventBuilder.
Implicit Types (b : EventBuilder.Builder).

Definition event_undemanding b : Prop := verify_max_notifiers b = false ∧ verify_max_listeners b = false.

Lemma event_undemanding_ok b c r :
  event_undemanding b → has_same_messaging_pattern c (service_config (base b)) = true →
  verify_service_properties b c = Return r → ∃ v, r = Ok v.
Proof.
  intros (H1 & H2). unfold verify_service_properties, has_same_messaging_pattern, is_same_pattern.
  unfold event. rewrite H1, H2.
  destruct (ServiceConfig.messaging_pattern c), (ServiceConfig.messaging_pattern (service_config (base b)));
    try done. cbn. intros _ [= <-]. by eexists.
Qed.

Lemma event_verified b c v :
  verify_service_properties b c = Return (Ok v) → ServiceConfig.messaging_pattern c = Event v.
Proof.
  unfold verify_service_properties. destruct (event (service_config (base b))); try done.
  cbn [obind]. destruct (ServiceConfig.messaging_pattern c) as [|v']; [by intros [= ]|].
  intros [= Hr]. case_bool; try done; by injection Hr as ->.
Qed.

Lemma event_update_resources b b' g :
  update_details b g = Return b' → resources (base b) → resources (base b').
Proof. unfold update_details. destruct (config_details b); cbn; try done. by intros [= <-]. Qed.

Lemma wp_event_open_loop ρ b n :
  resources (base b) → (strict → event_undemanding b) → no_claim ρ = true →
  wp ρ (EventBuilder.open_loop size_of_DynamicConfig fuel n b) built.
Proof using SL.
  intros Hb Hu. revert ρ. induction n as [|n IH]; intros ρ Hn; cbn [EventBuilder.open_loop]; [done|].
  apply wp_bind, wp_is_service_available; try failed.
  - intros ρ' e H'. destruct e; try failed. wp_call r; [done|]. destruct r as [[|]|]; try failed. by apply IH.
  - intros ρ' c st H' Hoff Hpat Hp Ho. apply wp_bind, wp_open_dynamic_config_storage; try done.
    + intros ρ2 e H2. apply wp_bind, wp_static_drop_released; [done|]. failed.
    + intros d ds Hds. wp_pure r Hr. destruct r as [v|].
      * exists d. do 4 (split; [done|]). exists c. split; [done|].
        by rewrite (event_verified b c v Hr).
      * apply wp_bind. eapply wp_drop_storages; try done. intros Hs.
        by destruct (event_undemanding_ok b c _ (Hu Hs) Hpat Hr).
Qed.

Lemma wp_event_open ρ b :
  resources (base b) → (strict → event_undemanding b) → no_claim ρ = true →
  wp ρ (EventBuilder.open size_of_DynamicConfig fuel b) built.
Proof using SL.
  intros Hb Hu Hn. unfold EventBuilder.open. wp_call r; [done|]. destruct r; [|failed]. by apply wp_event_open_loop.
Qed.

Lemma wp_event_create ρ b :
  resources (base b) → no_claim ρ = true →
  (∀ b', adjust_properties_to_meaningful_values b = Return b' → offered (service_config (base b'))) →
  wp ρ (EventBuilder.create id_layout size_of_DynamicConfig b) built.
Proof using SL serializes.
  intros Hb Hn Hoff. unfold EventBuilder.create. wp_pure b1 Hb1.
  assert (resources (base b1)) as Hres by (by eapply event_update_resources).
  apply wp_bind, wp_is_service_available; try failed.
  - intros ρ' e H'. destruct e; failed.
  - intros ρ' H'. apply wp_bind, wp_create_static_config_storage; try failed.
    intros f st Hp Ho Hf. wp_pure v2 Hv2. wp_pure n Hsz. apply wp_finish_creation; try failed; [by apply Hoff|].
    intros d svc Hh. by exists d.
  - intros ρ' c st H' Hc Hpat Hp Ho. apply wp_bind, wp_static_drop_released; [done|]. failed.
Qed.

Lemma wp_event_open_or_create ρ b :
  resources (base b) → (strict → event_undemanding b) → no_claim ρ = true →
  (∀ b', adjust_properties_to_meaningful_values b = Return b' → offered (service_config (base b'))) →
  wp ρ (EventBuilder.open_or_create id_layout size_of_DynamicConfig fuel b) built.
Proof using SL serializes.
  intros Hb Hu Hn Hoff. unfold EventBuilder.open_or_create. apply wp_bind, wp_is_service_available; try failed.
  - intros ρ' e H'. destruct e; try failed. apply wp_bind.
    eapply wp_mono; [|by apply wp_event_open]. intros ρ2 r Hr. by destruct r.
  - intros ρ' H'. apply wp_bind. eapply wp_mono; [|by apply wp_event_create]. intros ρ2 r Hr. by destruct r.
  - intros ρ' c st H' Hc Hpat Hp Ho. apply wp_bind. eapply wp_mono; [|by apply wp_event_open].
    intros ρ2 r Hr. apply wp_bind, wp_static_drop_released; [done|]. by destruct r.
Qed.
End Event.
End Sessions.
