(* ===== verification/ServiceRuns.v ===== *)
(** * A service from creation to removal

    The programs of [ServiceBuilder] run alone on the operating system [exec], which
    does not fail: what each returns and what it does to the files and the shared
    memory. The theorem puts them together: creating, opening and leaving a service
    twice brings back the world there was before. *)

From S2P Require Import Prelude Elementary UniqueIndexSet BumpAllocator Container ByteString SemanticString SystemTypes.
From S2P Require Import NamedConcept Processes Storages DynamicConfig ServiceConfig ServiceBuilder ServiceLifecycle ServiceSessions.

Import Naming.
Import Bytes(FixedSizeByteString).

Section Runs.
Context `{P : Profile} {Env : Settings} {S : Serializer} {SL : SerializerLaws S}.
Context (id_layout : Layout) (size_of_DynamicConfig : Z) (fuel : nat).
Context (path name : list Z).

Implicit Types (w : world).

Lemma run_lift {A B} (o : outcome A) (k : A → prog B) a w :
  o = Return a → run exec (let* x := lift o in k x) w = run exec (k a) w.
Proof. by intros ->. Qed.

#[local] Ltac run_pure H := rewrite (run_lift _ _ _ _ H).
#[local] Ltac run_simpl :=
  cbn [pbind ret call run exec set_shms set_files shms shm_names file_names files directories].
#[local] Ltac run_call H := run_simpl; rewrite H; cbn beta iota.

(** The names and configurations behind [resources]. *)
Record named (b : BuilderWithServiceType) (scfg dcfg : Configuration) (n : FixedSizeByteString) : Prop := {
  named_static : static_config_storage_config (global_config b) = Return scfg;
  named_dynamic : dynamic_config_storage_config (global_config b) = Return dcfg;
  named_uuid : unwrap (Semantic.new FileName (uuid (service_config b))) = Return n;
  named_path : at_path path scfg n;
  named_name : at_name name dcfg n
}.

Lemma resources_named b : resources path name b → ∃ scfg dcfg n, named b scfg dcfg n.
Proof.
  intros [Hp Hd]. unfold static_path in Hp. unfold dynamic_name in Hd.
  destruct (static_config_storage_config (global_config b)) as [scfg| |] eqn:E1; try done.
  cbn [obind] in Hp. destruct (unwrap _) as [n| |] eqn:E2; try done. cbn [obind] in Hp.
  unfold dynamic_config_storage_name in Hd. rewrite E2 in Hd. cbn [obind] in Hd.
  destruct (dynamic_config_storage_config (global_config b)) as [dcfg| |] eqn:E3; try done. cbn [obind] in Hd.
  exists scfg, dcfg, n. constructor; try done.
  - destruct (path_for scfg n) as [fp| |] eqn:E; try done. by exists fp.
  - destruct (full_name dcfg n) as [fn| |] eqn:E; try done. by exists fn.
Qed.

Lemma run_storage_path {B} cfg n (k : list Z → prog B) w :
  at_path path cfg n → run exec (let* p := StaticFile.storage_path cfg n in k p) w = run exec (k path) w.
Proof. intros (fp & Hp & Hb). unfold StaticFile.storage_path. rewrite Hp. cbn. by rewrite Hb. Qed.

Lemma run_full_name {B} cfg n (k : list Z → prog B) w :
  at_name name cfg n → run exec (let* p := DynamicShm.storage_full_name cfg n in k p) w = run exec (k name) w.
Proof. intros (fp & Hp & Hb). unfold DynamicShm.storage_full_name. rewrite Hp. cbn. by rewrite Hb. Qed.

(** ** Is the service there *)

Lemma run_not_available b scfg dcfg n w :
  named b scfg dcfg n → file_names w !! path = None →
  run exec (is_service_available b) w = (Return (Ok None), w).
Proof.
  intros [H1 _ H3 H4 _] Hp. unfold is_service_available. run_pure H1. run_pure H3.
  rewrite run_bind. unfold StaticFile.does_exist_cfg. rewrite run_storage_path by done.
  run_call Hp. done.
Qed.

(** The static storage holds the configuration [c]. *)
Definition stored w (f : nat) (c : StaticConfig) : Prop :=
  file_names w !! path = Some f ∧
  ∃ bytes, files w !! f = Some (mkFile bytes true) ∧ serialize c = Return (Ok bytes).

Lemma run_available b scfg dcfg n w f c :
  named b scfg dcfg n → stored w f c → uuid c = uuid (service_config b) →
  has_same_messaging_pattern c (service_config b) = true →
  ∃ len, run exec (is_service_available b) w =
    (Return (Ok (Some (c, StaticFile.mkStorage n scfg false f len))), w).
Proof using SL.
  intros [H1 _ H3 H4 _] (Hp & bytes & Hf & Hs) Hu Hpat. exists (Z.of_nat (length bytes)).
  unfold is_service_available. run_pure H1. run_pure H3.
  rewrite run_bind. unfold StaticFile.does_exist_cfg. rewrite run_storage_path by done.
  run_call Hp. rewrite bool_decide_eq_true_2 by done.
  run_call Hp.
  run_call Hf. cbn -[StaticFile.open StaticFile.read].
  rewrite run_bind. unfold StaticFile.open. rewrite run_storage_path by done.
  run_call Hp.
  run_call Hf. cbn -[StaticFile.read]. rewrite run_bind.
  unfold StaticFile.read. cbn [StaticFile.s_len StaticFile.s_file]. rewrite length_replicate, Nat2Z.id. zbool.
  run_call Hf. cbn.
  rewrite Nat2Z.id, firstn_all, Z.eqb_refl. cbn. rewrite skipn_all2, app_nil_r by (by rewrite length_replicate).
  rewrite (deserialize_serialize _ _ Hs). unfold bytes_eqb. rewrite Hu, bool_decide_eq_true_2 by done. cbn.
  by rewrite Hpat.
Qed.

(** ** Creating *)

(** The world with a new service: the file [bytes] and the object [o]. *)
Definition with_service w (dirs : list (list Z)) (bytes : list Z) (o : shm) : world :=
  mkWorld dirs (<[path := length (files w)]> (file_names w)) (files w ++ [mkFile bytes true])
    (<[name := length (shms w)]> (shm_names w)) (shms w ++ [o]).

Lemma run_create_static b scfg dcfg n w dir :
  named b scfg dcfg n → Bytes.as_bytes (path_hint scfg) = Return dir → file_names w !! path = None →
  ∃ dirs, run exec (create_static_config_storage b) w =
    (Return (Ok (StaticFile.mkStorage n scfg false (length (files w)) 0)),
     mkWorld dirs (<[path := length (files w)]> (file_names w)) (files w ++ [mkFile [] false])
       (shm_names w) (shms w)).
Proof.
  intros [H1 _ H3 H4 _] Hdir Hp. unfold create_static_config_storage, static_config_storage_name.
  run_pure H3. run_pure H1. unfold StaticFile.create_locked, StaticFile.path_bytes. cbn [StaticFile.config
    StaticFile.set_has_ownership StaticFile.set_config StaticFile.new]. run_pure Hdir.
  cbn [pbind call run exec]. destruct (bool_decide (dir ∈ directories w)); cbn [pbind ret call run exec].
  - exists (directories w). rewrite run_storage_path by done. run_call Hp. done.
  - exists (dir :: directories w). rewrite run_storage_path by done. run_call Hp. done.
Qed.

Lemma run_create_dynamic b scfg dcfg n w pattern bytes_needed :
  named b scfg dcfg n → shm_names w !! name = None → 0 ≤ size_of_DynamicConfig → 0 ≤ bytes_needed →
  size_of_DynamicConfig + bytes_needed < USIZE →
  safe (init id_layout (new_uninit pattern) (BumpAllocator.new size_of_DynamicConfig bytes_needed)) →
  run exec (create_dynamic_config_storage id_layout size_of_DynamicConfig b pattern bytes_needed) w =
    (Return (Ok (DynamicShm.mkStorage
               (DynamicShm.mkSharedMemory name (length (shms w)) (size_of_DynamicConfig + bytes_needed) false) n)),
     set_shms w (<[name := length (shms w)]> (shm_names w))
       (shms w ++ [mkShm 1 true (size_of_DynamicConfig + bytes_needed)])).
Proof.
  intros [_ H2 H3 _ H5] Hn Hs Hb Hsb [v Hv]. unfold create_dynamic_config_storage, dynamic_config_storage_name.
  run_pure H3. run_pure H2. unfold DynamicShm.create_and_initialize. cbn [DynamicShm.config DynamicShm.storage_name
    DynamicShm.set_has_ownership DynamicShm.set_supplementary_size DynamicShm.set_config DynamicShm.new
    DynamicShm.supplementary_size DynamicShm.has_ownership].
  rewrite run_full_name by done. erewrite run_lift by (by rewrite uadd_ok by lia).
  run_call Hn. run_simpl. rewrite lookup_app_r, Nat.sub_diag by lia. cbn [lookup list_lookup]. cbn beta iota.
  erewrite run_lift by (by rewrite uadd_ok by lia). erewrite run_lift by (by rewrite usub_ok by lia).
  rewrite Z.add_0_l. replace (size_of_DynamicConfig + bytes_needed - size_of_DynamicConfig) with bytes_needed by lia.
  erewrite run_lift by (by rewrite Hv). cbn [negb]. run_simpl.
  rewrite insert_app_r_alt, Nat.sub_diag by lia. cbn [insert list_insert].
  rewrite lookup_app_r, Nat.sub_diag by lia. cbn [lookup list_lookup]. run_simpl.
  rewrite insert_app_r_alt, Nat.sub_diag by lia. done.
Qed.

(** ** Opening and leaving *)

(** The dynamic storage is the object [d] with the counter [c]. *)
Definition counted w (d : nat) (c : Z) : Prop :=
  shm_names w !! name = Some d ∧ ∃ n, shms w !! d = Some (mkShm c true n) ∧ size_of_DynamicConfig ≤ n.

Definition with_counter w (d : nat) (c : Z) : world :=
  match shms w !! d with
  | Some o => set_shms w (shm_names w) (<[d := mkShm c (shm_final o) (shm_size o)]> (shms w))
  | None => w
  end.

Lemma counted_with_counter w d c c' : counted w d c → counted (with_counter w d c') d c'.
Proof.
  intros (Hn & n & Ho & Hs). unfold with_counter, counted. rewrite Ho. cbn. split; [done|]. exists n.
  rewrite list_lookup_insert_eq by (by eapply lookup_lt_Some). done.
Qed.

Lemma with_counter_twice w d c c' : with_counter (with_counter w d c) d c' = with_counter w d c'.
Proof.
  unfold with_counter at 2 3. destruct (shms w !! d) as [o|] eqn:Ho; [|unfold with_counter; by rewrite Ho].
  unfold with_counter. cbn. rewrite list_lookup_insert_eq by (by eapply lookup_lt_Some). cbn.
  by rewrite list_insert_insert_eq.
Qed.

Lemma with_counter_id w d c : counted w d c → with_counter w d c = w.
Proof.
  intros (_ & n & Ho & _). unfold with_counter. rewrite Ho. cbn. rewrite list_insert_id by done. by destruct w.
Qed.

Lemma run_increment w d c (k : result unit unit → prog (result DynamicShm.Storage OpenDynamicStorageFailure)) :
  (0 < fuel)%nat → counted w d c → 0 ≤ c < MARKED_FOR_DESTRUCTION →
  run exec (let* r := increment_reference_counter fuel d in k r) w = run exec (k (Ok tt)) (with_counter w d (c + 1)).
Proof.
  intros Hf (Hn & n & Ho & _) Hc. unfold increment_reference_counter. destruct fuel as [|m]; [lia|].
  run_simpl. rewrite Ho. cbn [increment_loop counter]. zbool. rewrite uadd_ok by (unfold MARKED_FOR_DESTRUCTION, USIZE in *; lia).
  run_simpl. rewrite Ho. cbn [counter]. unfold compare_exchange. rewrite Z.eqb_refl.
  unfold with_counter. rewrite Ho. done.
Qed.

Lemma run_open_dynamic b scfg dcfg n w d c :
  named b scfg dcfg n → (0 < fuel)%nat → counted w d c → 0 ≤ c < MARKED_FOR_DESTRUCTION →
  0 ≤ size_of_DynamicConfig < USIZE →
  ∃ len, run exec (open_dynamic_config_storage size_of_DynamicConfig fuel b) w =
    (Return (Ok (DynamicShm.mkStorage (DynamicShm.mkSharedMemory name d len false) n)), with_counter w d (c + 1)).
Proof.
  intros [_ H2 H3 _ H5] Hf Hcnt Hc Hsz. pose proof Hcnt as (Hn & len & Ho & Hlen). exists len.
  unfold open_dynamic_config_storage, dynamic_config_storage_name. run_pure H3. run_pure H2.
  rewrite run_bind. unfold DynamicShm.open. rewrite run_bind. unfold DynamicShm.try_open.
  cbn [DynamicShm.config DynamicShm.storage_name DynamicShm.set_has_ownership DynamicShm.set_config DynamicShm.new
       DynamicShm.supplementary_size]. rewrite run_full_name by done.
  run_call Hn. rewrite Ho. run_call Ho. cbn [shm_final shm_size negb].
  erewrite run_lift by (by rewrite uadd_ok by lia). zbool. run_simpl. cbn [DynamicShm.d_shm DynamicShm.shm_object].
  by rewrite (run_increment w d c) by done.
Qed.

(** Leaving while others stay. *)
Lemma run_drop_more svc w d c :
  (0 < fuel)%nat → counted w d c → 1 < c < MARKED_FOR_DESTRUCTION →
  DynamicShm.shm_object (DynamicShm.d_shm (dynamic_storage svc)) = d →
  DynamicShm.shm_has_ownership (DynamicShm.d_shm (dynamic_storage svc)) = false →
  StaticFile.s_has_ownership (static_storage svc) = false →
  run exec (service_state_drop fuel svc) w = (Return tt, with_counter w d (c - 1)).
Proof.
  intros Hf (Hn & n & Ho & _) Hc Hd Hdo Hso. unfold service_state_drop, decrement_reference_counter. rewrite Hd.
  destruct fuel as [|m]; [lia|]. run_simpl. rewrite Ho. cbn [decrement_loop counter]. zbool.
  rewrite usub_ok by (unfold MARKED_FOR_DESTRUCTION, USIZE in *; lia). run_simpl. rewrite Ho. cbn [counter].
  unfold compare_exchange. rewrite Z.eqb_refl. unfold drop_storages, DynamicShm.drop, DynamicShm.shm_drop, StaticFile.drop.
  run_simpl. rewrite Hdo, Hso. unfold with_counter. rewrite Ho. done.
Qed.

(** The last one removes both storages, the dynamic one first. *)
Lemma run_drop_last svc w d f :
  (0 < fuel)%nat → counted w d 1 → file_names w !! path = Some f →
  DynamicShm.shm_object (DynamicShm.d_shm (dynamic_storage svc)) = d →
  DynamicShm.shm_name (DynamicShm.d_shm (dynamic_storage svc)) = name →
  at_path path (StaticFile.s_config (static_storage svc)) (StaticFile.s_name (static_storage svc)) →
  let w' := with_counter w d MARKED_FOR_DESTRUCTION in
  run exec (service_state_drop fuel svc) w =
  (Return tt, mkWorld (directories w) (delete path (file_names w)) (files w) (delete name (shm_names w)) (shms w')).
Proof.
  intros Hf (Hn & n & Ho & _) Hp Hd Hdn Hat. unfold service_state_drop, decrement_reference_counter. rewrite Hd.
  destruct fuel as [|m]; [lia|]. run_simpl. rewrite Ho. cbn [decrement_loop counter Z.eqb Pos.eqb]. run_simpl.
  rewrite Ho. cbn [counter]. unfold compare_exchange. rewrite Z.eqb_refl.
  unfold drop_storages, DynamicShm.drop, DynamicShm.shm_drop, StaticFile.drop, StaticFile.remove_cfg.
  cbn [DynamicShm.acquire_ownership DynamicShm.set_ownership DynamicShm.d_shm DynamicShm.shm_has_ownership
       DynamicShm.shm_name StaticFile.acquire_ownership StaticFile.s_has_ownership StaticFile.s_name StaticFile.s_config].
  rewrite Hdn. run_simpl. rewrite Hn. run_simpl. rewrite run_bind, run_storage_path by done. run_simpl. rewrite Hp.
  run_simpl. unfold with_counter. rewrite Ho. done.
Qed.

(** ** Publish-subscribe services *)

Import PublishSubscribeBuilder.

(** What [create] needs of its settings. *)
Record creatable (b b' : Builder) (ty bytes : list Z) (v : PubSubStaticConfig) : Prop := {
  cr_details : config_details b = Return v;
  cr_created : ps_created b ty = Return b';
  cr_serialized : serialize (service_config (base b')) = Return (Ok bytes);
  cr_history : enable_safe_overflow v = true ∨ history_size v ≤ at_least_one (subscriber_buffer_size v)
}.

Lemma ps_created_eq b b' ty bytes v :
  creatable b b' ty bytes v → b' = set_details b (set_type_name ty (meaningful v)).
Proof.
  intros [Hd Hc _ _]. unfold ps_created, adjust_properties_to_meaningful_values, update_details in Hc.
  rewrite Hd in Hc. cbn in Hc. by injection Hc as <-.
Qed.

Lemma run_create b b' ty bytes v scfg dcfg n dir w (needed : Z) :
  creatable b b' ty bytes v → named (base b) scfg dcfg n → Bytes.as_bytes (path_hint scfg) = Return dir →
  file_names w !! path = None → shm_names w !! name = None →
  0 ≤ size_of_DynamicConfig → 0 ≤ needed → size_of_DynamicConfig + needed < USIZE →
  let settings := mkPubSubSettings (max_subscribers (meaningful v)) (max_publishers (meaningful v)) in
  pub_sub_memory_size id_layout settings = Return needed →
  safe (init id_layout (new_uninit (PublishSubscribeDynamic (pub_sub_new settings)))
          (BumpAllocator.new size_of_DynamicConfig needed)) →
  ∃ dirs, run exec (create id_layout size_of_DynamicConfig b ty) w =
    (Return (Ok (mkServiceState (service_config (base b'))
       (DynamicShm.mkStorage (DynamicShm.mkSharedMemory name (length (shms w)) (size_of_DynamicConfig + needed) false) n)
       (StaticFile.mkStorage n scfg false (length (files w)) (Z.of_nat (length bytes))))),
     with_service w dirs bytes (mkShm 1 true (size_of_DynamicConfig + needed))).
Proof.
  intros Hcr Hnm Hdir Hp Hn H0 H1 Hsum settings Hms Hinit. pose proof (ps_created_eq _ _ _ _ _ Hcr) as Hb'.
  destruct Hcr as [Hd Hc Hser Hhist].
  assert (named (base b') scfg dcfg n) as Hnm' by (rewrite Hb'; by destruct Hnm; constructor).
  destruct (run_create_static (base b') scfg dcfg n w dir Hnm' Hdir Hp) as [dirs Hst]. exists dirs.
  set (w1 := mkWorld dirs (<[path := length (files w)]> (file_names w)) (files w ++ [mkFile [] false])
               (shm_names w) (shms w)) in *.
  pose proof (run_create_dynamic (base b') scfg dcfg n w1 (PublishSubscribeDynamic (pub_sub_new settings)) needed
                Hnm' Hn H0 H1 Hsum Hinit) as Hdy.
  unfold create, adjust_properties_to_meaningful_values.
  erewrite run_lift by (unfold update_details; rewrite Hd; reflexivity).
  erewrite run_lift by (cbn; reflexivity).
  erewrite run_lift by (cbn; reflexivity).
  fold (set_details b (set_type_name ty (meaningful v))).
  replace (set_details (set_details b (meaningful v)) (set_type_name ty (meaningful v))) with b' by (by rewrite Hb').
  cbn [enable_safe_overflow subscriber_buffer_size history_size set_type_name meaningful].
  replace (negb (enable_safe_overflow v) && (at_least_one (subscriber_buffer_size v) <? history_size v)) with false.
  2: { destruct Hhist as [-> |Hh]; [done|]. rewrite (proj2 (Z.ltb_ge _ _) Hh). by rewrite andb_false_r. }
  rewrite run_bind. unfold PublishSubscribeBuilder.is_service_available.
  rewrite run_bind, (run_not_available _ _ _ _ _ Hnm' Hp). run_simpl.
  rewrite run_bind, Hst. run_simpl.
  rewrite (run_lift _ _ (set_type_name ty (meaningful v))) by (by rewrite Hb').
  cbn [max_subscribers max_publishers set_type_name]. fold settings. run_pure Hms. unfold finish_creation.
  rewrite run_bind, Hdy. run_pure Hser.
  rewrite run_bind. unfold StaticFile.unlock. cbn [StaticFile.s_file]. run_simpl. subst w1. run_simpl.
  rewrite lookup_app_r, Nat.sub_diag by lia. cbn [lookup list_lookup]. rewrite Z.eqb_refl. cbn [negb].
  run_simpl. rewrite insert_app_r_alt, Nat.sub_diag by lia. cbn [insert list_insert].
  rewrite lookup_app_r, Nat.sub_diag by lia. cbn [lookup list_lookup]. run_simpl.
  rewrite insert_app_r_alt, Nat.sub_diag by lia. done.
Qed.

(** What the builder [o], with the settings [u], requires of a service with the settings
    [v], as the code compares them. The overflow behaviour must be the opposite of what
    [o] asks for, if it asks for one. *)
Record satisfied (o : Builder) (u v : PubSubStaticConfig) : Prop := {
  sat_publishers : verify_number_of_publishers o = true → max_publishers u ≤ max_publishers v;
  sat_subscribers : verify_number_of_subscribers o = true → max_subscribers u ≤ max_subscribers v;
  sat_buffer : verify_subscriber_buffer_size o = true → subscriber_buffer_size u ≤ subscriber_buffer_size v;
  sat_history : verify_publisher_history_size o = true → history_size u ≤ history_size v;
  sat_borrowed : verify_subscriber_max_borrowed_samples o = true →
    subscriber_max_borrowed_samples u ≤ subscriber_max_borrowed_samples v;
  sat_overflow : verify_enable_safe_overflow o = true → enable_safe_overflow v ≠ enable_safe_overflow u
}.

(** [o] opens the service that [b] creates. *)
Record opens (o b : Builder) (u v : PubSubStaticConfig) : Prop := {
  op_details : config_details o = Return u;
  op_uuid : uuid (service_config (base o)) = uuid (service_config (base b));
  op_name : service_name (service_config (base o)) = service_name (service_config (base b));
  op_satisfied : satisfied o u v
}.

Lemma refuses_nothing (verify : bool) x y : (verify = true → x ≤ y) → verify && (y <? x) = false.
Proof. destruct verify; [|done]. intros H. apply Z.ltb_ge. by apply H. Qed.

Lemma satisfied_verify o u v c :
  config_details o = Return u → satisfied o u v → ServiceConfig.messaging_pattern c = PublishSubscribe v →
  verify_service_properties o c = Return (Ok v).
Proof.
  intros Hd [H1 H2 H3 H4 H5 H6] Hc. unfold verify_service_properties, config_details in *. rewrite Hd, Hc. cbn [obind].
  rewrite !refuses_nothing by done. destruct (verify_enable_safe_overflow o); [|done]. specialize (H6 eq_refl).
  by destruct (enable_safe_overflow v), (enable_safe_overflow u).
Qed.

Lemma run_open b b' o u ty bytes v scfg dcfg n w f d c :
  creatable b b' ty bytes v → named (base o) scfg dcfg n → opens o b u (meaningful v) →
  stored w f (service_config (base b')) → counted w d c → 0 ≤ c < MARKED_FOR_DESTRUCTION →
  0 ≤ size_of_DynamicConfig < USIZE → (0 < fuel)%nat →
  ∃ len len', run exec (open size_of_DynamicConfig fuel o ty) w =
    (Return (Ok (mkServiceState (service_config (base b'))
       (DynamicShm.mkStorage (DynamicShm.mkSharedMemory name d len false) n)
       (StaticFile.mkStorage n scfg false f len'))), with_counter w d (c + 1)).
Proof using SL.
  intros Hcr Hnm [Hdo Huu Hun Hsat] Hst Hcnt Hc Hsz Hf. pose proof (ps_created_eq _ _ _ _ _ Hcr) as Hb'.
  set (b1 := set_details o (set_type_name ty u)).
  assert (named (base b1) scfg dcfg n) as Hnm1 by (by destruct Hnm; constructor).
  destruct (run_available (base b1) scfg dcfg n w f _ Hnm1 Hst) as [len' Hav]; [by rewrite Hb'|by rewrite Hb'|].
  destruct (run_open_dynamic (base b1) scfg dcfg n w d c Hnm1 Hf Hcnt Hc Hsz) as [len Hod].
  exists len, len'. unfold open. erewrite run_lift by (unfold update_details; rewrite Hdo; reflexivity).
  fold b1. run_simpl. cbn beta iota. generalize Hf. generalize fuel at 1 3. intros [|m] Hm; [lia|].
  cbn [open_loop]. rewrite run_bind. unfold PublishSubscribeBuilder.is_service_available. rewrite run_bind, Hav.
  rewrite (run_lift _ _ (set_type_name ty (meaningful v))) by (by rewrite Hb').
  rewrite (run_lift _ _ (set_type_name ty u)) by done.
  unfold bytes_eqb. cbn [type_name set_type_name]. rewrite bool_decide_eq_true_2 by done. cbn [negb]. run_simpl.
  rewrite run_bind, Hod.
  assert (verify_service_properties b1 (service_config (base b')) = Return (Ok (set_type_name ty (meaningful v)))) as Hv.
  { apply (satisfied_verify b1 (set_type_name ty u)); [done| |by rewrite Hb']. by destruct Hsat; constructor. }
  run_pure Hv. rewrite Hb'. do 2 f_equal. unfold set_details, set_base, set_service_config, set_messaging_pattern. cbn.
  by rewrite Huu, Hun.
Qed.

(** C4. A publish-subscribe service from creation to removal, alone on an operating system
    that does not fail. [create] makes a service with whatever settings its builder has, as
    long as the buffer holds the history or overflows. A builder [o] of the same name and
    message type [open]s it when what was set on [o] is [satisfied] - in particular when
    nothing was set -: it gets the settings of the creator, both share one dynamic storage,
    and its counter follows them: one after [create], two after [open], one after the first
    has left. When the second has left too, all names are as they were before. *)
Theorem service_round_trip b b' o u ty bytes v scfg dcfg n dir w :
  creatable b b' ty bytes v → named (base b) scfg dcfg n →
  opens o b u (meaningful v) → named (base o) scfg dcfg n →
  Bytes.as_bytes (path_hint scfg) = Return dir →
  layout_wf id_layout → 0 < l_size id_layout →
  ports_ok id_layout (max_subscribers (meaningful v)) (max_publishers (meaningful v)) →
  0 ≤ size_of_DynamicConfig < U32 → (0 < fuel)%nat →
  file_names w !! path = None → shm_names w !! name = None →
  ∃ creator w1 opener w2 w3 w4,
    run exec (create id_layout size_of_DynamicConfig b ty) w = (Return (Ok creator), w1) ∧
    counted w1 (length (shms w)) 1 ∧ stored w1 (length (files w)) (service_config (base b')) ∧
    run exec (open size_of_DynamicConfig fuel o ty) w1 = (Return (Ok opener), w2) ∧
    static_config opener = static_config creator ∧ counted w2 (length (shms w)) 2 ∧
    run exec (service_state_drop fuel creator) w2 = (Return tt, w3) ∧ counted w3 (length (shms w)) 1 ∧
    run exec (service_state_drop fuel opener) w3 = (Return tt, w4) ∧
    file_names w4 = file_names w ∧ shm_names w4 = shm_names w.
Proof using SL.
  intros Hcr Hnm Ho' Hnmo Hdir Hl Hs Hports Hsz Hf Hp Hn. set (d := length (shms w)).
  destruct (memory_size_value id_layout Hl Hs _ _ Hports) as [Hms Hmb].
  set (needed := container_bytes id_layout _ + _) in *.
  assert (size_of_DynamicConfig + 2 * needed < USIZE) as Hsum by (unfold U32, USIZE in *; lia).
  destruct (run_create b b' ty bytes v scfg dcfg n dir w needed) as [dirs Hc]; try done; try lia.
  { apply (init_safe id_layout Hl Hs); [exact Hports|lia|reflexivity|exact Hsum]. }
  set (w1 := with_service w dirs bytes _) in Hc.
  assert (counted w1 d 1) as H1.
  { split; cbn; [by rewrite lookup_insert_eq|]. eexists. rewrite lookup_app_r, Nat.sub_diag by done.
    split; [reflexivity|lia]. }
  assert (stored w1 (length (files w)) (service_config (base b'))) as Hst.
  { split; cbn; [by rewrite lookup_insert_eq|]. exists bytes. rewrite lookup_app_r, Nat.sub_diag by done.
    split; [done|apply Hcr]. }
  destruct (run_open b b' o u ty bytes v scfg dcfg n w1 (length (files w)) d 1) as (len & len' & Ho); try done.
  { unfold U32, USIZE in *. lia. }
  pose proof (counted_with_counter w1 d 1 2 H1) as H2.
  pose proof (counted_with_counter _ d 2 1 H2) as H3.
  do 6 eexists. split; [exact Hc|]. split; [exact H1|]. split; [exact Hst|]. split; [exact Ho|].
  split; [done|]. split; [exact H2|].
  split; [by apply (run_drop_more _ _ d 2)|]. split; [exact H3|].
  split; [apply (run_drop_last _ _ d (length (files w))); try done|].
  - rewrite with_counter_twice. unfold with_counter. destruct (shms w1 !! d); cbn; by rewrite lookup_insert_eq.
  - by destruct Hnm.
  - rewrite with_counter_twice, with_counter_id by done. cbn.
    by rewrite !delete_insert_id.
Qed.
End Runs.
