(* ===== verification/ServiceSystem.v ===== *)
(** * Processes that use one service, interleaved

    - [attempt]: how a process gets at a service; [actor]: what it does then;
    - [system_step]: one call of one process, or a process going on to its next phase;
      the operating system is any that behaves as [documented];
    - the theorems over all interleavings, and runs in which something goes wrong. *)

From S2P Require Import Prelude Elementary BumpAllocator ByteString SemanticString SystemTypes NamedConcept.
From S2P Require Import Processes Storages DynamicConfig ServiceConfig ServiceBuilder ServiceLifecycle ServiceSessions.

Import Naming.

Inductive attempt :=
| OpenPublishSubscribe (b : PublishSubscribeBuilder.Builder) (message_type : list Z)
| CreatePublishSubscribe (b : PublishSubscribeBuilder.Builder) (message_type : list Z)
| OpenOrCreatePublishSubscribe (b : PublishSubscribeBuilder.Builder) (message_type : list Z)
| OpenEvent (b : EventBuilder.Builder)
| CreateEvent (b : EventBuilder.Builder)
| OpenOrCreateEvent (b : EventBuilder.Builder).

(** A process builds the service, holds it, and leaves it. *)
Inductive actor :=
| Building (p : prog (option ServiceState))
| Holding (svc : ServiceState)
| Leaving (p : prog unit).

Definition success {E} (r : result ServiceState E) : option ServiceState :=
  match r with Ok svc => Some svc | Err _ => None end.

Definition attempt_base (a : attempt) : BuilderWithServiceType :=
  match a with
  | OpenPublishSubscribe b _ | CreatePublishSubscribe b _ | OpenOrCreatePublishSubscribe b _ =>
      PublishSubscribeBuilder.base b
  | OpenEvent b | CreateEvent b | OpenOrCreateEvent b => EventBuilder.base b
  end.

(** The configuration it writes when it creates the service. *)
Definition offers (a : attempt) (c : StaticConfig) : Prop :=
  match a with
  | OpenPublishSubscribe _ _ | OpenEvent _ => False
  | CreatePublishSubscribe b ty =>
      ∃ b', ps_created b ty = Return b' ∧ c = service_config (PublishSubscribeBuilder.base b')
  | OpenOrCreatePublishSubscribe b ty =>
      ∃ b' b'', PublishSubscribeBuilder.update_details b (PublishSubscribeBuilder.set_type_name ty) = Return b' ∧
        ps_created b' ty = Return b'' ∧ c = service_config (PublishSubscribeBuilder.base b'')
  | CreateEvent b | OpenOrCreateEvent b =>
      ∃ b', EventBuilder.adjust_properties_to_meaningful_values b = Return b' ∧
        c = service_config (EventBuilder.base b')
  end.

(** It accepts the service as it is. *)
Definition undemanding (a : attempt) : Prop :=
  match a with
  | OpenPublishSubscribe b _ | OpenOrCreatePublishSubscribe b _ => ps_undemanding b
  | OpenEvent b | OpenOrCreateEvent b => event_undemanding b
  | CreatePublishSubscribe _ _ | CreateEvent _ => True
  end.

Section System.
Context `{P : Profile} {Env : Settings} {S : Serializer}.
Context (id_layout : Layout) (size_of_DynamicConfig : Z) (fuel : nat).

Definition build (a : attempt) : prog (option ServiceState) :=
  match a with
  | OpenPublishSubscribe b ty =>
      let* r := PublishSubscribeBuilder.open size_of_DynamicConfig fuel b ty in ret (success r)
  | CreatePublishSubscribe b ty =>
      let* r := PublishSubscribeBuilder.create id_layout size_of_DynamicConfig b ty in ret (success r)
  | OpenOrCreatePublishSubscribe b ty =>
      let* r := PublishSubscribeBuilder.open_or_create id_layout size_of_DynamicConfig fuel b ty in
      ret (success r)
  | OpenEvent b => let* r := EventBuilder.open size_of_DynamicConfig fuel b in ret (success r)
  | CreateEvent b => let* r := EventBuilder.create id_layout size_of_DynamicConfig b in ret (success r)
  | OpenOrCreateEvent b =>
      let* r := EventBuilder.open_or_create id_layout size_of_DynamicConfig fuel b in ret (success r)
  end.

Definition start (a : attempt) : actor := Building (build a).

Context (os : world → ∀ q : request, response q → world → Prop).

Inductive system_step : world * list actor → world * list actor → Prop :=
| step_building w w' as1 q k as2 r :
    os w q r w' → system_step (w, as1 ++ Building (Call q k) :: as2) (w', as1 ++ Building (k r) :: as2)
| step_built w as1 svc as2 :
    system_step (w, as1 ++ Building (Done (Return (Some svc))) :: as2) (w, as1 ++ Holding svc :: as2)
| step_leave w as1 svc as2 :
    system_step (w, as1 ++ Holding svc :: as2) (w, as1 ++ Leaving (service_state_drop fuel svc) :: as2)
| step_leaving w w' as1 q k as2 r :
    os w q r w' → system_step (w, as1 ++ Leaving (Call q k) :: as2) (w', as1 ++ Leaving (k r) :: as2).

Definition system_reachable : world * list actor → world * list actor → Prop := rtc system_step.

(** ** The roles of the actors *)

Context (path name : list Z) (offered : StaticConfig → Prop) (f0 d0 : nat) (strict : Prop).
#[local] Notation wp := (wp path name (complete offered) strict).
#[local] Notation Inv := (Inv path name (complete offered) f0 d0).
#[local] Notation Clean := (Clean path name).
#[local] Notation held := (held path name offered).

Definition actor_ok (ρ : role) (a : actor) : Prop :=
  match a with
  | Building p => wp ρ p (λ ρ o,
      match o with Some svc => ∃ d, ρ = Holder d ∧ held svc d | None => strict → no_claim ρ = true end)
  | Holding svc => ∃ d, ρ = Holder d ∧ held svc d
  | Leaving p => wp ρ p (λ ρ _, no_claim ρ = true)
  end.

Definition system_inv (s : world * list actor) : Prop :=
  ∃ ρs, Inv s.1 ρs ∧ (strict → Clean s.1 ρs) ∧ Forall2 actor_ok ρs s.2.

Context (os_documented : ∀ w q r w', os w q r w' → documented w q w' r).
Context (os_reliable : strict → ∀ w q r w', os w q r w' → reliable w q w' r).

(** One call of one program. *)
Lemma call_step w w' ρs1 ρ ρs2 q r :
  Inv w (ρs1 ++ ρ :: ρs2) → (strict → Clean w (ρs1 ++ ρ :: ρs2)) →
  allowed path name (complete offered) ρ q → os w q r w' →
  answers (complete offered) strict ρ q r ∧ Inv w' (ρs1 ++ next ρ q r :: ρs2) ∧
  (strict → Clean w' (ρs1 ++ next ρ q r :: ρs2)).
Proof using os_documented os_reliable.
  intros HI HC Ha Hos. pose proof (os_documented _ _ _ _ Hos) as Hdoc.
  assert ((ρs1 ++ ρ :: ρs2) !! length ρs1 = Some ρ) as Hi by (by rewrite lookup_app_r, Nat.sub_diag by lia).
  assert (<[length ρs1 := next ρ q r]> (ρs1 ++ ρ :: ρs2) = ρs1 ++ next ρ q r :: ρs2) as <-.
  { by rewrite insert_app_r_alt, Nat.sub_diag by lia. }
  split; [eapply protocol_answers; eauto|]. split; [by eapply protocol_inv|].
  intros Hs. eapply protocol_clean; eauto.
Qed.

Lemma system_step_inv s s' : system_inv s → system_step s s' → system_inv s'.
Proof using os_documented os_reliable.
  intros (ρs & HI & HC & Hok) Hstep.
  destruct Hstep as [w w' as1 q k as2 r Hos|w as1 svc as2|w as1 svc as2|w w' as1 q k as2 r Hos]; cbn in *;
    apply Forall2_app_inv_r in Hok as (ρs1 & [|ρ ρs2] & H1 & H2 & ->); inversion H2 as [|? ? ? ? Hρ H2']; subst.
  - destruct Hρ as [Ha Hk]. destruct (call_step w w' ρs1 ρ ρs2 q r HI HC Ha Hos) as (Hr & HI' & HC').
    exists (ρs1 ++ next ρ q r :: ρs2). split_and!; try done.
    apply Forall2_app; [done|]. constructor; [by apply Hk|done].
  - exists (ρs1 ++ ρ :: ρs2). split_and!; try done. apply Forall2_app; [done|]. by constructor.
  - exists (ρs1 ++ ρ :: ρs2). split_and!; try done. apply Forall2_app; [done|]. constructor; [|done].
    destruct Hρ as (d & -> & Hh). by eapply wp_service_state_drop.
  - destruct Hρ as [Ha Hk]. destruct (call_step w w' ρs1 ρ ρs2 q r HI HC Ha Hos) as (Hr & HI' & HC').
    exists (ρs1 ++ next ρ q r :: ρs2). split_and!; try done.
    apply Forall2_app; [done|]. constructor; [by apply Hk|done].
Qed.

Lemma system_reachable_inv s s' : system_inv s → system_reachable s s' → system_inv s'.
Proof using os_documented os_reliable. intros Hs. induction 1; eauto using system_step_inv. Qed.

(** At the beginning nobody has a claim. *)
Lemma Inv_idle w n :
  Z.of_nat n < MARKED_FOR_DESTRUCTION → file_names w !! path = None → shm_names w !! name = None →
  f0 = length (files w) → d0 = length (shms w) → Inv w (replicate n Idle) ∧ Clean w (replicate n Idle).
Proof.
  intros Hn Hp Hs -> ->. split; [constructor|constructor]; rewrite ?length_replicate, ?Hp, ?Hs; try done.
  - intros f o Hf Ho%lookup_lt_Some. lia.
  - by intros i ρ [-> _]%lookup_replicate.
  - by intros i ρ [-> _]%lookup_replicate.
  - intros i j ρ ρ' _ [-> _]%lookup_replicate _. by left.
  - intros d o Hd Ho%lookup_lt_Some. lia.
Qed.

Context {SL : SerializerLaws S}.
Context (serializes : strict → ∀ c, offered c → serialize c ≠ Return (Err tt)).

Lemma build_ok a :
  resources path name (attempt_base a) → (∀ c, offers a c → offered c) → (strict → undemanding a) →
  actor_ok Idle (start a).
Proof using SL serializes.
  intros Hr Ho Hu. destruct a as [b ty|b ty|b ty|b|b|b]; cbn in Hr, Hu; cbn [actor_ok start build];
    apply wp_bind.
  - eapply wp_mono; [|by apply wp_ps_open]. by intros ρ [].
  - eapply wp_mono; [|apply wp_ps_create; try done; intros b' Hb'; apply Ho; by exists b']. by intros ρ [].
  - eapply wp_mono; [|apply wp_ps_open_or_create; try done; intros b' b'' H1 H2; apply Ho; by exists b', b''].
    by intros ρ [].
  - eapply wp_mono; [|by apply wp_event_open]. by intros ρ [].
  - eapply wp_mono; [|apply wp_event_create; try done; intros b' Hb'; apply Ho; by exists b']. by intros ρ [].
  - eapply wp_mono; [|apply wp_event_open_or_create; try done; intros b' Hb'; apply Ho; by exists b'].
    by intros ρ [].
Qed.

Lemma start_inv attempts w :
  Forall (λ a, resources path name (attempt_base a)) attempts →
  (∀ a c, a ∈ attempts → offers a c → offered c) → (strict → Forall undemanding attempts) →
  Z.of_nat (length attempts) < MARKED_FOR_DESTRUCTION →
  file_names w !! path = None → shm_names w !! name = None → f0 = length (files w) → d0 = length (shms w) →
  system_inv (w, start <$> attempts).
Proof using SL serializes.
  intros Hr Ho Hu Hn Hp Hs Hf Hd. exists (replicate (length attempts) Idle).
  destruct (Inv_idle w (length attempts)) as [HI HC]; try done. split; [done|]. split; [done|].
  apply Forall2_same_length_lookup. cbn. rewrite length_replicate, length_fmap. split; [done|].
  intros i ρ a [-> _]%lookup_replicate Ha. apply list_lookup_fmap_Some in Ha as (x & -> & Hx).
  apply list_elem_of_lookup_2 in Hx as Hin. rewrite Forall_forall in Hr.
  apply build_ok; [by apply Hr|intros c; by apply (Ho x)|]. intros Hst. specialize (Hu Hst). rewrite Forall_forall in Hu.
  by apply Hu.
Qed.
End System.

(** ** Theorems *)

Definition is_holding (a : actor) : bool := match a with Holding _ => true | _ => false end.
Definition number_of_holders (actors : list actor) : nat := length (List.filter is_holding actors).

(** The process is done: it failed, or it has left the service. *)
Definition finished (a : actor) : Prop :=
  match a with Building (Done (Return None)) | Leaving (Done (Return _)) => True | _ => False end.

Definition object_of (svc : ServiceState) : nat := DynamicShm.shm_object (DynamicShm.d_shm (dynamic_storage svc)).

Section Theorems.
Context `{P : Profile} {Env : Settings} {S : Serializer} {SL : SerializerLaws S}.
Context (id_layout : Layout) (size_of_DynamicConfig : Z) (fuel : nat).
Context (os : world → ∀ q : request, response q → world → Prop).
Context (os_documented : ∀ w q r w', os w q r w' → documented w q w' r).
Context (path name : list Z) (attempts : list attempt) (w0 : world).
Context (same_service : Forall (λ a, resources path name (attempt_base a)) attempts).
Context (few : Z.of_nat (length attempts) < MARKED_FOR_DESTRUCTION).
Context (no_file : file_names w0 !! path = None) (no_shm : shm_names w0 !! name = None).

#[local] Notation reachable :=
  (system_reachable fuel os (w0, start id_layout size_of_DynamicConfig fuel <$> attempts)).

Definition offered_by_some (c : StaticConfig) : Prop := ∃ a, a ∈ attempts ∧ offers a c.

Lemma reachable_inv (strict : Prop) s :
  (strict → ∀ w q r w', os w q r w' → reliable w q w' r) → (strict → Forall undemanding attempts) →
  (strict → ∀ c, offered_by_some c → serialize c ≠ Return (Err tt)) →
  reachable s →
  system_inv path name offered_by_some (length (files w0)) (length (shms w0)) strict s.
Proof using SL few no_file no_shm os_documented same_service.
  intros Hrel Hu Hser Hr. eapply system_reachable_inv; [done|exact Hrel| |exact Hr].
  eapply start_inv; try done. intros a c Ha Hc. by exists a.
Qed.

(** Holders count. *)
Lemma holders_counted (strict : Prop) ρs actors d :
  Forall2 (actor_ok path name offered_by_some strict) ρs actors →
  (∀ ρ d', ρ ∈ ρs → ρ = Holder d' → d' = d) → (number_of_holders actors ≤ references d ρs)%nat.
Proof.
  intros Hok. induction Hok as [|ρ a ρs actors Ha Hok IH]; intros Hd; [cbn; lia|].
  specialize (IH ltac:(intros ρ' d' Hin; apply Hd; by right)).
  unfold number_of_holders, references in *. cbn. destruct a; cbn in *; try lia.
  destruct Ha as (d' & -> & _). rewrite (Hd _ d') by (by left || done).
  rewrite (proj2 (counts_one d (Holder d))) by done. lia.
Qed.

(** C2. A service lives as long as somebody holds it. However the calls of any number
    of processes that create, open and leave the service are interleaved, and
    whichever of them fail: while a process holds the service, its static storage
    exists, its dynamic storage exists under its name and is the one this process has
    opened, completely set up, and the reference counter is at least the number of
    holders and not the mark of destruction. In particular all holders share one
    dynamic storage. *)
Theorem held_service_is_alive w actors i svc :
  reachable (w, actors) → actors !! i = Some (Holding svc) →
  is_Some (file_names w !! path) ∧ shm_names w !! name = Some (object_of svc) ∧
  ∃ o, shms w !! object_of svc = Some o ∧ shm_final o = true ∧
    Z.of_nat (number_of_holders actors) ≤ counter o < MARKED_FOR_DESTRUCTION.
Proof using SL few no_file no_shm os_documented same_service.
  intros Hr Hi. destruct (reachable_inv False _ ltac:(done) ltac:(done) ltac:(done) Hr) as (ρs & HI & _ & Hok).
  cbn in HI, Hok. destruct (Forall2_lookup_r _ _ _ _ _ Hok Hi) as (ρ & Hρ & (d & -> & Hh)).
  destruct Hh as ((Hd & _) & _). unfold object_of. rewrite Hd.
  split; [by eapply (inv_claims _ _ _ _ _ _ _ HI)|].
  destruct (inv_facts _ _ _ _ _ _ _ HI _ _ Hρ) as (Hd0 & o & Ho & Hfin).
  assert (0 < references d ρs)%nat as Hpos by (apply references_pos; eauto).
  destruct (inv_counters _ _ _ _ _ _ _ HI d o Hd0 Ho Hfin) as [[_ Hz]|(Hc & _ & Hs)]; [lia|].
  split; [done|]. exists o. split; [done|]. split; [done|]. rewrite Hc.
  pose proof (references_le d ρs). pose proof (inv_few _ _ _ _ _ _ _ HI). split; [|lia].
  apply inj_le, (holders_counted False); [done|]. intros ρ' d' [j Hj]%list_elem_of_lookup_1 ->.
  destruct (decide (i = j)) as [<-|Hij]; [congruence|].
  destruct (inv_compatible _ _ _ _ _ _ _ HI i j _ _ Hij Hρ Hj) as [?|[?|(He & _)]]; try done.
  by injection He.
Qed.

(** C13. Nobody reads a half-written configuration. A process that holds a service has
    the settings that one of the processes offered when it created the service, no
    matter how creation, opening and removal overlap. *)
Theorem held_configuration_was_offered w actors i svc :
  reachable (w, actors) → actors !! i = Some (Holding svc) →
  ∃ a c, a ∈ attempts ∧ offers a c ∧
    ServiceConfig.messaging_pattern (static_config svc) = ServiceConfig.messaging_pattern c.
Proof using SL few no_file no_shm os_documented same_service.
  intros Hr Hi. destruct (reachable_inv False _ ltac:(done) ltac:(done) ltac:(done) Hr) as (ρs & HI & _ & Hok).
  cbn in Hok. destruct (Forall2_lookup_r _ _ _ _ _ Hok Hi) as (ρ & _ & (d & _ & Hh)).
  destruct Hh as (_ & _ & _ & c & (a & Ha & Hc) & Hp). by exists a, c.
Qed.

(** C3. Nothing is left behind. On an operating system that does not fail where a
    service is set up or removed, processes that require nothing special of an
    existing service, and whose configurations can be serialized, remove it: when all of them
    have failed or left, neither the static nor the dynamic storage exists any more. (A
    builder that does require something leaves both behind when the existing service does not
    fulfil it, also on an operating system that does not fail:
    [ServiceScenarios.refused_open_leaks_a_reference].) *)
Theorem everything_is_removed w actors :
  (∀ w q r w', os w q r w' → reliable w q w' r) → Forall undemanding attempts →
  (∀ a c, a ∈ attempts → offers a c → serialize c ≠ Return (Err tt)) →
  reachable (w, actors) → Forall finished actors →
  file_names w !! path = None ∧ shm_names w !! name = None.
Proof using SL few no_file no_shm os_documented same_service.
  intros Hrel Hu Hser Hr Hfin.
  destruct (reachable_inv True _ ltac:(done) ltac:(done) ltac:(intros _ c (a & Ha & Hc); by eapply Hser) Hr)
    as (ρs & _ & HC & Hok). cbn in HC, Hok. specialize (HC I).
  assert (∀ i ρ, ρs !! i = Some ρ → no_claim ρ = true) as Hn.
  { intros i ρ Hi. destruct (Forall2_lookup_l _ _ _ _ _ Hok Hi) as (a & Ha & Hoka).
    pose proof (Forall_lookup_1 _ _ _ _ Hfin Ha) as Hf.
    destruct a as [[[[]| |]|]| |[[]|]]; try done. by apply Hoka. }
  destruct HC as [HCf HCs]. split.
  - destruct (file_names w !! path) as [f|]; [|done]. destruct (HCf ltac:(by eexists)) as (i & ρ & Hi & Hc).
    rewrite (Hn i ρ Hi) in Hc. done.
  - destruct (shm_names w !! name) as [d|] eqn:E; [|done]. destruct (HCs d eq_refl) as (i & ρ & Hi & Hc).
    pose proof (Hn i ρ Hi). by destruct ρ.
Qed.
End Theorems.
