(* ===== verification/ServiceScenarios.v ===== *)
(** * Runs of services

    Concrete processes with a concrete serializer and a concrete hash: the hypotheses
    of [ServiceSystem] can hold, and what happens in runs the code does not handle. *)

From S2P Require Import Prelude Elementary BumpAllocator ByteString SemanticString SystemTypes NamedConcept.
From S2P Require Import Processes Storages DynamicConfig ServiceConfig ServiceBuilder ServiceLifecycle ServiceSessions ServiceRuns ServiceSystem.
From stdpp Require Import strings countable.
Open Scope Z_scope.

Import Naming.
Import Bytes(FixedSizeByteString, bytes_of_string).

(** ** A schedule of calls *)

Section Schedule.
Context `{P : Profile} {Env : Settings}.
Context (fuel : nat).

(** The operating system [exec], where an access to memory needs the memory. *)
Definition os_exec (w : world) (q : request) (r : response q) (w' : world) : Prop :=
  mapped w q ∧ exec w q = (w', r).

Lemma os_exec_documented w q r w' : os_exec w q r w' → documented w q w' r.
Proof. intros [Hm He]. pose proof (exec_documented w q Hm) as Hd. by rewrite He in Hd. Qed.
Lemma os_exec_reliable w q r w' : os_exec w q r w' → reliable w q w' r.
Proof. intros [_ He]. pose proof (exec_reliable w q) as Hd. by rewrite He in Hd. Qed.

#[global] Instance mapped_dec w q : Decision (mapped w q).
Proof. destruct q; cbn; apply _. Defined.

Definition step_actor (w : world) (a : actor) : option (world * actor) :=
  match a with
  | Building (Call q k) =>
      if decide (mapped w q) then let '(w, r) := exec w q in Some (w, Building (k r)) else None
  | Building (Done (Return (Some svc))) => Some (w, Holding svc)
  | Building (Done _) => None
  | Holding svc => Some (w, Leaving (service_state_drop fuel svc))
  | Leaving (Call q k) =>
      if decide (mapped w q) then let '(w, r) := exec w q in Some (w, Leaving (k r)) else None
  | Leaving (Done _) => None
  end.

(** The processes make steps in the given order. *)
Fixpoint schedule (order : list nat) (s : world * list actor) : option (world * list actor) :=
  match order with
  | [] => Some s
  | i :: order =>
      match s.2 !! i with
      | Some a =>
          match step_actor s.1 a with
          | Some (w, a) => schedule order (w, <[i := a]> s.2)
          | None => None
          end
      | None => None
      end
  end.

Lemma step_actor_step w w' actors i a a' :
  actors !! i = Some a → step_actor w a = Some (w', a') →
  system_step fuel os_exec (w, actors) (w', <[i := a']> actors).
Proof.
  intros Hi Hs. destruct (list_elem_of_split_length _ _ _ Hi) as (l1 & l2 & -> & ->).
  rewrite insert_app_r_alt, Nat.sub_diag by lia. cbn.
  destruct a as [[[[svc|]| |]|q k]|svc|[[]|q k]]; cbn in Hs; try done.
  - injection Hs as <- <-. constructor.
  - destruct (decide (mapped w q)); [|done]. destruct (exec w q) as [w1 r] eqn:E. injection Hs as <- <-.
    by constructor.
  - injection Hs as <- <-. constructor.
  - destruct (decide (mapped w q)); [|done]. destruct (exec w q) as [w1 r] eqn:E. injection Hs as <- <-.
    by constructor.
Qed.

Lemma schedule_reachable order s s' : schedule order s = Some s' → system_reachable fuel os_exec s s'.
Proof.
  revert s. induction order as [|i order IH]; intros [w actors]; cbn [schedule]; [by intros [= <-]; apply rtc_refl|].
  cbn. destruct (actors !! i) as [a|] eqn:Hi; [|done]. destruct (step_actor w a) as [[w1 a1]|] eqn:Ha; [|done].
  intros Hs. eapply rtc_l; [by eapply step_actor_step|]. by apply IH.
Qed.
End Schedule.

(** ** A serializer and a hash *)

#[local] Instance FixedSizeByteString_eq_dec : EqDecision FixedSizeByteString.
Proof. solve_decision. Defined.
#[local] Instance FixedSizeByteString_countable : Countable FixedSizeByteString.
Proof.
  apply (inj_countable' (λ s, (Bytes.len s, Bytes.memory s)) (λ p, Bytes.mkString p.1 p.2)). by intros [].
Defined.
#[local] Instance PubSubStaticConfig_eq_dec : EqDecision PubSubStaticConfig.
Proof. solve_decision. Defined.
#[local] Instance PubSubStaticConfig_countable : Countable PubSubStaticConfig.
Proof.
  apply (inj_countable'
    (λ v, (max_subscribers v, max_publishers v, history_size v, subscriber_buffer_size v,
           subscriber_max_borrowed_samples v, enable_safe_overflow v, type_name v))
    (λ '(a, b, c, d, e, f, g), mkPubSubStaticConfig a b c d e f g)). by intros [].
Defined.
#[local] Instance EventStaticConfig_eq_dec : EqDecision EventStaticConfig.
Proof. solve_decision. Defined.
#[local] Instance EventStaticConfig_countable : Countable EventStaticConfig.
Proof.
  apply (inj_countable' (λ v, (max_notifiers v, max_listeners v)) (λ '(a, b), mkEventStaticConfig a b)).
  by intros [].
Defined.
#[local] Instance MessagingPattern_eq_dec : EqDecision MessagingPattern.
Proof. solve_decision. Defined.
#[local] Instance MessagingPattern_countable : Countable MessagingPattern.
Proof.
  apply (inj_countable'
    (λ p, match p with PublishSubscribe v => inl v | Event v => inr v end)
    (λ p, match p with inl v => PublishSubscribe v | inr v => Event v end)). by intros [].
Defined.
#[local] Instance StaticConfig_eq_dec : EqDecision StaticConfig.
Proof. solve_decision. Defined.
#[local] Instance StaticConfig_countable : Countable StaticConfig.
Proof.
  apply (inj_countable' (λ c, (uuid c, service_name c, ServiceConfig.messaging_pattern c))
    (λ '(a, b, c), mkStaticConfig a b c)). by intros [].
Defined.

(** One cell holds everything. *)
#[local] Instance one_cell : Serializer := {|
  serialize c := Return (Ok [Zpos (encode c)]);
  deserialize bytes :=
    match bytes with
    | [Zpos p] => match decode p with Some c => Ok c | None => Err tt end
    | _ => Err tt
    end |}.
#[local] Instance one_cell_laws : SerializerLaws one_cell.
Proof. constructor. intros c bytes [= <-]. cbn. by rewrite decode_encode. Qed.

(** The length of the name, forty times. *)
#[local] Instance length_hash : ServiceNameHasher := {|
  hash_hex bytes := replicate 40 (48 + Z.of_nat (length bytes) mod 10) |}.
#[local] Instance length_hash_laws : ServiceNameHasherLaws length_hash.
Proof.
  split; intros bs; cbn [hash_hex length_hash]; [by rewrite length_replicate|].
  apply Forall_replicate. left. pose proof (Z.mod_pos_bound (Z.of_nat (length bs)) 10). lia.
Qed.

(** ** The example service *)

#[local] Existing Instance settings_unix.
#[local] Instance debug : Profile := true.

Definition my_layout : Layout := mkLayout 16 16.
Definition my_size : Z := 256.
Definition rounds : nat := 10.
Definition u64 : list Z := bytes_of_string "u64".

(** The builders for a name; [unwrap] of the name. *)
Definition ps_builder (text : list Z) : outcome PublishSubscribeBuilder.Builder :=
  let! n := unwrap (Semantic.new ServiceName text) in
  let! c := new_publish_subscribe n default_entries in
  Return (PublishSubscribeBuilder.new (mkBase c default_entries)).
Definition event_builder (text : list Z) : outcome EventBuilder.Builder :=
  let! n := unwrap (Semantic.new ServiceName text) in
  let! c := new_event n default_entries in
  Return (EventBuilder.new (mkBase c default_entries)).

Definition my_path : list Z := bytes_of_string "/tmp/services/7777777777777777777777777777777777777777.service".
Definition my_name : list Z := bytes_of_string "7777777777777777777777777777777777777777.dynamic".

(** The example: the value of an outcome that is known to return. *)
Definition get {A} (d : A) (o : outcome A) : A := match o with Return a => a | _ => d end.
Definition no_config : StaticConfig :=
  mkStaticConfig [] (Bytes.mkString 0 []) (Event (mkEventStaticConfig 0 0)).
Definition my_service : PublishSubscribeBuilder.Builder :=
  Eval vm_compute in
    get (PublishSubscribeBuilder.new (mkBase no_config default_entries)) (ps_builder (bytes_of_string "example")).
Definition my_event : EventBuilder.Builder :=
  Eval vm_compute in
    get (EventBuilder.new (mkBase no_config default_entries)) (event_builder (bytes_of_string "example")).

Lemma my_resources :
  resources my_path my_name (PublishSubscribeBuilder.base my_service) ∧
  resources my_path my_name (EventBuilder.base my_event).
Proof. split; split; vm_compute; reflexivity. Qed.

(** ** Witnesses of the theorems of [ServiceSystem] *)

(** A computed view of the state a schedule leads to. *)
Lemma scenario {A B} (s : option A) (view : A → B) (v : B) :
  option_map view s = Some v → ∃ a, s = Some a ∧ view a = v.
Proof. destruct s as [a|]; cbn; [|done]. intros [= <-]. by exists a. Qed.

Definition pub_sub_of (svc : ServiceState) : option PubSubStaticConfig :=
  match ServiceConfig.messaging_pattern (static_config svc) with PublishSubscribe v => Some v | Event _ => None end.

(** What the holders have: the object and the number of subscribers. *)
Definition holding (a : actor) : option (nat * option Z) :=
  match a with
  | Holding svc => Some (object_of svc, max_subscribers <$> pub_sub_of svc)
  | _ => None
  end.

Definition two_processes : list attempt :=
  [CreatePublishSubscribe my_service u64; OpenPublishSubscribe my_service u64].
Definition after (attempts : list attempt) (order : list nat) : option (world * list actor) :=
  schedule rounds order (empty_world, start my_layout my_size rounds <$> attempts).

Lemma after_reachable attempts order s :
  after attempts order = Some s →
  system_reachable rounds os_exec (empty_world, start my_layout my_size rounds <$> attempts) s.
Proof. apply schedule_reachable. Qed.

(** One process creates, the other opens. *)
Definition created_and_opened : list nat := replicate 10 0%nat ++ replicate 12 1%nat.
Definition both_left : list nat := created_and_opened ++ replicate 3 0%nat ++ replicate 5 1%nat.

Lemma two_processes_resources :
  Forall (λ a, resources my_path my_name (attempt_base a)) two_processes.
Proof. repeat constructor; apply my_resources. Qed.

Lemma my_path_free : file_names empty_world !! my_path = None.
Proof. reflexivity. Qed.
Lemma my_name_free : shm_names empty_world !! my_name = None.
Proof. reflexivity. Qed.

Lemma held_service_is_alive_witness :
  ∃ w actors svc, after two_processes created_and_opened = Some (w, actors) ∧
    actors !! 1%nat = Some (Holding svc) ∧ shm_names w !! my_name = Some (object_of svc) ∧
    ∃ o, shms w !! object_of svc = Some o ∧ 2 ≤ counter o.
Proof.
  destruct (scenario (after two_processes created_and_opened)
              (λ s, (number_of_holders s.2, s.2 !! 1%nat ≫= holding)) (2%nat, Some (0%nat, Some 8)))
    as ([w actors] & Hs & Hv); [vm_compute; reflexivity|].
  cbn [fst snd] in Hv. injection Hv as Hn Hh. destruct (actors !! 1%nat) as [[|svc|]|] eqn:Hi; try discriminate Hh.
  destruct (held_service_is_alive my_layout my_size rounds os_exec os_exec_documented my_path my_name
              two_processes empty_world two_processes_resources ltac:(vm_compute; reflexivity) my_path_free
              my_name_free w actors 1 svc (after_reachable _ _ _ Hs) Hi) as (_ & Hb & o & Ho & _ & Hc & _).
  rewrite Hn in Hc. exists w, actors, svc. exact (conj Hs (conj Hi (conj Hb (ex_intro _ o (conj Ho Hc))))).
Defined.

Lemma held_configuration_was_offered_witness :
  ∃ w actors svc a c, after two_processes created_and_opened = Some (w, actors) ∧
    actors !! 1%nat = Some (Holding svc) ∧ a ∈ two_processes ∧ offers a c ∧
    ServiceConfig.messaging_pattern (static_config svc) = ServiceConfig.messaging_pattern c.
Proof.
  destruct (scenario (after two_processes created_and_opened)
              (λ s, s.2 !! 1%nat ≫= holding) (Some (0%nat, Some 8)))
    as ([w actors] & Hs & Hh); [vm_compute; reflexivity|].
  cbn [fst snd] in Hh. destruct (actors !! 1%nat) as [[|svc|]|] eqn:Hi; try discriminate Hh.
  destruct (held_configuration_was_offered my_layout my_size rounds os_exec os_exec_documented my_path my_name
              two_processes empty_world two_processes_resources ltac:(vm_compute; reflexivity) my_path_free
              my_name_free w actors 1 svc (after_reachable _ _ _ Hs) Hi) as (a & c & Ha & Ho & Hc).
  exists w, actors, svc, a, c. exact (conj Hs (conj Hi (conj Ha (conj Ho Hc)))).
Defined.

Lemma everything_is_removed_witness :
  ∃ w actors, after two_processes both_left = Some (w, actors) ∧ Forall finished actors ∧
    file_names w !! my_path = None ∧ shm_names w !! my_name = None.
Proof.
  destruct (scenario (after two_processes both_left)
              (λ s, (λ a, match a with Leaving (Done (Return _)) => true | _ => false end) <$> s.2) [true; true])
    as ([w actors] & Hs & Hv); [vm_compute; reflexivity|].
  assert (Forall finished actors) as Hf.
  { cbn [snd] in Hv. destruct actors as [|[|?|[[]|]] [|[|?|[[]|]] [|]]]; try discriminate Hv. repeat constructor. }
  exists w, actors. split; [exact Hs|]. split; [exact Hf|].
  apply (everything_is_removed my_layout my_size rounds os_exec os_exec_documented my_path my_name
           two_processes empty_world two_processes_resources ltac:(vm_compute; reflexivity) my_path_free
           my_name_free w actors os_exec_reliable).
  - repeat constructor.
  - intros a c _ _ Hc. discriminate Hc.
  - exact (after_reachable _ _ _ Hs).
  - exact Hf.
Defined.

(** ** Witness of the theorem of [ServiceRuns] *)

(** Who opens requires a buffer for one sample. *)
Definition my_opener : PublishSubscribeBuilder.Builder :=
  get my_service (PublishSubscribeBuilder.with_subscriber_buffer_size my_service 1).

Lemma service_round_trip_witness :
  ∃ creator w1 opener w2 w3 w4,
    run exec (PublishSubscribeBuilder.create my_layout my_size my_service u64) empty_world = (Return (Ok creator), w1) ∧
    counted my_size my_name w1 0 1 ∧
    run exec (PublishSubscribeBuilder.open my_size rounds my_opener u64) w1 = (Return (Ok opener), w2) ∧
    static_config opener = static_config creator ∧ counted my_size my_name w2 0 2 ∧
    run exec (service_state_drop rounds creator) w2 = (Return tt, w3) ∧ counted my_size my_name w3 0 1 ∧
    run exec (service_state_drop rounds opener) w3 = (Return tt, w4) ∧
    file_names w4 = ∅ ∧ shm_names w4 = ∅.
Proof.
  pose (b' := get my_service (ps_created my_service u64)).
  pose (u := get (pub_sub_static_new default_entries) (PublishSubscribeBuilder.config_details my_opener)).
  pose (n := get (Bytes.mkString 0 []) (unwrap (Semantic.new FileName (uuid (service_config (PublishSubscribeBuilder.base my_service)))))).
  pose (scfg := get (mkConfiguration n n) (static_config_storage_config default_entries)).
  pose (dcfg := get (mkConfiguration n n) (dynamic_config_storage_config default_entries)).
  destruct (service_round_trip my_layout my_size rounds my_path my_name my_service b' my_opener u u64
              [Zpos (encode (service_config (PublishSubscribeBuilder.base b')))] (pub_sub_static_new default_entries)
              scfg dcfg n (bytes_of_string "/tmp/services") empty_world)
    as (creator & w1 & opener & w2 & w3 & w4 & H1 & H2 & _ & H4 & H5 & H6 & H7 & H8 & H9 & H10 & H11).
  - constructor; [reflexivity|vm_compute; reflexivity|reflexivity|by left].
  - constructor; [vm_compute; reflexivity..| |]; (eexists; split; vm_compute; reflexivity).
  - constructor; [reflexivity..|]. constructor; intros H; try discriminate H. vm_compute. discriminate.
  - constructor; [vm_compute; reflexivity..| |]; (eexists; split; vm_compute; reflexivity).
  - vm_compute; reflexivity.
  - split; [cbn; lia|]. exists 4. split; [lia|reflexivity].
  - reflexivity.
  - vm_compute; repeat split; reflexivity.
  - split; [discriminate|reflexivity].
  - vm_compute; lia.
  - reflexivity.
  - reflexivity.
  - exists creator, w1, opener, w2, w3, w4. exact (conj H1 (conj H2 (conj H4 (conj H5 (conj H6 (conj H7 (conj H8 (conj H9 (conj H10 H11))))))))).
Defined.

(** ** What an opener may require *)

(** When [open] accepts an existing publish-subscribe service: every limit the
    caller has set is at most that of the service, and, if the caller has set it, the
    overflow behaviour is the opposite of that of the service: the comparison is the
    wrong way round, a service with the requested behaviour is refused. *)
Theorem pub_sub_requirements {P : Profile} b c required existing v :
  ServiceConfig.messaging_pattern (service_config (PublishSubscribeBuilder.base b)) = PublishSubscribe required →
  ServiceConfig.messaging_pattern c = PublishSubscribe existing →
  PublishSubscribeBuilder.verify_service_properties b c = Return (Ok v) ↔
  v = existing ∧
  (PublishSubscribeBuilder.verify_number_of_publishers b = true → max_publishers required ≤ max_publishers existing) ∧
  (PublishSubscribeBuilder.verify_number_of_subscribers b = true → max_subscribers required ≤ max_subscribers existing) ∧
  (PublishSubscribeBuilder.verify_subscriber_buffer_size b = true →
     subscriber_buffer_size required ≤ subscriber_buffer_size existing) ∧
  (PublishSubscribeBuilder.verify_publisher_history_size b = true → history_size required ≤ history_size existing) ∧
  (PublishSubscribeBuilder.verify_subscriber_max_borrowed_samples b = true →
     subscriber_max_borrowed_samples required ≤ subscriber_max_borrowed_samples existing) ∧
  (PublishSubscribeBuilder.verify_enable_safe_overflow b = true →
     enable_safe_overflow existing ≠ enable_safe_overflow required).
Proof.
  intros Hb Hc. unfold PublishSubscribeBuilder.verify_service_properties, publish_subscribe. rewrite Hb, Hc.
  cbn [obind].
  assert (∀ (f : bool) (x y : Z), (f = true → y ≤ x) ↔ f && (x <? y) = false) as Hlim.
  { intros [] x y; cbn; [|done]. rewrite Z.ltb_ge. tauto. }
  assert (∀ f x y : bool, (f = true → x ≠ y) ↔ f && Bool.eqb x y = false) as Hovf.
  { intros [] x y; cbn; [|done]. rewrite eqb_false_iff. tauto. }
  rewrite !Hlim, Hovf.
  repeat match goal with |- context [if ?x then _ else _] => destruct x end;
    (split; [intros Hx; first [discriminate Hx|injection Hx as <-; by split_and!]
            |intros (-> & ? & ? & ? & ? & ? & ?); done]).
Qed.

Lemma pub_sub_requirements_witness :
  ∃ b, PublishSubscribeBuilder.with_enable_safe_overflow my_service true = Return b ∧
    ¬ ∃ v, PublishSubscribeBuilder.verify_service_properties b
             (service_config (PublishSubscribeBuilder.base my_service)) = Return (Ok v).
Proof.
  eexists. split; [reflexivity|]. intros (v & Hv).
  apply (pub_sub_requirements (P := debug) _ _ (pub_sub_static_new default_entries)
           (pub_sub_static_new default_entries) v) in Hv as (_ & _ & _ & _ & _ & _ & Ho); [|reflexivity..].
  exact (Ho eq_refl eq_refl).
Defined.

(** ** Looking at services *)

(** C28. Listing services, or asking whether one exists, removes them: every static
    storage that is looked at is opened with ownership and therefore removed at the
    end of the round, whoever uses the service. *)
Theorem looking_at_a_service_removes_it `{P : Profile} {Env : Settings} {S : Serializer}
    path cfg n bytes on_read_error w f o :
  at_path path cfg n → Bytes.as_bytes n = Return bytes →
  file_names w !! path = Some f → files w !! f = Some o → file_final o = true →
  ∃ r, run exec (inspect cfg n on_read_error) w =
       (Return r, set_files w (delete path (file_names w)) (files w)).
Proof.
  intros (fp & Hp & Hfp) Hn Hf Ho Hfin.
  assert (∀ st, StaticFile.s_name st = n → StaticFile.s_config st = cfg → StaticFile.s_has_ownership st = true →
            run exec (StaticFile.drop st) w = (Return tt, set_files w (delete path (file_names w)) (files w))) as Hdrop.
  { intros st H1 H2 H3. unfold StaticFile.drop, StaticFile.remove_cfg, StaticFile.storage_path.
    rewrite H3, H1, H2, !run_bind. cbn. rewrite Hp. cbn. rewrite Hfp. cbn. rewrite Hf. done. }
  unfold inspect. rewrite run_bind. unfold StaticFile.open, StaticFile.storage_path, StaticFile.set_config, StaticFile.new.
  cbn [StaticFile.config StaticFile.storage_name StaticFile.has_ownership]. rewrite !run_bind. cbn -[StaticFile.drop]. rewrite Hp. cbn -[StaticFile.drop].
  rewrite Hfp. cbn -[StaticFile.drop]. rewrite Hf. cbn -[StaticFile.drop]. rewrite Ho. cbn -[StaticFile.drop]. rewrite Hfin. cbn -[StaticFile.drop]. rewrite run_bind.
  unfold StaticFile.read. cbn [StaticFile.s_file StaticFile.s_len]. rewrite length_replicate, Nat2Z.id. zbool.
  rewrite run_bind. cbn -[StaticFile.drop]. rewrite Ho. cbn -[StaticFile.drop]. rewrite Nat2Z.id, firstn_all, Z.eqb_refl. cbn -[StaticFile.drop].
  rewrite skipn_all2 by (by rewrite length_replicate). rewrite app_nil_r.
  destruct (deserialize (contents o)) as [c|]; cbn -[StaticFile.drop].
  - rewrite Hn. cbn -[StaticFile.drop]. rewrite run_bind, Hdrop by done. cbn -[StaticFile.drop]. case_bool; by eexists.
  - rewrite run_bind, Hdrop by done. by eexists.
Qed.

Lemma looking_at_a_service_removes_it_witness :
  ∃ cfg n w f o r, at_path my_path cfg n ∧ file_names w !! my_path = Some f ∧ files w !! f = Some o ∧
    run exec (inspect cfg n true) w = (Return r, set_files w (delete my_path (file_names w)) (files w)).
Proof.
  pose (n := get (Bytes.mkString 0 []) (unwrap (Semantic.new FileName (uuid (service_config (PublishSubscribeBuilder.base my_service)))))).
  pose (cfg := get (mkConfiguration n n) (static_config_storage_config default_entries)).
  pose (o := mkFile [] true). pose (w := mkWorld [] {[my_path := 0%nat]} [o] ∅ []).
  assert (at_path my_path cfg n) as Hat by (eexists; split; vm_compute; reflexivity).
  destruct (looking_at_a_service_removes_it my_path cfg n (replicate 40 55) true w 0 o Hat) as (r & Hr);
    [vm_compute; reflexivity|vm_compute; reflexivity|reflexivity|reflexivity|].
  exists cfg, n, w, 0%nat, o, r. split; [exact Hat|]. split; [vm_compute; reflexivity|]. split; [reflexivity|exact Hr].
Defined.

(** ** Runs the code does not handle *)

(** A service with other settings under the same name, and a caller with a
    requirement. *)
Definition smaller_service : PublishSubscribeBuilder.Builder :=
  Eval vm_compute in get my_service (PublishSubscribeBuilder.with_max_subscribers my_service 4).
Definition demanding : PublishSubscribeBuilder.Builder :=
  Eval vm_compute in get my_service (PublishSubscribeBuilder.with_max_subscribers my_service 9).

(** The settings of a holder can belong to another instance of the service than
    its dynamic storage: a process that has read the configuration when the service is
    removed and created again with other settings opens the dynamic storage of the new
    instance. Then two processes use the same dynamic storage with different
    settings. *)
Theorem settings_of_an_earlier_instance :
  ∃ w actors old new,
    system_reachable rounds os_exec
      (empty_world, start my_layout my_size rounds <$>
        [CreatePublishSubscribe my_service u64; OpenPublishSubscribe my_service u64;
         CreatePublishSubscribe smaller_service u64]) (w, actors) ∧
    actors !! 1%nat = Some (Holding old) ∧ actors !! 2%nat = Some (Holding new) ∧
    object_of old = object_of new ∧
    max_subscribers <$> pub_sub_of old = Some 8 ∧ max_subscribers <$> pub_sub_of new = Some 4.
Proof.
  pose (l := [CreatePublishSubscribe my_service u64; OpenPublishSubscribe my_service u64;
              CreatePublishSubscribe smaller_service u64]).
  pose (order := replicate 10 0%nat ++ replicate 7 1%nat ++ replicate 5 0%nat ++ replicate 9 2%nat ++
                 replicate 5 1%nat).
  destruct (scenario (after l order) (λ s, (s.2 !! 1%nat ≫= holding, s.2 !! 2%nat ≫= holding))
              (Some (1%nat, Some 8), Some (1%nat, Some 4)))
    as ([w actors] & Hs & Hv); [vm_compute; reflexivity|].
  cbn [snd] in Hv. injection Hv as H1 H2. destruct (actors !! 1%nat) as [[|old|]|] eqn:Hi; try discriminate H1.
  destruct (actors !! 2%nat) as [[|new|]|] eqn:Hj; try discriminate H2.
  cbn in H1, H2. injection H1 as Ho1 Hm1. injection H2 as Ho2 Hm2.
  exists w, actors, old, new. split; [exact (after_reachable _ _ _ Hs)|]. clear Hs.
  split_and!; [done..|congruence|done|done].
Qed.

(** An [open] whose requirements are not met keeps a reference to the service:
    the reference counter never gets back to zero and the service outlives all its
    users. *)
Theorem refused_open_leaks_a_reference :
  ∃ w actors o,
    system_reachable rounds os_exec
      (empty_world, start my_layout my_size rounds <$>
        [CreatePublishSubscribe my_service u64; OpenPublishSubscribe demanding u64]) (w, actors) ∧
    Forall finished actors ∧
    is_Some (file_names w !! my_path) ∧ shm_names w !! my_name = Some 0%nat ∧ shms w !! 0%nat = Some o ∧
    counter o = 1.
Proof.
  pose (l := [CreatePublishSubscribe my_service u64; OpenPublishSubscribe demanding u64]).
  pose (order := replicate 10 0%nat ++ replicate 11 1%nat ++ replicate 3 0%nat).
  destruct (scenario (after l order)
              (λ s, ((λ a, match a with Leaving (Done (Return _)) => 1 | Building (Done (Return None)) => 2 | _ => 0 end)
                     <$> s.2, file_names s.1 !! my_path, shm_names s.1 !! my_name, shms s.1))
              ([1; 2], Some 0%nat, Some 0%nat, [mkShm 1 true 510]))
    as ([w actors] & Hs & Hv); [vm_compute; reflexivity|].
  cbn [fst snd] in Hv. injection Hv as Ha Hf Hn Ho.
  exists w, actors, (mkShm 1 true 510). split; [exact (after_reachable _ _ _ Hs)|]. clear Hs.
  rewrite Hf, Hn, Ho. split_and!; try done.
  destruct actors as [|[[[[]| |]|]|?|[[]|]] [|[[[[]| |]|]|?|[[]|]] [|]]]; try discriminate Ha. repeat constructor.
Qed.

(** The operating system [exec] on a full disk. *)
Definition exec_disk_full (w : world) (q : request) : world * response q :=
  match q return world * response q with
  | FileWrite _ _ => (w, Err NoSpaceLeft)
  | q => exec w q
  end.

Lemma exec_disk_full_documented w q :
  mapped w q → documented w q (exec_disk_full w q).1 (exec_disk_full w q).2.
Proof. intros Hm. destruct q; try (by apply exec_documented). done. Qed.

(** A creation that fails after the static storage has been reserved leaves it
    locked for good: no process holds the service and every later creation is told
    that another process is creating it. *)
Theorem failed_creation_blocks_the_name :
  let create := PublishSubscribeBuilder.create my_layout my_size my_service u64 in
  let '(r, w) := run exec_disk_full create empty_world in
  let '(r', w') := run exec create w in
  (r, file_names w !! my_path, r', file_names w' !! my_path) =
  (Return (Err PublishSubscribeBuilder.CreateCorrupted), Some 0%nat,
   Return (Err PublishSubscribeBuilder.CreateIsBeingCreatedByAnotherInstance), Some 0%nat).
Proof. vm_compute. reflexivity. Qed.

(** A publish-subscribe service, and somebody who expects an event service. *)
Definition create_then_open_event :=
  let* r := PublishSubscribeBuilder.create my_layout my_size my_service u64 in
  let* a := EventBuilder.open my_size rounds my_event in
  let* b := EventBuilder.open_or_create my_layout my_size rounds my_event in
  ret (match r with Ok _ => true | Err _ => false end, a, b).

(** The same obstacle, two answers: opening an event service whose name belongs to
    a publish-subscribe service is answered with [PermissionDenied] by [open] and with
    [IncompatibleMessagingPattern] by [open_or_create]. *)
Theorem wrong_pattern_reported_as_permission :
  (run exec create_then_open_event empty_world).1 =
  Return (true, Err EventBuilder.OpenPermissionDenied,
          Err (EventBuilder.EventOpen EventBuilder.OpenIncompatibleMessagingPattern)).
Proof. vm_compute. reflexivity. Qed.
